(* ===== verification/_CoqProject ===== *)
-Q . S2P
Prelude.v
Bits.v
ConstMath.v
Machine.v
SizeClasses.v
Atomics.v
ObjSlab.v
SlabManager.v
ObjectAllocator.v
AllocatorInv.v
AllocatorSteps.v
AllocatorCorrect.v
AllocatorSpec.v
AllocatorTheorems.v
BlockList.v
BlockListCorrect.v
BlockListTheorems.v
CString.v
SysInfo.v
SysInfoCorrect.v
SysInfoHeader.v
SysInfoTheorems.v
ArgParser.v
ArgParserCorrect.v
ArgParserTheorems.v
Rseq.v
RseqCorrect.v
RseqAllocator.v
RseqSend.v
RseqTheorems.v
RseqHelpers.v
RseqDemo.v
MmapHelpers.v
Printing.v
Doubles.v
Timing.v
TimingTheorems.v
ThreadHelper.v
SlabTest.v
SlabTestCorrect.v
SlabTestTheorems.v
TcCommon.v
TcSizeClasses.v
TcExperiment.v
TcSizeMap.v
TcSizeMapCorrect.v
TcSizeMapTheorems.v
TcRangeTracker.v
TcRangeTrackerCorrect.v
TcRangeTrackerTheorems.v
TcSpan.v
TcSpanCorrect.v
TcSpanTheorems.v
TcPageMap.v
TcPageMapCorrect.v
TcPageMap3Correct.v
TcPageMapTheorems.v
TcLinkedList.v
TcLinkedListCorrect.v
TcLinkedListTheorems.v
TcSystemAlloc.v
TcSystemAllocCorrect.v
TcSystemAllocTheorems.v
TcArena.v
TcArenaCorrect.v
TcArenaTheorems.v
TcPageHeap.v
TcPageHeapLists.v
TcPageHeapInv.v
TcPageHeapMerge.v
TcPageHeapCarve.v
TcPageHeapAlloc.v
TcPageHeapNew.v
TcPageHeapOps.v
TcPageHeapRelease.v
TcPageHeapStats.v
TcPageHeapTheorems.v
