(* ===== verification/Prelude.v ===== *)
(** * NCMalloc: a verification library

    NCMalloc is a memory allocator for multi-core machines: every CPU has its own
    slabs and its own caches of freed blocks, which it changes without atomic
    instructions by restartable sequences (rseq), short pieces of assembly that
    the kernel restarts when it preempts, migrates or signals the thread in the
    middle.  The repository also holds the libraries and tools the allocator is
    built with, its tests, and a copy of tcmalloc, whose building blocks are
    modelled up to the page heap.  Paths below are under [src/].

    ** How programs are modelled

    Definitions are executable translations of the C++ and assembly sources and
    keep their names.  Machine integers are [Z] with their wrap-around written out
    ([wrap], [u32], [u64]).  Stateful code is a function in the monad [ST] over a
    record of the component's state; its outcome is [Done], [Fault] (a failed
    assertion, undefined behaviour, an access outside of an object, a use of freed
    memory), [OutOfFuel] or [Crashed] (the process ends for want of memory, as
    the arenas of tcmalloc do).  [wp md m Q s] says that [m] run from [s] ends in
    [Q] if it is [Done], and cannot do anything else: [Total] allows no other
    outcome, [Crashing] also [Crashed], [Partial] also [OutOfFuel].  Code outside of the repository (system calls, the threads
    library, the file system, floating-point conversions of the C library) is a
    parameter, or a class with the laws it documents; each such class has an
    instance that a witness runs on.

    ** The allocator

    - [Bits], [ConstMath], [Machine], [SizeClasses], [Atomics]: lib/optimized,
      lib/util/const_utils.h, lib/system/memory.h and the generated constants,
      allocator/slab_size_classes.h, lib/concurrency/bitvec_atomics.h.
    - [ObjSlab]: allocator/obj_slab.h.  [SlabManager]: slab_manager.h, free_cache.h,
      slab_allocation.h.  [ObjectAllocator]: object_allocator.h.  A restartable
      sequence is one step here; the CPU every step runs on is arbitrary.
    - [AllocatorInv], [AllocatorSteps], [AllocatorCorrect]: the invariant, with the
      place of every slab and block as ghost state, and the operations against it.
      [AllocatorSpec]: the abstract allocator of addresses and requests.
    - [AllocatorTheorems]: every history of client calls refines the abstract
      allocator; blocks in use are disjoint, large enough and aligned; no slab and
      no block is lost or in two places; [_allocate] and [_free] fail no assertion,
      and [_allocate] ends on a thread that keeps its CPU; which requests and
      regions break these promises.
    - [Rseq]: the assembly of each restartable sequence, an assembler, and a
      machine of threads, CPUs and the kernel.  [RseqCorrect]: the atomic machine,
      in which a call is one step on the CPU of its thread, and when sequences
      implement it.  [RseqAllocator], [RseqSend], [RseqTheorems]: the sequences of the
      allocator are the one-step operations above, under preemption, migration and
      signals between any two instructions, and return within a bound; [_send_slab]
      is not atomic.  [RseqHelpers], [RseqDemo]: lib/concurrency/rseq/,
      dep/verify_rseq.cc and src/rseq_demo.cc.
    - [MmapHelpers]: lib/system/mmap_helpers.h, the constructors and the destructor
      of the allocator.  [Printing]: the functions that write the state.
    - [SlabTest], [SlabTestCorrect], [SlabTestTheorems]: src/slab_test.cc; its tests
      pass and end in every interleaving of the calls of its threads.

    ** Libraries and tools

    - [BlockList], [BlockListCorrect], [BlockListTheorems]:
      lib/container/block_list.h against the set of elements it holds, and the
      insertions that it loses.
    - [CString]: the parts of the C library that the tools use.  [ArgParser],
      [ArgParserCorrect], [ArgParserTheorems]: lib/util/arg.h and arg.cc; command
      lines are accepted and rejected as documented.  [SysInfo], [SysInfoCorrect],
      [SysInfoHeader], [SysInfoTheorems]: lib/system/sys_info.h; the macros of the
      generated header, read back from its lines, describe the machine.
    - [Doubles]: IEEE doubles.  [Timing], [TimingTheorems]: lib/timing/timers.h,
      stats.h, stats.cc; results and bounds of the statistics.  [ThreadHelper]:
      lib/timing/thread_helper.h and thread_helper.cc.

    ** tcmalloc (tcmalloc-src/tcmalloc/)

    - [TcCommon], [TcSizeClasses], [TcExperiment], [TcSizeMap], [TcSizeMapCorrect],
      [TcSizeMapTheorems]: common.h, the tables of size classes, experiment.cc,
      runtime_size_classes.cc; in every configuration the size map returns the
      smallest class that fits.
    - [TcRangeTracker], [TcRangeTrackerCorrect], [TcRangeTrackerTheorems]:
      internal/range_tracker.h; best-fit allocation of ranges of bits.
    - [TcSpan], [TcSpanCorrect], [TcSpanTheorems]: span.h and span.cc; a span never
      hands out an object twice.
    - [TcPageMap], [TcPageMapCorrect], [TcPageMap3Correct], [TcPageMapTheorems]:
      pagemap.h and pagemap.cc; both radix trees implement one interface, the
      classes [PageMapImpl] and [PageMapLaws].
    - [TcLinkedList], [TcLinkedListCorrect], [TcLinkedListTheorems]:
      internal/linked_list.h; the lists are sequences.
    - [TcSystemAlloc], [TcSystemAllocCorrect], [TcSystemAllocTheorems]:
      system-alloc.cc over any kernel that keeps the laws of the class
      [KernelLaws]; memory is given out once, with the tag asked for.  It
      implements the classes [SystemMemory] and [SystemMemoryLaws].
    - [TcArena], [TcArenaCorrect], [TcArenaTheorems]: arena.h, arena.cc and
      page_heap_allocator.h over any such system; they implement the classes
      [ObjectPool], [MetaMemory] and their laws.
    - [TcPageHeap]: page_heap.h and page_heap.cc, over the three interfaces.  Its
      proofs are [TcPageHeapLists] (free lists and byte counts), [TcPageHeapInv]
      (the invariant), [TcPageHeapMerge], [TcPageHeapCarve], [TcPageHeapAlloc],
      [TcPageHeapNew], [TcPageHeapOps], [TcPageHeapRelease] and [TcPageHeapStats]
      (the operations).  [TcPageHeapTheorems]: over all histories, with other
      threads running while memory is released, spans in use share no page and are
      found in the page map, free neighbours are merged, all operations return
      (or end the process when the system has no memory for a span object), the
      best fit is taken, and the statistics are exact; the interfaces are
      discharged by the page map, the object allocator and the system allocator.

    ** Bounds and fuel

    Loops over arrays and words are structural.  Loops that are not take fuel:
    [_allocate] takes at most [2n+2] rounds with [n] slabs in use; the lists of
    block lists and free lists are followed for as many steps as they have
    elements, and those of the page heap for one more than there are spans;
    [ReleaseAtLeastNPages] takes two rounds more than there are spans, since each
    round but the last two releases one; the retry loops of the system allocator
    and of the memory mapping helpers take as many rounds as the kernel asks for;
    the size map fills one entry per round.  For each the theorems prove that the
    fuel given, or any above a bound they state, is enough, so that [OutOfFuel] is
    excluded.  Histories of the page heap carry a number of span objects that the
    object allocator can make without asking the system; they do not end when it
    is used up, but a call may then end the process.

    ** Not modelled

    - src/slab_test-16.cc (a benchmark), lib/debug, lib/misc except for the error
      exits, lib/util/verbosity.h and casting.h, lib/system/signals.h: printing,
      compiler attributes, process control.
    - Memory models weaker than sequential consistency; the allocator relies on
      atomic instructions and on stores of one CPU only.
    - In [AllocatorTheorems] calls of several threads do not overlap, but every
      step may run on another CPU; overlap inside of the restartable sequences is
      the subject of [RseqTheorems].  Locks of tcmalloc are taken to work: an
      operation under a lock is one step.
    - Of tcmalloc: the caches of objects above the page heap (central free lists,
      transfer, thread and CPU caches), the huge page allocator except for its
      range trackers, sampling, profiling, guarded pages, and the functions that
      replace malloc: the allocator of the repository takes their place, and they
      depend on Abseil and on symbol interposition. *)

From stdpp Require Export base tactics numbers option gmap list.

#[global] Open Scope Z_scope.

(** ** Machine words

    A [w]-bit unsigned integer is a [Z] in [0, 2^w).  Arithmetic that can
    leave the range is written with [wrap], which is what the C++ unsigned
    types and the x86 registers do. *)

Declare Scope word_scope.
Delimit Scope word_scope with word.

Definition wrap (w x : Z) : Z := x mod 2 ^ w.

Definition is_word (w x : Z) : Prop := 0 ≤ x < 2 ^ w.

#[global] Instance is_word_dec w x : Decision (is_word w x).
Proof. unfold is_word. apply _. Defined.

(** [~x] of an unsigned [w]-bit type. *)
Definition wnot (w x : Z) : Z := wrap w (Z.lnot x).

Abbreviation u64 := (wrap 64).
Abbreviation u32 := (wrap 32).

Create HintDb word discriminated.
Create HintDb bits discriminated.

Section Words.
Context (w : Z) (Hw : 0 ≤ w).

Lemma pow2_pos : 0 < 2 ^ w.
Proof. lia. Qed.

Lemma wrap_word x : is_word w (wrap w x).
Proof. apply Z.mod_pos_bound, pow2_pos. Qed.

Lemma wrap_small x : is_word w x → wrap w x = x.
Proof. intros H. apply Z.mod_small, H. Qed.

Lemma wrap_testbit x i :
  0 ≤ i → Z.testbit (wrap w x) i = (i <? w) && Z.testbit x i.
Proof.
  intros Hi. unfold wrap. destruct (Z.ltb_spec i w).
  - rewrite Z.mod_pow2_bits_low; done.
  - rewrite Z.mod_pow2_bits_high; done.
Qed.

Lemma word_testbit_high x i : is_word w x → w ≤ i → Z.testbit x i = false.
Proof.
  intros Hx Hi. rewrite <-(wrap_small x Hx), wrap_testbit by lia.
  by replace (i <? w) with false by lia.
Qed.

Lemma wnot_testbit x i :
  0 ≤ i → Z.testbit (wnot w x) i = (i <? w) && negb (Z.testbit x i).
Proof. intros Hi. unfold wnot. rewrite wrap_testbit by done. by rewrite Z.lnot_spec. Qed.

Lemma wnot_word x : is_word w (wnot w x).
Proof. apply wrap_word. Qed.

(** A nonnegative number whose bits from [w] on are clear is a [w]-bit word. *)
Lemma word_of_testbit x :
  0 ≤ x → (∀ i, w ≤ i → Z.testbit x i = false) → is_word w x.
Proof.
  intros Hx Hi. split; [done|].
  assert (wrap w x = x) as <-; [|apply wrap_word].
  apply Z.bits_inj'. intros i Hi0. rewrite wrap_testbit by done.
  destruct (Z.ltb_spec i w); [done|]. by rewrite Hi.
Qed.

Lemma word_zero_iff x : is_word w x → (x = 0 ↔ ∀ i, 0 ≤ i < w → Z.testbit x i = false).
Proof.
  intros Hx. split; [intros ->; intros; apply Z.bits_0|].
  intros H. apply Z.bits_inj'. intros i Hi. rewrite Z.bits_0.
  destruct (Z.lt_ge_cases i w); [by apply H|by apply word_testbit_high].
Qed.

Lemma word_eq x y :
  is_word w x → is_word w y →
  (∀ i, 0 ≤ i < w → Z.testbit x i = Z.testbit y i) → x = y.
Proof.
  intros Hx Hy H. apply Z.bits_inj'. intros i Hi.
  destruct (Z.lt_ge_cases i w); [by apply H|].
  by rewrite !word_testbit_high.
Qed.

Lemma word_land x y : is_word w x → 0 ≤ y → is_word w (Z.land x y).
Proof.
  intros Hx Hy. apply word_of_testbit; [apply Z.land_nonneg; lia|].
  intros i Hi. rewrite Z.land_spec, word_testbit_high by done. done.
Qed.

Lemma word_lor x y : is_word w x → is_word w y → is_word w (Z.lor x y).
Proof.
  intros Hx Hy. apply word_of_testbit; [apply Z.lor_nonneg; unfold is_word in *; lia|].
  intros i Hi. by rewrite Z.lor_spec, !word_testbit_high.
Qed.

Lemma word_bit i : 0 ≤ i < w → is_word w (1 ≪ i).
Proof.
  intros Hi. rewrite Z.shiftl_1_l. split; [lia|].
  apply Z.pow_lt_mono_r; lia.
Qed.

Lemma word_0 : is_word w 0.
Proof. split; lia. Qed.
End Words.

Lemma testbit_bit i j : 0 ≤ i → 0 ≤ j → Z.testbit (1 ≪ i) j = (i =? j).
Proof. intros Hi Hj. rewrite Z.shiftl_1_l. by apply Z.pow2_bits_eqb. Qed.

#[export] Hint Resolve wrap_word wnot_word word_land word_lor word_bit word_0 : word.
#[export] Hint Extern 1 (0 ≤ _) => lia : word.
#[export] Hint Extern 1 (_ ≤ _ < _) => lia : word.

(** [is_word] side conditions of the constants of the code. *)
Ltac word_const := unfold is_word; lia.

(** ** Ranges of integers *)

(** A boolean statement about every integer of a concrete range is settled by
    evaluation. *)
Lemma range_forallb (P : Z → bool) m n :
  forallb P (seqZ m n) = true → ∀ i, m ≤ i < m + n → P i = true.
Proof.
  intros H i Hi. rewrite forallb_forall in H. apply H.
  by apply list_elem_of_In, elem_of_seqZ.
Qed.

(** [by_range P m n H]: [P i = true] for the [i] of hypothesis [H : m ≤ i < m + n],
    by evaluating [P] on the range. *)
Ltac by_range P m n :=
  apply (range_forallb P m n); [vm_compute; reflexivity|lia].

(** ** Outcomes and the state monad

    A modelled operation ends in a value, in undefined behaviour or a failed
    assertion ([Fault]), runs out of the fuel that bounds its loops, or ends the
    program with a message because there is no memory left ([Crashed]). *)

Inductive outcome (A : Type) : Type :=
  | Done (a : A)
  | Fault
  | OutOfFuel
  | Crashed.
Arguments Done {A} a.
Arguments Fault {A}.
Arguments OutOfFuel {A}.
Arguments Crashed {A}.

Definition ST (S A : Type) : Type := S → outcome (A * S).

#[export] Instance ST_ret {S} : MRet (ST S) := λ A a s, Done (a, s).

#[export] Instance ST_bind {S} : MBind (ST S) := λ A B f m s,
  match m s with
  | Done (a, s') => f a s'
  | Fault => Fault
  | OutOfFuel => OutOfFuel
  | Crashed => Crashed
  end.

Section StateOps.
Context {S : Type}.

Definition fault {A} : ST S A := λ _, Fault.
Definition out_of_fuel {A} : ST S A := λ _, OutOfFuel.
Definition crash {A} : ST S A := λ _, Crashed.
Definition gets {A} (f : S → A) : ST S A := λ s, Done (f s, s).
Definition modify (f : S → S) : ST S unit := λ s, Done (tt, f s).
Definition require (b : bool) : ST S unit := λ s, if b then Done (tt, s) else Fault.
Definition from_opt {A} (o : option A) : ST S A :=
  λ s, match o with Some a => Done (a, s) | None => Fault end.
End StateOps.

(** What may happen besides a result: nothing, the end of the program for want
    of memory, or that the fuel runs out. *)
Inductive mode := Total | Crashing | Partial.

Definition mode_of (total : bool) : mode := if total then Total else Partial.
Coercion mode_of : bool >-> mode.

(** [wp md m Q s]: run from [s], [m] does not fault and ends in a value and
    state satisfying [Q]; it runs out of fuel only when [md] is [Partial], and
    ends the program only when [md] is [Crashing].  For a boolean, [true] is
    [Total] and [false] is [Partial]. *)
Definition wp {S A} (md : mode) (m : ST S A) (Q : A → S → Prop) (s : S) : Prop :=
  match m s with
  | Done (a, s') => Q a s'
  | Fault => False
  | OutOfFuel => md = Partial
  | Crashed => md = Crashing
  end.

Create HintDb wp discriminated.

Section WP.
Context {S : Type} (total : mode).

Lemma wp_ret {A} (a : A) (Q : A → S → Prop) s : Q a s → wp total (mret a) Q s.
Proof. done. Qed.

Lemma wp_bind {A B} (m : ST S A) (f : A → ST S B) Q s :
  wp total m (λ a, wp total (f a) Q) s → wp total (m ≫= f) Q s.
Proof. unfold wp, mbind, ST_bind. by destruct (m s) as [[]| | |]. Qed.

Lemma wp_mono {A} (m : ST S A) (Q R : A → S → Prop) s :
  wp total m Q s → (∀ a s', Q a s' → R a s') → wp total m R s.
Proof. unfold wp. destruct (m s) as [[]| | |]; auto. Qed.

Lemma wp_gets {A} (f : S → A) (Q : A → S → Prop) s : Q (f s) s → wp total (gets f) Q s.
Proof. done. Qed.

Lemma wp_modify f (Q : unit → S → Prop) s : Q tt (f s) → wp total (modify f) Q s.
Proof. done. Qed.

Lemma wp_require b (Q : unit → S → Prop) s : b = true → Q tt s → wp total (require b) Q s.
Proof. by intros ->. Qed.

Lemma wp_from_opt {A} (o : option A) a (Q : A → S → Prop) s :
  o = Some a → Q a s → wp total (from_opt o) Q s.
Proof. by intros ->. Qed.

Lemma wp_done {A} (m : ST S A) Q s a s' : m s = Done (a, s') → wp total m Q s → Q a s'.
Proof. unfold wp. by intros ->. Qed.
End WP.

(** A total specification holds in every mode. *)
Lemma wp_total {S A} (b : mode) (m : ST S A) Q s : wp true m Q s → wp b m Q s.
Proof. unfold wp. by destruct (m s) as [[]| | |]. Qed.

Lemma wp_total_done {S A} (m : ST S A) Q s :
  wp true m Q s → ∃ a s', m s = Done (a, s') ∧ Q a s'.
Proof. unfold wp. destruct (m s) as [[a s']| | |]; [eauto|done|done|done]. Qed.

(** Symbolic execution of the administrative steps. *)
Ltac wp_step :=
  lazymatch goal with
  | |- wp _ (mbind _ _) _ _ => apply wp_bind
  | |- wp _ (mret _) _ _ => apply wp_ret
  | |- wp _ (gets _) _ _ => apply wp_gets
  | |- wp _ (modify _) _ _ => apply wp_modify
  | |- wp _ (require _) _ _ => apply wp_require
  | |- wp _ (from_opt _) _ _ => eapply wp_from_opt
  | |- wp _ (if ?b then _ else _) _ _ => let E := fresh "Eb" in destruct b eqn:E
  end.

(** ** Words in arrays *)

(** Bit [p] of an array of 64-bit words: bit [p mod 64] of word [p / 64]. *)
Definition bit_at (l : list Z) (p : Z) : bool :=
  match l !! Z.to_nat (p / 64) with
  | Some x => Z.testbit x (p mod 64)
  | None => false
  end.

Definition words (l : list Z) : Prop := length l = 64%nat ∧ Forall (is_word 64) l.

Lemma words_lookup l i : words l → 0 ≤ i < 64 → ∃ x, l !! Z.to_nat i = Some x ∧ is_word 64 x.
Proof.
  intros [Hl HF] Hi. destruct (lookup_lt_is_Some_2 l (Z.to_nat i)) as [x Hx]; [lia|].
  exists x. split; [done|]. by apply (Forall_lookup_1 _ _ _ _ HF Hx).
Qed.

Lemma words_insert l i x : words l → is_word 64 x → words (<[i := x]> l).
Proof.
  intros [Hl HF] Hx. split; [by rewrite length_insert|]. by apply Forall_insert.
Qed.

(** An array of zeroed words. *)
Definition zero_words : list Z := replicate 64 0.
Arguments zero_words : simpl never.

Lemma zero_words_lookup i x : zero_words !! i = Some x → x = 0.
Proof. intros Hx. by apply lookup_replicate in Hx as [-> _]. Qed.

Lemma words_zero : words zero_words.
Proof. split; [done|]. apply Forall_replicate. by apply word_0. Qed.

#[export] Hint Resolve words_insert words_zero : word.

Lemma bit_at_lookup l i j x :
  l !! Z.to_nat i = Some x → 0 ≤ j < 64 → bit_at l (64 * i + j) = Z.testbit x j.
Proof.
  intros Hx Hj. unfold bit_at.
  replace ((64 * i + j) / 64) with i by (apply Z.div_unique with j; lia).
  replace ((64 * i + j) mod 64) with j by (apply Z.mod_unique with i; lia).
  by rewrite Hx.
Qed.

(** Every position is [64 * i + j]. *)
Lemma pos_split p : 0 ≤ p < 4096 → ∃ i j, p = 64 * i + j ∧ 0 ≤ i < 64 ∧ 0 ≤ j < 64.
Proof.
  intros Hp. exists (p / 64), (p mod 64).
  pose proof (Z.div_mod p 64). pose proof (Z.mod_pos_bound p 64).
  split; [lia|]. split; [|lia]. split; [apply Z.div_pos; lia|apply Z.div_lt_upper_bound; lia].
Qed.

Lemma bit_at_insert l i x p :
  words l → 0 ≤ i < 64 → 0 ≤ p < 4096 →
  bit_at (<[Z.to_nat i := x]> l) p =
    if p / 64 =? i then Z.testbit x (p mod 64) else bit_at l p.
Proof.
  intros [Hl _] Hi Hp. unfold bit_at.
  assert (0 ≤ p / 64) by (apply Z.div_pos; lia).
  destruct (Z.eqb_spec (p / 64) i) as [->|Hne].
  - by rewrite list_lookup_insert_eq by lia.
  - by rewrite list_lookup_insert_ne by lia.
Qed.

Lemma bit_at_zeros p : bit_at zero_words p = false.
Proof.
  unfold bit_at. destruct (zero_words !! _) as [x|] eqn:E; [|done].
  apply zero_words_lookup in E as ->. apply Z.bits_0.
Qed.

(** ** Filtered lists *)

Lemma filter_none {A} (P : A → Prop) `{∀ x, Decision (P x)} (l : list A) :
  (∀ x, x ∈ l → ¬ P x) → filter P l = [].
Proof.
  intros Hl. induction l as [|a l IH]; [done|].
  rewrite filter_cons_False by (apply Hl; set_solver). apply IH. set_solver.
Qed.

Lemma filter_iff {A} (P Q : A → Prop) `{∀ x, Decision (P x)} `{∀ x, Decision (Q x)}
    (l : list A) :
  (∀ x, x ∈ l → P x ↔ Q x) → filter P l = filter Q l.
Proof.
  intros Hl. induction l as [|a l IH]; [done|].
  rewrite !filter_cons. pose proof (Hl a ltac:(set_solver)) as Ha.
  rewrite IH by set_solver. destruct (decide (P a)), (decide (Q a)); tauto || done.
Qed.

(** ** Arrays indexed by integers; [None] is an access out of range *)

Definition get_at {A} (l : list A) (i : Z) : option A :=
  if 0 <=? i then l !! Z.to_nat i else None.

Definition put_at {A} (l : list A) (i : Z) (v : A) : option (list A) :=
  if (0 <=? i) && (i <? Z.of_nat (length l)) then Some (<[Z.to_nat i := v]> l) else None.

Section Arrays.
Context {A : Type}.
Implicit Types (l : list A) (i j : Z).

Lemma get_at_Some l i x : get_at l i = Some x → 0 ≤ i < Z.of_nat (length l).
Proof.
  unfold get_at. destruct (Z.leb_spec 0 i); [|done]. intros H1%lookup_lt_Some. lia.
Qed.

Lemma get_at_is_Some l i : 0 ≤ i < Z.of_nat (length l) → ∃ x, get_at l i = Some x.
Proof.
  intros Hi. unfold get_at. replace (0 <=? i) with true by lia.
  apply lookup_lt_is_Some_2. lia.
Qed.

Lemma put_at_Some l i (v : A) :
  0 ≤ i < Z.of_nat (length l) → put_at l i v = Some (<[Z.to_nat i := v]> l).
Proof.
  intros Hi. unfold put_at.
  by replace ((0 <=? i) && (i <? Z.of_nat (length l))) with true by lia.
Qed.

Lemma get_at_insert l i j (v : A) :
  0 ≤ i < Z.of_nat (length l) →
  get_at (<[Z.to_nat i := v]> l) j = if decide (i = j) then Some v else get_at l j.
Proof.
  intros Hi. unfold get_at. destruct (Z.leb_spec 0 j); [|by case_decide; [lia|]].
  destruct (decide (i = j)) as [<-|Hne].
  - apply list_lookup_insert_eq. lia.
  - apply list_lookup_insert_ne. lia.
Qed.
End Arrays.
