(* ===== verification/Bits.v ===== *)
(** * Bit operations ([lib/optimized/bits.h], [lib/optimized/bits_asm.h])

    The x86 bit instructions the code reaches through intrinsics, the
    templates of namespace [bits] on a [w]-bit unsigned type ([w] is
    [8 * sizeof(T)], the instantiations being 32 and 64), and the macros of
    [bits_asm.h].  A shift by at least the width of its operand is undefined
    in C++: such operations return [option]. *)

From S2P Require Import Prelude.

(** ** The instructions *)

Fixpoint pos_tz (p : positive) : Z :=
  match p with
  | xO q => 1 + pos_tz q
  | _ => 0
  end.

(** [tzcnt]: number of trailing zeros, the operand width on 0. *)
Definition instr_tzcnt (w v : Z) : Z :=
  match v with
  | Zpos p => pos_tz p
  | _ => w
  end.

(** [lzcnt]: number of leading zeros, the operand width on 0. *)
Definition instr_lzcnt (w v : Z) : Z :=
  if v =? 0 then w else w - 1 - Z.log2 v.

(** [popcnt]. *)
Fixpoint pos_popcnt (p : positive) : Z :=
  match p with
  | xO q => pos_popcnt q
  | xI q => 1 + pos_popcnt q
  | xH => 1
  end.

Definition instr_popcnt (v : Z) : Z :=
  match v with
  | Zpos p => pos_popcnt p
  | _ => 0
  end.

(** [pdep]: the low bits of [src] are deposited at the set bits of [mask].
    [m] is the position in [mask], [k] the next bit of [src]. *)
Fixpoint pdep_from (n : nat) (m k src mask : Z) : Z :=
  match n with
  | O => 0
  | S n' =>
      if Z.testbit mask m
      then Z.lor (Z.b2z (Z.testbit src k) ≪ m) (pdep_from n' (m + 1) (k + 1) src mask)
      else pdep_from n' (m + 1) k src mask
  end.

Definition instr_pdep (w src mask : Z) : Z := pdep_from (Z.to_nat w) 0 0 src mask.

(** [blsr]: clears the lowest set bit; the C++ spelling is [v & (v - 1)]. *)
Definition blsr (v : Z) : Z := Z.land v (wrap 64 (v - 1)).

(** [x << n] on a [w]-bit unsigned type. *)
Definition shl (w x n : Z) : option Z :=
  if n <? w then Some (wrap w (x ≪ n)) else None.

(** ** Namespace [bits] *)

(** The intrinsics come in 32 and 64 bits: [sizeof(T) == sizeof(uint64_t)]. *)
Definition intr_width (w : Z) : Z := if w =? 64 then 64 else 32.

Definition bitcount (w v : Z) : Z := wrap w (instr_popcnt v).

Definition tzcnt (w v : Z) : Z := wrap w (instr_tzcnt (intr_width w) v).

Definition lzcnt (w v : Z) : Z := wrap w (instr_lzcnt (intr_width w) v).

Definition pdep (w mask v : Z) : Z := wrap w (instr_pdep (intr_width w) mask v).

Definition find_first_one (w v : Z) : Z := tzcnt w v.

Definition find_first_zero (w v : Z) : Z := tzcnt w (wnot w v).

Definition find_last_one (w v : Z) : Z := wrap w (w - 1 - lzcnt w v).

Definition find_last_zero (w v : Z) : Z := wrap w (w - 1 - lzcnt w (wnot w v)).

(** [bswap]: the bytes in reverse order. *)
Definition bswap (w v : Z) : Z :=
  little_endian_to_Z 8 (reverse (Z_to_little_endian (w / 8) 8 v)).

(** [bits::next_p2]. *)
Definition bits_next_p2 (w v : Z) : option Z :=
  if v =? 1 then Some 0 else shl w 1 (w - lzcnt w (wrap w (v - 1))).

(** [to_mask]: the 32-bit version computes in [int], where [1 << 31] minus 1
    overflows. *)
Definition to_mask (w v : Z) : option Z :=
  if w =? 64 then x ← shl 64 1 v; Some (wrap 64 (x - 1))
  else if v <? 31 then Some (wrap w ((1 ≪ v) - 1)) else None.

Definition nth_bit (w v n : Z) : option Z :=
  if n <? w then Some (Z.land (v ≫ n) 1) else None.

Definition get_nth_set_bit (w v n : Z) : option Z :=
  x ← shl w 1 n; Some (tzcnt w (pdep w x v)).

Definition get_nth_unset_bit (w v n : Z) : option Z :=
  x ← shl w 1 n; Some (tzcnt w (pdep w x (wnot w v))).

(** ** Macros of [bits_asm.h]

    [mem] is the data memory: in AT&T syntax [sub 31, %d] subtracts the word
    at address 31, not the constant 31. *)

Definition TZCNT_ASM (w src : Z) : Z := instr_tzcnt w src.
Definition LZCNT_ASM (w src : Z) : Z := instr_lzcnt w src.
Definition BITCOUNT_ASM (src : Z) : Z := instr_popcnt src.
Definition FF1_ASM (w src : Z) : Z := instr_tzcnt w src.
Definition FF0_ASM (w src : Z) : Z := instr_tzcnt w (wnot w src).
Definition FL1_ASM_32 (mem : Z → Z) (src : Z) : Z := wrap 32 (instr_tzcnt 32 src - mem 31).
Definition FL1_ASM_64 (mem : Z → Z) (src : Z) : Z := wrap 64 (instr_tzcnt 64 src - mem 63).

(** ** Trailing zeros *)

Lemma pos_tz_nonneg p : 0 ≤ pos_tz p.
Proof. induction p; simpl; lia. Qed.

Lemma pos_tz_bit p : Z.testbit (Zpos p) (pos_tz p) = true.
Proof.
  induction p as [p _|p IH|]; [done| |done].
  change (pos_tz p~0) with (1 + pos_tz p).
  pose proof (pos_tz_nonneg p).
  rewrite Pos2Z.inj_xO, Z.add_1_l, Z.testbit_even_succ by lia. done.
Qed.

Lemma pos_tz_low p i : 0 ≤ i < pos_tz p → Z.testbit (Zpos p) i = false.
Proof.
  revert i. induction p as [p _|p IH|]; simpl; intros i Hi; [lia| |lia].
  rewrite Pos2Z.inj_xO. destruct (Z.eq_dec i 0) as [->|Hi0]; [apply Z.testbit_even_0|].
  replace i with (Z.succ (i - 1)) by lia.
  rewrite Z.testbit_even_succ by lia. apply IH. lia.
Qed.

Lemma tzcnt_nonneg w v : 0 ≤ w → 0 ≤ instr_tzcnt w v.
Proof. intros Hw. destruct v; simpl; try lia. apply pos_tz_nonneg. Qed.

Lemma tzcnt_bit w v : 0 < v → Z.testbit v (instr_tzcnt w v) = true.
Proof. intros Hv. destruct v; try lia. apply pos_tz_bit. Qed.

Lemma tzcnt_low w v i : 0 < v → 0 ≤ i < instr_tzcnt w v → Z.testbit v i = false.
Proof. intros Hv. destruct v; try lia. apply pos_tz_low. Qed.

Lemma tzcnt_lt w v : 0 ≤ w → 0 < v < 2 ^ w → 0 ≤ instr_tzcnt w v < w.
Proof.
  intros Hw Hv. split; [by apply tzcnt_nonneg|].
  apply Z.nle_gt. intros Hle.
  assert (Z.testbit v (instr_tzcnt w v) = false) as Hf.
  { apply word_testbit_high with w; [done|unfold is_word; lia|done]. }
  rewrite tzcnt_bit in Hf by lia. done.
Qed.

Lemma tzcnt_unique w v i :
  0 ≤ i → Z.testbit v i = true → (∀ j, 0 ≤ j < i → Z.testbit v j = false) → 0 < v →
  instr_tzcnt w v = i.
Proof.
  intros Hi Hb Hlow Hv.
  pose proof (tzcnt_bit w v Hv) as Hb'.
  assert (0 ≤ instr_tzcnt w v) by (destruct v; simpl; try lia; apply pos_tz_nonneg).
  destruct (Z.lt_trichotomy (instr_tzcnt w v) i) as [Hlt|[Heq|Hgt]]; [|done|].
  - rewrite Hlow in Hb' by lia. done.
  - rewrite (tzcnt_low w v i Hv) in Hb by lia. done.
Qed.

(** ** Clearing the lowest set bit *)

Lemma land_pred_pos p :
  Z.land (Zpos p) (Zpos p - 1) = Zpos p - 2 ^ pos_tz p.
Proof.
  induction p as [p _|p IH|]; [| |done].
  - simpl pos_tz. change (2 ^ 0) with 1.
    replace (Z.pos p~1 - 1) with (Z.pos p~0) by lia.
    apply Z.bits_inj'. intros i Hi. rewrite Z.land_spec.
    destruct (Z.eq_dec i 0) as [->|].
    + rewrite Pos2Z.inj_xO, Z.testbit_even_0. by rewrite andb_false_r.
    + replace i with (Z.succ (i - 1)) by lia.
      rewrite Pos2Z.inj_xO, Pos2Z.inj_xI, Z.testbit_even_succ, Z.testbit_odd_succ by lia.
      apply andb_diag.
  - change (pos_tz p~0) with (1 + pos_tz p). pose proof (pos_tz_nonneg p).
    rewrite Z.pow_add_r, Z.pow_1_r, Pos2Z.inj_xO by lia.
    rewrite <-Z.mul_sub_distr_l, <-IH.
    replace (2 * Z.pos p - 1) with (2 * (Z.pos p - 1) + 1) by lia.
    apply Z.bits_inj'. intros i Hi. rewrite Z.land_spec.
    destruct (Z.eq_dec i 0) as [->|].
    + by rewrite !Z.testbit_even_0.
    + replace i with (Z.succ (i - 1)) by lia.
      rewrite !Z.testbit_even_succ, Z.testbit_odd_succ, Z.land_spec by lia. done.
Qed.

Lemma sub_pow2_testbit v k i :
  0 ≤ k → 0 ≤ i → Z.testbit v k = true →
  Z.testbit (v - 2 ^ k) i = Z.testbit v i && negb (k =? i).
Proof.
  intros Hk Hi Hb.
  replace (v - 2 ^ k) with (Z.ldiff v (2 ^ k)).
  - rewrite Z.ldiff_spec, Z.pow2_bits_eqb by done. done.
  - symmetry. apply Z.sub_nocarry_ldiff.
    apply Z.bits_inj'. intros j Hj.
    rewrite Z.ldiff_spec, Z.pow2_bits_eqb, Z.bits_0 by done.
    destruct (Z.eqb_spec k j) as [->|]; [by rewrite Hb|done].
Qed.

Lemma blsr_eq v : 0 < v → is_word 64 v → blsr v = v - 2 ^ instr_tzcnt 64 v.
Proof.
  intros Hv Hw. unfold blsr. rewrite wrap_small by (unfold is_word in *; lia).
  destruct v; try lia. apply land_pred_pos.
Qed.

Lemma blsr_testbit v i :
  0 < v → is_word 64 v → 0 ≤ i →
  Z.testbit (blsr v) i = Z.testbit v i && negb (instr_tzcnt 64 v =? i).
Proof.
  intros Hv Hw Hi. rewrite blsr_eq by done.
  apply sub_pow2_testbit; [by apply tzcnt_nonneg|done|by apply tzcnt_bit].
Qed.

Lemma blsr_lt v : 0 < v → is_word 64 v → 0 ≤ blsr v < v.
Proof.
  intros Hv Hw. pose proof (tzcnt_nonneg 64 v).
  split; [apply Z.land_nonneg; unfold is_word in *; lia|].
  rewrite blsr_eq by done. lia.
Qed.

Lemma blsr_word v : is_word 64 v → is_word 64 (blsr v).
Proof. intros. apply word_land; [lia|done|]. apply wrap_word. lia. Qed.

#[export] Hint Resolve blsr_word : word.

(** The 64-bit instances are the instructions themselves. *)
Lemma find_first_one_64 v : is_word 64 v → find_first_one 64 v = instr_tzcnt 64 v.
Proof.
  intros Hv. unfold find_first_one, tzcnt. apply wrap_small. simpl.
  change (intr_width 64) with 64.
  destruct (Z.eq_dec v 0) as [->|]; [done|].
  pose proof (tzcnt_lt 64 v). unfold is_word in *. lia.
Qed.

(** ** Properties of the templates *)

Section Templates.
Context (w : Z) (Hw : w = 32 ∨ w = 64).

Lemma intr_width_id : intr_width w = w.
Proof. by destruct Hw as [->| ->]. Qed.

Lemma small_count_wrap n : 0 ≤ n ≤ w → wrap w n = n.
Proof.
  intros Hn. apply wrap_small. destruct Hw as [->| ->]; word_const.
Qed.

Lemma tzcnt_eq v : is_word w v → tzcnt w v = instr_tzcnt w v.
Proof.
  intros Hv. unfold tzcnt. rewrite intr_width_id. apply small_count_wrap.
  destruct (Z.eq_dec v 0) as [->|]; [simpl; lia|].
  pose proof (tzcnt_lt w v). unfold is_word in *. lia.
Qed.

Lemma lzcnt_eq v : is_word w v → lzcnt w v = instr_lzcnt w v.
Proof.
  intros [Hv0 Hv]. unfold lzcnt, instr_lzcnt. rewrite intr_width_id.
  destruct (Z.eqb_spec v 0) as [->|]; [apply small_count_wrap; lia|].
  assert (Z.log2 v < w) by (apply Z.log2_lt_pow2; lia).
  pose proof (Z.log2_nonneg v). apply small_count_wrap. lia.
Qed.

Lemma find_first_one_spec v :
  is_word w v → v ≠ 0 →
  let i := find_first_one w v in
  0 ≤ i < w ∧ Z.testbit v i = true ∧ ∀ j, 0 ≤ j < i → Z.testbit v j = false.
Proof.
  intros Hv Hv0. unfold find_first_one. rewrite tzcnt_eq by done. unfold is_word in *.
  split; [apply tzcnt_lt; lia|]. split; [apply tzcnt_bit; lia|].
  intros j Hj. apply tzcnt_low with w; lia.
Qed.

Lemma find_first_zero_spec v :
  is_word w v → v ≠ 2 ^ w - 1 →
  let i := find_first_zero w v in
  0 ≤ i < w ∧ Z.testbit v i = false ∧ ∀ j, 0 ≤ j < i → Z.testbit v j = true.
Proof.
  intros Hv Hv1.
  assert (wnot w v ≠ 0) as Hn.
  { intros H0. apply Hv1. apply word_eq with w; [lia|done|unfold is_word; lia|].
    intros i Hi.
    assert (Z.testbit (wnot w v) i = false) as Hb by (rewrite H0; apply Z.bits_0).
    rewrite wnot_testbit in Hb by lia. replace (i <? w) with true in Hb by lia.
    simpl in Hb. apply negb_false_iff in Hb. rewrite Hb. symmetry.
    replace (2 ^ w - 1) with (Z.ones w) by (rewrite Z.ones_equiv; lia).
    apply Z.ones_spec_low. lia. }
  unfold find_first_zero. fold (find_first_one w (wnot w v)).
  destruct (find_first_one_spec (wnot w v)) as (Hi & Hb & Hlow);
    [by apply wnot_word; lia|done|].
  split; [done|]. split.
  - rewrite wnot_testbit in Hb by lia. by destruct (Z.testbit v _); rewrite ?andb_false_r in Hb.
  - intros j Hj. specialize (Hlow j Hj). rewrite wnot_testbit in Hlow by lia.
    replace (j <? w) with true in Hlow by lia. simpl in Hlow. by apply negb_false_iff.
Qed.

(** The comment of [find_last_one] says "return -1 if empty". *)
Lemma find_last_one_spec v :
  is_word w v →
  find_last_one w v = if v =? 0 then 2 ^ w - 1 else Z.log2 v.
Proof.
  intros Hv. unfold find_last_one. rewrite lzcnt_eq by done. unfold instr_lzcnt.
  destruct (Z.eqb_spec v 0) as [->|].
  - replace (w - 1 - w) with (-1) by lia. unfold wrap.
    destruct Hw as [->| ->]; done.
  - unfold is_word in Hv. replace (w - 1 - (w - 1 - Z.log2 v)) with (Z.log2 v) by lia.
    assert (Z.log2 v < w) by (apply Z.log2_lt_pow2; lia).
    pose proof (Z.log2_nonneg v). apply small_count_wrap. lia.
Qed.

(** [bits::next_p2] on [2, 2^(w-1)] is the least power of two above or at
    its argument; on 1 it returns 0, and on 0 or above [2^(w-1)] the shift
    is by the width. *)
Theorem bits_next_p2_spec v :
  is_word w v →
  bits_next_p2 w v =
    if v =? 1 then Some 0
    else if (v =? 0) || (2 ^ (w - 1) <? v) then None
    else Some (2 ^ Z.log2_up v).
Proof.
  intros Hv. unfold bits_next_p2. destruct (Z.eqb_spec v 1) as [->|H1]; [done|].
  unfold is_word in Hv. unfold shl.
  destruct (Z.eqb_spec v 0) as [->|H0]; simpl.
  { destruct Hw as [->| ->]; done. }
  rewrite (wrap_small w (v - 1)) by (unfold is_word; lia).
  rewrite lzcnt_eq by (unfold is_word; lia). unfold instr_lzcnt.
  replace (v - 1 =? 0) with false by lia.
  replace (w - (w - 1 - Z.log2 (v - 1))) with (Z.log2 (v - 1) + 1) by lia.
  assert (Z.log2_up v = Z.log2 (v - 1) + 1) as Hup.
  { rewrite Z.log2_up_eqn by lia. by rewrite <-Z.sub_1_r, Z.add_1_r. }
  pose proof (Z.log2_nonneg (v - 1)) as Hnn.
  destruct (Z.ltb_spec (2 ^ (w - 1)) v) as [Hbig|Hsmall].
  - assert (w - 1 ≤ Z.log2 (v - 1)) by (apply Z.log2_le_pow2; lia).
    by replace (Z.log2 (v - 1) + 1 <? w) with false by lia.
  - assert (Z.log2 (v - 1) < w - 1) by (apply Z.log2_lt_pow2; lia).
    replace (Z.log2 (v - 1) + 1 <? w) with true by lia.
    rewrite Hup, Z.shiftl_1_l, wrap_small; [done|].
    split; [lia|]. apply Z.pow_lt_mono_r; lia.
Qed.

Lemma nth_bit_spec v n :
  0 ≤ n < w → nth_bit w v n = Some (Z.b2z (Z.testbit v n)).
Proof.
  intros Hn. unfold nth_bit. replace (n <? w) with true by lia.
  f_equal. rewrite Z.testbit_spec' by lia.
  change 1 with (Z.ones 1). rewrite Z.land_ones, Z.shiftr_div_pow2 by lia. done.
Qed.
End Templates.

(** ** [pdep] and the n-th set bit *)

(** The positions of the set bits of [v] in [m, m + n), in order. *)
Definition set_bits (m n v : Z) : list Z := filter (λ i, Z.testbit v i = true) (seqZ m n).

Lemma set_bits_S m n v :
  0 ≤ n →
  set_bits m (n + 1) v =
    (if Z.testbit v m then [m] else []) ++ set_bits (m + 1) n v.
Proof.
  intros Hn. unfold set_bits. rewrite seqZ_cons by lia.
  replace (Z.pred (n + 1)) with n by lia. rewrite <-Z.add_1_r.
  destruct (Z.testbit v m) eqn:E.
  - by rewrite filter_cons_True.
  - rewrite filter_cons_False; [done|]. by rewrite E.
Qed.

Lemma pdep_past n m k i mask : 0 ≤ i < k → pdep_from n m k (1 ≪ i) mask = 0.
Proof.
  revert m k. induction n as [|n IH]; intros m k Hi; [done|]. simpl.
  rewrite !IH, testbit_bit by lia. replace (i =? k) with false by lia.
  simpl Z.b2z. rewrite Z.shiftl_0_l. by destruct (Z.testbit mask m).
Qed.

(** Depositing the single bit [1 << (k + j)] through [mask] from source bit
    [k] on selects the [j]-th set bit of the mask. *)
Lemma pdep_single n m k j mask :
  0 ≤ m → 0 ≤ k → 0 ≤ j →
  pdep_from n m k (1 ≪ (k + j)) mask =
    match set_bits m (Z.of_nat n) mask !! Z.to_nat j with Some i => 1 ≪ i | None => 0 end.
Proof.
  revert m k j. induction n as [|n IH]; intros m k j Hm Hk Hj; [done|].
  simpl pdep_from. rewrite Nat2Z.inj_succ, <-Z.add_1_r, set_bits_S by lia.
  destruct (Z.testbit mask m) eqn:E; simpl.
  - rewrite testbit_bit by lia. destruct (Z.eqb_spec (k + j) k) as [Hjk|Hjk].
    + assert (j = 0) as -> by lia. simpl Z.b2z.
      rewrite pdep_past by lia. by rewrite Z.lor_0_r.
    + simpl Z.b2z. rewrite Z.shiftl_0_l, Z.lor_0_l.
      replace (k + j) with ((k + 1) + (j - 1)) by lia.
      rewrite IH by lia.
      by replace (Z.to_nat j) with (S (Z.to_nat (j - 1))) by lia.
  - by rewrite IH by lia.
Qed.

Lemma set_bits_elem m n v i :
  i ∈ set_bits m n v ↔ m ≤ i < m + n ∧ Z.testbit v i = true.
Proof. unfold set_bits. rewrite list_elem_of_filter, elem_of_seqZ. tauto. Qed.

(** [get_nth_set_bit] returns the position of the [n]-th set bit (counting
    from 0), and the operand width when there are not that many. *)
Theorem get_nth_set_bit_spec w v n :
  w = 32 ∨ w = 64 → is_word w v → 0 ≤ n < w →
  get_nth_set_bit w v n =
    Some (match set_bits 0 w v !! Z.to_nat n with Some i => i | None => w end).
Proof.
  intros Hw Hv Hn. unfold get_nth_set_bit, shl. replace (n <? w) with true by lia. simpl.
  rewrite (wrap_small w (1 ≪ n)) by (apply word_bit; lia). f_equal.
  unfold pdep, instr_pdep. rewrite intr_width_id by done.
  pose proof (pdep_single (Z.to_nat w) 0 0 n v) as Hp. rewrite Z.add_0_l in Hp.
  rewrite Hp, Z2Nat.id by lia. clear Hp.
  destruct (set_bits 0 w v !! Z.to_nat n) as [i|] eqn:E.
  - apply list_elem_of_lookup_2, set_bits_elem in E as [Hi _].
    rewrite wrap_small by (apply word_bit; lia).
    rewrite tzcnt_eq; [|done|apply word_bit; lia].
    apply tzcnt_unique; [lia| | |].
    + rewrite testbit_bit by lia. lia.
    + intros j Hj. rewrite testbit_bit by lia. lia.
    + rewrite Z.shiftl_1_l. lia.
  - rewrite (wrap_small w 0) by (apply word_0; lia).
    by rewrite tzcnt_eq; [|done|apply word_0; lia].
Qed.

(** ** [bswap] *)

Lemma bswap_involutive w v :
  w = 16 ∨ w = 32 ∨ w = 64 → is_word w v → bswap w (bswap w v) = v.
Proof.
  intros Hw Hv. unfold bswap.
  assert (0 ≤ w / 8) by (destruct Hw as [->|[->| ->]]; done).
  assert (w / 8 * 8 = w) as Hw8 by (destruct Hw as [->|[->| ->]]; done).
  set (l := Z_to_little_endian (w / 8) 8 v).
  assert (Z.of_nat (length l) = w / 8) as Hlen by (by apply length_Z_to_little_endian).
  assert (Forall (λ b, 0 ≤ b < 2 ^ 8) l) as Hl by (apply Z_to_little_endian_bound; lia).
  rewrite Z_to_little_endian_to_Z; [|by rewrite length_reverse|lia|by apply Forall_reverse].
  rewrite reverse_involutive. unfold l.
  rewrite little_endian_to_Z_to_little_endian by lia.
  rewrite Hw8. apply (wrap_small w v Hv).
Qed.

(** ** Witnesses *)

Lemma get_nth_set_bit_spec_witness :
  get_nth_set_bit 64 40 1 =
    Some (match set_bits 0 64 40 !! Z.to_nat 1 with Some i => i | None => 64 end).
Proof. apply (get_nth_set_bit_spec 64 40 1); [by right|by vm_compute|lia]. Defined.

Lemma bits_next_p2_spec_witness :
  bits_next_p2 32 1 =
    if 1 =? 1 then Some 0
    else if (1 =? 0) || (2 ^ (32 - 1) <? 1) then None
    else Some (2 ^ Z.log2_up 1).
Proof. apply (bits_next_p2_spec 32 (or_introl eq_refl) 1). by vm_compute. Defined.
