(* ===== verification/ConstMath.v ===== *)
(** * Integer arithmetic ([lib/optimized/const_math.h], [lib/util/const_utils.h])

    Namespace [cmath] on a [w]-bit unsigned type, with the wrap-around of
    every operation written out, and [cutil].  Division by 0 is undefined in
    C++ and returns [None] here. *)

From S2P Require Import Prelude Bits.

(** ** Definitions *)

Definition cdiv (a b : Z) : option Z := if b =? 0 then None else Some (a / b).
Definition cmod (a b : Z) : option Z := if b =? 0 then None else Some (a mod b).

Definition cmath_min (a b : Z) : Z := if a <? b then a else b.
Definition cmath_max (a b : Z) : Z := if b <? a then a else b.

Definition roundup (w a b : Z) : option Z :=
  q ← cdiv (wrap w (a + wrap w (b - 1))) b; Some (wrap w (b * q)).

Definition rounddown (w a b : Z) : option Z :=
  q ← cdiv a b; Some (wrap w (b * q)).

Definition roundup_div (w a b : Z) : option Z :=
  cdiv (wrap w (a + wrap w (b - 1))) b.

Definition fast_mod (v m : Z) : option Z :=
  if v <? m then Some v else cmod v m.

(** One round of [ulog2]: [s = (v > bound) << k; v >>= s; r |= s]. *)
Definition ulog2_round (bound k : Z) (st : Z * Z) : Z * Z :=
  let '(r, v) := st in
  let s := Z.b2z (bound <? v) ≪ k in
  (Z.lor r s, v ≫ s).

Definition ulog2 (w v : Z) : Z :=
  let st :=
    if w =? 64
    then ulog2_round 0xffff 4 (ulog2_round 0xffffffff 5 (0, v))
    else ulog2_round 0xffff 4 (0, v) in
  let '(r, v) := ulog2_round 0x3 1 (ulog2_round 0xf 2 (ulog2_round 0xff 3 st)) in
  Z.lor r (v ≫ 1).

(** [v |= v >> k]. *)
Definition smear_step (v k : Z) : Z := Z.lor v (v ≫ k).

Definition smear (w v : Z) : Z :=
  let v := smear_step (smear_step (smear_step (smear_step (smear_step v 1) 2) 4) 8) 16 in
  if w =? 64 then smear_step v 32 else v.

Definition next_p2 (w v : Z) : Z := wrap w (smear w (wrap w (v - 1)) + 1).

Definition prev_p2 (w v : Z) : Z := wrap w (smear w (v ≫ 1) + 1).

Definition is_pow2 (w v : Z) : Z := Z.b2z (Z.land v (wrap w (v - 1)) =? 0).

(** [cutil::type_size_log] and [cutil::sizeof_bits] for a type of [size] bytes. *)
Definition type_size_log (size : Z) : Z := ulog2 64 (next_p2 64 size).
Definition sizeof_bits (size : Z) : Z := u32 (8 * size).

(** ** Rounding *)

Lemma div_up_bounds a b : 0 < b → a ≤ b * ((a + (b - 1)) / b) < a + b.
Proof.
  intros Hb. pose proof (Z.div_mod (a + (b - 1)) b).
  pose proof (Z.mod_pos_bound (a + (b - 1)) b). lia.
Qed.

Lemma div_down_bounds a b : 0 < b → a - b < b * (a / b) ≤ a.
Proof.
  intros Hb. pose proof (Z.div_mod a b). pose proof (Z.mod_pos_bound a b). lia.
Qed.

Section Rounding.
Context (w a b : Z) (Hw : 0 ≤ w) (Ha : is_word w a) (Hb : 0 < b).

(** Without overflow [roundup] is the least multiple of [b] at or above [a]. *)
Lemma roundup_spec :
  a + b ≤ 2 ^ w →
  ∃ r, roundup w a b = Some r ∧ a ≤ r < a + b ∧ r mod b = 0.
Proof.
  intros Hab. unfold roundup, cdiv, is_word in *. replace (b =? 0) with false by lia. simpl.
  rewrite (wrap_small w (b - 1)) by (unfold is_word; lia).
  rewrite (wrap_small w (a + (b - 1))) by (unfold is_word; lia).
  pose proof (div_up_bounds a b Hb).
  eexists. split; [done|]. rewrite wrap_small by (unfold is_word; lia).
  split; [done|]. rewrite Z.mul_comm. apply Z.mod_mul. lia.
Qed.

Lemma rounddown_spec :
  ∃ r, rounddown w a b = Some r ∧ a - b < r ≤ a ∧ 0 ≤ r ∧ r mod b = 0.
Proof.
  unfold rounddown, cdiv, is_word in *. replace (b =? 0) with false by lia. simpl.
  pose proof (div_down_bounds a b Hb). assert (0 ≤ a / b) by (apply Z.div_pos; lia).
  eexists. split; [done|]. rewrite wrap_small by (unfold is_word; nia).
  split; [done|]. split; [nia|]. rewrite Z.mul_comm. apply Z.mod_mul. lia.
Qed.
End Rounding.

Lemma fast_mod_spec v m : 0 ≤ v → 0 < m → fast_mod v m = Some (v mod m).
Proof.
  intros Hv Hm. unfold fast_mod, cmod. destruct (Z.ltb_spec v m).
  - by rewrite Z.mod_small.
  - by replace (m =? 0) with false by lia.
Qed.

(** ** [ulog2] *)

Lemma log2_shiftr v s : 0 ≤ s → 2 ^ s ≤ v → Z.log2 v = s + Z.log2 (v ≫ s).
Proof. intros Hs Hv. rewrite Z.log2_shiftr by lia. pose proof (Z.log2_le_pow2 v s). lia. Qed.

Lemma ulog2_round_spec r v k :
  0 ≤ k → 0 < v < 2 ^ (2 * 2 ^ k) → 0 ≤ r →
  (∀ i, 0 ≤ i ≤ k → Z.testbit r i = false) →
  let '(r', v') := ulog2_round (2 ^ (2 ^ k) - 1) k (r, v) in
  0 < v' < 2 ^ (2 ^ k) ∧ 0 ≤ r' ∧ r' + Z.log2 v' = r + Z.log2 v ∧
  (∀ i, 0 ≤ i < k → Z.testbit r' i = false).
Proof.
  intros Hk Hv Hr Hbits. unfold ulog2_round.
  assert (0 < 2 ^ k) by lia.
  destruct (Z.ltb_spec (2 ^ 2 ^ k - 1) v) as [Hlt|Hge]; simpl Z.b2z.
  - rewrite Z.shiftl_1_l.
    assert (Z.lor r (2 ^ k) = r + 2 ^ k) as Hor.
    { symmetry. rewrite <-Z.lxor_lor, Z.add_nocarry_lxor; [done| |];
        apply Z.bits_inj'; intros i Hi; rewrite Z.land_spec, Z.pow2_bits_eqb, Z.bits_0 by lia;
        destruct (Z.eqb_spec k i) as [->|]; rewrite ?andb_false_r, ?Hbits by lia; done. }
    rewrite Hor, Z.shiftr_div_pow2 by lia.
    rewrite (log2_shiftr v (2 ^ k)), Z.shiftr_div_pow2 by lia.
    split_and!; [apply Z.div_str_pos; lia| |lia|lia|].
    + apply Z.div_lt_upper_bound; [lia|].
      rewrite <-Z.pow_add_r by lia. replace (2 ^ k + 2 ^ k) with (2 * 2 ^ k) by lia. lia.
    + intros i Hi. rewrite <-Hor, Z.lor_spec, Hbits, Z.pow2_bits_eqb by lia. simpl. lia.
  - rewrite Z.shiftl_0_l, Z.lor_0_r, Z.shiftr_0_r.
    split_and!; [lia|lia|lia|lia|]. intros i Hi. apply Hbits. lia.
Qed.

Ltac ulog2_step k :=
  let r := fresh "r" in let v := fresh "v" in let E := fresh "E" in
  match goal with
  | |- context [ulog2_round ?b k (?r0, ?v0)] =>
      let H := fresh "H" in
      assert (H := ulog2_round_spec r0 v0 k);
      change (2 ^ 2 ^ k - 1) with b in H;
      destruct (ulog2_round b k (r0, v0)) as [r v] eqn:E; clear E;
      cbn beta iota in H; destruct H as (? & ? & ? & ?);
      [lia|simpl in *; lia|lia|by intros; first [apply Z.bits_0 | auto with lia]|]
  end.

Lemma ulog2_spec w v :
  w = 32 ∨ w = 64 → is_word w v → 0 < v → ulog2 w v = Z.log2 v.
Proof.
  intros Hw Hv Hv0. unfold ulog2, is_word in *.
  assert (∀ r v, 0 < v < 2 ^ 2 → 0 ≤ r → Z.testbit r 0 = false →
    Z.lor r (v ≫ 1) = r + Z.log2 v) as Hlast.
  { clear. intros r v Hv Hr Hb.
    assert (v = 1 ∨ v = 2 ∨ v = 3) as [->|[->| ->]] by lia;
      [by rewrite Z.lor_0_r, Z.add_0_r| |];
      (change (_ ≫ 1) with (2 ^ 0); symmetry; change (Z.log2 _) with (2 ^ 0);
       rewrite <-Z.lxor_lor, Z.add_nocarry_lxor; [done| |];
       apply Z.bits_inj'; intros i Hi; rewrite Z.land_spec, Z.pow2_bits_eqb, Z.bits_0 by lia;
       destruct (Z.eqb_spec 0 i) as [<-|]; rewrite ?andb_false_r, ?Hb; done). }
  destruct Hw as [->| ->]; simpl Z.eqb; cbv iota.
  - ulog2_step 4. ulog2_step 3. ulog2_step 2. ulog2_step 1.
    rewrite Hlast; [lia|done|done|auto with lia].
  - ulog2_step 5. ulog2_step 4. ulog2_step 3. ulog2_step 2. ulog2_step 1.
    rewrite Hlast; [lia|done|done|auto with lia].
Qed.

(** ** Smearing and powers of two *)

(** [u] has bit [i] set when [v] has one of the bits [i .. i + k - 1] set. *)
Definition smeared (k v u : Z) : Prop :=
  0 ≤ u ∧ ∀ i, 0 ≤ i → Z.testbit u i = true ↔ ∃ j, 0 ≤ j < k ∧ Z.testbit v (i + j) = true.

Lemma smeared_1 v : 0 ≤ v → smeared 1 v v.
Proof.
  intros Hv. split; [done|]. intros i Hi. split.
  - intros H. exists 0. rewrite Z.add_0_r. split; [lia|done].
  - intros (j & Hj & H). replace i with (i + j) by lia. done.
Qed.

Lemma smear_step_spec k v u : 0 ≤ k → smeared k v u → smeared (2 * k) v (smear_step u k).
Proof.
  intros Hk [Hu H]. unfold smear_step. split.
  { apply Z.lor_nonneg. split; [done|]. by apply Z.shiftr_nonneg. }
  intros i Hi. rewrite Z.lor_spec, Z.shiftr_spec, orb_true_iff, !H by lia. split.
  - intros [(j & Hj & Hb)|(j & Hj & Hb)].
    + exists j. split; [lia|done].
    + exists (k + j). rewrite Z.add_assoc. split; [lia|done].
  - intros (j & Hj & Hb). destruct (Z.lt_ge_cases j k).
    + left. exists j. split; [lia|done].
    + right. exists (j - k). split; [lia|]. by replace (i + k + (j - k)) with (i + j) by lia.
Qed.

Lemma smear_smeared w v : w = 32 ∨ w = 64 → 0 ≤ v → smeared w v (smear w v).
Proof.
  intros Hw Hv. unfold smear.
  pose proof (smeared_1 v Hv) as H.
  do 5 (apply smear_step_spec in H; [|lia]; simpl in H).
  destruct Hw as [->| ->]; [done|].
  apply (smear_step_spec 32) in H; [done|lia].
Qed.

(** Smearing a nonzero word fills every bit up to its highest one. *)
Lemma smear_spec w v :
  w = 32 ∨ w = 64 → is_word w v → smear w v = if v =? 0 then 0 else 2 ^ (Z.log2 v + 1) - 1.
Proof.
  intros Hw [Hv0 Hv]. destruct (smear_smeared w v Hw Hv0) as [Hu H].
  destruct (Z.eqb_spec v 0) as [->|Hne].
  { apply Z.bits_inj'. intros i Hi. rewrite Z.bits_0. apply not_true_iff_false.
    rewrite H by done. intros (j & _ & Hb). by rewrite Z.bits_0 in Hb. }
  pose proof (Z.log2_nonneg v).
  assert (Z.log2 v < w) by (apply Z.log2_lt_pow2; lia).
  replace (2 ^ (Z.log2 v + 1) - 1) with (Z.ones (Z.log2 v + 1)) by (rewrite Z.ones_equiv; lia).
  apply Z.bits_inj'. intros i Hi. apply eq_bool_prop_intro.
  rewrite !Is_true_true, H by done.
  destruct (Z.le_gt_cases i (Z.log2 v)).
  - rewrite Z.ones_spec_low by lia. split; [done|]. intros _.
    exists (Z.log2 v - i). split; [lia|].
    replace (i + (Z.log2 v - i)) with (Z.log2 v) by lia. apply Z.bit_log2. lia.
  - rewrite Z.ones_spec_high by lia. split; [|done].
    intros (j & Hj & Hb). rewrite Z.bits_above_log2 in Hb by lia. done.
Qed.

Lemma next_p2_spec w v :
  w = 32 ∨ w = 64 → is_word w v →
  next_p2 w v =
    if (v =? 0) || (2 ^ (w - 1) <? v) then 0 else 2 ^ Z.log2_up v.
Proof.
  intros Hw Hv. unfold next_p2, is_word in *.
  destruct (Z.eqb_spec v 0) as [->|H0]; simpl orb.
  { destruct Hw as [->| ->]; done. }
  rewrite (wrap_small w (v - 1)), smear_spec by (done || unfold is_word; lia).
  destruct (Z.eqb_spec (v - 1) 0).
  { assert (v = 1) as -> by lia. destruct Hw as [->| ->]; done. }
  assert (Z.log2_up v = Z.log2 (v - 1) + 1) as Hup.
  { rewrite Z.log2_up_eqn by lia. by rewrite <-Z.sub_1_r, Z.add_1_r. }
  pose proof (Z.log2_nonneg (v - 1)). rewrite Z.sub_add.
  destruct (Z.ltb_spec (2 ^ (w - 1)) v).
  - assert (w - 1 ≤ Z.log2 (v - 1)) by (apply Z.log2_le_pow2; lia).
    assert (Z.log2 (v - 1) < w) by (apply Z.log2_lt_pow2; lia).
    replace (Z.log2 (v - 1) + 1) with w by lia. unfold wrap. apply Z_mod_same_full.
  - assert (Z.log2 (v - 1) < w - 1) by (apply Z.log2_lt_pow2; lia).
    rewrite Hup, wrap_small; [done|]. split; [lia|]. apply Z.pow_lt_mono_r; lia.
Qed.

Lemma prev_p2_spec w v :
  w = 32 ∨ w = 64 → is_word w v → 0 < v → prev_p2 w v = 2 ^ Z.log2 v.
Proof.
  intros Hw [_ Hv] Hv0. unfold prev_p2.
  assert (v ≫ 1 = v / 2) as -> by (rewrite Z.shiftr_div_pow2; done).
  rewrite smear_spec; [|done|split; [apply Z.div_pos; lia|apply Z.div_lt_upper_bound; lia]].
  destruct (Z.eqb_spec (v / 2) 0) as [H0|H0].
  - assert (v = 1) as -> by (pose proof (Z.div_mod v 2); pose proof (Z.mod_pos_bound v 2); lia).
    destruct Hw as [->| ->]; done.
  - rewrite Z.sub_add. pose proof (Z.div_mod v 2). pose proof (Z.mod_pos_bound v 2).
    assert (Z.log2 v = Z.log2 (v / 2) + 1) as Hl.
    { rewrite (log2_shiftr v 1), Z.shiftr_div_pow2 by lia. rewrite Z.pow_1_r. lia. }
    rewrite <-Hl. apply wrap_small. split; [lia|].
    apply Z.pow_lt_mono_r; [lia|lia|]. apply Z.log2_lt_pow2; lia.
Qed.

(** [is_pow2] holds of the powers of two, and of 0. *)
Lemma is_pow2_spec w v :
  0 ≤ w → is_word w v → is_pow2 w v = 1 ↔ v = 0 ∨ ∃ k, 0 ≤ k ∧ v = 2 ^ k.
Proof.
  intros Hw Hv. unfold is_pow2.
  destruct (Z.eq_dec v 0) as [->|H0]; [rewrite Z.land_0_l; naive_solver|].
  unfold is_word in Hv. rewrite wrap_small by (unfold is_word; lia).
  destruct v as [|p|]; [lia| |lia].
  rewrite land_pred_pos. pose proof (pos_tz_nonneg p).
  destruct (Z.eqb_spec (Z.pos p - 2 ^ pos_tz p) 0) as [E|E]; simpl.
  - split; [|done]. intros _. right. exists (pos_tz p). lia.
  - split; [done|]. intros [?|(k & Hk & Hp)]; [done|]. exfalso. apply E.
    assert (instr_tzcnt w (Z.pos p) = k) as Hk'.
    { apply tzcnt_unique; [done| | |lia]; rewrite Hp.
      - by rewrite Z.pow2_bits_eqb, Z.eqb_refl.
      - intros j Hj. rewrite Z.pow2_bits_eqb by done. lia. }
    simpl in Hk'. rewrite Hk', Hp. lia.
Qed.

Lemma type_size_log_spec size :
  0 < size ≤ 2 ^ 63 → type_size_log size = Z.log2_up size.
Proof.
  intros Hs. unfold type_size_log.
  rewrite next_p2_spec by (auto; word_const).
  replace ((size =? 0) || (2 ^ (64 - 1) <? size)) with false
    by (change (2 ^ (64 - 1)) with (2 ^ 63); lia).
  pose proof (Z.log2_up_nonneg size).
  assert (Z.log2_up size ≤ 63) by (apply Z.log2_up_le_pow2; lia).
  rewrite ulog2_spec; [by rewrite Z.log2_pow2|auto| |lia].
  split; [lia|]. apply Z.pow_lt_mono_r; lia.
Qed.

(** ** Claims *)

(** [roundup] and [rounddown] bracket: without overflow they return the
    least multiple of [b] at or above [a] and the greatest at or below it. *)
Theorem rounding_brackets w a b :
  0 ≤ w → is_word w a → 0 < b → a + b ≤ 2 ^ w →
  ∃ up down, roundup w a b = Some up ∧ rounddown w a b = Some down ∧
    up mod b = 0 ∧ down mod b = 0 ∧ down ≤ a ≤ up ∧
    ∀ k, k mod b = 0 → (a ≤ k → up ≤ k) ∧ (k ≤ a → k ≤ down).
Proof.
  intros Hw Ha Hb Hab.
  destruct (roundup_spec w a b Hw Ha Hb Hab) as (up & Hup & Hu & Hum).
  destruct (rounddown_spec w a b Hw Ha Hb) as (down & Hdown & Hd & _ & Hdm).
  exists up, down. split_and!; try done || lia. intros k Hk.
  apply Z.mod_divide in Hk as [k' ->], Hum as [u ->], Hdm as [d ->]; [|lia..].
  split; intros Hle.
  - assert (u < k' + 1) by nia. nia.
  - assert (k' < d + 1) by nia. nia.
Qed.

Lemma rounding_brackets_witness :
  ∃ up down, roundup 64 100000 34048 = Some up ∧ rounddown 64 100000 34048 = Some down ∧
    up mod 34048 = 0 ∧ down mod 34048 = 0 ∧ down ≤ 100000 ≤ up ∧
    ∀ k, k mod 34048 = 0 → (100000 ≤ k → up ≤ k) ∧ (k ≤ 100000 → k ≤ down).
Proof. apply (rounding_brackets 64 100000 34048); unfold is_word; lia. Defined.

(** The shift-and-or constants: [ulog2], [next_p2] and [prev_p2] compute
    the rounded-down logarithm and the neighbouring powers of two of any word
    for which they exist, at both widths. *)
Theorem powers_of_two w v :
  w = 32 ∨ w = 64 → is_word w v → 0 < v ≤ 2 ^ (w - 1) →
  2 ^ ulog2 w v ≤ v < 2 ^ (ulog2 w v + 1) ∧ prev_p2 w v = 2 ^ ulog2 w v ∧
  is_pow2 w (next_p2 w v) = 1 ∧ v ≤ next_p2 w v < 2 * v.
Proof.
  intros Hw Hv Hr. rewrite ulog2_spec, prev_p2_spec, next_p2_spec by done || lia.
  rewrite (proj2 (Z.eqb_neq v 0)), (proj2 (Z.ltb_ge (2 ^ (w - 1)) v)) by lia. simpl.
  pose proof (Z.log2_spec v). pose proof (Z.log2_up_nonneg v).
  assert (v ≤ 2 ^ Z.log2_up v < 2 * v) as Hup.
  { destruct (decide (v = 1)) as [->|]; [by vm_compute|].
    pose proof (Z.log2_up_spec v ltac:(lia)) as [Hlo Hhi].
    replace (Z.log2_up v) with (Z.pred (Z.log2_up v) + 1) in Hhi |- * by lia.
    pose proof (Z.log2_up_pos v ltac:(lia)). rewrite Z.pow_add_r in * by lia. lia. }
  split_and!; try done; try lia. apply is_pow2_spec.
  - destruct Hw as [->| ->]; lia.
  - split; [lia|]. apply Z.pow_lt_mono_r; [lia|destruct Hw; lia|].
    assert (Z.log2_up v ≤ w - 1); [|lia]. apply Z.log2_up_le_pow2; lia.
  - right. by exists (Z.log2_up v).
Qed.

Lemma powers_of_two_witness :
  2 ^ ulog2 32 1000 ≤ 1000 < 2 ^ (ulog2 32 1000 + 1) ∧ prev_p2 32 1000 = 2 ^ ulog2 32 1000 ∧
  is_pow2 32 (next_p2 32 1000) = 1 ∧ 1000 ≤ next_p2 32 1000 < 2 * 1000.
Proof. apply (powers_of_two 32 1000); [by left|by vm_compute|lia]. Defined.
