(* ===== verification/Machine.v ===== *)
(** * The machine ([lib/system/PRECOMPUTED_SYS_INFO.h], [lib/system/memory.h])

    The constants of the generated header the repository carries, the core
    map, and the cache geometry helpers computed from them. *)

From S2P Require Import Prelude ConstMath.

Definition NPROCS : Z := 8.
Definition NCORES : Z := 4.
Definition PAGE_SIZE : Z := 4096.
Definition VM_NBITS : Z := 48.
Definition PHYS_M_NBITS : Z := 39.
Definition CACHE_LINE_SIZE : Z := 64.
Definition L2_CACHE_LOAD_SIZE : Z := 128.

Definition core_map : list Z := [0; 1; 2; 3; 0; 1; 2; 3].

(** Indexing past the table is undefined. *)
Definition get_phys_core (logical_core_num : Z) : option Z :=
  core_map !! Z.to_nat logical_core_num.

Inductive THP := ALWAYS | MADVISE | NEVER.
Definition TRANSPARENT_HUGE_PAGE_CFG : THP := MADVISE.

Record cache_info := mk_cache { cache_size_bytes : Z; cache_sets : Z; cache_assos : Z }.

Definition L1_DCACHE : cache_info := mk_cache 49152 64 12.
Definition L1_ICACHE : cache_info := mk_cache 32768 64 8.
Definition L2_UCACHE : cache_info := mk_cache 524288 1024 8.
Definition L3_UCACHE : cache_info := mk_cache 8388608 8192 16.

(** [vm_to_pm]; [PAGE_OFFSET] comes from the kernel headers. *)
Definition vm_to_pm (PAGE_OFFSET vm_addr : Z) : Z := u64 (vm_addr - PAGE_OFFSET).

(** [l1_dcache_set] and its three siblings. *)
Definition cache_set (c : cache_info) (addr : Z) : Z :=
  u32 (Z.land (addr / CACHE_LINE_SIZE) (cache_sets c - 1)).

(** [l1_dcache_critical_stride] and its three siblings. *)
Definition critical_stride (c : cache_info) : option Z :=
  cdiv (cache_size_bytes c) (cache_assos c * cache_sets c).

Lemma cache_set_range c addr k :
  0 ≤ addr → 0 ≤ k < 32 → cache_sets c = 2 ^ k →
  cache_set c addr = (addr / CACHE_LINE_SIZE) mod cache_sets c.
Proof.
  intros Ha Hk Hc. unfold cache_set. rewrite Hc.
  replace (2 ^ k - 1) with (Z.ones k) by (rewrite Z.ones_equiv; lia).
  rewrite Z.land_ones by lia. apply wrap_small.
  assert (2 ^ k < 2 ^ 32) by (apply Z.pow_lt_mono_r; lia).
  pose proof (Z.mod_pos_bound (addr / CACHE_LINE_SIZE) (2 ^ k)). unfold is_word. lia.
Qed.

(** The geometry of the four caches is consistent: size = line * ways * sets,
    so that the quotient is the line size. *)
Lemma cache_geometry c :
  c ∈ [L1_DCACHE; L1_ICACHE; L2_UCACHE; L3_UCACHE] →
  critical_stride c = Some CACHE_LINE_SIZE.
Proof.
  rewrite !elem_of_cons, elem_of_nil. intros H.
  destruct_or! H; by subst.
Qed.

(** Every logical core sits on one of the physical cores. *)
Lemma get_phys_core_range l c :
  0 ≤ l < NPROCS → get_phys_core l = Some c → 0 ≤ c < NCORES.
Proof.
  intros Hl Hc. unfold get_phys_core in Hc.
  assert (Forall (λ c, 0 ≤ c < NCORES) core_map) as HF by (repeat constructor; done).
  by apply (Forall_lookup_1 _ _ _ _ HF Hc).
Qed.
