(* ===== verification/SizeClasses.v ===== *)
(** * Size classes ([allocator/slab_size_classes.h])

    The eleven block sizes and the conversions between a requested size, its
    class index and the rounded size.  All values are [uint32_t]. *)

From S2P Require Import Prelude Bits ConstMath.

Definition num_size_classes : Z := 11.

Definition slab_sizes : list Z := [8; 16; 24; 32; 48; 64; 80; 96; 112; 128; 144].

(** Indexing past the table is undefined. *)
Definition idx_to_size (idx : Z) : option Z :=
  if decide (0 ≤ idx) then slab_sizes !! Z.to_nat idx else None.

Definition size_to_idx (size : Z) : Z :=
  if size <=? 24
  then u32 (u32 (size + 7) / 8 - 1)
  else u32 (u32 (size + 15) / 16 + 1).

Definition size_to_idx_nb (size : Z) : Z :=
  let base := if 24 <? size then 3 + 1 else 3 in
  u32 (u32 (u32 (u32 (size + u32 ((1 ≪ base) - 1)) ≫ base) + 2 * (base / 2)) - 3).

Definition round_size (size : Z) : Z :=
  if size <=? 24
  then Z.land (u32 (size + 7)) (wnot 32 7)
  else Z.land (u32 (size + 15)) (wnot 32 15).

Definition round_size_nb (size : Z) : Z :=
  let base := if 24 <? size then u32 (2 * 8) else 8 in
  Z.land size (wnot 32 (u32 (base - 1))).

(** ** Properties *)

(** The sizes the allocator serves. *)
Definition served (size : Z) : Prop := 1 ≤ size ≤ 144.


Definition fits_class (size : Z) : bool :=
  match idx_to_size (size_to_idx size) with
  | Some s =>
      (size <=? s) && (0 <=? size_to_idx size) && (size_to_idx size <? num_size_classes) &&
      forallb (λ j, match idx_to_size j with Some s' => s' <? size | None => false end)
        (seqZ 0 (size_to_idx size))
  | None => false
  end.

Lemma fits_class_served size : served size → fits_class size = true.
Proof. unfold served. intros Hs. by_range fits_class 1 144. Qed.

Lemma size_to_idx_range size : served size → 0 ≤ size_to_idx size < num_size_classes.
Proof.
  intros Hs%fits_class_served. unfold fits_class in Hs.
  destruct (idx_to_size (size_to_idx size)); [|done].
  rewrite !andb_true_iff in Hs. lia.
Qed.

(** The class of a request the allocator serves is the first one whose
    blocks are large enough. *)
Theorem size_to_idx_tight size :
  served size →
  ∃ s, idx_to_size (size_to_idx size) = Some s ∧ size ≤ s ∧
    ∀ j s', 0 ≤ j < size_to_idx size → idx_to_size j = Some s' → s' < size.
Proof.
  intros Hs%fits_class_served. unfold fits_class in Hs.
  destruct (idx_to_size (size_to_idx size)) as [s|]; [|done].
  rewrite !andb_true_iff in Hs. destruct Hs as [[[Hle _] _] Hall].
  exists s. split_and!; [done|lia|]. intros j s' Hj Hs'.
  apply (range_forallb _ _ _ Hall) in Hj. rewrite Hs' in Hj. lia.
Qed.

(** A request fits in the blocks of its class. *)
Lemma size_to_idx_fits size :
  served size → ∃ s, idx_to_size (size_to_idx size) = Some s ∧ size ≤ s.
Proof.
  intros Hs%fits_class_served. unfold fits_class in Hs.
  destruct (idx_to_size (size_to_idx size)) as [s|]; [|done].
  exists s. rewrite !andb_true_iff in Hs. split; [done|lia].
Qed.

Lemma idx_to_size_Some i s : idx_to_size i = Some s → 0 ≤ i < num_size_classes.
Proof.
  unfold idx_to_size. case_decide; [|done]. intros Hl%lookup_lt_Some.
  unfold num_size_classes. simpl in Hl. lia.
Qed.

Definition class_roundtrip (i : Z) : bool :=
  match idx_to_size i with
  | Some s => (size_to_idx s =? i) && (8 <=? s) && (s <=? 144) && (s mod 8 =? 0)
  | None => false
  end.

Lemma class_roundtrip_ok i : 0 ≤ i < num_size_classes → class_roundtrip i = true.
Proof. unfold num_size_classes. intros Hi. by_range class_roundtrip 0 11. Qed.

(** [_free] recovers the class from the block size of the slab. *)
Lemma size_to_idx_class i s : idx_to_size i = Some s → size_to_idx s = i.
Proof.
  intros Hs. pose proof (class_roundtrip_ok i (idx_to_size_Some i s Hs)) as H.
  unfold class_roundtrip in H. rewrite Hs, !andb_true_iff in H. lia.
Qed.

Lemma idx_to_size_total i : 0 ≤ i < num_size_classes → ∃ s, idx_to_size i = Some s.
Proof.
  intros Hi%class_roundtrip_ok. unfold class_roundtrip in Hi.
  destruct (idx_to_size i); [eauto|done].
Qed.

Lemma idx_to_size_bounds i s :
  idx_to_size i = Some s → 8 ≤ s ≤ 144 ∧ s mod 8 = 0.
Proof.
  intros Hs. pose proof (class_roundtrip_ok i (idx_to_size_Some i s Hs)) as H.
  unfold class_roundtrip in H. rewrite Hs, !andb_true_iff in H. lia.
Qed.

Definition rounds_to_class (size : Z) : bool :=
  match idx_to_size (size_to_idx size) with Some s => round_size size =? s | None => false end.

(** [round_size] is the block size of the class of the request. *)
Theorem round_size_class size :
  served size → idx_to_size (size_to_idx size) = Some (round_size size).
Proof.
  unfold served. intros Hs.
  assert (rounds_to_class size = true) as H by by_range rounds_to_class 1 144.
  unfold rounds_to_class in H. destruct (idx_to_size _); [|done]. f_equal. lia.
Qed.

Lemma shiftr_3 x : x ≫ 3 = x / 8.
Proof. by rewrite Z.shiftr_div_pow2. Qed.

Lemma shiftr_4 x : x ≫ 4 = x / 16.
Proof. by rewrite Z.shiftr_div_pow2. Qed.

(** The branch-free index agrees with the branching one on every [uint32_t]. *)
Theorem size_to_idx_nb_eq size : is_word 32 size → size_to_idx_nb size = size_to_idx size.
Proof.
  intros Hs. unfold size_to_idx_nb, size_to_idx.
  destruct (Z.ltb_spec 24 size); destruct (Z.leb_spec size 24); try lia; cbv zeta.
  - change (3 + 1) with 4. rewrite shiftr_4. change (u32 ((1 ≪ 4) - 1)) with 15.
    change (2 * (4 / 2)) with 4. unfold wrap. change (2 ^ 32) with 4294967296.
    pose proof (Z.mod_pos_bound (size + 15) 4294967296).
    rewrite (Z.mod_small ((size + 15) mod _ / 16)) by
      (split; [apply Z.div_pos; lia|apply Z.div_lt_upper_bound; lia]).
    rewrite Zminus_mod_idemp_l. f_equal. lia.
  - rewrite shiftr_3. change (u32 ((1 ≪ 3) - 1)) with 7.
    change (2 * (3 / 2)) with 2. unfold wrap. change (2 ^ 32) with 4294967296.
    pose proof (Z.mod_pos_bound (size + 7) 4294967296).
    rewrite (Z.mod_small ((size + 7) mod _ / 8)) by
      (split; [apply Z.div_pos; lia|apply Z.div_lt_upper_bound; lia]).
    rewrite Zminus_mod_idemp_l. f_equal. lia.
Qed.

Definition rounds_down (size : Z) : bool :=
  (round_size_nb size <=? size) &&
  Bool.eqb (round_size_nb size =? round_size size) (round_size size =? size).

(** The branch-free rounding rounds down: it returns a smaller size than
    requested whenever the request is not already a multiple. *)
Theorem round_size_nb_rounds_down size :
  served size →
  round_size_nb size ≤ size ∧ (round_size_nb size = round_size size ↔ round_size size = size).
Proof.
  unfold served. intros Hs.
  assert (rounds_down size = true) as H by by_range rounds_down 1 144.
  unfold rounds_down in H. rewrite andb_true_iff, eqb_true_iff in H. lia.
Qed.

(** Which requests miss the table: 0, and the sizes above the largest class;
    the last fifteen [uint32_t] values wrap around to class 1. *)
Lemma size_to_idx_none size :
  is_word 32 size →
  idx_to_size (size_to_idx size) = None ↔ size = 0 ∨ 144 < size < 2 ^ 32 - 15.
Proof.
  intros Hs. unfold is_word in Hs. change (2 ^ 32) with 4294967296 in *.
  destruct (decide (size = 0)) as [->|]; [by split; [left|]|].
  destruct (decide (size ≤ 144)).
  { destruct (size_to_idx_fits size) as (s & -> & _); [by unfold served; lia|].
    split; [done|lia]. }
  unfold size_to_idx. replace (size <=? 24) with false by lia.
  unfold wrap. change (2 ^ 32) with 4294967296.
  destruct (decide (size < 4294967296 - 15)).
  - rewrite (Z.mod_small (size + 15)) by lia.
    assert (10 ≤ (size + 15) / 16) by (apply Z.div_le_lower_bound; lia).
    assert ((size + 15) / 16 < 268435456) by (apply Z.div_lt_upper_bound; lia).
    rewrite Z.mod_small by lia.
    split; [lia|]. intros _. unfold idx_to_size. case_decide; [|done].
    apply lookup_ge_None. simpl. lia.
  - assert ((size + 15) mod 4294967296 = size + 15 - 4294967296) as ->.
    { symmetry. apply Z.mod_unique with 1; lia. }
    rewrite Z.div_small by lia. split; [done|lia].
Qed.

Lemma size_to_idx_wraps size : 2 ^ 32 - 15 ≤ size < 2 ^ 32 → size_to_idx size = 1.
Proof.
  intros Hs. unfold size_to_idx. replace (size <=? 24) with false by lia.
  unfold wrap. change (2 ^ 32) with 4294967296 in *.
  replace ((size + 15) mod 4294967296) with (size + 15 - 4294967296).
  - rewrite Z.div_small by lia. done.
  - apply Z.mod_unique with 1; lia.
Qed.

(** The classes are fixed points: a block size is the size of its own
    class, and rounding it again changes nothing. *)
Theorem class_sizes_fixed i s :
  idx_to_size i = Some s → size_to_idx s = i ∧ round_size s = s.
Proof.
  intros Hs. pose proof (size_to_idx_class i s Hs) as Hi. split; [done|].
  destruct (idx_to_size_bounds i s Hs) as [Hb _].
  assert (rounds_to_class s = true) as H by by_range rounds_to_class 1 144.
  unfold rounds_to_class in H. rewrite Hi, Hs in H. lia.
Qed.

Lemma size_to_idx_tight_witness :
  ∃ s, idx_to_size (size_to_idx 33) = Some s ∧ 33 ≤ s ∧
    ∀ j s', 0 ≤ j < size_to_idx 33 → idx_to_size j = Some s' → s' < 33.
Proof. apply (size_to_idx_tight 33). unfold served. lia. Defined.

Lemma round_size_class_witness : idx_to_size (size_to_idx 100) = Some (round_size 100).
Proof. apply (round_size_class 100). unfold served. lia. Defined.

Lemma size_to_idx_nb_eq_witness : size_to_idx_nb 25 = size_to_idx 25.
Proof. apply (size_to_idx_nb_eq 25). by vm_compute. Defined.

Lemma round_size_nb_rounds_down_witness :
  round_size_nb 20 ≤ 20 ∧ (round_size_nb 20 = round_size 20 ↔ round_size 20 = 20).
Proof. apply (round_size_nb_rounds_down 20). unfold served. lia. Defined.

Lemma class_sizes_fixed_witness : size_to_idx 48 = 4 ∧ round_size 48 = 48.
Proof. by apply (class_sizes_fixed 4 48). Defined.
