(* ===== verification/Atomics.v ===== *)
(** * Atomic bit-vector operations ([lib/concurrency/bitvec_atomics.h])

    Each operation is one atomic read-modify-write of a 64-bit word: it is the
    function from the old content of the word to the new content, paired with
    the returned flag where there is one. *)

From S2P Require Import Prelude Bits.

Definition atomic_xor (v xor_bits : Z) : Z := Z.lxor v xor_bits.
Definition atomic_or (v or_bits : Z) : Z := Z.lor v or_bits.
Definition atomic_and (v and_bits : Z) : Z := Z.land v and_bits.
Definition atomic_unset (v unset_bits : Z) : Z := Z.land v (wnot 64 unset_bits).

Definition atomic_bit_set (v set_bit : Z) : option Z :=
  b ← shl 64 1 set_bit; Some (Z.lor v b).

(** [lock bts/btr/btc] on memory with a bit offset of 64 or more reach into
    another word: outside of what these functions are for. *)
Definition atomic_bit_set_ret (v bit : Z) : option (Z * Z) :=
  if bit <? 64 then Some (Z.b2z (Z.testbit v bit), Z.lor v (1 ≪ bit)) else None.

Definition atomic_bit_unset_ret (v bit : Z) : option (Z * Z) :=
  if bit <? 64 then Some (Z.b2z (Z.testbit v bit), Z.land v (wnot 64 (1 ≪ bit))) else None.

Definition atomic_bit_swap_ret (v bit : Z) : option (Z * Z) :=
  if bit <? 64 then Some (Z.b2z (Z.testbit v bit), Z.lxor v (1 ≪ bit)) else None.

Section Atomics.
Context (v : Z) (Hv : is_word 64 v).

Lemma atomic_bit_set_Some b :
  0 ≤ b < 64 → atomic_bit_set v b = Some (Z.lor v (1 ≪ b)).
Proof.
  intros Hb. unfold atomic_bit_set, shl. replace (b <? 64) with true by lia. simpl.
  by rewrite wrap_small by (apply word_bit; lia).
Qed.

Lemma set_bit_testbit b i :
  0 ≤ b < 64 → 0 ≤ i → Z.testbit (Z.lor v (1 ≪ b)) i = Z.testbit v i || (b =? i).
Proof. intros Hb Hi. by rewrite Z.lor_spec, testbit_bit by lia. Qed.

Lemma set_bit_nonzero b : 0 ≤ b < 64 → Z.lor v (1 ≪ b) ≠ 0.
Proof.
  intros Hb H. assert (Z.testbit (Z.lor v (1 ≪ b)) b = false) as Hf
    by (rewrite H; apply Z.bits_0).
  rewrite set_bit_testbit, Z.eqb_refl, orb_true_r in Hf by lia. done.
Qed.

Lemma atomic_unset_testbit b i :
  0 ≤ i → Z.testbit (atomic_unset v b) i = Z.testbit v i && negb (Z.testbit b i).
Proof.
  intros Hi. unfold atomic_unset. rewrite Z.land_spec, wnot_testbit by lia.
  destruct (Z.ltb_spec i 64); [done|].
  by rewrite (word_testbit_high 64 ltac:(lia) v).
Qed.

(** Clearing exactly the bits that were read leaves nothing. *)
Lemma atomic_unset_self : atomic_unset v v = 0.
Proof.
  apply Z.bits_inj'. intros i Hi. rewrite atomic_unset_testbit, Z.bits_0 by done.
  by destruct (Z.testbit v i).
Qed.
End Atomics.
