(* ===== verification/ObjSlab.v ===== *)
(** * Slabs ([allocator/obj_slab.h])

    An [obj_slab] hands out blocks of one size from a payload of 32 KiB.  Two
    bit vectors of 64 words each say which blocks are available to the owner
    and which were freed by anybody; a summary word per vector says which of
    its words may be nonzero. *)

From S2P Require Import Prelude Bits ConstMath Machine SizeClasses Atomics.

(** ** Constants and data *)

Definition vec_size : Z := 64.
Definition num_vecs : Z := 64.
Definition capacity : Z := num_vecs * vec_size.
Definition payload_size : Z := capacity * 8.
Definition next_offset : Z := 520.
Definition payload_offset : Z := 1280.

Definition OWNED : Z := 0.
Definition UNOWNED : Z := 1.

Definition MIGRATED : Z := capacity.
Definition FULL : Z := capacity + 1.
Definition SUCCESS_BOUND : Z := MIGRATED.

(** The fields, in the order of the declaration.  The payload belongs to the
    clients: its bytes are not part of the slab's state. *)
Record obj_slab := mk_slab {
  available_vecs : Z;
  available_slots : list Z;
  next : Z;
  block_size : Z;
  freed_vecs : Z;
  state : Z;
  freed_slots : list Z
}.

(** [L2_LOAD_ALIGN] aligns to [L2_CACHE_LOAD_SIZE]. *)
Definition align_up (x a : Z) : Z := a * ((x + (a - 1)) / a).

(** Field offsets as the layout rules of C++ give them. *)
Definition offset_available_slots : Z := 8.
Definition offset_next : Z := offset_available_slots + 8 * num_vecs.
Definition offset_block_size : Z := offset_next + 8.
Definition offset_freed_vecs : Z := align_up (offset_block_size + 4) L2_CACHE_LOAD_SIZE.
Definition offset_state : Z := offset_freed_vecs + 8.
Definition offset_freed_slots : Z := offset_state + 8.
Definition offset_payload : Z := align_up (offset_freed_slots + 8 * num_vecs) L2_CACHE_LOAD_SIZE.
Definition sizeof_obj_slab : Z := align_up (offset_payload + payload_size) L2_CACHE_LOAD_SIZE.

(** The memory a slab is constructed on, as [mmap] and [reset] leave it. *)
Definition zero_slab : obj_slab := mk_slab 0 zero_words 0 0 0 0 zero_words.

(** ** Field updates *)

Definition set_available_vecs (v : Z) (s : obj_slab) : obj_slab :=
  mk_slab v (available_slots s) (next s) (block_size s) (freed_vecs s) (state s) (freed_slots s).
Definition set_available_slots (l : list Z) (s : obj_slab) : obj_slab :=
  mk_slab (available_vecs s) l (next s) (block_size s) (freed_vecs s) (state s) (freed_slots s).
Definition set_next (n : Z) (s : obj_slab) : obj_slab :=
  mk_slab (available_vecs s) (available_slots s) n (block_size s) (freed_vecs s) (state s)
    (freed_slots s).
Definition set_freed_vecs (v : Z) (s : obj_slab) : obj_slab :=
  mk_slab (available_vecs s) (available_slots s) (next s) (block_size s) v (state s)
    (freed_slots s).
Definition set_state (v : Z) (s : obj_slab) : obj_slab :=
  mk_slab (available_vecs s) (available_slots s) (next s) (block_size s) (freed_vecs s) v
    (freed_slots s).
Definition set_freed_slots (l : list Z) (s : obj_slab) : obj_slab :=
  mk_slab (available_vecs s) (available_slots s) (next s) (block_size s) (freed_vecs s)
    (state s) l.

Definition avail_slot (i x : Z) : ST obj_slab unit :=
  modify (λ s, set_available_slots (<[Z.to_nat i := x]> (available_slots s)) s).
Definition freed_slot (i x : Z) : ST obj_slab unit :=
  modify (λ s, set_freed_slots (<[Z.to_nat i := x]> (freed_slots s)) s).

(** Reading [available_slots[i]] or [freed_slots[i]]; out of range is undefined. *)
Definition read_avail (i : Z) : ST obj_slab Z :=
  s ← gets id; from_opt (available_slots s !! Z.to_nat i).
Definition read_freed (i : Z) : ST obj_slab Z :=
  s ← gets id; from_opt (freed_slots s !! Z.to_nat i).

(** ** Operations *)

(** The constructor, on the memory [raw]: the fields it does not name keep
    what the memory holds. *)
Definition init_slab (_block_size : Z) (raw : obj_slab) : option obj_slab :=
  q ← cdiv payload_size _block_size;
  let nblocks := u32 q in
  let nslots := u32 (nblocks + 63) / 64 in
  one ← (if 64 <=? nslots then Some 0 else shl 64 1 nslots);
  let filled := Z.to_nat (u32 (nslots - 1)) in
  last ← (if negb (nblocks mod 64 =? 0)
          then (b ← shl 64 1 (nblocks mod 64); Some (u64 (b - 1)))
          else Some (wnot 64 0));
  (* memset of [nslots - 1] words, then the store of the last word *)
  if decide (filled < 64)%nat then
    Some (mk_slab (u64 (one - 1))
            (<[filled := last]> (replicate filled (wnot 64 0) ++ drop filled (available_slots raw)))
            (next raw) _block_size (freed_vecs raw) (state raw) (freed_slots raw))
  else None.

(** [_allocate]: the critical section.  The labels of the assembly are 1 (the
    CPU test), 5 (top of the loop), 7 (an exhausted word is dropped from
    [available_vecs]) and 9 (exit).  Every round of the loop clears a bit of
    [temp_av], so 65 rounds are enough. *)
Fixpoint _allocate_loop (fuel : nat) (temp_av : Z) : ST obj_slab Z :=
  match fuel with
  | O => out_of_fuel
  | S fuel =>
      if temp_av =? 0 then mret FULL
      else
        let idx_av := instr_tzcnt 64 temp_av in
        temp_as ← read_avail idx_av;
        if temp_as =? 0 then
          let temp_av := blsr temp_av in
          modify (set_available_vecs temp_av);;
          _allocate_loop fuel temp_av
        else
          avail_slot idx_av (blsr temp_as);;
          mret (u64 (instr_tzcnt 64 temp_as + u64 (idx_av ≪ 6)))
  end.

(** [this] is the address of the slab, [cur_cpu] the CPU the thread runs on
    when the critical section starts. *)
Definition _allocate (this start_cpu cur_cpu : Z) : ST obj_slab Z :=
  require (this mod sizeof_obj_slab =? 0);;
  if negb (cur_cpu =? start_cpu) then mret MIGRATED
  else
    temp_av ← gets available_vecs;
    _allocate_loop 65 temp_av.

(** The [do ... while] of [_try_release], over the bits of [index_iterator]. *)
Fixpoint _release_loop (fuel : nat) (index_iterator : Z) : ST obj_slab unit :=
  match fuel with
  | O => out_of_fuel
  | S fuel =>
      let idx := find_first_one 64 index_iterator in
      let index_iterator := Z.land index_iterator (u64 (index_iterator - 1)) in
      require (negb (64 <=? idx));;
      reclaimed_slots ← read_freed idx;
      current ← read_freed idx;
      freed_slot idx (atomic_unset current reclaimed_slots);;
      avail_slot idx reclaimed_slots;;
      if index_iterator =? 0 then mret tt else _release_loop fuel index_iterator
  end.

Definition _try_release : ST obj_slab Z :=
  reclaimed_vecs ← gets freed_vecs;
  if reclaimed_vecs =? 0 then
    st ← gets state;
    require (st =? OWNED);;
    modify (set_state UNOWNED);;
    mret 1
  else
    modify (λ s, set_freed_vecs (atomic_unset (freed_vecs s) reclaimed_vecs) s);;
    _release_loop 64 reclaimed_vecs;;
    modify (set_available_vecs reclaimed_vecs);;
    mret 0.

(** [atomic_bit_set(freed_slots + vec_idx, slot_idx)]. *)
Definition atomic_set_freed_slot (vec_idx slot_idx : Z) : ST obj_slab unit :=
  current ← read_freed vec_idx;
  new ← from_opt (atomic_bit_set current slot_idx);
  freed_slot vec_idx new.

Definition _free (addr_minus_start : Z) : ST obj_slab Z :=
  require (negb (addr_minus_start <? payload_offset));;
  require (negb (payload_size <=? addr_minus_start - payload_offset));;
  bs ← gets block_size;
  position_idx ← from_opt (cdiv (addr_minus_start - payload_offset) bs);
  require (negb (capacity <=? position_idx));;
  let vec_idx := position_idx / num_vecs in
  let slot_idx := Z.land position_idx (vec_size - 1) in
  require (negb (64 <=? vec_idx));;
  require (negb (64 <=? slot_idx));;
  current ← read_freed vec_idx;
  if negb (current =? 0) then
    atomic_set_freed_slot vec_idx slot_idx;;
    mret 0
  else
    atomic_set_freed_slot vec_idx slot_idx;;
    fv ← gets freed_vecs;
    fv' ← from_opt (atomic_bit_set fv vec_idx);
    modify (set_freed_vecs fv');;
    st ← gets state;
    mret (Z.b2z (st =? UNOWNED)).

Definition _set_owned : ST obj_slab Z :=
  st ← gets state;
  '(ret, st') ← from_opt (atomic_bit_unset_ret st 0);
  modify (set_state st');;
  mret ret.

(** ** Layout *)

(** The [static_assert]s at the end of the file, and the size of a slab. *)
Theorem obj_slab_layout :
  offset_next = next_offset ∧ offset_payload = payload_offset ∧
  sizeof_obj_slab = payload_offset + payload_size ∧ sizeof_obj_slab = 34048.
Proof. done. Qed.

(** The constants as numbers, for [lia]. *)
Ltac slab_consts :=
  change payload_size with 32768 in *; change capacity with 4096 in *;
  change payload_offset with 1280 in *; change sizeof_obj_slab with 34048 in *;
  change MIGRATED with 4096 in *; change FULL with 4097 in *;
  change SUCCESS_BOUND with 4096 in *; change num_vecs with 64 in *;
  change vec_size with 64 in *.
Ltac slia := slab_consts; lia.

(** ** Abstraction and invariant *)

Definition nblocks (s : obj_slab) : Z := payload_size / block_size s.
Definition avail (s : obj_slab) (p : Z) : bool := bit_at (available_slots s) p.
Definition freed (s : obj_slab) (p : Z) : bool := bit_at (freed_slots s) p.

(** Positions a slab has bits for. *)
Definition position (p : Z) : Prop := 0 ≤ p < capacity.

Record wf_slab (s : obj_slab) : Prop := {
  wf_block_size : 8 ≤ block_size s ≤ payload_size;
  wf_available_vecs : is_word 64 (available_vecs s);
  wf_available_slots : words (available_slots s);
  wf_freed_vecs : is_word 64 (freed_vecs s);
  wf_freed_slots : words (freed_slots s);
  (* a word with an available bit is in the summary *)
  wf_available_summary i x :
    0 ≤ i < 64 → available_slots s !! Z.to_nat i = Some x → x ≠ 0 →
    Z.testbit (available_vecs s) i = true;
  (* the freed summary is exact *)
  wf_freed_summary i x :
    0 ≤ i < 64 → freed_slots s !! Z.to_nat i = Some x →
    Z.testbit (freed_vecs s) i = true ↔ x ≠ 0;
  wf_state : state s = OWNED ∨ state s = UNOWNED;
  wf_avail_range p : position p → avail s p = true → p < nblocks s;
  wf_freed_range p : position p → freed s p = true → p < nblocks s
}.

Lemma nblocks_bounds s : 8 ≤ block_size s ≤ payload_size → 1 ≤ nblocks s ≤ capacity.
Proof.
  intros Hb. unfold nblocks. split.
  - apply Z.div_le_lower_bound; slia.
  - apply Z.div_le_upper_bound; slia.
Qed.

(** A block lies within the payload. *)
Lemma block_in_payload s p :
  8 ≤ block_size s ≤ payload_size → 0 ≤ p < nblocks s →
  0 ≤ p * block_size s ∧ p * block_size s + block_size s ≤ payload_size.
Proof.
  intros Hb Hp. unfold nblocks in Hp. split; [nia|].
  pose proof (Z.mul_div_le payload_size (block_size s)). nia.
Qed.

(** An address inside block [p] is mapped back to [p]. *)
Lemma position_of_addr s p off :
  8 ≤ block_size s → 0 ≤ off < block_size s →
  cdiv (p * block_size s + off) (block_size s) = Some p.
Proof.
  intros Hb Ho. unfold cdiv. replace (block_size s =? 0) with false by lia. f_equal.
  symmetry. apply Z.div_unique with off; lia.
Qed.

Lemma word_tz_64 x : is_word 64 x → x ≠ 0 → 0 ≤ instr_tzcnt 64 x < 64.
Proof. intros Hx H0. apply tzcnt_lt; unfold is_word in *; lia. Qed.

(** No available bit in a word that is 0, or whose summary bit is clear. *)
Lemma avail_word_zero s i j :
  0 ≤ j < 64 → available_slots s !! Z.to_nat i = Some 0 → avail s (64 * i + j) = false.
Proof. intros Hj Hl. unfold avail. rewrite (bit_at_lookup _ _ _ 0 Hl Hj). apply Z.bits_0. Qed.

Lemma avail_unsummarised s i j :
  wf_slab s → 0 ≤ i < 64 → 0 ≤ j < 64 → Z.testbit (available_vecs s) i = false →
  avail s (64 * i + j) = false.
Proof.
  intros Hwf Hi Hj Hb. destruct (words_lookup _ i (wf_available_slots s Hwf) Hi) as (x & Hx & _).
  destruct (decide (x = 0)) as [->|H0]; [by apply avail_word_zero|].
  rewrite (wf_available_summary s Hwf i x Hi Hx H0) in Hb. done.
Qed.

(** ** The constructor *)

Lemma testbit_ones_sub k i : 0 ≤ k → 0 ≤ i → Z.testbit (2 ^ k - 1) i = (i <? k).
Proof.
  intros Hk Hi. replace (2 ^ k - 1) with (Z.ones k) by (rewrite Z.ones_equiv; lia).
  destruct (Z.ltb_spec i k); [by apply Z.ones_spec_low|by apply Z.ones_spec_high; lia].
Qed.

Section Constructor.
Context (bs : Z) (raw : obj_slab) (Hbs : 8 ≤ bs ≤ payload_size).
Context (Hraw : words (available_slots raw)).

Let n := payload_size / bs.
Let nslots := (n + 63) / 64.

Lemma ctor_n : 1 ≤ n ≤ 4096.
Proof. apply (nblocks_bounds (set_available_vecs 0 (mk_slab 0 [] 0 bs 0 0 []))). done. Qed.

Lemma ctor_nslots : 1 ≤ nslots ≤ 64 ∧ 64 * (nslots - 1) < n ≤ 64 * nslots.
Proof.
  pose proof ctor_n. unfold nslots.
  pose proof (Z.div_mod (n + 63) 64). pose proof (Z.mod_pos_bound (n + 63) 64). lia.
Qed.

(** The last word, partially filled when [n] is not a multiple of 64. *)
Definition last_word : Z :=
  if n mod 64 =? 0 then 2 ^ 64 - 1 else 2 ^ (n mod 64) - 1.

Lemma last_word_testbit j :
  0 ≤ j < 64 → Z.testbit last_word j = (64 * (nslots - 1) + j <? n).
Proof.
  intros Hj. pose proof ctor_n. pose proof ctor_nslots. unfold last_word.
  pose proof (Z.div_mod n 64). pose proof (Z.mod_pos_bound n 64).
  destruct (Z.eqb_spec (n mod 64) 0); rewrite testbit_ones_sub by lia; lia.
Qed.

Lemma last_word_ok : is_word 64 last_word ∧ last_word ≠ 0.
Proof.
  pose proof (Z.mod_pos_bound n 64). unfold last_word.
  destruct (Z.eqb_spec (n mod 64) 0); [split; [word_const|lia]|].
  assert (2 ^ 1 ≤ 2 ^ (n mod 64)) by (apply Z.pow_le_mono_r; lia).
  assert (2 ^ (n mod 64) < 2 ^ 64) by (apply Z.pow_lt_mono_r; lia).
  split; [word_const|lia].
Qed.

Lemma init_slab_eq :
  init_slab bs raw =
    Some (mk_slab (2 ^ nslots - 1)
      (replicate (Z.to_nat (nslots - 1)) (2 ^ 64 - 1) ++
       last_word :: drop (Z.to_nat nslots) (available_slots raw))
      (next raw) bs (freed_vecs raw) (state raw) (freed_slots raw)).
Proof.
  pose proof ctor_n as Hn. pose proof ctor_nslots as [Hs _]. destruct Hraw as [Hlen _].
  unfold init_slab, cdiv. replace (bs =? 0) with false by lia. simpl.
  fold n. rewrite (wrap_small 32 n), (wrap_small 32 (n + 63)) by word_const.
  fold nslots. rewrite (wrap_small 32 (nslots - 1)) by word_const.
  assert ((if 64 <=? nslots then Some 0 else shl 64 1 nslots) =
    Some (if 64 <=? nslots then 0 else 2 ^ nslots)) as ->.
  { unfold shl. destruct (Z.leb_spec 64 nslots); [done|].
    replace (nslots <? 64) with true by lia.
    by rewrite wrap_small, Z.shiftl_1_l by (apply word_bit; lia). }
  simpl. pose proof (Z.mod_pos_bound n 64) as Hm.
  assert ((if negb (n mod 64 =? 0) then b ← shl 64 1 (n mod 64); Some (u64 (b - 1))
           else Some (wnot 64 0)) = Some last_word) as ->.
  { unfold last_word. destruct (Z.eqb_spec (n mod 64) 0); [done|]. simpl. unfold shl.
    replace (n mod 64 <? 64) with true by lia. simpl.
    rewrite (wrap_small 64 (1 ≪ _)), Z.shiftl_1_l by (apply word_bit; lia).
    assert (2 ^ (n mod 64) < 2 ^ 64) by (apply Z.pow_lt_mono_r; lia).
    by rewrite wrap_small by word_const. }
  simpl. rewrite decide_True by lia. f_equal. f_equal.
  - destruct (Z.leb_spec 64 nslots).
    + by assert (nslots = 64) as -> by lia.
    + apply wrap_small. assert (2 ^ nslots < 2 ^ 64) by (apply Z.pow_lt_mono_r; lia). word_const.
  - change (wnot 64 0) with (2 ^ 64 - 1).
    rewrite insert_app_r_alt by (rewrite length_replicate; lia).
    rewrite length_replicate, Nat.sub_diag. f_equal.
    replace (Z.to_nat nslots) with (Z.to_nat (nslots - 1) + 1)%nat by lia.
    destruct (drop (Z.to_nat (nslots - 1)) (available_slots raw)) as [|y ys] eqn:E.
    + apply (f_equal length) in E. rewrite length_drop in E. simpl in E. lia.
    + by rewrite <-drop_drop, E.
Qed.

Definition ctor_slots : list Z :=
  replicate (Z.to_nat (nslots - 1)) (2 ^ 64 - 1) ++
  last_word :: drop (Z.to_nat nslots) (available_slots raw).

Lemma ctor_slots_lookup i :
  0 ≤ i < 64 →
  ctor_slots !! Z.to_nat i =
    if i <? nslots - 1 then Some (2 ^ 64 - 1)
    else if i =? nslots - 1 then Some last_word
    else available_slots raw !! Z.to_nat i.
Proof.
  intros Hi. pose proof ctor_nslots as [Hs _]. unfold ctor_slots.
  destruct (Z.ltb_spec i (nslots - 1)).
  { rewrite lookup_app_l by (rewrite length_replicate; lia).
    apply lookup_replicate_2. lia. }
  rewrite lookup_app_r by (rewrite length_replicate; lia). rewrite length_replicate.
  destruct (Z.eqb_spec i (nslots - 1)) as [->|Hne].
  { by rewrite Nat.sub_diag. }
  replace (Z.to_nat i - Z.to_nat (nslots - 1))%nat
    with (S (Z.to_nat i - Z.to_nat nslots)) by lia. simpl.
  rewrite lookup_drop. f_equal. lia.
Qed.

Lemma ctor_slots_words : words ctor_slots.
Proof.
  pose proof ctor_nslots as [Hs _]. destruct Hraw as [Hlen HF]. unfold ctor_slots. split.
  - rewrite length_app, length_replicate. simpl. rewrite length_drop. lia.
  - apply Forall_app. split; [apply Forall_replicate; word_const|].
    constructor; [apply last_word_ok|]. by apply Forall_drop.
Qed.
End Constructor.

(** The constructor on zeroed memory: block [p] is available exactly when the
    payload has a [p]-th block, nothing is freed, and the slab is owned. *)
Lemma init_slab_spec bs :
  8 ≤ bs ≤ payload_size →
  ∃ s, init_slab bs zero_slab = Some s ∧ wf_slab s ∧ block_size s = bs ∧
    state s = OWNED ∧ next s = 0 ∧ freed_slots s = zero_words ∧
    ∀ p, position p → avail s p = (p <? nblocks s).
Proof.
  intros Hbs. pose proof words_zero as Hraw.
  eexists. split; [by apply (init_slab_eq bs zero_slab)|].
  pose proof (ctor_n bs Hbs) as Hn. pose proof (ctor_nslots bs Hbs) as [Hs Hn'].
  fold (ctor_slots bs zero_slab).
  set (s := mk_slab _ _ _ _ _ _ _). set (nslots := (payload_size / bs + 63) / 64) in *.
  assert (∀ p, position p → avail s p = (p <? nblocks s)) as Havail.
  { intros p Hp. destruct (pos_split p Hp) as (i & j & -> & Hi & Hj). unfold avail, s; simpl.
    pose proof (ctor_slots_lookup bs zero_slab Hbs i Hi) as Hl. fold nslots in Hl.
    unfold nblocks; simpl.
    destruct (Z.ltb_spec i (nslots - 1)).
    { rewrite (bit_at_lookup _ _ _ _ Hl Hj), testbit_ones_sub by lia. lia. }
    destruct (Z.eqb_spec i (nslots - 1)) as [->|Hne].
    { rewrite (bit_at_lookup _ _ _ _ Hl Hj). by apply last_word_testbit. }
    assert (zero_slab.(available_slots) !! Z.to_nat i = Some 0) as Hz
      by (apply lookup_replicate_2; lia).
    rewrite Hz in Hl. rewrite (bit_at_lookup _ _ _ _ Hl Hj), Z.bits_0. lia. }
  assert (freed_slots s = zero_words) as Hfs by done.
  split; [|done]. constructor; simpl.
  - done.
  - unfold is_word. fold nslots.
    assert (2 ^ nslots ≤ 2 ^ 64) by (apply Z.pow_le_mono_r; lia). lia.
  - by apply ctor_slots_words.
  - word_const.
  - done.
  - intros i x Hi Hx H0. fold nslots. rewrite testbit_ones_sub by lia.
    rewrite (ctor_slots_lookup bs zero_slab Hbs i Hi) in Hx. fold nslots in Hx.
    destruct (Z.ltb_spec i (nslots - 1)); [lia|].
    destruct (Z.eqb_spec i (nslots - 1)); [lia|].
    by apply zero_words_lookup in Hx.
  - intros i x Hi ->%zero_words_lookup. by rewrite Z.bits_0.
  - by left.
  - intros p Hp. rewrite Havail by done. lia.
  - intros p Hp. unfold freed. rewrite Hfs, bit_at_zeros. done.
Qed.

(** ** [_allocate] *)

(** [s'] differs from [s] in its allocation bits only. *)
Definition frame_avail (s s' : obj_slab) : Prop :=
  next s' = next s ∧ block_size s' = block_size s ∧ freed_vecs s' = freed_vecs s ∧
  state s' = state s ∧ freed_slots s' = freed_slots s.

Lemma frame_avail_wf s s' :
  wf_slab s → frame_avail s s' → is_word 64 (available_vecs s') → words (available_slots s') →
  (∀ i x, 0 ≤ i < 64 → available_slots s' !! Z.to_nat i = Some x → x ≠ 0 →
    Z.testbit (available_vecs s') i = true) →
  (∀ p, position p → avail s' p = true → p < nblocks s) →
  wf_slab s'.
Proof.
  intros Hwf (Hn & Hb & Hfv & Hst & Hfs) Hav Has Hsum Hrange.
  assert (nblocks s' = nblocks s) as Hnb by (unfold nblocks; by rewrite Hb).
  constructor; rewrite ?Hb, ?Hfv, ?Hfs, ?Hst; try apply Hwf; try done.
  - by rewrite Hnb.
  - rewrite Hnb. unfold freed. rewrite Hfs. apply Hwf.
Qed.

(** Block [ret] was the first available one and is no longer available. *)
Definition took (s : obj_slab) (ret : Z) (s' : obj_slab) : Prop :=
  0 ≤ ret < nblocks s ∧ avail s ret = true ∧
  (∀ q, 0 ≤ q < ret → avail s q = false) ∧
  (∀ q, position q → avail s' q = avail s q && negb (q =? ret)) ∧
  frame_avail s s' ∧ wf_slab s'.

(** No block was available; only the summary may have been cleaned up. *)
Definition exhausted (s : obj_slab) (ret : Z) (s' : obj_slab) : Prop :=
  ret = FULL ∧ (∀ q, position q → avail s q = false) ∧
  available_slots s' = available_slots s ∧ frame_avail s s' ∧ wf_slab s'.

(** Dropping an exhausted word from the summary keeps the slab well formed. *)
Lemma drop_summary_wf s :
  wf_slab s → available_vecs s ≠ 0 →
  available_slots s !! Z.to_nat (instr_tzcnt 64 (available_vecs s)) = Some 0 →
  wf_slab (set_available_vecs (blsr (available_vecs s)) s).
Proof.
  intros Hwf H0 Hz. pose proof (wf_available_vecs s Hwf) as Hw.
  apply frame_avail_wf with s; [done|done|by apply blsr_word|apply Hwf| |apply Hwf].
  intros i x Hi Hx Hx0. simpl in *. unfold is_word in Hw.
  rewrite blsr_testbit by (unfold is_word; lia).
  rewrite (wf_available_summary s Hwf i x Hi Hx Hx0). simpl.
  destruct (Z.eqb_spec (instr_tzcnt 64 (available_vecs s)) i) as [<-|]; [|done].
  congruence.
Qed.

(** Taking the lowest bit of the lowest summarised word. *)
Lemma take_lowest s x :
  wf_slab s → available_vecs s ≠ 0 →
  let i := instr_tzcnt 64 (available_vecs s) in
  available_slots s !! Z.to_nat i = Some x → x ≠ 0 →
  took s (u64 (instr_tzcnt 64 x + u64 (i ≪ 6)))
    (set_available_slots (<[Z.to_nat i := blsr x]> (available_slots s)) s).
Proof.
  intros Hwf H0 i Hx Hx0. pose proof (wf_available_vecs s Hwf) as Hw.
  pose proof (word_tz_64 _ Hw H0) as Hi. fold i in Hi.
  assert (is_word 64 x) as Hxw.
  { destruct (words_lookup _ i (wf_available_slots s Hwf) Hi) as (y & ? & ?). congruence. }
  pose proof (word_tz_64 x Hxw Hx0) as Hj. set (j := instr_tzcnt 64 x) in *.
  assert (u64 (j + u64 (i ≪ 6)) = 64 * i + j) as ->.
  { rewrite Z.shiftl_mul_pow2 by lia. rewrite (wrap_small 64 (i * _)) by word_const.
    rewrite wrap_small by word_const. lia. }
  assert (avail s (64 * i + j) = true) as Htrue.
  { unfold avail. rewrite (bit_at_lookup _ _ _ _ Hx Hj). apply tzcnt_bit.
    unfold is_word in Hxw. lia. }
  assert (∀ q, position q →
    avail (set_available_slots (<[Z.to_nat i:=blsr x]> (available_slots s)) s) q =
    avail s q && negb (q =? 64 * i + j)) as Hbits.
  { intros q Hq. unfold avail; simpl.
    rewrite bit_at_insert by (done || apply Hwf).
    destruct (pos_split q Hq) as (i' & j' & -> & Hi' & Hj').
    replace ((64 * i' + j') / 64) with i' by (apply Z.div_unique with j'; lia).
    replace ((64 * i' + j') mod 64) with j' by (apply Z.mod_unique with i'; lia).
    destruct (Z.eqb_spec i' i) as [->|].
    - rewrite (bit_at_lookup _ _ _ _ Hx Hj'), blsr_testbit by (unfold is_word in *; lia).
      fold j. f_equal. f_equal. lia.
    - replace (64 * i' + j' =? 64 * i + j) with false by lia. by rewrite andb_true_r. }
  assert (wf_slab (set_available_slots (<[Z.to_nat i:=blsr x]> (available_slots s)) s)).
  { apply frame_avail_wf with s; [done|done|done| | |].
    - apply words_insert; [apply Hwf|by apply blsr_word].
    - intros i' y Hi' Hy Hy0. simpl in *.
      destruct (decide (i' = i)) as [->|]; [by apply tzcnt_bit; unfold is_word in Hw; lia|].
      rewrite list_lookup_insert_ne in Hy by lia. by apply (wf_available_summary s Hwf i' y).
    - intros p Hp. rewrite Hbits by done. intros [Ha _]%andb_true_iff.
      by apply (wf_avail_range s Hwf). }
  split_and!; [lia| |done| |done|done|done].
  - apply (wf_avail_range s Hwf); [unfold position; slia|done].
  - intros q Hq. destruct (pos_split q) as (i' & j' & -> & Hi' & Hj'); [lia|].
    destruct (decide (i' < i)).
    + apply avail_unsummarised; [done|done|done|].
      apply tzcnt_low with 64; [unfold is_word in Hw; lia|fold i; lia].
    + assert (i' = i) as -> by lia. unfold avail. rewrite (bit_at_lookup _ _ _ _ Hx Hj').
      apply tzcnt_low with 64; [unfold is_word in Hxw; lia|fold j; lia].
Qed.

Lemma wp_read_avail total i Q s x :
  available_slots s !! Z.to_nat i = Some x → Q x s → wp total (read_avail i) Q s.
Proof. intros Hx HQ. unfold read_avail. repeat wp_step; done. Qed.

Lemma wp_allocate_loop fuel s :
  wf_slab s → (0 < fuel)%nat →
  (∀ i, 0 ≤ i < 65 - Z.of_nat fuel → Z.testbit (available_vecs s) i = false) →
  wp true (_allocate_loop fuel (available_vecs s))
    (λ ret s', took s ret s' ∨ exhausted s ret s') s.
Proof.
  revert s. induction fuel as [|fuel IH]; intros s Hwf Hf Hlow; [lia|].
  cbn [_allocate_loop].
  pose proof (wf_available_vecs s Hwf) as Hw. wp_step.
  { wp_step. right. split; [done|]. split; [|done].
    intros q Hq. destruct (pos_split q Hq) as (i & j & -> & Hi & Hj).
    apply avail_unsummarised; try done. replace (available_vecs s) with 0 by lia. apply Z.bits_0. }
  assert (available_vecs s ≠ 0) as H0 by lia.
  pose proof (word_tz_64 _ Hw H0) as Hi.
  destruct (words_lookup _ _ (wf_available_slots s Hwf) Hi) as (x & Hx & Hxw).
  wp_step. apply wp_read_avail with x; [done|].
  destruct (Z.eqb_spec x 0) as [->|Hx0].
  - repeat wp_step.
    pose proof (drop_summary_wf s Hwf H0 Hx) as Hwf'.
    assert (65 - Z.of_nat (S fuel) ≤ instr_tzcnt 64 (available_vecs s)).
    { apply Z.nlt_ge. intros Hlt.
      pose proof (tzcnt_bit 64 (available_vecs s)) as Hb. rewrite Hlow in Hb by lia.
      unfold is_word in Hw. discriminate Hb. lia. }
    eapply wp_mono; [apply (IH _ Hwf'); [lia|]|done].
    intros i' Hi'. simpl. unfold is_word in Hw.
    rewrite blsr_testbit by (unfold is_word; lia).
    destruct (Z.eqb_spec (instr_tzcnt 64 (available_vecs s)) i'); [by rewrite andb_false_r|].
    by rewrite (tzcnt_low 64 (available_vecs s)) by lia.
  - repeat wp_step. left. by apply take_lowest.
Qed.

Lemma wp_slab_allocate this start_cpu cur_cpu s :
  this mod sizeof_obj_slab = 0 → wf_slab s →
  wp true (_allocate this start_cpu cur_cpu)
    (λ ret s',
      if cur_cpu =? start_cpu then took s ret s' ∨ exhausted s ret s'
      else ret = MIGRATED ∧ s' = s) s.
Proof.
  intros Hthis Hwf. unfold _allocate. wp_step. wp_step; [lia|].
  destruct (cur_cpu =? start_cpu); cbn [negb]; repeat wp_step; [|done].
  apply (wp_allocate_loop 65); [done|lia|lia].
Qed.

(** ** [_free] *)

Definition frame_freed (s s' : obj_slab) : Prop :=
  next s' = next s ∧ block_size s' = block_size s ∧ state s' = state s ∧
  available_vecs s' = available_vecs s ∧ available_slots s' = available_slots s.

(** The freed bit of block [p] is set; nothing else changes. *)
Definition gave_back (s : obj_slab) (p : Z) (s' : obj_slab) : Prop :=
  (∀ q, position q → freed s' q = freed s q || (q =? p)) ∧ frame_freed s s' ∧ wf_slab s'.

(** No freed bit in the word of position [p]. *)
Definition word_clear (s : obj_slab) (p : Z) : bool :=
  match freed_slots s !! Z.to_nat (p / 64) with Some x => x =? 0 | None => false end.

Lemma wp_read_freed total i Q s x :
  freed_slots s !! Z.to_nat i = Some x → Q x s → wp total (read_freed i) Q s.
Proof. intros Hx HQ. unfold read_freed. repeat wp_step; done. Qed.

Lemma wp_atomic_set_freed_slot total i j Q s x :
  freed_slots s !! Z.to_nat i = Some x → 0 ≤ j < 64 →
  Q tt (set_freed_slots (<[Z.to_nat i := Z.lor x (1 ≪ j)]> (freed_slots s)) s) →
  wp total (atomic_set_freed_slot i j) Q s.
Proof.
  intros Hx Hj HQ. unfold atomic_set_freed_slot. wp_step.
  apply wp_read_freed with x; [done|]. wp_step. eapply wp_from_opt; [by apply atomic_bit_set_Some|].
  by unfold freed_slot; wp_step.
Qed.

(** Setting the bit of [p], with the summary bit set as well: the state after
    both branches of [_free]. *)
Lemma set_freed_wf s i j x fv :
  wf_slab s → 0 ≤ i < 64 → 0 ≤ j < 64 → 64 * i + j < nblocks s →
  freed_slots s !! Z.to_nat i = Some x → is_word 64 fv →
  (∀ k, 0 ≤ k < 64 → Z.testbit fv k = Z.testbit (freed_vecs s) k || (k =? i)) →
  gave_back s (64 * i + j)
    (set_freed_vecs fv
      (set_freed_slots (<[Z.to_nat i := Z.lor x (1 ≪ j)]> (freed_slots s)) s)).
Proof.
  intros Hwf Hi Hj Hn Hx Hfv Hfvb. set (s' := set_freed_vecs _ _).
  assert (is_word 64 x) as Hxw.
  { destruct (words_lookup _ i (wf_freed_slots s Hwf) Hi) as (y & ? & ?). congruence. }
  assert (∀ q, position q → freed s' q = freed s q || (q =? 64 * i + j)) as Hbits.
  { intros q Hq. unfold freed, s'; simpl. rewrite bit_at_insert by (done || apply Hwf).
    destruct (pos_split q Hq) as (i' & j' & -> & Hi' & Hj').
    replace ((64 * i' + j') / 64) with i' by (apply Z.div_unique with j'; lia).
    replace ((64 * i' + j') mod 64) with j' by (apply Z.mod_unique with i'; lia).
    destruct (Z.eqb_spec i' i) as [->|].
    - rewrite (bit_at_lookup _ _ _ _ Hx Hj'), set_bit_testbit by (done || lia). f_equal. lia.
    - replace (64 * i' + j' =? 64 * i + j) with false by lia. by rewrite orb_false_r. }
  split; [done|]. split; [done|].
  constructor; try apply Hwf; try done.
  - apply words_insert; [apply Hwf|]. auto with word.
  - intros k y Hk Hy. simpl in *. rewrite Hfvb by done.
    destruct (decide (k = i)) as [->|Hne].
    + rewrite list_lookup_insert_eq in Hy by (destruct (wf_freed_slots s Hwf); lia).
      injection Hy as <-. rewrite Z.eqb_refl, orb_true_r. split; [|done]. intros _.
      by apply set_bit_nonzero.
    + rewrite list_lookup_insert_ne in Hy by lia. replace (k =? i) with false by lia.
      rewrite orb_false_r. by apply (wf_freed_summary s Hwf).
  - intros p Hp. rewrite Hbits by done. intros [Hf|Hf]%orb_true_iff.
    + by apply (wf_freed_range s Hwf).
    + unfold nblocks in *. simpl. lia.
Qed.

Lemma wp_slab_free s p off :
  wf_slab s → 0 ≤ p < nblocks s → 0 ≤ off < block_size s →
  wp true (_free (payload_offset + p * block_size s + off))
    (λ ret s', gave_back s p s' ∧ ret = Z.b2z (word_clear s p && (state s =? UNOWNED))) s.
Proof.
  intros Hwf Hp Hoff. pose proof (wf_block_size s Hwf) as Hb.
  pose proof (block_in_payload s p Hb Hp) as [Hlo Hhi]. pose proof (nblocks_bounds s Hb) as Hnb.
  unfold _free. replace (payload_offset + p * block_size s + off - payload_offset)
    with (p * block_size s + off) by lia.
  wp_step. wp_step; [slia|]. wp_step. wp_step; [slia|]. do 2 wp_step.
  wp_step. eapply wp_from_opt; [apply position_of_addr; lia|].
  assert (position p) as Hpos by (unfold position; slia).
  destruct (pos_split p Hpos) as (i & j & -> & Hi & Hj).
  assert ((64 * i + j) / num_vecs = i) as -> by (symmetry; apply Z.div_unique with j; slia).
  assert (Z.land (64 * i + j) (vec_size - 1) = j) as ->.
  { change (vec_size - 1) with (Z.ones 6). rewrite Z.land_ones by lia.
    symmetry. apply Z.mod_unique with i; lia. }
  do 3 (wp_step; wp_step; [unfold position in *; slia|]).
  destruct (words_lookup _ i (wf_freed_slots s Hwf) Hi) as (x & Hx & Hxw).
  wp_step. apply wp_read_freed with x; [done|].
  assert (word_clear s (64 * i + j) = (x =? 0)) as ->.
  { unfold word_clear. replace ((64 * i + j) / 64) with i by (apply Z.div_unique with j; lia).
    by rewrite Hx. }
  destruct (Z.eqb_spec x 0) as [->|Hx0]; simpl.
  - wp_step. eapply wp_atomic_set_freed_slot; [done|done|]. do 2 wp_step. wp_step.
    eapply wp_from_opt; [by apply atomic_bit_set_Some|]. repeat wp_step. split; [|done].
    pose proof (wf_freed_vecs s Hwf).
    apply set_freed_wf; [done|done|done|lia|done|by auto with word|].
    intros k Hk. simpl. rewrite set_bit_testbit by lia. f_equal. lia.
  - wp_step. eapply wp_atomic_set_freed_slot; [done|done|]. wp_step. split; [|done].
    pose proof (set_freed_wf s i j x (freed_vecs s)) as H.
    apply H; [done|done|done|lia|done|apply Hwf|].
    intros k Hk. destruct (Z.eqb_spec k i) as [->|]; [|by rewrite orb_false_r].
    rewrite (proj2 (wf_freed_summary s Hwf i x Hi Hx)) by done. done.
Qed.

(** ** [_try_release] *)

(** Word [i] of both vectors after reclaiming: the freed bits became the
    available ones. *)
Definition reclaimed_at (s : obj_slab) (i : Z) (s' : obj_slab) : Prop :=
  freed_slots s' !! Z.to_nat i = Some 0 ∧
  available_slots s' !! Z.to_nat i = freed_slots s !! Z.to_nat i.

Definition untouched_at (s : obj_slab) (i : Z) (s' : obj_slab) : Prop :=
  freed_slots s' !! Z.to_nat i = freed_slots s !! Z.to_nat i ∧
  available_slots s' !! Z.to_nat i = available_slots s !! Z.to_nat i.

(** What the loop leaves alone. *)
Definition frame_slots (s s' : obj_slab) : Prop :=
  next s' = next s ∧ block_size s' = block_size s ∧ state s' = state s ∧
  freed_vecs s' = freed_vecs s ∧ available_vecs s' = available_vecs s ∧
  words (available_slots s') ∧ words (freed_slots s').

Definition reclaimed_word (i x : Z) (s : obj_slab) : obj_slab :=
  set_available_slots (<[Z.to_nat i := x]> (available_slots s))
    (set_freed_slots (<[Z.to_nat i := 0]> (freed_slots s)) s).

Lemma reclaimed_word_at s i x k :
  words (available_slots s) → words (freed_slots s) → 0 ≤ i < 64 → 0 ≤ k < 64 →
  freed_slots s !! Z.to_nat i = Some x →
  if k =? i then reclaimed_at s k (reclaimed_word i x s)
  else untouched_at s k (reclaimed_word i x s).
Proof.
  intros [Ha _] [Hf _] Hi Hk Hx. unfold reclaimed_at, untouched_at; simpl.
  destruct (Z.eqb_spec k i) as [->|].
  - by rewrite !list_lookup_insert_eq by lia.
  - by rewrite !list_lookup_insert_ne by lia.
Qed.

Lemma wp_release_loop fuel it s :
  words (available_slots s) → words (freed_slots s) → is_word 64 it → it ≠ 0 →
  (0 < fuel)%nat → (∀ i, 0 ≤ i < 64 - Z.of_nat fuel → Z.testbit it i = false) →
  wp true (_release_loop fuel it)
    (λ _ s', frame_slots s s' ∧
      ∀ i, 0 ≤ i < 64 →
        if Z.testbit it i then reclaimed_at s i s' else untouched_at s i s') s.
Proof.
  revert it s. induction fuel as [|fuel IH]; intros it s Ha Hf Hit Hit0 Hfuel Hlow; [lia|].
  simpl. rewrite find_first_one_64 by done. fold (blsr it).
  pose proof (word_tz_64 it Hit Hit0) as Hi. set (i := instr_tzcnt 64 it) in *.
  assert (Z.testbit it i = true) as Hibit by (apply tzcnt_bit; unfold is_word in Hit; lia).
  destruct (words_lookup _ i Hf Hi) as (x & Hx & Hxw).
  wp_step. wp_step; [lia|]. wp_step. apply wp_read_freed with x; [done|].
  wp_step. apply wp_read_freed with x; [done|]. rewrite atomic_unset_self by done.
  unfold freed_slot, avail_slot. do 4 wp_step.
  assert (words (available_slots (reclaimed_word i x s))) by (simpl; auto with word).
  assert (words (freed_slots (reclaimed_word i x s))) by (simpl; auto with word).
  assert (∀ k, 0 ≤ k < 64 → Z.testbit (blsr it) k = Z.testbit it k && negb (i =? k)) as Hb.
  { intros k Hk. apply blsr_testbit; [unfold is_word in Hit; lia|done|lia]. }
  wp_step.
  - wp_step. split; [done|]. intros k Hk.
    pose proof (reclaimed_word_at s i x k Ha Hf Hi Hk Hx) as Hat.
    specialize (Hb k Hk). replace (blsr it) with 0 in Hb by lia. rewrite Z.bits_0 in Hb.
    destruct (Z.eqb_spec k i) as [->|].
    + by rewrite Hibit.
    + replace (i =? k) with false in Hb by lia. rewrite andb_true_r in Hb. by rewrite <-Hb.
  - assert (64 - Z.of_nat (S fuel) ≤ i).
    { apply Z.nlt_ge. intros Hlt. rewrite Hlow in Hibit by lia. done. }
    eapply wp_mono; [apply (IH (blsr it) (reclaimed_word i x s)); try done;
      [by apply blsr_word|lia| |]|].
    + destruct fuel; [|lia]. exfalso. assert (blsr it = 0); [|lia].
      apply (word_zero_iff 64); [lia|by apply blsr_word|]. intros k Hk. rewrite Hb by done.
      destruct (Z.eqb_spec i k); [by rewrite andb_false_r|]. rewrite Hlow; [done|lia].
    + intros k Hk. rewrite Hb by lia. destruct (Z.eqb_spec i k); [by rewrite andb_false_r|].
      unfold i in *. rewrite (tzcnt_low 64 it); [done|unfold is_word in Hit; lia|lia].
    + intros _ s' [Hfr Hall]. split; [done|]. intros k Hk.
      pose proof (reclaimed_word_at s i x k Ha Hf Hi Hk Hx) as Hat.
      specialize (Hall k Hk). rewrite Hb in Hall by done. unfold reclaimed_at, untouched_at in *.
      destruct (Z.eqb_spec k i) as [->|].
      * rewrite Hibit. rewrite Z.eqb_refl, andb_false_r in Hall.
        destruct Hat, Hall. split; congruence.
      * replace (i =? k) with false in Hall by lia. rewrite andb_true_r in Hall.
        destruct Hat, (Z.testbit it k), Hall; split; congruence.
Qed.

(** Everything freed has become available again. *)
Definition reclaimed (s s' : obj_slab) : Prop :=
  (∀ q, position q → avail s' q = freed s q) ∧ (∀ q, position q → freed s' q = false) ∧
  next s' = next s ∧ block_size s' = block_size s ∧ state s' = state s ∧ wf_slab s'.

Lemma freed_none s : wf_slab s → freed_vecs s = 0 → ∀ q, position q → freed s q = false.
Proof.
  intros Hwf H0 q Hq. destruct (pos_split q Hq) as (i & j & -> & Hi & Hj).
  destruct (words_lookup _ i (wf_freed_slots s Hwf) Hi) as (x & Hx & _).
  destruct (decide (x = 0)) as [->|Hx0].
  - unfold freed. rewrite (bit_at_lookup _ _ _ _ Hx Hj). apply Z.bits_0.
  - apply (wf_freed_summary s Hwf i x Hi Hx) in Hx0. by rewrite H0, Z.bits_0 in Hx0.
Qed.

Lemma freed_some s q : wf_slab s → position q → freed s q = true → freed_vecs s ≠ 0.
Proof. intros Hwf Hq Hf H0. rewrite (freed_none s Hwf H0 q Hq) in Hf. done. Qed.

(** A summary that is not 0 stands for a freed block. *)
Lemma freed_exists s : wf_slab s → freed_vecs s ≠ 0 → ∃ q, position q ∧ freed s q = true.
Proof.
  intros Hwf H0. pose proof (wf_freed_vecs s Hwf) as Hw.
  pose proof (word_tz_64 _ Hw H0) as Hi. set (i := instr_tzcnt 64 (freed_vecs s)) in *.
  destruct (words_lookup _ i (wf_freed_slots s Hwf) Hi) as (x & Hx & Hxw).
  assert (x ≠ 0) as Hx0.
  { apply (wf_freed_summary s Hwf i x Hi Hx). unfold is_word in Hw. by apply tzcnt_bit; lia. }
  pose proof (word_tz_64 x Hxw Hx0) as Hj.
  exists (64 * i + instr_tzcnt 64 x). split; [unfold position; slia|].
  unfold freed. rewrite (bit_at_lookup _ _ _ x Hx Hj). unfold is_word in Hxw.
  by apply tzcnt_bit; lia.
Qed.

(** All words of an exhausted slab are 0. *)
Lemma exhausted_words s i x :
  wf_slab s → (∀ q, position q → avail s q = false) → 0 ≤ i < 64 →
  available_slots s !! Z.to_nat i = Some x → x = 0.
Proof.
  intros Hwf Hex Hi Hx.
  assert (is_word 64 x) as Hxw.
  { destruct (words_lookup _ i (wf_available_slots s Hwf) Hi) as (y & ? & ?). congruence. }
  apply (word_zero_iff 64 ltac:(lia) x Hxw). intros j Hj.
  rewrite <-(bit_at_lookup _ _ _ _ Hx Hj). apply Hex. unfold position. slia.
Qed.

(** The state [_try_release] builds from the result of its loop. *)
Lemma reclaim_wf s s1 :
  wf_slab s → (∀ q, position q → avail s q = false) →
  frame_slots (set_freed_vecs 0 s) s1 →
  (∀ i, 0 ≤ i < 64 →
    if Z.testbit (freed_vecs s) i then reclaimed_at s i s1 else untouched_at s i s1) →
  reclaimed s (set_available_vecs (freed_vecs s) s1).
Proof.
  intros Hwf Hex (Hn & Hb & Hst & Hfv & Hav & Hwa & Hwf') Hat. simpl in *.
  set (s' := set_available_vecs _ _).
  assert (∀ i, 0 ≤ i < 64 → ∃ x, freed_slots s !! Z.to_nat i = Some x ∧
    freed_slots s' !! Z.to_nat i = Some 0 ∧ available_slots s' !! Z.to_nat i = Some x) as Hwords.
  { intros i Hi. destruct (words_lookup _ i (wf_freed_slots s Hwf) Hi) as (x & Hx & _).
    exists x. split; [done|]. specialize (Hat i Hi).
    pose proof (wf_freed_summary s Hwf i x Hi Hx) as Hsum.
    destruct (Z.testbit (freed_vecs s) i); destruct Hat as [H1 H2]; simpl; rewrite H1, H2; [done|].
    assert (x = 0) as -> by (apply dec_stable; intros Hx0; by apply Hsum in Hx0).
    destruct (words_lookup _ i (wf_available_slots s Hwf) Hi) as (y & Hy & _).
    rewrite Hy. by rewrite (exhausted_words s i y Hwf Hex Hi Hy). }
  assert (∀ q, position q → avail s' q = freed s q ∧ freed s' q = false) as Hbits.
  { intros q Hq. destruct (pos_split q Hq) as (i & j & -> & Hi & Hj).
    destruct (Hwords i Hi) as (x & Hx & Hf' & Ha'). unfold avail, freed.
    rewrite (bit_at_lookup _ _ _ _ Ha' Hj), (bit_at_lookup _ _ _ _ Hx Hj).
    rewrite (bit_at_lookup _ _ _ _ Hf' Hj). split; [done|apply Z.bits_0]. }
  assert (nblocks s' = nblocks s) as Hnb by (unfold nblocks; simpl; by rewrite Hb).
  split_and!; [apply Hbits|apply Hbits|done|done|done|].
  constructor; simpl; rewrite ?Hb, ?Hst, ?Hfv; try apply Hwf; try done.
  - intros i x Hi Hx Hx0. destruct (Hwords i Hi) as (y & Hy & _ & Ha'). simpl in Ha'.
    apply (wf_freed_summary s Hwf i y Hi Hy). congruence.
  - intros i x Hi Hx. destruct (Hwords i Hi) as (y & _ & Hf' & _). simpl in Hf'.
    rewrite Z.bits_0. split; [done|congruence].
  - intros p Hp. destruct (Hbits p Hp) as [-> _]. rewrite Hnb. by apply (wf_freed_range s Hwf).
  - intros p Hp. destruct (Hbits p Hp) as [_ ->]. done.
Qed.

(** On an exhausted slab [_try_release] gives up the ownership when nothing
    was freed, and otherwise makes everything freed available. *)
Lemma wp_try_release s :
  wf_slab s → (∀ q, position q → avail s q = false) → state s = OWNED →
  wp true _try_release
    (λ ret s',
      if freed_vecs s =? 0 then ret = 1 ∧ s' = set_state UNOWNED s
      else ret = 0 ∧ reclaimed s s') s.
Proof.
  intros Hwf Hex Hst. unfold _try_release. do 2 wp_step.
  destruct (Z.eqb_spec (freed_vecs s) 0) as [H0|H0].
  - do 2 wp_step. wp_step. wp_step; [by rewrite Hst|]. by do 3 wp_step.
  - do 2 wp_step. rewrite atomic_unset_self by apply Hwf. wp_step.
    eapply wp_mono; [apply wp_release_loop|].
    + apply Hwf.
    + apply Hwf.
    + apply Hwf.
    + done.
    + lia.
    + lia.
    + intros _ s1 [Hfr Hat]. do 3 wp_step. split; [done|]. by apply reclaim_wf.
Qed.

(** ** [_set_owned] *)

Lemma wp_set_owned s :
  wf_slab s →
  wp true _set_owned (λ ret s', ret = state s ∧ s' = set_state OWNED s) s.
Proof.
  intros Hwf. unfold _set_owned, atomic_bit_unset_ret. do 2 wp_step. wp_step.
  eapply wp_from_opt; [done|]. simpl. do 3 wp_step.
  destruct (wf_state s Hwf) as [-> | ->]; done.
Qed.

(** ** Claims *)

(** Construction: a new slab of any block size from a word to the payload
    is owned and on no list, and the blocks that fit in the payload are exactly
    the ones available. *)
Theorem slab_init_correct bs :
  8 ≤ bs ≤ payload_size →
  ∃ s, init_slab bs zero_slab = Some s ∧ wf_slab s ∧ block_size s = bs ∧
    state s = OWNED ∧ next s = 0 ∧
    ∀ p, position p →
      (avail s p = true ↔ p * bs + bs ≤ payload_size) ∧ freed s p = false.
Proof.
  intros Hbs. destruct (init_slab_spec bs Hbs) as (s & Hs & Hwf & Hb & Hst & Hn & Hf & Hav).
  exists s. split_and!; try done. intros p Hp. split.
  - rewrite Hav, Z.ltb_lt by done. unfold nblocks. rewrite Hb. unfold position in Hp.
    rewrite <-Z.le_succ_l, <-Z.add_1_r. split; intros H.
    + pose proof (Z.mul_div_le payload_size bs). nia.
    + apply Z.div_le_lower_bound; lia.
  - unfold freed. rewrite Hf. by apply bit_at_zeros.
Qed.

Lemma slab_init_correct_witness :
  ∃ s, init_slab 48 zero_slab = Some s ∧ wf_slab s ∧ block_size s = 48 ∧
    state s = OWNED ∧ next s = 0 ∧
    ∀ p, position p →
      (avail s p = true ↔ p * 48 + 48 ≤ payload_size) ∧ freed s p = false.
Proof. apply (slab_init_correct 48). slia. Defined.

(** C25: [obj_slab::_allocate] returns, on any well-formed slab: on the CPU the
    caller started on it takes the lowest available block, and reports [FULL]
    only when there is none; on any other CPU it reports [MIGRATED] and leaves
    the slab as it was. *)
Theorem slab_allocate_correct this start_cpu cur_cpu s :
  this mod sizeof_obj_slab = 0 → wf_slab s →
  ∃ ret s', _allocate this start_cpu cur_cpu s = Done (ret, s') ∧
    if cur_cpu =? start_cpu then took s ret s' ∨ exhausted s ret s'
    else ret = MIGRATED ∧ s' = s.
Proof.
  intros Hm Hwf. by apply wp_total_done, wp_slab_allocate.
Qed.

(** C26: [obj_slab::_free] of an address inside block [p] sets the freed bit of
    [p] and changes nothing else; it reports a slab to take over exactly when
    the slab is unowned and no other block of the word of [p] was freed. *)
Theorem slab_free_correct s p off :
  wf_slab s → 0 ≤ p < nblocks s → 0 ≤ off < block_size s →
  ∃ ret s', _free (payload_offset + p * block_size s + off) s = Done (ret, s') ∧
    gave_back s p s' ∧ ret = Z.b2z (word_clear s p && (state s =? UNOWNED)).
Proof.
  intros Hwf Hp Ho. by apply wp_total_done, wp_slab_free.
Qed.

(** [obj_slab::_try_release] of an exhausted slab the caller owns: when
    nothing was freed the slab is released; otherwise the blocks that were
    freed, and only these, become available again. *)
Theorem slab_release_correct s :
  wf_slab s → (∀ q, position q → avail s q = false) → state s = OWNED →
  ∃ ret s', _try_release s = Done (ret, s') ∧
    if freed_vecs s =? 0 then ret = 1 ∧ s' = set_state UNOWNED s
    else ret = 0 ∧ reclaimed s s'.
Proof.
  intros Hwf Hnone Hst. by apply wp_total_done, wp_try_release.
Qed.

(** A slab of two large blocks, with both of them taken and one freed. *)
Definition demo_slab_new : obj_slab := default zero_slab (init_slab 16384 zero_slab).

Definition slab_after {A} (o : outcome (A * obj_slab)) : obj_slab :=
  match o with Done (_, s) => s | _ => zero_slab end.

Definition demo_slab_taken : obj_slab :=
  slab_after (_allocate 0 3 3 (slab_after (_allocate 0 3 3 demo_slab_new))).
Definition demo_slab_freed : obj_slab :=
  slab_after (_free (payload_offset + 1 * 16384) demo_slab_taken).

Lemma demo_slab_new_wf : wf_slab demo_slab_new.
Proof.
  destruct (init_slab_spec 16384) as (s & Hs & Hwf & _); [slia|].
  unfold demo_slab_new. by rewrite Hs.
Qed.

Lemma slab_after_allocate_wf this c s :
  this mod sizeof_obj_slab = 0 → wf_slab s → wf_slab (slab_after (_allocate this c c s)).
Proof.
  intros Hm Hwf. destruct (wp_total_done _ _ _ (wp_slab_allocate this c c s Hm Hwf))
    as (ret & s' & -> & Hr). rewrite Z.eqb_refl in Hr. by destruct Hr as [Hr|Hr]; apply Hr.
Qed.

Lemma demo_slab_taken_wf : wf_slab demo_slab_taken.
Proof. by apply slab_after_allocate_wf, slab_after_allocate_wf, demo_slab_new_wf. Qed.

Lemma demo_slab_freed_wf : wf_slab demo_slab_freed.
Proof.
  destruct (wp_total_done _ _ _ (wp_slab_free demo_slab_taken 1 0 demo_slab_taken_wf
    ltac:(by vm_compute) ltac:(by vm_compute))) as (ret & s' & Hrun & (_ & _ & Hwf) & _).
  change (payload_offset + 1 * block_size demo_slab_taken + 0)
    with (payload_offset + 1 * 16384) in Hrun.
  unfold demo_slab_freed. by rewrite Hrun.
Qed.

Lemma demo_slab_freed_full q : position q → avail demo_slab_freed q = false.
Proof.
  intros Hq.
  assert (forallb (λ q, negb (avail demo_slab_freed q)) (seqZ 0 4096) = true) as Hall
    by (vm_compute; reflexivity).
  pose proof (range_forallb _ 0 4096 Hall q Hq) as H. revert H. cbv beta.
  generalize (avail demo_slab_freed q). by intros [].
Qed.

Lemma slab_allocate_correct_witness :
  ∃ ret s', _allocate 34048 3 3 demo_slab_new = Done (ret, s') ∧
    (took demo_slab_new ret s' ∨ exhausted demo_slab_new ret s').
Proof. apply (slab_allocate_correct 34048 3 3 demo_slab_new); [done|exact demo_slab_new_wf]. Defined.

Lemma slab_free_correct_witness :
  ∃ ret s', _free (payload_offset + 1 * block_size demo_slab_taken + 100) demo_slab_taken =
      Done (ret, s') ∧
    gave_back demo_slab_taken 1 s' ∧
    ret = Z.b2z (word_clear demo_slab_taken 1 && (state demo_slab_taken =? UNOWNED)).
Proof.
  apply (slab_free_correct demo_slab_taken 1 100); [exact demo_slab_taken_wf|by vm_compute..].
Defined.

Lemma slab_release_correct_witness :
  ∃ ret s', _try_release demo_slab_freed = Done (ret, s') ∧
    ret = 0 ∧ reclaimed demo_slab_freed s'.
Proof.
  apply (slab_release_correct demo_slab_freed).
  - exact demo_slab_freed_wf.
  - exact demo_slab_freed_full.
  - by vm_compute.
Defined.
