(* ===== verification/SlabManager.v ===== *)
(** * Slab managers, free caches and the slab supply
    ([allocator/slab_manager.h], [allocator/free_cache.h],
    [allocator/slab_allocation.h])

    The memory the allocator works on, the reads of the current CPU, and the
    operations of the components below [object_allocator]. *)

From S2P Require Import Prelude Bits ConstMath Machine SizeClasses Atomics ObjSlab.

(** ** Data *)

(** [free_cache]: the assembly accesses [current_idx] as a 64-bit word (the
    field and its padding). *)
Record free_cache := mk_fc { current_idx : Z; ptrs : list Z }.

Record slab_manager := mk_sm {
  available_slabs_head : Z;
  available_slabs_tail : Z;
  fc : free_cache
}.

Definition ANY : Z := 1.

(** Memory as the operations see it: the managers indexed by size class and
    CPU, the next unused slab ([shared_memory_slab_allocator::current_slab]),
    the slabs by address.  [clock] counts the reads of the CPU number. *)
Record sys := mk_sys {
  clock : nat;
  slab_managers : gmap (Z * Z) slab_manager;
  current_slab : Z;
  slabs : gmap Z obj_slab
}.

Definition set_managers (ms : gmap (Z * Z) slab_manager) (s : sys) : sys :=
  mk_sys (clock s) ms (current_slab s) (slabs s).
Definition set_slabs (sl : gmap Z obj_slab) (s : sys) : sys :=
  mk_sys (clock s) (slab_managers s) (current_slab s) sl.
Definition set_current_slab (a : Z) (s : sys) : sys :=
  mk_sys (clock s) (slab_managers s) a (slabs s).
Definition tick (s : sys) : sys :=
  mk_sys (S (clock s)) (slab_managers s) (current_slab s) (slabs s).

Definition set_head (a : Z) (sm : slab_manager) : slab_manager :=
  mk_sm a (available_slabs_tail sm) (fc sm).
Definition set_tail (a : Z) (sm : slab_manager) : slab_manager :=
  mk_sm (available_slabs_head sm) a (fc sm).
Definition set_fc (f : free_cache) (sm : slab_manager) : slab_manager :=
  mk_sm (available_slabs_head sm) (available_slabs_tail sm) f.

(** ** Memory accesses *)

(** [m->slab_managers[size_idx] + cpu]; outside of the array is undefined. *)
Definition get_manager (size_idx cpu : Z) : ST sys slab_manager :=
  s ← gets id; from_opt (slab_managers s !! (size_idx, cpu)).
Definition put_manager (size_idx cpu : Z) (sm : slab_manager) : ST sys unit :=
  modify (λ s, set_managers (<[(size_idx, cpu) := sm]> (slab_managers s)) s).

(** A slab operation on the slab at [a]; there must be one. *)
Definition run_slab {A} (a : Z) (op : ST obj_slab A) : ST sys A := λ s,
  match slabs s !! a with
  | None => Fault
  | Some sl =>
      match op sl with
      | Done (r, sl') => Done (r, set_slabs (<[a := sl']> (slabs s)) s)
      | Fault => Fault
      | OutOfFuel => OutOfFuel
      | Crashed => Crashed
      end
  end.

Section Cpu.
(** The CPU the thread is on at each read: where the scheduler put it. *)
Context (cpu : nat → Z).

Definition read_cpu : ST sys Z := λ s, Done (cpu (clock s), tick s).

(** ** [slab_manager::_cas_set_next_available_slab]

    [this] is the manager of class [size_idx] and CPU [start_cpu]. *)
Definition _cas_set_next_available_slab (size_idx start_cpu expected_slab : Z) : ST sys Z :=
  c ← read_cpu;
  if negb (c =? start_cpu) then mret ANY
  else
    sm ← get_manager size_idx start_cpu;
    let temp_ptr := available_slabs_head sm in
    if negb (temp_ptr =? expected_slab) then mret ANY
    else
      temp_ptr ← run_slab temp_ptr (gets next);
      put_manager size_idx start_cpu (set_head temp_ptr sm);;
      mret 0.
End Cpu.

(** ** [shared_memory_slab_allocator] *)

Definition out_of_memory (end_ : Z) : ST sys bool := gets (λ s, end_ <=? current_slab s).

(** [_new]: [__atomic_fetch_add]. *)
Definition _new : ST sys Z :=
  a ← gets current_slab;
  modify (set_current_slab (u64 (a + sizeof_obj_slab)));;
  mret a.

(** ** Slab lists

    The slabs reachable from [h] through [next], up to [NULL]. *)
Fixpoint chain (sl : gmap Z obj_slab) (h : Z) (l : list Z) : Prop :=
  match l with
  | [] => h = 0
  | a :: l => h = a ∧ ∃ s, sl !! a = Some s ∧ chain sl (next s) l
  end.

Lemma chain_nonempty sl h a l : chain sl h (a :: l) → h = a.
Proof. by intros [? _]. Qed.

(** A chain only depends on the [next] fields of its slabs. *)
Lemma chain_ext sl sl' h l :
  chain sl h l →
  (∀ a s, a ∈ l → sl !! a = Some s → ∃ s', sl' !! a = Some s' ∧ next s' = next s) →
  chain sl' h l.
Proof.
  revert h. induction l as [|a l IH]; intros h Hc Hext; [done|].
  destruct Hc as (-> & s & Hs & Hc). split; [done|].
  destruct (Hext a s) as (s' & Hs' & Hn); [set_solver|done|].
  exists s'. split; [done|]. rewrite Hn. apply IH; [done|]. set_solver.
Qed.

(** Appending a slab behind the last one. *)
Lemma chain_append sl h l t st a s :
  chain sl h l → NoDup l → last l = Some t → sl !! t = Some st → a ∉ l →
  sl !! a = Some s → next s = 0 →
  chain (<[t := set_next a st]> sl) h (l ++ [a]).
Proof.
  revert h. induction l as [|b l IH]; intros h Hc Hnd Hlast Ht Ha Hs Hn; [done|].
  destruct Hc as (-> & sb & Hb & Hc). split; [done|].
  apply NoDup_cons in Hnd as [Hbl Hnd].
  destruct l as [|b' l'].
  - injection Hlast as ->. exists (set_next a sb). simplify_eq.
    split; [by rewrite lookup_insert_eq|]. split; [done|].
    exists s. rewrite lookup_insert_ne by set_solver. done.
  - assert (b ≠ t).
    { intros ->. apply Hbl. rewrite last_cons_cons in Hlast. by apply last_Some_elem_of. }
    exists sb. rewrite lookup_insert_ne by done. split; [done|].
    apply IH; try done. set_solver.
Qed.

Lemma chain_elem sl h l a : chain sl h l → a ∈ l → ∃ s, sl !! a = Some s.
Proof.
  revert h. induction l as [|b l IH]; intros h Hc Ha; [set_solver|].
  destruct Hc as (-> & s & Hs & Hc). apply elem_of_cons in Ha as [->|Ha]; [eauto|].
  by apply (IH (next s)).
Qed.
