(* ===== verification/ObjectAllocator.v ===== *)
(** * The allocator ([allocator/object_allocator.h])

    Layout of the region, the constructor, the four restartable sequences
    ([_send_slab], [try_pop], [try_push] and, through the slab and the
    manager, [_allocate] and [_cas_set_next_available_slab]) and the calls
    composed of them.  A restartable sequence is one step here: it reads the
    CPU number once and runs on that CPU to its end. *)

From S2P Require Import Prelude Bits ConstMath Machine SizeClasses Atomics ObjSlab SlabManager.

(** ** Sizes *)

(** [object_allocator::cache_size], from the template parameter. *)
Definition cache_size_for (cache_size_lower_bound : Z) : Z :=
  u32 (next_p2 32 (u32 (24 + 8 * cache_size_lower_bound)) - 24) / 8.

Definition cache_size : Z := Eval vm_compute in cache_size_for 13.

(** [sizeof(slab_manager<slab_t, cache_size>)]: two pointers, the cache with
    its index padded to a word, aligned to [L2_LOAD_ALIGN]. *)
Definition sizeof_slab_manager (cache_size : Z) : Z :=
  align_up (16 + 8 + 8 * cache_size) L2_CACHE_LOAD_SIZE.

Definition _log_sizeof_slab_manager : Z := ulog2 64 (sizeof_slab_manager cache_size).

(** [sizeof(memory_layout_t)]: the managers, [current_slab] and [raw_region_size]. *)
Definition sizeof_memory_layout : Z :=
  align_up (num_size_classes * NPROCS * sizeof_slab_manager cache_size + 8 + 8)
    L2_CACHE_LOAD_SIZE.

Definition default_region_size : Z := 1 ≪ 31.

(** ** Construction *)

Definition assert_opt (b : bool) : option unit := if b then Some tt else None.

Definition calculate_start (mem_region : Z) : option Z := roundup 64 mem_region sizeof_obj_slab.

Definition calculate_end (mem_region region_size : Z) : option Z :=
  start ← calculate_start mem_region;
  let meta_data_offset := u64 (start - mem_region) in
  assert_opt (mem_region <=? start);;
  assert_opt (start mod sizeof_obj_slab =? 0);;
  down ← rounddown 64 (u64 (region_size - meta_data_offset)) sizeof_obj_slab;
  assert_opt (down mod sizeof_obj_slab =? 0);;
  Some (u64 (start + down)).

(** The [const] members; [raw_region_size] is the one of the layout. *)
Record object_allocator := mk_allocator { m : Z; end_ : Z; raw_region_size : Z }.

Definition zero_manager : slab_manager := mk_sm 0 0 (mk_fc 0 (replicate (Z.to_nat cache_size) 0)).

(** [slab_managers[num_size_classes][NPROCS]] on zeroed memory. *)
Definition zero_managers : gmap (Z * Z) slab_manager :=
  list_to_map ((λ ic, (ic, zero_manager)) <$>
    (i ← seqZ 0 num_size_classes; (λ c, (i, c)) <$> seqZ 0 NPROCS)).

(** [memory_layout::memory_layout], on zeroed memory. *)
Definition new_layout (t : nat) (m : Z) : option sys :=
  start ← calculate_start (u64 (m + sizeof_memory_layout));
  assert_opt (start mod sizeof_obj_slab =? 0);;
  Some (mk_sys t zero_managers start ∅).

(** [object_allocator(mem, region_size)] on the region [mmap] returned. *)
Definition new_allocator (mem region_size : Z) : option (object_allocator * sys) :=
  e ← calculate_end (u64 (mem + sizeof_memory_layout)) (u64 (region_size - sizeof_memory_layout));
  s ← new_layout 0 mem;
  assert_opt (e mod sizeof_obj_slab =? 0);;
  Some (mk_allocator mem e region_size, s).

(** ** Queries *)

Definition get_slab_region_size (al : object_allocator) : option Z :=
  start ← calculate_start (u64 (m al + sizeof_memory_layout)); Some (u64 (end_ al - start)).

Definition max_objects (al : object_allocator) : Z :=
  let slabs_start := u64 (m al + sizeof_memory_layout) in
  let nslabs := slabs_start / sizeof_obj_slab in
  u64 (nslabs * capacity).

Definition in_range (al : object_allocator) (p : Z) : bool := (m al <? p) && (p <? end_ al).

Definition addr_to_slab (addr : Z) : Z := u64 (sizeof_obj_slab * (addr / sizeof_obj_slab)).

(** The assertions of [_valid_addr]. *)
Definition _valid_addr (al : object_allocator) (addr : Z) : option unit :=
  if addr =? 0 then Some tt
  else
    let addr_minus_start := addr mod sizeof_obj_slab in
    assert_opt (payload_offset <=? addr_minus_start);;
    start ← calculate_start (u64 (m al + sizeof_memory_layout));
    assert_opt (start <? addr);;
    assert_opt (addr <? end_ al).

(** [reset]: the region is cleared and the layout constructed again. *)
Definition reset (al : object_allocator) : ST sys unit := λ s,
  match new_layout (clock s) (m al) with
  | Some s' => Done (tt, s')
  | None => Fault
  end.

(** ** Restartable sequences *)

Section Allocator.
Context (cpu : nat → Z) (al : object_allocator).

(** [_send_slab]: append a slab to the list of the current CPU. *)
Definition _send_slab (slab size_idx : Z) : ST sys unit :=
  nxt ← run_slab slab (gets next);
  require (nxt =? 0);;
  c ← read_cpu cpu;
  sm ← get_manager size_idx c;
  if available_slabs_head sm =? 0 then
    put_manager size_idx c (set_head slab (set_tail slab sm))
  else
    run_slab (available_slabs_tail sm) (modify (set_next slab));;
    put_manager size_idx c (set_tail slab sm).

Definition try_pop (size_idx : Z) : ST sys Z :=
  c ← read_cpu cpu;
  sm ← get_manager size_idx c;
  let ret := current_idx (fc sm) in
  if ret =? 0 then mret 0
  else
    ret ← from_opt (ptrs (fc sm) !! Z.to_nat (ret - 1));
    put_manager size_idx c
      (set_fc (mk_fc (u64 (current_idx (fc sm) - 1)) (ptrs (fc sm))) sm);;
    mret ret.

Definition try_push (ptr size_idx : Z) : ST sys Z :=
  c ← read_cpu cpu;
  sm ← get_manager size_idx c;
  let idx := current_idx (fc sm) in
  if idx =? cache_size then mret 1
  else
    require (idx <? cache_size);;
    put_manager size_idx c
      (set_fc (mk_fc (u64 (idx + 1)) (<[Z.to_nat idx := ptr]> (ptrs (fc sm)))) sm);;
    mret 0.

(** ** Allocation *)

(** The branch of [_allocate_inner] for an empty list: [false] when the code
    returns [NULL], [true] when the loop goes on. *)
Definition new_slab_branch (size_idx : Z) : ST sys bool :=
  oom ← out_of_memory (end_ al);
  if (oom : bool) then mret false
  else
    new_slab ← _new;
    require (new_slab mod sizeof_obj_slab =? 0);;
    if end_ al <=? new_slab then mret false
    else
      size ← from_opt (idx_to_size size_idx);
      raw ← gets (λ s, default zero_slab (slabs s !! new_slab));
      sl ← from_opt (init_slab size raw);
      modify (λ s, set_slabs (<[new_slab := sl]> (slabs s)) s);;
      require (negb (new_slab =? 0));;
      require (next sl =? 0);;
      _send_slab new_slab size_idx;;
      mret true.

(** What happens to a full slab: it leaves the list of [start_cpu], and is
    then released, or sent on with what was freed of it. *)
Definition full_branch (size_idx start_cpu head : Z) : ST sys unit :=
  r ← _cas_set_next_available_slab cpu size_idx start_cpu head;
  if r =? 0 then
    sm ← get_manager size_idx start_cpu;
    require (negb (available_slabs_head sm =? head));;
    st ← run_slab head (gets state);
    require (st =? OWNED);;
    released ← run_slab head _try_release;
    if released =? 0 then
      run_slab head (modify (set_next 0));;
      _send_slab head size_idx;;
      st ← run_slab head (gets state);
      require (st =? OWNED)
    else mret tt
  else mret tt.

(** One round of the [while (1)] of [_allocate_inner]: [Some] of the value
    the function returns, [None] when the loop goes on. *)
Definition _allocate_round (size_idx : Z) : ST sys (option Z) :=
  start_cpu ← read_cpu cpu;
  require (negb (NPROCS <=? start_cpu));;
  sm ← get_manager size_idx start_cpu;
  let head := available_slabs_head sm in
  require (head mod sizeof_obj_slab =? 0);;
  require (available_slabs_tail sm mod sizeof_obj_slab =? 0);;
  if head =? 0 then
    again ← new_slab_branch size_idx;
    mret (if (again : bool) then None else Some 0)
  else
    c ← read_cpu cpu;
    ret ← run_slab head (ObjSlab._allocate head start_cpu c);
    if ret <? SUCCESS_BOUND then
      size ← from_opt (idx_to_size size_idx);
      mret (Some (u64 (head + payload_offset + u64 (size * ret))))
    else if negb (ret =? MIGRATED) then
      full_branch size_idx start_cpu head;;
      mret None
    else mret None.

(** [_allocate_inner]; each round of the loop takes a unit of fuel. *)
Fixpoint _allocate_inner (fuel : nat) (size_idx : Z) : ST sys Z :=
  match fuel with
  | O => out_of_fuel
  | S fuel =>
      r ← _allocate_round size_idx;
      match r with
      | Some ptr => mret ptr
      | None => _allocate_inner fuel size_idx
      end
  end.

Definition _allocate (fuel : nat) (size : Z) : ST sys Z :=
  let size_idx := size_to_idx size in
  ptr ← try_pop size_idx;
  if (1 ≪ _log_sizeof_slab_manager) <? ptr then mret ptr
  else _allocate_inner fuel size_idx.

(** ** Deallocation *)

Definition _free (addr : Z) : ST sys unit :=
  let slab := addr_to_slab addr in
  size ← run_slab slab (gets block_size);
  let size_idx := size_to_idx size in
  full ← try_push addr size_idx;
  if full =? 0 then mret tt
  else
    require (slab mod sizeof_obj_slab =? 0);;
    unowned ← run_slab slab (ObjSlab._free (u64 (addr - slab)));
    if negb (unowned =? 0) then
      won ← run_slab slab _set_owned;
      if negb (won =? 0) then
        st ← run_slab slab (gets state);
        require (st =? OWNED);;
        run_slab slab (modify (set_next 0));;
        _send_slab slab size_idx
      else mret tt
    else mret tt.
End Allocator.

(** The sizes of the default instantiation. *)
Lemma default_sizes :
  cache_size_for 13 = 13 ∧ sizeof_slab_manager cache_size = 128 ∧
  _log_sizeof_slab_manager = 7 ∧ sizeof_memory_layout = 11392.
Proof. by vm_compute. Qed.

(** The size of a manager whose cache and list pointers take [2 ^ k] bytes. *)
Lemma align_up_pow2 k : 5 ≤ k → align_up (2 ^ k) L2_CACHE_LOAD_SIZE = 2 ^ (Z.max 7 k).
Proof.
  intros Hk. unfold align_up, L2_CACHE_LOAD_SIZE.
  destruct (Z.le_gt_cases k 7).
  - rewrite Z.max_l by lia. assert (k = 5 ∨ k = 6 ∨ k = 7) as [->|[->| ->]] by lia; done.
  - rewrite Z.max_r by lia. replace k with (7 + (k - 7)) by lia. rewrite Z.pow_add_r by lia.
    change (2 ^ 7) with 128. set (q := 2 ^ (k - 7)).
    replace ((128 * q + (128 - 1)) / 128) with q; [done|].
    apply Z.div_unique with 127; lia.
Qed.

Lemma cache_size_for_eq n :
  1 ≤ n ≤ 2 ^ 20 →
  let k := Z.log2_up (24 + 8 * n) in
  5 ≤ k ≤ 24 ∧ n ≤ cache_size_for n ∧ 24 + 8 * cache_size_for n = 2 ^ k.
Proof.
  intros Hn k. set (v := 24 + 8 * n) in *.
  assert (v ≤ 2 ^ k) as Hlo by (apply Z.log2_up_spec; lia).
  assert (4 < k) as Hk by (apply Z.log2_up_lt_pow2; lia).
  assert (k ≤ 24) by (apply Z.log2_up_le_pow2; lia).
  assert (2 ^ k ≤ 2 ^ 24) by (apply Z.pow_le_mono_r; lia).
  assert (2 ^ k = 8 * 2 ^ (k - 3)) as H8.
  { replace k with (3 + (k - 3)) at 1 by lia. by rewrite Z.pow_add_r by lia. }
  assert (cache_size_for n = 2 ^ (k - 3) - 3) as ->; [|lia].
  unfold cache_size_for. fold v. rewrite (wrap_small 32 v) by (unfold is_word; lia).
  rewrite next_p2_spec by (auto; unfold is_word; lia).
  rewrite (proj2 (Z.eqb_neq v 0)), (proj2 (Z.ltb_ge (2 ^ (32 - 1)) v)) by lia. simpl orb.
  cbv iota. fold k. rewrite (wrap_small 32) by (unfold is_word; lia).
  symmetry. apply Z.div_unique_exact; lia.
Qed.

(** ** Claims *)

(** The managers can be indexed by a shift: for every template argument
    the cache has at least the requested entries and fits in a manager, the
    size of a manager is a power of two, and shifting the CPU number left by
    its logarithm multiplies by it. *)
Theorem manager_indexing n c :
  1 ≤ n ≤ 2 ^ 20 → 0 ≤ c < NPROCS →
  let sizeof := sizeof_slab_manager (cache_size_for n) in
  n ≤ cache_size_for n ∧ 24 + 8 * cache_size_for n ≤ sizeof ∧
  is_pow2 64 sizeof = 1 ∧ c ≪ ulog2 64 sizeof = c * sizeof.
Proof.
  intros Hn Hc sizeof. destruct (cache_size_for_eq n Hn) as (Hk & Hle & Heq).
  set (k := Z.log2_up (24 + 8 * n)) in *.
  assert (sizeof = 2 ^ Z.max 7 k) as ->.
  { unfold sizeof, sizeof_slab_manager. replace (16 + 8 + 8 * cache_size_for n) with (2 ^ k) by lia.
    apply align_up_pow2. lia. }
  assert (0 < 2 ^ Z.max 7 k < 2 ^ 64) as Hr.
  { split; [lia|]. apply Z.pow_lt_mono_r; lia. }
  split_and!; [done| | |].
  - rewrite Heq. apply Z.pow_le_mono_r; lia.
  - apply is_pow2_spec; [lia|unfold is_word; lia|]. right. exists (Z.max 7 k). lia.
  - rewrite ulog2_spec, Z.log2_pow2, Z.shiftl_mul_pow2 by (auto; unfold is_word; lia). done.
Qed.

Lemma manager_indexing_witness :
  let sizeof := sizeof_slab_manager (cache_size_for 20) in
  20 ≤ cache_size_for 20 ∧ 24 + 8 * cache_size_for 20 ≤ sizeof ∧
  is_pow2 64 sizeof = 1 ∧ 3 ≪ ulog2 64 sizeof = 3 * sizeof.
Proof. apply (manager_indexing 20 3); [lia|done]. Defined.
