(* ===== verification/AllocatorInv.v ===== *)
(** * Invariant of the allocator

    What holds of the memory of an [object_allocator] between two steps, with
    the ghost state that says where every slab and every block is, and the
    effect of each operation of [ObjectAllocator] on it. *)

From S2P Require Import Prelude Bits ConstMath Machine SizeClasses Atomics ObjSlab SlabManager.
From S2P Require Import ObjectAllocator.

(** ** Ghost state *)

(** Where a block is: available to the owner of its slab, freed in its slab,
    in entry [k] of the free cache of class [i] and CPU [c], or with a client. *)
Inductive tag := Avail | Freed | Cached (i c k : Z) | Live.

#[export] Instance tag_eq_dec : EqDecision tag.
Proof. solve_decision. Defined.

(** The slabs of each manager's list, in order, and the place of each block
    (slab address and position). *)
Record ghost := mk_ghost { lists : Z * Z → list Z; tags : Z → Z → tag }.

Definition set_tag (a p : Z) (t : tag) (g : ghost) : ghost :=
  mk_ghost (lists g) (λ b q, if (b =? a) && (q =? p) then t else tags g b q).
Definition set_list (ic : Z * Z) (l : list Z) (g : ghost) : ghost :=
  mk_ghost (λ jd, if decide (jd = ic) then l else lists g jd) (tags g).

Definition unlisted (g : ghost) (a : Z) : Prop := ∀ ic, a ∉ lists g ic.

(** Address of block [p] of the slab at [a] with blocks of size [bs]. *)
Definition block_addr (a bs p : Z) : Z := a + payload_offset + p * bs.

(** [x] is the address of block [p] of slab [a]. *)
Definition block_at (sl : gmap Z obj_slab) (x a p : Z) : Prop :=
  ∃ s, sl !! a = Some s ∧ 0 ≤ p < nblocks s ∧ x = block_addr a (block_size s) p.

(** ** The region *)

Record wf_region (al : object_allocator) (st : Z) : Prop := {
  region_start : calculate_start (u64 (m al + sizeof_memory_layout)) = Some st;
  region_start_mod : st mod sizeof_obj_slab = 0;
  region_m : 0 ≤ m al < st;
  region_low : 128 < st;
  region_le : st ≤ end_ al;
  region_end_mod : end_ al mod sizeof_obj_slab = 0;
  region_end : end_ al < 2 ^ 64
}.

(** ** The invariant

    [fl] is the slab a thread has taken off its list and not yet put on
    another one or released. *)

Definition cache_ok (g : ghost) (sl : gmap Z obj_slab) (i c : Z) (f : free_cache) : Prop :=
  Z.of_nat (length (ptrs f)) = cache_size ∧ 0 ≤ current_idx f ≤ cache_size ∧
  ∀ k, 0 ≤ k < current_idx f →
    ∃ x a p s, ptrs f !! Z.to_nat k = Some x ∧ block_at sl x a p ∧ sl !! a = Some s ∧
      idx_to_size i = Some (block_size s) ∧ tags g a p = Cached i c k.

Record wf (al : object_allocator) (st : Z) (fl : option Z) (g : ghost)
    (ms : gmap (Z * Z) slab_manager) (cur : Z) (sl : gmap Z obj_slab) : Prop := {
  wf_current : st ≤ cur ≤ end_ al ∧ cur mod sizeof_obj_slab = 0;
  wf_dom a : is_Some (sl !! a) ↔ st ≤ a < cur ∧ a mod sizeof_obj_slab = 0;
  wf_slabs a s : sl !! a = Some s → wf_slab s ∧ ∃ i, idx_to_size i = Some (block_size s);
  wf_managers i c : is_Some (ms !! (i, c)) ↔ 0 ≤ i < num_size_classes ∧ 0 ≤ c < NPROCS;
  wf_lists ic sm : ms !! ic = Some sm →
    chain sl (available_slabs_head sm) (lists g ic) ∧ NoDup (lists g ic) ∧
    (lists g ic ≠ [] → last (lists g ic) = Some (available_slabs_tail sm)) ∧
    available_slabs_tail sm mod sizeof_obj_slab = 0;
  wf_listed i c a : a ∈ lists g (i, c) →
    is_Some (ms !! (i, c)) ∧
    ∃ s, sl !! a = Some s ∧ idx_to_size i = Some (block_size s) ∧ state s = OWNED;
  wf_disjoint ic jd a : a ∈ lists g ic → a ∈ lists g jd → ic = jd;
  wf_flight a : fl = Some a → unlisted g a ∧ is_Some (sl !! a);
  wf_unlisted a s : sl !! a = Some s → fl ≠ Some a → unlisted g a →
    state s = UNOWNED ∧ (∀ p, position p → avail s p = false) ∧ freed_vecs s = 0;
  wf_tags a s p : sl !! a = Some s → 0 ≤ p < nblocks s →
    (avail s p = true ↔ tags g a p = Avail) ∧ (freed s p = true ↔ tags g a p = Freed);
  wf_caches i c sm : ms !! (i, c) = Some sm → cache_ok g sl i c (fc sm);
  wf_cached a s p i c k : sl !! a = Some s → 0 ≤ p < nblocks s → tags g a p = Cached i c k →
    ∃ sm, ms !! (i, c) = Some sm ∧ 0 ≤ k < current_idx (fc sm) ∧
      ptrs (fc sm) !! Z.to_nat k = Some (block_addr a (block_size s) p)
}.

Arguments wf_current {al st fl g ms cur sl}.
Arguments wf_dom {al st fl g ms cur sl}.
Arguments wf_slabs {al st fl g ms cur sl}.
Arguments wf_managers {al st fl g ms cur sl}.
Arguments wf_lists {al st fl g ms cur sl}.
Arguments wf_listed {al st fl g ms cur sl}.
Arguments wf_disjoint {al st fl g ms cur sl}.
Arguments wf_flight {al st fl g ms cur sl}.
Arguments wf_unlisted {al st fl g ms cur sl}.
Arguments wf_tags {al st fl g ms cur sl}.
Arguments wf_caches {al st fl g ms cur sl}.
Arguments wf_cached {al st fl g ms cur sl}.

Abbreviation WF al st fl g s := (wf al st fl g (slab_managers s) (current_slab s) (slabs s)).

(** The blocks clients hold: the address and the size. *)
Definition live (g : ghost) (sl : gmap Z obj_slab) (x b : Z) : Prop :=
  ∃ a p, block_at sl x a p ∧ block_size <$> sl !! a = Some b ∧ tags g a p = Live.

(** ** Addresses *)

Lemma block_offset_bounds s p :
  wf_slab s → 0 ≤ p < nblocks s →
  payload_offset ≤ payload_offset + p * block_size s < sizeof_obj_slab.
Proof.
  intros Hs Hp. pose proof (wf_block_size s Hs). destruct (block_in_payload s p); [done..|].
  slia.
Qed.

Lemma addr_to_slab_block a s p off :
  a mod sizeof_obj_slab = 0 → 0 ≤ a < 2 ^ 64 → wf_slab s → 0 ≤ p < nblocks s →
  0 ≤ off < block_size s →
  addr_to_slab (block_addr a (block_size s) p + off) = a.
Proof.
  intros Ha Hr Hs Hp Hoff. unfold addr_to_slab, block_addr.
  pose proof (wf_block_size s Hs). destruct (block_in_payload s p) as [Hlo Hhi]; [done..|].
  apply Z_div_exact_full_2 in Ha; [|done].
  assert ((a + payload_offset + p * block_size s + off) / sizeof_obj_slab = a / sizeof_obj_slab)
    as ->.
  { symmetry. apply Z.div_unique with (payload_offset + p * block_size s + off); [slia|lia]. }
  rewrite <-Ha. by apply wrap_small.
Qed.

Section Invariant.
Context (al : object_allocator) (st : Z) (Hal : wf_region al st).

Section Facts.
Context (fl : option Z) (g : ghost) (ms : gmap (Z * Z) slab_manager) (cur : Z).
Context (sl : gmap Z obj_slab) (Hwf : wf al st fl g ms cur sl).

Lemma slab_addr a s :
  sl !! a = Some s → a mod sizeof_obj_slab = 0 ∧ st ≤ a ∧ a + sizeof_obj_slab ≤ end_ al.
Proof.
  intros Hs. destruct (proj1 (wf_dom Hwf a)) as [[Hlo Hhi] Hm]; [by eexists|].
  split; [done|]. split; [done|].
  destruct (wf_current Hwf) as [[_ Hc] _].
  pose proof (region_end_mod al st Hal).
  apply Z_div_exact_full_2 in Hm; [|done].
  pose proof (Z_div_exact_full_2 (end_ al) sizeof_obj_slab) as He. slab_consts.
  specialize (He ltac:(lia) ltac:(done)). nia.
Qed.

Lemma slab_addr_nonzero a s : sl !! a = Some s → 128 < a < 2 ^ 64.
Proof.
  intros Hs. destruct (slab_addr a s Hs) as (_ & Hlo & Hhi).
  pose proof (region_low al st Hal). pose proof (region_end al st Hal). slia.
Qed.

(** The slab and the position of a block are determined by its address. *)
Lemma block_at_inj x a p b q :
  block_at sl x a p → block_at sl x b q → a = b ∧ p = q.
Proof.
  intros (s & Hs & Hp & Hx) (t & Ht & Hq & Hx').
  destruct (wf_slabs Hwf a s Hs) as [Hws _].
  destruct (wf_slabs Hwf b t Ht) as [Hwt _].
  pose proof (wf_block_size s Hws). pose proof (wf_block_size t Hwt).
  assert (a = b) as ->.
  { rewrite <-(addr_to_slab_block a s p 0); [|apply (slab_addr a s Hs)| |done|done|lia].
    - rewrite <-(addr_to_slab_block b t q 0); [|apply (slab_addr b t Ht)| |done|done|lia].
      + by rewrite <-Hx, <-Hx'.
      + pose proof (slab_addr_nonzero b t Ht). lia.
    - pose proof (slab_addr_nonzero a s Hs). lia. }
  simplify_eq. split; [done|]. unfold block_addr in Hx'. nia.
Qed.

Lemma block_at_range x a p : block_at sl x a p → st < x < end_ al ∧ payload_offset ≤ x mod sizeof_obj_slab.
Proof.
  intros (s & Hs & Hp & ->). destruct (slab_addr a s Hs) as (Hm & Hlo & Hhi).
  destruct (wf_slabs Hwf a s Hs) as [Hws _].
  pose proof (block_offset_bounds s p Hws Hp) as Hb. unfold block_addr.
  split; [slia|].
  rewrite <-Z.add_assoc, Z.add_mod, Hm, Z.add_0_l, Z.mod_mod, Z.mod_small by slia. lia.
Qed.

Lemma head_nonzero ic sm a l :
  ms !! ic = Some sm → lists g ic = a :: l → available_slabs_head sm = a ∧ a ≠ 0.
Proof.
  intros Hsm Hl. destruct (wf_lists Hwf ic sm Hsm) as (Hc & _).
  rewrite Hl in Hc. destruct Hc as (-> & s & Hs & _). split; [done|].
  pose proof (slab_addr_nonzero a s Hs). lia.
Qed.

Lemma head_zero ic sm :
  ms !! ic = Some sm → available_slabs_head sm = 0 → lists g ic = [].
Proof.
  intros Hsm H0. destruct (lists g ic) as [|a l] eqn:E; [done|].
  destruct (head_nonzero ic sm a l Hsm E). congruence.
Qed.
End Facts.

(** ** Changing one slab *)

(** The new content [s'] of slab [a]: same size, same link (unless the slab
    is on no list), and ownership and bits as [g'] says. *)
Record slab_change (g : ghost) (a : Z) (s s' : obj_slab) (fl : option Z) (τ : Z → Z → tag)
    : Prop := {
  sc_wf : wf_slab s';
  sc_size : block_size s' = block_size s;
  sc_next : next s' = next s ∨ unlisted g a;
  sc_owned ic : a ∈ lists g ic → state s' = OWNED;
  sc_released : fl ≠ Some a → unlisted g a →
    state s' = UNOWNED ∧ (∀ p, position p → avail s' p = false) ∧ freed_vecs s' = 0;
  sc_flight : fl = Some a → unlisted g a;
  sc_other b q : b ≠ a → τ b q = tags g b q;
  sc_tags p : 0 ≤ p < nblocks s →
    (avail s' p = true ↔ τ a p = Avail) ∧ (freed s' p = true ↔ τ a p = Freed);
  sc_cached p i c k : 0 ≤ p < nblocks s → τ a p = Cached i c k ↔ tags g a p = Cached i c k
}.

Arguments sc_wf {g a s s' fl τ}.
Arguments sc_size {g a s s' fl τ}.
Arguments sc_next {g a s s' fl τ}.
Arguments sc_owned {g a s s' fl τ}.
Arguments sc_released {g a s s' fl τ}.
Arguments sc_flight {g a s s' fl τ}.
Arguments sc_other {g a s s' fl τ}.
Arguments sc_tags {g a s s' fl τ}.
Arguments sc_cached {g a s s' fl τ}.

Lemma block_at_update sl a s s' x b q :
  sl !! a = Some s → block_size s' = block_size s →
  block_at (<[a := s']> sl) x b q ↔ block_at sl x b q.
Proof.
  intros Hs Hb. unfold block_at, nblocks. destruct (decide (b = a)) as [->|Hne].
  - rewrite lookup_insert_eq. split.
    + intros (t & [= <-] & Hq & Hx). exists s. rewrite <-Hb. done.
    + intros (t & Ht & Hq & Hx). simplify_eq. exists s'. rewrite Hb. done.
  - by rewrite lookup_insert_ne.
Qed.

Lemma wf_update_slab fl fl' g τ ms cur sl a s s' :
  wf al st fl g ms cur sl → sl !! a = Some s →
  slab_change g a s s' fl' τ → (∀ b, b ≠ a → fl' = Some b ↔ fl = Some b) →
  wf al st fl' (mk_ghost (lists g) τ) ms cur (<[a := s']> sl).
Proof.
  intros Hwf Hs Hc Hfl. pose proof (sc_size Hc) as Hb.
  assert (nblocks s' = nblocks s) as Hnb by (unfold nblocks; by rewrite Hb).
  constructor; simpl.
  - apply Hwf.
  - intros b. rewrite lookup_insert_is_Some', (wf_dom Hwf b). split; [|by right].
    intros [<-|H]; [|done]. apply (wf_dom Hwf a). by eexists.
  - intros b t [[<- <-]|[Hne Ht]]%lookup_insert_Some; [|by apply (wf_slabs Hwf b t)].
    split; [apply Hc|]. rewrite Hb. apply (wf_slabs Hwf a s Hs).
  - apply Hwf.
  - intros ic sm Hsm. destruct (wf_lists Hwf ic sm Hsm) as (Hch & Hrest).
    split; [|done]. apply chain_ext with sl; [done|]. intros b t Hbl Ht.
    destruct (decide (b = a)) as [->|]; [|exists t; by rewrite lookup_insert_ne].
    simplify_eq. exists s'. rewrite lookup_insert_eq. split; [done|].
    destruct (sc_next Hc) as [|Hun]; [done|]. by destruct (Hun ic).
  - intros i c b Hbl. destruct (wf_listed Hwf i c b Hbl) as (Hsm & t & Ht & Hi & Ho).
    split; [done|]. destruct (decide (b = a)) as [->|]; [|exists t; by rewrite lookup_insert_ne].
    simplify_eq. exists s'. rewrite lookup_insert_eq, Hb. split; [done|]. split; [done|].
    by apply (sc_owned Hc (i, c)).
  - apply Hwf.
  - intros b Hfb. destruct (decide (b = a)) as [->|Hne].
    + split; [by apply (sc_flight Hc)|]. rewrite lookup_insert_eq. by eexists.
    + apply Hfl in Hfb; [|done]. rewrite lookup_insert_ne by done. by apply (wf_flight Hwf b).
  - intros b t [[<- <-]|[Hne Ht]]%lookup_insert_Some Hfb Hun.
    + by apply (sc_released Hc).
    + apply (wf_unlisted Hwf b t Ht); [|done]. by rewrite <-Hfl.
  - intros b t q [[<- <-]|[Hne Ht]]%lookup_insert_Some Hq.
    + apply (sc_tags Hc). by rewrite <-Hnb.
    + rewrite (sc_other Hc) by done. by apply (wf_tags Hwf).
  - intros i c sm Hsm. destruct (wf_caches Hwf i c sm Hsm) as (Hlen & Hidx & Hall).
    split; [done|]. split; [done|]. intros k Hk.
    destruct (Hall k Hk) as (x & b & p & t & Hx & Hblk & Ht & Hi & Htag).
    exists x, b, p. destruct (decide (b = a)) as [->|Hne].
    + simplify_eq. exists s'. rewrite (block_at_update sl a s s'), lookup_insert_eq by done.
      rewrite Hb. split_and!; try done. apply (sc_cached Hc); [|done].
      destruct Hblk as (? & ? & ? & _). by simplify_eq.
    + exists t. rewrite (block_at_update sl a s s'), lookup_insert_ne by done.
      rewrite (sc_other Hc) by done. done.
  - intros b t q i c k [[<- <-]|[Hne Ht]]%lookup_insert_Some Hq Htag.
    + rewrite Hnb in Hq. apply (sc_cached Hc) in Htag; [|done].
      rewrite Hb. by apply (wf_cached Hwf a s).
    + rewrite (sc_other Hc) in Htag by done.
      by apply (wf_cached Hwf b t).
Qed.

(** ** Changing one free cache *)

Lemma set_tag_eq a p t g : tags (set_tag a p t g) a p = t.
Proof. simpl. by rewrite !Z.eqb_refl. Qed.

Lemma set_tag_ne a p t g b q : (b, q) ≠ (a, p) → tags (set_tag a p t g) b q = tags g b q.
Proof.
  intros Hne. simpl. destruct (Z.eqb_spec b a) as [->|]; [|done].
  destruct (Z.eqb_spec q p) as [->|]; [|done]. done.
Qed.

(** A block moves between a client and the cache of [(i, c)], whose new
    content is [f]. *)
Lemma wf_set_fc fl g ms cur sl i c sm f a p s t :
  wf al st fl g ms cur sl → ms !! (i, c) = Some sm → sl !! a = Some s → 0 ≤ p < nblocks s →
  tags g a p ∉ [Avail; Freed] → t ∉ [Avail; Freed] →
  (∀ j d k, tags g a p = Cached j d k → (j, d) = (i, c)) →
  cache_ok (set_tag a p t g) sl i c f →
  (∀ b sb q j d k, sl !! b = Some sb → 0 ≤ q < nblocks sb →
    tags (set_tag a p t g) b q = Cached j d k →
    ((j, d) ≠ (i, c) ∧ (b, q) ≠ (a, p)) ∨
    ((j, d) = (i, c) ∧ 0 ≤ k < current_idx f ∧
     ptrs f !! Z.to_nat k = Some (block_addr b (block_size sb) q))) →
  wf al st fl (set_tag a p t g) (<[(i, c) := set_fc f sm]> ms) cur sl.
Proof.
  intros Hwf Hsm Hs Hp Hold Hnew Hloc Hf Hcached.
  rewrite !not_elem_of_cons in Hold, Hnew.
  constructor; try apply Hwf.
  - intros j d. rewrite lookup_insert_is_Some', (wf_managers Hwf j d).
    split; [|by right]. intros [[= <- <-]|H]; [|done]. apply (wf_managers Hwf). by eexists.
  - intros jd sm' [[<- <-]|[Hne Hsm']]%lookup_insert_Some; [|by apply (wf_lists Hwf)].
    by apply (wf_lists Hwf (i, c) sm).
  - intros j d b Hb. destruct (wf_listed Hwf j d b Hb) as [Hjd Hrest]. split; [|done].
    apply lookup_insert_is_Some'. by right.
  - intros b sb q Hb Hq. destruct (decide ((b, q) = (a, p))) as [[= -> ->]|Hne].
    + simplify_eq. destruct (wf_tags Hwf a s p Hs Hp). rewrite set_tag_eq. tauto.
    + rewrite set_tag_ne by done. by apply (wf_tags Hwf).
  - intros j d sm' [[[= <- <-] <-]|[Hne Hsm']]%lookup_insert_Some; [done|].
    destruct (wf_caches Hwf j d sm' Hsm') as (Hlen & Hidx & Hall).
    split; [done|]. split; [done|]. intros k Hk.
    destruct (Hall k Hk) as (x & b & q & sb & Hx & Hblk & Hb & Hi & Htag).
    exists x, b, q, sb. split_and!; try done. rewrite set_tag_ne; [done|].
    intros [= -> ->]. apply Hne. symmetry. by apply (Hloc j d k).
  - intros b sb q j d k Hb Hq Htag.
    destruct (Hcached b sb q j d k Hb Hq Htag) as [[Hne Hbq]|([= -> ->] & Hk)].
    + rewrite set_tag_ne in Htag by done. rewrite lookup_insert_ne by congruence.
      by apply (wf_cached Hwf b sb q j d k).
    + rewrite lookup_insert_eq. by exists (set_fc f sm).
Qed.

(** Pushing the block a client gives back. *)
Lemma wf_push fl g ms cur sl i c sm x a p s :
  wf al st fl g ms cur sl → ms !! (i, c) = Some sm → sl !! a = Some s →
  block_at sl x a p → idx_to_size i = Some (block_size s) → tags g a p = Live →
  current_idx (fc sm) < cache_size →
  let k := current_idx (fc sm) in
  wf al st fl (set_tag a p (Cached i c k) g)
    (<[(i, c) := set_fc (mk_fc (k + 1) (<[Z.to_nat k := x]> (ptrs (fc sm)))) sm]> ms) cur sl.
Proof.
  intros Hwf Hsm Hs Hblk Hi Htag Hlt k.
  destruct (wf_caches Hwf i c sm Hsm) as (Hlen & Hidx & Hall).
  assert (0 ≤ p < nblocks s) as Hp by (destruct Hblk as (? & ? & ? & _); by simplify_eq).
  apply wf_set_fc with s; try done.
  - rewrite Htag, !not_elem_of_cons. repeat split; [done..|apply not_elem_of_nil].
  - rewrite !not_elem_of_cons. repeat split; [done..|apply not_elem_of_nil].
  - intros j d l Hc. congruence.
  - split; [simpl; by rewrite length_insert|]. split; [simpl; lia|]. cbn [ptrs current_idx]. intros l Hl.
    destruct (decide (l = k)) as [->|Hne].
    + exists x, a, p, s. rewrite list_lookup_insert_eq by lia.
      rewrite set_tag_eq. done.
    + destruct (Hall l) as (y & b & q & sb & Hy & Hb & Hsb & Hib & Ht); [lia|].
      exists y, b, q, sb. rewrite list_lookup_insert_ne by lia.
      rewrite set_tag_ne; [done|]. intros [= -> ->]. congruence.
  - intros b sb q j d l Hb Hq Hc. cbn [ptrs current_idx].
    destruct (decide ((b, q) = (a, p))) as [[= -> ->]|Hne].
    + rewrite set_tag_eq in Hc. injection Hc as <- <- <-. right. split; [done|].
      split; [lia|]. simplify_eq. rewrite list_lookup_insert_eq by lia.
      destruct Hblk as (? & ? & _ & ->). by simplify_eq.
    + rewrite set_tag_ne in Hc by done.
      destruct (wf_cached Hwf b sb q j d l Hb Hq Hc) as (sm' & Hsm' & Hl & Hpl).
      destruct (decide ((j, d) = (i, c))) as [[= -> ->]|]; [|by left].
      right. simplify_eq. split; [done|]. split; [lia|].
      by rewrite list_lookup_insert_ne by lia.
Qed.

(** Popping a cached block for a client. *)
Lemma wf_pop fl g ms cur sl i c sm :
  wf al st fl g ms cur sl → ms !! (i, c) = Some sm → 0 < current_idx (fc sm) →
  let k := current_idx (fc sm) - 1 in
  ∃ x a p s, ptrs (fc sm) !! Z.to_nat k = Some x ∧ block_at sl x a p ∧ sl !! a = Some s ∧
    idx_to_size i = Some (block_size s) ∧ tags g a p = Cached i c k ∧
    wf al st fl (set_tag a p Live g)
      (<[(i, c) := set_fc (mk_fc k (ptrs (fc sm))) sm]> ms) cur sl.
Proof.
  intros Hwf Hsm Hpos k.
  destruct (wf_caches Hwf i c sm Hsm) as (Hlen & Hidx & Hall).
  destruct (Hall k) as (x & a & p & s & Hx & Hblk & Hs & Hi & Htag); [lia|].
  exists x, a, p, s. split_and!; try done.
  assert (0 ≤ p < nblocks s) as Hp by (destruct Hblk as (? & ? & ? & _); by simplify_eq).
  apply wf_set_fc with s; try done.
  - rewrite Htag, !not_elem_of_cons. repeat split; [done..|apply not_elem_of_nil].
  - rewrite !not_elem_of_cons. repeat split; [done..|apply not_elem_of_nil].
  - intros j d l Hc. congruence.
  - split; [done|]. split; [simpl; lia|]. cbn [ptrs current_idx]. intros l Hl.
    destruct (Hall l) as (y & b & q & sb & Hy & Hb & Hsb & Hib & Ht); [lia|].
    exists y, b, q, sb. rewrite set_tag_ne; [done|]. intros [= -> ->].
    rewrite Htag in Ht. injection Ht. lia.
  - intros b sb q j d l Hb Hq Hc. cbn [ptrs current_idx].
    destruct (decide ((b, q) = (a, p))) as [[= -> ->]|Hne]; [by rewrite set_tag_eq in Hc|].
    rewrite set_tag_ne in Hc by done.
    destruct (wf_cached Hwf b sb q j d l Hb Hq Hc) as (sm' & Hsm' & Hl & Hpl).
    destruct (decide ((j, d) = (i, c))) as [[= -> ->]|]; [|by left].
    right. simplify_eq. split; [done|]. split; [|done].
    assert (l ≠ k); [|lia]. intros ->. apply Hne.
    assert (block_at sl x b q) as Hblk'.
    { exists sb. split; [done|]. split; [done|]. congruence. }
    destruct (block_at_inj fl g ms cur sl Hwf x a p b q Hblk Hblk') as [-> ->]. done.
Qed.

(** ** Changing one list *)

(** [sl'] differs from [sl] in the links only. *)
Definition same_but_next (sl sl' : gmap Z obj_slab) : Prop :=
  ∀ a, set_next 0 <$> sl !! a = set_next 0 <$> sl' !! a.

Lemma same_but_next_refl sl : same_but_next sl sl.
Proof. done. Qed.

Lemma same_but_next_link sl a s n :
  sl !! a = Some s → same_but_next sl (<[a := set_next n s]> sl).
Proof.
  intros Hs b. destruct (decide (b = a)) as [->|].
  - by rewrite lookup_insert_eq, Hs.
  - by rewrite lookup_insert_ne.
Qed.

Lemma same_but_next_inv sl sl' a s' :
  same_but_next sl sl' → sl' !! a = Some s' → ∃ n s, sl !! a = Some s ∧ s' = set_next n s.
Proof.
  intros Hsl Hs'. specialize (Hsl a). rewrite Hs' in Hsl.
  destruct (sl !! a) as [s|]; [|done]. exists (next s'), s. split; [done|].
  destruct s, s'. simpl in *. by simplify_eq.
Qed.

Lemma same_but_next_fwd sl sl' a s :
  same_but_next sl sl' → sl !! a = Some s → ∃ n, sl' !! a = Some (set_next n s).
Proof.
  intros Hsl Hs. specialize (Hsl a). rewrite Hs in Hsl.
  destruct (sl' !! a) as [s'|]; [|done]. exists (next s'). f_equal.
  destruct s, s'. simpl in *. by simplify_eq.
Qed.

Lemma same_but_next_block sl sl' x a p :
  same_but_next sl sl' → block_at sl x a p ↔ block_at sl' x a p.
Proof.
  intros Hsl. split; intros (s & Hs & Hp & Hx).
  - destruct (same_but_next_fwd sl sl' a s Hsl Hs) as [n Hn]. by exists (set_next n s).
  - destruct (same_but_next_inv sl sl' a s Hsl Hs) as (n & t & Ht & ->). by exists t.
Qed.

Lemma wf_set_next_slab n s : wf_slab s → wf_slab (set_next n s).
Proof. intros []. by constructor. Qed.

(** The list of [ic] becomes [l], [fl] going in or [fl'] coming out. *)
Lemma wf_relist fl fl' g ms cur sl sl' i c sm sm' l :
  wf al st fl g ms cur sl → ms !! (i, c) = Some sm → fc sm' = fc sm → same_but_next sl sl' →
  chain sl' (available_slabs_head sm') l → NoDup l →
  (l ≠ [] → last l = Some (available_slabs_tail sm')) →
  available_slabs_tail sm' mod sizeof_obj_slab = 0 →
  (∀ jd smj, jd ≠ (i, c) → ms !! jd = Some smj →
    chain sl' (available_slabs_head smj) (lists g jd)) →
  (∀ a, a ∈ l → a ∈ lists g (i, c) ∨
    fl = Some a ∧ ∃ s, sl !! a = Some s ∧ idx_to_size i = Some (block_size s) ∧ state s = OWNED) →
  (∀ a, a ∈ lists g (i, c) → a ∈ l ∨ fl' = Some a) →
  (∀ a, fl = Some a → a ∈ l) →
  (∀ a, fl' = Some a → a ∉ l ∧ a ∈ lists g (i, c)) →
  wf al st fl' (set_list (i, c) l g) (<[(i, c) := sm']> ms) cur sl'.
Proof.
  intros Hwf Hsm Hfc Hsl Hch Hnd Hlast Htail Hothers Hin Hout Hfl Hfl'.
  assert (∀ jd a, a ∈ lists (set_list (i, c) l g) jd →
    (jd = (i, c) ∧ a ∈ l) ∨ (jd ≠ (i, c) ∧ a ∈ lists g jd)) as Hlists.
  { intros jd a. simpl. case_decide; [by left|by right]. }
  assert (∀ jd a, jd ≠ (i, c) → a ∈ lists g jd → a ∉ l) as Hdisj.
  { intros jd a Hne Ha Hl. destruct (Hin a Hl) as [Ha'|[Hfa _]].
    - apply Hne. by apply (wf_disjoint Hwf jd (i, c) a).
    - by destruct (proj1 (wf_flight Hwf a Hfa) jd). }
  constructor; try apply Hwf.
  - intros a. rewrite <-(wf_dom Hwf a). split; intros [s Hs].
    + destruct (same_but_next_inv sl sl' a s Hsl Hs) as (n & t & Ht & _). by eexists.
    + destruct (same_but_next_fwd sl sl' a s Hsl Hs) as [n Hn]. by eexists.
  - intros a s Hs. destruct (same_but_next_inv sl sl' a s Hsl Hs) as (n & t & Ht & ->).
    destruct (wf_slabs Hwf a t Ht). split; [by apply wf_set_next_slab|done].
  - intros j d. rewrite lookup_insert_is_Some', (wf_managers Hwf j d).
    split; [|by right]. intros [[= <- <-]|H]; [|done]. apply (wf_managers Hwf). by eexists.
  - intros jd smj [[<- <-]|[Hne Hj]]%lookup_insert_Some; simpl.
    + by rewrite decide_True.
    + rewrite decide_False by done. destruct (wf_lists Hwf jd smj Hj) as (_ & Hrest).
      split; [by apply Hothers|done].
  - intros j d a [[[= -> ->] Ha]|[Hne Ha]]%Hlists.
    + split; [rewrite lookup_insert_eq; by eexists|].
      assert (∃ s, sl !! a = Some s ∧ idx_to_size i = Some (block_size s) ∧ state s = OWNED)
        as (s & Hs & Hi & Ho).
      { destruct (Hin a Ha) as [Ha'|[_ ?]]; [|done]. by apply (wf_listed Hwf i c a). }
      destruct (same_but_next_fwd sl sl' a s Hsl Hs) as [n Hn]. by exists (set_next n s).
    + destruct (wf_listed Hwf j d a Ha) as (Hj & s & Hs & Hi & Ho).
      split; [rewrite lookup_insert_ne by done; done|].
      destruct (same_but_next_fwd sl sl' a s Hsl Hs) as [n Hn]. by exists (set_next n s).
  - intros jd ke a [[-> Ha]|[Hne Ha]]%Hlists [[-> Ha']|[Hne' Ha']]%Hlists; try done.
    + by destruct (Hdisj ke a).
    + by destruct (Hdisj jd a).
    + by apply (wf_disjoint Hwf jd ke a).
  - intros a Hfa. destruct (Hfl' a Hfa) as [Hnl Ha]. split.
    + intros jd [[-> ?]|[Hne ?]]%Hlists; [done|]. apply Hne.
      by apply (wf_disjoint Hwf jd (i, c) a).
    + destruct (wf_listed Hwf i c a Ha) as (_ & s & Hs & _).
      destruct (same_but_next_fwd sl sl' a s Hsl Hs) as [n Hn]. by eexists.
  - intros a s Hs Hfa Hun. destruct (same_but_next_inv sl sl' a s Hsl Hs) as (n & t & Ht & ->).
    assert (a ∉ l) as Hal'. { specialize (Hun (i, c)). simpl in Hun. by rewrite decide_True in Hun. }
    apply (wf_unlisted Hwf a t Ht).
    + intros H. by apply Hal', Hfl.
    + intros jd Ha. destruct (decide (jd = (i, c))) as [->|Hne].
      * by destruct (Hout a Ha).
      * specialize (Hun jd). simpl in Hun. by rewrite decide_False in Hun.
  - intros a s p Hs Hp. destruct (same_but_next_inv sl sl' a s Hsl Hs) as (n & t & Ht & ->).
    by apply (wf_tags Hwf a t p).
  - intros j d smj Hj.
    assert (∃ sm0, ms !! (j, d) = Some sm0 ∧ fc smj = fc sm0) as (sm0 & Hsm0 & ->).
    { apply lookup_insert_Some in Hj as [[[= <- <-] <-]|[Hne Hj]]; eauto. }
    destruct (wf_caches Hwf j d sm0 Hsm0) as (Hlen & Hidx & Hall).
    split; [done|]. split; [done|]. intros k Hk.
    destruct (Hall k Hk) as (x & a & p & s & Hx & Hb & Hs & Hi & Ht).
    destruct (same_but_next_fwd sl sl' a s Hsl Hs) as [n Hn].
    exists x, a, p, (set_next n s). rewrite <-(same_but_next_block sl sl') by done. done.
  - intros a s p j d k Hs Hp Htag.
    destruct (same_but_next_inv sl sl' a s Hsl Hs) as (n & t & Ht & ->).
    destruct (wf_cached Hwf a t p j d k Ht Hp Htag) as (smj & Hj & Hk & Hx).
    destruct (decide ((j, d) = (i, c))) as [[= -> ->]|Hne].
    + simplify_eq. exists sm'. rewrite lookup_insert_eq, Hfc. done.
    + exists smj. by rewrite lookup_insert_ne by congruence.
Qed.

(** Taking the head off a list. *)
Lemma wf_unlink g ms cur sl i c sm a l s :
  wf al st None g ms cur sl → ms !! (i, c) = Some sm → lists g (i, c) = a :: l →
  sl !! a = Some s →
  wf al st (Some a) (set_list (i, c) l g) (<[(i, c) := set_head (next s) sm]> ms) cur sl.
Proof.
  intros Hwf Hsm Hl Hs. destruct (wf_lists Hwf (i, c) sm Hsm) as (Hch & Hnd & Hlast & Htail).
  rewrite Hl in Hch, Hnd, Hlast. destruct Hch as (Hhead & s' & Hs' & Hch). simplify_eq.
  apply NoDup_cons in Hnd as [Hal' Hnd].
  apply wf_relist with None sl sm; try done.
  - intros Hne. specialize (Hlast ltac:(done)). destruct l; [done|].
    by rewrite last_cons_cons in Hlast.
  - intros jd smj Hne Hj. by apply (wf_lists Hwf jd smj).
  - rewrite Hl. intros b Hb. left. set_solver.
  - rewrite Hl. intros b [->|Hb]%elem_of_cons; [by right|by left].
  - intros b [= <-]. rewrite Hl. set_solver.
Qed.

(** Appending the slab in flight to an empty list. *)
Lemma wf_link_first g ms cur sl i c sm a s :
  wf al st (Some a) g ms cur sl → ms !! (i, c) = Some sm → available_slabs_head sm = 0 →
  sl !! a = Some s → next s = 0 → state s = OWNED → idx_to_size i = Some (block_size s) →
  wf al st None (set_list (i, c) (lists g (i, c) ++ [a]) g)
    (<[(i, c) := set_head a (set_tail a sm)]> ms) cur sl.
Proof.
  intros Hwf Hsm H0 Hs Hn Ho Hi. rewrite (head_zero _ g ms cur sl Hwf (i, c) sm Hsm H0). simpl.
  destruct (slab_addr _ g ms cur sl Hwf a s Hs) as [Hm _].
  apply wf_relist with (Some a) sl sm; try done.
  - simpl. eauto.
  - apply NoDup_singleton.
  - intros jd smj Hne Hj. by apply (wf_lists Hwf jd smj).
  - intros b ->%list_elem_of_singleton. right. eauto.
  - rewrite (head_zero _ g ms cur sl Hwf (i, c) sm Hsm H0). intros b Hb. by apply elem_of_nil in Hb.
  - intros b [= <-]. by apply list_elem_of_singleton.
Qed.

(** Appending the slab in flight behind the tail. *)
Lemma wf_link_last g ms cur sl i c sm a s :
  wf al st (Some a) g ms cur sl → ms !! (i, c) = Some sm → available_slabs_head sm ≠ 0 →
  sl !! a = Some s → next s = 0 → state s = OWNED → idx_to_size i = Some (block_size s) →
  ∃ t, sl !! available_slabs_tail sm = Some t ∧ available_slabs_tail sm ≠ a ∧
    wf al st None (set_list (i, c) (lists g (i, c) ++ [a]) g)
      (<[(i, c) := set_tail a sm]> ms) cur (<[available_slabs_tail sm := set_next a t]> sl).
Proof.
  intros Hwf Hsm H0 Hs Hn Ho Hi.
  destruct (wf_lists Hwf (i, c) sm Hsm) as (Hch & Hnd & Hlast & _).
  destruct (wf_flight Hwf a eq_refl) as [Hun _].
  assert (lists g (i, c) ≠ []) as Hne by (intros Hnil; by rewrite Hnil in Hch).
  specialize (Hlast Hne). pose proof (last_Some_elem_of _ _ Hlast) as Hin.
  destruct (chain_elem _ _ _ _ Hch Hin) as [t Ht]. exists t. split; [done|].
  destruct (slab_addr _ g ms cur sl Hwf a s Hs) as [Hm _].
  split; [intros <-; by apply (Hun (i, c))|].
  apply wf_relist with (Some a) sl sm; try done.
  - by apply same_but_next_link.
  - by apply chain_append with s.
  - apply NoDup_app. split; [done|]. split; [|apply NoDup_singleton].
    intros b Hb ->%list_elem_of_singleton. by apply (Hun (i, c)).
  - intros _. by rewrite last_snoc.
  - intros jd smj Hne' Hj. apply chain_ext with sl; [by apply (wf_lists Hwf jd smj)|].
    intros b sb Hb Hsb. exists sb. rewrite lookup_insert_ne; [done|]. intros <-.
    apply Hne'. by apply (wf_disjoint Hwf jd (i, c) (available_slabs_tail sm)).
  - intros b [Hb| ->%list_elem_of_singleton]%elem_of_app; [by left|]. right. eauto.
  - intros b Hb. left. apply elem_of_app. by left.
  - intros b [= <-]. apply elem_of_app. right. by apply list_elem_of_singleton.
Qed.

(** ** A new slab *)

Definition add_slab (a : Z) (g : ghost) : ghost :=
  mk_ghost (lists g) (λ b q, if b =? a then Avail else tags g b q).

Lemma fresh_slab fl g ms cur sl : wf al st fl g ms cur sl → sl !! cur = None.
Proof.
  intros Hwf. destruct (sl !! cur) eqn:E; [|done].
  destruct (proj1 (wf_dom Hwf cur)); [by eexists|lia].
Qed.

Lemma block_at_other sl a s x b q :
  sl !! a = None → block_at sl x b q → block_at (<[a := s]> sl) x b q.
Proof.
  intros Ha (t & Ht & Hq & Hx). exists t. rewrite lookup_insert_ne by congruence. done.
Qed.

Lemma wf_new g ms cur sl s :
  wf al st None g ms cur sl → cur < end_ al →
  wf_slab s → (∃ i, idx_to_size i = Some (block_size s)) → state s = OWNED →
  (∀ p, position p → avail s p = (p <? nblocks s)) → (∀ p, position p → freed s p = false) →
  wf al st (Some cur) (add_slab cur g) ms (cur + sizeof_obj_slab) (<[cur := s]> sl).
Proof.
  intros Hwf Hlt Hs Hi Ho Hav Hfr. pose proof (fresh_slab _ _ _ _ _ Hwf) as Hfresh.
  destruct (wf_current Hwf) as [Hcur Hmod].
  assert (unlisted g cur) as Hun.
  { intros [i c] Hin. destruct (wf_listed Hwf i c cur Hin) as (_ & t & Ht & _). congruence. }
  assert (∀ b, st ≤ b < cur + sizeof_obj_slab → b mod sizeof_obj_slab = 0 → cur ≤ b → b = cur)
    as Hlast.
  { intros b Hb Hbm Hle. apply Z_div_exact_full_2 in Hmod; [|done].
    apply Z_div_exact_full_2 in Hbm; [|done]. slab_consts. lia. }
  constructor; simpl; try apply Hwf.
  - pose proof (region_end_mod al st Hal) as He.
    apply Z_div_exact_full_2 in He; [|done]. rewrite Z.add_mod, Hmod, Z_mod_same_full by done.
    apply Z_div_exact_full_2 in Hmod; [|done]. split; [slab_consts; lia|done].
  - intros b. rewrite lookup_insert_is_Some', (wf_dom Hwf b). split.
    + intros [<-|[? ?]]; [split; [slia|done]|split; [slia|done]].
    + intros [Hb Hbm]. destruct (Z.lt_ge_cases b cur) as [|Hge]; [right; split; [lia|done]|].
      left. symmetry. by apply Hlast.
  - intros b t [[<- <-]|[Hne Ht]]%lookup_insert_Some; [done|by apply (wf_slabs Hwf b t)].
  - intros ic sm Hsm. destruct (wf_lists Hwf ic sm Hsm) as (Hch & Hrest). split; [|done].
    apply chain_ext with sl; [done|]. intros b t Hb Ht. exists t.
    rewrite lookup_insert_ne by congruence. done.
  - intros i c b Hb. destruct (wf_listed Hwf i c b Hb) as (Hsm & t & Ht & Hrest).
    split; [done|]. exists t. rewrite lookup_insert_ne by congruence. done.
  - intros b [= <-]. split; [done|]. rewrite lookup_insert_eq. by eexists.
  - intros b t [[<- <-]|[Hne Ht]]%lookup_insert_Some Hfl Hub; [done|].
    by apply (wf_unlisted Hwf b t).
  - intros b t q [[<- <-]|[Hne Ht]]%lookup_insert_Some Hq.
    + rewrite Z.eqb_refl. pose proof (nblocks_bounds s (wf_block_size s Hs)).
      assert (position q) as Hpos by (unfold position; slia).
      rewrite Hav, Hfr by done. split; [|done]. split; [done|]. intros _. lia.
    + replace (b =? cur) with false by lia. by apply (wf_tags Hwf).
  - intros i c sm Hsm. destruct (wf_caches Hwf i c sm Hsm) as (Hlen & Hidx & Hall).
    split; [done|]. split; [done|]. intros k Hk.
    destruct (Hall k Hk) as (x & b & p & t & Hx & Hb & Ht & Hi' & Htag).
    exists x, b, p, t. simpl. assert (b ≠ cur) by congruence.
    replace (b =? cur) with false by lia. rewrite lookup_insert_ne by done.
    split_and!; try done. by apply block_at_other.
  - intros b t q i c k [[<- <-]|[Hne Ht]]%lookup_insert_Some Hq; [by rewrite Z.eqb_refl|].
    replace (b =? cur) with false by lia. by apply (wf_cached Hwf b t q).
Qed.
End Invariant.
