(* ===== verification/AllocatorSteps.v ===== *)
(** * Effect of the allocator's operations on the invariant

    Hoare-style specifications of the restartable sequences and of the calls
    composed of them: each preserves the invariant of [AllocatorInv], and the
    set of blocks clients hold changes as the call promises. *)

From S2P Require Import Prelude Bits ConstMath Machine SizeClasses Atomics ObjSlab SlabManager.
From S2P Require Import ObjectAllocator AllocatorInv.

(** ** Running a slab operation *)

Lemma wp_run_slab {A} total a (op : ST obj_slab A) Q s sa :
  slabs s !! a = Some sa →
  wp total op (λ r sa', Q r (set_slabs (<[a := sa']> (slabs s)) s)) sa →
  wp total (run_slab a op) Q s.
Proof.
  intros Ha. unfold wp, run_slab. rewrite Ha. by destruct (op sa) as [[]| | |].
Qed.

Lemma wp_run_slab_gets {A} total a (f : obj_slab → A) Q s sa :
  slabs s !! a = Some sa → Q (f sa) s → wp total (run_slab a (gets f)) Q s.
Proof.
  intros Ha HQ. eapply wp_run_slab; [done|]. wp_step. rewrite insert_id by done.
  by destruct s.
Qed.

Lemma wp_get_manager total i c Q s sm :
  slab_managers s !! (i, c) = Some sm → Q sm s → wp total (get_manager i c) Q s.
Proof. intros Hsm HQ. unfold get_manager. repeat wp_step; done. Qed.

Lemma wp_read_cpu total cpu Q s : Q (cpu (clock s)) (tick s) → wp total (read_cpu cpu) Q s.
Proof. done. Qed.

(** ** Live blocks *)

Lemma live_ext g g' sl sl' :
  (∀ x a p, block_at sl' x a p → block_at sl x a p ∧
    block_size <$> sl !! a = block_size <$> sl' !! a ∧ (tags g' a p = Live → tags g a p = Live)) →
  (∀ x a p, block_at sl x a p → block_at sl' x a p ∧
    block_size <$> sl' !! a = block_size <$> sl !! a ∧ (tags g a p = Live → tags g' a p = Live)) →
  ∀ x b, live g' sl' x b ↔ live g sl x b.
Proof.
  intros H1 H2 x b. split; intros (a & p & Hb & Hsz & Ht); exists a, p.
  - destruct (H1 x a p Hb) as (? & -> & ?). auto.
  - destruct (H2 x a p Hb) as (? & -> & ?). auto.
Qed.

Lemma live_same_but_next g g' sl sl' :
  same_but_next sl sl' → tags g' = tags g → ∀ x b, live g' sl' x b ↔ live g sl x b.
Proof.
  intros Hsl Ht.
  assert (∀ a, block_size <$> sl' !! a = block_size <$> sl !! a) as Hsz.
  { intros a. destruct (sl !! a) as [s|] eqn:Hs.
    - destruct (same_but_next_fwd sl sl' a s Hsl Hs) as [n ->]. done.
    - destruct (sl' !! a) as [s'|] eqn:Hs'; [|done].
      destruct (same_but_next_inv sl sl' a s' Hsl Hs') as (n & s & ? & _). congruence. }
  apply live_ext; intros x a p Hb; rewrite Ht, Hsz; split; try done;
    by apply (same_but_next_block sl sl').
Qed.

Lemma live_update_slab g τ sl a s s' :
  sl !! a = Some s → block_size s' = block_size s →
  (∀ b q, b ≠ a → τ b q = tags g b q) →
  (∀ p, 0 ≤ p < nblocks s → τ a p = Live ↔ tags g a p = Live) →
  ∀ x b, live (mk_ghost (lists g) τ) (<[a := s']> sl) x b ↔ live g sl x b.
Proof.
  intros Hs Hb Hother Ha.
  assert (∀ x b q, block_at sl x b q → τ b q = Live ↔ tags g b q = Live) as Hτ.
  { intros x b q (t & Ht & Hq & _). destruct (decide (b = a)) as [->|Hne].
    - simplify_eq. by apply Ha.
    - by rewrite Hother. }
  assert (∀ b, block_size <$> <[a := s']> sl !! b = block_size <$> sl !! b) as Hsz.
  { intros b. destruct (decide (b = a)) as [->|]; [|by rewrite lookup_insert_ne].
    rewrite lookup_insert_eq, Hs. simpl. by rewrite Hb. }
  apply live_ext; intros x b q Hblk; simpl; rewrite Hsz.
  - rewrite (block_at_update sl a s s') in Hblk by done. split_and!; try done.
    by apply (Hτ x b q).
  - rewrite (block_at_update sl a s s') by done. split_and!; try done. by apply (Hτ x b q).
Qed.

Section Steps.
Context (cpu : nat → Z) (Hcpu : ∀ n, 0 ≤ cpu n < NPROCS).
Context (al : object_allocator) (st : Z) (Hal : wf_region al st).

Local Abbreviation WF fl g s := (WF al st fl g s).

Lemma manager_at fl g s i c :
  WF fl g s → 0 ≤ i < num_size_classes → 0 ≤ c < NPROCS →
  ∃ sm, slab_managers s !! (i, c) = Some sm.
Proof. intros Hwf Hi Hc. by apply (wf_managers Hwf). Qed.

(** A block becomes live, or stops being live. *)
Lemma live_set_tag fl g ms cur sl x a p s t :
  wf al st fl g ms cur sl → block_at sl x a p → sl !! a = Some s →
  ∀ y b, live (set_tag a p t g) sl y b ↔
    (y = x ∧ b = block_size s ∧ t = Live) ∨ (y ≠ x ∧ live g sl y b).
Proof.
  intros Hwf Hb Hs y bs. split.
  - intros (b & q & Hbq & Hsz & Ht). destruct (decide ((b, q) = (a, p))) as [[= -> ->]|Hne].
    + rewrite set_tag_eq in Ht. rewrite Hs in Hsz. left. split; [|by simplify_eq/=].
      destruct Hb as (s1 & Hs1 & _ & ->), Hbq as (s' & Hs' & _ & ->). by simplify_eq.
    + rewrite set_tag_ne in Ht by done. right. split; [|by exists b, q].
      intros ->. apply Hne.
      by destruct (block_at_inj al st Hal fl g ms cur sl Hwf x b q a p) as [-> ->].
  - intros [(-> & -> & ->)|[Hyx (b & q & Hbq & Hsz & Ht)]].
    + exists a, p. by rewrite set_tag_eq, Hs.
    + exists b, q. split; [done|]. split; [done|].
      rewrite set_tag_ne; [done|]. intros [= -> ->]. apply Hyx.
      destruct Hb as (s1 & Hs1 & _ & ->), Hbq as (s' & Hs' & _ & ->). by simplify_eq.
Qed.

(** ** [_send_slab] *)

Lemma wp_send_slab total g s a sa i :
  WF (Some a) g s → slabs s !! a = Some sa → next sa = 0 → state sa = OWNED →
  idx_to_size i = Some (block_size sa) →
  wp total (_send_slab cpu a i)
    (λ _ s', let c := cpu (clock s) in
      WF None (set_list (i, c) (lists g (i, c) ++ [a]) g) s' ∧
      clock s' = S (clock s) ∧ same_but_next (slabs s) (slabs s') ∧
      slabs s' !! a = Some sa) s.
Proof.
  intros Hwf Ha Hn Ho Hi. unfold _send_slab. wp_step.
  eapply wp_run_slab_gets; [done|]. wp_step. wp_step; [lia|]. wp_step.
  apply wp_read_cpu. set (c := cpu (clock s)).
  destruct (manager_at _ g s i c Hwf) as [sm Hsm]; [by eapply idx_to_size_Some|apply Hcpu|].
  wp_step. apply wp_get_manager with sm; [done|].
  destruct (Z.eqb_spec (available_slabs_head sm) 0) as [H0|H0].
  - unfold put_manager. wp_step. split_and!; try done. by apply wf_link_first with sa.
  - destruct (wf_link_last al st Hal g _ _ _ i c sm a sa Hwf Hsm H0 Ha Hn Ho Hi)
      as (t & Ht & Hta & Hwf').
    wp_step. eapply wp_run_slab; [done|]. wp_step. unfold put_manager. wp_step. simpl.
    split_and!; [done|done|by apply same_but_next_link|].
    by rewrite lookup_insert_ne.
Qed.

(** ** The free caches *)

Lemma wp_try_pop total g s i :
  WF None g s → 0 ≤ i < num_size_classes →
  wp total (try_pop cpu i)
    (λ ret s', clock s' = S (clock s) ∧
      ((ret = 0 ∧ s' = tick s) ∨
       (∃ a p sa, block_at (slabs s') ret a p ∧ slabs s' !! a = Some sa ∧
          idx_to_size i = Some (block_size sa) ∧ tags g a p ≠ Live ∧
          slabs s' = slabs s ∧ WF None (set_tag a p Live g) s'))) s.
Proof.
  intros Hwf Hi. unfold try_pop. wp_step. apply wp_read_cpu. set (c := cpu (clock s)).
  destruct (manager_at _ g s i c Hwf Hi (Hcpu _)) as [sm Hsm].
  wp_step. apply wp_get_manager with sm; [done|].
  destruct (wf_caches Hwf i c sm Hsm) as (Hlen & Hidx & _).
  destruct (Z.eqb_spec (current_idx (fc sm)) 0) as [H0|H0]; [wp_step; by eauto|].
  destruct (wf_pop al st Hal None g _ _ _ i c sm Hwf Hsm) as
    (x & a & p & sa & Hx & Hb & Hsa & Hsz & Htag & Hwf'); [lia|].
  wp_step. eapply wp_from_opt; [done|]. wp_step. unfold put_manager. do 2 wp_step.
  split; [done|]. right. exists a, p, sa. split_and!; try done; [congruence|]. simpl.
  rewrite wrap_small; [done|]. change cache_size with 13 in *. word_const.
Qed.

Lemma wp_try_push total g s x i a p sa :
  WF None g s → block_at (slabs s) x a p → slabs s !! a = Some sa →
  idx_to_size i = Some (block_size sa) → tags g a p = Live →
  wp total (try_push cpu x i)
    (λ ret s', clock s' = S (clock s) ∧ slabs s' = slabs s ∧
      ((ret = 1 ∧ s' = tick s) ∨
       (ret = 0 ∧ ∃ c k, WF None (set_tag a p (Cached i c k) g) s'))) s.
Proof.
  intros Hwf Hb Hsa Hi Htag. unfold try_push. wp_step. apply wp_read_cpu.
  set (c := cpu (clock s)).
  destruct (manager_at _ g s i c Hwf) as [sm Hsm]; [by eapply idx_to_size_Some|apply Hcpu|].
  wp_step. apply wp_get_manager with sm; [done|].
  destruct (wf_caches Hwf i c sm Hsm) as (Hlen & Hidx & _).
  destruct (Z.eqb_spec (current_idx (fc sm)) cache_size) as [H0|H0]; [wp_step; by eauto|].
  wp_step. wp_step; [lia|]. wp_step. unfold put_manager. do 2 wp_step.
  split; [done|]. split; [done|]. right. split; [done|]. exists c, (current_idx (fc sm)). simpl.
  rewrite wrap_small by (change cache_size with 13 in *; word_const).
  apply wf_push with sa; try done. lia.
Qed.

(** ** Slab operations under the invariant *)

Lemma block_position s p : wf_slab s → 0 ≤ p < nblocks s → position p.
Proof.
  intros Hs Hp. pose proof (nblocks_bounds s (wf_block_size s Hs)). unfold position. lia.
Qed.

Lemma ghost_eta g : mk_ghost (lists g) (tags g) = g.
Proof. by destruct g. Qed.

(** The owner takes block [p] of a listed slab. *)
Lemma wf_took g ms cur sl ic a s p s' :
  wf al st None g ms cur sl → sl !! a = Some s → a ∈ lists g ic → took s p s' →
  wf al st None (set_tag a p Live g) ms cur (<[a := s']> sl).
Proof.
  intros Hwf Hs Hin (Hp & Hav & _ & Hav' & (Hn & Hb & Hfv & Hst & Hfs) & Hwf').
  destruct (wf_slabs Hwf a s Hs) as [Hws _].
  apply (wf_update_slab al st None None g (tags (set_tag a p Live g)) ms cur sl a s s' Hwf Hs); [|done].
  constructor; try done.
  - by left.
  - intros [i c] Hic. destruct (wf_listed Hwf i c a Hic) as (_ & t & Ht & _ & Ho).
    simplify_eq. by rewrite Hst.
  - intros _ Hun. by destruct (Hun ic).
  - intros b q Hne. apply set_tag_ne. congruence.
  - intros q Hq. pose proof (wf_tags Hwf a s q Hs Hq) as [H1 H2].
    rewrite Hav' by (by apply (block_position s)). unfold freed. rewrite Hfs.
    fold (freed s q). destruct (Z.eqb_spec q p) as [->|Hne].
    + rewrite set_tag_eq. apply H1 in Hav. rewrite Hav in H2.
      rewrite H2, andb_false_r. done.
    + rewrite set_tag_ne by congruence. by rewrite andb_true_r.
  - intros q i c k Hq. destruct (decide (q = p)) as [->|Hne].
    + rewrite set_tag_eq. pose proof (wf_tags Hwf a s p Hs Hq) as [H1 _].
      apply H1 in Hav. rewrite Hav. done.
    + by rewrite set_tag_ne by congruence.
Qed.

(** A change of a slab that keeps its bits. *)
Lemma wf_same_bits fl fl' g ms cur sl a s s' :
  wf al st fl g ms cur sl → sl !! a = Some s → wf_slab s' → block_size s' = block_size s →
  (next s' = next s ∨ unlisted g a) →
  available_slots s' = available_slots s → freed_slots s' = freed_slots s →
  (∀ ic, a ∈ lists g ic → state s' = OWNED) → (fl' = Some a → unlisted g a) →
  (fl' ≠ Some a → unlisted g a →
    state s' = UNOWNED ∧ (∀ p, position p → avail s p = false) ∧ freed_vecs s' = 0) →
  (∀ b, b ≠ a → fl' = Some b ↔ fl = Some b) →
  wf al st fl' g ms cur (<[a := s']> sl).
Proof.
  intros Hwf Hs Hs' Hb Hn Hav Hfs Hown Hfl Hrel Hother. rewrite <-(ghost_eta g).
  apply (wf_update_slab al st fl fl' g _ ms cur sl a s s' Hwf Hs); [|done].
  constructor; try done.
  - unfold avail. by rewrite Hav.
  - intros p Hp. unfold avail, freed. rewrite Hav, Hfs. by apply (wf_tags Hwf a s).
Qed.

Lemma wf_slab_set_state v s : wf_slab s → v = OWNED ∨ v = UNOWNED → wf_slab (set_state v s).
Proof. intros [] Hv. by constructor. Qed.

(** The bits of a slab taken off its list move from freed to available. *)
Definition reclaim_tags (a : Z) (g : ghost) : ghost :=
  mk_ghost (lists g)
    (λ b q, if (b =? a) && bool_decide (tags g b q = Freed) then Avail else tags g b q).

Lemma wf_reclaimed g ms cur sl a s s' :
  wf al st (Some a) g ms cur sl → sl !! a = Some s →
  (∀ p, position p → avail s p = false) → reclaimed s s' →
  wf al st (Some a) (reclaim_tags a g) ms cur (<[a := s']> sl).
Proof.
  intros Hwf Hs Hnone (Hav & Hfr & Hn & Hb & Hst & Hwf').
  destruct (wf_flight Hwf a eq_refl) as [Hun _]. destruct (wf_slabs Hwf a s Hs) as [Hws _].
  apply (wf_update_slab al st (Some a) (Some a) g _ ms cur sl a s s' Hwf Hs); [|done].
  constructor; try done.
  - by left.
  - intros ic Hic. by destruct (Hun ic).
  - intros b q Hne. by rewrite (proj2 (Z.eqb_neq b a) Hne).
  - intros p Hp. pose proof (block_position s p Hws Hp) as Hpos. rewrite Z.eqb_refl. simpl.
    destruct (wf_tags Hwf a s p Hs Hp) as [H1 H2]. rewrite Hnone in H1 by done.
    rewrite Hav, Hfr by done. case_bool_decide as Ht; [by rewrite H2|].
    rewrite H2. split; [|done]. split; [done|]. by intros ?%H1.
  - intros p i c k Hp. rewrite Z.eqb_refl. simpl. case_bool_decide as Ht; [|done].
    by rewrite Ht.
Qed.

(** Block [p] of slab [a] is freed in its slab.  If the slab was on no list
    the caller now has it in flight. *)
Lemma wf_gave_back fl' g ms cur sl a s p s' :
  wf al st None g ms cur sl → sl !! a = Some s → 0 ≤ p < nblocks s → tags g a p = Live →
  gave_back s p s' → (∀ b, fl' = Some b → b = a) → (fl' = Some a ↔ unlisted g a) →
  wf al st fl' (set_tag a p Freed g) ms cur (<[a := s']> sl).
Proof.
  intros Hwf Hs Hp Hlive (Hfr & (Hn & Hb & Hst & Hav & Has) & Hwf') Hfl Hun.
  destruct (wf_slabs Hwf a s Hs) as [Hws _].
  apply (wf_update_slab al st None fl' g (tags (set_tag a p Freed g)) ms cur sl a s s' Hwf Hs).
  2: { intros b Hne. split; [|done]. by intros ->%Hfl. }
  constructor; try done.
  - by left.
  - intros [i c] Hic. destruct (wf_listed Hwf i c a Hic) as (_ & t & Ht & _ & Ho).
    simplify_eq. by rewrite Hst.
  - intros H1 H2. by apply Hun in H2.
  - apply Hun.
  - intros b q Hne. apply set_tag_ne. congruence.
  - intros q Hq. pose proof (wf_tags Hwf a s q Hs Hq) as [H1 H2].
    rewrite Hfr by (by apply (block_position s)). unfold avail. rewrite Has.
    fold (avail s q). destruct (Z.eqb_spec q p) as [->|Hne].
    + rewrite set_tag_eq, orb_true_r. rewrite Hlive in H1. rewrite H1. done.
    + rewrite set_tag_ne by congruence. by rewrite orb_false_r.
  - intros q i c k Hq. destruct (decide (q = p)) as [->|Hne].
    + rewrite set_tag_eq, Hlive. done.
    + by rewrite set_tag_ne by congruence.
Qed.

(** ** [slab_manager::_cas_set_next_available_slab] *)

Lemma next_not_self g s i c sm a l sa :
  WF None g s → slab_managers s !! (i, c) = Some sm → lists g (i, c) = a :: l →
  slabs s !! a = Some sa → next sa ≠ a.
Proof.
  intros Hwf Hsm Hl Ha. destruct (wf_lists Hwf (i, c) sm Hsm) as (Hch & Hnd & _).
  rewrite Hl in Hch, Hnd. destruct Hch as (_ & s' & Hs' & Hch). simplify_eq.
  apply NoDup_cons in Hnd as [Hnd _].
  pose proof (slab_addr_nonzero al st Hal _ _ _ _ _ Hwf a sa Ha).
  destruct l as [|b l]; simpl in Hch; [lia|]. destruct Hch as [-> _]. set_solver.
Qed.

Lemma wp_cas total g s i c a l sa :
  WF None g s → lists g (i, c) = a :: l → slabs s !! a = Some sa →
  wp total (_cas_set_next_available_slab cpu i c a)
    (λ r s', slabs s' = slabs s ∧
      if cpu (clock s) =? c then
        r = 0 ∧ WF (Some a) (set_list (i, c) l g) s' ∧
        ∃ sm, slab_managers s' !! (i, c) = Some sm ∧ available_slabs_head sm ≠ a
      else r = ANY ∧ s' = tick s) s.
Proof.
  intros Hwf Hl Ha. unfold _cas_set_next_available_slab. wp_step. apply wp_read_cpu.
  destruct (Z.eqb_spec (cpu (clock s)) c) as [Hc|Hc]; cbn [negb]; [|by wp_step].
  destruct (wf_listed Hwf i c a) as [[sm Hsm] _]; [rewrite Hl; set_solver|].
  destruct (head_nonzero al st Hal _ _ _ _ _ Hwf (i, c) sm a l Hsm Hl) as [Hh _].
  wp_step. apply wp_get_manager with sm; [done|]. rewrite Hh, Z.eqb_refl. cbn [negb].
  wp_step. eapply wp_run_slab_gets; [done|]. unfold put_manager. do 3 wp_step. simpl.
  split; [done|]. split; [done|]. split; [by apply wf_unlink|].
  exists (set_head (next sa) sm). rewrite lookup_insert_eq. split; [done|]. simpl.
  by apply (next_not_self g s i c sm a l).
Qed.

(** ** Progress of the allocation loop *)

(** The slab at [a] has no available block. *)
Definition full_slab (sl : gmap Z obj_slab) (a : Z) : bool :=
  match sl !! a with Some s => forallb (Z.eqb 0) (available_slots s) | None => false end.

(** Rounds [_allocate_inner] may still take on a list of slabs. *)
Definition work (sl : gmap Z obj_slab) (l : list Z) : nat :=
  2 * length (filter (λ a, full_slab sl a = true) l) +
  match l with [] => 1 | _ => 0 end.

Lemma full_slab_true sl a s :
  sl !! a = Some s → wf_slab s → (∀ p, position p → avail s p = false) → full_slab sl a = true.
Proof.
  intros Hs Hwf Hnone. unfold full_slab. rewrite Hs. apply forallb_forall.
  intros x Hx. apply list_elem_of_In, list_elem_of_lookup in Hx as [k Hk].
  pose proof (lookup_lt_Some _ _ _ Hk) as Hlt.
  destruct (wf_available_slots s Hwf) as [Hlen _].
  rewrite (exhausted_words s (Z.of_nat k) x Hwf Hnone); [done|lia|by rewrite Nat2Z.id].
Qed.

Lemma full_slab_false sl a s p :
  sl !! a = Some s → wf_slab s → position p → avail s p = true → full_slab sl a = false.
Proof.
  intros Hs Hwf Hp Hav. unfold full_slab. rewrite Hs. apply not_true_is_false. intros Hall.
  destruct (pos_split p Hp) as (i & j & -> & Hi & Hj).
  destruct (words_lookup _ i (wf_available_slots s Hwf) Hi) as (x & Hx & _).
  rewrite forallb_forall in Hall.
  assert (x = 0) as ->.
  { symmetry. apply Z.eqb_eq, Hall, list_elem_of_In. by eapply list_elem_of_lookup_2. }
  by rewrite (avail_word_zero s i j Hj Hx) in Hav.
Qed.

(** The fullness of the slabs on a list after a change elsewhere. *)
Lemma work_ext sl sl' l :
  (∀ a, a ∈ l → full_slab sl' a = full_slab sl a) → work sl' l = work sl l.
Proof.
  intros Hext. unfold work. f_equal. f_equal. clear -Hext.
  induction l as [|a l IH]; [done|]. rewrite !filter_cons, (Hext a) by set_solver.
  destruct (decide _); simpl; rewrite IH; try done; intros b Hb; apply Hext; set_solver.
Qed.

Lemma full_slab_same_but_next sl sl' a :
  same_but_next sl sl' → full_slab sl' a = full_slab sl a.
Proof.
  intros Hsl. unfold full_slab. destruct (sl !! a) as [s|] eqn:Hs.
  - destruct (same_but_next_fwd sl sl' a s Hsl Hs) as [n ->]. done.
  - destruct (sl' !! a) as [s'|] eqn:Hs'; [|done].
    destruct (same_but_next_inv sl sl' a s' Hsl Hs') as (n & s & ? & _). congruence.
Qed.

Lemma full_slab_insert_ne sl a b s : b ≠ a → full_slab (<[a := s]> sl) b = full_slab sl b.
Proof. intros Hne. unfold full_slab. by rewrite lookup_insert_ne. Qed.

(** Unlinking a full slab, and sending it on with available blocks. *)
Lemma work_unlink sl sl' a l :
  full_slab sl a = true → (∀ b, b ∈ l → full_slab sl' b = full_slab sl b) →
  (work sl' l < work sl (a :: l))%nat.
Proof.
  intros Hf Hext. rewrite (work_ext sl sl') by done. unfold work.
  rewrite filter_cons_True by done. destruct l; simpl; lia.
Qed.

Lemma work_requeue sl sl' a l :
  full_slab sl a = true → full_slab sl' a = false →
  (∀ b, b ∈ l → full_slab sl' b = full_slab sl b) →
  (work sl' (l ++ [a]) < work sl (a :: l))%nat.
Proof.
  intros Hf Hf' Hext. pose proof (work_ext sl sl' l Hext) as Hw. unfold work in *.
  rewrite filter_cons_True, filter_app, filter_cons_False, filter_nil, app_nil_r by congruence.
  destruct l; simpl in *; lia.
Qed.
End Steps.
