(* ===== verification/AllocatorCorrect.v ===== *)
(** * Correctness of allocation and deallocation

    [_allocate] and [_free] against the invariant of [AllocatorInv]: no
    assertion fails and no memory outside the managers and slabs is touched,
    blocks are handed out at most once, and allocation terminates on a thread
    that stays on its CPU. *)

From S2P Require Import Prelude Bits ConstMath Machine SizeClasses Atomics ObjSlab SlabManager.
From S2P Require Import ObjectAllocator AllocatorInv AllocatorSteps.

Section Correct.
Context (cpu : nat → Z) (Hcpu : ∀ n, 0 ≤ cpu n < NPROCS).
Context (al : object_allocator) (st : Z) (Hal : wf_region al st).

Local Abbreviation WF fl g s := (WF al st fl g s).

(** ** A new slab *)

Lemma live_add_slab g sl a s x bs :
  sl !! a = None → live (add_slab a g) (<[a := s]> sl) x bs ↔ live g sl x bs.
Proof.
  intros Hnone. split; intros (b & q & Hblk & Hsz & Ht).
  - simpl in Ht. destruct (Z.eqb_spec b a) as [->|Hne]; [done|]. exists b, q.
    rewrite lookup_insert_ne in Hsz by done. split; [|done].
    destruct Hblk as (t & Hlk & Hq & Hx). rewrite lookup_insert_ne in Hlk by done. by exists t.
  - destruct (decide (b = a)) as [->|Hne]; [by rewrite Hnone in Hsz|].
    exists b, q. rewrite lookup_insert_ne by done. split_and!; [by apply block_at_other|done|].
    simpl. by rewrite (proj2 (Z.eqb_neq b a) Hne).
Qed.

Lemma wp_new_slab_branch total g s i :
  WF None g s → 0 ≤ i < num_size_classes →
  wp total (new_slab_branch cpu al i)
    (λ again s',
      if again then
        let c := cpu (clock s) in
        ∃ g' a, WF None g' s' ∧ (∀ x b, live g' (slabs s') x b ↔ live g (slabs s) x b) ∧
          lists g' (i, c) = lists g (i, c) ++ [a] ∧ full_slab (slabs s') a = false
      else s' = s ∧ current_slab s = end_ al) s.
Proof.
  intros Hwf Hi. unfold new_slab_branch, out_of_memory. do 2 wp_step.
  destruct (wf_current Hwf) as [Hcur Hmod].
  destruct (Z.leb_spec (end_ al) (current_slab s)) as [Hle|Hlt]; [wp_step; split; [done|lia]|].
  unfold _new. do 7 wp_step. wp_step; [lia|].
  rewrite (proj2 (Z.leb_gt _ _) Hlt).
  destruct (idx_to_size_total i Hi) as [bs Hbs].
  destruct (idx_to_size_bounds i bs Hbs) as [Hbnd _].
  destruct (init_slab_spec bs) as (sa & Hinit & Hwsa & Hsize & Hown & Hnext & Hfs & Hav);
    [slia|].
  pose proof (fresh_slab al st _ g _ _ _ Hwf) as Hfresh.
  wp_step. eapply wp_from_opt; [done|]. do 2 wp_step. simpl. rewrite Hfresh. simpl.
  wp_step. eapply wp_from_opt; [done|]. do 2 wp_step.
  pose proof (region_low al st Hal). pose proof (region_end al st Hal).
  wp_step. wp_step; [lia|]. wp_step. wp_step; [lia|]. wp_step.
  assert (wf al st (Some (current_slab s)) (add_slab (current_slab s) g) (slab_managers s)
    (current_slab s + sizeof_obj_slab) (<[current_slab s := sa]> (slabs s))) as Hwf1.
  { apply wf_new; try done.
    - rewrite Hsize. by exists i.
    - intros p Hp. unfold freed. rewrite Hfs. by apply bit_at_zeros. }
  assert (u64 (current_slab s + sizeof_obj_slab) = current_slab s + sizeof_obj_slab) as Hu.
  { apply wrap_small. destruct (slab_addr al st Hal _ _ _ _ _ Hwf1 (current_slab s) sa)
      as (_ & Hlo & Hhi); [by rewrite lookup_insert_eq|]. unfold is_word. slia. }
  rewrite Hu. eapply wp_mono.
  { apply (wp_send_slab cpu Hcpu al st Hal total (add_slab (current_slab s) g) _ _ sa);
      simpl; try done; [by rewrite lookup_insert_eq|by rewrite Hsize]. }
  simpl. intros _ s' (Hwf' & _ & Hsl & Ha). wp_step.
  eexists _, (current_slab s). split; [done|]. split_and!.
  - intros x b. rewrite (live_same_but_next (add_slab (current_slab s) g) _ _ _ Hsl) by done.
    by apply live_add_slab.
  - simpl. by rewrite decide_True.
  - pose proof (nblocks_bounds sa (wf_block_size sa Hwsa)).
    apply full_slab_false with sa 0; [done|done|unfold position; slia|].
    rewrite Hav by (unfold position; slia). lia.
Qed.

(** ** A full slab *)

Lemma live_reclaim_tags g sl a s s' :
  sl !! a = Some s → block_size s' = block_size s →
  ∀ x b, live (reclaim_tags a g) (<[a := s']> sl) x b ↔ live g sl x b.
Proof.
  intros Hs Hb. apply (live_update_slab g (tags (reclaim_tags a g)) sl a s s' Hs Hb).
  - intros b q Hne. simpl. by rewrite (proj2 (Z.eqb_neq b a) Hne).
  - intros p Hp. simpl. rewrite Z.eqb_refl. simpl. case_bool_decide as Ht; [|done].
    by rewrite Ht.
Qed.

Lemma live_insert_slab g sl a s s' :
  sl !! a = Some s → block_size s' = block_size s →
  ∀ x b, live g (<[a := s']> sl) x b ↔ live g sl x b.
Proof.
  intros Hs Hb x b. rewrite <-(ghost_eta g) at 1. by apply live_update_slab with s.
Qed.

(** [_try_release] and what follows it, on a full slab in flight. *)
Lemma wp_release_or_send total g s i a sa :
  WF (Some a) g s → slabs s !! a = Some sa → state sa = OWNED →
  (∀ p, position p → avail sa p = false) → idx_to_size i = Some (block_size sa) →
  wp total
    (released ← run_slab a _try_release;
     if released =? 0 then
       run_slab a (modify (set_next 0));;
       _send_slab cpu a i;;
       st ← run_slab a (gets state);
       require (st =? OWNED)
     else mret tt)
    (λ _ s', ∃ g', WF None g' s' ∧ (∀ x b, live g' (slabs s') x b ↔ live g (slabs s) x b) ∧
      (∀ b, b ≠ a → full_slab (slabs s') b = full_slab (slabs s) b) ∧
      (g' = g ∨
       lists g' (i, cpu (clock s)) = lists g (i, cpu (clock s)) ++ [a] ∧
       full_slab (slabs s') a = false)) s.
Proof.
  intros Hwf Ha Hown Hnone Hi. destruct (wf_slabs Hwf a sa Ha) as [Hwa _].
  destruct (wf_flight Hwf a eq_refl) as [Hun _].
  wp_step. eapply wp_run_slab; [done|]. eapply wp_mono.
  { apply wp_total, (wp_try_release sa Hwa Hnone Hown). }
  intros ret sa' Hret. destruct (Z.eqb_spec (freed_vecs sa) 0) as [H0|H0]; simpl in Hret.
  - destruct Hret as [-> ->]. wp_step; [done|]. wp_step. exists g. simpl.
    split_and!; [|by apply live_insert_slab with sa| |by left].
    + apply (wf_same_bits al st (Some a) None g _ _ _ a sa); try done.
      * apply wf_slab_set_state; [done|by right].
      * by left.
      * intros ic Hic. by destruct (Hun ic).
      * intros b Hne. split; [done|congruence].
    + intros b Hne. by apply full_slab_insert_ne.
  - destruct Hret as [-> Hrec]. pose proof Hrec as (Hav & _ & _ & Hb & Hst & Hwa').
    cbn [Z.eqb]. wp_step. eapply wp_run_slab; [simpl; by rewrite lookup_insert_eq|]. wp_step.
    simpl. rewrite insert_insert_eq.
    pose proof (wf_reclaimed al st g _ _ _ a sa sa' Hwf Ha Hnone Hrec) as Hwf1.
    assert (wf al st (Some a) (reclaim_tags a g) (slab_managers s) (current_slab s)
      (<[a := set_next 0 sa']> (slabs s))) as Hwf2.
    { rewrite <-(insert_insert_eq (slabs s) a (set_next 0 sa') sa').
      apply (wf_same_bits al st (Some a) (Some a) _ _ _ _ a sa' _ Hwf1); try done.
      - by rewrite lookup_insert_eq.
      - by apply wf_set_next_slab.
      - by right.
      - intros ic Hic. by destruct (Hun ic). }
    wp_step. eapply wp_mono.
    { apply (wp_send_slab cpu Hcpu al st Hal total (reclaim_tags a g) _ a (set_next 0 sa') i);
        simpl; try done; [by rewrite lookup_insert_eq|congruence|by rewrite Hb]. }
    simpl. intros _ s' (Hwf' & _ & Hsl & Ha'). wp_step.
    eapply wp_run_slab_gets; [done|]. wp_step; [simpl; by rewrite Hst, Hown|].
    eexists. split; [done|]. split_and!.
    + intros x b. rewrite (live_same_but_next (reclaim_tags a g) _ _ _ Hsl) by done.
      by apply live_reclaim_tags with sa.
    + intros b Hne. rewrite (full_slab_same_but_next _ _ b Hsl).
      by apply full_slab_insert_ne.
    + right. split; [simpl; by rewrite decide_True|].
      destruct (freed_exists sa Hwa H0) as (p & Hp & Hf).
      apply full_slab_false with (set_next 0 sa') p; [done|by apply wf_set_next_slab|done|].
      change (avail sa' p = true). by rewrite Hav.
Qed.

Lemma wp_full_branch total g s i c a l sa :
  WF None g s → lists g (i, c) = a :: l → slabs s !! a = Some sa →
  (∀ p, position p → avail sa p = false) →
  wp total (full_branch cpu i c a)
    (λ _ s', ∃ g', WF None g' s' ∧ (∀ x b, live g' (slabs s') x b ↔ live g (slabs s) x b) ∧
      ((∀ n, cpu n = c) →
        work (slabs s') (lists g' (i, c)) < work (slabs s) (lists g (i, c)))%nat) s.
Proof.
  intros Hwf Hl Ha Hnone. unfold full_branch. wp_step. eapply wp_mono.
  { by apply (wp_cas cpu Hcpu al st Hal total g s i c a l sa). }
  simpl. intros r s1 [Hsl Hr]. destruct (Z.eqb_spec (cpu (clock s)) c) as [Hc|Hc].
  2: { destruct Hr as [-> ->]. wp_step; [done|]. wp_step. exists g.
       split_and!; [done|done|]. intros Hst. by rewrite Hst in Hc. }
  destruct Hr as (-> & Hwf1 & sm & Hsm & Hh). cbn [Z.eqb].
  destruct (wf_listed Hwf i c a) as (_ & sa' & Ha' & Hi & Hown); [rewrite Hl; set_solver|].
  simplify_eq. assert (full_slab (slabs s) a = true) as Hfull.
  { apply full_slab_true with sa; [done|apply (wf_slabs Hwf a sa Ha)|done]. }
  wp_step. apply wp_get_manager with sm; [done|]. wp_step. wp_step; [lia|].
  rewrite <-Hsl in Ha. wp_step. eapply wp_run_slab_gets; [done|].
  wp_step. wp_step; [by rewrite Hown|]. eapply wp_mono.
  { by apply (wp_release_or_send total _ s1 i a sa Hwf1). }
  simpl. intros _ s' (g' & Hwf' & Hlive & Hfs & Hg). exists g'. split; [done|]. split.
  { intros x b. rewrite Hlive, Hsl. by apply live_ext. }
  intros Hst. rewrite Hl.
  assert (∀ b, b ∈ l → full_slab (slabs s') b = full_slab (slabs s) b) as Hrest.
  { intros b Hb. rewrite <-Hsl. apply Hfs. intros ->.
    destruct (wf_flight Hwf1 a eq_refl) as [Hun _]. apply (Hun (i, cpu (clock s))). simpl.
    by rewrite decide_True. }
  rewrite (Hst (clock s1)) in Hg. destruct Hg as [->|[Hg Hf]].
  - simpl. rewrite decide_True by done. by apply work_unlink.
  - rewrite Hg. simpl. rewrite decide_True by done. by apply work_requeue.
Qed.

(** ** A round of the loop *)

Definition same_live (g : ghost) (s : sys) (g' : ghost) (s' : sys) : Prop :=
  ∀ x b, live g' (slabs s') x b ↔ live g (slabs s) x b.

(** [ptr] is a block of class [i] no client held, and now one does. *)
Definition hands_out (i : Z) (g : ghost) (s : sys) (ptr : Z) (g' : ghost) (s' : sys) : Prop :=
  ∃ sz, idx_to_size i = Some sz ∧ (∀ b, ¬ live g (slabs s) ptr b) ∧
    ∀ x b, live g' (slabs s') x b ↔ (x = ptr ∧ b = sz) ∨ live g (slabs s) x b.

(** [NULL], and then every slab of the region is in use, or a block. *)
Definition returns (i : Z) (g : ghost) (s : sys) (ptr : Z) (g' : ghost) (s' : sys) : Prop :=
  (ptr = 0 ∧ current_slab s' = end_ al ∧ same_live g s g' s') ∨ hands_out i g s ptr g' s'.

(** The address computed from a position is the one of the block. *)
Lemma returned_address fl g s a sa p :
  WF fl g s → slabs s !! a = Some sa → 0 ≤ p < nblocks sa →
  u64 (a + payload_offset + u64 (block_size sa * p)) = block_addr a (block_size sa) p.
Proof.
  intros Hwf Ha Hp. destruct (wf_slabs Hwf a sa Ha) as [Hwa _].
  pose proof (block_offset_bounds sa p Hwa Hp).
  pose proof (wf_block_size sa Hwa).
  destruct (slab_addr al st Hal _ _ _ _ _ Hwf a sa Ha) as (_ & Hlo & Hhi).
  pose proof (region_low al st Hal). pose proof (region_end al st Hal).
  unfold block_addr. rewrite (Z.mul_comm (block_size sa)).
  rewrite (wrap_small 64 (p * block_size sa)) by (unfold is_word; slab_consts; nia).
  apply wrap_small. unfold is_word. slab_consts. nia.
Qed.

Lemma untagged_not_live g s a p x :
  WF None g s → block_at (slabs s) x a p → tags g a p ≠ Live → ∀ b, ¬ live g (slabs s) x b.
Proof.
  intros Hwf Hb Ht b (c & q & Hc & _ & Htag).
  by destruct (block_at_inj al st Hal _ _ _ _ _ Hwf x c q a p Hc Hb) as [-> ->].
Qed.

(** A block taken from a slab is handed out. *)
Lemma took_hands_out g s i a sa p sa' s' :
  WF None g s → slabs s !! a = Some sa → idx_to_size i = Some (block_size sa) →
  took sa p sa' → slabs s' = <[a := sa']> (slabs s) →
  hands_out i g s (block_addr a (block_size sa) p) (set_tag a p Live g) s'.
Proof.
  intros Hwf Ha Hi (Hp & Hav & _ & _ & (_ & Hb & _) & _) Hsl.
  assert (block_at (slabs s) (block_addr a (block_size sa) p) a p) as Hblk by (by exists sa).
  assert (tags g a p = Avail) as Htag by (by apply (wf_tags Hwf a sa p Ha Hp)).
  pose proof (untagged_not_live g s a p _ Hwf Hblk ltac:(congruence)) as Hnew.
  exists (block_size sa). rewrite Hsl. split_and!; [done|done|].
  intros x b. rewrite (live_insert_slab _ (slabs s) a sa sa') by done.
  rewrite (live_set_tag al st Hal _ _ _ _ _ _ _ _ sa Live Hwf Hblk Ha).
  pose proof (Hnew b). destruct (decide (x = block_addr a (block_size sa) p)) as [->|]; tauto.
Qed.

Definition round_post (i : Z) (g : ghost) (s : sys) (r : option Z) (s' : sys) : Prop :=
  ∃ g', WF None g' s' ∧
    match r with
    | Some ptr => returns i g s ptr g' s'
    | None => same_live g s g' s' ∧
        ∀ c, (∀ n, cpu n = c) →
          (work (slabs s') (lists g' (i, c)) < work (slabs s) (lists g (i, c)))%nat
    end.

(** The head of a list that is not empty. *)
Lemma listed_head g s i c sm :
  WF None g s → slab_managers s !! (i, c) = Some sm → available_slabs_head sm ≠ 0 →
  let a := available_slabs_head sm in
  ∃ l sa, lists g (i, c) = a :: l ∧ slabs s !! a = Some sa ∧ wf_slab sa ∧
    idx_to_size i = Some (block_size sa) ∧ a mod sizeof_obj_slab = 0.
Proof.
  intros Hwf Hsm H0. destruct (wf_lists Hwf (i, c) sm Hsm) as (Hch & _).
  destruct (lists g (i, c)) as [|a l] eqn:El; [done|]. apply chain_nonempty in Hch as ->.
  destruct (wf_listed Hwf i c a) as (_ & sa & Ha & Hi & _); [rewrite El; set_solver|].
  exists l, sa. split_and!; try done; [apply (wf_slabs Hwf a sa Ha)|].
  apply (slab_addr al st Hal _ _ _ _ _ Hwf a sa Ha).
Qed.

(** A block is taken from the slab at the head of the list, or the slab is
    full and leaves it. *)
Lemma wp_from_head total g s i k k' a l sa :
  let c := cpu k in
  WF None g s → lists g (i, c) = a :: l → slabs s !! a = Some sa → wf_slab sa →
  idx_to_size i = Some (block_size sa) → a mod sizeof_obj_slab = 0 →
  wp total
    (ret ← run_slab a (ObjSlab._allocate a c (cpu k'));
     if ret <? SUCCESS_BOUND then
       size ← from_opt (idx_to_size i);
       mret (Some (u64 (a + payload_offset + u64 (size * ret))))
     else if negb (ret =? MIGRATED) then
       full_branch cpu i c a;;
       mret None
     else mret None)
    (round_post i g s) s.
Proof.
  intros c Hwf Hl Ha Hwa Hi Hmod. wp_step. eapply wp_run_slab; [done|]. eapply wp_mono.
  { by apply wp_total, (wp_slab_allocate a c (cpu k') sa). }
  simpl. intros ret sa' Hret. destruct (Z.eqb_spec (cpu k') c) as [Hk|Hne].
  2: { destruct Hret as [-> ->]. rewrite insert_id by done.
       change (MIGRATED <? SUCCESS_BOUND) with false. rewrite Z.eqb_refl. cbn [negb]. wp_step.
       exists g. split; [done|]. split; [done|]. intros d Hd. destruct Hne.
       subst c. by rewrite !Hd. }
  destruct Hret as [Htook|(-> & Hnone & Has & Hframe & Hwa')].
  - pose proof Htook as (Hp & _). pose proof (block_position sa ret Hwa Hp) as [_ Hpos].
    change SUCCESS_BOUND with capacity. rewrite (proj2 (Z.ltb_lt _ _) Hpos), Hi.
    wp_step. wp_step; [done|]. wp_step. rewrite (returned_address None g s a sa ret) by done.
    exists (set_tag a ret Live g). split.
    + apply (wf_took al st g _ _ _ (i, c) a sa); try done. rewrite Hl. set_solver.
    + right. by apply took_hands_out with sa'.
  - change (FULL <? SUCCESS_BOUND) with false. change (FULL =? MIGRATED) with false.
    cbn [negb]. destruct Hframe as (Hn & Hb & Hfv & Hst & Hfs).
    assert (wf al st None g (slab_managers s) (current_slab s) (<[a := sa']> (slabs s)))
      as Hwf1.
    { apply (wf_same_bits al st None None g _ _ _ a sa sa' Hwf Ha); try done.
      - by left.
      - intros [j d] Hj. destruct (wf_listed Hwf j d a Hj) as (_ & t & Ht & _ & Ho).
        simplify_eq. by rewrite Hst.
      - intros _ Hun. destruct (Hun (i, c)). rewrite Hl. set_solver. }
    wp_step. eapply wp_mono.
    { apply (wp_full_branch total g (set_slabs (<[a := sa']> (slabs s)) s) i c a l sa' Hwf1 Hl); simpl.
      - by rewrite lookup_insert_eq.
      - intros p Hp. unfold avail. rewrite Has. by apply Hnone. }
    simpl. intros _ s' (g' & Hwf' & Hlive & Hwork). wp_step.
    exists g'. split; [done|]. split.
    + intros x b. rewrite Hlive. by apply live_insert_slab with sa.
    + intros d Hd. assert (c = d) as <- by apply Hd. specialize (Hwork Hd).
      rewrite (work_ext (slabs s) (<[a := sa']> (slabs s))) in Hwork; [done|]. intros b _.
      destruct (decide (b = a)) as [->|Hne]; [|by apply full_slab_insert_ne].
      unfold full_slab. by rewrite lookup_insert_eq, Ha, Has.
Qed.

Lemma wp_allocate_round total g s i :
  WF None g s → 0 ≤ i < num_size_classes →
  wp total (_allocate_round cpu al i) (round_post i g s) s.
Proof.
  intros Hwf Hi. unfold _allocate_round. wp_step. apply wp_read_cpu.
  pose proof (Hcpu (clock s)) as Hc. wp_step. wp_step; [lia|].
  destruct (manager_at al st None g s i (cpu (clock s)) Hwf Hi Hc) as [sm Hsm].
  wp_step. apply wp_get_manager with sm; [done|].
  destruct (wf_lists Hwf _ sm Hsm) as (_ & _ & _ & Htail).
  destruct (Z.eqb_spec (available_slabs_head sm) 0) as [H0|H0].
  - wp_step. wp_step; [by rewrite H0|]. wp_step. wp_step; [lia|]. wp_step. eapply wp_mono.
    { by apply (wp_new_slab_branch total g (tick s) i). }
    simpl. intros [] s' Hs'; wp_step.
    + destruct Hs' as (g' & a & Hwf' & Hlive & Hl & Hf). exists g'. split; [done|].
      split; [done|]. intros c Hst. rewrite !Hst in Hl. rewrite Hst in Hsm.
      rewrite Hl, (head_zero al st Hal _ _ _ _ _ Hwf _ sm Hsm H0). unfold work. simpl.
      rewrite filter_cons_False by congruence. simpl. lia.
    + destruct Hs' as [-> Hend]. exists g. split; [done|]. left. done.
  - destruct (listed_head g s i _ sm Hwf Hsm H0) as (l & sa & Hl & Ha & Hwa & Hsz & Hmod).
    wp_step. wp_step; [lia|]. wp_step. wp_step; [lia|]. wp_step. apply wp_read_cpu.
    by apply (wp_from_head total g (tick (tick s)) i (clock s) (clock (tick s)) _ l sa).
Qed.

(** ** The loop *)

Lemma returns_after i g s g1 s1 ptr g' s' :
  same_live g s g1 s1 → returns i g1 s1 ptr g' s' → returns i g s ptr g' s'.
Proof.
  intros Hsame [(-> & Hend & Hlive)|(sz & Hsz & Hnew & Hlive)]; [left|right].
  - split_and!; [done|done|]. intros x b. by rewrite (Hlive x b), (Hsame x b).
  - exists sz. split_and!; [done|intros b; by rewrite <-(Hsame ptr b)|].
    intros x b. by rewrite (Hlive x b), (Hsame x b).
Qed.

(** On a thread that stays on CPU [c], [work] rounds are enough. *)
Lemma wp_allocate_inner total fuel g s i :
  WF None g s → 0 ≤ i < num_size_classes →
  (total = true →
    ∃ c, (∀ n, cpu n = c) ∧ (work (slabs s) (lists g (i, c)) < fuel)%nat) →
  wp total (_allocate_inner cpu al fuel i)
    (λ ptr s', ∃ g', WF None g' s' ∧ returns i g s ptr g' s') s.
Proof.
  intros Hwf Hi. revert g s Hwf. induction fuel as [|fuel IH]; intros g s Hwf Htot.
  { unfold wp. simpl. destruct total; [|done]. destruct Htot as (c & _ & ?); [done|lia]. }
  simpl. wp_step. eapply wp_mono; [by apply wp_allocate_round|].
  simpl. intros [ptr|] s1 (g1 & Hwf1 & Hr).
  - wp_step. by exists g1.
  - destruct Hr as [Hsame Hwork]. eapply wp_mono; [apply (IH g1 s1 Hwf1)|].
    + intros (c & Hst & Hlt)%Htot. exists c. split; [done|]. specialize (Hwork c Hst). lia.
    + simpl. intros ptr s' (g' & Hwf' & Hret). exists g'. split; [done|].
      by apply returns_after with g1 s1.
Qed.

Lemma work_bound g s i c :
  WF None g s → (work (slabs s) (lists g (i, c)) ≤ 2 * size (slabs s) + 1)%nat.
Proof.
  intros Hwf. assert (length (lists g (i, c)) ≤ size (slabs s))%nat as Hlen.
  { destruct (lists g (i, c)) as [|a l] eqn:El; [simpl; lia|].
    destruct (wf_listed Hwf i c a) as [[sm Hsm] _]; [rewrite El; set_solver|].
    destruct (wf_lists Hwf (i, c) sm Hsm) as (_ & Hnd & _). rewrite <-El.
    rewrite <-(size_list_to_set (C := gset Z) (lists g (i, c))) by done.
    rewrite <-(size_dom (slabs s)). apply subseteq_size. intros b Hb.
    apply elem_of_list_to_set in Hb. apply elem_of_dom.
    destruct (wf_listed Hwf i c b Hb) as (_ & sb & -> & _). by eexists. }
  unfold work. pose proof (length_filter (λ a, full_slab (slabs s) a = true) (lists g (i, c))).
  destruct (lists g (i, c)); simpl in *; lia.
Qed.

(** ** [_allocate] *)

Lemma pop_hands_out g s i x a p sa s' :
  WF None g s → block_at (slabs s') x a p → slabs s' !! a = Some sa →
  idx_to_size i = Some (block_size sa) → tags g a p ≠ Live → slabs s' = slabs s →
  hands_out i g s x (set_tag a p Live g) s'.
Proof.
  intros Hwf Hb Ha Hi Ht Hsl. exists (block_size sa). rewrite Hsl in *.
  pose proof (untagged_not_live g s a p x Hwf Hb Ht) as Hnew.
  split_and!; [done|done|]. intros y b.
  rewrite (live_set_tag al st Hal _ _ _ _ _ _ _ _ sa Live Hwf Hb Ha).
  pose proof (Hnew b). destruct (decide (y = x)) as [->|]; tauto.
Qed.

Lemma wp_allocate total fuel g s sz :
  WF None g s → served sz →
  (total = true → (∃ c, ∀ n, cpu n = c) ∧ (2 * size (slabs s) + 1 < fuel)%nat) →
  wp total (_allocate cpu al fuel sz)
    (λ ptr s', ∃ g', WF None g' s' ∧ returns (size_to_idx sz) g s ptr g' s') s.
Proof.
  intros Hwf Hsz Htot. pose proof (size_to_idx_range sz Hsz) as Hi. unfold _allocate.
  change (1 ≪ _log_sizeof_slab_manager) with 128. wp_step. eapply wp_mono.
  { by apply (wp_try_pop cpu Hcpu al st Hal total g s). }
  simpl. intros ret s1 [_ [[-> ->]|(a & p & sa & Hb & Ha & Hsa & Ht & Hsl & Hwf1)]].
  - change (128 <? 0) with false. eapply wp_mono; [apply (wp_allocate_inner total fuel g)|];
      [done|done| |done].
    intros [[c Hc] Hf]%Htot. exists c. split; [done|].
    pose proof (work_bound g s (size_to_idx sz) c Hwf). simpl. lia.
  - destruct (block_at_range al st Hal _ _ _ _ _ Hwf1 ret a p Hb) as [Hr _].
    pose proof (region_low al st Hal). rewrite (proj2 (Z.ltb_lt 128 ret)) by lia. wp_step.
    eexists. split; [done|]. right. by apply pop_hands_out with sa.
Qed.

(** ** [_free] *)

Definition takes_back (g : ghost) (s : sys) (x : Z) (g' : ghost) (s' : sys) : Prop :=
  ∀ y b, live g' (slabs s') y b ↔ live g (slabs s) y b ∧ y ≠ x.

Lemma word_clear_unfreed s p :
  wf_slab s → position p → freed_vecs s = 0 → word_clear s p = true.
Proof.
  intros Hwf Hp H0. unfold word_clear.
  assert (0 ≤ p / 64 < 64) as Hi.
  { unfold position in Hp. split; [apply Z.div_pos|apply Z.div_lt_upper_bound]; slia. }
  destruct (words_lookup _ _ (wf_freed_slots s Hwf) Hi) as (x & Hx & _). rewrite Hx.
  destruct (Z.eqb_spec x 0) as [|Hx0]; [done|].
  apply (wf_freed_summary s Hwf _ x Hi Hx) in Hx0. by rewrite H0, Z.bits_0 in Hx0.
Qed.

(** A slab that was released becomes owned again by the thread that frees
    into it first. *)
Lemma wp_take_ownership total g s i a sa :
  WF (Some a) g s → slabs s !! a = Some sa → state sa = UNOWNED →
  idx_to_size i = Some (block_size sa) →
  wp total
    (won ← run_slab a _set_owned;
     if negb (won =? 0) then
       st ← run_slab a (gets state);
       require (st =? OWNED);;
       run_slab a (modify (set_next 0));;
       _send_slab cpu a i
     else mret tt)
    (λ _ s', ∃ g', WF None g' s' ∧ same_live g s g' s') s.
Proof.
  intros Hwf Ha Hun Hi. destruct (wf_slabs Hwf a sa Ha) as [Hwa _].
  destruct (wf_flight Hwf a eq_refl) as [Hul _].
  wp_step. eapply wp_run_slab; [done|]. eapply wp_mono; [by apply wp_total, wp_set_owned|].
  simpl. intros won sa' [-> ->]. rewrite Hun. cbn [Z.eqb UNOWNED negb].
  wp_step. eapply wp_run_slab_gets; [simpl; by rewrite lookup_insert_eq|]. wp_step.
  wp_step; [done|]. wp_step. eapply wp_run_slab; [simpl; by rewrite lookup_insert_eq|].
  wp_step. simpl. rewrite insert_insert_eq. set (sb := set_next 0 (set_state OWNED sa)).
  assert (wf_slab sb) as Hwb by (apply wf_set_next_slab, wf_slab_set_state; [done|by left]).
  assert (wf al st (Some a) g (slab_managers s) (current_slab s) (<[a := sb]> (slabs s)))
    as Hwf1.
  { apply (wf_same_bits al st (Some a) (Some a) g _ _ _ a sa sb Hwf Ha); try done. by right. }
  eapply wp_mono.
  { apply (wp_send_slab cpu Hcpu al st Hal total g _ a sb i); simpl; try done.
    by rewrite lookup_insert_eq. }
  simpl. intros _ s' (Hwf' & _ & Hsl & _). eexists. split; [done|]. intros x b.
  rewrite (live_same_but_next g _ _ _ Hsl) by done. by apply live_insert_slab with sa.
Qed.

(** The block goes back to its slab: the cache of the CPU was full. *)
Lemma wp_free_to_slab total g s i x a p sa :
  WF None g s → block_at (slabs s) x a p → slabs s !! a = Some sa → tags g a p = Live →
  idx_to_size i = Some (block_size sa) →
  wp total
    (unowned ← run_slab a (ObjSlab._free (u64 (x - a)));
     if negb (unowned =? 0) then
       won ← run_slab a _set_owned;
       if negb (won =? 0) then
         st ← run_slab a (gets state);
         require (st =? OWNED);;
         run_slab a (modify (set_next 0));;
         _send_slab cpu a i
       else mret tt
     else mret tt)
    (λ _ s', ∃ g', WF None g' s' ∧ takes_back g s x g' s') s.
Proof.
  intros Hwf Hb Ha Ht Hi. pose proof Hb as (sa' & Ha' & Hp & Hx). simplify_eq.
  destruct (wf_slabs Hwf a sa Ha) as [Hwa _]. pose proof (block_position sa p Hwa Hp) as Hpos.
  pose proof (block_offset_bounds sa p Hwa Hp) as Hoff. pose proof (wf_block_size sa Hwa).
  assert (u64 (block_addr a (block_size sa) p - a) = payload_offset + p * block_size sa + 0)
    as ->.
  { unfold block_addr. rewrite wrap_small; [lia|]. unfold is_word. slia. }
  assert (∀ s' sa'', slabs s' = <[a := sa'']> (slabs s) → block_size sa'' = block_size sa →
    takes_back g s (block_addr a (block_size sa) p) (set_tag a p Freed g) s') as Hback.
  { intros s' sa'' Hsl Hbs y b. rewrite Hsl, (live_insert_slab _ _ a sa sa'') by done.
    rewrite (live_set_tag al st Hal _ _ _ _ _ _ _ _ sa Freed Hwf Hb Ha).
    split; [intros [(_ & _ & ?)|[? ?]]; done|]. intros [? ?]. by right. }
  wp_step. eapply wp_run_slab; [done|]. eapply wp_mono.
  { apply wp_total, wp_slab_free; [done|done|lia]. }
  simpl. intros ret sb [Hgb ->]. pose proof Hgb as (_ & (_ & Hbs & Hst & _) & _).
  destruct (wf_state sa Hwa) as [Hown|Hun].
  - rewrite Hown, andb_false_r. cbn. eexists. split; [|by apply (Hback _ sb)].
    apply (wf_gave_back al st None g _ _ _ a sa p sb); try done. split; [done|].
    intros Hul. destruct (wf_unlisted Hwf a sa Ha) as (Hst' & _); [done|done|].
    rewrite Hown in Hst'. done.
  - assert (unlisted g a) as Hul.
    { intros [j d] Hj. destruct (wf_listed Hwf j d a Hj) as (_ & t & Hlk & _ & Ho).
      simplify_eq. rewrite Hun in Ho. done. }
    destruct (wf_unlisted Hwf a sa Ha) as (_ & _ & Hfv); [done|done|].
    rewrite (word_clear_unfreed sa p) by done. rewrite Hun. cbn [Z.eqb UNOWNED andb Z.b2z negb].
    assert (wf al st (Some a) (set_tag a p Freed g) (slab_managers s) (current_slab s)
      (<[a := sb]> (slabs s))) as Hwf1.
    { apply (wf_gave_back al st (Some a) g _ _ _ a sa p sb); try done. by intros b [= ->]. }
    eapply wp_mono.
    { apply (wp_take_ownership total (set_tag a p Freed g)
        (set_slabs (<[a := sb]> (slabs s)) s) i a sb Hwf1);
        [simpl; by rewrite lookup_insert_eq|congruence|by rewrite Hbs]. }
    simpl. intros _ s' (g' & Hwf' & Hsame). exists g'. split; [done|]. intros y b.
    rewrite (Hsame y b). by apply (Hback (set_slabs (<[a := sb]> (slabs s)) s) sb).
Qed.

Lemma wp_free total g s x bs :
  WF None g s → live g (slabs s) x bs →
  wp total (_free cpu x) (λ _ s', ∃ g', WF None g' s' ∧ takes_back g s x g' s') s.
Proof.
  intros Hwf (a & p & Hb & _ & Ht). pose proof Hb as (sa & Ha & Hp & Hx).
  destruct (wf_slabs Hwf a sa Ha) as [Hwa [i Hi]].
  destruct (slab_addr al st Hal _ _ _ _ _ Hwf a sa Ha) as (Hmod & _ & _).
  pose proof (slab_addr_nonzero al st Hal _ _ _ _ _ Hwf a sa Ha).
  pose proof (wf_block_size sa Hwa).
  assert (addr_to_slab x = a) as Hslab.
  { rewrite Hx, <-(Z.add_0_r (block_addr _ _ _)). by apply addr_to_slab_block; try lia. }
  unfold _free. rewrite Hslab. wp_step. eapply wp_run_slab_gets; [done|].
  rewrite (size_to_idx_class i _ Hi). wp_step. eapply wp_mono.
  { by apply (wp_try_push cpu Hcpu al st total g s x i a p sa). }
  simpl. intros ret s1 (_ & Hsl & [[-> ->]|(-> & c & k & Hwf1)]).
  - cbn [Z.eqb]. wp_step. wp_step; [lia|].
    by apply (wp_free_to_slab total g (tick s) i x a p sa).
  - cbn [Z.eqb]. wp_step. eexists. split; [done|]. intros y b. rewrite Hsl.
    rewrite (live_set_tag al st Hal _ _ _ _ _ _ _ _ sa (Cached i c k) Hwf Hb Ha).
    split; [intros [(_ & _ & ?)|[? ?]]; done|]. intros [? ?]. by right.
Qed.
End Correct.
