(* ===== verification/AllocatorSpec.v ===== *)
(** * What the allocator promises its clients

    The constructor, the abstract allocator (which addresses are held, and for
    which requests), and the proof that every sequence of calls clients make
    refines it.  Calls of several threads are covered as long as they do not
    overlap: the CPU of each step is arbitrary. *)

From S2P Require Import Prelude Bits ConstMath Machine SizeClasses Atomics ObjSlab SlabManager.
From S2P Require Import ObjectAllocator AllocatorInv AllocatorSteps AllocatorCorrect.

(** ** Construction *)

(** No slab, so no block: the tags say nothing. *)
Definition initial : ghost := mk_ghost (λ _, []) (λ _ _, Live).

Lemma fst_pair_fmap {A B} (b : B) (l : list A) : ((λ a, (a, b)) <$> l).*1 = l.
Proof. induction l as [|a l IH]; [done|]. by f_equal/=. Qed.

Lemma zero_managers_lookup i c :
  zero_managers !! (i, c) =
    if decide (0 ≤ i < num_size_classes ∧ 0 ≤ c < NPROCS) then Some zero_manager else None.
Proof.
  unfold zero_managers. case_decide as Hic.
  - apply elem_of_list_to_map_1.
    + rewrite fst_pair_fmap. apply (bool_decide_unpack _). by vm_compute.
    + apply list_elem_of_fmap. exists (i, c). split; [done|]. apply list_elem_of_bind.
      exists i. split; [|apply elem_of_seqZ; lia]. apply list_elem_of_fmap. exists c.
      split; [done|]. apply elem_of_seqZ. lia.
  - apply not_elem_of_list_to_map_1. intros Hin. apply Hic.
    rewrite fst_pair_fmap in Hin.
    apply list_elem_of_bind in Hin as (j & Hin & Hj%elem_of_seqZ).
    apply list_elem_of_fmap in Hin as (d & [= -> ->] & Hd%elem_of_seqZ). lia.
Qed.

Lemma initial_wf al st :
  wf_region al st → wf al st None initial zero_managers st ∅.
Proof.
  intros Hal. pose proof (region_le al st Hal).
  assert (∀ i c sm, zero_managers !! (i, c) = Some sm → sm = zero_manager) as Hz.
  { intros i c sm. rewrite zero_managers_lookup. case_decide; congruence. }
  assert (∀ i c, is_Some (zero_managers !! (i, c)) ↔
    0 ≤ i < num_size_classes ∧ 0 ≤ c < NPROCS) as Hdom.
  { intros i c. rewrite zero_managers_lookup. case_decide; split; try done; by intros []. }
  revert Hz Hdom. generalize zero_managers as ms. intros ms Hz Hdom.
  constructor; try done.
  - split; [lia|]. apply Hal.
  - intros a. rewrite lookup_empty. split; [by intros []|]. lia.
  - intros [i c] sm ->%Hz. simpl. split_and!; [done|constructor|done|done].
  - by intros i c a ?%not_elem_of_nil.
  - by intros ic jd a ?%not_elem_of_nil.
  - intros i c sm ->%Hz. split; [done|]. simpl. split; [done|]. lia.
Qed.

Lemma new_layout_wf t al st :
  wf_region al st →
  new_layout t (m al) = Some (mk_sys t zero_managers st ∅).
Proof.
  intros Hal. unfold new_layout. rewrite (region_start al st Hal). simpl.
  rewrite (region_start_mod al st Hal). done.
Qed.

(** Where the slabs of a region of [rs] bytes at [mem] are. *)
Lemma new_allocator_fits mem rs st :
  0 ≤ mem → mem + rs < 2 ^ 64 → mem + sizeof_memory_layout + sizeof_obj_slab ≤ 2 ^ 64 →
  calculate_start (mem + sizeof_memory_layout) = Some st → st - mem ≤ rs →
  ∃ al, new_allocator mem rs = Some (al, mk_sys 0 zero_managers st ∅) ∧
    wf_region al st ∧ m al = mem ∧
    mem + sizeof_memory_layout ≤ st < mem + sizeof_memory_layout + sizeof_obj_slab ∧
    mem + rs - sizeof_obj_slab < end_ al ≤ mem + rs.
Proof.
  assert (sizeof_memory_layout = 11392) as Hl by done.
  assert (sizeof_obj_slab = 34048) as Hs by done. unfold calculate_start. rewrite Hl, Hs.
  intros Hm Hr Hlay Hst Hrs.
  destruct (roundup_spec 64 (mem + 11392) 34048) as (st' & Hst' & Hlo & Hmod);
    [unfold is_word; lia..|]. assert (st' = st) as -> by congruence. clear Hst'.
  destruct (rounddown_spec 64 (rs - 11392 - (st - (mem + 11392))) 34048)
    as (d & Hd & Hdlo & Hd0 & Hdmod); [unfold is_word; lia..|].
  assert ((st + d) mod 34048 = 0) as Hemod.
  { by rewrite Z.add_mod, Hmod, Hdmod by done. }
  assert (new_allocator mem rs = Some (mk_allocator mem (st + d) rs, mk_sys 0 zero_managers st ∅))
    as Hnew.
  { unfold new_allocator, calculate_end, new_layout, calculate_start. rewrite Hl, Hs.
    rewrite (wrap_small 64 (mem + 11392)), (wrap_small 64 (rs - 11392)) by (unfold is_word; lia).
    rewrite Hst. cbn [mbind option_bind assert_opt Z.eqb]. rewrite (wrap_small 64 (st - (mem + 11392))) by (unfold is_word; lia).
    rewrite (proj2 (Z.leb_le (mem + 11392) st)) by lia. cbn [mbind option_bind assert_opt Z.eqb]. rewrite Hmod. cbn [mbind option_bind assert_opt Z.eqb].
    rewrite (wrap_small 64 (rs - 11392 - (st - (mem + 11392)))) by (unfold is_word; lia).
    rewrite Hd. cbn [mbind option_bind assert_opt Z.eqb]. rewrite Hdmod. cbn [mbind option_bind assert_opt Z.eqb].
    rewrite (wrap_small 64 (st + d)) by (unfold is_word; lia). by rewrite Hemod. }
  exists (mk_allocator mem (st + d) rs). split; [done|]. split_and!; simpl; try lia.
  constructor; simpl; unfold calculate_start; rewrite ?Hl, ?Hs; try lia.
  by rewrite (wrap_small 64 (mem + 11392)) by (unfold is_word; lia).
Qed.

Lemma new_allocator_region mem rs :
  0 ≤ mem → mem + rs < 2 ^ 64 → sizeof_memory_layout + sizeof_obj_slab ≤ rs →
  ∃ al st, new_allocator mem rs = Some (al, mk_sys 0 zero_managers st ∅) ∧
    wf_region al st ∧ m al = mem ∧
    mem + sizeof_memory_layout ≤ st < mem + sizeof_memory_layout + sizeof_obj_slab ∧
    mem + rs - sizeof_obj_slab < end_ al ≤ mem + rs.
Proof.
  intros Hm Hr Hrs.
  assert (sizeof_memory_layout = 11392) as Hl by done.
  assert (sizeof_obj_slab = 34048) as Hs by done.
  destruct (roundup_spec 64 (mem + sizeof_memory_layout) sizeof_obj_slab)
    as (st & Hst & Hb & _); [unfold is_word; lia..|].
  destruct (new_allocator_fits mem rs st) as (al & H); [done || lia..|]. eauto.
Qed.

(** ** Client histories

    The states clients can bring an allocator to, with what they hold: the
    blocks by address, each with the size it was requested with.  Clients
    request sizes there is a class for and free what they hold. *)

Inductive heap (cpu : nat → Z) : object_allocator → sys → gmap Z Z → Prop :=
  | heap_new mem rs al s :
      0 ≤ mem → mem + rs < 2 ^ 64 → sizeof_memory_layout + sizeof_obj_slab ≤ rs →
      new_allocator mem rs = Some (al, s) → heap cpu al s ∅
  | heap_allocate al s held fuel sz ptr s' :
      heap cpu al s held → served sz → _allocate cpu al fuel sz s = Done (ptr, s') →
      heap cpu al s' (if ptr =? 0 then held else <[ptr := sz]> held)
  | heap_free al s held x s' :
      heap cpu al s held → is_Some (held !! x) → _free cpu x s = Done (tt, s') →
      heap cpu al s' (delete x held)
  | heap_reset al s held s' :
      heap cpu al s held → reset al s = Done (tt, s') → heap cpu al s' ∅.

(** The requests clients hold are the live blocks. *)
Definition holds (g : ghost) (s : sys) (held : gmap Z Z) : Prop :=
  map_Forall (λ _ sz, served sz) held ∧
  ∀ x b, live g (slabs s) x b ↔
    ∃ sz, held !! x = Some sz ∧ idx_to_size (size_to_idx sz) = Some b.

Lemma live_range al st g s x b :
  wf_region al st → WF al st None g s → live g (slabs s) x b → st < x ∧ x + b ≤ end_ al.
Proof.
  intros Hal Hwf (a & p & (sa & Ha & Hp & ->) & Hb & _). rewrite Ha in Hb. simplify_eq/=.
  destruct (wf_slabs Hwf a sa Ha) as [Hwa _]. pose proof (wf_block_size sa Hwa) as Hbs.
  destruct (slab_addr al st Hal _ _ _ _ _ Hwf a sa Ha) as (_ & Hlo & Hhi).
  destruct (block_in_payload sa p Hbs Hp). unfold block_addr. slia.
Qed.

Lemma holds_live g s held x sz :
  holds g s held → held !! x = Some sz →
  served sz ∧ ∃ b, live g (slabs s) x b ∧ sz ≤ b.
Proof.
  intros [Hserved Hh] Hx. pose proof (Hserved x sz Hx) as Hsz. split; [done|].
  destruct (size_to_idx_fits sz Hsz) as (b & Hb & Hle). exists b. split; [|done].
  apply Hh. eauto.
Qed.

Lemma holds_hands_out g s held sz ptr g' s' :
  holds g s held → served sz → hands_out (size_to_idx sz) g s ptr g' s' →
  held !! ptr = None ∧ holds g' s' (<[ptr := sz]> held).
Proof.
  intros Hh Hsz (bs & Hbs & Hnew & Hlive).
  assert (held !! ptr = None) as Hnone.
  { destruct (held !! ptr) as [n|] eqn:E; [|done].
    destruct (holds_live g s held ptr n Hh E) as (_ & b & Hb & _). by destruct (Hnew b). }
  destruct Hh as [Hserved Hh]. split; [done|]. split; [by apply map_Forall_insert_2|].
  intros x b. rewrite Hlive, (Hh x b).
  destruct (decide (x = ptr)) as [->|Hne].
  - rewrite lookup_insert_eq, Hnone. naive_solver.
  - rewrite lookup_insert_ne by done. naive_solver.
Qed.

Lemma holds_takes_back g s held x g' s' :
  holds g s held → takes_back g s x g' s' → holds g' s' (delete x held).
Proof.
  intros [Hserved Hh] Hback. split; [by apply map_Forall_delete|].
  intros y b. rewrite (Hback y b), (Hh y b).
  destruct (decide (y = x)) as [->|Hne].
  - rewrite lookup_delete_eq. naive_solver.
  - rewrite lookup_delete_ne by done. naive_solver.
Qed.

Lemma holds_same g s held g' s' : holds g s held → same_live g s g' s' → holds g' s' held.
Proof. intros [Hserved Hh] Hsame. split; [done|]. intros x b. by rewrite (Hsame x b). Qed.

Lemma holds_initial s : slabs s = ∅ → holds initial s ∅.
Proof.
  intros Hs. split; [apply map_Forall_empty|]. intros x b. rewrite Hs. split.
  - intros (a & p & (sa & Ha & _) & _). by rewrite lookup_empty in Ha.
  - intros (sz & Hx & _). by rewrite lookup_empty in Hx.
Qed.

(** The address a client gets is never that of a block at [NULL]. *)
Lemma hands_out_nonzero al st i g s ptr g' s' :
  wf_region al st → WF al st None g' s' → hands_out i g s ptr g' s' → ptr ≠ 0.
Proof.
  intros Hal Hwf (b & _ & _ & Hlive).
  assert (live g' (slabs s') ptr b) as Hl by (apply Hlive; auto).
  pose proof (live_range al st g' s' ptr b Hal Hwf Hl). pose proof (region_low al st Hal). lia.
Qed.

Section Histories.
Context (cpu : nat → Z) (Hcpu : ∀ n, 0 ≤ cpu n < NPROCS).

(** Every history keeps the invariant. *)
Lemma heap_wf al s held :
  heap cpu al s held → ∃ st g, wf_region al st ∧ WF al st None g s ∧ holds g s held.
Proof.
  induction 1 as [mem rs al s Hm Hr Hrs Hnew|al s held fuel sz ptr s' _ IH Hsz Hrun
    |al s held x s' _ IH Hx Hrun|al s held s' _ IH Hrun].
  - destruct (new_allocator_region mem rs Hm Hr Hrs) as (al' & st & Hnew' & Hal & _).
    simplify_eq. exists st, initial. split_and!; [done|by apply initial_wf|].
    by apply holds_initial.
  - destruct IH as (st & g & Hal & Hwf & Hh).
    destruct (wp_done false _ _ s ptr s' Hrun
      (wp_allocate cpu Hcpu al st Hal false fuel g s sz Hwf Hsz ltac:(done)))
      as (g' & Hwf' & [(-> & _ & Hsame)|Hout]).
    + exists st, g'. split_and!; try done. by apply holds_same with g s.
    + exists st, g'. split_and!; try done.
      rewrite (proj2 (Z.eqb_neq ptr 0)) by (by eapply hands_out_nonzero).
      by apply holds_hands_out with g s.
  - destruct IH as (st & g & Hal & Hwf & Hh). destruct Hx as [sz Hx].
    destruct (holds_live g s held x sz Hh Hx) as (_ & b & Hb & _).
    destruct (wp_done false _ _ s tt s' Hrun (wp_free cpu Hcpu al st Hal false g s x b Hwf Hb))
      as (g' & Hwf' & Hback).
    exists st, g'. split_and!; try done. by apply holds_takes_back with g s.
  - destruct IH as (st & g & Hal & Hwf & Hh). unfold reset in Hrun.
    rewrite (new_layout_wf _ al st Hal) in Hrun. simplify_eq.
    exists st, initial. split_and!; [done|by apply initial_wf|by apply holds_initial].
Qed.
End Histories.
