(* ===== verification/AllocatorTheorems.v ===== *)
(** * Theorems about the allocator

    The properties of [object_allocator] over all client histories, in terms
    of the program's state and calls only. *)

From S2P Require Import Prelude Bits ConstMath Machine SizeClasses Atomics ObjSlab SlabManager.
From S2P Require Import ObjectAllocator AllocatorInv AllocatorSteps AllocatorCorrect.
From S2P Require Import AllocatorSpec.

(** ** Live blocks do not overlap *)

Definition disjoint_blocks (x n y n' : Z) : Prop := x + n ≤ y ∨ y + n' ≤ x.

Lemma multiples_apart a b n : 0 < n → a mod n = 0 → b mod n = 0 → a < b → a + n ≤ b.
Proof.
  intros Hn Ha Hb Hlt. apply Z.mod_divide in Ha as [k ->]; [|lia].
  apply Z.mod_divide in Hb as [j ->]; [|lia].
  assert (k < j) by (by apply Z.mul_lt_mono_pos_r with n). nia.
Qed.

Lemma live_disjoint al st g s x b y b' :
  wf_region al st → WF al st None g s → live g (slabs s) x b → live g (slabs s) y b' →
  x ≠ y → disjoint_blocks x b y b'.
Proof.
  intros Hal Hwf (a & p & Hx & Hb & _) (c & q & Hy & Hb' & _) Hne.
  destruct Hx as (sa & Ha & Hp & ->), Hy as (sc & Hc & Hq & ->).
  rewrite Ha in Hb. rewrite Hc in Hb'. simplify_eq/=.
  destruct (wf_slabs Hwf a sa Ha) as [Hwa _], (wf_slabs Hwf c sc Hc) as [Hwc _].
  pose proof (wf_block_size sa Hwa). pose proof (wf_block_size sc Hwc).
  unfold disjoint_blocks, block_addr in *.
  destruct (decide (a = c)) as [->|Hac].
  { simplify_eq. destruct (Z.lt_total p q) as [?|[->|?]]; [left; nia|done|right; nia]. }
  destruct (block_in_payload sa p) as [? ?]; [done..|].
  destruct (block_in_payload sc q) as [? ?]; [done..|].
  destruct (slab_addr al st Hal _ _ _ _ _ Hwf a sa Ha) as (Hma & _ & _).
  destruct (slab_addr al st Hal _ _ _ _ _ Hwf c sc Hc) as (Hmc & _ & _).
  destruct (Z.lt_total a c) as [Hlt|[?|Hlt]]; [|done|].
  - pose proof (multiples_apart a c sizeof_obj_slab ltac:(done) Hma Hmc Hlt). slia.
  - pose proof (multiples_apart c a sizeof_obj_slab ltac:(done) Hmc Hma Hlt). slia.
Qed.

Lemma live_valid al st g s x b :
  wf_region al st → WF al st None g s → live g (slabs s) x b →
  _valid_addr al x = Some tt ∧ in_range al x = true ∧ x mod 8 = 0.
Proof.
  intros Hal Hwf (a & p & Hx & Hb & _).
  destruct (block_at_range al st Hal _ _ _ _ _ Hwf x a p Hx) as [[Hlo Hhi] Hoff].
  pose proof (region_m al st Hal). pose proof (region_low al st Hal). split_and!.
  - unfold _valid_addr. rewrite (proj2 (Z.eqb_neq x 0)) by lia.
    rewrite (proj2 (Z.leb_le _ _) Hoff), (region_start al st Hal). simpl.
    rewrite (proj2 (Z.ltb_lt _ _) Hlo). simpl. by rewrite (proj2 (Z.ltb_lt _ _) Hhi).
  - unfold in_range. rewrite (proj2 (Z.ltb_lt _ _) Hhi), (proj2 (Z.ltb_lt (m al) x)) by lia. done.
  - destruct Hx as (sa & Ha & _ & ->). destruct (wf_slabs Hwf a sa Ha) as [_ [i Hi]].
    destruct (idx_to_size_bounds i _ Hi) as [_ H8].
    destruct (slab_addr al st Hal _ _ _ _ _ Hwf a sa Ha) as (Hm & _ & _).
    apply Z.mod_divide in Hm as [k ->]; [|done]. apply Z.mod_divide in H8 as [j ->]; [|done].
    unfold block_addr. apply Z.mod_divide; [done|]. slab_consts. exists (4256 * k + 160 + p * j).
    change sizeof_obj_slab with 34048. lia.
Qed.

(** ** Where blocks and slabs are *)

(** Entry [k] of the cache of class [i] and CPU [c] holds [x]. *)
Definition cached_at (s : sys) (x i c k : Z) : Prop :=
  ∃ sm, slab_managers s !! (i, c) = Some sm ∧ 0 ≤ k < current_idx (fc sm) ∧
    ptrs (fc sm) !! Z.to_nat k = Some x.

(** The slab at [a] is on the list of class [i] and CPU [c]. *)
Definition listed_at (s : sys) (a i c : Z) : Prop :=
  ∃ sm l, slab_managers s !! (i, c) = Some sm ∧
    chain (slabs s) (available_slabs_head sm) l ∧ a ∈ l.

(** Block [p] of the slab at [a] is available, or freed in its slab, or in one
    entry of one cache, or held by a client, and only one of these. *)
Definition one_place (s : sys) (held : gmap Z Z) (a : Z) (sa : obj_slab) (p : Z) : Prop :=
  let x := block_addr a (block_size sa) p in
  (avail sa p = true ∧ freed sa p = false ∧ (∀ i c k, ¬ cached_at s x i c k) ∧
    held !! x = None) ∨
  (avail sa p = false ∧ freed sa p = true ∧ (∀ i c k, ¬ cached_at s x i c k) ∧
    held !! x = None) ∨
  (avail sa p = false ∧ freed sa p = false ∧ held !! x = None ∧
    ∃ i c k, cached_at s x i c k ∧ ∀ j d l, cached_at s x j d l → (j, d, l) = (i, c, k)) ∨
  (avail sa p = false ∧ freed sa p = false ∧ (∀ i c k, ¬ cached_at s x i c k) ∧
    is_Some (held !! x)).

(** The slab is owned and on the list of one manager, of its class; or it is
    released, on no list, and has nothing available or freed. *)
Definition owned_or_released (s : sys) (a : Z) (sa : obj_slab) : Prop :=
  (state sa = OWNED ∧ (∃ i c, listed_at s a i c ∧ idx_to_size i = Some (block_size sa) ∧
     ∀ j d, listed_at s a j d → (j, d) = (i, c))) ∨
  (state sa = UNOWNED ∧ (∀ i c, ¬ listed_at s a i c) ∧
   ∀ p, position p → avail sa p = false ∧ freed sa p = false).

Lemma cached_tag al st g s x a p i c k :
  wf_region al st → WF al st None g s → block_at (slabs s) x a p →
  cached_at s x i c k ↔ tags g a p = Cached i c k.
Proof.
  intros Hal Hwf Hb. split.
  - intros (sm & Hsm & Hk & Hx). destruct (wf_caches Hwf i c sm Hsm) as (_ & _ & Hall).
    destruct (Hall k Hk) as (y & b & q & sb & Hy & Hbq & _ & _ & Ht). simplify_eq.
    by destruct (block_at_inj al st Hal _ _ _ _ _ Hwf x b q a p Hbq Hb) as [-> ->].
  - intros Ht. destruct Hb as (sa & Ha & Hp & ->).
    by apply (wf_cached Hwf a sa p i c k Ha Hp).
Qed.

Lemma held_tag al st g s held x a p :
  wf_region al st → WF al st None g s → holds g s held → block_at (slabs s) x a p →
  is_Some (held !! x) ↔ tags g a p = Live.
Proof.
  intros Hal Hwf Hh Hb. split.
  - intros [sz Hx]. destruct (holds_live g s held x sz Hh Hx) as (_ & b & Hl & _).
    destruct (decide (tags g a p = Live)) as [|Hne]; [done|].
    by destruct (untagged_not_live al st Hal g s a p x Hwf Hb Hne b).
  - intros Ht. pose proof Hb as (sa & Ha & _). destruct Hh as [_ Hh].
    destruct (proj1 (Hh x (block_size sa))) as (sz & Hx & _); [|by eexists].
    exists a, p. by rewrite Ha.
Qed.

Lemma unlisted_or_listed al st g s a :
  WF al st None g s → unlisted g a ∨ ∃ i c, a ∈ lists g (i, c) ∧ listed_at s a i c.
Proof.
  intros Hwf. destruct (decide (Exists (λ ic, a ∈ lists g ic)
    (map_to_list (slab_managers s)).*1)) as [Hex|Hno].
  - right. apply Exists_exists in Hex as ([i c] & _ & Ha). exists i, c. split; [done|].
    destruct (wf_listed Hwf i c a Ha) as [[sm Hsm] _].
    destruct (wf_lists Hwf (i, c) sm Hsm) as [Hch _]. by exists sm, (lists g (i, c)).
  - left. intros [i c] Ha. apply Hno, Exists_exists. exists (i, c). split; [|done].
    destruct (wf_listed Hwf i c a Ha) as [[sm Hsm] _].
    apply list_elem_of_fmap. exists ((i, c), sm). split; [done|]. by apply elem_of_map_to_list.
Qed.

(** A chain is determined by its head. *)
Lemma chain_unique sl h l l' :
  sl !! 0 = None → chain sl h l → chain sl h l' → l = l'.
Proof.
  intros H0. revert h l'. induction l as [|a l IH]; intros h [|b l']; simpl; try done.
  - intros -> (<- & s & Hs & _). congruence.
  - intros (-> & s & Hs & _) ->. congruence.
  - intros (-> & s & Hs & Hc) (<- & s' & Hs' & Hc'). simplify_eq. f_equal. by eapply IH.
Qed.

Lemma listed_at_in al st g s a i c :
  wf_region al st → WF al st None g s → listed_at s a i c → a ∈ lists g (i, c).
Proof.
  intros Hal Hwf (sm & l & Hsm & Hch & Ha).
  destruct (wf_lists Hwf (i, c) sm Hsm) as [Hch' _].
  rewrite (chain_unique (slabs s) (available_slabs_head sm) (lists g (i, c)) l); [done| |done|done].
  destruct (slabs s !! 0) as [s0|] eqn:E; [|done].
  pose proof (slab_addr_nonzero al st Hal _ _ _ _ _ Hwf 0 s0 E). lia.
Qed.

(** ** What an allocation returns *)

Lemma hands_out_block al st g s held sz ptr g' s' :
  wf_region al st → WF al st None g' s' → holds g s held → served sz →
  hands_out (size_to_idx sz) g s ptr g' s' →
  _valid_addr al ptr = Some tt ∧ ptr ≠ 0 ∧ ptr mod 8 = 0 ∧ m al < ptr ∧ ptr + sz ≤ end_ al ∧
  held !! ptr = None ∧ ∀ y n, held !! y = Some n → disjoint_blocks ptr sz y n.
Proof.
  intros Hal Hwf' Hh Hsz Hout.
  pose proof (hands_out_nonzero al st _ g s ptr g' s' Hal Hwf' Hout) as H0.
  destruct (holds_hands_out g s held sz ptr g' s' Hh Hsz Hout) as [Hnew Hh'].
  destruct (holds_live g' s' _ ptr sz Hh') as (_ & b & Hb & Hle);
    [by rewrite lookup_insert_eq|].
  destruct (live_valid al st g' s' ptr b Hal Hwf' Hb) as (Hv & _ & H8).
  destruct (live_range al st g' s' ptr b Hal Hwf' Hb). pose proof (region_m al st Hal).
  split_and!; try done; [lia..|].
  intros y n Hy. assert (ptr ≠ y) as Hne by congruence.
  destruct (holds_live g' s' _ y n Hh') as (_ & b' & Hb' & Hle');
    [by rewrite lookup_insert_ne|].
  destruct (live_disjoint al st g' s' ptr b y b'); [done..|left; lia|right; lia].
Qed.

(** ** The abstract allocator

    Its state is the set of requests that are held.  A request is refused, or
    met with a block of the region that overlaps none of them. *)

Inductive event := Alloc (size ptr : Z) | Free (ptr : Z) | Reset.

Inductive abs_step (lo hi : Z) (held : gmap Z Z) : event → gmap Z Z → Prop :=
  | abs_refuse sz : abs_step lo hi held (Alloc sz 0) held
  | abs_allocate sz ptr :
      ptr ≠ 0 → lo < ptr → ptr + sz ≤ hi → ptr mod 8 = 0 →
      (∀ y n, held !! y = Some n → disjoint_blocks ptr sz y n) →
      abs_step lo hi held (Alloc sz ptr) (<[ptr := sz]> held)
  | abs_free x : is_Some (held !! x) → abs_step lo hi held (Free x) (delete x held)
  | abs_reset : abs_step lo hi held Reset ∅.

Inductive abs_run (lo hi : Z) : gmap Z Z → list event → gmap Z Z → Prop :=
  | abs_done held : abs_run lo hi held [] held
  | abs_more held e held' es held'' :
      abs_step lo hi held e held' → abs_run lo hi held' es held'' →
      abs_run lo hi held (e :: es) held''.

(** The program's calls, with what they return. *)
Inductive call (cpu : nat → Z) (al : object_allocator) (s : sys) : event → sys → Prop :=
  | call_allocate fuel sz ptr s' :
      _allocate cpu al fuel sz s = Done (ptr, s') → call cpu al s (Alloc sz ptr) s'
  | call_free x s' : _free cpu x s = Done (tt, s') → call cpu al s (Free x) s'
  | call_reset s' : reset al s = Done (tt, s') → call cpu al s Reset s'.

Inductive calls (cpu : nat → Z) (al : object_allocator) : sys → list event → sys → Prop :=
  | calls_done s : calls cpu al s [] s
  | calls_more s e s' es s'' :
      call cpu al s e s' → calls cpu al s' es s'' → calls cpu al s (e :: es) s''.

(** What clients hold after an event, and the events they may cause. *)
Definition held_after (held : gmap Z Z) (e : event) : gmap Z Z :=
  match e with
  | Alloc sz ptr => if ptr =? 0 then held else <[ptr := sz]> held
  | Free x => delete x held
  | Reset => ∅
  end.

Definition allowed (held : gmap Z Z) (e : event) : Prop :=
  match e with
  | Alloc sz _ => served sz
  | Free x => is_Some (held !! x)
  | Reset => True
  end.

Fixpoint well_behaved (held : gmap Z Z) (es : list event) : Prop :=
  match es with
  | [] => True
  | e :: es => allowed held e ∧ well_behaved (held_after held e) es
  end.

(** One call is one step of the abstract allocator. *)
Lemma call_refines cpu al s held e s' :
  (∀ n, 0 ≤ cpu n < NPROCS) → heap cpu al s held → allowed held e → call cpu al s e s' →
  abs_step (m al) (end_ al) held e (held_after held e) ∧ heap cpu al s' (held_after held e).
Proof.
  intros Hcpu Hheap Hok Hcall. destruct Hcall as [fuel sz ptr s' Hrun|x s' Hrun|s' Hrun]; simpl in *.
  - split; [|by apply heap_allocate with s fuel].
    destruct (heap_wf cpu Hcpu al s held Hheap) as (st & g & Hal & Hwf & Hh).
    destruct (wp_done false _ _ s ptr s' Hrun
      (wp_allocate cpu Hcpu al st Hal false fuel g s sz Hwf Hok ltac:(done)))
      as (g' & Hwf' & [(-> & _ & _)|Hout]); [constructor|].
    destruct (hands_out_block al st g s held sz ptr g' s' Hal Hwf' Hh Hok Hout)
      as (_ & H0 & H8 & Hlo & Hhi & _ & Hdis).
    rewrite (proj2 (Z.eqb_neq ptr 0) H0). by constructor.
  - split; [by constructor|by apply heap_free with s].
  - split; [constructor|by apply heap_reset with s held].
Qed.

(** ** The free cache as a stack *)

Lemma free_to_cache cpu s x sa sm :
  let i := size_to_idx (block_size sa) in let c := cpu (clock s) in
  slabs s !! addr_to_slab x = Some sa → slab_managers s !! (i, c) = Some sm →
  current_idx (fc sm) < cache_size →
  let k := current_idx (fc sm) in
  _free cpu x s = Done (tt, set_managers
    (<[(i, c) := set_fc (mk_fc (u64 (k + 1)) (<[Z.to_nat k := x]> (ptrs (fc sm)))) sm]>
      (slab_managers s)) (tick s)).
Proof.
  intros i c Ha Hsm Hk. unfold _free, try_push, get_manager, put_manager.
  unfold mbind, ST_bind, mret, ST_ret, run_slab, gets, read_cpu, from_opt, modify, require.
  rewrite Ha. cbn. fold i. rewrite insert_id by done. fold c. rewrite Hsm.
  rewrite (proj2 (Z.eqb_neq (current_idx (fc sm)) cache_size)) by lia.
  rewrite (proj2 (Z.ltb_lt _ _) Hk). by destruct s.
Qed.

Lemma allocate_from_cache cpu al fuel s sz sm x k :
  let i := size_to_idx sz in let c := cpu (clock s) in
  slab_managers s !! (i, c) = Some sm → current_idx (fc sm) = k + 1 → k + 1 ≠ 0 →
  ptrs (fc sm) !! Z.to_nat k = Some x → 128 < x →
  _allocate cpu al fuel sz s = Done (x, set_managers
    (<[(i, c) := set_fc (mk_fc (u64 k) (ptrs (fc sm))) sm]> (slab_managers s)) (tick s)).
Proof.
  intros i c Hsm Hk Hk0 Hx H128. unfold _allocate, try_pop, get_manager, put_manager.
  unfold mbind, ST_bind, mret, ST_ret, gets, read_cpu, from_opt, modify.
  change (1 ≪ _log_sizeof_slab_manager) with 128. cbn -[Z.ltb Z.eqb]. fold i c.
  rewrite Hsm, Hk, (proj2 (Z.eqb_neq (k + 1) 0) Hk0), (Z.add_simpl_r k 1), Hx.
  by rewrite (proj2 (Z.ltb_lt 128 x) H128).
Qed.

(** ** Claims *)

Section Claims.
Context (cpu : nat → Z) (Hcpu : ∀ n, 0 ≤ cpu n < NPROCS).

(** C2: blocks clients hold never overlap, in any history of allocations,
    frees and resets, on any CPUs: each is at least as large as requested,
    lies in the slab region, and is disjoint from every other. *)
Theorem held_blocks_disjoint al s held x n :
  heap cpu al s held → held !! x = Some n →
  (_valid_addr al x = Some tt ∧ in_range al x = true ∧ x mod 8 = 0 ∧ x + n ≤ end_ al) ∧
  ∀ y n', held !! y = Some n' → x ≠ y → disjoint_blocks x n y n'.
Proof.
  intros Hheap Hx. destruct (heap_wf cpu Hcpu al s held Hheap) as (st & g & Hal & Hwf & Hh).
  destruct (holds_live g s held x n Hh Hx) as (_ & b & Hb & Hle).
  destruct (live_valid al st g s x b Hal Hwf Hb) as (Hv & Hr & H8).
  destruct (live_range al st g s x b Hal Hwf Hb). split; [split_and!; done || lia|].
  intros y n' Hy Hne. destruct (holds_live g s held y n' Hh Hy) as (_ & b' & Hb' & Hle').
  destruct (live_disjoint al st g s x b y b'); [done..|left; lia|right; lia].
Qed.

(** C4: a call of [_allocate] never fails an assertion or touches memory
    outside the managers and the slabs, whatever the CPUs it runs on.  It
    returns [NULL] only when every slab of the region is in use; any other
    result is the address of a valid block, large enough and disjoint from
    all blocks that are held. *)
Theorem allocate_safe al s held fuel sz :
  heap cpu al s held → served sz →
  match _allocate cpu al fuel sz s with
  | Done (ptr, s') =>
      (ptr = 0 ∧ current_slab s' = end_ al) ∨
      (_valid_addr al ptr = Some tt ∧ ptr ≠ 0 ∧ ptr mod 8 = 0 ∧ m al < ptr ∧
       ptr + sz ≤ end_ al ∧ held !! ptr = None ∧
       ∀ y n, held !! y = Some n → disjoint_blocks ptr sz y n)
  | Fault => False
  | OutOfFuel => True
  | Crashed => False
  end.
Proof.
  intros Hheap Hsz. destruct (heap_wf cpu Hcpu al s held Hheap) as (st & g & Hal & Hwf & Hh).
  pose proof (wp_allocate cpu Hcpu al st Hal false fuel g s sz Hwf Hsz ltac:(done)) as Hwp.
  unfold wp in Hwp. destruct (_allocate cpu al fuel sz s) as [[ptr s']| | |]; [|done..].
  destruct Hwp as (g' & Hwf' & [(-> & Hend & _)|Hout]); [by left|right].
  by apply (hands_out_block al st g s held sz ptr g' s').
Qed.

(** C5: [_allocate] returns: on a thread that stays on one CPU, the loop of
    [_allocate_inner] takes at most [2 n + 2] rounds, [n] the number of slabs
    in use. *)
Theorem allocate_terminates al s held fuel sz c :
  heap cpu al s held → served sz → (∀ n, cpu n = c) → (2 * size (slabs s) + 2 ≤ fuel)%nat →
  ∃ ptr s', _allocate cpu al fuel sz s = Done (ptr, s').
Proof.
  intros Hheap Hsz Hc Hf.
  destruct (heap_wf cpu Hcpu al s held Hheap) as (st & g & Hal & Hwf & _).
  assert (true = true → (∃ c, ∀ n, cpu n = c) ∧ (2 * size (slabs s) + 1 < fuel)%nat) as Htot.
  { intros _. split; [by exists c|lia]. }
  destruct (wp_total_done _ _ _ (wp_allocate cpu Hcpu al st Hal true fuel g s sz Hwf Hsz Htot))
    as (ptr & s' & Hrun & _). eauto.
Qed.

(** C6: [_free] of a block a client holds returns without failing an
    assertion, on any CPU. *)
Theorem free_safe al s held x :
  heap cpu al s held → is_Some (held !! x) → ∃ s', _free cpu x s = Done (tt, s').
Proof.
  intros Hheap [n Hx]. destruct (heap_wf cpu Hcpu al s held Hheap) as (st & g & Hal & Hwf & Hh).
  destruct (holds_live g s held x n Hh Hx) as (_ & b & Hb & _).
  destruct (wp_total_done _ _ _ (wp_free cpu Hcpu al st Hal true g s x b Hwf Hb))
    as ([] & s' & Hrun & _). eauto.
Qed.

(** C7: no block is lost or in two places: every block of every slab is
    available, or freed in its slab, or in one entry of one free cache, or
    held by a client, and only one of these. *)
Theorem block_accounting al s held a sa p :
  heap cpu al s held → slabs s !! a = Some sa → 0 ≤ p < nblocks sa →
  one_place s held a sa p.
Proof.
  intros Hheap Ha Hp. unfold one_place. set (x := block_addr a (block_size sa) p).
  destruct (heap_wf cpu Hcpu al s held Hheap) as (st & g & Hal & Hwf & Hh).
  assert (block_at (slabs s) x a p) as Hb by (by exists sa).
  assert (∀ i c k, cached_at s x i c k ↔ tags g a p = Cached i c k) as Hcache.
  { intros i c k. by apply (cached_tag al st). }
  pose proof (held_tag al st g s held x a p Hal Hwf Hh Hb) as Hheld.
  destruct (wf_tags Hwf a sa p Ha Hp) as [Hav Hfr].
  rewrite eq_None_not_Some, <-!not_true_iff_false, Hav, Hfr, Hheld.
  setoid_rewrite Hcache. destruct (tags g a p) as [| |i c k|]; [left|right; left| |].
  - done.
  - done.
  - right; right; left. split_and!; [done..|]. exists i, c, k. split; [done|].
    intros j d l [= -> -> ->]. done.
  - do 3 right. done.
Qed.

(** C8: no slab is lost: a slab with a block that is available or freed is
    owned and on the list of exactly one manager; a slab on no list is
    released, with nothing available or freed in it. *)
Theorem slab_accounting al s held a sa :
  heap cpu al s held → slabs s !! a = Some sa →
  owned_or_released s a sa.
Proof.
  intros Hheap Ha. destruct (heap_wf cpu Hcpu al s held Hheap) as (st & g & Hal & Hwf & Hh).
  destruct (wf_slabs Hwf a sa Ha) as [Hwa _].
  destruct (unlisted_or_listed al st g s a Hwf) as [Hun|(i & c & Hin & Hl)]; [right|left].
  - destruct (wf_unlisted Hwf a sa Ha) as (Hst & Hav & Hfv); [done|done|].
    split_and!; [done| |].
    + intros i c Hl. by apply (Hun (i, c)), (listed_at_in al st g s).
    + intros p Hp. split; [by apply Hav|by apply freed_none].
  - destruct (wf_listed Hwf i c a Hin) as (_ & sa' & Ha' & Hi & Hst). simplify_eq.
    split; [done|]. exists i, c. split_and!; [done|done|]. intros j d Hjd.
    apply (wf_disjoint Hwf _ _ a); [by apply (listed_at_in al st g s)|done].
Qed.

(** C1: the allocator refines the abstract one: whatever calls clients make
    after construction, requesting sizes there is a class for and freeing
    only what they hold, the sequence of calls and results is one of the
    abstract allocator on the same region. *)
Theorem allocator_refines mem rs al s0 es s :
  0 ≤ mem → mem + rs < 2 ^ 64 → sizeof_memory_layout + sizeof_obj_slab ≤ rs →
  new_allocator mem rs = Some (al, s0) → calls cpu al s0 es s → well_behaved ∅ es →
  ∃ held, abs_run mem (mem + rs) ∅ es held ∧ heap cpu al s held.
Proof.
  intros Hm Hr Hrs Hnew. assert (heap cpu al s0 ∅) as Hheap by (by eapply heap_new).
  destruct (new_allocator_region mem rs Hm Hr Hrs) as (al' & st & Hnew' & _ & Hmem & _ & Hend).
  simplify_eq. revert Hheap. generalize (∅ : gmap Z Z) as held. intros held Hheap Hcalls.
  revert held Hheap. clear Hnew.
  induction Hcalls as [s|s e s' es s'' Hcall _ IH]; intros held Hheap Hwb.
  - exists held. split; [constructor|done].
  - destruct Hwb as [Hok Hwb].
    destruct (call_refines cpu al s held e s' Hcpu Hheap Hok Hcall) as [Hstep Hheap'].
    destruct (IH _ Hheap' Hwb) as (held' & Hrun & Hheap''). exists held'. split; [|done].
    apply abs_more with (held_after held e); [|done].
    destruct Hstep; constructor; done || lia.
Qed.

(** C24: the free caches are stacks: a block freed on a CPU whose cache has
    room is the next one allocated there for a size of the same class, and
    no slab is touched. *)
Theorem free_allocate_roundtrip al s held x n sm sz fuel :
  heap cpu al s held → held !! x = Some n →
  slab_managers s !! (size_to_idx n, cpu (clock s)) = Some sm →
  current_idx (fc sm) < cache_size →
  cpu (S (clock s)) = cpu (clock s) → size_to_idx sz = size_to_idx n →
  ∃ s1 s2, _free cpu x s = Done (tt, s1) ∧ _allocate cpu al fuel sz s1 = Done (x, s2) ∧
    slabs s2 = slabs s ∧ current_slab s2 = current_slab s.
Proof.
  intros Hheap Hx Hsm Hk Hc Hsz.
  destruct (heap_wf cpu Hcpu al s held Hheap) as (st & g & Hal & Hwf & Hh).
  destruct (holds_live g s held x n Hh Hx) as (Hn & b & Hb & _).
  pose proof (live_range al st g s x b Hal Hwf Hb). pose proof (region_low al st Hal).
  destruct Hh as [_ Hh]. pose proof Hb as (a & p & (sa & Ha & Hp & Hxa) & Hbs & _).
  rewrite Ha in Hbs. simplify_eq/=. destruct (wf_slabs Hwf a sa Ha) as [Hwa _].
  apply Hh in Hb as (n' & Hn' & Hidx). simplify_eq.
  assert (addr_to_slab (block_addr a (block_size sa) p) = a) as Hslab.
  { rewrite <-(Z.add_0_r (block_addr _ _ _)).
    pose proof (slab_addr_nonzero al st Hal _ _ _ _ _ Hwf a sa Ha).
    pose proof (wf_block_size sa Hwa).
    apply addr_to_slab_block; try done || lia.
    apply (slab_addr al st Hal _ _ _ _ _ Hwf a sa Ha). }
  pose proof (size_to_idx_class _ _ Hidx) as Hcl.
  destruct (wf_caches Hwf _ _ sm Hsm) as (Hlen & Hidx' & _).
  rewrite <-Hcl in Hsm. eexists _, _. split.
  { apply (free_to_cache cpu s _ sa sm); [by rewrite Hslab|done|done]. }
  split.
  { eapply (allocate_from_cache cpu al fuel _ sz) with (k := current_idx (fc sm)); simpl.
    - rewrite Hc, Hsz, <-Hcl. by rewrite lookup_insert_eq.
    - simpl. apply wrap_small. change cache_size with 13 in *. word_const.
    - lia.
    - simpl. apply list_lookup_insert_eq. lia.
    - lia. }
  done.
Qed.

(** [reset] succeeds and leaves an empty heap: nothing is held, no slab
    is in use, and every slab of the region can be handed out again. *)
Theorem reset_empties al s held :
  heap cpu al s held →
  ∃ s' st, reset al s = Done (tt, s') ∧ heap cpu al s' ∅ ∧ slabs s' = ∅ ∧
    current_slab s' = st ∧ calculate_start (u64 (m al + sizeof_memory_layout)) = Some st.
Proof.
  intros Hheap. destruct (heap_wf cpu Hcpu al s held Hheap) as (st & g & Hal & _ & _).
  assert (reset al s = Done (tt, mk_sys (clock s) zero_managers st ∅)) as Hrun.
  { unfold reset. by rewrite (new_layout_wf _ al st Hal). }
  eexists _, st. split; [done|]. split; [by apply heap_reset with s held|].
  split_and!; try done. apply Hal.
Qed.
End Claims.

(** ** Construction *)

(** The call does not take a size class: it indexes outside of the managers. *)
Lemma allocate_outside cpu al fuel sz s :
  slab_managers s !! (size_to_idx sz, cpu (clock s)) = None → _allocate cpu al fuel sz s = Fault.
Proof.
  intros Hnone. unfold _allocate, try_pop, get_manager.
  unfold mbind, ST_bind, gets, read_cpu, from_opt. cbn. by rewrite Hnone.
Qed.

(** Construction: a region that has room for the metadata and a slab is
    divided into slabs, all of them inside the region, aligned, and with less
    than a slab left over at either end; nothing is in use. *)
Theorem new_allocator_ok mem rs :
  0 ≤ mem → mem + rs < 2 ^ 64 → sizeof_memory_layout + sizeof_obj_slab ≤ rs →
  ∃ al s start, new_allocator mem rs = Some (al, s) ∧ m al = mem ∧
    start mod sizeof_obj_slab = 0 ∧ end_ al mod sizeof_obj_slab = 0 ∧
    mem + sizeof_memory_layout ≤ start < mem + sizeof_memory_layout + sizeof_obj_slab ∧
    mem + rs - sizeof_obj_slab < end_ al ≤ mem + rs ∧
    get_slab_region_size al = Some (end_ al - start) ∧
    current_slab s = start ∧ slabs s = ∅.
Proof.
  intros Hm Hr Hrs. destruct (new_allocator_region mem rs Hm Hr Hrs)
    as (al & st & Hnew & Hal & Hmem & Hst & Hend).
  pose proof (region_le al st Hal). pose proof (region_end al st Hal).
  assert (sizeof_memory_layout = 11392) as Hl by done.
  eexists al, _, st. split; [done|]. split_and!; try done || lia.
  - apply Hal.
  - apply Hal.
  - unfold get_slab_region_size. rewrite (region_start al st Hal). simpl.
    rewrite wrap_small by (unfold is_word; lia). done.
Qed.

(** The assertions of [calculate_end] and of the constructor fail on a region
    that ends before the first slab. *)
Lemma new_allocator_small mem rs start :
  sizeof_obj_slab ≤ mem → mem + sizeof_memory_layout + sizeof_obj_slab ≤ 2 ^ 64 → 0 ≤ rs →
  calculate_start (mem + sizeof_memory_layout) = Some start → rs < start - mem →
  new_allocator mem rs = None.
Proof.
  assert (sizeof_memory_layout = 11392) as Hl by done.
  assert (sizeof_obj_slab = 34048) as Hs by done.
  unfold new_allocator, calculate_end, calculate_start. rewrite Hl, Hs.
  intros Hm Hr Hrs Hst Hsmall.
  destruct (roundup_spec 64 (mem + 11392) 34048) as (st & Hst' & Hlo & Hmod);
    [unfold is_word; lia..|]. assert (start = st) as -> by congruence.
  set (d := st - mem - rs).
  rewrite (wrap_small 64 (mem + 11392)) by (unfold is_word; lia).
  rewrite Hst. cbn [mbind option_bind assert_opt].
  rewrite (wrap_small 64 (st - (mem + 11392))) by (unfold is_word; lia).
  rewrite (proj2 (Z.leb_le (mem + 11392) st)) by lia. cbn [mbind option_bind assert_opt].
  rewrite Hmod. cbn [mbind option_bind assert_opt Z.eqb].
  assert (u64 (u64 (rs - 11392) - (st - (mem + 11392))) = 2 ^ 64 - d) as ->.
  { unfold wrap. rewrite Zminus_mod_idemp_l. symmetry.
    apply Z.mod_unique_pos with (-1); lia. }
  destruct (rounddown_spec 64 (2 ^ 64 - d) 34048) as (e & He & Hel & He0 & Hem);
    [unfold is_word; lia..|].
  rewrite He. cbn [mbind option_bind assert_opt]. rewrite Hem.
  cbn [mbind option_bind assert_opt Z.eqb].
  unfold new_layout, calculate_start. rewrite Hl, Hs.
  rewrite (wrap_small 64 (mem + 11392)) by (unfold is_word; lia). rewrite Hst.
  cbn [mbind option_bind assert_opt]. rewrite Hmod. cbn [mbind option_bind assert_opt Z.eqb].
  assert (u64 (st + e) = st + e - 2 ^ 64) as ->.
  { unfold wrap. symmetry. apply Z.mod_unique_pos with 1; lia. }
  rewrite (proj2 (Z.eqb_neq ((st + e - 2 ^ 64) mod 34048) 0)); [done|].
  rewrite Zminus_mod, Z.add_mod, Hmod, Hem by done. done.
Qed.

(** C29: the constructor rejects exactly the regions that are too small: it
    succeeds if and only if the region reaches the first slab boundary after
    the metadata (an unsigned wrap-around of the size is always caught). *)
Theorem new_allocator_iff mem rs start :
  sizeof_obj_slab ≤ mem → mem + rs < 2 ^ 64 →
  mem + sizeof_memory_layout + sizeof_obj_slab ≤ 2 ^ 64 → 0 ≤ rs →
  calculate_start (mem + sizeof_memory_layout) = Some start →
  is_Some (new_allocator mem rs) ↔ start - mem ≤ rs.
Proof.
  intros Hm Hr Hlay Hrs Hst. split.
  - intros Hsome. destruct (Z.le_gt_cases (start - mem) rs) as [|Hlt]; [done|].
    rewrite (new_allocator_small mem rs start) in Hsome by done || lia. by destruct Hsome.
  - intros Hle. assert (sizeof_obj_slab = 34048) as Hs by done.
    destruct (new_allocator_fits mem rs start) as (al & -> & _); [done || lia..|]. by eexists.
Qed.

(** ** Requests without a size class *)

(** Requests of size 0 and requests larger than the largest class are not
    checked for: [_allocate] then indexes past the managers of the last class.
    (Requests within fifteen bytes of 4 GiB are the next theorem.) *)
Theorem allocate_unserved cpu al s held fuel sz :
  (∀ n, 0 ≤ cpu n < NPROCS) → heap cpu al s held → is_word 32 sz →
  sz = 0 ∨ 144 < sz < 2 ^ 32 - 15 →
  _allocate cpu al fuel sz s = Fault.
Proof.
  intros Hcpu Hheap Hw Hsz. destruct (heap_wf cpu Hcpu al s held Hheap) as (st & g & _ & Hwf & _).
  apply allocate_outside. apply eq_None_not_Some. intros Hsome.
  apply (wf_managers Hwf) in Hsome as [Hi _].
  destruct (idx_to_size_total _ Hi) as [b Hb]. apply size_to_idx_none in Hsz; [|done].
  congruence.
Qed.

(** The rounding of a request within fifteen bytes of 4 GiB overflows, and
    the request is served like one for 16 bytes. *)
Theorem allocate_overflow cpu al fuel sz s :
  2 ^ 32 - 15 ≤ sz < 2 ^ 32 → _allocate cpu al fuel sz s = _allocate cpu al fuel 16 s.
Proof.
  intros Hsz. unfold _allocate. by rewrite (size_to_idx_wraps sz Hsz).
Qed.

(** [max_objects] does not depend on the size of the region: it divides
    the address of the slabs, not the bytes there are for them. *)
Theorem max_objects_ignores_region mem rs rs' al s al' s' :
  new_allocator mem rs = Some (al, s) → new_allocator mem rs' = Some (al', s') →
  max_objects al = max_objects al'.
Proof.
  assert (∀ rs al s, new_allocator mem rs = Some (al, s) → m al = mem) as Hm.
  { intros rs0 al0 s0. unfold new_allocator. destruct (calculate_end _ _); [|done]. simpl.
    destruct (new_layout 0 mem); [|done]. simpl. destruct (assert_opt _); [|done]. simpl.
    by intros [= <- _]. }
  intros H%Hm H'%Hm. unfold max_objects. by rewrite H, H'.
Qed.

(** ** A sample history *)

Definition demo_cpu : nat → Z := λ _, 0.
Definition demo_allocator : object_allocator := mk_allocator 1048576 1293824 262144.
Definition demo_start : sys := mk_sys 0 zero_managers 1089536 ∅.

Definition state_after {A} (o : outcome (A * sys)) : sys :=
  match o with Done (_, s) => s | _ => demo_start end.

(** Two blocks of 16 bytes. *)
Definition demo_one : sys := state_after (_allocate demo_cpu demo_allocator 10 16 demo_start).
Definition demo_two : sys := state_after (_allocate demo_cpu demo_allocator 10 16 demo_one).
Definition demo_held : gmap Z Z := <[1090832 := 16]> {[1090816 := 16]}.

Lemma demo_cpu_ok n : 0 ≤ demo_cpu n < NPROCS.
Proof. done. Qed.

Lemma demo_new : new_allocator 1048576 262144 = Some (demo_allocator, demo_start).
Proof.
  exact (eq_refl (Some (demo_allocator, demo_start)) <:
    new_allocator 1048576 262144 = Some (demo_allocator, demo_start)).
Qed.

Lemma demo_heap_start : heap demo_cpu demo_allocator demo_start ∅.
Proof.
  apply heap_new with 1048576 262144; [lia|lia|by vm_compute|exact demo_new].
Qed.

Lemma demo_run_one :
  _allocate demo_cpu demo_allocator 10 16 demo_start = Done (1090816, demo_one).
Proof.
  exact (eq_refl (Done (1090816, demo_one)) <:
    _allocate demo_cpu demo_allocator 10 16 demo_start = Done (1090816, demo_one)).
Qed.

Lemma demo_run_two :
  _allocate demo_cpu demo_allocator 10 16 demo_one = Done (1090832, demo_two).
Proof.
  exact (eq_refl (Done (1090832, demo_two)) <:
    _allocate demo_cpu demo_allocator 10 16 demo_one = Done (1090832, demo_two)).
Qed.

Lemma demo_served : served 16.
Proof. unfold served. lia. Qed.

Lemma demo_heap : heap demo_cpu demo_allocator demo_two demo_held.
Proof.
  exact (heap_allocate _ _ _ _ _ _ _ _
    (heap_allocate _ _ _ _ _ _ _ _ demo_heap_start demo_served demo_run_one)
    demo_served demo_run_two).
Qed.

Lemma held_blocks_disjoint_witness : disjoint_blocks 1090816 16 1090832 16.
Proof.
  apply (proj2 (held_blocks_disjoint demo_cpu demo_cpu_ok demo_allocator demo_two demo_held
    1090816 16 demo_heap ltac:(by vm_compute)) 1090832 16); by vm_compute.
Defined.

Lemma allocate_safe_witness :
  heap demo_cpu demo_allocator demo_two demo_held ∧
  _allocate demo_cpu demo_allocator 10 100 demo_two ≠ Fault.
Proof.
  split; [exact demo_heap|]. intros Hf.
  pose proof (allocate_safe demo_cpu demo_cpu_ok demo_allocator demo_two demo_held 10 100
    demo_heap ltac:(unfold served; lia)) as H.
  rewrite Hf in H. exact H.
Defined.

Lemma allocate_terminates_witness :
  ∃ ptr s', _allocate demo_cpu demo_allocator 4 100 demo_two = Done (ptr, s').
Proof.
  apply (allocate_terminates demo_cpu demo_cpu_ok demo_allocator demo_two demo_held 4 100 0
    demo_heap); [unfold served; lia|done|by vm_compute].
Defined.

Lemma free_safe_witness : ∃ s', _free demo_cpu 1090816 demo_two = Done (tt, s').
Proof.
  apply (free_safe demo_cpu demo_cpu_ok demo_allocator demo_two demo_held 1090816 demo_heap).
  by vm_compute; eexists.
Defined.

(** The slab of the sample history. *)
Definition demo_slab : obj_slab := default zero_slab (slabs demo_two !! 1089536).

Lemma demo_slab_lookup : slabs demo_two !! 1089536 = Some demo_slab.
Proof.
  assert (block_size <$> slabs demo_two !! 1089536 = Some 16) as Hb by (by vm_compute).
  unfold demo_slab. by destruct (slabs demo_two !! 1089536).
Qed.

Lemma block_accounting_witness : one_place demo_two demo_held 1089536 demo_slab 1.
Proof.
  apply (block_accounting demo_cpu demo_cpu_ok demo_allocator demo_two demo_held
    1089536 demo_slab 1 demo_heap demo_slab_lookup). by vm_compute.
Defined.

Lemma slab_accounting_witness : owned_or_released demo_two 1089536 demo_slab.
Proof.
  exact (slab_accounting demo_cpu demo_cpu_ok demo_allocator demo_two demo_held
    1089536 demo_slab demo_heap demo_slab_lookup).
Defined.

Lemma allocator_refines_witness :
  ∃ held, abs_run 1048576 1310720 ∅ [Alloc 16 1090816; Alloc 16 1090832] held ∧
    heap demo_cpu demo_allocator demo_two held.
Proof.
  apply (allocator_refines demo_cpu demo_cpu_ok 1048576 262144 demo_allocator demo_start
    [Alloc 16 1090816; Alloc 16 1090832] demo_two); [lia|lia|by vm_compute| | |].
  - exact demo_new.
  - exact (calls_more _ _ _ _ _ _ _ (call_allocate _ _ _ _ _ _ _ demo_run_one)
      (calls_more _ _ _ _ _ _ _ (call_allocate _ _ _ _ _ _ _ demo_run_two) (calls_done _ _ _))).
  - exact (conj demo_served (conj demo_served I)).
Defined.

(** The manager of class 1 on CPU 0 in the sample history. *)
Definition demo_manager : slab_manager :=
  default zero_manager (slab_managers demo_two !! (1, 0)).

Lemma free_allocate_roundtrip_witness :
  ∃ s1 s2, _free demo_cpu 1090816 demo_two = Done (tt, s1) ∧
    _allocate demo_cpu demo_allocator 0 9 s1 = Done (1090816, s2) ∧
    slabs s2 = slabs demo_two ∧ current_slab s2 = current_slab demo_two.
Proof.
  apply (free_allocate_roundtrip demo_cpu demo_cpu_ok demo_allocator demo_two demo_held
    1090816 16 demo_manager 9 0 demo_heap); by vm_compute.
Defined.

Lemma reset_empties_witness :
  ∃ s' st, reset demo_allocator demo_two = Done (tt, s') ∧ heap demo_cpu demo_allocator s' ∅ ∧
    slabs s' = ∅ ∧ current_slab s' = st ∧
    calculate_start (u64 (1048576 + sizeof_memory_layout)) = Some st.
Proof.
  exact (reset_empties demo_cpu demo_cpu_ok demo_allocator demo_two demo_held demo_heap).
Defined.

Lemma new_allocator_ok_witness :
  ∃ al s start, new_allocator 4096 65536 = Some (al, s) ∧ m al = 4096 ∧
    start mod sizeof_obj_slab = 0 ∧ end_ al mod sizeof_obj_slab = 0 ∧
    4096 + sizeof_memory_layout ≤ start < 4096 + sizeof_memory_layout + sizeof_obj_slab ∧
    4096 + 65536 - sizeof_obj_slab < end_ al ≤ 4096 + 65536 ∧
    get_slab_region_size al = Some (end_ al - start) ∧ current_slab s = start ∧ slabs s = ∅.
Proof. apply (new_allocator_ok 4096 65536); [lia|lia|by vm_compute]. Defined.

Lemma new_allocator_iff_witness :
  is_Some (new_allocator 65536 30000) ↔ 102144 - 65536 ≤ 30000.
Proof. by apply (new_allocator_iff 65536 30000 102144); vm_compute. Defined.

Lemma allocate_unserved_witness : _allocate demo_cpu demo_allocator 5 145 demo_two = Fault.
Proof.
  apply (allocate_unserved demo_cpu demo_allocator demo_two demo_held 5 145 demo_cpu_ok
    demo_heap); [by vm_compute|]. right. lia.
Defined.

Lemma allocate_overflow_witness :
  _allocate demo_cpu demo_allocator 10 4294967295 demo_start =
  _allocate demo_cpu demo_allocator 10 16 demo_start.
Proof. apply (allocate_overflow demo_cpu demo_allocator 10 4294967295 demo_start). lia. Defined.

(** The sample region has six slabs, and the call reports the capacity of 31. *)
Lemma max_objects_ignores_region_witness :
  max_objects demo_allocator = max_objects (mk_allocator 1048576 (1293824 - 34048) 228096).
Proof.
  eapply (max_objects_ignores_region 1048576 262144 228096 demo_allocator demo_start);
    [exact demo_new|by vm_compute].
Defined.
