(* ===== verification/BlockList.v ===== *)
(** * The block list ([lib/container/block_list.h])

    A container of nodes in blocks of 64, with a bit vector of free slots per
    block and two doubly linked lists: the blocks with elements ([iter_list])
    and the blocks with free slots ([available_list]).  Blocks are addressed as
    in the program; reading a block that was freed is undefined. *)

From S2P Require Import Prelude Bits.

(** ** Data *)

Record node (T : Type) := mk_node { obj : T; idx : Z }.
Arguments mk_node {T} obj idx.
Arguments obj {T}.
Arguments idx {T}.

(** A slot of [nodes] that was never constructed is [None]. *)
Record node_block (T : Type) := mk_nb {
  node_slots : Z;
  next_iter : Z;
  prev_iter : Z;
  next_available : Z;
  prev_available : Z;
  nodes : list (option (node T))
}.
Arguments mk_nb {T} node_slots next_iter prev_iter next_available prev_available nodes.
Arguments node_slots {T}.
Arguments next_iter {T}.
Arguments prev_iter {T}.
Arguments next_available {T}.
Arguments prev_available {T}.
Arguments nodes {T}.

(** The list, the blocks that are allocated, and the objects whose destructor
    has run. *)
Record block_list (T : Type) := mk_bl {
  iter_list : Z;
  available_list : Z;
  blocks : gmap Z (node_block T);
  destroyed : list T
}.
Arguments mk_bl {T} iter_list available_list blocks destroyed.
Arguments iter_list {T}.
Arguments available_list {T}.
Arguments blocks {T}.
Arguments destroyed {T}.

Definition FULL_MASK : Z := 2 ^ 64 - 1.

Section BlockList.
(** The element type, the size of a node, and whether the destructor of the
    element type is trivial. *)
Context {T : Type} (sizeof_node : Z) (trivial : bool).

Abbreviation node := (node T).
Abbreviation node_block := (node_block T).
Abbreviation block_list := (block_list T).

Definition set_slots (v : Z) (b : node_block) : node_block :=
  mk_nb v (next_iter b) (prev_iter b) (next_available b) (prev_available b) (nodes b).
Definition set_next_iter (v : Z) (b : node_block) : node_block :=
  mk_nb (node_slots b) v (prev_iter b) (next_available b) (prev_available b) (nodes b).
Definition set_prev_iter (v : Z) (b : node_block) : node_block :=
  mk_nb (node_slots b) (next_iter b) v (next_available b) (prev_available b) (nodes b).
Definition set_next_available (v : Z) (b : node_block) : node_block :=
  mk_nb (node_slots b) (next_iter b) (prev_iter b) v (prev_available b) (nodes b).
Definition set_prev_available (v : Z) (b : node_block) : node_block :=
  mk_nb (node_slots b) (next_iter b) (prev_iter b) (next_available b) v (nodes b).
Definition set_nodes (l : list (option node)) (b : node_block) : node_block :=
  mk_nb (node_slots b) (next_iter b) (prev_iter b) (next_available b) (prev_available b) l.

Definition set_iter_list (a : Z) (s : block_list) : block_list :=
  mk_bl a (available_list s) (blocks s) (destroyed s).
Definition set_available_list (a : Z) (s : block_list) : block_list :=
  mk_bl (iter_list s) a (blocks s) (destroyed s).
Definition set_blocks (m : gmap Z node_block) (s : block_list) : block_list :=
  mk_bl (iter_list s) (available_list s) m (destroyed s).
Definition set_destroyed (l : list T) (s : block_list) : block_list :=
  mk_bl (iter_list s) (available_list s) (blocks s) l.

(** Accesses through a block pointer. *)
Definition deref (b : Z) : ST block_list node_block :=
  s ← gets id; from_opt (blocks s !! b).
Definition update (b : Z) (f : node_block → node_block) : ST block_list unit :=
  deref b;; modify (λ s, set_blocks (alter f b (blocks s)) s).

(** [nodes] starts after five words. *)
Definition node_addr (b i : Z) : Z := b + 40 + i * sizeof_node.

(** [node::get_block] and [node::drop_mask]. *)
Definition get_block (this idx : Z) : Z := u64 (this - (40 + idx * sizeof_node)).
Definition drop_mask (idx : Z) : option Z := shl 64 1 idx.

(** [node::destroy] on slot [i] of block [b]; slots past the array or never
    constructed are undefined. *)
Definition node_destroy (b i : Z) : ST block_list unit :=
  if trivial then mret tt
  else
    blk ← deref b;
    n ← from_opt (nodes blk !! Z.to_nat i);
    n ← from_opt n;
    modify (λ s, set_destroyed (destroyed s ++ [obj n]) s).

(** ** [node_block] *)

(** The result is the address of the new node, with bit 0 set when the block
    is full now. *)
Definition nb_insert (b : Z) (o : T) : ST block_list Z :=
  blk ← deref b;
  let idx := find_first_one 64 (node_slots blk) in
  let slots := Z.land (node_slots blk) (u64 (node_slots blk - 1)) in
  require (idx <? 64);;
  update b (set_slots slots);;
  update b (λ blk, set_nodes (<[Z.to_nat idx := Some (mk_node o idx)]> (nodes blk)) blk);;
  mret (Z.lor (node_addr b idx) (if slots =? 0 then 1 else 0)).

Definition nb_init (b : Z) : ST block_list unit := update b (set_slots (wnot 64 1)).

(** The [do .. while] of [destroy_batch] and [destroy]. *)
Fixpoint destroy_loop (fuel : nat) (b slots : Z) : ST block_list unit :=
  match fuel with
  | O => out_of_fuel
  | S fuel =>
      let idx := find_first_one 64 slots in
      let slots := Z.land slots (u64 (slots - 1)) in
      node_destroy b idx;;
      if slots =? 0 then mret tt else destroy_loop fuel b slots
  end.

Definition destroy_batch (b mask : Z) : ST block_list unit :=
  if trivial then mret tt
  else
    blk ← deref b;
    destroy_loop 65 b (Z.land (wnot 64 (node_slots blk)) mask).

Definition nb_destroy (b : Z) : ST block_list unit :=
  if trivial then mret tt
  else
    blk ← deref b;
    destroy_loop 65 b (wnot 64 (node_slots blk)).

Definition nb_drop (b mask : Z) : ST block_list Z :=
  update b (λ blk, set_slots (Z.lor (node_slots blk) mask) blk);;
  blk ← deref b;
  mret (node_slots blk).

(** [drop] of a node pointer passes the index on as the mask. *)
Definition nb_drop_node (b : Z) (n : node) : ST block_list Z := nb_drop b (idx n).

(** ** [block_list] *)

Definition zero : ST block_list unit :=
  modify (λ s, set_available_list 0 (set_iter_list 0 s)).

Definition link_available (new_block : Z) : ST block_list unit :=
  l ← gets available_list;
  update new_block (set_next_available l);;
  (if negb (l =? 0) then update l (set_prev_available new_block) else mret tt);;
  modify (set_available_list new_block).

Definition unlink_available (new_block : Z) : ST block_list unit :=
  blk ← deref new_block;
  let next_block := next_available blk in
  let prev_block := prev_available blk in
  (if negb (next_block =? 0) then update next_block (set_prev_available prev_block)
   else mret tt);;
  (if negb (prev_block =? 0) then update prev_block (set_next_available next_block)
   else modify (set_available_list next_block)).

Definition link_block (new_block : Z) : ST block_list unit :=
  l ← gets iter_list;
  update new_block (set_next_iter l);;
  (if negb (l =? 0) then update l (set_prev_iter new_block) else mret tt);;
  modify (set_iter_list new_block).

Definition unlink_block (new_block : Z) : ST block_list unit :=
  blk ← deref new_block;
  let next_block := next_iter blk in
  let prev_block := prev_iter blk in
  (if negb (next_block =? 0) then update next_block (set_prev_iter prev_block)
   else mret tt);;
  (if negb (prev_block =? 0) then update prev_block (set_next_iter next_block)
   else modify (set_iter_list next_block)).

(** [calloc(1, sizeof(node_block_t))] at [a], and [free]. *)
Definition zero_block : node_block := mk_nb 0 0 0 0 0 (replicate 64 None).
Definition calloc_block (a : Z) : ST block_list unit :=
  modify (λ s, set_blocks (<[a := zero_block]> (blocks s)) s).
Definition free_block (b : Z) : ST block_list unit :=
  deref b;; modify (λ s, set_blocks (delete b (blocks s)) s).

(** [new (nodes) node(obj, 0)]. *)
Definition construct_first (b : Z) (o : T) : ST block_list unit :=
  update b (λ blk, set_nodes (<[0%nat := Some (mk_node o 0)]> (nodes blk)) blk).

(** [_insert]; [fresh] is what [calloc] returns if it is called. *)
Definition _insert (fresh : Z) (o : T) : ST block_list Z :=
  al ← gets available_list;
  il ← gets iter_list;
  if al =? 0 then
    calloc_block fresh;;
    nb_init fresh;;
    construct_first fresh o;;
    link_block fresh;;
    link_available fresh;;
    mret (node_addr fresh 0)
  else if il =? 0 then
    let block := al in
    blk ← deref block;
    require (node_slots blk =? wnot 64 0);;
    construct_first block o;;
    nb_init block;;
    modify (set_iter_list block);;
    update block (set_next_iter 0);;
    update block (set_prev_iter 0);;
    mret (node_addr block 0)
  else
    let block := al in
    ret ← nb_insert block o;
    if negb (Z.land ret 1 =? 0) then
      blk ← deref al;
      modify (set_available_list (next_available blk));;
      al ← gets available_list;
      (if negb (al =? 0) then update al (set_prev_available 0) else mret tt);;
      mret (Z.lxor ret 1)
    else mret ret.

Definition head : ST block_list Z :=
  block ← gets iter_list;
  blk ← deref block;
  mret (node_addr block (find_first_one 64 (wnot 64 (node_slots blk)))).

(** A block with no element left: it leaves [iter_list], and is freed unless
    it is the only one with free slots; [true] when it was freed. *)
Definition retire (block : Z) : ST block_list bool :=
  unlink_block block;;
  al ← gets available_list;
  blk ← deref al;
  if negb (next_available blk =? 0) then
    unlink_available block;;
    free_block block;;
    mret true
  else mret false.

Definition pop : ST block_list Z :=
  block ← gets iter_list;
  blk ← deref block;
  let slots := wnot 64 (node_slots blk) in
  let n := node_addr block (find_first_one 64 slots) in
  (if slots =? wnot 64 0 then link_available block else mret tt);;
  let slots := Z.land slots (u64 (slots - 1)) in
  freed ← (if slots =? 0 then retire block else mret false);
  if (freed : bool) then mret n
  else
    update block (set_slots (wnot 64 slots));;
    mret n.

Definition remove_batch (block mask : Z) : ST block_list unit :=
  destroy_batch block mask;;
  ret ← nb_drop block mask;
  if ret =? mask then link_available block
  else if ret =? wnot 64 0 then retire block;; mret tt
  else mret tt.

(** The node at address [n]: the block and the slot it is in. *)
Definition node_at (n : Z) (s : block_list) : option (Z * Z) :=
  list_find (λ bi, node_addr (bi.1) (bi.2) = n)
    ((map_to_list (blocks s)).*1 ≫= λ b, (λ i, (b, i)) <$> seqZ 0 64) ≫= λ r, Some (r.2).

(** [n->idx]. *)
Definition read_idx (n : Z) : ST block_list Z :=
  s ← gets id;
  bi ← from_opt (node_at n s);
  blk ← deref (bi.1);
  o ← from_opt (nodes blk !! Z.to_nat (bi.2));
  o ← from_opt o;
  mret (idx o).

Definition remove (n : Z) : ST block_list unit :=
  i ← read_idx n;
  let block := get_block n i in
  node_destroy block i;;
  drop_mask ← from_opt (drop_mask i);
  ret ← nb_drop block drop_mask;
  if ret =? drop_mask then link_available block
  else if ret =? wnot 64 0 then retire block;; mret tt
  else mret tt.

(** [destroy] of the list: the walk starts at [available_list] and follows
    [next_iter]. *)
Fixpoint bl_destroy_from (fuel : nat) (tmp : Z) : ST block_list unit :=
  match fuel with
  | O => out_of_fuel
  | S fuel =>
      if tmp =? 0 then mret tt
      else
        nb_destroy tmp;;
        blk ← deref tmp;
        bl_destroy_from fuel (next_iter blk)
  end.

Definition bl_destroy (fuel : nat) : ST block_list unit :=
  tmp ← gets available_list; bl_destroy_from fuel tmp.

(** The destructor. *)
Definition bl_destructor (fuel : nat) : ST block_list unit :=
  l ← gets iter_list;
  if negb (l =? 0) then bl_destroy fuel else mret tt.

(** The two walks of [check]; [count] is a [uint32_t]. *)
Fixpoint check_available (fuel : nat) (tmp count : Z) : ST block_list Z :=
  match fuel with
  | O => out_of_fuel
  | S fuel =>
      if tmp =? 0 then mret count
      else
        blk ← deref tmp;
        require (negb (node_slots blk =? 0));;
        (if negb (next_available blk =? 0) then
           nxt ← deref (next_available blk);
           require (prev_available nxt =? tmp)
         else mret tt);;
        check_available fuel (next_available blk) (u32 (count + 1))
  end.

Fixpoint check_iter (fuel : nat) (tmp count : Z) : ST block_list Z :=
  match fuel with
  | O => out_of_fuel
  | S fuel =>
      if tmp =? 0 then mret count
      else
        blk ← deref tmp;
        (if negb (next_iter blk =? 0) then
           nxt ← deref (next_iter blk);
           require (prev_iter nxt =? tmp)
         else mret tt);;
        check_iter fuel (next_iter blk)
          (if negb (node_slots blk =? 0) then u32 (count - 1) else count)
  end.

Definition bl_check (fuel : nat) : ST block_list unit :=
  tmp ← gets available_list;
  count ← check_available fuel tmp 0;
  tmp ← gets iter_list;
  count ← check_iter fuel tmp count;
  require ((count =? 0) || (count =? 1)).

(** ** Iterators *)

(** [node_iterator]: the block and the slots not visited yet. *)
Definition nbegin : ST block_list (Z * Z) :=
  block ← gets iter_list;
  if block =? 0 then mret (0, 0)
  else
    blk ← deref block;
    mret (block, wnot 64 (node_slots blk)).

Definition it_end (it : Z * Z) : bool := it.1 =? 0.

Definition it_get (it : Z * Z) : Z := node_addr (it.1) (find_first_one 64 (it.2)).

Definition it_next (it : Z * Z) : ST block_list (Z * Z) :=
  let slots := Z.land (it.2) (u64 (it.2 - 1)) in
  if slots =? 0 then
    blk ← deref (it.1);
    let block := next_iter blk in
    if negb (block =? 0) then
      blk ← deref block;
      mret (block, wnot 64 (node_slots blk))
    else mret (block, slots)
  else mret (it.1, slots).

(** [single_node_iterator]: the nodes of one block. *)
Definition single_begin (block : Z) : ST block_list (Z * Z) :=
  if block =? 0 then mret (0, 0)
  else
    blk ← deref block;
    mret (block, wnot 64 (node_slots blk)).
Definition single_get (it : Z * Z) : Z := node_addr (it.1) (find_first_one 64 (it.2)).
Definition single_end (it : Z * Z) : bool := it.2 =? 0.
Definition single_next (it : Z * Z) : Z * Z := (it.1, Z.land (it.2) (u64 (it.2 - 1))).

(** [block_iterator]. *)
Definition bbegin : ST block_list Z := gets iter_list.
Definition block_end (block : Z) : bool := block =? 0.
Definition block_next (block : Z) : ST block_list Z := blk ← deref block; mret (next_iter blk).

(** The loop of the clients: the addresses visited. *)
Fixpoint visit (fuel : nat) (it : Z * Z) : ST block_list (list Z) :=
  match fuel with
  | O => out_of_fuel
  | S fuel =>
      if it_end it then mret []
      else
        it' ← it_next it;
        l ← visit fuel it';
        mret (it_get it :: l)
  end.

Definition visit_all (fuel : nat) : ST block_list (list Z) := it ← nbegin; visit fuel it.
End BlockList.
