(* ===== verification/BlockListCorrect.v ===== *)
(** * Correctness of the block list

    Doubly linked lists over a map of links, the invariant of the block list,
    and the effect of its operations on the elements it holds. *)

From S2P Require Import Prelude Bits BlockList.

(** ** Doubly linked lists

    A map gives each block its next and previous pointer; [dl L p h l] says the
    blocks from [h] on are [l], the first with previous pointer [p]. *)

Fixpoint dl (L : gmap Z (Z * Z)) (p h : Z) (l : list Z) : Prop :=
  match l with
  | [] => h = 0
  | a :: l => h = a ∧ a ≠ 0 ∧ ∃ n, L !! a = Some (n, p) ∧ dl L a n l
  end.

Definition L_link (a h : Z) (L : gmap Z (Z * Z)) : gmap Z (Z * Z) :=
  let L := alter (λ e, (h, e.2)) a L in
  if h =? 0 then L else alter (λ e, (e.1, a)) h L.

Definition L_unlink (n q : Z) (L : gmap Z (Z * Z)) : gmap Z (Z * Z) :=
  let L := if n =? 0 then L else alter (λ e, (e.1, q)) n L in
  if q =? 0 then L else alter (λ e, (n, e.2)) q L.

Lemma dl_ext L L' p h l :
  dl L p h l → (∀ a, a ∈ l → L' !! a = L !! a) → dl L' p h l.
Proof.
  revert p h. induction l as [|a l IH]; simpl; [done|].
  intros p h (-> & Ha & n & Hn & Hl) Hext. split; [done|]. split; [done|].
  exists n. rewrite Hext by set_solver. split; [done|]. apply IH; [done|].
  intros b Hb. apply Hext. set_solver.
Qed.

Lemma dl_head L p h l : dl L p h l → h = default 0 (list.head l).
Proof. destruct l; simpl; [done|]. by intros [-> _]. Qed.

Lemma dl_nonzero L p h l : dl L p h l → 0 ∉ l.
Proof.
  revert p h. induction l as [|a l IH]; simpl; intros p h; [set_solver|].
  intros (-> & Ha & n & _ & Hl). apply IH in Hl. set_solver.
Qed.

Lemma dl_lookup L p h l a : dl L p h l → a ∈ l → is_Some (L !! a).
Proof.
  revert p h. induction l as [|b l IH]; simpl; intros p h; [set_solver|].
  intros (-> & _ & n & Hn & Hl) [->|Ha]%elem_of_cons; [by eexists|by eapply IH].
Qed.

(** The previous pointer of the first block changes. *)
Lemma dl_set_prev L p q h l :
  dl L p h l → NoDup l → dl (if h =? 0 then L else alter (λ e, (e.1, q)) h L) q h l.
Proof.
  destruct l as [|a l]; simpl; [done|]. intros (-> & Ha & n & Hn & Hl) Hnd.
  rewrite (proj2 (Z.eqb_neq a 0) Ha). split; [done|]. split; [done|].
  exists n. rewrite lookup_alter_eq, Hn. split; [done|]. apply dl_ext with L; [done|].
  intros b Hb. apply lookup_alter_ne. apply NoDup_cons in Hnd as [Hnd _]. set_solver.
Qed.

Lemma dl_link L h l a x :
  dl L 0 h l → NoDup l → L !! a = Some (x, 0) → a ∉ l → a ≠ 0 → dl (L_link a h L) 0 a (a :: l).
Proof.
  intros Hl Hnd Ha Hin H0. split; [done|]. split; [done|]. exists h. unfold L_link.
  assert (dl (alter (λ e, (h, e.2)) a L) 0 h l) as Hl1.
  { apply dl_ext with L; [done|]. intros b Hb. apply lookup_alter_ne. set_solver. }
  split; [|by apply dl_set_prev with 0].
  assert (alter (λ e, (h, e.2)) a L !! a = Some (h, 0)) as Ha1 by (by rewrite lookup_alter_eq, Ha).
  destruct (Z.eqb_spec h 0) as [|Hh]; [done|]. rewrite lookup_alter_ne; [done|].
  intros ->. apply dl_head in Hl. destruct l as [|b l]; simpl in Hl; [done|]. set_solver.
Qed.

(** Unlinking the block between [l1] and [l2]. *)
Lemma dl_unlink_at L p h l1 a l2 :
  dl L p h (l1 ++ a :: l2) → NoDup (l1 ++ a :: l2) → p ∉ l1 ++ a :: l2 →
  ∃ n q, L !! a = Some (n, q) ∧ q = default p (last l1) ∧ n = default 0 (list.head l2) ∧
    dl (L_unlink n q L) p (if l1 then n else h) (l1 ++ l2).
Proof.
  revert p h. induction l1 as [|b l1 IH]; intros p h; simpl.
  - intros (-> & Ha & n & Hn & Hl) [Hna Hnd]%NoDup_cons Hp. exists n, p.
    split; [done|]. split; [done|]. split; [by eapply dl_head|].
    unfold L_unlink. pose proof (dl_set_prev L a p n l2 Hl Hnd) as Hl'.
    destruct (p =? 0); [done|]. apply dl_ext with (1 := Hl').
    intros c Hc. apply lookup_alter_ne. set_solver.
  - intros (-> & Hb & nb & Hnb & Hl) [Hbn Hnd]%NoDup_cons Hp.
    destruct (IH b nb Hl Hnd Hbn) as (n & q & Hn & Hq & Hn2 & Hl').
    exists n, q. split; [done|]. split; [rewrite last_cons; by destruct (last l1)|].
    split; [done|]. split; [done|]. split; [done|].
    assert (n ≠ b) as Hne.
    { rewrite Hn2. destruct l2 as [|c l2]; simpl; [lia|]. set_solver. }
    assert (L_unlink n q L !! b = Some (if l1 then n else nb, p)) as Hlk.
    { unfold L_unlink. destruct l1 as [|c l1]; simpl in Hq.
      - subst q. rewrite (proj2 (Z.eqb_neq b 0) Hb), lookup_alter_eq.
        destruct (n =? 0); [by rewrite Hnb|]. by rewrite lookup_alter_ne, Hnb.
      - assert (q ≠ b) as Hqb.
        { rewrite Hq. destruct (last (c :: l1)) as [z|] eqn:E; simpl.
          - apply last_Some_elem_of in E. set_solver.
          - by apply last_None in E. }
        destruct (q =? 0); destruct (n =? 0); rewrite ?lookup_alter_ne by done; done. }
    exists (if l1 then n else nb). split; [done|]. by destruct l1.
Qed.

(** ** Views of the blocks *)

Section Views.
Context {T : Type}.

Definition iter_links (m : gmap Z (node_block T)) : gmap Z (Z * Z) :=
  (λ b, (next_iter b, prev_iter b)) <$> m.
Definition avail_links (m : gmap Z (node_block T)) : gmap Z (Z * Z) :=
  (λ b, (next_available b, prev_available b)) <$> m.
Definition data (m : gmap Z (node_block T)) : gmap Z (Z * list (option (node T))) :=
  (λ b, (node_slots b, nodes b)) <$> m.

Lemma fmap_alter_same {A B} (g : A → B) f i (m : gmap Z A) :
  (∀ x, g (f x) = g x) → g <$> alter f i m = g <$> m.
Proof.
  intros H. apply map_eq. intros j. rewrite !lookup_fmap.
  destruct (decide (i = j)) as [->|]; [|by rewrite lookup_alter_ne].
  rewrite lookup_alter_eq. destruct (m !! j); simpl; [|done]. by rewrite H.
Qed.

Lemma data_lookup m b sl ns :
  data m !! b = Some (sl, ns) ↔ ∃ blk, m !! b = Some blk ∧ node_slots blk = sl ∧ nodes blk = ns.
Proof. unfold data. rewrite lookup_fmap_Some. naive_solver. Qed.

Lemma data_is_Some m b : is_Some (data m !! b) ↔ is_Some (m !! b).
Proof. unfold data. by rewrite lookup_fmap, fmap_is_Some. Qed.
End Views.

(** ** Operations on links *)

Section Links.
Context {T : Type}.
Implicit Types s : block_list T.

Lemma wp_deref total b Q s blk : blocks s !! b = Some blk → Q blk s → wp total (deref b) Q s.
Proof. intros Hb HQ. unfold deref. repeat wp_step; done. Qed.

Lemma wp_update total b f Q s :
  is_Some (blocks s !! b) → Q tt (set_blocks (alter f b (blocks s)) s) →
  wp total (update b f) Q s.
Proof.
  intros [blk Hb] HQ. unfold update. wp_step. apply wp_deref with blk; [done|]. by wp_step.
Qed.

(** What link operations leave alone. *)
Record links_frame s s' : Prop := {
  lf_data : data (blocks s') = data (blocks s);
  lf_destroyed : destroyed s' = destroyed s
}.

Lemma wp_link_available total a Q s :
  is_Some (blocks s !! a) → (available_list s = 0 ∨ is_Some (blocks s !! available_list s)) →
  (∀ s', links_frame s s' → iter_list s' = iter_list s → available_list s' = a →
    iter_links (blocks s') = iter_links (blocks s) →
    avail_links (blocks s') = L_link a (available_list s) (avail_links (blocks s)) →
    Q tt s') →
  wp total (link_available a) Q s.
Proof.
  intros Ha Hh HQ. unfold link_available. do 2 wp_step. wp_step. apply wp_update; [done|].
  wp_step. unfold L_link in HQ. destruct (Z.eqb_spec (available_list s) 0) as [H0|H0]; cbn [negb].
  - do 2 wp_step. apply HQ; try done.
    + split; [|done]. by apply fmap_alter_same.
    + by apply fmap_alter_same.
    + by apply fmap_alter.
  - destruct Hh as [|Hh]; [done|]. apply wp_update; [simpl; by apply lookup_alter_is_Some|].
    wp_step. apply HQ; try done; simpl.
    + split; [|done]. simpl. unfold data. by rewrite !fmap_alter_same.
    + unfold iter_links. by rewrite !fmap_alter_same.
    + unfold avail_links. rewrite (fmap_alter _ _ (λ e, (e.1, a))) by done.
      f_equal. by apply fmap_alter.
Qed.

Lemma wp_link_block total a Q s :
  is_Some (blocks s !! a) → (iter_list s = 0 ∨ is_Some (blocks s !! iter_list s)) →
  (∀ s', links_frame s s' → available_list s' = available_list s → iter_list s' = a →
    avail_links (blocks s') = avail_links (blocks s) →
    iter_links (blocks s') = L_link a (iter_list s) (iter_links (blocks s)) →
    Q tt s') →
  wp total (link_block a) Q s.
Proof.
  intros Ha Hh HQ. unfold link_block. do 2 wp_step. wp_step. apply wp_update; [done|].
  wp_step. unfold L_link in HQ. destruct (Z.eqb_spec (iter_list s) 0) as [H0|H0]; cbn [negb].
  - do 2 wp_step. apply HQ; try done.
    + split; [|done]. by apply fmap_alter_same.
    + by apply fmap_alter_same.
    + by apply fmap_alter.
  - destruct Hh as [|Hh]; [done|]. apply wp_update; [simpl; by apply lookup_alter_is_Some|].
    wp_step. apply HQ; try done; simpl.
    + split; [|done]. simpl. unfold data. by rewrite !fmap_alter_same.
    + unfold avail_links. by rewrite !fmap_alter_same.
    + unfold iter_links. rewrite (fmap_alter _ _ (λ e, (e.1, a))) by done.
      f_equal. by apply fmap_alter.
Qed.

Lemma wp_unlink_available total a Q s n q :
  avail_links (blocks s) !! a = Some (n, q) →
  (n = 0 ∨ is_Some (blocks s !! n)) → (q = 0 ∨ is_Some (blocks s !! q)) →
  (∀ s', links_frame s s' → iter_list s' = iter_list s →
    available_list s' = (if q =? 0 then n else available_list s) →
    iter_links (blocks s') = iter_links (blocks s) →
    avail_links (blocks s') = L_unlink n q (avail_links (blocks s)) →
    Q tt s') →
  wp total (unlink_available a) Q s.
Proof.
  intros Ha Hn Hq HQ. unfold avail_links in Ha.
  apply lookup_fmap_Some in Ha as (blk & [= Hn1 Hq1] & Ha).
  unfold unlink_available. wp_step. apply wp_deref with blk; [done|].
  rewrite Hn1, Hq1. unfold L_unlink in HQ. wp_step.
  assert (∀ s1, links_frame s s1 → iter_list s1 = iter_list s →
    available_list s1 = available_list s → iter_links (blocks s1) = iter_links (blocks s) →
    (∀ b, is_Some (blocks s !! b) → is_Some (blocks s1 !! b)) →
    avail_links (blocks s1) =
      (if n =? 0 then avail_links (blocks s)
       else alter (λ e, (e.1, q)) n (avail_links (blocks s))) →
    wp total (if negb (q =? 0) then update q (set_next_available n)
              else modify (set_available_list n)) Q s1) as Hsnd.
  { intros s1 Hf Hi Hl Hil Hdom Hal. destruct (Z.eqb_spec q 0) as [H0|H0]; cbn [negb].
    - wp_step. apply HQ; try done. by destruct Hf.
    - destruct Hq as [|Hq]; [done|]. apply wp_update; [by apply Hdom|].
      apply HQ; simpl; try done.
      + destruct Hf. split; [|done]. simpl. unfold data. by rewrite fmap_alter_same.
      + unfold iter_links. by rewrite fmap_alter_same.
      + rewrite <-Hal. by apply fmap_alter. }
  destruct (Z.eqb_spec n 0) as [H0|H0]; cbn [negb].
  - wp_step. by apply Hsnd.
  - destruct Hn as [|Hn]; [done|]. apply wp_update; [done|]. apply Hsnd; simpl; try done.
    + split; [|done]. simpl. unfold data. by rewrite fmap_alter_same.
    + unfold iter_links. by rewrite fmap_alter_same.
    + intros b Hb. by apply lookup_alter_is_Some.
    + by apply fmap_alter.
Qed.

Lemma wp_unlink_block total a Q s n q :
  iter_links (blocks s) !! a = Some (n, q) →
  (n = 0 ∨ is_Some (blocks s !! n)) → (q = 0 ∨ is_Some (blocks s !! q)) →
  (∀ s', links_frame s s' → available_list s' = available_list s →
    iter_list s' = (if q =? 0 then n else iter_list s) →
    avail_links (blocks s') = avail_links (blocks s) →
    iter_links (blocks s') = L_unlink n q (iter_links (blocks s)) →
    Q tt s') →
  wp total (unlink_block a) Q s.
Proof.
  intros Ha Hn Hq HQ. unfold iter_links in Ha.
  apply lookup_fmap_Some in Ha as (blk & [= Hn1 Hq1] & Ha).
  unfold unlink_block. wp_step. apply wp_deref with blk; [done|].
  rewrite Hn1, Hq1. unfold L_unlink in HQ. wp_step.
  assert (∀ s1, links_frame s s1 → available_list s1 = available_list s →
    iter_list s1 = iter_list s → avail_links (blocks s1) = avail_links (blocks s) →
    (∀ b, is_Some (blocks s !! b) → is_Some (blocks s1 !! b)) →
    iter_links (blocks s1) =
      (if n =? 0 then iter_links (blocks s)
       else alter (λ e, (e.1, q)) n (iter_links (blocks s))) →
    wp total (if negb (q =? 0) then update q (set_next_iter n)
              else modify (set_iter_list n)) Q s1) as Hsnd.
  { intros s1 Hf Hi Hl Hil Hdom Hal. destruct (Z.eqb_spec q 0) as [H0|H0]; cbn [negb].
    - wp_step. apply HQ; try done. by destruct Hf.
    - destruct Hq as [|Hq]; [done|]. apply wp_update; [by apply Hdom|].
      apply HQ; simpl; try done.
      + destruct Hf. split; [|done]. simpl. unfold data. by rewrite fmap_alter_same.
      + unfold avail_links. by rewrite fmap_alter_same.
      + rewrite <-Hal. by apply fmap_alter. }
  destruct (Z.eqb_spec n 0) as [H0|H0]; cbn [negb].
  - wp_step. by apply Hsnd.
  - destruct Hn as [|Hn]; [done|]. apply wp_update; [done|]. apply Hsnd; simpl; try done.
    + split; [|done]. simpl. unfold data. by rewrite fmap_alter_same.
    + unfold avail_links. by rewrite fmap_alter_same.
    + intros b Hb. by apply lookup_alter_is_Some.
    + by apply fmap_alter.
Qed.
End Links.

(** ** The invariant *)

Definition sizeof_block (sizeof_node : Z) : Z := 40 + 64 * sizeof_node.

Section Invariant.
Context {T : Type} (sizeof_node : Z).
Context (Hsize : 4 ≤ sizeof_node) (Heven : sizeof_node mod 2 = 0).

Implicit Types D : gmap Z (Z * list (option (node T))).

Abbreviation node_addr := (node_addr sizeof_node).
Abbreviation sizeof_block := (sizeof_block sizeof_node).

(** The taken slots of a block hold nodes that know their index. *)
Definition block_ok (sl : Z) (ns : list (option (node T))) : Prop :=
  is_word 64 sl ∧ length ns = 64%nat ∧
  ∀ i, 0 ≤ i < 64 → Z.testbit sl i = false →
    ∃ v, ns !! Z.to_nat i = Some (Some (mk_node v i)).

(** [li] and [la] are the blocks on the two lists. *)
Record inv (IL AL : gmap Z (Z * Z)) D (il al : Z) (li la : list Z) : Prop := {
  inv_iter : dl IL 0 il li;
  inv_avail : dl AL 0 al la;
  inv_nd_iter : NoDup li;
  inv_nd_avail : NoDup la;
  inv_dom b : b ∈ li ∨ b ∈ la → is_Some (D !! b);
  inv_dom_avail b : is_Some (D !! b) → is_Some (AL !! b);
  inv_block b sl ns : D !! b = Some (sl, ns) → block_ok sl ns;
  inv_in_avail b sl ns : D !! b = Some (sl, ns) → b ∈ la ↔ sl ≠ 0;
  inv_in_iter b sl ns : D !! b = Some (sl, ns) → b ∈ li ↔ sl ≠ FULL_MASK;
  inv_last b ns : D !! b = Some (FULL_MASK, ns) → last la = Some b;
  inv_prev b n p : AL !! b = Some (n, p) → b ∉ la → p = 0;
  inv_apart b b' : is_Some (D !! b) → is_Some (D !! b') → b < b' → b + sizeof_block ≤ b';
  inv_addr b : is_Some (D !! b) → 0 < b ∧ b mod 2 = 0 ∧ b + sizeof_block ≤ 2 ^ 64
}.

Arguments inv_iter {IL AL D il al li la}.
Arguments inv_avail {IL AL D il al li la}.
Arguments inv_nd_iter {IL AL D il al li la}.
Arguments inv_nd_avail {IL AL D il al li la}.
Arguments inv_dom {IL AL D il al li la}.
Arguments inv_dom_avail {IL AL D il al li la}.
Arguments inv_block {IL AL D il al li la}.
Arguments inv_in_avail {IL AL D il al li la}.
Arguments inv_in_iter {IL AL D il al li la}.
Arguments inv_last {IL AL D il al li la}.
Arguments inv_prev {IL AL D il al li la}.
Arguments inv_apart {IL AL D il al li la}.
Arguments inv_addr {IL AL D il al li la}.

(** The list holds [v] at address [x]. *)
Definition elem D (x : Z) (v : T) : Prop :=
  ∃ b sl ns i, D !! b = Some (sl, ns) ∧ 0 ≤ i < 64 ∧ Z.testbit sl i = false ∧
    ns !! Z.to_nat i = Some (Some (mk_node v i)) ∧ x = node_addr b i.

Lemma node_addr_inj IL AL D il al li la b b' i i' :
  inv IL AL D il al li la → is_Some (D !! b) → is_Some (D !! b') →
  0 ≤ i < 64 → 0 ≤ i' < 64 → node_addr b i = node_addr b' i' → b = b' ∧ i = i'.
Proof.
  intros Hinv Hb Hb' Hi Hi' Heq. unfold BlockList.node_addr in Heq.
  assert (b = b') as ->.
  { destruct (Z.lt_total b b') as [Hlt|[?|Hlt]]; [|done|].
    - pose proof (inv_apart Hinv b b' Hb Hb' Hlt). unfold BlockListCorrect.sizeof_block in *. nia.
    - pose proof (inv_apart Hinv b' b Hb' Hb Hlt). unfold BlockListCorrect.sizeof_block in *. nia. }
  split; [done|]. nia.
Qed.

(** A new set of slots for one block. *)
Lemma elem_insert D b sl ns x v :
  elem (<[b := (sl, ns)]> D) x v ↔
    (∃ i, 0 ≤ i < 64 ∧ Z.testbit sl i = false ∧
       ns !! Z.to_nat i = Some (Some (mk_node v i)) ∧ x = node_addr b i) ∨
    elem (delete b D) x v.
Proof.
  split.
  - intros (c & sl' & ns' & i & Hc & Hi & Hb & Hn & Hx).
    destruct (decide (c = b)) as [->|Hne].
    + rewrite lookup_insert_eq in Hc. simplify_eq. left. by exists i.
    + rewrite lookup_insert_ne in Hc by done. right. exists c, sl', ns', i.
      by rewrite lookup_delete_ne.
  - intros [(i & Hi & Hb & Hn & Hx)|(c & sl' & ns' & i & Hc & Hrest)].
    + exists b, sl, ns, i. by rewrite lookup_insert_eq.
    + apply lookup_delete_Some in Hc as [Hne Hc]. exists c, sl', ns', i.
      by rewrite lookup_insert_ne.
Qed.

Lemma elem_split D b sl ns x v :
  D !! b = Some (sl, ns) →
  elem D x v ↔
    (∃ i, 0 ≤ i < 64 ∧ Z.testbit sl i = false ∧
       ns !! Z.to_nat i = Some (Some (mk_node v i)) ∧ x = node_addr b i) ∨
    elem (delete b D) x v.
Proof. intros Hb. rewrite <-elem_insert. by rewrite insert_id. Qed.

Lemma elem_other IL AL D il al li la b i x v :
  inv IL AL D il al li la → is_Some (D !! b) → 0 ≤ i < 64 →
  elem (delete b D) x v → x ≠ node_addr b i.
Proof.
  intros Hinv Hb Hi (c & sl & ns & j & Hc & Hj & _ & _ & ->) Heq.
  apply lookup_delete_Some in Hc as [Hne Hc].
  destruct (node_addr_inj IL AL D il al li la c b j i Hinv) as [? _]; try done.
Qed.

(** Slot [i] of block [b] is taken for [v]. *)
Lemma elem_take IL AL D il al li la b sl sl' ns i v :
  inv IL AL D il al li la → D !! b = Some (sl, ns) → 0 ≤ i < 64 → Z.testbit sl i = true →
  (∀ j, 0 ≤ j < 64 → Z.testbit sl' j = Z.testbit sl j && negb (j =? i)) →
  let D' := <[b := (sl', <[Z.to_nat i := Some (mk_node v i)]> ns)]> D in
  ∀ x w, elem D' x w ↔ (x = node_addr b i ∧ w = v) ∨ elem D x w.
Proof.
  intros Hinv Hb Hi Hbit Hsl' D' x w. unfold D'.
  rewrite elem_insert, (elem_split D b sl ns) by done.
  destruct (inv_block Hinv b sl ns Hb) as (_ & Hlen & _).
  split.
  - intros [(j & Hj & Hbj & Hn & ->)|H]; [|by auto].
    destruct (decide (j = i)) as [->|Hne].
    + rewrite list_lookup_insert_eq in Hn by lia. simplify_eq. by left.
    + right. left. exists j. rewrite list_lookup_insert_ne in Hn by lia.
      rewrite Hsl', (proj2 (Z.eqb_neq j i)), andb_true_r in Hbj by done. done.
  - intros [[-> ->]|[(j & Hj & Hbj & Hn & ->)|H]]; [| |by auto].
    + left. exists i. rewrite list_lookup_insert_eq by lia.
      rewrite Hsl', Z.eqb_refl, andb_false_r by done. done.
    + left. exists j. assert (j ≠ i) by congruence.
      rewrite list_lookup_insert_ne by lia. by rewrite Hsl', Hbj.
Qed.

(** Slot [i] of block [b] is given back. *)
Lemma elem_give IL AL D il al li la b sl sl' ns i :
  inv IL AL D il al li la → D !! b = Some (sl, ns) → 0 ≤ i < 64 →
  (∀ j, 0 ≤ j < 64 → Z.testbit sl' j = Z.testbit sl j || (j =? i)) →
  ∀ x w, elem (<[b := (sl', ns)]> D) x w ↔ elem D x w ∧ x ≠ node_addr b i.
Proof.
  intros Hinv Hb Hi Hsl' x w. rewrite elem_insert, (elem_split D b sl ns) by done. split.
  - intros [(j & Hj & Hbj & Hn & ->)|H].
    + rewrite Hsl' in Hbj by done. apply orb_false_iff in Hbj as [Hbj Hji].
      split; [left; by exists j|]. intros Heq.
      destruct (node_addr_inj IL AL D il al li la b b j i Hinv) as [_ ->]; try done; lia.
    + split; [by right|]. by eapply elem_other.
  - intros [[(j & Hj & Hbj & Hn & ->)|H] Hne]; [|by auto].
    left. exists j. rewrite Hsl', Hbj by done. simpl.
    rewrite (proj2 (Z.eqb_neq j i)) by congruence. done.
Qed.

(** A block without elements can go. *)
Lemma elem_delete D b ns x w : elem (<[b := (FULL_MASK, ns)]> D) x w ↔ elem (delete b D) x w.
Proof.
  rewrite elem_insert. split; [|by auto]. intros [(i & Hi & Hb & _)|]; [|done].
  unfold FULL_MASK in Hb. replace (2 ^ 64 - 1) with (Z.ones 64) in Hb by done.
  rewrite Z.ones_spec_low in Hb by lia. done.
Qed.

(** ** Changing the invariant *)

Lemma block_ok_take sl ns i v :
  block_ok sl ns → sl ≠ 0 → i = instr_tzcnt 64 sl →
  block_ok (blsr sl) (<[Z.to_nat i := Some (mk_node v i)]> ns).
Proof.
  intros (Hw & Hlen & Hns) H0 Hi. unfold is_word in Hw.
  pose proof (tzcnt_lt 64 sl) as Hlt.
  split; [by apply blsr_word|]. split; [by rewrite length_insert|].
  intros j Hj Hb. rewrite blsr_testbit in Hb by (unfold is_word; lia).
  destruct (decide (j = i)) as [->|Hne].
  - exists v. apply list_lookup_insert_eq. lia.
  - rewrite list_lookup_insert_ne by lia. apply Hns; [done|].
    rewrite (proj2 (Z.eqb_neq _ _)), andb_true_r in Hb by congruence. done.
Qed.

Lemma block_ok_give sl ns i :
  block_ok sl ns → 0 ≤ i < 64 → block_ok (Z.lor sl (1 ≪ i)) ns.
Proof.
  intros (Hw & Hlen & Hns) Hi. split; [|split; [done|]].
  - apply word_lor; [lia|done|]. apply word_bit; lia.
  - intros j Hj Hb. rewrite Z.lor_spec in Hb. apply orb_false_iff in Hb as [Hb _]. by apply Hns.
Qed.

(** The data of block [b] and the lists change. *)
Lemma inv_change IL AL D il al li la IL' AL' il' al' li' la' b sl ns sl' ns' :
  inv IL AL D il al li la → D !! b = Some (sl, ns) → block_ok sl' ns' →
  dl IL' 0 il' li' → dl AL' 0 al' la' → NoDup li' → NoDup la' →
  (∀ c, c ≠ b → c ∈ li' ↔ c ∈ li) → (∀ c, c ≠ b → c ∈ la' ↔ c ∈ la) →
  (b ∈ li' ↔ sl' ≠ FULL_MASK) → (b ∈ la' ↔ sl' ≠ 0) →
  (sl' = FULL_MASK → last la' = Some b) →
  (∀ c ns, c ≠ b → D !! c = Some (FULL_MASK, ns) → last la' = Some c) →
  (∀ c, is_Some (D !! c) → is_Some (AL' !! c)) →
  (∀ c n p, AL' !! c = Some (n, p) → c ∉ la' → p = 0) →
  inv IL' AL' (<[b := (sl', ns')]> D) il' al' li' la'.
Proof.
  intros Hinv Hb Hok Hil Hal Hndi Hnda Hli Hla Hbi Hba Hlast Hlast' Hdom Hprev.
  assert (∀ c, is_Some (<[b := (sl', ns')]> D !! c) ↔ is_Some (D !! c)) as Hd.
  { intros c. rewrite lookup_insert_is_Some'. split; [|by right]. intros [<-|]; [|done].
    by eexists. }
  constructor; try done.
  - intros c Hc. apply Hd. destruct (decide (c = b)) as [->|Hne]; [by eexists|].
    apply (inv_dom Hinv). rewrite <-Hli, <-Hla by done. done.
  - intros c Hc%Hd. by apply Hdom.
  - intros c sl1 ns1 [[<- [= <- <-]]|[Hne Hc]]%lookup_insert_Some; [done|].
    by apply (inv_block Hinv c).
  - intros c sl1 ns1 [[<- [= <- <-]]|[Hne Hc]]%lookup_insert_Some; [done|].
    rewrite Hla by done. by apply (inv_in_avail Hinv c sl1 ns1).
  - intros c sl1 ns1 [[<- [= <- <-]]|[Hne Hc]]%lookup_insert_Some; [done|].
    rewrite Hli by done. by apply (inv_in_iter Hinv c sl1 ns1).
  - intros c ns1 [[<- [= -> <-]]|[Hne Hc]]%lookup_insert_Some; [by apply Hlast|].
    by apply (Hlast' c ns1).
  - intros c c' Hc%Hd Hc'%Hd. by apply (inv_apart Hinv).
  - intros c Hc%Hd. by apply (inv_addr Hinv).
Qed.

(** Block [b] goes. *)
Lemma inv_delete IL AL D il al li la IL' AL' il' al' li' la' b :
  inv IL AL D il al li la →
  dl IL' 0 il' li' → dl AL' 0 al' la' → NoDup li' → NoDup la' → b ∉ li' → b ∉ la' →
  (∀ c, c ≠ b → c ∈ li' ↔ c ∈ li) → (∀ c, c ≠ b → c ∈ la' ↔ c ∈ la) →
  (∀ c ns, c ≠ b → D !! c = Some (FULL_MASK, ns) → last la' = Some c) →
  (∀ c, c ≠ b → is_Some (D !! c) → is_Some (AL' !! c)) →
  (∀ c n p, AL' !! c = Some (n, p) → c ∉ la' → p = 0) →
  inv IL' AL' (delete b D) il' al' li' la'.
Proof.
  intros Hinv Hil Hal Hndi Hnda Hbi Hba Hli Hla Hlast Hdom Hprev.
  assert (∀ c, is_Some (delete b D !! c) ↔ b ≠ c ∧ is_Some (D !! c)) as Hd.
  { intros c. by rewrite lookup_delete_is_Some. }
  constructor; try done.
  - intros c Hc. apply Hd. assert (c ≠ b) by (intros ->; by destruct Hc).
    split; [done|]. apply (inv_dom Hinv). rewrite <-Hli, <-Hla by done. done.
  - intros c [? ?]%Hd. by apply Hdom.
  - intros c sl1 ns1 [Hne Hc]%lookup_delete_Some. by apply (inv_block Hinv c).
  - intros c sl1 ns1 [Hne Hc]%lookup_delete_Some. rewrite Hla by done.
    by apply (inv_in_avail Hinv c sl1 ns1).
  - intros c sl1 ns1 [Hne Hc]%lookup_delete_Some. rewrite Hli by done.
    by apply (inv_in_iter Hinv c sl1 ns1).
  - intros c ns1 [Hne Hc]%lookup_delete_Some. by apply (Hlast c ns1).
  - intros c c' [_ Hc]%Hd [_ Hc']%Hd. by apply (inv_apart Hinv).
  - intros c [_ Hc]%Hd. by apply (inv_addr Hinv).
Qed.
End Invariant.

Arguments inv_iter {T sizeof_node IL AL D il al li la}.
Arguments inv_avail {T sizeof_node IL AL D il al li la}.
Arguments inv_nd_iter {T sizeof_node IL AL D il al li la}.
Arguments inv_nd_avail {T sizeof_node IL AL D il al li la}.
Arguments inv_dom {T sizeof_node IL AL D il al li la}.
Arguments inv_dom_avail {T sizeof_node IL AL D il al li la}.
Arguments inv_block {T sizeof_node IL AL D il al li la}.
Arguments inv_in_avail {T sizeof_node IL AL D il al li la}.
Arguments inv_in_iter {T sizeof_node IL AL D il al li la}.
Arguments inv_last {T sizeof_node IL AL D il al li la}.
Arguments inv_prev {T sizeof_node IL AL D il al li la}.
Arguments inv_apart {T sizeof_node IL AL D il al li la}.
Arguments inv_addr {T sizeof_node IL AL D il al li la}.

(** ** Insertion *)

(** The low bit of a node address carries a flag. *)
Lemma even_flag x :
  x mod 2 = 0 → Z.land x 1 = 0 ∧ Z.land (Z.lor x 1) 1 = 1 ∧ Z.lxor (Z.lor x 1) 1 = x.
Proof.
  intros Hx. assert (Z.testbit x 0 = false) as H0.
  { rewrite Z.bit0_odd, Zodd_mod, Hx. done. }
  assert (∀ i, 0 ≤ i → Z.testbit 1 i = (i =? 0)) as H1.
  { intros i Hi. destruct (Z.eqb_spec i 0) as [->|]; [done|].
    change 1 with (2 ^ 0). rewrite Z.pow2_bits_eqb by done. lia. }
  split_and!; apply Z.bits_inj'; intros i Hi;
    rewrite ?Z.lxor_spec, ?Z.land_spec, ?Z.lor_spec, ?Z.bits_0, ?H1 by done;
    destruct (Z.eqb_spec i 0) as [->|]; rewrite ?H0, ?andb_true_r, ?andb_false_r, ?orb_false_r,
      ?xorb_false_r; done.
Qed.

Section Operations.
Context {T : Type} (sizeof_node : Z) (trivial : bool).
Context (Hsize : 4 ≤ sizeof_node) (Heven : sizeof_node mod 2 = 0).

Implicit Types s : block_list T.

Abbreviation node_addr := (node_addr sizeof_node).
Abbreviation sizeof_block := (sizeof_block sizeof_node).
Abbreviation Inv s li la :=
  (inv sizeof_node (iter_links (blocks s)) (avail_links (blocks s)) (data (blocks s))
     (iter_list s) (available_list s) li la).
Abbreviation elem s := (elem sizeof_node (data (blocks s))).

(** What [calloc] returns: room for a block that overlaps no other. *)
Definition fresh_ok (a : Z) s : Prop :=
  0 < a ∧ a mod 2 = 0 ∧ a + sizeof_block ≤ 2 ^ 64 ∧
  ∀ b, is_Some (blocks s !! b) → b + sizeof_block ≤ a ∨ a + sizeof_block ≤ b.

(** The block [_insert] would use is empty and on no list of elements. *)
Definition orphaned s : bool :=
  negb (iter_list s =? 0) &&
  match blocks s !! available_list s with
  | Some blk => node_slots blk =? FULL_MASK
  | None => false
  end.

Lemma node_addr_even b i : b mod 2 = 0 → node_addr b i mod 2 = 0.
Proof.
  intros Hb. unfold BlockList.node_addr. rewrite Z.add_mod, Z.mul_mod, Heven by done.
  rewrite (Z.add_mod b 40), Hb by done. by rewrite Z.mul_0_r.
Qed.

Lemma sizeof_block_pos : 0 < sizeof_block.
Proof. unfold BlockListCorrect.sizeof_block. lia. Qed.

(** A new block with the first slot taken. *)
Definition first_slots : Z := wnot 64 1.

Lemma first_slots_bit i : 0 ≤ i < 64 → Z.testbit first_slots i = negb (i =? 0).
Proof using Type.
  clear Hsize Heven.
  intros Hi. unfold first_slots. rewrite wnot_testbit by lia.
  rewrite (proj2 (Z.ltb_lt i 64)) by lia. by simpl.
Qed.

Lemma first_block_ok (v : T) (ns : list (option (node T))) :
  length ns = 64%nat → block_ok first_slots (<[0%nat := Some (mk_node v 0)]> ns).
Proof using Type.
  clear Hsize Heven.
  intros Hlen. split; [by vm_compute|]. split; [by rewrite length_insert|].
  intros i Hi Hb. rewrite first_slots_bit in Hb by done.
  assert (i = 0) as -> by (destruct (Z.eqb_spec i 0); done).
  exists v. apply list_lookup_insert_eq. lia.
Qed.

Lemma inv_add IL AL D il li fresh (v : T) :
  inv sizeof_node IL AL D il 0 li [] → D !! fresh = None → 0 < fresh → fresh mod 2 = 0 →
  fresh + sizeof_block ≤ 2 ^ 64 →
  (∀ b, is_Some (D !! b) → b + sizeof_block ≤ fresh ∨ fresh + sizeof_block ≤ b) →
  let ns := <[0%nat := Some (mk_node v 0)]> (replicate 64 None) in
  inv sizeof_node (L_link fresh il (<[fresh := (0, 0)]> IL))
    (L_link fresh 0 (<[fresh := (0, 0)]> AL)) (<[fresh := (first_slots, ns)]> D)
    fresh fresh (fresh :: li) [fresh].
Proof.
  intros Hinv Hnone H0 H2 Hhi Hapart ns.
  assert (fresh ∉ li) as Hli.
  { intros Hin. destruct (inv_dom Hinv fresh) as [? ?]; [by left|congruence]. }
  assert (∀ b sl ns, D !! b = Some (sl, ns) → sl = 0) as Hfull.
  { intros b sl ns' Hb. pose proof (inv_in_avail Hinv b sl ns' Hb) as H.
    destruct (decide (sl = 0)) as [|Hne]; [done|]. by apply H, not_elem_of_nil in Hne. }
  pose proof sizeof_block_pos.
  constructor.
  - eapply dl_link with (x := 0); [|apply Hinv|by rewrite lookup_insert_eq|done|lia].
    apply dl_ext with IL; [apply Hinv|]. intros a Ha. rewrite lookup_insert_ne; [done|set_solver].
  - unfold L_link. simpl. split; [done|]. split; [lia|]. exists 0.
    by rewrite lookup_alter_eq, lookup_insert_eq.
  - apply NoDup_cons. split; [done|apply Hinv].
  - apply NoDup_singleton.
  - intros b Hb. destruct (decide (b = fresh)) as [->|Hne]; [rewrite lookup_insert_eq; by eexists|].
    rewrite lookup_insert_ne by done. apply (inv_dom Hinv). left. set_solver.
  - intros b Hb. unfold L_link. simpl. apply lookup_alter_is_Some, lookup_insert_is_Some'.
    apply lookup_insert_is_Some' in Hb as [->|Hb]; [by left|right].
    by apply (inv_dom_avail Hinv).
  - intros b sl ns' [[<- [= <- <-]]|[Hne Hb]]%lookup_insert_Some; [by apply first_block_ok|].
    by apply (inv_block Hinv b).
  - intros b sl ns' [[<- [= <- <-]]|[Hne Hb]]%lookup_insert_Some.
    + split; [done|]. intros _. set_solver.
    + rewrite (Hfull b sl ns' Hb). set_solver.
  - intros b sl ns' [[<- [= <- <-]]|[Hne Hb]]%lookup_insert_Some.
    + split; [done|]. intros _. set_solver.
    + rewrite <-(inv_in_iter Hinv b sl ns' Hb). set_solver.
  - intros b ns' [[<- Hf]|[Hne Hb]]%lookup_insert_Some; [|by apply Hfull in Hb].
    by injection Hf.
  - intros b n p Hb Hin. unfold L_link in Hb. simpl in Hb.
    rewrite lookup_alter_ne, lookup_insert_ne in Hb by set_solver.
    apply (inv_prev Hinv b n p Hb). set_solver.
  - intros b b' [<-|Hb]%lookup_insert_is_Some' [<-|Hb']%lookup_insert_is_Some' Hlt; [lia| | |].
    + destruct (Hapart b' Hb'); lia.
    + destruct (Hapart b Hb); lia.
    + by apply (inv_apart Hinv).
  - intros b [<-|Hb]%lookup_insert_is_Some'; [done|]. by apply (inv_addr Hinv).
Qed.

(** What an insertion that returns [x] for [v] does. *)
Definition inserts s (x : Z) (v : T) s' : Prop :=
  (∀ w, ¬ elem s x w) ∧ destroyed s' = destroyed s ∧
  (∀ y w, elem s' y w ↔ (y = x ∧ w = v) ∨ elem s y w) ∧ ∃ li la, Inv s' li la.

Lemma available_empty s li la : Inv s li la → available_list s = 0 ↔ la = [].
Proof using Type.
  clear Hsize Heven.
  intros Hinv. pose proof (dl_head _ _ _ _ (inv_avail Hinv)) as Hh.
  pose proof (dl_nonzero _ _ _ _ (inv_avail Hinv)) as H0.
  destruct la as [|a la]; simpl in Hh; [done|]. split; [|done]. rewrite Hh. intros ->. set_solver.
Qed.

Lemma iter_empty s li la : Inv s li la → iter_list s = 0 ↔ li = [].
Proof using Type.
  clear Hsize Heven.
  intros Hinv. pose proof (dl_head _ _ _ _ (inv_iter Hinv)) as Hh.
  pose proof (dl_nonzero _ _ _ _ (inv_iter Hinv)) as H0.
  destruct li as [|a li]; simpl in Hh; [done|]. split; [|done]. rewrite Hh. intros ->. set_solver.
Qed.

(** The heads of the lists are blocks. *)
Lemma iter_block s li la : Inv s li la → iter_list s = 0 ∨ is_Some (blocks s !! iter_list s).
Proof using Type.
  clear Hsize Heven.
  intros Hinv. pose proof (dl_head _ _ _ _ (inv_iter Hinv)) as ->.
  destruct li as [|a li]; simpl; [by left|right].
  apply data_is_Some, (inv_dom Hinv). left. set_solver.
Qed.

Lemma avail_block s li la :
  Inv s li la → available_list s = 0 ∨ is_Some (blocks s !! available_list s).
Proof using Type.
  clear Hsize Heven.
  intros Hinv. pose proof (dl_head _ _ _ _ (inv_avail Hinv)) as ->.
  destruct la as [|a la]; simpl; [by left|right].
  apply data_is_Some, (inv_dom Hinv). right. set_solver.
Qed.

Lemma wp_insert_new total s li fresh v :
  Inv s li [] → fresh_ok fresh s →
  wp total (_insert sizeof_node fresh v) (λ x s', inserts s x v s') s.
Proof.
  intros Hinv (H0 & H2 & Hhi & Hapart). pose proof sizeof_block_pos.
  assert (blocks s !! fresh = None) as Hnone.
  { apply eq_None_not_Some. intros Hs. destruct (Hapart fresh Hs); lia. }
  pose proof (proj2 (available_empty s li [] Hinv) eq_refl) as Hal.
  unfold _insert. do 4 wp_step. rewrite Hal. cbn [Z.eqb]. unfold calloc_block. do 2 wp_step.
  unfold nb_init. wp_step. apply wp_update; [simpl; by rewrite lookup_insert_eq|].
  unfold construct_first. wp_step.
  apply wp_update; [simpl; by rewrite alter_insert_eq, lookup_insert_eq|].
  simpl. rewrite !alter_insert_eq. wp_step. apply wp_link_block; simpl.
  { by rewrite lookup_insert_eq. }
  { destruct (iter_block s li [] Hinv) as [|Hb]; [by left|right].
    apply lookup_insert_is_Some'. by right. }
  intros s1 [Hd1 Hx1] Hal1 Hil1 HA1 HI1. wp_step.
  assert (∀ b, is_Some (blocks s1 !! b) ↔
    is_Some ((<[fresh := mk_nb 0 0 0 0 0 []]> (blocks s)) !! b)) as Hdom.
  { intros b. rewrite <-!data_is_Some, Hd1. simpl. rewrite !data_is_Some.
    by rewrite !lookup_insert_is_Some'. }
  apply wp_link_available.
  { apply Hdom. by rewrite lookup_insert_eq. }
  { left. by rewrite Hal1. }
  intros s2 [Hd2 Hx2] Hil2 Hal2 HI2 HA2. wp_step. simpl in *.
  rewrite Hal1, Hal in HA2. rewrite HI1 in HI2. rewrite HA1 in HA2. rewrite Hd1 in Hd2.
  unfold iter_links at 2 in HI2. rewrite fmap_insert in HI2.
  unfold avail_links at 2 in HA2. rewrite fmap_insert in HA2.
  unfold data at 2 in Hd2. rewrite fmap_insert in Hd2. simpl in *.
  assert (data (blocks s) !! fresh = None) as Hdn.
  { unfold data. by rewrite lookup_fmap, Hnone. }
  assert (∀ y w, BlockListCorrect.elem sizeof_node (data (blocks s2)) y w ↔
    (y = node_addr fresh 0 ∧ w = v) ∨ elem s y w) as Helem.
  { intros y w. rewrite Hd2, elem_insert, delete_id by done. split.
    - intros [(i & Hi & Hb & Hn & ->)|?]; [|by right]. left.
      rewrite first_slots_bit in Hb by done.
      assert (i = 0) as -> by (destruct (Z.eqb_spec i 0); done). by simplify_eq/=.
    - intros [[-> ->]|?]; [|by right]. left. by exists 0. }
  split; [|split; [congruence|split; [done|]]].
  - intros w (b & sl & ns & i & Hb & Hi & _ & _ & Heq).
    destruct (Hapart b); [apply data_is_Some; by eexists| |];
      unfold BlockListCorrect.sizeof_block, BlockList.node_addr in *; nia.
  - exists (fresh :: li), [fresh]. rewrite HI2, HA2, Hd2, Hal2, Hil2, Hil1.
    apply inv_add; try done; [by rewrite <-Hal|]. intros b Hb. apply Hapart. by apply data_is_Some.
Qed.

Lemma full_mask_bit i : 0 ≤ i < 64 → Z.testbit FULL_MASK i = true.
Proof using Type. clear Hsize Heven. intros Hi. change FULL_MASK with (Z.ones 64). by apply Z.ones_spec_low. Qed.

Lemma alter_lookup {A} f i x (m : gmap Z A) : m !! i = Some x → alter f i m = <[i := f x]> m.
Proof using Type. clear Hsize Heven. intros Hi. rewrite <-(insert_id m i x) at 1 by done. by rewrite alter_insert_eq. Qed.

(** An insertion that takes slot [i] of a block of the list. *)
Lemma inserts_take s li la s' b sl sl' ns i v li' la' :
  Inv s li la → data (blocks s) !! b = Some (sl, ns) → 0 ≤ i < 64 → Z.testbit sl i = true →
  (∀ j, 0 ≤ j < 64 → Z.testbit sl' j = Z.testbit sl j && negb (j =? i)) →
  data (blocks s') = <[b := (sl', <[Z.to_nat i := Some (mk_node v i)]> ns)]> (data (blocks s)) →
  destroyed s' = destroyed s → Inv s' li' la' →
  inserts s (node_addr b i) v s'.
Proof.
  intros Hinv Hb Hi Hbit Hsl' Hd Hx Hinv'. split; [|split; [done|split]].
  - intros w (c & sl1 & ns1 & j & Hc & Hj & Hbj & _ & Heq).
    destruct (node_addr_inj sizeof_node Hsize _ _ _ _ _ _ _ b c i j Hinv) as [-> ->];
      try done; [by eexists..|]. congruence.
  - intros y w. rewrite Hd. by apply (elem_take sizeof_node _ _ _ _ _ _ _ b sl sl' ns i v Hinv).
  - by exists li', la'.
Qed.

(** The block that was kept when the list became empty is used again. *)
Lemma wp_insert_reuse total s la fresh v :
  Inv s [] la → la ≠ [] →
  wp total (_insert sizeof_node fresh v) (λ x s', inserts s x v s') s.
Proof.
  intros Hinv Hla.
  pose proof (proj2 (iter_empty s [] la Hinv) eq_refl) as Hil.
  assert (∀ b, is_Some (data (blocks s) !! b) → last la = Some b) as Hlast.
  { intros b [[sl ns] Hb]. pose proof (inv_in_iter Hinv b sl ns Hb) as Hin.
    destruct (decide (sl = FULL_MASK)) as [->|Hne]; [by apply (inv_last Hinv b ns)|].
    by apply Hin, not_elem_of_nil in Hne. }
  assert (∃ a, la = [a]) as [a ->].
  { destruct la as [|a la]; [done|]. exists a. pose proof (inv_nd_avail Hinv) as Hnd.
    apply NoDup_cons in Hnd as [Hnd _].
    pose proof (Hlast a (inv_dom Hinv a ltac:(right; set_solver))) as Ha.
    rewrite last_cons in Ha. destruct (last la) as [z|] eqn:E; [|by apply last_None in E as ->].
    apply last_Some_elem_of in E. by simplify_eq. }
  pose proof (dl_head _ _ _ _ (inv_avail Hinv)) as Hal. simpl in Hal.
  pose proof (dl_nonzero _ _ _ _ (inv_avail Hinv)) as H0.
  destruct (inv_dom Hinv a) as [[sl ns] Ha]; [right; set_solver|].
  assert (sl = FULL_MASK) as ->.
  { pose proof (inv_in_iter Hinv a sl ns Ha) as Hin.
    destruct (decide (sl = FULL_MASK)) as [|Hne]; [done|]. by apply Hin, not_elem_of_nil in Hne. }
  destruct (proj1 (data_lookup _ _ _ _) Ha) as (blk & Hblk & Hsl & Hns).
  unfold _insert. do 4 wp_step. rewrite Hal, Hil.
  rewrite (proj2 (Z.eqb_neq a 0)) by set_solver. cbn [Z.eqb].
  wp_step. apply wp_deref with blk; [done|]. wp_step. wp_step; [by rewrite Hsl|].
  wp_step. unfold construct_first. apply wp_update; [by eexists|].
  wp_step. unfold nb_init. apply wp_update; [simpl; by apply lookup_alter_is_Some|].
  do 2 wp_step. wp_step. apply wp_update; [simpl; by repeat apply lookup_alter_is_Some|].
  wp_step. apply wp_update; [simpl; by repeat apply lookup_alter_is_Some|]. wp_step.
  simpl. rewrite (alter_lookup _ a blk (blocks s)) by done. rewrite !alter_insert_eq.
  pose proof (inv_block Hinv a _ ns Ha) as (_ & Hlen & _).
  eapply (inserts_take s [] [a] _ a FULL_MASK first_slots ns 0 v [a] [a]); try done.
  - intros j Hj. by rewrite first_slots_bit, full_mask_bit.
  - simpl. unfold data. rewrite fmap_insert. simpl. by rewrite Hns.
  - simpl. unfold iter_links, avail_links, data. rewrite !fmap_insert. simpl. rewrite Hns, Hal.
    fold (data (blocks s)) (iter_links (blocks s)).
    rewrite (insert_id (_ <$> blocks s)) by (by rewrite lookup_fmap, Hblk).
    eapply (inv_change sizeof_node (iter_links (blocks s)) (avail_links (blocks s))
      (data (blocks s)) _ _ [] [a]); try done.
    + by apply first_block_ok.
    + simpl. split; [done|]. split; [set_solver|]. exists 0. by rewrite lookup_insert_eq.
    + by rewrite <-Hal at 1; apply Hinv.
    + apply NoDup_singleton.
    + apply NoDup_singleton.
    + set_solver.
    + split; [done|]. intros _. set_solver.
    + split; [done|]. intros _. set_solver.
    + intros c ns' Hne Hc. apply (inv_last Hinv c ns' Hc).
    + apply Hinv.
    + apply Hinv.
Qed.

Lemma slot_bounds sl : is_word 64 sl → sl ≠ 0 → 0 ≤ instr_tzcnt 64 sl < 64.
Proof using Type. clear Hsize Heven. intros Hw H0. apply tzcnt_lt; unfold is_word in *; lia. Qed.

Lemma wp_nb_insert total s b sl ns v Q :
  data (blocks s) !! b = Some (sl, ns) → is_word 64 sl → sl ≠ 0 →
  (let i := instr_tzcnt 64 sl in
   ∀ s', iter_list s' = iter_list s → available_list s' = available_list s →
    destroyed s' = destroyed s → iter_links (blocks s') = iter_links (blocks s) →
    avail_links (blocks s') = avail_links (blocks s) →
    data (blocks s') =
      <[b := (blsr sl, <[Z.to_nat i := Some (mk_node v i)]> ns)]> (data (blocks s)) →
    Q (Z.lor (node_addr b i) (if blsr sl =? 0 then 1 else 0)) s') →
  wp total (nb_insert sizeof_node b v) Q s.
Proof using Type.
  clear Hsize Heven.
  intros Hb Hw H0 HQ. destruct (proj1 (data_lookup _ _ _ _) Hb) as (blk & Hblk & Hsl & Hns).
  pose proof (slot_bounds sl Hw H0) as Hi.
  unfold nb_insert. wp_step. apply wp_deref with blk; [done|]. rewrite Hsl.
  rewrite find_first_one_64 by done. fold (blsr sl). wp_step. wp_step; [lia|].
  wp_step. apply wp_update; [by eexists|]. wp_step.
  apply wp_update; [simpl; by apply lookup_alter_is_Some|]. wp_step. simpl.
  rewrite (alter_lookup _ b blk (blocks s)), alter_insert_eq by done. apply HQ; try done; simpl.
  - unfold iter_links. rewrite fmap_insert. simpl. apply insert_id. by rewrite lookup_fmap, Hblk.
  - unfold avail_links. rewrite fmap_insert. simpl. apply insert_id. by rewrite lookup_fmap, Hblk.
  - unfold data. rewrite fmap_insert. simpl. by rewrite Hns.
Qed.

(** Clearing the lowest bit of a mask that is not all ones never gives all ones. *)
Lemma blsr_not_full sl : is_word 64 sl → sl ≠ 0 → blsr sl ≠ FULL_MASK.
Proof using Type.
  clear Hsize Heven.
  intros Hw H0. unfold is_word in Hw. pose proof (blsr_lt sl). unfold FULL_MASK, is_word in *. lia.
Qed.

Lemma blsr_take sl j :
  is_word 64 sl → sl ≠ 0 → 0 ≤ j < 64 →
  Z.testbit (blsr sl) j = Z.testbit sl j && negb (j =? instr_tzcnt 64 sl).
Proof using Type.
  clear Hsize Heven.
  intros Hw H0 Hj. unfold is_word in Hw. rewrite blsr_testbit by (unfold is_word; lia).
  by rewrite (Z.eqb_sym j).
Qed.

(** ** The first block with a free slot *)

Section Fill.
Context (s : block_list T) (li la : list Z) (a n sl : Z) (ns : list (option (node T))) (v : T).
Context (Hinv : Inv s li (a :: la)) (Ha : data (blocks s) !! a = Some (sl, ns)).
Context (Hnf : sl ≠ FULL_MASK) (Hn : ∃ q, avail_links (blocks s) !! a = Some (n, q)).

Let i := instr_tzcnt 64 sl.

Lemma fill_free : is_word 64 sl ∧ sl ≠ 0 ∧ 0 ≤ i < 64 ∧ Z.testbit sl i = true.
Proof using Ha Hinv.
  clear Hsize Heven Hnf Hn. destruct (inv_block Hinv a sl ns Ha) as (Hw & _ & _).
  assert (sl ≠ 0) as H0 by (apply (inv_in_avail Hinv a sl ns Ha); set_solver).
  split_and!; [done..|by apply slot_bounds|by apply slot_bounds|].
  apply tzcnt_bit. unfold is_word in Hw. lia.
Qed.

Lemma fill_prev c n' p :
  (if n =? 0 then avail_links (blocks s)
   else alter (λ e, (e.1, 0)) n (avail_links (blocks s))) !! c = Some (n', p) →
  c ∉ la → p = 0.
Proof using Hn Hinv.
  clear Hsize Heven Ha Hnf. intros Hc Hnc. destruct Hn as [q Hq].
  pose proof (dl_nonzero _ _ _ _ (inv_avail Hinv)) as H0.
  assert (q = 0) as ->.
  { destruct (inv_avail Hinv) as (_ & _ & n1 & Hn1 & _). rewrite Hq in Hn1. by injection Hn1. }
  assert (avail_links (blocks s) !! c = Some (n', p) → p = 0) as Hold.
  { intros Hc'. destruct (decide (c = a)) as [->|Hca]; [congruence|].
    apply (inv_prev Hinv c n' p Hc'). set_solver. }
  destruct (Z.eqb_spec n 0) as [->|Hne]; [by apply Hold|].
  destruct (decide (c = n)) as [->|Hcn]; [|rewrite lookup_alter_ne in Hc by done; by apply Hold].
  rewrite lookup_alter_eq in Hc. destruct (avail_links (blocks s) !! n); by simplify_eq/=.
Qed.

(** The block is full with the new object and has left the list of blocks with
    free slots. *)
Lemma insert_filled s' :
  blsr sl = 0 →
  data (blocks s') = <[a := (blsr sl, <[Z.to_nat i := Some (mk_node v i)]> ns)]> (data (blocks s)) →
  destroyed s' = destroyed s → iter_list s' = iter_list s → available_list s' = n →
  iter_links (blocks s') = iter_links (blocks s) →
  avail_links (blocks s') =
    (if n =? 0 then avail_links (blocks s)
     else alter (λ e, (e.1, 0)) n (avail_links (blocks s))) →
  inserts s (node_addr a i) v s'.
Proof using Hsize Hinv Ha Hnf Hn.
  clear Heven. intros Hz Hd Hx Hil Hal HI HA. destruct fill_free as (Hw & Hn0 & Hi & Hbit).
  pose proof (inv_nd_avail Hinv) as [Hna Hnd]%NoDup_cons.
  eapply (inserts_take s li (a :: la) s' a sl (blsr sl) ns i v li la); try done.
  { intros j Hj. by apply blsr_take. }
  rewrite HI, HA, Hd, Hil, Hal.
  apply (inv_change sizeof_node (iter_links (blocks s)) (avail_links (blocks s))
    (data (blocks s)) (iter_list s) (available_list s) li (a :: la)
    _ _ _ _ _ _ a sl ns _ _ Hinv Ha); try apply Hinv; try done.
  - apply block_ok_take; try done. by apply (inv_block Hinv a).
  - destruct Hn as [q Hq]. destruct (inv_avail Hinv) as (_ & _ & n1 & Hn1 & Hdl).
    rewrite Hq in Hn1. simplify_eq. by apply dl_set_prev with a.
  - set_solver.
  - rewrite (inv_in_iter Hinv a sl ns Ha). pose proof (blsr_not_full sl Hw Hn0). tauto.
  - intros Hf. by apply blsr_not_full in Hf.
  - intros c ns' Hne Hc. pose proof (inv_last Hinv c ns' Hc) as Hlc.
    rewrite last_cons in Hlc. destruct (last la); congruence.
  - intros c Hc. apply (inv_dom_avail Hinv) in Hc. destruct (n =? 0); [done|].
    by apply lookup_alter_is_Some.
  - intros c n' p. apply fill_prev.
Qed.

(** The block still has a free slot. *)
Lemma insert_kept s' :
  blsr sl ≠ 0 →
  data (blocks s') = <[a := (blsr sl, <[Z.to_nat i := Some (mk_node v i)]> ns)]> (data (blocks s)) →
  destroyed s' = destroyed s → iter_list s' = iter_list s →
  available_list s' = available_list s →
  iter_links (blocks s') = iter_links (blocks s) →
  avail_links (blocks s') = avail_links (blocks s) →
  inserts s (node_addr a i) v s'.
Proof using Hsize Hinv Ha Hnf.
  clear Heven Hn. intros Hz Hd Hx Hil Hal HI HA. destruct fill_free as (Hw & Hn0 & Hi & Hbit).
  eapply (inserts_take s li (a :: la) s' a sl (blsr sl) ns i v li (a :: la)); try done.
  { intros j Hj. by apply blsr_take. }
  rewrite HI, HA, Hd, Hil, Hal.
  apply (inv_change sizeof_node (iter_links (blocks s)) (avail_links (blocks s))
    (data (blocks s)) (iter_list s) (available_list s) li (a :: la)
    _ _ _ _ _ _ a sl ns _ _ Hinv Ha); try apply Hinv; try done.
  - apply block_ok_take; try done. by apply (inv_block Hinv a).
  - rewrite (inv_in_iter Hinv a sl ns Ha). pose proof (blsr_not_full sl Hw Hn0). tauto.
  - split; [done|]. intros _. set_solver.
  - intros Hf. by apply blsr_not_full in Hf.
  - intros c ns' _ Hc. by apply (inv_last Hinv c ns').
Qed.
End Fill.

(** The first block with a free slot takes the object; it leaves the list when
    it is full then. *)
Lemma wp_insert_first total s li a la fresh v :
  Inv s li (a :: la) → li ≠ [] → orphaned s = false →
  wp total (_insert sizeof_node fresh v) (λ x s', inserts s x v s') s.
Proof.
  intros Hinv Hli Horph.
  pose proof (dl_head _ _ _ _ (inv_avail Hinv)) as Hal. simpl in Hal.
  destruct (Z.eqb_spec (iter_list s) 0) as [Hil|Hil];
    [by apply (iter_empty s li _ Hinv) in Hil|].
  destruct (inv_dom Hinv a) as [[sl ns] Ha]; [right; set_solver|].
  pose proof Ha as (blk & Hblk & Hsl & Hns)%data_lookup.
  assert (sl ≠ FULL_MASK) as Hnf.
  { unfold orphaned in Horph. rewrite Hal, Hblk, Hsl, (proj2 (Z.eqb_neq _ _) Hil) in Horph.
    by apply Z.eqb_neq in Horph. }
  destruct (fill_free s li la a sl ns Hinv Ha) as (Hw & Hn0 & _).
  destruct (even_flag (node_addr a (instr_tzcnt 64 sl))) as (E1 & E2 & E3).
  { apply node_addr_even, (inv_addr Hinv a). by eexists. }
  destruct (inv_avail Hinv) as (_ & Ha0 & n & Hn & Hdl).
  unfold _insert. do 4 wp_step. rewrite Hal, (proj2 (Z.eqb_neq a 0) Ha0).
  rewrite (proj2 (Z.eqb_neq _ _) Hil). wp_step.
  apply (wp_nb_insert total s a sl ns v); [done..|]. cbv zeta.
  intros s1 Hil1 Hal1 Hx1 HI1 HA1 Hd1.
  destruct (Z.eqb_spec (blsr sl) 0) as [Hz|Hz].
  - rewrite E2, E3. cbn [Z.eqb negb].
    assert (∃ blk1, blocks s1 !! a = Some blk1 ∧ next_available blk1 = n) as (blk1 & Hblk1 & Hn1).
    { rewrite <-HA1 in Hn. unfold avail_links in Hn.
      apply lookup_fmap_Some in Hn as (blk1 & [= ? _] & ?). by exists blk1. }
    wp_step. apply wp_deref with blk1; [done|]. do 5 wp_step. rewrite Hn1. simpl.
    destruct (Z.eqb_spec n 0) as [Hnz|Hnz]; cbn [negb].
    + do 2 wp_step. apply (insert_filled s li la a n sl ns v Hinv Ha Hnf); try done.
      * by eexists.
      * by rewrite Hnz.
    + apply wp_update; simpl.
      { apply data_is_Some. rewrite Hd1. apply lookup_insert_is_Some'. right.
        apply (inv_dom Hinv). right. pose proof (dl_head _ _ _ _ Hdl) as Hh.
        destruct la as [|c la]; simpl in Hh; [done|]. subst. set_solver. }
      wp_step. apply (insert_filled s li la a n sl ns v Hinv Ha Hnf); simpl; try done.
      * by eexists.
      * rewrite <-Hd1. unfold data. by rewrite fmap_alter_same.
      * rewrite <-HI1. unfold iter_links. by rewrite fmap_alter_same.
      * rewrite (proj2 (Z.eqb_neq _ _) Hnz), <-HA1. by apply fmap_alter.
  - rewrite Z.lor_0_r, E1. cbn [Z.eqb negb]. wp_step.
    by apply (insert_kept s li la a sl ns v Hinv Ha Hnf).
Qed.

(** ** Removal *)

Lemma L_unlink_other n q L c : c ≠ n ∨ n = 0 → c ≠ q ∨ q = 0 → L_unlink n q L !! c = L !! c.
Proof using Type.
  clear Hsize Heven.
  intros Hn Hq. unfold L_unlink. destruct (Z.eqb_spec n 0), (Z.eqb_spec q 0);
    rewrite ?lookup_alter_ne by (naive_solver congruence); done.
Qed.

Lemma L_unlink_is_Some n q L c : is_Some (L_unlink n q L !! c) ↔ is_Some (L !! c).
Proof using Type.
  clear Hsize Heven.
  unfold L_unlink. destruct (n =? 0), (q =? 0); rewrite ?lookup_alter_is_Some; done.
Qed.

(** The neighbours of a block on a list are on it, or [NULL]. *)
Lemma neighbours (l1 l2 : list Z) (a n q : Z) :
  q = default 0 (last l1) → n = default 0 (list.head l2) →
  (n = 0 ∨ n ∈ l1 ++ a :: l2) ∧ (q = 0 ∨ q ∈ l1 ++ a :: l2).
Proof using Type.
  clear Hsize Heven.
  intros -> ->. split.
  - destruct l2 as [|c l2]; simpl; [by left|right]. set_solver.
  - destruct (last l1) as [c|] eqn:E; simpl; [right|by left].
    apply last_Some_elem_of in E. set_solver.
Qed.

Lemma dl_present (m : gmap Z (node_block T)) (g : node_block T → Z * Z) p h l a :
  dl (g <$> m) p h l → a ∈ l → is_Some (m !! a).
Proof using Type.
  clear Hsize Heven.
  intros Hdl Ha. pose proof (dl_lookup _ _ _ _ _ Hdl Ha) as H.
  by rewrite lookup_fmap, fmap_is_Some in H.
Qed.

Lemma head_none l1 (n h : Z) :
  (if default 0 (last l1) =? 0 then n else h) = (if l1 : list Z then n else h) ∨ 0 ∈ l1.
Proof using Type.
  clear Hsize Heven.
  destruct (last l1) as [c|] eqn:E; simpl.
  - destruct (Z.eqb_spec c 0) as [->|]; [right; by apply last_Some_elem_of|left].
    by destruct l1.
  - apply last_None in E as ->. by left.
Qed.

Lemma wp_unlink_block_at total s l1 a l2 Q :
  dl (iter_links (blocks s)) 0 (iter_list s) (l1 ++ a :: l2) → NoDup (l1 ++ a :: l2) →
  (∀ s', links_frame s s' → available_list s' = available_list s →
    avail_links (blocks s') = avail_links (blocks s) →
    dl (iter_links (blocks s')) 0 (iter_list s') (l1 ++ l2) →
    Q tt s') →
  wp total (unlink_block a) Q s.
Proof using Type.
  clear Hsize Heven.
  intros Hdl Hnd HQ. pose proof (dl_nonzero _ _ _ _ Hdl) as H0.
  destruct (dl_unlink_at _ 0 _ l1 a l2 Hdl Hnd H0) as (n & q & Ha & Hq & Hn & Hdl').
  destruct (neighbours l1 l2 a n q Hq Hn) as [Hn' Hq'].
  apply (wp_unlink_block total a Q s n q Ha).
  - destruct Hn' as [|Hn']; [by left|right]. by apply (dl_present _ _ _ _ _ _ Hdl).
  - destruct Hq' as [|Hq']; [by left|right]. by apply (dl_present _ _ _ _ _ _ Hdl).
  - intros s' Hf Hal Hil HA HI. apply HQ; try done. rewrite HI, Hil, Hq.
    rewrite Hq in Hdl'. destruct (head_none l1 n (iter_list s)) as [->|]; [done|set_solver].
Qed.

Lemma wp_unlink_available_at total s l1 a l2 Q :
  dl (avail_links (blocks s)) 0 (available_list s) (l1 ++ a :: l2) → NoDup (l1 ++ a :: l2) →
  (∀ s', links_frame s s' → iter_list s' = iter_list s →
    iter_links (blocks s') = iter_links (blocks s) →
    dl (avail_links (blocks s')) 0 (available_list s') (l1 ++ l2) →
    (∀ c, c ∉ l1 ++ l2 → avail_links (blocks s') !! c = avail_links (blocks s) !! c) →
    Q tt s') →
  wp total (unlink_available a) Q s.
Proof using Type.
  clear Hsize Heven.
  intros Hdl Hnd HQ. pose proof (dl_nonzero _ _ _ _ Hdl) as H0.
  destruct (dl_unlink_at _ 0 _ l1 a l2 Hdl Hnd H0) as (n & q & Ha & Hq & Hn & Hdl').
  destruct (neighbours l1 l2 a n q Hq Hn) as [Hn' Hq'].
  apply (wp_unlink_available total a Q s n q Ha).
  - destruct Hn' as [|Hn']; [by left|right]. by apply (dl_present _ _ _ _ _ _ Hdl).
  - destruct Hq' as [|Hq']; [by left|right]. by apply (dl_present _ _ _ _ _ _ Hdl).
  - intros s' Hf Hil Hal HI HA. apply HQ; try done.
    + rewrite HA, Hal, Hq. rewrite Hq in Hdl'.
      destruct (head_none l1 n (available_list s)) as [->|]; [done|set_solver].
    + intros c Hc. rewrite HA. apply L_unlink_other.
      * destruct (decide (n = 0)); [by right|left]. intros ->. apply Hc.
        destruct l2 as [|z l2]; simpl in Hn; [done|]. subst. set_solver.
      * destruct (decide (q = 0)); [by right|left]. intros ->. apply Hc.
        destruct (last l1) as [z|] eqn:E; simpl in Hq; [|done]. subst.
        apply last_Some_elem_of in E. set_solver.
Qed.

Lemma wp_retire total s l1 b l2 k1 k2 Q :
  dl (iter_links (blocks s)) 0 (iter_list s) (l1 ++ b :: l2) → NoDup (l1 ++ b :: l2) →
  dl (avail_links (blocks s)) 0 (available_list s) (k1 ++ b :: k2) → NoDup (k1 ++ b :: k2) →
  (∀ s', k1 ++ k2 = [] → destroyed s' = destroyed s → data (blocks s') = data (blocks s) →
    dl (iter_links (blocks s')) 0 (iter_list s') (l1 ++ l2) →
    available_list s' = available_list s →
    avail_links (blocks s') = avail_links (blocks s) → Q false s') →
  (∀ s', k1 ++ k2 ≠ [] → destroyed s' = destroyed s →
    data (blocks s') = delete b (data (blocks s)) →
    dl (iter_links (blocks s')) 0 (iter_list s') (l1 ++ l2) →
    dl (avail_links (blocks s')) 0 (available_list s') (k1 ++ k2) →
    (∀ c, c ∉ k1 ++ k2 → c ≠ b →
      avail_links (blocks s') !! c = avail_links (blocks s) !! c) → Q true s') →
  wp total (retire b) Q s.
Proof using Type.
  clear Hsize Heven.
  intros Hi Hndi Ha Hnda Hkeep Hfree. unfold retire. wp_step.
  apply (wp_unlink_block_at total s l1 b l2 _ Hi Hndi).
  intros s1 [Hd1 Hx1] Hal1 HA1 Hi1. do 2 wp_step.
  rewrite <-HA1, <-Hal1 in Ha.
  assert (∃ h rest, k1 ++ b :: k2 = h :: rest) as (h & rest & Hk).
  { destruct k1; simpl; eauto. }
  pose proof Ha as Ha'. rewrite Hk in Ha'. destruct Ha' as (Hh & _ & n & Hn & Hrest).
  unfold avail_links in Hn. apply lookup_fmap_Some in Hn as (blk & [= Hn _] & Hblk).
  wp_step. apply wp_deref with blk; [by rewrite Hh|]. rewrite Hn.
  destruct (Z.eqb_spec n 0) as [H0|H0]; cbn [negb].
  - wp_step. apply Hkeep; try done. destruct rest as [|z rest].
    + destruct k1 as [|? [|? ?]]; simplify_eq/=; done.
    + destruct Hrest as (Hz & Hz0 & _). lia.
  - wp_step. apply (wp_unlink_available_at total s1 k1 b k2 _ Ha Hnda).
    intros s2 [Hd2 Hx2] Hil2 HI2 Ha2 Hsame. wp_step. unfold free_block.
    assert (is_Some (blocks s2 !! b)) as [blk2 Hblk2].
    { apply data_is_Some. rewrite Hd2, Hd1. apply data_is_Some.
      apply (dl_present _ _ _ _ _ _ Hi). set_solver. }
    wp_step. apply wp_deref with blk2; [done|]. do 2 wp_step.
    assert (b ∉ l1 ++ l2 ∧ b ∉ k1 ++ k2) as [Hbi Hba].
    { apply NoDup_app in Hndi as (_ & Hd & [Hb _]%NoDup_cons).
      apply NoDup_app in Hnda as (_ & Hd' & [Hb' _]%NoDup_cons). set_solver. }
    apply Hfree; simpl.
    + intros Hnil. apply app_nil in Hnil as [-> ->]. by simplify_eq/=.
    + congruence.
    + unfold data. rewrite fmap_delete. fold (data (blocks s2)). by rewrite Hd2, Hd1.
    + unfold iter_links. rewrite fmap_delete. fold (iter_links (blocks s2)).
      rewrite HI2, Hil2. apply dl_ext with (1 := Hi1). intros c Hc.
      apply lookup_delete_ne. set_solver.
    + unfold avail_links. rewrite fmap_delete. fold (avail_links (blocks s2)).
      apply dl_ext with (1 := Ha2). intros c Hc. apply lookup_delete_ne. set_solver.
    + intros c Hc Hcb. unfold avail_links. rewrite fmap_delete. fold (avail_links (blocks s2)).
      rewrite lookup_delete_ne, Hsame, HA1 by done. done.
Qed.
End Operations.
