(* ===== verification/BlockListTheorems.v ===== *)
(** * Theorems about the block list

    Insertion, removal, [pop] and iteration against the elements held, and the
    block that is reused without being put back on the list of elements. *)

From S2P Require Import Prelude Bits BlockList BlockListCorrect.

Section Removal.
Context {T : Type} (sizeof_node : Z) (trivial : bool).
Context (Hsize : 4 ≤ sizeof_node) (Heven : sizeof_node mod 2 = 0).

Implicit Types s : block_list T.

Abbreviation node_addr := (node_addr sizeof_node).
Abbreviation sizeof_block := (sizeof_block sizeof_node).
Abbreviation Inv s li la :=
  (inv sizeof_node (iter_links (blocks s)) (avail_links (blocks s)) (data (blocks s))
     (iter_list s) (available_list s) li la).
Abbreviation elem s := (elem sizeof_node (data (blocks s))).

(** ** Slots given back *)

Lemma give_bit sl i j : 0 ≤ i → 0 ≤ j → Z.testbit (Z.lor sl (1 ≪ i)) j = Z.testbit sl j || (j =? i).
Proof.
  intros Hi Hj. rewrite Z.lor_spec, Z.shiftl_1_l, Z.pow2_bits_eqb by done. by rewrite Z.eqb_sym.
Qed.

(** The mask test for a block that was full. *)
Lemma give_was_full sl i :
  is_word 64 sl → 0 ≤ i < 64 → Z.testbit sl i = false →
  (Z.lor sl (1 ≪ i) =? 1 ≪ i) = (sl =? 0).
Proof.
  intros Hw Hi Hb. destruct (Z.eqb_spec sl 0) as [->|Hne]; [by rewrite Z.lor_0_l, Z.eqb_refl|].
  apply Z.eqb_neq. intros Heq. apply Hne. apply (word_eq 64); [lia|done|by apply word_0|].
  intros j Hj. rewrite Z.bits_0. destruct (decide (j = i)) as [->|Hji]; [done|].
  assert (Z.testbit (Z.lor sl (1 ≪ i)) j = Z.testbit (1 ≪ i) j) as H by (by rewrite Heq).
  rewrite give_bit, Z.shiftl_1_l, Z.pow2_bits_eqb in H by lia.
  rewrite (proj2 (Z.eqb_neq j i) Hji), (proj2 (Z.eqb_neq i j)), orb_false_r in H by done. done.
Qed.

Lemma give_nonzero sl i : 0 ≤ i < 64 → Z.lor sl (1 ≪ i) ≠ 0.
Proof.
  intros Hi H0. assert (Z.testbit (Z.lor sl (1 ≪ i)) i = Z.testbit 0 i) as H by (by rewrite H0).
  rewrite give_bit, Z.eqb_refl, orb_true_r, Z.bits_0 in H by lia. done.
Qed.

(** A block of which one slot is given back has other free slots, or it does
    not become empty. *)
Lemma give_full_free sl i :
  0 ≤ i < 64 → Z.lor sl (1 ≪ i) = FULL_MASK → sl ≠ 0.
Proof.
  intros Hi Hf ->. rewrite Z.lor_0_l, Z.shiftl_1_l in Hf. unfold FULL_MASK in Hf.
  assert (Z.testbit (2 ^ i) ((i + 1) mod 64) = true) as H.
  { rewrite Hf. change (2 ^ 64 - 1) with FULL_MASK. apply full_mask_bit. apply Z.mod_pos_bound. lia. }
  rewrite Z.pow2_bits_eqb in H by lia. apply Z.eqb_eq in H.
  destruct (decide (i = 63)) as [->|]; [done|]. rewrite Z.mod_small in H by lia. lia.
Qed.

Section Give.
Context (s s' : block_list T) (li la : list Z) (b sl i : Z) (ns : list (option (node T))).
Context (Hinv : Inv s li la) (Hb : data (blocks s) !! b = Some (sl, ns)) (Hi : 0 ≤ i < 64).
Context (Hbit : Z.testbit sl i = false).

Let sl' : Z := Z.lor sl (1 ≪ i).

Lemma give_not_full : sl ≠ FULL_MASK.
Proof. intros ->. by rewrite full_mask_bit in Hbit. Qed.

Lemma give_in_iter : b ∈ li.
Proof. apply (inv_in_iter Hinv b sl ns Hb), give_not_full. Qed.

Lemma give_ok : block_ok sl' ns.
Proof. apply block_ok_give; [by apply (inv_block Hinv b)|done]. Qed.

(** The block was full: it goes to the front of the available blocks. *)
Lemma give_to_full :
  sl = 0 → iter_list s' = iter_list s → available_list s' = b →
  iter_links (blocks s') = iter_links (blocks s) →
  avail_links (blocks s') = L_link b (available_list s) (avail_links (blocks s)) →
  data (blocks s') = <[b := (sl', ns)]> (data (blocks s)) →
  Inv s' li (b :: la).
Proof.
  intros H0 Hil Hal HI HA HD. rewrite Hil, Hal, HI, HA, HD.
  assert (b ∉ la) as Hla by (intros Hin; by apply (inv_in_avail Hinv b sl ns Hb) in Hin).
  destruct (inv_dom_avail Hinv b) as [[n p] Hn]; [by eexists|].
  pose proof (inv_prev Hinv b n p Hn Hla) as ->.
  destruct (inv_addr Hinv b) as (Hpos & _); [by eexists|].
  pose proof (dl_head _ _ _ _ (inv_avail Hinv)) as Hh.
  apply (inv_change sizeof_node _ _ _ _ _ li la _ _ _ _ _ _ b sl ns _ _ Hinv Hb give_ok).
  - apply Hinv.
  - apply dl_link with n; [apply Hinv|apply Hinv|done|done|lia].
  - apply Hinv.
  - apply NoDup_cons. split; [done|apply Hinv].
  - done.
  - set_solver.
  - split; [|intros _; apply give_in_iter]. intros _ Hf. by apply give_full_free in Hf.
  - split; [intros _; by apply give_nonzero|]. intros _. set_solver.
  - intros Hf. by apply give_full_free in Hf.
  - intros c ns' Hne Hc. pose proof (inv_last Hinv c ns' Hc) as Hlc.
    rewrite last_cons, Hlc. done.
  - intros c Hc. unfold L_link. apply (inv_dom_avail Hinv) in Hc.
    destruct (available_list s =? 0); rewrite ?lookup_alter_is_Some; done.
  - intros c n' p Hc Hin. apply (inv_prev Hinv c n' p); [|set_solver].
    unfold L_link in Hc. destruct (Z.eqb_spec (available_list s) 0) as [Hz|Hz].
    + rewrite lookup_alter_ne in Hc by set_solver. done.
    + rewrite lookup_alter_ne in Hc.
      * rewrite lookup_alter_ne in Hc by set_solver. done.
      * intros <-. rewrite Hh in Hz, Hin. destruct la as [|z la']; simpl in *; [done|].
        set_solver.
Qed.

(** The block keeps its place on both lists. *)
Lemma give_to_some :
  sl ≠ 0 → sl' ≠ FULL_MASK → iter_list s' = iter_list s → available_list s' = available_list s →
  iter_links (blocks s') = iter_links (blocks s) →
  avail_links (blocks s') = avail_links (blocks s) →
  data (blocks s') = <[b := (sl', ns)]> (data (blocks s)) →
  Inv s' li la.
Proof.
  intros H0 Hf Hil Hal HI HA HD. rewrite Hil, Hal, HI, HA, HD.
  apply (inv_change sizeof_node _ _ _ _ _ li la _ _ _ _ _ _ b sl ns _ _ Hinv Hb give_ok);
    try apply Hinv; try done.
  - split; [done|]. intros _. apply give_in_iter.
  - rewrite (inv_in_avail Hinv b sl ns Hb). split; [|done]. intros _. by apply give_nonzero.
  - intros c ns' _ Hc. by apply (inv_last Hinv c ns').
Qed.

(** The block becomes empty and is the only one available: it is kept. *)
Lemma give_kept l1 l2 :
  sl' = FULL_MASK → li = l1 ++ b :: l2 → la = [b] →
  dl (iter_links (blocks s')) 0 (iter_list s') (l1 ++ l2) →
  available_list s' = available_list s →
  avail_links (blocks s') = avail_links (blocks s) →
  data (blocks s') = <[b := (sl', ns)]> (data (blocks s)) →
  Inv s' (l1 ++ l2) la.
Proof.
  intros Hf Hli Hla HI Hal HA HD. rewrite Hal, HA, HD.
  pose proof (inv_nd_iter Hinv) as Hnd. rewrite Hli in Hnd.
  apply NoDup_app in Hnd as (Hnd1 & Hdis & [Hb2 Hnd2]%NoDup_cons).
  assert (b ∉ l1) by set_solver.
  apply (inv_change sizeof_node _ _ _ _ _ li la _ _ _ _ _ _ b sl ns _ _ Hinv Hb give_ok);
    try apply Hinv; try done.
  - apply NoDup_app. split_and!; [done| |done]. set_solver.
  - intros c Hne. rewrite Hli. set_solver.
  - split; [set_solver|done].
  - rewrite Hla. split; [|set_solver]. intros _. rewrite Hf. done.
  - intros _. by rewrite Hla.
  - intros c ns' _ Hc. by apply (inv_last Hinv c ns').
Qed.

(** The block becomes empty and is freed. *)
Lemma give_freed l1 l2 k1 k2 :
  li = l1 ++ b :: l2 → la = k1 ++ b :: k2 →
  dl (iter_links (blocks s')) 0 (iter_list s') (l1 ++ l2) →
  dl (avail_links (blocks s')) 0 (available_list s') (k1 ++ k2) →
  (∀ c, c ∉ k1 ++ k2 → c ≠ b →
    avail_links (blocks s') !! c = avail_links (blocks s) !! c) →
  data (blocks s') = delete b (data (blocks s)) →
  Inv s' (l1 ++ l2) (k1 ++ k2).
Proof.
  intros Hli Hla HI HA Hsame HD. rewrite HD.
  pose proof (inv_nd_iter Hinv) as Hnd. rewrite Hli in Hnd.
  apply NoDup_app in Hnd as (Hnd1 & Hdis & [Hb2 Hnd2]%NoDup_cons).
  pose proof (inv_nd_avail Hinv) as Hnda. rewrite Hla in Hnda.
  apply NoDup_app in Hnda as (Hka & Hkdis & [Hbk Hkb]%NoDup_cons).
  assert (b ∉ l1 ∧ b ∉ k1) as [? ?] by set_solver.
  assert (avail_links (blocks s') !! b = None) as Hbn.
  { destruct (avail_links (blocks s') !! b) as [e|] eqn:E; [|done].
    assert (is_Some (data (blocks s') !! b)) as Hs.
    { apply data_is_Some. unfold avail_links in E. rewrite lookup_fmap in E.
      destruct (blocks s' !! b); [by eexists|done]. }
    rewrite HD, lookup_delete_eq in Hs. by destruct Hs. }
  apply (inv_delete sizeof_node _ _ _ _ _ li la _ _ _ _ _ _ b Hinv); try done.
  - apply NoDup_app. split_and!; [done| |done]. set_solver.
  - apply NoDup_app. split_and!; [done| |done]. set_solver.
  - set_solver.
  - set_solver.
  - intros c Hne. rewrite Hli. set_solver.
  - intros c Hne. rewrite Hla. set_solver.
  - intros c ns' Hne Hc. pose proof (inv_last Hinv c ns' Hc) as Hlc. rewrite Hla in Hlc.
    rewrite last_app, last_cons in Hlc. rewrite last_app.
    destruct (last k2) as [z|]; [done|]. by simplify_eq.
  - intros c Hne Hc. destruct (decide (c ∈ k1 ++ k2)) as [Hin|Hin].
    + by apply (dl_lookup _ _ _ _ _ HA).
    + rewrite Hsame by done. by apply (inv_dom_avail Hinv).
  - intros c n p Hc Hin. destruct (decide (c = b)) as [->|Hne]; [congruence|].
    rewrite Hsame in Hc by done. apply (inv_prev Hinv c n p Hc). rewrite Hla. set_solver.
Qed.
End Give.

(** ** [remove] and [pop] *)

(** What the removal of the object [v] at [x] does; [log] are the destructors
    that ran. *)
Definition removes s (x : Z) (log : list T) s' : Prop :=
  (∀ y w, elem s' y w ↔ elem s y w ∧ y ≠ x) ∧ destroyed s' = destroyed s ++ log ∧
  ∃ li la, Inv s' li la.

Lemma node_at_elem s li la b i :
  Inv s li la → is_Some (data (blocks s) !! b) → 0 ≤ i < 64 →
  node_at sizeof_node (node_addr b i) s = Some (b, i).
Proof.
  intros Hinv Hb Hi. unfold node_at.
  set (l := (map_to_list (blocks s)).*1 ≫= λ b, (λ i, (b, i)) <$> seqZ 0 64).
  assert (∀ c j, (c, j) ∈ l → is_Some (data (blocks s) !! c) ∧ 0 ≤ j < 64) as Hl.
  { intros c j Hcj. apply list_elem_of_bind in Hcj as (c' & Hcj & Hc).
    apply list_elem_of_fmap in Hcj as (j' & [= <- <-] & Hj%elem_of_seqZ). split; [|lia].
    apply list_elem_of_fmap in Hc as ([c' blk] & -> & Hc%elem_of_map_to_list). simpl.
    apply data_is_Some. by eexists. }
  assert ((b, i) ∈ l) as Hin.
  { apply list_elem_of_bind. exists b. split.
    - apply list_elem_of_fmap. exists i. split; [done|]. apply elem_of_seqZ. lia.
    - apply data_is_Some in Hb as [blk Hb]. apply list_elem_of_fmap. exists (b, blk).
      split; [done|]. by apply elem_of_map_to_list. }
  destruct (list_find_elem_of (λ bi, node_addr bi.1 bi.2 = node_addr b i) l (b, i) Hin eq_refl)
    as [[k [c j]] Hf].
  rewrite Hf. apply list_find_Some in Hf as (Hk & Heq & _). simpl in *.
  apply list_elem_of_lookup_2 in Hk. destruct (Hl c j Hk) as [Hc Hj].
  by destruct (node_addr_inj sizeof_node Hsize _ _ _ _ _ _ _ c b j i Hinv Hc Hb Hj Hi Heq)
    as [-> ->].
Qed.

Lemma get_block_addr s li la b i :
  Inv s li la → is_Some (data (blocks s) !! b) → get_block sizeof_node (node_addr b i) i = b.
Proof.
  intros Hinv Hb. destruct (inv_addr Hinv b Hb) as (H0 & _ & Hhi). unfold get_block.
  unfold BlockList.node_addr, BlockListCorrect.sizeof_block in *.
  replace (b + 40 + i * sizeof_node - (40 + i * sizeof_node)) with b by lia.
  apply wrap_small. unfold is_word. lia.
Qed.

Lemma wp_node_destroy total s b sl ns i v Q :
  data (blocks s) !! b = Some (sl, ns) → ns !! Z.to_nat i = Some (Some (mk_node v i)) →
  Q tt (set_destroyed (destroyed s ++ if trivial then [] else [v]) s) →
  wp total (node_destroy trivial b i) Q s.
Proof.
  intros (blk & Hblk & _ & Hns)%data_lookup Hn HQ. unfold node_destroy.
  destruct trivial.
  - wp_step. rewrite app_nil_r in HQ. by destruct s.
  - wp_step. apply wp_deref with blk; [done|]. rewrite Hns.
    wp_step. eapply wp_from_opt; [done|]. wp_step. eapply wp_from_opt; [done|]. by wp_step.
Qed.

Lemma wp_nb_drop total s b sl ns mask Q :
  data (blocks s) !! b = Some (sl, ns) →
  (∀ s', iter_list s' = iter_list s → available_list s' = available_list s →
    destroyed s' = destroyed s → iter_links (blocks s') = iter_links (blocks s) →
    avail_links (blocks s') = avail_links (blocks s) →
    data (blocks s') = <[b := (Z.lor sl mask, ns)]> (data (blocks s)) →
    Q (Z.lor sl mask) s') →
  wp total (nb_drop b mask) Q s.
Proof.
  intros (blk & Hblk & Hsl & Hns)%data_lookup HQ. unfold nb_drop. wp_step.
  apply wp_update; [by eexists|]. rewrite (alter_lookup _ b blk) by done. wp_step.
  eapply wp_deref; [simpl; by rewrite lookup_insert_eq|]. wp_step. simpl. rewrite Hsl.
  apply HQ; try done; simpl.
  - unfold iter_links. rewrite fmap_insert. apply insert_id. by rewrite lookup_fmap, Hblk.
  - unfold avail_links. rewrite fmap_insert. apply insert_id. by rewrite lookup_fmap, Hblk.
  - unfold data. rewrite fmap_insert. simpl. by rewrite Hns.
Qed.

(** Lists around a block that is on them. *)
Lemma give_split s li la b sl ns i :
  Inv s li la → data (blocks s) !! b = Some (sl, ns) → 0 ≤ i < 64 → Z.testbit sl i = false →
  Z.lor sl (1 ≪ i) = FULL_MASK →
  ∃ l1 l2 k1 k2, li = l1 ++ b :: l2 ∧ la = k1 ++ b :: k2.
Proof.
  intros Hinv Hb Hi Hbit Hf.
  destruct (list_elem_of_split li b) as (l1 & l2 & ->);
    [by apply (give_in_iter s li la b sl i ns)|].
  destruct (list_elem_of_split la b) as (k1 & k2 & ->); [|eauto 6].
  apply (inv_in_avail Hinv b sl ns Hb). by eapply give_full_free.
Qed.

(** The slot is marked free; the links follow. *)
Lemma wp_after_drop total s s1 li la b sl ns i log :
  Inv s li la → data (blocks s) !! b = Some (sl, ns) → 0 ≤ i < 64 → Z.testbit sl i = false →
  iter_list s1 = iter_list s → available_list s1 = available_list s →
  destroyed s1 = destroyed s ++ log → iter_links (blocks s1) = iter_links (blocks s) →
  avail_links (blocks s1) = avail_links (blocks s) →
  data (blocks s1) = <[b := (Z.lor sl (1 ≪ i), ns)]> (data (blocks s)) →
  wp total
    (if Z.lor sl (1 ≪ i) =? 1 ≪ i then link_available b
     else if Z.lor sl (1 ≪ i) =? wnot 64 0 then retire b;; mret tt
     else mret tt)
    (λ _ s', removes s (node_addr b i) log s') s1.
Proof.
  intros Hinv Hb Hi Hbit Hil Hal Hx HI HA HD.
  destruct (inv_block Hinv b sl ns Hb) as (Hw & _ & _).
  assert (∀ s', data (blocks s') = data (blocks s1) → ∀ y w, elem s' y w ↔ elem s y w ∧ y ≠ node_addr b i)
    as Helem.
  { intros s' Hd' y w. rewrite Hd', HD.
    apply (elem_give sizeof_node Hsize _ _ _ _ _ _ _ b sl _ ns i Hinv); try done.
    intros j Hj. apply give_bit; lia. }
  rewrite (give_was_full sl i Hw Hi Hbit). destruct (Z.eqb_spec sl 0) as [H0|H0].
  { apply wp_link_available.
    - apply data_is_Some. rewrite HD, lookup_insert_eq. by eexists.
    - rewrite Hal. destruct (avail_block sizeof_node s li la Hinv) as [|Hs]; [by left|right].
      apply data_is_Some. rewrite HD. apply lookup_insert_is_Some'. right. by apply data_is_Some.
    - intros s' [Hd' Hx'] Hil' Hal' HI' HA'. split; [by apply Helem|]. split; [congruence|].
      exists li, (b :: la). eapply (give_to_full s s' li la b sl i ns); try done; congruence. }
  change (wnot 64 0) with FULL_MASK.
  destruct (Z.eqb_spec (Z.lor sl (1 ≪ i)) FULL_MASK) as [Hf|Hf].
  - destruct (give_split s li la b sl ns i) as (l1 & l2 & k1 & k2 & -> & ->); [done..|].
    wp_step. apply (wp_retire total s1 l1 b l2 k1 k2).
    + rewrite HI, Hil. apply Hinv.
    + apply Hinv.
    + rewrite HA, Hal. apply Hinv.
    + apply Hinv.
    + intros s' Hk Hx' Hd' HI' Hal' HA'. wp_step. split; [by apply Helem|].
      split; [congruence|]. apply app_nil in Hk as [-> ->]. exists (l1 ++ l2), [b].
      eapply (give_kept s s' _ [b] b sl i ns Hinv); done || congruence.
    + intros s' _ Hx' Hd' HI' HA' Hsame. wp_step. split; [|split; [congruence|]].
      * intros y w. rewrite <-(Helem s1 eq_refl y w), Hd', HD, delete_insert_eq, Hf.
        by rewrite elem_delete.
      * exists (l1 ++ l2), (k1 ++ k2). eapply (give_freed s s' _ _ b sl i ns Hinv); try done.
        -- intros c Hc Hne. rewrite Hsame by done. by rewrite HA.
        -- by rewrite Hd', HD, delete_insert_eq.
  - wp_step. split; [by apply Helem|]. split; [done|]. exists li, la.
    eapply (give_to_some s s1 li la b sl i ns); try done.
Qed.

Lemma wp_remove total s li la x v :
  Inv s li la → elem s x v →
  wp total (remove sizeof_node trivial x)
    (λ _ s', removes s x (if trivial then [] else [v]) s') s.
Proof.
  intros Hinv (b & sl & ns & i & Hb & Hi & Hbit & Hn & ->).
  assert (is_Some (data (blocks s) !! b)) as Hs by (by eexists).
  pose proof Hb as (blk & Hblk & Hsl & Hns)%data_lookup.
  unfold remove. wp_step. unfold read_idx. do 2 wp_step. wp_step. eapply wp_from_opt.
  { by apply (node_at_elem s li la). }
  simpl. wp_step. apply wp_deref with blk; [done|]. rewrite Hns.
  wp_step. eapply wp_from_opt; [done|]. wp_step. eapply wp_from_opt; [done|]. wp_step. simpl.
  rewrite (get_block_addr s li la b i Hinv Hs).
  wp_step. apply (wp_node_destroy total s b sl ns i v); [done..|].
  wp_step. eapply wp_from_opt.
  { unfold drop_mask, shl. rewrite (proj2 (Z.ltb_lt i 64)) by lia.
    rewrite wrap_small by (apply word_bit; lia). done. }
  wp_step. apply (wp_nb_drop total _ b sl ns (1 ≪ i)); [done|].
  intros s1 Hil Hal Hx HI HA HD. by apply (wp_after_drop total s s1 li la b sl ns i).
Qed.

Lemma wnot_involutive sl : is_word 64 sl → wnot 64 (wnot 64 sl) = sl.
Proof.
  clear. intros Hw. apply (word_eq 64); [lia|apply wnot_word; lia|done|].
  intros i Hi. rewrite !wnot_testbit by lia. rewrite (proj2 (Z.ltb_lt i 64)) by lia. simpl.
  by rewrite negb_involutive.
Qed.

(** The lowest taken slot, in the complement [pop] works on. *)
Lemma taken_slots sl :
  is_word 64 sl → sl ≠ FULL_MASK →
  let i := instr_tzcnt 64 (wnot 64 sl) in
  wnot 64 sl ≠ 0 ∧ 0 ≤ i < 64 ∧ Z.testbit sl i = false ∧
  blsr (wnot 64 sl) = wnot 64 (Z.lor sl (1 ≪ i)).
Proof.
  clear. intros Hw Hf i.
  assert (is_word 64 (wnot 64 sl)) as Hw' by (apply wnot_word; lia).
  assert (wnot 64 sl ≠ 0) as H0.
  { intros H0. apply Hf. by rewrite <-(wnot_involutive sl Hw), H0. }
  pose proof (slot_bounds (wnot 64 sl) Hw' H0) as Hi. fold i in Hi.
  assert (Z.testbit (wnot 64 sl) i = true) as Hb.
  { apply tzcnt_bit. unfold is_word in Hw'. lia. }
  rewrite wnot_testbit, (proj2 (Z.ltb_lt i 64)) in Hb by lia. simpl in Hb.
  apply negb_true_iff in Hb. split_and!; [done|lia|lia|done|].
  apply (word_eq 64); [lia|by apply blsr_word|apply wnot_word; lia|].
  intros j Hj. rewrite blsr_take by done. fold i.
  rewrite !wnot_testbit, give_bit by lia. rewrite (proj2 (Z.ltb_lt j 64)) by lia. simpl.
  by rewrite negb_orb.
Qed.

Lemma wp_set_slots total s b sl ns v Q :
  data (blocks s) !! b = Some (sl, ns) →
  (∀ s', iter_list s' = iter_list s → available_list s' = available_list s →
    destroyed s' = destroyed s → iter_links (blocks s') = iter_links (blocks s) →
    avail_links (blocks s') = avail_links (blocks s) →
    data (blocks s') = <[b := (v, ns)]> (data (blocks s)) → Q tt s') →
  wp total (update b (set_slots v)) Q s.
Proof.
  clear. intros (blk & Hblk & Hsl & Hns)%data_lookup HQ.
  apply wp_update; [by eexists|]. rewrite (alter_lookup _ b blk) by done. apply HQ; try done; simpl.
  - unfold iter_links. rewrite fmap_insert. apply insert_id. by rewrite lookup_fmap, Hblk.
  - unfold avail_links. rewrite fmap_insert. apply insert_id. by rewrite lookup_fmap, Hblk.
  - unfold data. rewrite fmap_insert. simpl. by rewrite Hns.
Qed.

Lemma removes_give s s' li la b sl ns i li' la' log :
  Inv s li la → data (blocks s) !! b = Some (sl, ns) → 0 ≤ i < 64 →
  (data (blocks s') = <[b := (Z.lor sl (1 ≪ i), ns)]> (data (blocks s)) ∨
   Z.lor sl (1 ≪ i) = FULL_MASK ∧ data (blocks s') = delete b (data (blocks s))) →
  destroyed s' = destroyed s ++ log → Inv s' li' la' → removes s (node_addr b i) log s'.
Proof.
  intros Hinv Hb Hi HD Hx Hinv'. split; [|split; [done|by exists li', la']]. intros y w.
  rewrite <-(elem_give sizeof_node Hsize _ _ _ _ _ _ _ b sl (Z.lor sl (1 ≪ i)) ns i Hinv);
    [|done|done|intros j Hj; apply give_bit; lia].
  destruct HD as [->|[Hf ->]]; [done|]. rewrite Hf. by rewrite elem_delete.
Qed.

Lemma wp_pop total s b li la :
  Inv s (b :: li) la →
  wp total (pop sizeof_node) (λ x s', (∃ v, elem s x v) ∧ removes s x [] s') s.
Proof.
  intros Hinv. pose proof (dl_head _ _ _ _ (inv_iter Hinv)) as Hil. simpl in Hil.
  destruct (inv_dom Hinv b) as [[sl ns] Hb]; [left; set_solver|].
  pose proof Hb as (blk & Hblk & Hsl & Hns)%data_lookup.
  destruct (inv_block Hinv b sl ns Hb) as (Hw & _ & Hnode).
  assert (sl ≠ FULL_MASK) as Hnf by (apply (inv_in_iter Hinv b sl ns Hb); set_solver).
  destruct (taken_slots sl Hw Hnf) as (Hn0 & Hi & Hbit & Hblsr).
  set (i := instr_tzcnt 64 (wnot 64 sl)) in *.
  assert (is_word 64 (Z.lor sl (1 ≪ i))) as Hw' by (apply word_lor; [lia|done|apply word_bit; lia]).
  assert (∃ v, elem s (node_addr b i) v) as Hex.
  { destruct (Hnode i Hi Hbit) as [v Hv]. exists v, b, sl, ns, i. done. }
  assert (blsr (wnot 64 sl) = 0 ↔ Z.lor sl (1 ≪ i) = FULL_MASK) as Hz.
  { rewrite Hblsr. split; [|by intros ->]. intros H0.
    by rewrite <-(wnot_involutive _ Hw'), H0. }
  unfold pop. do 2 wp_step. rewrite Hil. wp_step. apply wp_deref with blk; [done|]. rewrite Hsl.
  rewrite find_first_one_64 by (apply wnot_word; lia). fold i. fold (blsr (wnot 64 sl)).
  wp_step. destruct (Z.eqb_spec (wnot 64 sl) (wnot 64 0)) as [Hfull|Hfull].
  - assert (sl = 0) as H0.
    { rewrite <-(wnot_involutive sl Hw), Hfull. done. }
    apply wp_link_available; [by eexists|by apply (avail_block sizeof_node s _ _ Hinv)|].
    intros s1 [Hd1 Hx1] Hil1 Hal1 HI1 HA1. wp_step.
    destruct (Z.eqb_spec (blsr (wnot 64 sl)) 0) as [E|E].
    { apply Hz in E. by apply give_full_free in E. }
    do 2 wp_step. rewrite Hblsr, wnot_involutive by done.
    eapply wp_set_slots; [by rewrite Hd1|]. intros s2 Hil2 Hal2 Hx2 HI2 HA2 HD2. wp_step.
    split; [done|]. rewrite Hd1 in HD2.
    eapply (removes_give s s2 _ _ b sl ns i); [done..|by left|rewrite app_nil_r; congruence|].
    eapply (give_to_full s s2 _ _ b sl i ns); try done; congruence.
  - wp_step. wp_step. destruct (Z.eqb_spec (blsr (wnot 64 sl)) 0) as [E|E].
    + apply Hz in E. destruct (give_split s (b :: li) la b sl ns i) as (l1 & l2 & k1 & k2 & Hli & ->);
        [done..|]. rewrite Hli in Hinv.
      apply (wp_retire total s l1 b l2 k1 k2); try apply Hinv.
      * intros s1 Hk Hx1 Hd1 HI1 Hal1 HA1. wp_step. rewrite Hblsr, wnot_involutive by done.
        eapply wp_set_slots; [by rewrite Hd1|]. intros s2 Hil2 Hal2 Hx2 HI2 HA2 HD2. wp_step.
        split; [done|]. rewrite Hd1 in HD2. apply app_nil in Hk as [-> ->].
        eapply (removes_give s s2 _ _ b sl ns i); [done..|by left|rewrite app_nil_r; congruence|].
        eapply (give_kept s s2 _ [b] b sl i ns Hinv); done || congruence.
      * intros s1 _ Hx1 Hd1 HI1 HA1 Hsame. wp_step. split; [done|].
        eapply (removes_give s s1 _ _ b sl ns i); [done..|by right|by rewrite app_nil_r|].
        by eapply (give_freed s s1 _ _ b sl i ns Hinv).
    + do 2 wp_step. rewrite Hblsr, wnot_involutive by done.
      eapply wp_set_slots; [done|]. intros s2 Hil2 Hal2 Hx2 HI2 HA2 HD2. wp_step. split; [done|].
      eapply (removes_give s s2 _ _ b sl ns i); [done..|by left|rewrite app_nil_r; congruence|].
      eapply (give_to_some s s2 _ _ b sl i ns); try done.
      * intros ->. done.
      * by rewrite <-Hz.
Qed.

(** ** Iteration *)

(** The addresses of the slots of [b] in a mask, lowest first. *)
Definition addrs (b mask : Z) : list Z :=
  node_addr b <$> filter (λ i, Z.testbit mask i = true) (seqZ 0 64).

Lemma addrs_step b mask :
  is_word 64 mask → mask ≠ 0 →
  addrs b mask = node_addr b (instr_tzcnt 64 mask) :: addrs b (blsr mask).
Proof.
  clear. intros Hw H0. pose proof (slot_bounds mask Hw H0) as Hi. unfold addrs.
  set (i := instr_tzcnt 64 mask) in *.
  assert (0 < mask) as Hpos by (unfold is_word in Hw; lia).
  assert (seqZ 0 64 = seqZ 0 i ++ i :: seqZ (i + 1) (63 - i)) as ->.
  { replace 64 with (i + (64 - i)) by lia. rewrite seqZ_app by lia. f_equal.
    rewrite seqZ_cons by lia. rewrite Z.add_0_l. f_equal.
    by replace (Z.succ i) with (i + 1) by lia; replace (Z.pred (64 - i)) with (63 - i) by lia. }
  rewrite !filter_app, !filter_cons.
  rewrite decide_True by (by apply tzcnt_bit).
  rewrite decide_False by (rewrite blsr_take by (done || lia); fold i;
    rewrite Z.eqb_refl, andb_false_r; done).
  rewrite (filter_none _ (seqZ 0 i)), (filter_none _ (seqZ 0 i)).
  - simpl. f_equal. f_equal. apply filter_iff. intros j Hj%elem_of_seqZ.
    rewrite blsr_take by (done || lia). fold i.
    rewrite (proj2 (Z.eqb_neq j i)) by lia. by rewrite andb_true_r.
  - intros j Hj%elem_of_seqZ. rewrite blsr_take by (done || lia).
    rewrite (tzcnt_low 64 mask j) by (done || (fold i; lia)). done.
  - intros j Hj%elem_of_seqZ. rewrite (tzcnt_low 64 mask j) by (done || (fold i; lia)). done.
Qed.

(** The addresses of the elements of a block. *)
Definition taken s (b : Z) : list Z :=
  match data (blocks s) !! b with Some (sl, _) => addrs b (wnot 64 sl) | None => [] end.

(** The blocks have elements. *)
Definition occupied s (l : list Z) : Prop :=
  ∀ c, c ∈ l → ∃ sl ns, data (blocks s) !! c = Some (sl, ns) ∧ is_word 64 sl ∧ sl ≠ FULL_MASK.

Lemma inv_occupied s li la : Inv s li la → occupied s li.
Proof using Type.
  clear Hsize Heven. intros Hinv c Hc. destruct (inv_dom Hinv c) as [[sl ns] Hd]; [by left|].
  exists sl, ns. destruct (inv_block Hinv c sl ns Hd) as (Hw & _ & _). split_and!; [done..|].
  by apply (inv_in_iter Hinv c sl ns Hd).
Qed.

Lemma wp_visit fuel s p b mask l :
  dl (iter_links (blocks s)) p b (b :: l) → occupied s l → is_word 64 mask → mask ≠ 0 →
  (length (addrs b mask ++ concat (taken s <$> l)) < fuel)%nat →
  wp true (visit sizeof_node fuel (b, mask))
    (λ L s', s' = s ∧ L = addrs b mask ++ concat (taken s <$> l)) s.
Proof.
  revert p b mask l. induction fuel as [|fuel IH]; intros p b mask l Hdl Hin Hw H0 Hf; [lia|].
  pose proof Hdl as (_ & Hb0 & n & Hn & Hl).
  unfold iter_links in Hn. apply lookup_fmap_Some in Hn as (blk & [= Hn _] & Hblk).
  rewrite addrs_step in Hf |- * by done. cbn [app length] in Hf. simpl visit. unfold it_end. simpl.
  rewrite (proj2 (Z.eqb_neq b 0) Hb0). wp_step. unfold it_next. simpl. fold (blsr mask).
  destruct (Z.eqb_spec (blsr mask) 0) as [Hz|Hz].
  - wp_step. apply wp_deref with blk; [done|]. rewrite Hn.
    assert (addrs b (blsr mask) = []) as Hnil.
    { rewrite Hz. unfold addrs. rewrite filter_none; [done|].
      intros j _. by rewrite Z.bits_0. }
    rewrite Hnil in *. cbn [app length] in Hf. destruct l as [|c l].
    + simpl in Hl. rewrite Hl. cbn [Z.eqb negb]. wp_step. wp_step.
      destruct fuel as [|fuel]; [simpl in Hf; lia|]. simpl. do 2 wp_step. split; [done|].
      unfold it_get. simpl. by rewrite find_first_one_64.
    + pose proof Hl as (-> & Hc0 & _). rewrite (proj2 (Z.eqb_neq c 0) Hc0). cbn [negb].
      destruct (Hin c) as (sl & ns & Hc & Hwc & Hnf); [apply elem_of_cons; by left|].
      pose proof Hc as (blkc & Hblkc & Hslc & _)%data_lookup.
      destruct (taken_slots sl Hwc Hnf) as (Hn0 & _).
      wp_step. apply wp_deref with blkc; [done|]. wp_step. rewrite Hslc. wp_step.
      assert (taken s c = addrs c (wnot 64 sl)) as Htc by (unfold taken; by rewrite Hc).
      eapply wp_mono; [apply (IH b c (wnot 64 sl) l)|].
      * done.
      * intros d Hd. apply Hin, elem_of_cons. by right.
      * apply wnot_word. lia.
      * done.
      * rewrite fmap_cons in Hf. cbn [concat] in Hf. rewrite Htc in Hf. lia.
      * simpl. intros L s' [-> ->]. wp_step. split; [done|]. unfold it_get. simpl.
        by rewrite find_first_one_64, Htc.
  - do 2 wp_step. eapply wp_mono; [apply (IH p b (blsr mask) l)|].
    + done.
    + done.
    + by apply blsr_word.
    + done.
    + lia.
    + simpl. intros L s' [-> ->]. wp_step. split; [done|]. unfold it_get. simpl.
      by rewrite find_first_one_64.
Qed.

Lemma elem_addrs b sl x :
  x ∈ addrs b (wnot 64 sl) ↔ ∃ i, 0 ≤ i < 64 ∧ Z.testbit sl i = false ∧ x = node_addr b i.
Proof.
  clear. unfold addrs. rewrite list_elem_of_fmap. split.
  - intros (i & -> & [Hb Hi%elem_of_seqZ]%list_elem_of_filter). exists i. split; [lia|].
    rewrite wnot_testbit, (proj2 (Z.ltb_lt i 64)) in Hb by lia. simpl in Hb.
    by apply negb_true_iff in Hb.
  - intros (i & Hi & Hb & ->). exists i. split; [done|]. apply list_elem_of_filter.
    rewrite elem_of_seqZ. split; [|lia].
    rewrite wnot_testbit, (proj2 (Z.ltb_lt i 64)), Hb by lia. done.
Qed.

Lemma elem_taken s li la x b :
  Inv s li la → x ∈ taken s b ↔
    ∃ i, is_Some (data (blocks s) !! b) ∧ 0 ≤ i < 64 ∧ x = node_addr b i ∧ ∃ v, elem s x v.
Proof.
  intros Hinv. unfold taken. destruct (data (blocks s) !! b) as [[sl ns]|] eqn:Hb.
  - rewrite elem_addrs. destruct (inv_block Hinv b sl ns Hb) as (_ & _ & Hnode). split.
    + intros (i & Hi & Hbit & ->). exists i. split_and!; [by eexists|lia|lia|done|].
      destruct (Hnode i Hi Hbit) as [v Hv]. by exists v, b, sl, ns, i.
    + intros (i & _ & Hi & -> & v & c & sl' & ns' & j & Hc & Hj & Hbj & _ & Heq).
      exists i. split_and!; [lia|lia| |done].
      destruct (node_addr_inj sizeof_node Hsize _ _ _ _ _ _ _ b c i j Hinv) as [-> ->];
        try done; [by eexists..|]. congruence.
  - split; [by intros ?%not_elem_of_nil|]. by intros (i & [] & _).
Qed.

Lemma NoDup_addrs b mask : NoDup (addrs b mask).
Proof.
  unfold addrs. apply NoDup_fmap_2_strong.
  - intros i j _ _ Heq. unfold BlockList.node_addr in Heq. nia.
  - apply NoDup_filter, NoDup_seqZ.
Qed.

Lemma NoDup_taken s li la l :
  Inv s li la → NoDup l → NoDup (concat (taken s <$> l)).
Proof.
  intros Hinv. induction l as [|b l IH]; intros Hnd; [constructor|].
  apply NoDup_cons in Hnd as [Hb Hnd]. simpl. apply NoDup_app. split_and!.
  - unfold taken. destruct (data (blocks s) !! b) as [[sl ns]|]; [apply NoDup_addrs|constructor].
  - intros x Hx Hx'. apply list_elem_of_In, in_concat in Hx' as (lx & Hlx & Hx').
    apply list_elem_of_In, list_elem_of_fmap in Hlx as (c & -> & Hc).
    apply list_elem_of_In in Hx'.
    apply (elem_taken s li la x b Hinv) in Hx as (i & Hsb & Hi & -> & _).
    apply (elem_taken s li la _ c Hinv) in Hx' as (j & Hsc & Hj & Heq & _).
    destruct (node_addr_inj sizeof_node Hsize _ _ _ _ _ _ _ b c i j Hinv) as [-> _]; done.
  - by apply IH.
Qed.

Lemma wp_visit_all s li fuel :
  dl (iter_links (blocks s)) 0 (iter_list s) li → occupied s li →
  (length (concat (taken s <$> li)) < fuel)%nat →
  wp true (visit_all sizeof_node fuel) (λ L s', s' = s ∧ L = concat (taken s <$> li)) s.
Proof using Type.
  clear Hsize Heven. intros Hdl Hocc Hf. unfold visit_all. wp_step. unfold nbegin. do 2 wp_step.
  destruct li as [|b li].
  - simpl in Hdl. rewrite Hdl. cbn [Z.eqb]. wp_step.
    destruct fuel as [|fuel]; [simpl in Hf; lia|]. simpl. wp_step. done.
  - pose proof Hdl as (Hib & Hb0 & _). rewrite Hib in Hdl |- *.
    rewrite (proj2 (Z.eqb_neq b 0) Hb0).
    destruct (Hocc b) as (sl & ns & Hb & Hw & Hnf); [apply elem_of_cons; by left|].
    pose proof Hb as (blk & Hblk & Hslb & _)%data_lookup.
    destruct (taken_slots sl Hw Hnf) as (Hn0 & _).
    assert (taken s b = addrs b (wnot 64 sl)) as Htb by (unfold taken; by rewrite Hb).
    wp_step. apply wp_deref with blk; [done|]. wp_step. rewrite Hslb.
    simpl in Hf |- *. rewrite Htb in Hf |- *.
    apply (wp_visit fuel s 0 b (wnot 64 sl) li); try done; [|by apply wnot_word].
    intros c Hc. apply Hocc, elem_of_cons. by right.
Qed.

Lemma visited_elements s li la x :
  Inv s li la → x ∈ concat (taken s <$> li) ↔ ∃ v, elem s x v.
Proof.
  intros Hinv. rewrite list_elem_of_In, in_concat. split.
  - intros (lx & Hlx & Hx%list_elem_of_In).
    apply list_elem_of_In, list_elem_of_fmap in Hlx as (b & -> & Hb).
    apply (elem_taken s li la x b Hinv) in Hx as (_ & _ & _ & _ & Hex). done.
  - intros [v Hv]. pose proof Hv as (b & sl & ns & i & Hb & Hi & Hbit & _ & ->).
    exists (taken s b). rewrite <-!list_elem_of_In. split.
    + apply list_elem_of_fmap. exists b. split; [done|].
      apply (inv_in_iter Hinv b sl ns Hb). intros ->. by rewrite full_mask_bit in Hbit.
    + apply (elem_taken s li la _ b Hinv). exists i. split_and!; [by eexists|lia|lia|done|eauto].
Qed.
(** ** The consistency check *)

(** The block has a free slot. *)
Definition has_free s (b : Z) : bool :=
  match blocks s !! b with Some blk => negb (node_slots blk =? 0) | None => false end.

Lemma has_free_data s b sl ns :
  data (blocks s) !! b = Some (sl, ns) → has_free s b = true ↔ sl ≠ 0.
Proof using Type.
  clear. intros (blk & Hb & <- & _)%data_lookup. unfold has_free.
  by rewrite Hb, negb_true_iff, Z.eqb_neq.
Qed.

Lemma wrap_add_1 x : u32 (u32 x + 1) = u32 (x + 1).
Proof using Type. unfold wrap. by rewrite Zplus_mod_idemp_l. Qed.

Lemma wrap_sub_1 x : u32 (u32 x - 1) = u32 (x - 1).
Proof using Type. unfold wrap. by rewrite Zminus_mod_idemp_l. Qed.

Lemma wp_check_available fuel s p h l c :
  dl (avail_links (blocks s)) p h l → (∀ b, b ∈ l → has_free s b = true) →
  (length l < fuel)%nat →
  wp true (check_available fuel h (u32 c))
    (λ r s', s' = s ∧ r = u32 (c + Z.of_nat (length l))) s.
Proof using Type.
  clear. revert p h l c. induction fuel as [|fuel IH]; intros p h l c Hdl Hfree Hf; [lia|].
  destruct l as [|a l]; simpl in Hdl |- *.
  { rewrite Hdl. cbn [Z.eqb]. wp_step. by rewrite Z.add_0_r. }
  destruct Hdl as (-> & Ha & n & Hn & Hl). rewrite (proj2 (Z.eqb_neq a 0) Ha).
  unfold avail_links in Hn. apply lookup_fmap_Some in Hn as (blk & [= Hn _] & Hblk).
  assert (has_free s a = true) as Hfa by (apply Hfree; set_solver).
  unfold has_free in Hfa. rewrite Hblk in Hfa.
  wp_step. apply wp_deref with blk; [done|]. wp_step. wp_step; [done|]. wp_step. rewrite Hn.
  apply wp_mono with (λ _ s', s' = s).
  - destruct l as [|b l]; simpl in Hl; [rewrite Hl; cbn [Z.eqb negb]; by wp_step|].
    destruct Hl as (-> & Hb & m & Hm & _). rewrite (proj2 (Z.eqb_neq b 0) Hb). cbn [negb].
    unfold avail_links in Hm. apply lookup_fmap_Some in Hm as (blkb & [= _ Hm] & Hblkb).
    wp_step. apply wp_deref with blkb; [done|]. wp_step; [by apply Z.eqb_eq|done].
  - intros _ s' ->. rewrite wrap_add_1. eapply wp_mono; [apply (IH a n l (c + 1)); [done| |]|].
    + intros b Hb. apply Hfree. set_solver.
    + simpl in Hf. lia.
    + intros r s' [-> ->]. split; [done|]. f_equal. lia.
Qed.

Lemma wp_check_iter fuel s p h l c :
  dl (iter_links (blocks s)) p h l → (length l < fuel)%nat →
  wp true (check_iter fuel h (u32 c))
    (λ r s', s' = s ∧ r = u32 (c - Z.of_nat (length (filter (λ b, has_free s b = true) l)))) s.
Proof using Type.
  clear. revert p h l c. induction fuel as [|fuel IH]; intros p h l c Hdl Hf; [lia|].
  destruct l as [|a l]; simpl in Hdl |- *.
  { rewrite Hdl. cbn [Z.eqb]. wp_step. by rewrite Z.sub_0_r. }
  destruct Hdl as (-> & Ha & n & Hn & Hl). rewrite (proj2 (Z.eqb_neq a 0) Ha).
  unfold iter_links in Hn. apply lookup_fmap_Some in Hn as (blk & [= Hn _] & Hblk).
  wp_step. apply wp_deref with blk; [done|]. wp_step. rewrite Hn.
  apply wp_mono with (λ _ s', s' = s).
  - destruct l as [|b l]; simpl in Hl; [rewrite Hl; cbn [Z.eqb negb]; by wp_step|].
    destruct Hl as (-> & Hb & m & Hm & _). rewrite (proj2 (Z.eqb_neq b 0) Hb). cbn [negb].
    unfold iter_links in Hm. apply lookup_fmap_Some in Hm as (blkb & [= _ Hm] & Hblkb).
    wp_step. apply wp_deref with blkb; [done|]. wp_step; [by apply Z.eqb_eq|done].
  - intros _ s' ->. simpl in Hf. rewrite filter_cons.
    assert (has_free s a = negb (node_slots blk =? 0)) as -> by (unfold has_free; by rewrite Hblk).
    destruct (negb (node_slots blk =? 0)); rewrite ?wrap_sub_1.
    + rewrite decide_True by done. eapply wp_mono; [apply (IH a n l (c - 1)); [done|lia]|].
      intros r s' [-> ->]. split; [done|]. f_equal. simpl. lia.
    + rewrite decide_False by done. apply (IH a n l c); [done|lia].
Qed.

(** The blocks with free slots are those on the list of elements and at most
    one that is empty. *)
Lemma free_blocks s li la :
  Inv s li la → let k := length (filter (λ b, has_free s b = true) li) in
  length la = k ∨ length la = S k.
Proof using Type.
  clear. intros Hinv k.
  set (E := filter (λ b, b ∉ li) la).
  assert (la ≡ₚ filter (λ b, has_free s b = true) li ++ E) as Hp.
  { apply NoDup_Permutation; [apply (inv_nd_avail Hinv)| |].
    - apply NoDup_app. split_and!; [apply NoDup_filter, (inv_nd_iter Hinv)| |].
      + intros b [_ Hb]%list_elem_of_filter [Hb' _]%list_elem_of_filter. done.
      + apply NoDup_filter, (inv_nd_avail Hinv).
    - intros b. unfold E. rewrite elem_of_app, !list_elem_of_filter. split.
      + intros Hb. destruct (decide (b ∈ li)) as [Hi|]; [left|by right]. split; [|done].
        destruct (inv_dom Hinv b) as [[sl ns] Hd]; [by left|].
        apply (has_free_data s b sl ns Hd). by apply (inv_in_avail Hinv b sl ns Hd).
      + intros [[Hfr Hi]|[_ Hb]]; [|done].
        destruct (inv_dom Hinv b) as [[sl ns] Hd]; [by left|].
        apply (inv_in_avail Hinv b sl ns Hd). by apply (has_free_data s b sl ns Hd). }
  assert (NoDup E) as HE by apply NoDup_filter, (inv_nd_avail Hinv).
  assert (∀ b, b ∈ E → last la = Some b) as Hlast.
  { intros b [Hn Hb]%list_elem_of_filter.
    destruct (inv_dom Hinv b) as [[sl ns] Hd]; [by right|].
    destruct (decide (sl = FULL_MASK)) as [->|Hne]; [by apply (inv_last Hinv b ns)|].
    by apply (inv_in_iter Hinv b sl ns Hd) in Hne. }
  apply Permutation_length in Hp. rewrite length_app in Hp. fold k in Hp.
  destruct E as [|b [|c E]]; simpl in Hp; [lia|lia|].
  apply NoDup_cons in HE as [HE _]. destruct HE.
  assert (Some b = Some c) as [= ->]; [|set_solver].
  rewrite <-(Hlast b), <-(Hlast c) by set_solver. done.
Qed.

Lemma wp_bl_check s li la fuel :
  Inv s li la → (length li < fuel)%nat → (length la < fuel)%nat →
  wp true (bl_check fuel) (λ _ s', s' = s) s.
Proof using Type.
  clear. intros Hinv Hi Ha. unfold bl_check. do 3 wp_step.
  eapply wp_mono; [apply (wp_check_available fuel s 0 _ la 0); [apply Hinv| |done]|].
  { intros b Hb. destruct (inv_dom Hinv b) as [[sl ns] Hd]; [by right|].
    apply (has_free_data s b sl ns Hd). by apply (inv_in_avail Hinv b sl ns Hd). }
  intros r s' [-> ->]. do 3 wp_step.
  eapply wp_mono; [by apply (wp_check_iter fuel s 0 _ li); [apply Hinv|]|].
  intros r s' [-> ->]. pose proof (free_blocks s li la Hinv) as Hk. simpl in Hk.
  set (k := length (filter _ li)) in *. wp_step; [|done].
  destruct Hk as [-> | ->].
  - by replace (0 + Z.of_nat k - Z.of_nat k) with 0 by lia.
  - by replace (0 + Z.of_nat (S k) - Z.of_nat k) with 1 by lia.
Qed.
End Removal.

(** ** Histories of a list *)

Section History.
Context {T : Type} (sizeof_node : Z) (trivial : bool).

Implicit Types (s : block_list T) (v : T).

Abbreviation Inv s li la :=
  (inv sizeof_node (iter_links (blocks s)) (avail_links (blocks s)) (data (blocks s))
     (iter_list s) (available_list s) li la).

(** [history s M]: from an empty list, the calls gave the state [s], and [M]
    are the objects inserted and not taken out, by address.  [calloc] returns
    memory apart from the blocks it has given out.  A history ends with an
    insertion into an empty block beside elements in other blocks
    ([orphaned]): the block is on no list of elements then, which is the
    defect [block_list_loses] shows, and its stale links make what follows
    undefined. *)
Inductive history : block_list T → gmap Z T → Prop :=
  | hist_new s0 s : blocks s0 = ∅ → zero s0 = Done (tt, s) → history s ∅
  | hist_insert s M fresh v x s' :
      history s M → fresh_ok sizeof_node fresh s → orphaned s = false →
      _insert sizeof_node fresh v s = Done (x, s') → history s' (<[x := v]> M)
  | hist_remove s M x v s' :
      history s M → M !! x = Some v →
      remove sizeof_node trivial x s = Done (tt, s') → history s' (delete x M)
  | hist_pop s M x s' :
      history s M → M ≠ ∅ → pop sizeof_node s = Done (x, s') → history s' (delete x M).

(** The state represents the objects. *)
Definition represents (s : block_list T) (M : gmap Z T) : Prop :=
  (∀ x v, M !! x = Some v ↔ elem sizeof_node (data (blocks s)) x v) ∧ ∃ li la, Inv s li la.

Context (Hsize : 4 ≤ sizeof_node) (Heven : sizeof_node mod 2 = 0).

Lemma inv_empty : inv sizeof_node (T := T) ∅ ∅ ∅ 0 0 [] [].
Proof using Type.
  clear. split; try done; try constructor; try (intros; by simplify_map_eq).
  intros b [H|H]; by apply not_elem_of_nil in H.
Qed.

Lemma wp_insert total s fresh v li la :
  Inv s li la → fresh_ok sizeof_node fresh s → orphaned s = false →
  wp total (_insert sizeof_node fresh v) (λ x s', inserts sizeof_node s x v s') s.
Proof.
  intros Hinv Hf Ho. destruct la as [|a la]; [by apply wp_insert_new with li|].
  destruct li as [|b li]; [by apply wp_insert_reuse with (a :: la)|].
  by apply wp_insert_first with (b :: li) a la.
Qed.

Lemma represents_insert s M x v s' :
  represents s M → inserts sizeof_node s x v s' → represents s' (<[x := v]> M).
Proof using Type.
  clear. intros [HM _] (Hnew & _ & Hel & Hinv). split; [|done]. intros y w.
  rewrite lookup_insert_Some, Hel, <-HM. split.
  - intros [[-> ->]|[_ H]]; [by left|by right].
  - intros [[-> ->]|H]; [by left|right]. split; [|done].
    intros <-. apply HM in H. by apply Hnew in H.
Qed.

Lemma represents_remove s M x log s' :
  represents s M → removes sizeof_node s x log s' → represents s' (delete x M).
Proof using Type.
  clear. intros [HM _] (Hel & _ & Hinv). split; [|done]. intros y w.
  rewrite lookup_delete_Some, Hel, <-HM. naive_solver.
Qed.

Lemma represents_nonempty s M : represents s M → M ≠ ∅ → ∃ b li la, Inv s (b :: li) la.
Proof using Type.
  clear. intros [HM (li & la & Hinv)] Hne. destruct li as [|b li]; [|by eauto].
  apply map_choose in Hne as (x & v & Hx). apply HM in Hx as (b & sl & ns & i & Hb & Hi & Hbit & _).
  assert (b ∈ []) as []%not_elem_of_nil.
  apply (inv_in_iter Hinv b sl ns Hb). intros ->. by rewrite full_mask_bit in Hbit.
Qed.

Lemma history_represents s M : history s M → represents s M.
Proof.
  induction 1 as [s0 s Hb Hz|s M fresh v x s' _ IH Hf Ho Hrun|s M x v s' _ IH Hx Hrun
    |s M x s' _ IH Hne Hrun].
  - unfold zero, modify in Hz. injection Hz as <-. split; simpl; rewrite Hb.
    + intros x v. unfold data. rewrite fmap_empty. split; [by simplify_map_eq|].
      intros (b & sl & ns & i & H & _). by simplify_map_eq.
    + exists [], []. unfold iter_links, avail_links, data. rewrite !fmap_empty. apply inv_empty.
  - pose proof IH as [_ (li & la & Hinv)].
    eapply represents_insert; [done|].
    by apply (wp_done true _ _ _ _ _ Hrun (wp_insert true s fresh v li la Hinv Hf Ho)).
  - pose proof IH as [HM (li & la & Hinv)].
    apply HM in Hx. eapply represents_remove; [done|].
    apply (wp_done true _ _ _ _ _ Hrun
      (wp_remove sizeof_node trivial Hsize Heven true s li la x v Hinv Hx)).
  - destruct (represents_nonempty s M IH Hne) as (b & li & la & Hinv).
    eapply represents_remove; [done|].
    by apply (wp_done true _ _ _ _ _ Hrun (wp_pop sizeof_node Hsize Heven true s b li la Hinv)).
Qed.

(** The addresses visited are those of the objects. *)
Lemma visited_permutation s M li la :
  (∀ x v, M !! x = Some v ↔ elem sizeof_node (data (blocks s)) x v) → Inv s li la →
  concat (taken sizeof_node s <$> li) ≡ₚ (map_to_list M).*1.
Proof.
  intros HM Hinv. apply NoDup_Permutation.
  - apply (NoDup_taken sizeof_node Hsize s li la); [done|apply (inv_nd_iter Hinv)].
  - apply NoDup_fst_map_to_list.
  - intros x. rewrite (visited_elements sizeof_node Hsize s li la x Hinv), list_elem_of_fmap.
    split.
    + intros [v Hv%HM]. exists (x, v). split; [done|]. by apply elem_of_map_to_list.
    + intros ([y v] & -> & Hy%elem_of_map_to_list). exists v. by apply HM.
Qed.

(** The insertion into an empty block beside other elements: the object is
    stored, and the list of blocks with elements stays as it is. *)
Lemma wp_insert_orphaned total s li la fresh v :
  Inv s li la → orphaned s = true →
  wp total (_insert sizeof_node fresh v)
    (λ x s', ∃ a ns, data (blocks s) !! a = Some (FULL_MASK, ns) ∧ a ∉ li ∧
      x = node_addr sizeof_node a 0 ∧
      data (blocks s') =
        <[a := (blsr FULL_MASK, <[0%nat := Some (mk_node v 0)]> ns)]> (data (blocks s)) ∧
      iter_links (blocks s') = iter_links (blocks s) ∧ iter_list s' = iter_list s ∧
      destroyed s' = destroyed s) s.
Proof.
  intros Hinv Ho. unfold orphaned in Ho. apply andb_true_iff in Ho as [Hil Ho].
  apply negb_true_iff in Hil.
  set (a := available_list s) in *. destruct (blocks s !! a) as [blk|] eqn:Hblk; [|done].
  apply Z.eqb_eq in Ho.
  assert (data (blocks s) !! a = Some (FULL_MASK, nodes blk)) as Ha
    by (apply data_lookup; by exists blk).
  destruct (inv_addr Hinv a) as (H0 & H2 & _); [by eexists|].
  unfold _insert. do 4 wp_step. fold a. rewrite (proj2 (Z.eqb_neq a 0)), Hil by lia. wp_step.
  apply (wp_nb_insert sizeof_node total s a FULL_MASK (nodes blk) v); [done|done|done|].
  cbv zeta. change (instr_tzcnt 64 FULL_MASK) with 0.
  change (if blsr FULL_MASK =? 0 then 1 else 0) with 0.
  intros s1 Hil1 Hal1 Hx1 HI1 HA1 Hd1. rewrite Z.lor_0_r.
  destruct (even_flag (node_addr sizeof_node a 0)) as (E1 & _).
  { by apply node_addr_even. }
  rewrite E1. cbn [Z.eqb negb]. wp_step. exists a, (nodes blk). split_and!; try done.
  intros Hin. by apply (inv_in_iter Hinv a FULL_MASK (nodes blk) Ha) in Hin.
Qed.

Section Orphaned.
Context (s s' : block_list T) (M : gmap Z T) (li la : list Z) (a : Z) (ns : list (option (node T))) (v : T).
Context (HM : ∀ x w, M !! x = Some w ↔ elem sizeof_node (data (blocks s)) x w) (Hinv : Inv s li la).
Context (Ha : data (blocks s) !! a = Some (FULL_MASK, ns)) (Hna : a ∉ li).
Context (Hd : data (blocks s') =
  <[a := (blsr FULL_MASK, <[0%nat := Some (mk_node v 0)]> ns)]> (data (blocks s))).
Context (HI : iter_links (blocks s') = iter_links (blocks s)) (Hil : iter_list s' = iter_list s).

Let x : Z := BlockList.node_addr sizeof_node a 0.

Lemma orphan_unused : M !! x = None.
Proof using Type*.
  apply eq_None_not_Some. intros [w (c & sl & ns' & j & Hc & Hj & Hbit & _ & Heq)%HM].
  destruct (node_addr_inj sizeof_node Hsize _ _ _ _ _ _ _ a c 0 j Hinv) as [<- <-];
    try done; [by eexists..|]. by simplify_eq.
Qed.

(** The object is held, ... *)
Lemma orphan_elem y w :
  elem sizeof_node (data (blocks s')) y w ↔ <[x := v]> M !! y = Some w.
Proof using Type*.
  pose proof orphan_unused as Hx. rewrite lookup_insert_Some, Hd.
  pose proof (elem_take sizeof_node _ _ _ _ _ _ _ a FULL_MASK (blsr FULL_MASK) ns 0 v Hinv Ha
    ltac:(lia) ltac:(by apply full_mask_bit) ltac:(by intros j Hj; apply blsr_take) y w) as E.
  cbv zeta in E. change (Z.to_nat 0) with 0%nat in E. rewrite E, HM. fold x. split.
  - intros [[-> ->]|H]; [by left|right]. split; [|done]. intros <-. apply HM in H. congruence.
  - intros [[-> ->]|[_ H]]; [by left|by right].
Qed.

(** ... and not visited. *)
Lemma orphan_visits fuel :
  (size M < fuel)%nat →
  ∃ L, visit_all sizeof_node fuel s' = Done (L, s') ∧ L ≡ₚ (map_to_list M).*1.
Proof using Type*.
  intros Hf. pose proof (visited_permutation s M li la HM Hinv) as Hp.
  assert (∀ c, c ∈ li → data (blocks s') !! c = data (blocks s) !! c) as Hsame.
  { intros c Hc. rewrite Hd. apply lookup_insert_ne. by intros ->. }
  assert (taken sizeof_node s' <$> li = taken sizeof_node s <$> li) as Ht.
  { apply list_fmap_ext. intros i c Hc%list_elem_of_lookup_2. unfold taken. by rewrite Hsame. }
  assert (occupied s' li) as Hocc.
  { intros c Hc. rewrite Hsame by done. by apply (inv_occupied sizeof_node s li la Hinv). }
  pose proof (inv_iter Hinv) as Hdl. rewrite <-HI, <-Hil in Hdl.
  destruct (wp_total_done _ _ _ (wp_visit_all sizeof_node s' li fuel Hdl Hocc
    ltac:(by rewrite Ht, Hp, length_fmap, length_map_to_list))) as (L & s2 & Hv & -> & ->).
  eexists. split; [done|]. by rewrite Ht.
Qed.
End Orphaned.

(** Iterating over a block list ends, leaves the list as it is and visits
    every object exactly once and nothing else. *)
Lemma block_list_visits s M fuel :
  history s M → (size M < fuel)%nat →
  ∃ L, visit_all sizeof_node fuel s = Done (L, s) ∧ L ≡ₚ (map_to_list M).*1.
Proof.
  intros H%history_represents Hf. pose proof H as [HM (li & la & Hinv)].
  pose proof (visited_permutation s M li la HM Hinv) as Hp.
  destruct (wp_total_done _ _ _ (wp_visit_all sizeof_node s li fuel
    (inv_iter Hinv) (inv_occupied sizeof_node s li la Hinv)
    ltac:(by rewrite Hp, length_fmap, length_map_to_list))) as (L & s' & Hrun & -> & ->).
  eauto.
Qed.

(** ** Claims *)

(** C31: inserting into a block list never fails, after any history of
    insertions, removals and pops in which no object was inserted into an
    orphaned block (an empty block, kept on the list of available blocks while
    other blocks have elements): the object is stored at an address where no
    other object of the list is, every object already in the list stays where
    it was, and no destructor runs.  An iteration then visits all objects once;
    when the block the object went to was orphaned it visits all but the new
    one. *)
Theorem block_list_insert s M fresh v :
  history s M → fresh_ok sizeof_node fresh s →
  ∃ x s', _insert sizeof_node fresh v s = Done (x, s') ∧ M !! x = None ∧
    destroyed s' = destroyed s ∧
    (∀ y w, elem sizeof_node (data (blocks s')) y w ↔ <[x := v]> M !! y = Some w) ∧
    ∀ fuel, (S (size M) < fuel)%nat → ∃ L, visit_all sizeof_node fuel s' = Done (L, s') ∧
      L ≡ₚ (map_to_list (if orphaned s then M else <[x := v]> M)).*1.
Proof.
  intros H Hf. pose proof (history_represents s M H) as Hrep. pose proof Hrep as [HM (li & la & Hinv)].
  destruct (orphaned s) eqn:Ho.
  - destruct (wp_total_done _ _ _ (wp_insert_orphaned true s li la fresh v Hinv Ho))
      as (x & s' & Hrun & a & ns & Ha & Hna & -> & Hd & HI & Hil & Hx).
    eexists _, s'. split_and!; [done|by eapply orphan_unused|done|by eapply orphan_elem|].
    intros fuel Hfuel. eapply (orphan_visits s s' M li la); try done. lia.
  - destruct (wp_total_done _ _ _ (wp_insert true s fresh v li la Hinv Hf Ho))
      as (x & s' & Hrun & Hins). exists x, s'.
    pose proof (represents_insert s M x v s' Hrep Hins) as [HM' _].
    destruct Hins as (Hnew & Hx & _).
    assert (M !! x = None) as Hx0.
    { apply eq_None_not_Some. intros [w Hw]. apply HM in Hw. by apply Hnew in Hw. }
    split_and!; [done|done|done|by intros; rewrite HM'|]. intros fuel Hfuel.
    apply block_list_visits; [by eapply hist_insert|]. rewrite map_size_insert_None by done. lia.
Qed.

(** C32: removing an object from a block list, after any history in which no
    object was inserted into an orphaned block, never fails, runs its destructor
    once (unless the destructor is trivial) and takes out that object and no
    other. *)
Theorem block_list_remove s M x v :
  history s M → M !! x = Some v →
  ∃ s', remove sizeof_node trivial x s = Done (tt, s') ∧
    destroyed s' = destroyed s ++ (if trivial then [] else [v]) ∧
    ∀ y w, elem sizeof_node (data (blocks s')) y w ↔ delete x M !! y = Some w.
Proof.
  intros H%history_represents Hx. pose proof H as [HM (li & la & Hinv)]. apply HM in Hx.
  destruct (wp_total_done _ _ _
    (wp_remove sizeof_node trivial Hsize Heven true s li la x v Hinv Hx)) as ([] & s' & Hrun & Hrem).
  exists s'. pose proof (represents_remove s M x _ s' H Hrem) as [HM' _].
  split_and!; [done|apply Hrem|by intros; rewrite HM'].
Qed.

(** [pop] on a list with an object returns the address of one of them and
    takes out that one, without running its destructor. *)
Theorem block_list_pop s M :
  history s M → M ≠ ∅ →
  ∃ x s', pop sizeof_node s = Done (x, s') ∧ is_Some (M !! x) ∧ destroyed s' = destroyed s ∧
    ∀ y w, elem sizeof_node (data (blocks s')) y w ↔ delete x M !! y = Some w.
Proof.
  intros H%history_represents Hne. pose proof H as [HM _].
  destruct (represents_nonempty s M H Hne) as (b & li & la & Hinv).
  destruct (wp_total_done _ _ _ (wp_pop sizeof_node Hsize Heven true s b li la Hinv))
    as (x & s' & Hrun & [v Hv] & Hrem).
  exists x, s'. pose proof (represents_remove s M x _ s' H Hrem) as [HM' _].
  split_and!; [done|exists v; by apply HM| |by intros; rewrite HM'].
  destruct Hrem as (_ & -> & _). by rewrite app_nil_r.
Qed.

(** The consistency check of the list passes after any history, whatever
    the number of blocks: no assertion fails, and the walks along both lists
    end. *)
Theorem block_list_check_ok s M fuel :
  history s M → (size (blocks s) < fuel)%nat → bl_check fuel s = Done (tt, s).
Proof.
  intros [_ (li & la & Hinv)]%history_represents Hf.
  assert (∀ l, NoDup l → (∀ b, b ∈ l → b ∈ li ∨ b ∈ la) → (length l < fuel)%nat) as Hlen.
  { intros l Hnd Hl. rewrite <-size_dom in Hf. rewrite <-(size_list_to_set (C := gset Z) l Hnd).
    eapply Nat.le_lt_trans; [apply subseteq_size|exact Hf]. intros b Hb%elem_of_list_to_set.
    by apply elem_of_dom, data_is_Some, (inv_dom Hinv b), Hl. }
  destruct (wp_total_done _ _ _ (wp_bl_check sizeof_node s li la fuel Hinv
    (Hlen li (inv_nd_iter Hinv) ltac:(auto)) (Hlen la (inv_nd_avail Hinv) ltac:(auto))))
    as ([] & s' & Hrun & ->). done.
Qed.
(** ** The block that is lost *)

(** When the last object of the only block with free slots was removed
    while other blocks have objects, the block is kept for reuse but is on no
    list of blocks with objects, and the next insertion does not put it back:
    the object inserted is stored in the list, and the iterator visits every
    other object and not this one. *)
Theorem block_list_loses s M fresh v fuel :
  history s M → orphaned s = true → (size M < fuel)%nat →
  ∃ x s' L, _insert sizeof_node fresh v s = Done (x, s') ∧
    elem sizeof_node (data (blocks s')) x v ∧
    visit_all sizeof_node fuel s' = Done (L, s') ∧ L ≡ₚ (map_to_list M).*1 ∧ x ∉ L.
Proof.
  intros H Ho Hf. pose proof (history_represents s M H) as [HM (li & la & Hinv)].
  destruct (wp_total_done _ _ _ (wp_insert_orphaned true s li la fresh v Hinv Ho))
    as (x & s' & Hrun & a & ns & Ha & Hna & -> & Hd & HI & Hil & _).
  assert (M !! node_addr sizeof_node a 0 = None) as Hx by (by eapply (orphan_unused s s' M li la a ns v)).
  destruct (orphan_visits s s' M li la a ns v HM Hinv Ha Hna Hd HI Hil fuel Hf) as (L & Hv & Hp).
  eexists _, s', L. split_and!; [done| |done|done|].
  - eapply (orphan_elem s s' M li la a ns v HM Hinv Ha Hna Hd HI Hil). by rewrite lookup_insert_eq.
  - rewrite Hp. intros ([y w] & Hy & Hin%elem_of_map_to_list)%list_elem_of_fmap. simpl in Hy. subst y. congruence.
Qed.
End History.

(** ** Concrete histories *)

Definition state_of {S A} (d : S) (o : outcome (A * S)) : S :=
  match o with Done (_, s) => s | _ => d end.

(** Nodes of 16 bytes with a destructor; two insertions into one block. *)
Definition demo_empty : block_list Z := mk_bl 0 0 ∅ [].
Definition demo_one : block_list Z := state_of demo_empty (_insert 16 4096 7 demo_empty).
Definition demo_two : block_list Z := state_of demo_empty (_insert 16 8192 9 demo_one).

Lemma demo_fresh_one : fresh_ok 16 8192 demo_one.
Proof.
  split_and!; [done..|]. intros b Hb%elem_of_dom.
  assert (dom (blocks demo_one) = {[4096]}) as E by (by vm_compute).
  rewrite E in Hb. apply elem_of_singleton in Hb as ->. by left.
Qed.

Lemma demo_history_one : history 16 false demo_one (<[4136 := 7]> ∅).
Proof.
  apply (hist_insert 16 false demo_empty ∅ 4096 7 4136 demo_one).
  - by apply (hist_new 16 false demo_empty).
  - split_and!; [done..|]. intros b [? Hb]. by destruct (lookup_empty_Some b x Hb).
  - done.
  - exact (eq_refl (Done (4136, demo_one)) <: _insert 16 4096 7 demo_empty = Done (4136, demo_one)).
Qed.

Lemma demo_history_two : history 16 false demo_two (<[4152 := 9]> (<[4136 := 7]> ∅)).
Proof.
  apply (hist_insert 16 false demo_one _ 8192 9 4152 demo_two).
  - apply demo_history_one.
  - apply demo_fresh_one.
  - by vm_compute.
  - exact (eq_refl (Done (4152, demo_two)) <: _insert 16 8192 9 demo_one = Done (4152, demo_two)).
Qed.

Lemma block_list_insert_witness :
  ∃ x s', _insert 16 8192 9 demo_one = Done (x, s') ∧ (<[4136 := 7]> ∅ : gmap Z Z) !! x = None ∧
    destroyed s' = destroyed demo_one ∧
    ∀ y w, elem 16 (data (blocks s')) y w ↔ <[x := 9]> (<[4136 := 7]> ∅ : gmap Z Z) !! y = Some w.
Proof.
  destruct (block_list_insert 16 false ltac:(lia) eq_refl demo_one _ 8192 9
    demo_history_one demo_fresh_one) as (x & s' & H1 & H2 & H3 & H4 & _).
  exists x, s'. split_and!; [exact H1|exact H2|exact H3|exact H4].
Defined.

Lemma block_list_remove_witness :
  ∃ s', remove 16 false 4136 demo_two = Done (tt, s') ∧ destroyed s' = destroyed demo_two ++ [7] ∧
    ∀ y w, elem 16 (data (blocks s')) y w ↔
      delete 4136 (<[4152 := 9]> (<[4136 := 7]> ∅) : gmap Z Z) !! y = Some w.
Proof.
  by apply (block_list_remove 16 false ltac:(lia) eq_refl demo_two _ 4136 7 demo_history_two).
Defined.

Lemma block_list_pop_witness :
  ∃ x s', pop 16 demo_two = Done (x, s') ∧
    is_Some ((<[4152 := 9]> (<[4136 := 7]> ∅) : gmap Z Z) !! x) ∧
    destroyed s' = destroyed demo_two ∧
    ∀ y w, elem 16 (data (blocks s')) y w ↔
      delete x (<[4152 := 9]> (<[4136 := 7]> ∅) : gmap Z Z) !! y = Some w.
Proof.
  by apply (block_list_pop 16 false ltac:(lia) eq_refl demo_two _ demo_history_two).
Defined.

Lemma block_list_visits_witness :
  ∃ L, visit_all 16 3 demo_two = Done (L, demo_two) ∧
    L ≡ₚ (map_to_list (<[4152 := 9]> (<[4136 := 7]> ∅) : gmap Z Z)).*1.
Proof.
  apply (block_list_visits 16 false ltac:(lia) eq_refl demo_two _ 3 demo_history_two).
  vm_compute. lia.
Defined.

Lemma block_list_check_ok_witness : bl_check 5 demo_two = Done (tt, demo_two).
Proof.
  apply (block_list_check_ok 16 false ltac:(lia) eq_refl demo_two _ 5 demo_history_two).
  vm_compute. lia.
Defined.

(** ** An object that is lost *)

(** The block at 4096 with the objects [0 .. k-1]. *)
Definition filled (k : nat) : block_list Z :=
  mk_bl 4096 (if (k =? 64)%nat then 0 else 4096)
    {[4096 := mk_nb (FULL_MASK - (2 ^ Z.of_nat k - 1)) 0 0 0 0
       (((λ i, Some (mk_node i i)) <$> seqZ 0 (Z.of_nat k)) ++ replicate (64 - k) None)]} [].

Fixpoint filled_map (k : nat) : gmap Z Z :=
  match k with
  | O => ∅
  | S k => <[4136 + 16 * Z.of_nat k := Z.of_nat k]> (filled_map k)
  end.

Lemma filled_step k :
  (0 < k < 64)%nat →
  _insert 16 8192 (Z.of_nat k) (filled k) = Done (4136 + 16 * Z.of_nat k, filled (S k)) ∧
  orphaned (filled k) = false.
Proof.
  intros Hk. destruct k as [|k]; [lia|].
  do 63 (destruct k as [|k]; [vm_compute; done|]). lia.
Qed.

Lemma filled_fresh k : fresh_ok 16 8192 (filled k).
Proof.
  split_and!; [done..|]. intros b [blk Hb]. unfold filled in Hb. cbn [blocks] in Hb. apply lookup_singleton_Some in Hb as [<- _]. by left.
Qed.

Lemma filled_history k : (0 < k ≤ 64)%nat → history 16 false (filled k) (filled_map k).
Proof.
  induction k as [|k IH]; intros Hk; [lia|]. destruct (decide (k = O)) as [->|Hk0].
  - apply (hist_insert 16 false demo_empty ∅ 4096 0 4136 (filled 1)).
    + by apply (hist_new 16 false demo_empty).
    + split_and!; [done..|]. intros b [x Hb]. by destruct (lookup_empty_Some b x Hb).
    + done.
    + exact (eq_refl (Done (4136, filled 1)) <: _insert 16 4096 0 demo_empty = Done (4136, filled 1)).
  - destruct (filled_step k) as [Hrun Ho]; [lia|].
    eapply hist_insert; [apply IH; lia|apply filled_fresh|done|exact Hrun].
Qed.

(** The 65th object is alone in its block, and is removed. *)
Definition two_blocks : block_list Z := state_of demo_empty (_insert 16 8192 64 (filled 64)).
Definition lost_before : block_list Z := state_of demo_empty (remove 16 false 8232 two_blocks).

Lemma lost_history :
  history 16 false lost_before (delete 8232 (<[8232 := 64]> (filled_map 64))).
Proof.
  apply (hist_remove 16 false two_blocks _ 8232 64 lost_before).
  - apply (hist_insert 16 false (filled 64) (filled_map 64) 8192 64 8232 two_blocks).
    + apply filled_history. lia.
    + apply filled_fresh.
    + by vm_compute.
    + exact (eq_refl (Done (8232, two_blocks))
        <: _insert 16 8192 64 (filled 64) = Done (8232, two_blocks)).
  - apply lookup_insert_eq.
  - exact (eq_refl (Done (tt, lost_before))
      <: remove 16 false 8232 two_blocks = Done (tt, lost_before)).
Qed.

Lemma block_list_loses_witness :
  ∃ x s' L, _insert 16 12288 100 lost_before = Done (x, s') ∧
    elem 16 (data (blocks s')) x 100 ∧ visit_all 16 100 s' = Done (L, s') ∧
    L ≡ₚ (map_to_list (delete 8232 (<[8232 := 64]> (filled_map 64)))).*1 ∧ x ∉ L.
Proof.
  apply (block_list_loses 16 false ltac:(lia) eq_refl lost_before _ 12288 100 100 lost_history).
  - by vm_compute.
  - apply (bool_decide_unpack _). by vm_compute.
Defined.
