(* ===== verification/CString.v ===== *)
(** * The C library, as far as the configuration code uses it

    C strings and their numbers: comparison, [strtol], [strtoull], [sscanf],
    [fgets], the integer conversions of [printf], and programs that can exit
    or run into undefined behaviour.  A string value is the characters before
    the terminating NUL. *)

From Stdlib Require Export Ascii.
From stdpp Require Export strings.
From S2P Require Import Prelude.

#[global] Open Scope Z_scope.

(** ** Programs that can exit *)

(** A value, [exit] with a status, undefined behaviour, or the fuel of a loop
    used up. *)
Inductive exec (A : Type) : Type :=
  | Ret (a : A)
  | Exit (code : Z)
  | Undef
  | Running.
Arguments Ret {A} a.
Arguments Exit {A} code.
Arguments Undef {A}.
Arguments Running {A}.

#[export] Instance exec_ret : MRet exec := λ A a, Ret a.
#[export] Instance exec_bind : MBind exec := λ A B f m,
  match m with Ret a => f a | Exit c => Exit c | Undef => Undef | Running => Running end.

(** [ERR::errdie] and [ERR::die] (the message goes to the error output), and
    the assertions that call them. *)
Definition errdie {A} : exec A := Exit (-1).
Definition die {A} : exec A := Exit (-1).
Definition ERROR_ASSERT (b : bool) : exec unit := if b then Ret tt else errdie.
Definition DIE_ASSERT (b : bool) : exec unit := if b then Ret tt else die.

(** ** Characters *)

Definition chr (n : N) : ascii := ascii_of_N n.

(** [char] is signed. *)
Definition char_val (c : ascii) : Z :=
  let n := Z.of_N (N_of_ascii c) in if n <? 128 then n else n - 256.

Definition newline : ascii := chr 10.
Definition tab : ascii := chr 9.
Definition nl : string := String newline EmptyString.
Definition tb : string := String tab EmptyString.
Definition quote : string := String (chr 34) EmptyString.

(** [isspace]. *)
Definition is_space (c : ascii) : bool :=
  let n := Z.of_N (N_of_ascii c) in (n =? 32) || ((9 <=? n) && (n <=? 13)).

(** The value of a digit in bases up to 36. *)
Definition digit_val (c : ascii) : option Z :=
  let n := Z.of_N (N_of_ascii c) in
  if (48 <=? n) && (n <=? 57) then Some (n - 48)
  else if (97 <=? n) && (n <=? 122) then Some (n - 87)
  else if (65 <=? n) && (n <=? 90) then Some (n - 55)
  else None.

Definition is_digit (base : Z) (c : ascii) : bool :=
  match digit_val c with Some d => d <? base | None => false end.

Definition digit_char (d : Z) : ascii := chr (Z.to_N (if d <? 10 then 48 + d else 87 + d)).

(** ** Strings *)

(** [!strncmp(a, b, n)]. *)
Fixpoint strncmp_eq (a b : string) (n : nat) : bool :=
  match n with
  | O => true
  | S n =>
      match a, b with
      | EmptyString, EmptyString => true
      | String x a, String y b => bool_decide (x = y) && strncmp_eq a b n
      | _, _ => false
      end
  end.

(** [!strncmp(buf, lit, strlen(lit))]. *)
Definition starts_with (lit buf : string) : bool := strncmp_eq buf lit (String.length lit).

(** [!strcmp(a, b)]. *)
Definition strcmp_eq (a b : string) : bool := bool_decide (a = b).

Fixpoint drop_chars (n : nat) (s : string) : string :=
  match n, s with
  | S n, String _ s => drop_chars n s
  | _, _ => s
  end.

(** The characters before the first [c], and those after it. *)
Fixpoint before_char (c : ascii) (s : string) : string :=
  match s with
  | EmptyString => EmptyString
  | String x s => if bool_decide (x = c) then EmptyString else String x (before_char c s)
  end.

Fixpoint after_char (c : ascii) (s : string) : option string :=
  match s with
  | EmptyString => None
  | String x s => if bool_decide (x = c) then Some s else after_char c s
  end.

Fixpoint has_char (c : ascii) (s : string) : bool :=
  match s with
  | EmptyString => false
  | String x s => bool_decide (x = c) || has_char c s
  end.

(** ** Numbers *)

Fixpoint skip_space (s : string) : string * nat :=
  match s with
  | String c s' => if is_space c then (λ r, (r.1, S (r.2))) (skip_space s') else (s, O)
  | EmptyString => (s, O)
  end.

(** The digits at the start of [s]: value so far, digits read. *)
Fixpoint read_digits (base : Z) (s : string) (a : Z) (n : nat) : Z * nat :=
  match s with
  | String c s' =>
      match digit_val c with
      | Some d => if d <? base then read_digits base s' (a * base + d) (S n) else (a, n)
      | None => (a, n)
      end
  | EmptyString => (a, n)
  end.

Definition read_sign (s : string) : bool * string * nat :=
  match s with
  | String c s' =>
      if bool_decide (c = chr 45) then (true, s', 1%nat)
      else if bool_decide (c = chr 43) then (false, s', 1%nat)
      else (false, s, O)
  | EmptyString => (false, s, O)
  end.

Definition clamp (lo hi x : Z) : Z := Z.max lo (Z.min hi x).

(** [strtol(s, &end, 10)]: the value and [end - s]; both 0 when there is no
    number. *)
Definition strtol (s : string) : Z * nat :=
  let '(s, k) := skip_space s in
  let '(neg, s, k') := read_sign s in
  let '(v, n) := read_digits 10 s 0 0 in
  if (n =? 0)%nat then (0, O)
  else (clamp (- 2 ^ 63) (2 ^ 63 - 1) (if neg then - v else v), (k + k' + n)%nat).

(** [strtoull(s, &end, 16)], with an optional [0x] before a digit. *)
Definition strip_0x (s : string) : string * nat :=
  match s with
  | String z (String x (String c _ as s')) =>
      if bool_decide (z = chr 48) && (bool_decide (x = chr 120) || bool_decide (x = chr 88))
         && is_digit 16 c
      then (s', 2%nat) else (s, O)
  | _ => (s, O)
  end.

Definition strtoull16 (s : string) : Z * nat :=
  let '(s, k) := skip_space s in
  let '(neg, s, k') := read_sign s in
  let '(s, k'') := strip_0x s in
  let '(v, n) := read_digits 16 s 0 0 in
  if (n =? 0)%nat then (0, O)
  else
    (if v <? 2 ^ 64 then (if neg then u64 (- v) else v) else 2 ^ 64 - 1, (k + k' + k'' + n)%nat).

(** The digits of [n] in front of [acc]; 20 digits are enough for 64 bits. *)
Fixpoint digits_go (base : Z) (fuel : nat) (n : Z) (acc : string) : string :=
  match fuel with
  | O => acc
  | S fuel =>
      let acc := String (digit_char (n mod base)) acc in
      if n <? base then acc else digits_go base fuel (n / base) acc
  end.

Definition i32 (x : Z) : Z := let y := u32 x in if y <? 2 ^ 31 then y else y - 2 ^ 32.

Definition dec (n : Z) : string :=
  if n <? 0 then String (chr 45) (digits_go 10 20 (- n) EmptyString)
  else digits_go 10 20 n EmptyString.

(** [%d] with an [int] or [uint32_t], [%lx] with a [uint64_t]. *)
Definition fmt_d (x : Z) : string := dec (i32 x).
Definition fmt_lx (x : Z) : string := digits_go 16 16 (u64 x) EmptyString.

(** ** [fgets] and [sscanf] *)

(** The next buffer of at most [n] characters, up to a newline, and the rest. *)
Fixpoint read_line (n : nat) (s : string) : string * string :=
  match n, s with
  | S n, String c s' =>
      if bool_decide (c = newline) then (String c EmptyString, s')
      else let '(l, r) := read_line n s' in (String c l, r)
  | _, _ => (EmptyString, s)
  end.

(** [fgets(buf, n, fp)]: [None] at the end of the file. *)
Definition fgets (n : nat) (s : string) : option (string * string) :=
  match s with EmptyString => None | _ => Some (read_line (pred n) s) end.

(** The buffers of [while (fgets(buf, n, fp))]. *)
Fixpoint fgets_all (fuel n : nat) (s : string) : list string :=
  match fuel with
  | O => []
  | S fuel =>
      match fgets n s with
      | Some (l, r) => l :: fgets_all fuel n r
      | None => []
      end
  end.

Definition buffers (n : nat) (s : string) : list string := fgets_all (S (String.length s)) n s.

(** A conversion of [sscanf] with white space in front of it: [%s] and [%c]
    into an array of [size] characters, [%d]. *)
Inductive conv := ConvS (size : nat) | ConvC | ConvD.

Fixpoint read_token (s : string) : string * string :=
  match s with
  | String c s' =>
      if is_space c then (EmptyString, s)
      else let '(t, r) := read_token s' in (String c t, r)
  | EmptyString => (EmptyString, s)
  end.

(** The number of conversions done and the integers stored; a token longer
    than its array is undefined. *)
Fixpoint sscanf (fmt : list conv) (s : string) : exec (nat * list Z) :=
  match fmt with
  | [] => Ret (O, [])
  | k :: fmt =>
      let '(s, _) := skip_space s in
      match s with
      | EmptyString => Ret (O, [])
      | String c s' =>
          match k with
          | ConvS size =>
              let '(t, r) := read_token s in
              if (String.length t <? size)%nat then
                '(n, l) ← sscanf fmt r; Ret (S n, l)
              else Undef
          | ConvC => '(n, l) ← sscanf fmt s'; Ret (S n, l)
          | ConvD =>
              let '(v, n) := strtol s in
              if (n =? 0)%nat then Ret (O, [])
              else '(m, l) ← sscanf fmt (drop_chars n s); Ret (S m, v :: l)
          end
      end
  end.

(** ** Printing and reading numbers *)

Lemma digit_val_char d : 0 ≤ d < 36 → digit_val (digit_char d) = Some d.
Proof.
  intros Hd. apply (proj1 (bool_decide_eq_true _)).
  by_range (λ d, bool_decide (digit_val (digit_char d) = Some d)) 0 36.
Qed.

(** A digit is neither white space nor a sign. *)
Definition plain (c : ascii) : bool :=
  negb (is_space c) && negb (bool_decide (c = chr 45)) && negb (bool_decide (c = chr 43)).

Lemma digit_plain d : 0 ≤ d < 36 → plain (digit_char d) = true.
Proof. intros Hd. by_range (λ d, plain (digit_char d)) 0 36. Qed.

Lemma app_cons c s t : String c s +:+ t = String c (s +:+ t).
Proof. done. Qed.

Lemma app_nil_string (s : string) : s +:+ EmptyString = s.
Proof. induction s as [|c s IH]; [done|]. by rewrite app_cons, IH. Qed.

Lemma append_assoc (r s t : string) : r +:+ (s +:+ t) = (r +:+ s) +:+ t.
Proof. induction r as [|c r IH]; [done|]. by rewrite !app_cons, IH. Qed.

Lemma string_length_app (s t : string) :
  String.length (s +:+ t) = (String.length s + String.length t)%nat.
Proof. induction s as [|c s IH]; [done|]. rewrite app_cons. simpl. by rewrite IH. Qed.

Section Digits.
Context (base : Z) (Hbase : 2 ≤ base ≤ 36).

Lemma digits_app fuel n acc t :
  digits_go base fuel n acc +:+ t = digits_go base fuel n (acc +:+ t).
Proof using Type.
  revert n acc. induction fuel as [|fuel IH]; intros n acc; [done|]. simpl.
  destruct (n <? base); [done|]. by rewrite IH, app_cons.
Qed.

Lemma digits_head fuel n acc :
  0 ≤ n → ∃ d s, 0 ≤ d < base ∧ digits_go base (S fuel) n acc = String (digit_char d) s.
Proof.
  revert n acc. induction fuel as [|fuel IH]; intros n acc Hn.
  - exists (n mod base), acc. split; [apply Z.mod_pos_bound; lia|]. simpl. by destruct (n <? base).
  - simpl. destruct (n <? base).
    + exists (n mod base), acc. split; [apply Z.mod_pos_bound; lia|done].
    + apply IH. apply Z.div_pos; lia.
Qed.

Lemma digits_split fuel n acc : digits_go base fuel n acc = digits_go base fuel n EmptyString +:+ acc.
Proof using Type. by rewrite digits_app. Qed.

Lemma digits_step fuel n :
  base ≤ n → digits_go base (S fuel) n EmptyString =
    digits_go base fuel (n / base) EmptyString +:+ String (digit_char (n mod base)) EmptyString.
Proof using Type.
  intros Hn. simpl. rewrite (proj2 (Z.ltb_ge n base)) by lia. apply digits_split.
Qed.

(** Reading what was printed gives the number, and reading goes on after it. *)
Lemma read_digits_go fuel n acc m :
  0 ≤ n < base ^ Z.of_nat fuel → fuel ≠ O →
  read_digits base (digits_go base fuel n acc) 0 m =
    read_digits base acc n (String.length (digits_go base fuel n EmptyString) + m).
Proof.
  revert n acc m. induction fuel as [|fuel IH]; intros n acc m Hn Hf; [done|].
  pose proof (Z.mod_pos_bound n base).
  assert (∀ a k, read_digits base (String (digit_char (n mod base)) acc) a k =
    read_digits base acc (a * base + n mod base) (S k)) as Hstep.
  { intros a k. simpl. rewrite digit_val_char by lia.
    by rewrite (proj2 (Z.ltb_lt (n mod base) base)) by lia. }
  destruct (Z.lt_ge_cases n base) as [Hlt|Hge].
  - cbn [digits_go]. rewrite (proj2 (Z.ltb_lt n base)) by lia. rewrite Hstep. f_equal.
    rewrite Z.mod_small; lia.
  - rewrite (digits_split (S fuel)), digits_step, <-append_assoc, <-digits_split by lia.
    rewrite app_cons.
    destruct (decide (fuel = O)) as [->|Hf']; [simpl in Hn; lia|].
    rewrite IH, Hstep; [|split; [apply Z.div_pos; lia|]|done].
    + rewrite string_length_app. simpl. f_equal; [|lia]. pose proof (Z.div_mod n base). lia.
    + apply Z.div_lt_upper_bound; [lia|].
      rewrite Nat2Z.inj_succ, Z.pow_succ_r in Hn by lia. lia.
Qed.

Lemma digits_length fuel n k :
  0 ≤ n < base ^ Z.of_nat k → k ≠ O → (String.length (digits_go base fuel n EmptyString) ≤ k)%nat.
Proof.
  revert n k. induction fuel as [|fuel IH]; intros n k Hn Hk; [simpl; lia|].
  destruct (Z.lt_ge_cases n base) as [Hlt|Hge].
  - cbn [digits_go]. rewrite (proj2 (Z.ltb_lt n base)) by lia. simpl. lia.
  - rewrite digits_step, string_length_app by lia. simpl.
    destruct k as [|[|k]]; [done|simpl in Hn; lia|].
    enough (String.length (digits_go base fuel (n / base) EmptyString) ≤ S k)%nat by lia.
    apply IH; [|done]. split; [apply Z.div_pos; lia|]. apply Z.div_lt_upper_bound; [lia|].
    rewrite (Nat2Z.inj_succ (S k)), Z.pow_succ_r in Hn by lia. lia.
Qed.

Lemma digits_nonempty fuel n : (0 < String.length (digits_go base (S fuel) n EmptyString))%nat.
Proof using Type.
  simpl. destruct (n <? base); [simpl; lia|]. rewrite digits_split, string_length_app. simpl. lia.
Qed.
End Digits.

Definition no_digit (base : Z) (s : string) : bool :=
  match s with String c _ => negb (is_digit base c) | EmptyString => true end.

Lemma read_digits_stop base s a n : no_digit base s = true → read_digits base s a n = (a, n).
Proof.
  destruct s as [|c s]; [done|]. simpl. unfold is_digit.
  destruct (digit_val c) as [d|]; [|done]. by destruct (d <? base).
Qed.

Lemma plain_start c s :
  plain c = true → skip_space (String c s) = (String c s, O) ∧
  read_sign (String c s) = (false, String c s, O).
Proof.
  unfold plain. rewrite !andb_true_iff, !negb_true_iff. intros ((H1 & H2) & H3).
  split; [cbn [skip_space]; by rewrite H1|]. unfold read_sign. by rewrite H2, H3.
Qed.

(** [strtol] reads a number back that was printed, whatever follows it, and
    stops behind it. *)
Lemma strtol_dec n rest :
  - 2 ^ 63 ≤ n < 2 ^ 63 → no_digit 10 rest = true →
  strtol (dec n +:+ rest) = (n, String.length (dec n)).
Proof.
  intros Hn Hrest. unfold dec. destruct (Z.ltb_spec n 0).
  - rewrite app_cons, digits_app. unfold strtol. cbn [skip_space].
    replace (is_space (chr 45)) with false by done.
    cbn [read_sign]. rewrite bool_decide_true by done.
    rewrite read_digits_go, read_digits_stop by (done || lia).
    pose proof (digits_nonempty 10 19 (- n)). rewrite (proj2 (Nat.eqb_neq _ 0)) by lia.
    unfold clamp. f_equal; [lia|]. cbn [String.length]. lia.
  - rewrite digits_app. unfold strtol.
    destruct (digits_head 10 ltac:(lia) 19 n (EmptyString +:+ rest)) as (d & s & Hd & Hs); [lia|].
    destruct (plain_start (digit_char d) s) as [E1 E2]; [apply digit_plain; lia|].
    rewrite Hs, E1, E2, <-Hs, read_digits_go, read_digits_stop by (done || lia).
    pose proof (digits_nonempty 10 19 n). rewrite (proj2 (Nat.eqb_neq _ 0)) by lia.
    unfold clamp. f_equal; lia.
Qed.

Lemma fmt_d_dec n : - 2 ^ 31 ≤ n < 2 ^ 31 → fmt_d n = dec n.
Proof.
  intros Hn. unfold fmt_d, i32, wrap. f_equal. destruct (Z.lt_ge_cases n 0).
  - assert (n mod 2 ^ 32 = n + 2 ^ 32) as ->.
    { rewrite <-(Z.mod_small (n + 2 ^ 32) (2 ^ 32)) by lia.
      rewrite <-Zplus_mod_idemp_r, Z.mod_same, Z.add_0_r; lia. }
    rewrite (proj2 (Z.ltb_ge _ _)); lia.
  - rewrite Z.mod_small by lia. rewrite (proj2 (Z.ltb_lt _ _)); lia.
Qed.

Lemma dec_nonempty n : (0 < String.length (dec n))%nat.
Proof.
  unfold dec. destruct (n <? 0); [cbn [String.length]; lia|]. apply digits_nonempty.
Qed.

Lemma dec_start n rest :
  0 ≤ n → ∃ c s, dec n +:+ rest = String c s ∧ plain c = true.
Proof.
  intros Hn. unfold dec. rewrite (proj2 (Z.ltb_ge n 0)), digits_app by lia.
  destruct (digits_head 10 ltac:(lia) 19 n (EmptyString +:+ rest)) as (d & s & Hd & ->); [lia|].
  exists (digit_char d), s. split; [done|]. apply digit_plain. lia.
Qed.

Lemma dec_length n k :
  0 ≤ n < 10 ^ Z.of_nat k → k ≠ O → (String.length (dec n) ≤ k)%nat.
Proof.
  intros Hn Hk. unfold dec. rewrite (proj2 (Z.ltb_ge n 0)) by lia. by apply digits_length.
Qed.

Lemma drop_chars_app s t : drop_chars (String.length s) (s +:+ t) = t.
Proof. induction s as [|c s IH]; [by destruct t|done]. Qed.

Lemma digits_no_char base fuel n acc c :
  2 ≤ base ≤ 36 → digit_val c = None → has_char c (digits_go base fuel n acc) = has_char c acc.
Proof.
  intros Hb Hc. revert n acc. induction fuel as [|fuel IH]; intros n acc; [done|]. simpl.
  pose proof (Z.mod_pos_bound n base).
  assert (has_char c (String (digit_char (n mod base)) acc) = has_char c acc) as E.
  { simpl. rewrite bool_decide_false; [done|]. intros <-. rewrite digit_val_char in Hc by lia. done. }
  destruct (n <? base); [done|]. by rewrite IH.
Qed.

Lemma dec_no_char n c : 0 ≤ n → digit_val c = None → has_char c (dec n) = false.
Proof.
  intros Hn Hc. unfold dec. rewrite (proj2 (Z.ltb_ge n 0)) by lia. by rewrite digits_no_char.
Qed.

(** ** Comparisons and lines *)

Lemma strncmp_eq_app lit s : strncmp_eq (lit +:+ s) lit (String.length lit) = true.
Proof. induction lit as [|c lit IH]; [by destruct s|]. simpl. by rewrite bool_decide_true. Qed.

Lemma starts_with_app lit s : starts_with lit (lit +:+ s) = true.
Proof. apply strncmp_eq_app. Qed.

Lemma starts_with_spec lit buf : starts_with lit buf = true ↔ ∃ s, buf = lit +:+ s.
Proof.
  split; [|intros [s ->]; apply starts_with_app]. unfold starts_with. revert buf.
  induction lit as [|c lit IH]; intros buf; [by exists buf|].
  destruct buf as [|x buf]; simpl; [done|]. rewrite andb_true_iff, bool_decide_eq_true.
  intros [-> H]. apply IH in H as [s ->]. by exists s.
Qed.

(** A line that fits in the buffer is read whole. *)
Lemma read_line_fits n l r :
  has_char newline l = false → (String.length l < n)%nat →
  read_line n (l +:+ String newline r) = (l +:+ nl, r).
Proof.
  revert n. induction l as [|c l IH]; intros n Hc Hn; (destruct n as [|n]; [simpl in Hn; lia|]).
  - done.
  - simpl in Hc |- *. apply orb_false_iff in Hc as [Hc1 Hc2]. rewrite Hc1.
    rewrite IH by (done || (simpl in Hn; lia)). done.
Qed.

Lemma fgets_line n l r :
  has_char newline l = false → (S (String.length l) < n)%nat →
  fgets n (l +:+ String newline r) = Some (l +:+ nl, r).
Proof.
  intros Hc Hn. unfold fgets. rewrite read_line_fits by (done || lia). by destruct l.
Qed.

Lemma read_line_length n s l r :
  read_line n s = (l, r) → (String.length s = String.length l + String.length r)%nat.
Proof.
  revert n l r. induction s as [|c s IH]; intros n l r; (destruct n as [|n]; simpl;
    [by intros [= <- <-]|]); [by intros [= <- <-]|].
  case_bool_decide; [by intros [= <- <-]|]. destruct (read_line n s) as [l' r'] eqn:E.
  intros [= <- <-]. simpl. f_equal. by apply IH in E.
Qed.

Lemma has_char_app c s t : has_char c (s +:+ t) = has_char c s || has_char c t.
Proof. induction s as [|x s IH]; [done|]. simpl. by rewrite IH, orb_assoc. Qed.

(** White space, then a token. *)
Lemma read_token_app t r c :
  (∀ x, has_char x t = true → is_space x = false) → is_space c = true →
  read_token (t +:+ String c r) = (t, String c r).
Proof.
  intros Ht Hc. induction t as [|x t IH]; simpl; [by rewrite Hc|].
  rewrite IH, Ht; [done| |].
  - simpl. by rewrite bool_decide_true.
  - intros y Hy. apply Ht. simpl. by rewrite Hy, orb_true_r.
Qed.
