(* ===== verification/SysInfo.v ===== *)
(** * System information ([lib/system/sys_info.h])

    The readers of [/proc], [/sys] and the kernel headers and the generator of
    [PRECOMPUTED_SYS_INFO.h].  The file system, [sysconf], [uname] and the
    working directory are parameters; files hold no NUL characters. *)

From S2P Require Import Prelude CString.

Record cache_info_t := mk_ci { sets : Z; assos : Z; size : Z }.

Definition zero_ci : cache_info_t := mk_ci 0 0 0.

(** The values of the enumeration [THP]. *)
Definition THP_ALWAYS : Z := 0.
Definition THP_MADVISE : Z := 1.
Definition THP_NEVER : Z := 2.

Definition UCACHE : Z := 1.
Definition DCACHE : Z := 2.
Definition ICACHE : Z := 3.

(** What the process sees of the system. *)
Record system := mk_system {
  files : string → option string;
  is_dir : string → bool;
  can_write : string → bool;
  nprocs_onln : Z;
  pagesize : Z;
  release : string;
  cwd : string
}.

Definition assert_some {A} (o : option A) : exec A :=
  match o with Some a => Ret a | None => errdie end.

Section Readers.
Context (sys : system).

(** [fopen(path, "r")] with its assertion. *)
Definition fopen (path : string) : exec string := assert_some (files sys path).

(** [strtol] with the assertion that it found a number. *)
Definition parse_int (buf : string) : exec Z :=
  let '(v, k) := strtol buf in
  DIE_ASSERT (negb (k =? 0)%nat);; Ret v.

(** The number at the start of a file, through a buffer of [n] bytes. *)
Definition read_number (n : nat) (path : string) : exec Z :=
  c ← fopen path;
  '(buf, _) ← assert_some (fgets n c);
  parse_int buf.

Definition core_path (logical_core_num : Z) : string :=
  "/sys/devices/system/cpu/cpu" +:+ fmt_d logical_core_num +:+ "/topology/core_id".

Definition compute_phys_core (logical_core_num : Z) : exec Z :=
  v ← read_number 7 (core_path logical_core_num); Ret (u32 v).

Definition line_path : string := "/sys/devices/system/cpu/cpu0/cache/index0/coherency_line_size".

Definition compute_cache_line_size : exec Z :=
  v ← read_number 7 line_path; Ret (u32 v).

(** ** Transparent huge pages *)

Definition thp_path : string := "/sys/kernel/mm/transparent_hugepage/enabled".

Fixpoint contains_braces (buf : string) : Z :=
  match buf with
  | EmptyString => 0
  | String c buf =>
      (if bool_decide (c = chr 93) || bool_decide (c = chr 91) then 1 else 0) + contains_braces buf
  end.

(** The text between the braces, found by the two loops. *)
Definition parse_braced (buf : string) : exec string :=
  match after_char (chr 91) buf with
  | Some s =>
      DIE_ASSERT (has_char (chr 93) s);; Ret (before_char (chr 93) s)
  | None => die
  end.

Definition compute_transparent_huge_page_config : exec Z :=
  c ← fopen thp_path;
  '(buf, _) ← assert_some (fgets 64 c);
  DIE_ASSERT (String.length buf <=? 62)%nat;;
  let parse_braces := contains_braces buf in
  DIE_ASSERT ((parse_braces =? 2) || (parse_braces =? 0));;
  parse_start ← (if negb (parse_braces =? 0) then parse_braced buf else Ret buf);
  if starts_with "always" parse_start then Ret THP_ALWAYS
  else if starts_with "madvise" parse_start then Ret THP_MADVISE
  else if starts_with "never" parse_start then Ret THP_NEVER
  else die.

(** ** The kernel headers *)

(** The loop of [get_ac_value]: the text after the last [_AC(0x], and whether
    a comma was seen after one.  The commas become NULs. *)
Fixpoint ac_scan (buf : string) (start : option string) (stop : bool) : option string * bool :=
  match buf with
  | EmptyString => (start, stop)
  | String c buf' =>
      if starts_with "_AC(0x" buf then ac_scan buf' (Some (drop_chars 6 buf)) stop
      else if bool_decide (is_Some start) && bool_decide (c = chr 44) then ac_scan buf' start true
      else ac_scan buf' start stop
  end.

Definition get_ac_value (buf : string) : exec Z :=
  match ac_scan buf None false with
  | (Some s, true) =>
      let '(v, k) := strtoull16 (before_char (chr 44) s) in
      DIE_ASSERT (negb (k =? 0)%nat);; Ret v
  | _ => die
  end.

(** The two settings of the kernel configuration, -1 when not found. *)
Fixpoint config_scan (bufs : list string) (dynamic level5 : Z) : Z * Z :=
  match bufs with
  | [] => (dynamic, level5)
  | buf :: bufs =>
      let dynamic :=
        if starts_with "CONFIG_DYNAMIC_MEMORY_LAYOUT=y" buf then 1
        else if starts_with "CONFIG_DYNAMIC_MEMORY_LAYOUT=n" buf then 0
        else dynamic in
      let level5 :=
        if starts_with "CONFIG_X86_5LEVEL" buf then 1
        else if starts_with "# CONFIG_X86_5LEVEL" buf then 0
        else level5 in
      config_scan bufs dynamic level5
  end.

(** Whether [lit] is at one of the first [n] positions of [buf]. *)
Fixpoint found_within (n : nat) (lit buf : string) : bool :=
  match n with
  | O => false
  | S n =>
      starts_with lit buf ||
      match buf with String _ buf => found_within n lit buf | EmptyString => false end
  end.

(** The loop [for (i = 0; i < line_len - cs_len; ++i)]; the lines it is used
    on are not shorter than [lit]. *)
Definition mentions (lit buf : string) : bool :=
  found_within (String.length buf - String.length lit) lit buf.

(** [page_types.h]: the first line that defines [PAGE_OFFSET] decides. *)
Fixpoint page_offset_scan (bufs : list string) : bool :=
  match bufs with
  | [] => false
  | buf :: bufs =>
      if starts_with "#define PAGE_OFFSET" buf then mentions "__PAGE_OFFSET" buf
      else page_offset_scan bufs
  end.

Definition defines_page_offset (buf : string) : bool :=
  starts_with "#define __PAGE_OFFSET" buf &&
  negb (match String.get 21 buf with Some c => bool_decide (c = chr 95) | None => false end).

(** [page_64_types.h]: verified, the offset and the start of the kernel map. *)
Fixpoint page_64_scan (dynamic level5 : Z) (bufs : list string) (r : bool * Z * Z) :
    exec (bool * Z * Z) :=
  match bufs with
  | [] => Ret r
  | buf :: bufs =>
      let '(verified, page_offset, start_kernel_map) := r in
      r ← (if negb (level5 =? 0) && starts_with "#define __PAGE_OFFSET_BASE_L5" buf then
             v ← get_ac_value buf; Ret (verified, v, start_kernel_map)
           else if (level5 =? 0) && starts_with "#define __PAGE_OFFSET_BASE_L4" buf then
             v ← get_ac_value buf; Ret (verified, v, start_kernel_map)
           else if starts_with "#define __START_KERNEL_map" buf then
             v ← get_ac_value buf; Ret (verified, page_offset, v)
           else if negb (dynamic =? 0) && defines_page_offset buf then
             Ret (verified || mentions "page_offset_base" buf, page_offset, start_kernel_map)
           else if (dynamic =? 0) && defines_page_offset buf then
             Ret (verified || mentions "__PAGE_OFFSET_BASE_L4" buf, page_offset, start_kernel_map)
           else Ret r);
      page_64_scan dynamic level5 bufs r
  end.

Definition config_path : string := "/boot/config-" +:+ release sys.
Definition header_path (name : string) : string :=
  "/usr/src/linux-headers-" +:+ release sys +:+ "/arch/x86/include/asm/" +:+ name.

(** [sprintf] into an array of 256 bytes. *)
Definition path_256 (path : string) : exec string :=
  if (String.length path <? 256)%nat then Ret path else Undef.

(** The page offset and the start of the kernel map. *)
Definition read_kernel_header : exec (Z * Z) :=
  path ← path_256 config_path;
  c ← fopen path;
  let '(dynamic, level5) := config_scan (buffers 256 c) (-1) (-1) in
  DIE_ASSERT (negb (dynamic =? -1));;
  DIE_ASSERT (negb (level5 =? -1));;
  path ← path_256 (header_path "page_types.h");
  c ← fopen path;
  DIE_ASSERT (page_offset_scan (buffers 256 c));;
  path ← path_256 (header_path "page_64_types.h");
  c ← fopen path;
  '(verified, page_offset, start_kernel_map) ←
    page_64_scan dynamic level5 (buffers 256 c) (false, 0, 0);
  DIE_ASSERT verified;;
  DIE_ASSERT (negb (start_kernel_map =? 0));;
  DIE_ASSERT (negb (page_offset =? 0));;
  Ret (page_offset, start_kernel_map).

Definition compute_page_offset : exec Z := r ← read_kernel_header; Ret (r.1).
Definition compute_kernel_mem_start : exec Z := r ← read_kernel_header; Ret (r.2).

(** ** Caches *)

(** A line of a file of a cache directory. *)
Definition read_cache_file (path : string) : exec string :=
  c ← fopen path;
  '(buf, _) ← assert_some (fgets 64 c);
  Ret buf.

(** [read_cache_dir]: the level with the type in the upper half, and the
    information. *)
Definition read_cache_dir (dir_path : string) : exec (Z * cache_info_t) :=
  buf ← read_cache_file (dir_path +:+ "/level");
  level ← parse_int buf;
  buf ← read_cache_file (dir_path +:+ "/number_of_sets");
  sets ← parse_int buf;
  buf ← read_cache_file (dir_path +:+ "/size");
  size ← (let '(v, k) := strtol buf in
    if bool_decide (- 2 ^ 63 ≤ v * 1024 < 2 ^ 63) then
      DIE_ASSERT (negb (k =? 0)%nat);; Ret (v * 1024)
    else Undef);
  buf ← read_cache_file (dir_path +:+ "/type");
  let type :=
    if starts_with "Unified" buf then UCACHE
    else if starts_with "Data" buf then DCACHE
    else if starts_with "Instruction" buf then ICACHE
    else 0 in
  DIE_ASSERT (negb (type =? 0));;
  buf ← read_cache_file (dir_path +:+ "/ways_of_associativity");
  assos ← parse_int buf;
  Ret (Z.lor (u32 level) (type ≪ 16), mk_ci (u32 sets) (u32 assos) (u32 size)).

Definition cache_path (i : Z) : string := "/sys/devices/system/cpu/cpu0/cache/index" +:+ fmt_d i.

(** The four results of [read_cache_info]; a null pointer is [None]. *)
Record cache_outs := mk_outs {
  l1_dinfo : option cache_info_t;
  l1_iinfo : option cache_info_t;
  l2_uinfo : option cache_info_t;
  l3_uinfo : option cache_info_t
}.

(** [memcpy] through a pointer that is not null. *)
Definition store (p : option cache_info_t) (ci : cache_info_t) : option cache_info_t :=
  match p with Some _ => Some ci | None => None end.

Definition set_cache (ret : Z) (ci : cache_info_t) (o : cache_outs) : exec cache_outs :=
  let level_info := Z.land ret 65535 in
  let type_info := ret ≫ 16 in
  if type_info =? UCACHE then
    if level_info =? 2 then
      Ret (mk_outs (l1_dinfo o) (l1_iinfo o) (store (l2_uinfo o) ci) (l3_uinfo o))
    else if level_info =? 3 then
      Ret (mk_outs (l1_dinfo o) (l1_iinfo o) (l2_uinfo o) (store (l3_uinfo o) ci))
    else die
  else if type_info =? DCACHE then
    DIE_ASSERT (level_info =? 1);;
    Ret (mk_outs (store (l1_dinfo o) ci) (l1_iinfo o) (l2_uinfo o) (l3_uinfo o))
  else if type_info =? ICACHE then
    DIE_ASSERT (level_info =? 1);;
    Ret (mk_outs (l1_dinfo o) (store (l1_iinfo o) ci) (l2_uinfo o) (l3_uinfo o))
  else Ret o.

(** The loop over the directories, which ends at the first that is missing. *)
Fixpoint cache_loop (fuel : nat) (i : Z) (o : cache_outs) : exec cache_outs :=
  match fuel with
  | O => Running
  | S fuel =>
      if negb (is_dir sys (cache_path i)) then Ret o
      else
        '(ret, ci) ← read_cache_dir (cache_path i);
        o ← set_cache ret ci o;
        cache_loop fuel (u32 (i + 1)) o
  end.

Definition read_cache_info (fuel : nat) (o : cache_outs) : exec cache_outs := cache_loop fuel 0 o.

(** One cache, with the other three pointers null. *)
Definition compute_l1_dcache (fuel : nat) : exec cache_info_t :=
  o ← read_cache_info fuel (mk_outs (Some zero_ci) None None None);
  Ret (default zero_ci (l1_dinfo o)).
Definition compute_l1_icache (fuel : nat) : exec cache_info_t :=
  o ← read_cache_info fuel (mk_outs None (Some zero_ci) None None);
  Ret (default zero_ci (l1_iinfo o)).
Definition compute_l2_ucache (fuel : nat) : exec cache_info_t :=
  o ← read_cache_info fuel (mk_outs None None (Some zero_ci) None);
  Ret (default zero_ci (l2_uinfo o)).
Definition compute_l3_ucache (fuel : nat) : exec cache_info_t :=
  o ← read_cache_info fuel (mk_outs None None None (Some zero_ci));
  Ret (default zero_ci (l3_uinfo o)).

Definition compute_l1_dcache_size (fuel : nat) : exec Z :=
  ci_out ← compute_l1_dcache fuel; Ret (size ci_out).
Definition compute_l1_dcache_sets (fuel : nat) : exec Z :=
  ci_out ← compute_l1_dcache fuel; Ret (sets ci_out).
Definition compute_l1_dcache_assos (fuel : nat) : exec Z :=
  ci_out ← compute_l1_dcache fuel; Ret (assos ci_out).
Definition compute_l1_icache_size (fuel : nat) : exec Z :=
  ci_out ← compute_l1_icache fuel; Ret (size ci_out).
Definition compute_l1_icache_sets (fuel : nat) : exec Z :=
  ci_out ← compute_l1_icache fuel; Ret (sets ci_out).
Definition compute_l1_icache_assos (fuel : nat) : exec Z :=
  ci_out ← compute_l1_icache fuel; Ret (assos ci_out).
Definition compute_l2_ucache_size (fuel : nat) : exec Z :=
  ci_out ← compute_l2_ucache fuel; Ret (size ci_out).
Definition compute_l2_ucache_sets (fuel : nat) : exec Z :=
  ci_out ← compute_l2_ucache fuel; Ret (sets ci_out).
Definition compute_l2_ucache_assos (fuel : nat) : exec Z :=
  ci_out ← compute_l2_ucache fuel; Ret (assos ci_out).
Definition compute_l3_ucache_size (fuel : nat) : exec Z :=
  ci_out ← compute_l3_ucache fuel; Ret (size ci_out).
Definition compute_l3_ucache_sets (fuel : nat) : exec Z :=
  ci_out ← compute_l3_ucache fuel; Ret (sets ci_out).
Definition compute_l3_ucache_assos (fuel : nat) : exec Z :=
  ci_out ← compute_l3_ucache fuel; Ret (assos ci_out).

(** ** [/proc/cpuinfo] *)

Record cpu_outs := mk_cpu_outs {
  phys_core_info : option Z;
  vm_bit_info : option Z;
  phys_m_bit_info : option Z
}.

Definition wanted (p : option Z) : Z := if bool_decide (is_Some p) then 1 else 0.
Definition put (p : option Z) (v : Z) : option Z :=
  match p with Some _ => Some (u32 v) | None => None end.

Definition address_fmt : list conv :=
  [ConvS 16; ConvS 16; ConvC; ConvD; ConvS 16; ConvS 16; ConvD; ConvS 16; ConvS 16].
Definition cores_fmt : list conv := [ConvS 16; ConvS 16; ConvC; ConvD].

(** The loop over the lines; [expec] is the number of results missing. *)
Fixpoint cpu_scan (bufs : list string) (expec : Z) (o : cpu_outs) : exec cpu_outs :=
  match bufs with
  | [] => die
  | buf :: bufs =>
      if (bool_decide (is_Some (vm_bit_info o)) || bool_decide (is_Some (phys_m_bit_info o)))
         && starts_with "address sizes" buf then
        '(n, l) ← sscanf address_fmt buf;
        match l with
        | [phys; vm] =>
            if (n =? 9)%nat then
              let expec := u32 (expec - wanted (phys_m_bit_info o) - wanted (vm_bit_info o)) in
              let o := mk_cpu_outs (phys_core_info o) (put (vm_bit_info o) vm)
                         (put (phys_m_bit_info o) phys) in
              if expec =? 0 then Ret o else cpu_scan bufs expec o
            else cpu_scan bufs expec o
        | _ => cpu_scan bufs expec o
        end
      else if bool_decide (is_Some (phys_core_info o)) && starts_with "cpu cores" buf then
        '(n, l) ← sscanf cores_fmt buf;
        match l with
        | [cores] =>
            let o := mk_cpu_outs (put (phys_core_info o) cores) (vm_bit_info o)
                       (phys_m_bit_info o) in
            if (n =? 4)%nat then
              let expec := u32 (expec - 1) in
              if expec =? 0 then Ret o else cpu_scan bufs expec o
            else cpu_scan bufs expec o
        | _ => cpu_scan bufs expec o
        end
      else cpu_scan bufs expec o
  end.

Definition read_proc_cpu (o : cpu_outs) : exec cpu_outs :=
  let expec_reads :=
    wanted (vm_bit_info o) + wanted (phys_m_bit_info o) + wanted (phys_core_info o) in
  if expec_reads =? 0 then Ret o
  else
    c ← fopen "/proc/cpuinfo";
    cpu_scan (buffers 64 c) expec_reads o.

Definition compute_ncores : exec Z :=
  o ← read_proc_cpu (mk_cpu_outs (Some 0) None None); Ret (default 0 (phys_core_info o)).
Definition compute_vm_nbits : exec Z :=
  o ← read_proc_cpu (mk_cpu_outs None (Some 0) None); Ret (default 0 (vm_bit_info o)).
Definition compute_phys_m_nbits : exec Z :=
  o ← read_proc_cpu (mk_cpu_outs None None (Some 0)); Ret (default 0 (phys_m_bit_info o)).
End Readers.

(** ** The generated header *)

(** The values the header records; the kernel addresses when
    [_WITH_KERNEL_INFO_] is defined. *)
Record sys_values := mk_values {
  v_nprocs : Z;
  v_ncores : Z;
  v_phys_cores : list Z;
  v_thp : Z;
  v_page_size : Z;
  v_vm_nbits : Z;
  v_phys_m_nbits : Z;
  v_kernel : option (Z * Z);
  v_cache_line : Z;
  v_l1_dcache : cache_info_t;
  v_l1_icache : cache_info_t;
  v_l2_ucache : cache_info_t;
  v_l3_ucache : cache_info_t
}.

Definition define (name : string) (v : Z) : string :=
  "#define " +:+ name +:+ " " +:+ fmt_d v +:+ nl.

Definition define_cache (name : string) (ci : cache_info_t) : string :=
  define (name +:+ "_SIZE") (size ci) +:+ define (name +:+ "_SETS") (sets ci) +:+
  define (name +:+ "_ASSOS") (assos ci) +:+ nl.

(** The elements of the core map after the first. *)
Fixpoint more_cores (l : list Z) : string :=
  match l with [] => EmptyString | c :: l => ", " +:+ fmt_d c +:+ more_cores l end.

Definition core_list (l : list Z) : string :=
  match l with [] => EmptyString | c :: l => fmt_d c +:+ more_cores l end.

Definition thp_name (cfg : Z) : string :=
  if cfg =? THP_ALWAYS then "THP::ALWAYS"
  else if cfg =? THP_MADVISE then "THP::MADVISE" else "THP::NEVER".

Definition kernel_text (k : option (Z * Z)) : string :=
  match k with
  | None => EmptyString
  | Some (page_offset, kernel_mem_start) =>
      "// Physical memory page offset (for vm -> pm) for kmalloc" +:+ nl +:+
      "#define PAGE_OFFSET (0x" +:+ fmt_lx page_offset +:+ "UL)" +:+ nl +:+ nl +:+
      "// Where physical memory of kernel (mostly for debugging kmalloc stuff)" +:+ nl +:+
      "#define KERNEL_MEM_START (0x" +:+ fmt_lx kernel_mem_start +:+ "UL)" +:+ nl +:+ nl
  end.

(** The text the calls of [fprintf] write. *)
Definition header_text (v : sys_values) : string :=
  "#ifndef _SYS_INFO_H_" +:+ nl +:+
  "#define _SYS_INFO_H_" +:+ nl +:+
  "#define HAVE_CONST_SYS_INFO" +:+ nl +:+ nl +:+
  "#include <stdint.h>" +:+ nl +:+ nl +:+
  "// Number of processors (this is cores includes hyperthreads)" +:+ nl +:+
  define "NPROCS" (v_nprocs v) +:+ nl +:+
  "// Number of physical cores" +:+ nl +:+
  define "NCORES" (v_ncores v) +:+ nl +:+
  "// Logical to physical core lookup" +:+ nl +:+
  "#define PHYS_CORE(X) get_phys_core(X)" +:+ nl +:+
  "uint32_t inline __attribute__((always_inline)) __attribute__((const))" +:+ nl +:+
  "get_phys_core(const uint32_t logical_core_num) {" +:+ nl +:+
  tb +:+ "static const constexpr uint32_t core_map[NPROCS] = { " +:+
  core_list (v_phys_cores v) +:+ " };" +:+ nl +:+
  tb +:+ "return core_map[logical_core_num];" +:+ nl +:+
  "}" +:+ nl +:+ nl +:+
  "// Transparent Huge Page Configuration" +:+ nl +:+
  "enum THP { ALWAYS = " +:+ fmt_d THP_ALWAYS +:+ ", MADVISE = " +:+ fmt_d THP_MADVISE +:+
  ", NEVER = " +:+ fmt_d THP_NEVER +:+ " };" +:+ nl +:+
  "#define TRANSPARENT_HUGE_PAGE_CFG " +:+ thp_name (v_thp v) +:+ nl +:+ nl +:+
  "// Virtual memory page size" +:+ nl +:+
  define "PAGE_SIZE" (v_page_size v) +:+ nl +:+
  "// Virtual memory address space bits" +:+ nl +:+
  define "VM_NBITS" (v_vm_nbits v) +:+ nl +:+
  "// Physical memory address space bits" +:+ nl +:+
  define "PHYS_M_NBITS" (v_phys_m_nbits v) +:+ nl +:+
  kernel_text (v_kernel v) +:+
  "// cache line size (should be same for L1, L2, and L3)" +:+ nl +:+
  define "CACHE_LINE_SIZE" (v_cache_line v) +:+ nl +:+
  "// l2 cache loads double cache lines at a time" +:+ nl +:+
  define "L2_CACHE_LOAD_SIZE" (u32 (2 * v_cache_line v)) +:+ nl +:+ nl +:+
  "//////////////////////////////////////////////////////////////////////" +:+ nl +:+
  "// More specific cache info starts here" +:+ nl +:+
  "//////////////////////////////////////////////////////////////////////" +:+ nl +:+ nl +:+
  define_cache "L1_DCACHE" (v_l1_dcache v) +:+
  define_cache "L1_ICACHE" (v_l1_icache v) +:+
  define_cache "L2_UCACHE" (v_l2_ucache v) +:+
  define_cache "L3_UCACHE" (v_l3_ucache v) +:+
  "#endif" +:+ nl.

Section Generator.
Context (sys : system) (with_kernel_info : bool) (fuel : nat).

(** Buffers of 128 bytes for the directory. *)
Definition find_precomputed_header_file : exec string :=
  ERROR_ASSERT (String.length (cwd sys) <? 128)%nat;;
  let to_project_lib : string := if negb (is_dir sys "build") then "../lib" else "lib" in
  DIE_ASSERT (is_dir sys to_project_lib);;
  Ret (cwd sys +:+ "/" +:+ to_project_lib +:+ "/system/PRECOMPUTED_SYS_INFO.h").

(** The values in the order [create_defs] evaluates them. *)
Definition read_values : exec sys_values :=
  ncores ← compute_ncores sys;
  core0 ← compute_phys_core sys 0;
  cores ← mapM (compute_phys_core sys) (seqZ 1 (nprocs_onln sys - 1));
  thp ← compute_transparent_huge_page_config sys;
  vm_nbits ← compute_vm_nbits sys;
  phys_m_nbits ← compute_phys_m_nbits sys;
  kernel ← (if with_kernel_info then
              page_offset ← compute_page_offset sys;
              kernel_mem_start ← compute_kernel_mem_start sys;
              Ret (Some (page_offset, kernel_mem_start))
            else Ret None);
  line ← compute_cache_line_size sys;
  l1_dcache_size ← compute_l1_dcache_size sys fuel;
  l1_dcache_sets ← compute_l1_dcache_sets sys fuel;
  l1_dcache_assos ← compute_l1_dcache_assos sys fuel;
  l1_icache_size ← compute_l1_icache_size sys fuel;
  l1_icache_sets ← compute_l1_icache_sets sys fuel;
  l1_icache_assos ← compute_l1_icache_assos sys fuel;
  l2_ucache_size ← compute_l2_ucache_size sys fuel;
  l2_ucache_sets ← compute_l2_ucache_sets sys fuel;
  l2_ucache_assos ← compute_l2_ucache_assos sys fuel;
  l3_ucache_size ← compute_l3_ucache_size sys fuel;
  l3_ucache_sets ← compute_l3_ucache_sets sys fuel;
  l3_ucache_assos ← compute_l3_ucache_assos sys fuel;
  Ret (mk_values (u32 (nprocs_onln sys)) ncores (core0 :: cores) thp (u32 (pagesize sys))
         vm_nbits phys_m_nbits kernel line
         (mk_ci l1_dcache_sets l1_dcache_assos l1_dcache_size)
         (mk_ci l1_icache_sets l1_icache_assos l1_icache_size)
         (mk_ci l2_ucache_sets l2_ucache_assos l2_ucache_size)
         (mk_ci l3_ucache_sets l3_ucache_assos l3_ucache_size)).

(** The path and the contents of the file that is written; [None] is a null
    pointer. *)
Definition create_defs (outfile : option string) : exec (string * string) :=
  path ← match outfile with
         | Some f => if strcmp_eq f EmptyString then find_precomputed_header_file else Ret f
         | None => find_precomputed_header_file
         end;
  ERROR_ASSERT (can_write sys path);;
  v ← read_values;
  Ret (path, header_text v).
End Generator.
