(* ===== verification/SysInfoCorrect.v ===== *)
(** * Correctness of the system information

    A system that describes its hardware in the files of the kernel is read
    correctly, and the generated header records what it describes. *)

From S2P Require Import Prelude CString SysInfo.

(** ** Numbers in files *)

(** The first line of a file is a number with a suffix. *)
Definition holds_number (sys : system) (path : string) (v : Z) (suf : string) : Prop :=
  ∃ rest, files sys path = Some (dec v +:+ suf +:+ String newline rest).

Section Files.
Context (sys : system).

Lemma fopen_some path c : files sys path = Some c → fopen sys path = Ret c.
Proof. unfold fopen. by intros ->. Qed.

Lemma number_line n v suf rest :
  0 ≤ v → no_digit 10 (suf +:+ nl) = true → has_char newline suf = false →
  (S (String.length (dec v) + String.length suf) < n)%nat →
  fgets n (dec v +:+ suf +:+ String newline rest) = Some (dec v +:+ suf +:+ nl, rest).
Proof using Type.
  clear. intros Hv Hd Hs Hn. rewrite append_assoc, fgets_line.
  - by rewrite <-append_assoc.
  - by rewrite has_char_app, Hs, dec_no_char.
  - rewrite string_length_app. lia.
Qed.

Lemma parse_int_dec v suf :
  - 2 ^ 63 ≤ v < 2 ^ 63 → no_digit 10 suf = true → parse_int (dec v +:+ suf) = Ret v.
Proof using Type.
  clear. intros Hv Hs. unfold parse_int. rewrite strtol_dec by done.
  pose proof (dec_nonempty v). by rewrite (proj2 (Nat.eqb_neq _ 0)) by lia.
Qed.

Lemma read_number_ok n path v k :
  holds_number sys path v EmptyString → 0 ≤ v < 10 ^ Z.of_nat k → (k ≤ 18)%nat → k ≠ O →
  (S k < n)%nat → read_number sys n path = Ret v.
Proof.
  intros [rest Hf] Hv Hk Hk0 Hn. unfold read_number. rewrite (fopen_some _ _ Hf). cbn.
  pose proof (dec_length v k Hv Hk0).
  assert (10 ^ Z.of_nat k ≤ 10 ^ 18) by (apply Z.pow_le_mono_r; lia).
  change (String newline rest) with (EmptyString +:+ String newline rest).
  rewrite number_line by (done || (simpl; lia)). cbn. apply parse_int_dec; [lia|done].
Qed.

(** ** Transparent huge pages *)

Lemma braces_app s t : contains_braces (s +:+ t) = contains_braces s + contains_braces t.
Proof. induction s as [|c s IH]; [done|]. rewrite app_cons. simpl. rewrite IH. lia. Qed.

Lemma braces_nonneg s : 0 ≤ contains_braces s.
Proof. induction s as [|c s IH]; simpl; [lia|]. destruct (_ || _); lia. Qed.

Lemma no_braces s :
  contains_braces s = 0 → has_char (chr 91) s = false ∧ has_char (chr 93) s = false.
Proof.
  induction s as [|c s IH]; [done|]. cbn [contains_braces has_char].
  pose proof (braces_nonneg s). destruct (bool_decide (c = chr 93)), (bool_decide (c = chr 91)); simpl; intros H';
    [lia..|]. apply IH. lia.
Qed.

Lemma after_char_app c s t : has_char c s = false → after_char c (s +:+ String c t) = Some t.
Proof.
  induction s as [|x s IH]; simpl; [by rewrite bool_decide_true|].
  intros [-> H]%orb_false_iff. by apply IH.
Qed.

Lemma before_char_app c s t : has_char c s = false → before_char c (s +:+ String c t) = s.
Proof.
  induction s as [|x s IH]; simpl; [by rewrite bool_decide_true|].
  intros [-> H]%orb_false_iff. by rewrite IH.
Qed.

(** The names of the three modes. *)
Definition mode_name (cfg : Z) : string :=
  if cfg =? THP_ALWAYS then "always" else if cfg =? THP_MADVISE then "madvise" else "never".

Lemma mode_clean cfg :
  contains_braces (mode_name cfg) = 0 ∧ has_char newline (mode_name cfg) = false.
Proof. unfold mode_name. by destruct (cfg =? THP_ALWAYS), (cfg =? THP_MADVISE). Qed.

(** The file lists the modes with the selected one in brackets. *)
Definition thp_line (pre post : string) (cfg : Z) : string :=
  pre +:+ String (chr 91) (mode_name cfg +:+ String (chr 93) post).

Lemma thp_config_ok pre post cfg rest :
  files sys thp_path = Some (thp_line pre post cfg +:+ String newline rest) →
  0 ≤ cfg ≤ 2 → contains_braces pre = 0 → contains_braces post = 0 →
  has_char newline pre = false → has_char newline post = false →
  (String.length (thp_line pre post cfg) ≤ 61)%nat →
  compute_transparent_huge_page_config sys = Ret cfg.
Proof.
  intros Hf Hcfg Hb1 Hb2 Hn1 Hn2 Hlen. destruct (mode_clean cfg) as [Hb3 Hn3].
  unfold compute_transparent_huge_page_config. rewrite (fopen_some _ _ Hf). cbn [mbind exec_bind].
  set (l := thp_line pre post cfg) in *.
  assert (has_char newline l = false) as Hnl.
  { unfold l, thp_line. rewrite has_char_app, Hn1. cbn [has_char].
    rewrite has_char_app, Hn3. cbn [has_char]. by rewrite Hn2. }
  rewrite fgets_line by (done || lia). cbn [assert_some mbind exec_bind].
  rewrite string_length_app, (proj2 (Nat.leb_le _ 62)) by (simpl; lia).
  cbn [DIE_ASSERT mbind exec_bind].
  assert (contains_braces (l +:+ nl) = 2) as ->.
  { unfold l, thp_line. rewrite !braces_app. cbn [contains_braces]. rewrite braces_app, Hb1, Hb3.
    cbn [contains_braces]. by rewrite Hb2. }
  cbn [Z.eqb Pos.eqb orb DIE_ASSERT negb mbind exec_bind].
  assert (parse_braced (l +:+ nl) = Ret (mode_name cfg)) as ->.
  { destruct (no_braces _ Hb1) as [H1 _]. destruct (no_braces _ Hb3) as [_ H2].
    unfold parse_braced, l, thp_line. rewrite <-append_assoc, app_cons, after_char_app by done.
    rewrite <-append_assoc, app_cons, before_char_app by done.
    rewrite has_char_app. cbn [has_char]. by rewrite bool_decide_true, orb_true_r. }
  cbn [mbind exec_bind]. assert (cfg = 0 ∨ cfg = 1 ∨ cfg = 2) as [->|[->| ->]] by lia; done.
Qed.

(** ** Caches *)

(** A cache as the kernel describes it; the size is given in KiB. *)
Record cache_entry := mk_entry { e_level : Z; e_type : Z; e_sets : Z; e_assos : Z; e_kib : Z }.

Definition entry_info (e : cache_entry) : cache_info_t :=
  mk_ci (e_sets e) (e_assos e) (e_kib e * 1024).

Definition type_name (t : Z) : string :=
  if t =? UCACHE then "Unified" else if t =? DCACHE then "Data" else "Instruction".

(** The caches the program supports: level 1 split, levels 2 and 3 unified. *)
Definition supported (e : cache_entry) : Prop :=
  (e_level e, e_type e) ∈ [(1, DCACHE); (1, ICACHE); (2, UCACHE); (3, UCACHE)] ∧
  0 ≤ e_sets e < 2 ^ 31 ∧ 0 ≤ e_assos e < 2 ^ 31 ∧ 0 ≤ e_kib e ∧ e_kib e * 1024 < 2 ^ 32.

(** The files of the directory of a cache. *)
Record cache_dir (dir : string) (e : cache_entry) : Prop := {
  cd_level : holds_number sys (dir +:+ "/level") (e_level e) EmptyString;
  cd_sets : holds_number sys (dir +:+ "/number_of_sets") (e_sets e) EmptyString;
  cd_size : holds_number sys (dir +:+ "/size") (e_kib e) "K";
  cd_type : ∃ rest, files sys (dir +:+ "/type") = Some (type_name (e_type e) +:+ String newline rest);
  cd_assos : holds_number sys (dir +:+ "/ways_of_associativity") (e_assos e) EmptyString
}.

Lemma read_cache_file_number path v suf :
  holds_number sys path v suf → 0 ≤ v < 2 ^ 62 → no_digit 10 (suf +:+ nl) = true →
  has_char newline suf = false → (String.length suf ≤ 1)%nat →
  read_cache_file sys path = Ret (dec v +:+ suf +:+ nl).
Proof.
  intros [rest Hf] Hv Hd Hc Hl. unfold read_cache_file. rewrite (fopen_some _ _ Hf).
  cbn [mbind exec_bind]. pose proof (dec_length v 20 ltac:(lia) ltac:(lia)).
  by rewrite number_line by (done || lia).
Qed.

Lemma read_cache_dir_ok dir e :
  cache_dir dir e → supported e →
  read_cache_dir sys dir = Ret (Z.lor (e_level e) (e_type e ≪ 16), entry_info e).
Proof.
  intros [Hl Hs Hk [rest Ht] Ha] (Hlt & Hsr & Har & Hk0 & Hkr).
  assert (0 ≤ e_level e < 4 ∧ 1 ≤ e_type e ≤ 3) as [Hlr Htr].
  { rewrite !elem_of_cons, elem_of_nil in Hlt. destruct_or! Hlt; injection Hlt as -> ->; unfold UCACHE, DCACHE, ICACHE; lia. }
  unfold read_cache_dir.
  rewrite (read_cache_file_number _ _ _ Hl) by (done || (simpl; lia)). cbn [mbind exec_bind].
  rewrite parse_int_dec by (done || lia). cbn [mbind exec_bind].
  rewrite (read_cache_file_number _ _ _ Hs) by (done || (simpl; lia)). cbn [mbind exec_bind].
  rewrite parse_int_dec by (done || lia). cbn [mbind exec_bind].
  rewrite (read_cache_file_number _ _ _ Hk) by (done || (simpl; lia)). cbn [mbind exec_bind].
  rewrite strtol_dec by (done || lia). pose proof (dec_nonempty (e_kib e)).
  rewrite bool_decide_true, (proj2 (Nat.eqb_neq _ 0)) by lia. cbn [negb DIE_ASSERT mbind exec_bind].
  assert (read_cache_file sys (dir +:+ "/type") = Ret (type_name (e_type e) +:+ nl)) as ->.
  { unfold read_cache_file. rewrite (fopen_some _ _ Ht). cbn [mbind exec_bind].
    assert (e_type e = 1 ∨ e_type e = 2 ∨ e_type e = 3) as [->|[->| ->]] by lia;
      by rewrite fgets_line by (done || (simpl; lia)). }
  cbn [mbind exec_bind].
  assert ((if starts_with "Unified" (type_name (e_type e) +:+ nl) then UCACHE
    else if starts_with "Data" (type_name (e_type e) +:+ nl) then DCACHE
    else if starts_with "Instruction" (type_name (e_type e) +:+ nl) then ICACHE else 0) = e_type e)
    as ->.
  { assert (e_type e = 1 ∨ e_type e = 2 ∨ e_type e = 3) as [->|[->| ->]] by lia; done. }
  rewrite (proj2 (Z.eqb_neq (e_type e) 0)) by lia. cbn [negb DIE_ASSERT mbind exec_bind].
  rewrite (read_cache_file_number _ _ _ Ha) by (done || (simpl; lia)). cbn [mbind exec_bind].
  rewrite parse_int_dec by (done || lia). cbn [mbind exec_bind].
  rewrite !wrap_small by (unfold is_word; lia). done.
Qed.

(** The last cache of a level and type in a list. *)
Fixpoint pick (level type : Z) (cs : list cache_entry) (ci : cache_info_t) : cache_info_t :=
  match cs with
  | [] => ci
  | e :: cs =>
      pick level type cs
        (if (e_level e =? level) && (e_type e =? type) then entry_info e else ci)
  end.

Definition pick_all (cs : list cache_entry) (o : cache_outs) : cache_outs :=
  mk_outs (pick 1 DCACHE cs <$> l1_dinfo o) (pick 1 ICACHE cs <$> l1_iinfo o)
    (pick 2 UCACHE cs <$> l2_uinfo o) (pick 3 UCACHE cs <$> l3_uinfo o).

Lemma set_cache_ok e o :
  supported e →
  set_cache (Z.lor (e_level e) (e_type e ≪ 16)) (entry_info e) o = Ret (pick_all [e] o).
Proof.
  intros (Hlt & _). destruct e as [l t s a k], o as [o1 o2 o3 o4].
  rewrite !elem_of_cons, elem_of_nil in Hlt. destruct_or! Hlt; simplify_eq/=;
    by destruct o1, o2, o3, o4.
Qed.

Lemma pick_all_cons e cs o : pick_all cs (pick_all [e] o) = pick_all (e :: cs) o.
Proof. unfold pick_all. destruct o as [[] [] [] []]; done. Qed.

(** The directories [index0], [index1], ... describe the caches, and the next
    one is missing. *)
Definition caches_at (i : nat) (cs : list cache_entry) : Prop :=
  (∀ j e, cs !! j = Some e →
    is_dir sys (cache_path (Z.of_nat (i + j))) = true ∧
    cache_dir (cache_path (Z.of_nat (i + j))) e ∧ supported e) ∧
  is_dir sys (cache_path (Z.of_nat (i + length cs))) = false.

Lemma cache_loop_ok fuel i cs o :
  caches_at i cs → (length cs < fuel)%nat → Z.of_nat (i + fuel) < 2 ^ 31 →
  cache_loop sys fuel (Z.of_nat i) o = Ret (pick_all cs o).
Proof.
  revert i cs o. induction fuel as [|fuel IH]; intros i cs o [Hcs Hend] Hf Hi; [lia|].
  destruct cs as [|e cs]; simpl.
  - rewrite Nat.add_0_r in Hend. rewrite Hend. simpl. f_equal. by destruct o as [[] [] [] []].
  - destruct (Hcs O e eq_refl) as (Hdir & Hfiles & Hsup). rewrite Nat.add_0_r in Hdir, Hfiles.
    rewrite Hdir. cbn [negb]. rewrite (read_cache_dir_ok _ e) by done. cbn [mbind exec_bind].
    rewrite set_cache_ok by done. cbn [mbind exec_bind].
    rewrite wrap_small by (unfold is_word; lia).
    replace (Z.of_nat i + 1) with (Z.of_nat (S i)) by lia.
    rewrite (IH (S i) cs), pick_all_cons; [done| |simpl in Hf; lia|lia]. split.
    + intros j e' Hj. specialize (Hcs (S j) e' Hj).
      by replace (S i + j)%nat with (i + S j)%nat by lia.
    + simpl in Hend. by replace (S i + length cs)%nat with (i + S (length cs))%nat by lia.
Qed.

(** ** [/proc/cpuinfo] *)

(** The first buffer that starts with [lit]. *)
Definition first_with (lit : string) (bufs : list string) : option string :=
  list.head (filter (λ b, starts_with lit b = true) bufs).

Definition cores_line (n : Z) : string := "cpu cores" +:+ tb +:+ ": " +:+ dec n +:+ nl.
Definition address_line (phys vm : Z) : string :=
  "address sizes" +:+ tb +:+ ": " +:+ dec phys +:+ " bits physical, " +:+ dec vm +:+
  " bits virtual" +:+ nl.

Lemma sscanf_number fmt v rest :
  0 ≤ v < 2 ^ 63 → no_digit 10 rest = true →
  sscanf (ConvD :: fmt) (" " +:+ dec v +:+ rest) =
    ('(m, l) ← sscanf fmt rest; Ret (S m, v :: l)).
Proof using Type.
  clear. intros Hv Hr. destruct (dec_start v rest ltac:(lia)) as (c & s & Hs & Hc).
  cbn [sscanf]. change (" " +:+ dec v +:+ rest) with (String (chr 32) (dec v +:+ rest)).
  assert (skip_space (String (chr 32) (dec v +:+ rest)) = (dec v +:+ rest, 1%nat)) as ->.
  { cbn [skip_space]. replace (is_space (chr 32)) with true by done.
    rewrite Hs. by rewrite (proj1 (plain_start c s Hc)). }
  rewrite Hs. cbn [mbind]. rewrite <-Hs, strtol_dec by (done || lia).
  pose proof (dec_nonempty v). rewrite (proj2 (Nat.eqb_neq _ 0)) by lia.
  by rewrite drop_chars_app.
Qed.

Lemma sscanf_cores n : 0 ≤ n < 2 ^ 63 → sscanf cores_fmt (cores_line n) = Ret (4%nat, [n]).
Proof using Type.
  clear. intros Hn.
  assert (∀ fmt s, sscanf (ConvS 16 :: ConvS 16 :: ConvC :: fmt) ("cpu cores" +:+ tb +:+ ":" +:+ s) =
    ('(m, l) ← sscanf fmt s; Ret (3 + m, l)%nat)) as Hpre.
  { intros fmt s. simpl. change (EmptyString +:+ s) with s.
    by destruct (sscanf fmt s) as [[]| | |]. }
  unfold cores_fmt, cores_line. etrans; [apply (Hpre [ConvD] (" " +:+ dec n +:+ nl))|].
  by rewrite sscanf_number.
Qed.

Lemma sscanf_address phys vm :
  0 ≤ phys < 2 ^ 63 → 0 ≤ vm < 2 ^ 63 →
  sscanf address_fmt (address_line phys vm) = Ret (9%nat, [phys; vm]).
Proof using Type.
  clear. intros Hp Hv.
  assert (∀ fmt s, sscanf (ConvS 16 :: ConvS 16 :: ConvC :: fmt)
    ("address sizes" +:+ tb +:+ ":" +:+ s) =
    ('(m, l) ← sscanf fmt s; Ret (3 + m, l)%nat)) as Hpre.
  { intros fmt s. simpl. change (EmptyString +:+ s) with s.
    by destruct (sscanf fmt s) as [[]| | |]. }
  assert (∀ fmt s, sscanf (ConvS 16 :: ConvS 16 :: fmt) (" bits physical," +:+ " " +:+ s) =
    ('(m, l) ← sscanf fmt (" " +:+ s); Ret (2 + m, l)%nat)) as Hmid.
  { intros fmt s. simpl. change (EmptyString +:+ s) with s.
    change (" " +:+ s) with (String " " s). by destruct (sscanf fmt (String " " s)) as [[]| | |]. }
  unfold address_fmt, address_line.
  set (tail := " bits virtual" +:+ nl).
  etrans; [apply (Hpre _ (" " +:+ dec phys +:+ " bits physical, " +:+ dec vm +:+ tail))|].
  rewrite sscanf_number by done.
  change (" bits physical, " +:+ dec vm +:+ tail)
    with (" bits physical," +:+ " " +:+ dec vm +:+ tail).
  rewrite Hmid. by rewrite sscanf_number.
Qed.

Lemma cpu_scan_cores bufs n :
  first_with "cpu cores" bufs = Some (cores_line n) → 0 ≤ n < 2 ^ 31 →
  cpu_scan bufs 1 (mk_cpu_outs (Some 0) None None) = Ret (mk_cpu_outs (Some n) None None).
Proof using Type.
  clear. intros Hf Hn. induction bufs as [|b bufs IH]; [done|]. unfold first_with in Hf.
  rewrite filter_cons in Hf. cbn [cpu_scan]. simpl bool_decide. cbn [andb orb].
  case_decide as Hb; simpl in Hf; [|rewrite (not_true_is_false _ Hb); by apply IH].
  rewrite Hb. injection Hf as ->. rewrite sscanf_cores by lia. cbn [mbind exec_bind Nat.eqb].
  change (u32 (1 - 1) =? 0) with true. cbn [put phys_core_info vm_bit_info phys_m_bit_info].
  by rewrite wrap_small by (unfold is_word; lia).
Qed.

Lemma cpu_scan_address bufs phys vm o :
  first_with "address sizes" bufs = Some (address_line phys vm) →
  0 ≤ phys < 2 ^ 31 → 0 ≤ vm < 2 ^ 31 →
  o = mk_cpu_outs None (Some 0) None ∨ o = mk_cpu_outs None None (Some 0) →
  cpu_scan bufs 1 o =
    Ret (mk_cpu_outs None (put (vm_bit_info o) vm) (put (phys_m_bit_info o) phys)).
Proof using Type.
  clear. intros Hf Hp Hv Ho. induction bufs as [|b bufs IH]; [done|]. unfold first_with in Hf.
  rewrite filter_cons in Hf. cbn [cpu_scan].
  assert (bool_decide (is_Some (vm_bit_info o)) || bool_decide (is_Some (phys_m_bit_info o)) = true
    ∧ bool_decide (is_Some (phys_core_info o)) = false) as [-> ->]
    by (by destruct Ho as [->| ->]). cbn [andb].
  case_decide as Hb; simpl in Hf; [|rewrite (not_true_is_false _ Hb); by apply IH].
  rewrite Hb. injection Hf as ->. rewrite sscanf_address by lia.
  by destruct Ho as [->| ->].
Qed.
End Files.
