(* ===== verification/SysInfoHeader.v ===== *)
(** * Reading the generated header

    What a compiler sees in the text that [create_defs] writes: the macros and
    the core map, read back from the lines of the text by a reader that knows
    nothing of how they were printed. *)

From S2P Require Import Prelude CString SysInfo SysInfoCorrect.

(** ** A reader of headers *)

(** The lines of a text; the last one may lack its newline. *)
Fixpoint lines (s : string) : list string :=
  match s with
  | EmptyString => []
  | String c s =>
      if Ascii.eqb c newline then EmptyString :: lines s
      else match lines s with [] => [String c EmptyString] | l :: ls => String c l :: ls end
  end.

(** What follows a prefix. *)
Fixpoint strip_prefix (p s : string) : option string :=
  match p, s with
  | EmptyString, _ => Some s
  | String a p, String b s => if Ascii.eqb a b then strip_prefix p s else None
  | _, EmptyString => None
  end.

(** The one line that starts with [p]: what follows on it. *)
Definition only_line (p text : string) : option string :=
  match omap (strip_prefix p) (lines text) with [b] => Some b | _ => None end.

(** The body of a macro that is defined once. *)
Definition macro (name text : string) : option string := only_line ("#define " +:+ name +:+ " ") text.

Definition digit_of (base : Z) (c : ascii) : option Z :=
  d ← digit_val c; if d <? base then Some d else None.

(** A literal: one digit at least, then [stop]. *)
Fixpoint literal_go (base : Z) (stop s : string) (a : Z) : option Z :=
  if bool_decide (s = stop) then Some a
  else
    match s with
    | EmptyString => None
    | String c s => d ← digit_of base c; literal_go base stop s (a * base + d)
    end.
Definition literal (base : Z) (stop s : string) : option Z :=
  if bool_decide (s = stop) then None else literal_go base stop s 0.

Definition int_literal (s : string) : option Z :=
  match strip_prefix "-" s with
  | Some s' => Z.opp <$> literal 10 EmptyString s'
  | None => literal 10 EmptyString s
  end.

(** [(0x...UL)] *)
Definition ulong_literal (s : string) : option Z := s ← strip_prefix "(0x" s; literal 16 "UL)" s.

(** [a, b, ..., z };], the rest of an initialiser. *)
Fixpoint initialiser (s : string) (acc : option Z) : option (list Z) :=
  match s with
  | EmptyString => None
  | String c s' =>
      if Ascii.eqb c "," then
        match acc, s' with
        | Some n, String c s'' => if Ascii.eqb c " " then cons n <$> initialiser s'' None else None
        | _, _ => None
        end
      else if Ascii.eqb c " " then
        n ← acc; if bool_decide (s' = "};"%string) then Some [n] else None
      else d ← digit_of 10 c; initialiser s' (Some (default 0 acc * 10 + d))
  end.

Definition int_macro (name text : string) : option Z := b ← macro name text; int_literal b.
Definition ulong_macro (name text : string) : option Z := b ← macro name text; ulong_literal b.
Definition core_map_of (text : string) : option (list Z) :=
  b ← only_line (tb +:+ "static const constexpr uint32_t core_map[NPROCS] = { ") text;
  initialiser b None.

(** ** What the header has to say *)

(** The macros of a cache; [%d] prints an [int]. *)
Definition defines_cache (name : string) (ci : cache_info_t) (text : string) : Prop :=
  int_macro (name +:+ "_SIZE") text = Some (i32 (size ci)) ∧
  int_macro (name +:+ "_SETS") text = Some (i32 (sets ci)) ∧
  int_macro (name +:+ "_ASSOS") text = Some (i32 (assos ci)).

Record header_defines (text : string) (v : sys_values) : Prop := {
  hd_nprocs : int_macro "NPROCS" text = Some (v_nprocs v);
  hd_ncores : int_macro "NCORES" text = Some (v_ncores v);
  hd_core_map : core_map_of text = Some (v_phys_cores v);
  hd_thp_enum : only_line "enum THP " text = Some "{ ALWAYS = 0, MADVISE = 1, NEVER = 2 };"%string;
  hd_thp : macro "TRANSPARENT_HUGE_PAGE_CFG" text =
    ["THP::ALWAYS"; "THP::MADVISE"; "THP::NEVER"]%string !! Z.to_nat (v_thp v);
  hd_page_size : int_macro "PAGE_SIZE" text = Some (v_page_size v);
  hd_vm_nbits : int_macro "VM_NBITS" text = Some (v_vm_nbits v);
  hd_phys_m_nbits : int_macro "PHYS_M_NBITS" text = Some (v_phys_m_nbits v);
  hd_page_offset : ulong_macro "PAGE_OFFSET" text = u64 ∘ fst <$> v_kernel v;
  hd_kernel_mem_start : ulong_macro "KERNEL_MEM_START" text = u64 ∘ snd <$> v_kernel v;
  hd_cache_line : int_macro "CACHE_LINE_SIZE" text = Some (v_cache_line v);
  hd_l2_load : int_macro "L2_CACHE_LOAD_SIZE" text = Some (2 * v_cache_line v);
  hd_l1d : defines_cache "L1_DCACHE" (v_l1_dcache v) text;
  hd_l1i : defines_cache "L1_ICACHE" (v_l1_icache v) text;
  hd_l2 : defines_cache "L2_UCACHE" (v_l2_ucache v) text;
  hd_l3 : defines_cache "L3_UCACHE" (v_l3_ucache v) text
}.

(** ** Reading what was printed *)

(** A function that takes the digits of a number one by one. *)
Lemma digits_fold {B} (f : string → Z → B) base fuel n acc :
  2 ≤ base ≤ 36 → (∀ d s a, 0 ≤ d < base → f (String (digit_char d) s) a = f s (a * base + d)) →
  0 ≤ n < base ^ Z.of_nat fuel → fuel ≠ O → f (digits_go base fuel n acc) 0 = f acc n.
Proof.
  intros Hb Hf. revert n acc. induction fuel as [|fuel IH]; intros n acc Hn Hz; [done|].
  pose proof (Z.mod_pos_bound n base). cbn [digits_go]. destruct (Z.ltb_spec n base).
  - rewrite Hf by lia. f_equal. rewrite Z.mod_small; lia.
  - destruct (decide (fuel = O)) as [->|Hz']; [simpl in Hn; lia|].
    rewrite IH, Hf; [|lia|split; [apply Z.div_pos; lia|]|done].
    + f_equal. pose proof (Z.div_mod n base). lia.
    + apply Z.div_lt_upper_bound; [lia|]. rewrite Nat2Z.inj_succ, Z.pow_succ_r in Hn by lia. lia.
Qed.

Lemma digit_of_char base d : 2 ≤ base ≤ 36 → 0 ≤ d < base → digit_of base (digit_char d) = Some d.
Proof.
  intros Hb Hd. unfold digit_of. rewrite digit_val_char by lia. simpl.
  by rewrite (proj2 (Z.ltb_lt d base)) by lia.
Qed.

Lemma literal_digits base fuel n stop :
  2 ≤ base ≤ 36 → 0 ≤ n < base ^ Z.of_nat fuel → fuel ≠ O → no_digit base stop = true →
  literal base stop (digits_go base fuel n stop) = Some n.
Proof.
  intros Hb Hn Hf Hs.
  assert (∀ d s, 0 ≤ d < base → String (digit_char d) s ≠ stop) as Hstop.
  { intros d s Hd <-. simpl in Hs. unfold is_digit in Hs. rewrite digit_val_char in Hs by lia.
    by rewrite (proj2 (Z.ltb_lt d base)) in Hs by lia. }
  unfold literal. rewrite bool_decide_false.
  - rewrite (digits_fold (literal_go base stop)); [|lia| |done|done].
    + destruct stop; cbn [literal_go]; by rewrite bool_decide_true.
    + intros d s a Hd. cbn [literal_go]. rewrite bool_decide_false by (by apply Hstop).
      by rewrite digit_of_char by done.
  - destruct fuel as [|fuel]; [done|].
    destruct (digits_head base Hb fuel n stop) as (d & s & Hd & ->); [lia|]. by apply Hstop.
Qed.

Lemma int_literal_fmt x : int_literal (fmt_d x) = Some (i32 x).
Proof.
  assert (- 2 ^ 31 ≤ i32 x < 2 ^ 31) as Hr.
  { unfold i32, wrap. pose proof (Z.mod_pos_bound x (2 ^ 32)). destruct (Z.ltb_spec (x mod 2 ^ 32) (2 ^ 31)); lia. }
  unfold fmt_d, dec. destruct (Z.ltb_spec (i32 x) 0).
  - unfold int_literal. cbn [strip_prefix]. change (Ascii.eqb "-" (chr 45)) with true. cbn match.
    rewrite literal_digits by (done || lia). simpl. f_equal. lia.
  - destruct (digits_head 10 ltac:(lia) 19 (i32 x) EmptyString) as (d & s & Hd & Hs); [lia|].
    pose proof (digit_plain d ltac:(lia)) as Hp. unfold int_literal.
    rewrite Hs. cbn [strip_prefix].
    destruct (Ascii.eqb_spec "-" (digit_char d)) as [E|_]; [by rewrite <-E in Hp|].
    rewrite <-Hs, literal_digits by (done || lia). done.
Qed.

Lemma i32_fits x : 0 ≤ x < 2 ^ 31 → i32 x = x.
Proof.
  intros Hx. unfold i32. rewrite wrap_small by (unfold is_word; lia).
  by rewrite (proj2 (Z.ltb_lt _ _)) by lia.
Qed.

Lemma ulong_literal_fmt x : ulong_literal ("(0x" +:+ fmt_lx x +:+ "UL)") = Some (u64 x).
Proof.
  pose proof (wrap_word 64 ltac:(lia) x) as Hw. unfold is_word in Hw. unfold fmt_lx.
  rewrite digits_app. exact (literal_digits 16 16 (u64 x) "UL)" ltac:(lia) Hw ltac:(done) eq_refl).
Qed.

(** The core map. *)
Lemma initialiser_number x s : 0 ≤ x < 2 ^ 31 →
  initialiser (fmt_d x +:+ s) None = initialiser s (Some x).
Proof.
  intros Hx. rewrite fmt_d_dec by lia. unfold dec. rewrite (proj2 (Z.ltb_ge x 0)), digits_app by lia.
  assert (∀ d s a, 0 ≤ d < 10 →
    initialiser (String (digit_char d) s) a = initialiser s (Some (default 0 a * 10 + d))) as Hd.
  { intros d s' a Hd. cbn [initialiser].
    pose proof (digit_val_char d ltac:(lia)) as Hv.
    destruct (Ascii.eqb_spec (digit_char d) ",") as [E|_]; [by rewrite E in Hv|].
    destruct (Ascii.eqb_spec (digit_char d) " ") as [E|_]; [by rewrite E in Hv|].
    by rewrite digit_of_char by lia. }
  destruct (digits_head 10 ltac:(lia) 19 x (EmptyString +:+ s)) as (d & s' & Hd' & Hs); [lia|].
  transitivity (initialiser (digits_go 10 20 x (EmptyString +:+ s)) (Some 0)).
  { rewrite Hs. by rewrite !Hd by done. }
  apply (digits_fold (λ s a, initialiser s (Some a))); [lia|by intros; apply Hd|simpl; lia|done].
Qed.

Lemma initialiser_more l x :
  Forall (λ c, 0 ≤ c < 2 ^ 31) l →
  initialiser (more_cores l +:+ " };") (Some x) = Some (x :: l).
Proof.
  revert x. induction l as [|y l IH]; intros x Hl; [done|]. apply Forall_cons in Hl as [Hy Hl].
  cbn [more_cores]. rewrite <-!append_assoc.
  change (cons x <$> initialiser (fmt_d y +:+ (more_cores l +:+ " };")) None = Some (x :: y :: l)).
  rewrite initialiser_number, IH by done. done.
Qed.

Lemma initialiser_cores l :
  l ≠ [] → Forall (λ c, 0 ≤ c < 2 ^ 31) l → initialiser (core_list l +:+ " };") None = Some l.
Proof.
  destruct l as [|x l]; [done|]. intros _ [Hx Hl]%Forall_cons. cbn [core_list].
  rewrite <-append_assoc, initialiser_number by done. by apply initialiser_more.
Qed.

(** ** The lines of the header *)

Definition unlines (ls : list string) : string := foldr (λ l r, l +:+ nl +:+ r) EmptyString ls.

Lemma lines_cons l r : has_char newline l = false → lines (l +:+ nl +:+ r) = l :: lines r.
Proof.
  induction l as [|c l IH]; intros Hl; [done|]. simpl in Hl. apply orb_false_iff in Hl as [Hc Hl].
  apply bool_decide_eq_false in Hc. rewrite app_cons. cbn [lines]. rewrite (IH Hl).
  by destruct (Ascii.eqb_spec c newline).
Qed.

Lemma lines_unlines ls : Forall (λ l, has_char newline l = false) ls → lines (unlines ls) = ls.
Proof.
  induction 1 as [|l ls Hl _ IH]; [done|]. cbn [unlines foldr]. rewrite lines_cons by done.
  by f_equal.
Qed.


(** The lines [create_defs] writes: those that are always the same, and those
    that start the same. *)
Inductive part := Fixed (l : string) | With (l : string).

Definition line_of (x : part) (t : string) : string :=
  match x with Fixed l => l | With l => l +:+ t end.

Definition first_shape : list part :=
  [Fixed "#ifndef _SYS_INFO_H_"; Fixed "#define _SYS_INFO_H_"; Fixed "#define HAVE_CONST_SYS_INFO";
   Fixed EmptyString; Fixed "#include <stdint.h>"; Fixed EmptyString;
   Fixed "// Number of processors (this is cores includes hyperthreads)";
   With "#define NPROCS "; Fixed EmptyString;
   Fixed "// Number of physical cores"; With "#define NCORES "; Fixed EmptyString;
   Fixed "// Logical to physical core lookup"; Fixed "#define PHYS_CORE(X) get_phys_core(X)";
   Fixed "uint32_t inline __attribute__((always_inline)) __attribute__((const))";
   Fixed "get_phys_core(const uint32_t logical_core_num) {";
   With (tb +:+ "static const constexpr uint32_t core_map[NPROCS] = { ");
   Fixed (tb +:+ "return core_map[logical_core_num];"); Fixed "}"; Fixed EmptyString;
   Fixed "// Transparent Huge Page Configuration"; With "enum THP ";
   With "#define TRANSPARENT_HUGE_PAGE_CFG "; Fixed EmptyString;
   Fixed "// Virtual memory page size"; With "#define PAGE_SIZE "; Fixed EmptyString;
   Fixed "// Virtual memory address space bits"; With "#define VM_NBITS "; Fixed EmptyString;
   Fixed "// Physical memory address space bits"; With "#define PHYS_M_NBITS "; Fixed EmptyString].

Definition kernel_shape : list part :=
  [Fixed "// Physical memory page offset (for vm -> pm) for kmalloc";
   With "#define PAGE_OFFSET "; Fixed EmptyString;
   Fixed "// Where physical memory of kernel (mostly for debugging kmalloc stuff)";
   With "#define KERNEL_MEM_START "; Fixed EmptyString].

Definition last_shape : list part :=
  [Fixed "// cache line size (should be same for L1, L2, and L3)";
   With "#define CACHE_LINE_SIZE "; Fixed EmptyString;
   Fixed "// l2 cache loads double cache lines at a time";
   With "#define L2_CACHE_LOAD_SIZE "; Fixed EmptyString; Fixed EmptyString;
   Fixed "//////////////////////////////////////////////////////////////////////";
   Fixed "// More specific cache info starts here";
   Fixed "//////////////////////////////////////////////////////////////////////"; Fixed EmptyString;
       With "#define L1_DCACHE_SIZE "; With "#define L1_DCACHE_SETS "; With "#define L1_DCACHE_ASSOS "; Fixed EmptyString;
       With "#define L1_ICACHE_SIZE "; With "#define L1_ICACHE_SETS "; With "#define L1_ICACHE_ASSOS "; Fixed EmptyString;
       With "#define L2_UCACHE_SIZE "; With "#define L2_UCACHE_SETS "; With "#define L2_UCACHE_ASSOS "; Fixed EmptyString;
       With "#define L3_UCACHE_SIZE "; With "#define L3_UCACHE_SETS "; With "#define L3_UCACHE_ASSOS "; Fixed EmptyString;
   Fixed "#endif"].

Definition shape (kernel : bool) : list part :=
  (first_shape ++ (if kernel then kernel_shape else []) ++ last_shape)%list.

(** What the other lines end with; [no] where there is nothing. *)
Definition no : string := EmptyString.

Definition cache_tails (ci : cache_info_t) : list string :=
  [fmt_d (size ci); fmt_d (sets ci); fmt_d (assos ci); no].

Definition kernel_tails (k : option (Z * Z)) : list string :=
  match k with
  | None => []
  | Some (page_offset, kernel_mem_start) =>
      [no; "(0x" +:+ fmt_lx page_offset +:+ "UL)"; no; no; "(0x" +:+ fmt_lx kernel_mem_start +:+ "UL)"; no]
  end.

Definition tails (v : sys_values) : list string :=
  ([no; no; no; no; no; no; no; fmt_d (v_nprocs v); no; no; fmt_d (v_ncores v); no; no; no; no; no;
    core_list (v_phys_cores v) +:+ " };"; no; no; no; no; "{ ALWAYS = 0, MADVISE = 1, NEVER = 2 };"%string;
    thp_name (v_thp v); no; no; fmt_d (v_page_size v); no; no; fmt_d (v_vm_nbits v); no; no;
    fmt_d (v_phys_m_nbits v); no] ++ kernel_tails (v_kernel v) ++
   [no; fmt_d (v_cache_line v); no; no; fmt_d (u32 (2 * v_cache_line v)); no; no; no; no; no; no] ++
   cache_tails (v_l1_dcache v) ++ cache_tails (v_l1_icache v) ++ cache_tails (v_l2_ucache v) ++
   cache_tails (v_l3_ucache v) ++ [no])%list.

Definition has_kernel (v : sys_values) : bool := match v_kernel v with Some _ => true | None => false end.

Definition header_lines (v : sys_values) : list string := zip_with line_of (shape (has_kernel v)) (tails v).

Lemma header_unlines v : header_text v = unlines (header_lines v).
Proof.
  unfold header_text, header_lines, has_kernel, tails, kernel_tails, cache_tails, kernel_text, define_cache, define.
  destruct (v_kernel v) as [[p k]|]; unfold shape, first_shape, kernel_shape, last_shape;
    cbn [app zip_with unlines foldr line_of]; repeat lazymatch goal with
      | |- context [fmt_d (?f v)] => generalize (fmt_d (f v)); intros ?
      | |- context [fmt_d (?f (?g v))] => generalize (fmt_d (f (g v))); intros ?
      | |- context [fmt_d (u32 ?x)] => generalize (fmt_d (u32 x)); intros ?
      | |- context [fmt_lx ?x] => generalize (fmt_lx x); intros ?
      | |- context [core_list ?x] => generalize (core_list x); intros ?
      | |- context [thp_name ?x] => generalize (thp_name x); intros ?
      end; rewrite <-!append_assoc; lazy; reflexivity.
Qed.

Lemma fmt_d_no_newline x : has_char newline (fmt_d x) = false.
Proof.
  unfold fmt_d, dec. destruct (i32 x <? 0); cbn [has_char]; rewrite digits_no_char by (done || lia); done.
Qed.

Lemma fmt_lx_no_newline x : has_char newline (fmt_lx x) = false.
Proof. unfold fmt_lx. by rewrite digits_no_char by (done || lia). Qed.

Lemma more_cores_no_newline l : has_char newline (more_cores l) = false.
Proof. induction l as [|x l IH]; [done|]. cbn [more_cores]. by rewrite !has_char_app, fmt_d_no_newline, IH. Qed.

Lemma core_list_no_newline l : has_char newline (core_list l) = false.
Proof.
  destruct l as [|x l]; [done|]. cbn [core_list].
  by rewrite !has_char_app, fmt_d_no_newline, more_cores_no_newline.
Qed.

Lemma thp_name_no_newline x : has_char newline (thp_name x) = false.
Proof. unfold thp_name. by repeat case_match. Qed.

(** Every line is whole. *)
Definition part_text (x : part) : string := match x with Fixed l | With l => l end.

Lemma shape_whole b : forallb (λ x, negb (has_char newline (part_text x))) (shape b) = true.
Proof. by destruct b; vm_compute. Qed.

Lemma tails_whole v : Forall (λ t, has_char newline t = false) (tails v).
Proof.
  unfold tails, kernel_tails, cache_tails.
  destruct (v_kernel v) as [[p k]|]; cbn [app]; repeat (apply Forall_cons; split); try apply Forall_nil_2;
    rewrite ?has_char_app, ?fmt_d_no_newline, ?fmt_lx_no_newline, ?core_list_no_newline, ?thp_name_no_newline;
    reflexivity.
Qed.

Lemma header_lines_whole v : Forall (λ l, has_char newline l = false) (header_lines v).
Proof.
  unfold header_lines. pose proof (shape_whole (has_kernel v)) as Hs. pose proof (tails_whole v) as Ht.
  revert Hs Ht. generalize (shape (has_kernel v)), (tails v). intros sh.
  induction sh as [|x sh IH]; intros [|t ts] Hs Ht; try apply Forall_nil_2.
  cbn [forallb] in Hs. apply andb_true_iff in Hs as [Hx%negb_true_iff Hs]. apply Forall_cons in Ht as [Ht Hts].
  cbn [zip_with]. apply Forall_cons. split; [|by apply IH].
  destruct x; simpl in *; [done|]. by rewrite has_char_app, Hx, Ht.
Qed.

(** The place of the one line that starts with [p]. *)
Fixpoint differ (p s : string) : bool :=
  match p, s with
  | String a p, String b s => if Ascii.eqb a b then differ p s else true
  | _, _ => false
  end.

Definition mismatch (p : string) (x : part) : bool :=
  match x with
  | Fixed l => match strip_prefix p l with None => true | Some _ => false end
  | With l => differ p l
  end.

Fixpoint position (p : string) (sh : list part) : option nat :=
  match sh with
  | [] => None
  | x :: sh =>
      if mismatch p x then S <$> position p sh
      else match x with
           | With l => if bool_decide (l = p) && forallb (mismatch p) sh then Some O else None
           | Fixed _ => None
           end
  end.

Lemma differ_strip p s t : differ p s = true → strip_prefix p (s +:+ t) = None.
Proof.
  revert s. induction p as [|a p IH]; intros [|b s]; try done. rewrite app_cons. cbn [differ strip_prefix].
  destruct (Ascii.eqb a b); [apply IH|done].
Qed.

Lemma strip_prefix_app p t : strip_prefix p (p +:+ t) = Some t.
Proof. induction p as [|a p IH]; [done|]. rewrite app_cons. cbn [strip_prefix]. by rewrite Ascii.eqb_refl. Qed.

Lemma mismatch_strip p x t : mismatch p x = true → strip_prefix p (line_of x t) = None.
Proof. destruct x; simpl; [by destruct (strip_prefix p l)|apply differ_strip]. Qed.

Lemma mismatch_all p sh ts :
  forallb (mismatch p) sh = true → omap (strip_prefix p) (zip_with line_of sh ts) = [].
Proof.
  revert ts. induction sh as [|x sh IH]; intros [|t ts]; try done. cbn [forallb].
  intros [Hx Hs]%andb_true_iff. cbn [zip_with omap list_omap]. by rewrite mismatch_strip, IH.
Qed.

Lemma position_strip p sh ts i t :
  position p sh = Some i → ts !! i = Some t → omap (strip_prefix p) (zip_with line_of sh ts) = [t].
Proof.
  revert ts i. induction sh as [|x sh IH]; intros ts i Hp Ht; [done|]. cbn [position] in Hp.
  destruct ts as [|t' ts]; [done|]. cbn [zip_with omap list_omap].
  destruct (mismatch p x) eqn:Hx.
  - rewrite mismatch_strip by done. apply fmap_Some in Hp as (j & Hj & ->). by eapply IH.
  - destruct x as [|l]; [done|]. destruct (bool_decide (l = p)) eqn:El; [|done].
    apply bool_decide_eq_true in El as ->. destruct (forallb (mismatch p) sh) eqn:Hs; [|done].
    injection Hp as <-. injection Ht as ->. cbn [line_of]. by rewrite strip_prefix_app, mismatch_all.
Qed.

Lemma only_line_header p v i t :
  position p (shape (has_kernel v)) = Some i → tails v !! i = Some t → only_line p (header_text v) = Some t.
Proof.
  intros Hp Ht. unfold only_line. rewrite header_unlines, lines_unlines by apply header_lines_whole.
  unfold header_lines. by rewrite (position_strip p _ _ i t).
Qed.

Lemma only_line_none p v :
  forallb (mismatch p) (shape (has_kernel v)) = true → only_line p (header_text v) = None.
Proof.
  intros Hp. unfold only_line. rewrite header_unlines, lines_unlines by apply header_lines_whole.
  unfold header_lines. by rewrite mismatch_all.
Qed.

(** The values that can be read back as they are. *)
Record printable (v : sys_values) : Prop := {
  pr_nprocs : 0 ≤ v_nprocs v < 2 ^ 31;
  pr_ncores : 0 ≤ v_ncores v < 2 ^ 31;
  pr_cores : v_phys_cores v ≠ [] ∧ Forall (λ c, 0 ≤ c < 2 ^ 31) (v_phys_cores v);
  pr_thp : 0 ≤ v_thp v ≤ 2;
  pr_page_size : 0 ≤ v_page_size v < 2 ^ 31;
  pr_nbits : 0 ≤ v_vm_nbits v < 2 ^ 31 ∧ 0 ≤ v_phys_m_nbits v < 2 ^ 31;
  pr_cache_line : 0 ≤ v_cache_line v < 2 ^ 30
}.


Section Header.
Context (v : sys_values) (P : printable v).

Ltac find_line :=
  destruct (v_kernel v) as [[]|] eqn:E; (eapply only_line_header;
    [unfold has_kernel; rewrite E; vm_compute; reflexivity|unfold tails; rewrite E; reflexivity]).

Lemma int_macro_exact name x :
  only_line ("#define " +:+ name +:+ " ") (header_text v) = Some (fmt_d x) →
  int_macro name (header_text v) = Some (i32 x).
Proof using Type. intros H. unfold int_macro, macro. rewrite H. apply int_literal_fmt. Qed.

Lemma int_macro_small name x :
  0 ≤ x < 2 ^ 31 → only_line ("#define " +:+ name +:+ " ") (header_text v) = Some (fmt_d x) →
  int_macro name (header_text v) = Some x.
Proof using Type. intros Hx H. by rewrite (int_macro_exact _ x), i32_fits. Qed.

Lemma ulong_macro_exact name x :
  only_line ("#define " +:+ name +:+ " ") (header_text v) = Some ("(0x" +:+ fmt_lx x +:+ "UL)") →
  ulong_macro name (header_text v) = Some (u64 x).
Proof using Type. intros H. unfold ulong_macro, macro. rewrite H. apply ulong_literal_fmt. Qed.

Lemma header_kernel :
  ulong_macro "PAGE_OFFSET" (header_text v) = u64 ∘ fst <$> v_kernel v ∧
  ulong_macro "KERNEL_MEM_START" (header_text v) = u64 ∘ snd <$> v_kernel v.
Proof using Type.
  destruct (v_kernel v) as [[p k]|] eqn:E; cbn [fmap option_fmap option_map compose fst snd].
  - split; apply ulong_macro_exact; (eapply only_line_header;
      [unfold has_kernel; rewrite E; vm_compute; reflexivity|unfold tails; rewrite E; reflexivity]).
  - unfold ulong_macro, macro. rewrite !only_line_none by (unfold has_kernel; rewrite E; vm_compute; reflexivity).
    done.
Qed.

Lemma header_caches :
  defines_cache "L1_DCACHE" (v_l1_dcache v) (header_text v) ∧
  defines_cache "L1_ICACHE" (v_l1_icache v) (header_text v) ∧
  defines_cache "L2_UCACHE" (v_l2_ucache v) (header_text v) ∧
  defines_cache "L3_UCACHE" (v_l3_ucache v) (header_text v).
Proof using Type. split_and!; (split_and!; apply int_macro_exact; find_line). Qed.

(** The header says what the values are. *)
Lemma header_reads : header_defines (header_text v) v.
Proof using P.
  destruct P as [P1 P2 [P3 P4] P5 P6 [P7 P8] P9]. destruct header_kernel as [K1 K2].
  destruct header_caches as (C1 & C2 & C3 & C4).
  split; try assumption; try (apply int_macro_small; [lia|find_line]).
  - unfold core_map_of.
    assert (only_line (tb +:+ "static const constexpr uint32_t core_map[NPROCS] = { ") (header_text v) =
      Some (core_list (v_phys_cores v) +:+ " };")) as -> by find_line.
    by apply initialiser_cores.
  - find_line.
  - assert (macro "TRANSPARENT_HUGE_PAGE_CFG" (header_text v) = Some (thp_name (v_thp v))) as -> by find_line.
    assert (v_thp v = 0 ∨ v_thp v = 1 ∨ v_thp v = 2) as [->|[->| ->]] by lia; done.
  - rewrite <-(wrap_small 32 (2 * v_cache_line v)) by (unfold is_word; lia).
    apply int_macro_small; [rewrite wrap_small by (unfold is_word; lia); lia|find_line].
Qed.
End Header.
