(* ===== verification/SysInfoTheorems.v ===== *)
(** * Theorems about the system information

    The generator writes a header with the values of the system it runs on;
    on a description of the machine the repository was configured for, it
    writes the header the repository carries. *)

From S2P Require Import Prelude CString Machine SysInfo SysInfoCorrect.
From S2P Require Import SysInfoHeader.

(** The files of [sys] describe the values [v] and the caches [cs]. *)
Record describes (sys : system) (with_kernel_info : bool) (cs : list cache_entry)
    (v : sys_values) : Prop := {
  d_nprocs : 1 ≤ nprocs_onln sys < 2 ^ 31 ∧ v_nprocs v = nprocs_onln sys;
  d_cores : Z.of_nat (length (v_phys_cores v)) = nprocs_onln sys;
  d_core i c : v_phys_cores v !! i = Some c →
    0 ≤ c < 10 ^ 5 ∧ holds_number sys (core_path (Z.of_nat i)) c EmptyString;
  d_cpuinfo : ∃ c, files sys "/proc/cpuinfo" = Some c ∧
    first_with "cpu cores" (buffers 64 c) = Some (cores_line (v_ncores v)) ∧
    first_with "address sizes" (buffers 64 c) =
      Some (address_line (v_phys_m_nbits v) (v_vm_nbits v));
  d_small : 0 ≤ v_ncores v < 2 ^ 31 ∧ 0 ≤ v_phys_m_nbits v < 2 ^ 31 ∧ 0 ≤ v_vm_nbits v < 2 ^ 31;
  d_thp : 0 ≤ v_thp v ≤ 2 ∧ ∃ pre post rest,
    files sys thp_path = Some (thp_line pre post (v_thp v) +:+ String newline rest) ∧
    contains_braces pre = 0 ∧ contains_braces post = 0 ∧
    has_char newline pre = false ∧ has_char newline post = false ∧
    (String.length (thp_line pre post (v_thp v)) ≤ 61)%nat;
  d_page : 0 ≤ pagesize sys < 2 ^ 31 ∧ v_page_size v = pagesize sys;
  d_kernel : v_kernel v =
    (if with_kernel_info then
       match read_kernel_header sys with Ret k => Some k | _ => None end
     else None) ∧
    (with_kernel_info = true → ∃ k, read_kernel_header sys = Ret k);
  d_line : 0 ≤ v_cache_line v < 10 ^ 5 ∧ holds_number sys line_path (v_cache_line v) EmptyString;
  d_caches : caches_at sys 0 cs;
  d_l1d : v_l1_dcache v = pick 1 DCACHE cs zero_ci;
  d_l1i : v_l1_icache v = pick 1 ICACHE cs zero_ci;
  d_l2 : v_l2_ucache v = pick 2 UCACHE cs zero_ci;
  d_l3 : v_l3_ucache v = pick 3 UCACHE cs zero_ci
}.

Section Generator.
Context (sys : system) (wk : bool) (cs : list cache_entry) (v : sys_values).
Context (Hd : describes sys wk cs v).

Lemma phys_core_ok i c :
  v_phys_cores v !! i = Some c → compute_phys_core sys (Z.of_nat i) = Ret c.
Proof.
  intros Hi. destruct (d_core _ _ _ _ Hd i c Hi) as [Hc Hf]. unfold compute_phys_core.
  rewrite (read_number_ok sys 7 _ c 5 Hf) by lia. cbn [mbind exec_bind].
  by rewrite wrap_small by (unfold is_word; lia).
Qed.

Lemma phys_cores_ok c l :
  v_phys_cores v = c :: l →
  mapM (compute_phys_core sys) (seqZ 1 (nprocs_onln sys - 1)) = Ret l.
Proof.
  intros Hl. pose proof (d_cores _ _ _ _ Hd) as Hlen. rewrite Hl in Hlen. simpl in Hlen.
  assert (∀ k l', (∀ j c', l' !! j = Some c' → v_phys_cores v !! (k + j)%nat = Some c') →
    mapM (compute_phys_core sys) (seqZ (Z.of_nat k) (Z.of_nat (length l'))) = Ret l') as H.
  { intros k l'. revert k. induction l' as [|c' l' IH]; intros k Hk; [done|].
    rewrite seqZ_cons by (simpl; lia). cbn [mapM].
    rewrite (phys_core_ok k c') by (rewrite <-(Nat.add_0_r k); by apply (Hk O)).
    cbn [mbind exec_bind].
    replace (Z.succ (Z.of_nat k)) with (Z.of_nat (S k)) by lia.
    replace (Z.pred (Z.of_nat (length (c' :: l')))) with (Z.of_nat (length l')) by (simpl; lia).
    rewrite IH; [done|]. intros j c'' Hj. replace (S k + j)%nat with (k + S j)%nat by lia.
    by apply (Hk (S j)). }
  replace (nprocs_onln sys - 1) with (Z.of_nat (length l)) by lia.
  apply (H 1%nat). intros j c' Hj. by rewrite Hl.
Qed.

Lemma cpuinfo_ok :
  compute_ncores sys = Ret (v_ncores v) ∧ compute_vm_nbits sys = Ret (v_vm_nbits v) ∧
  compute_phys_m_nbits sys = Ret (v_phys_m_nbits v).
Proof.
  destruct (d_cpuinfo _ _ _ _ Hd) as (c & Hc & Hcores & Haddr).
  destruct (d_small _ _ _ _ Hd) as (H1 & H2 & H3).
  unfold compute_ncores, compute_vm_nbits, compute_phys_m_nbits, read_proc_cpu. simpl.
  rewrite (fopen_some sys _ _ Hc). cbn [mbind exec_bind]. split_and!.
  - by rewrite (cpu_scan_cores _ (v_ncores v)).
  - rewrite (cpu_scan_address _ _ _ _ Haddr) by (done || by left). simpl.
    by rewrite wrap_small by (unfold is_word; lia).
  - rewrite (cpu_scan_address _ _ _ _ Haddr) by (done || by right). simpl.
    by rewrite wrap_small by (unfold is_word; lia).
Qed.

Lemma caches_ok fuel o :
  (length cs < fuel)%nat → Z.of_nat fuel < 2 ^ 31 →
  read_cache_info sys fuel o = Ret (pick_all cs o).
Proof. intros H1 H2. by apply (cache_loop_ok sys fuel 0 cs o (d_caches _ _ _ _ Hd)). Qed.

Lemma one_cache_ok fuel :
  (length cs < fuel)%nat → Z.of_nat fuel < 2 ^ 31 →
  compute_l1_dcache sys fuel = Ret (v_l1_dcache v) ∧
  compute_l1_icache sys fuel = Ret (v_l1_icache v) ∧
  compute_l2_ucache sys fuel = Ret (v_l2_ucache v) ∧
  compute_l3_ucache sys fuel = Ret (v_l3_ucache v).
Proof.
  intros H1 H2.
  unfold compute_l1_dcache, compute_l1_icache, compute_l2_ucache, compute_l3_ucache.
  rewrite !caches_ok by done. cbn -[pick].
  by rewrite (d_l1d _ _ _ _ Hd), (d_l1i _ _ _ _ Hd), (d_l2 _ _ _ _ Hd), (d_l3 _ _ _ _ Hd).
Qed.

Lemma eta_ci ci : mk_ci (sets ci) (assos ci) (size ci) = ci.
Proof using Type. by destruct ci. Qed.

Lemma read_values_ok fuel :
  (length cs < fuel)%nat → Z.of_nat fuel < 2 ^ 31 → read_values sys wk fuel = Ret v.
Proof.
  intros Hf Hf2. destruct cpuinfo_ok as (E1 & E2 & E3).
  destruct (d_nprocs _ _ _ _ Hd) as [Hnp Hnp']. pose proof (d_cores _ _ _ _ Hd) as Hlen.
  destruct (v_phys_cores v) as [|c l] eqn:Hcores; [simpl in Hlen; lia|].
  destruct (d_thp _ _ _ _ Hd) as (Ht & pre & post & rest & Ht1 & Ht2 & Ht3 & Ht4 & Ht5 & Ht6).
  destruct (d_page _ _ _ _ Hd) as [Hp Hp']. destruct (d_line _ _ _ _ Hd) as [Hl Hl'].
  destruct (d_kernel _ _ _ _ Hd) as [Hk Hk'].
  unfold read_values. rewrite E1. cbn [mbind exec_bind].
  assert (compute_phys_core sys 0 = Ret c) as -> by (apply (phys_core_ok 0); by rewrite Hcores).
  cbn [mbind exec_bind]. rewrite (phys_cores_ok c l Hcores). cbn [mbind exec_bind].
  rewrite (thp_config_ok sys pre post (v_thp v) rest) by done. cbn [mbind exec_bind].
  rewrite E2, E3. cbn [mbind exec_bind].
  assert ((if wk then
      page_offset ← compute_page_offset sys;
      kernel_mem_start ← compute_kernel_mem_start sys;
      Ret (Some (page_offset, kernel_mem_start))
    else Ret None) = Ret (v_kernel v)) as ->.
  { rewrite Hk. destruct wk; [|done]. destruct (Hk' eq_refl) as [[k1 k2] Hk2].
    unfold compute_page_offset, compute_kernel_mem_start. by rewrite Hk2. }
  cbn [mbind exec_bind]. unfold compute_cache_line_size.
  rewrite (read_number_ok sys 7 _ (v_cache_line v) 5 Hl') by lia. cbn [mbind exec_bind].
  destruct (one_cache_ok fuel Hf Hf2) as (C1 & C2 & C3 & C4).
  unfold compute_l1_dcache_size, compute_l1_dcache_sets, compute_l1_dcache_assos,
    compute_l1_icache_size, compute_l1_icache_sets, compute_l1_icache_assos,
    compute_l2_ucache_size, compute_l2_ucache_sets, compute_l2_ucache_assos,
    compute_l3_ucache_size, compute_l3_ucache_sets, compute_l3_ucache_assos.
  rewrite C1, C2, C3, C4. cbn [mbind exec_bind].
  rewrite !wrap_small by (unfold is_word; lia). rewrite <-Hnp', <-Hp'.
  rewrite <-Hcores, !eta_ci. by destruct v.
Qed.

Lemma described_printable : printable v.
Proof.
  destruct (d_nprocs _ _ _ _ Hd) as [Hn Hn']. pose proof (d_cores _ _ _ _ Hd) as Hlen.
  destruct (d_page _ _ _ _ Hd) as [Hp Hp']. destruct (d_line _ _ _ _ Hd) as [Hl _].
  destruct (d_small _ _ _ _ Hd) as (H1 & H2 & H3). destruct (d_thp _ _ _ _ Hd) as [Ht _].
  split; try done; try lia. split; [intros E; rewrite E in Hlen; simpl in Hlen; lia|].
  apply Forall_lookup_2. intros i c Hi. destruct (d_core _ _ _ _ Hd i c Hi) as [Hc _]. lia.
Qed.

(** C35: on every system whose files describe its processors, caches, memory
    and huge page mode, the generator ends and writes a header that defines
    these values: the macros, read back from the lines of the text, are each
    defined once, as the number the system has (the sizes of the caches as an
    [int], as [%d] prints them), the core map lists the physical core of each
    processor, and the kernel addresses are there when they are asked for.  The
    number of cache directories is the only bound on its loop. *)
Theorem create_defs_correct fuel f :
  (length cs < fuel)%nat → Z.of_nat fuel < 2 ^ 31 → f ≠ EmptyString → can_write sys f = true →
  ∃ text, create_defs sys wk fuel (Some f) = Ret (f, text) ∧ header_defines text v.
Proof.
  intros H1 H2 Hf Hw. exists (header_text v). split; [|apply header_reads, described_printable].
  unfold create_defs, strcmp_eq. rewrite bool_decide_false by done.
  cbn [mbind exec_bind]. rewrite Hw. cbn [ERROR_ASSERT mbind exec_bind].
  by rewrite read_values_ok.
Qed.
End Generator.

(** ** The machine of the repository *)

Definition ci_of (c : cache_info) : cache_info_t :=
  mk_ci (cache_sets c) (cache_assos c) (cache_size_bytes c).

(** The values of the constants of [Machine]. *)
Definition machine_values : sys_values :=
  mk_values NPROCS NCORES core_map
    (match TRANSPARENT_HUGE_PAGE_CFG with
     | ALWAYS => THP_ALWAYS | MADVISE => THP_MADVISE | NEVER => THP_NEVER end)
    PAGE_SIZE VM_NBITS PHYS_M_NBITS None CACHE_LINE_SIZE
    (ci_of L1_DCACHE) (ci_of L1_ICACHE) (ci_of L2_UCACHE) (ci_of L3_UCACHE).

(** The lines of [PRECOMPUTED_SYS_INFO.h]. *)
Definition precomputed : list string :=
  ["#ifndef _SYS_INFO_H_";
   "#define _SYS_INFO_H_";
   "#define HAVE_CONST_SYS_INFO";
   EmptyString;
   "#include <stdint.h>";
   EmptyString;
   "// Number of processors (this is cores includes hyperthreads)";
   "#define NPROCS 8";
   EmptyString;
   "// Number of physical cores";
   "#define NCORES 4";
   EmptyString;
   "// Logical to physical core lookup";
   "#define PHYS_CORE(X) get_phys_core(X)";
   "uint32_t inline __attribute__((always_inline)) __attribute__((const))";
   "get_phys_core(const uint32_t logical_core_num) {";
   tb +:+ "static const constexpr uint32_t core_map[NPROCS] = { 0, 1, 2, 3, 0, 1, 2, 3 };";
   tb +:+ "return core_map[logical_core_num];";
   "}";
   EmptyString;
   "// Transparent Huge Page Configuration";
   "enum THP { ALWAYS = 0, MADVISE = 1, NEVER = 2 };";
   "#define TRANSPARENT_HUGE_PAGE_CFG THP::MADVISE";
   EmptyString;
   "// Virtual memory page size";
   "#define PAGE_SIZE 4096";
   EmptyString;
   "// Virtual memory address space bits";
   "#define VM_NBITS 48";
   EmptyString;
   "// Physical memory address space bits";
   "#define PHYS_M_NBITS 39";
   EmptyString;
   "// cache line size (should be same for L1, L2, and L3)";
   "#define CACHE_LINE_SIZE 64";
   EmptyString;
   "// l2 cache loads double cache lines at a time";
   "#define L2_CACHE_LOAD_SIZE 128";
   EmptyString;
   EmptyString;
   "//////////////////////////////////////////////////////////////////////";
   "// More specific cache info starts here";
   "//////////////////////////////////////////////////////////////////////";
   EmptyString;
   "#define L1_DCACHE_SIZE 49152";
   "#define L1_DCACHE_SETS 64";
   "#define L1_DCACHE_ASSOS 12";
   EmptyString;
   "#define L1_ICACHE_SIZE 32768";
   "#define L1_ICACHE_SETS 64";
   "#define L1_ICACHE_ASSOS 8";
   EmptyString;
   "#define L2_UCACHE_SIZE 524288";
   "#define L2_UCACHE_SETS 1024";
   "#define L2_UCACHE_ASSOS 8";
   EmptyString;
   "#define L3_UCACHE_SIZE 8388608";
   "#define L3_UCACHE_SETS 8192";
   "#define L3_UCACHE_ASSOS 16";
   EmptyString;
   "#endif"].

(** The constants the allocator is modelled with are those of the header
    in the repository: the generator writes exactly that file for them. *)
Theorem header_regenerated :
  header_text machine_values = foldr (λ l r, l +:+ nl +:+ r) EmptyString precomputed.
Proof. by vm_compute. Qed.

(** A system with these values, as the kernel presents it. *)
Definition machine_caches : list cache_entry :=
  [mk_entry 1 DCACHE 64 12 48; mk_entry 1 ICACHE 64 8 32;
   mk_entry 2 UCACHE 1024 8 512; mk_entry 3 UCACHE 8192 16 8192].

Definition cache_files (i : Z) (e : cache_entry) : list (string * string) :=
  [(cache_path i +:+ "/level", dec (e_level e) +:+ nl);
   (cache_path i +:+ "/number_of_sets", dec (e_sets e) +:+ nl);
   (cache_path i +:+ "/size", dec (e_kib e) +:+ "K" +:+ nl);
   (cache_path i +:+ "/type", type_name (e_type e) +:+ nl);
   (cache_path i +:+ "/ways_of_associativity", dec (e_assos e) +:+ nl)].

Definition machine_cpuinfo : string :=
  "processor" +:+ tb +:+ ": 0" +:+ nl +:+
  "vendor_id" +:+ tb +:+ ": GenuineIntel" +:+ nl +:+
  "core id" +:+ tb +:+ tb +:+ ": 0" +:+ nl +:+
  cores_line 4 +:+
  "flags" +:+ tb +:+ tb +:+
  ": fpu vme de pse tsc msr pae mce cx8 apic sep mtrr pge mca cmov pat pse36 clflush" +:+ nl +:+
  address_line 39 48.

Definition machine_files : list (string * string) :=
  [("/proc/cpuinfo"%string, machine_cpuinfo);
   (thp_path, thp_line "always " " never" THP_MADVISE +:+ nl);
   (line_path, "64" +:+ nl)] ++
  imap (λ i c, (core_path (Z.of_nat i), dec c +:+ nl)) core_map ++
  concat (imap (λ i e, cache_files (Z.of_nat i) e) machine_caches).

Definition machine_sys : system :=
  mk_system
    (λ path, snd <$> find (λ f, bool_decide (f.1 = path)) machine_files)
    (λ path, bool_decide (path ∈ [cache_path 0; cache_path 1; cache_path 2; cache_path 3]))
    (λ _, true) 8 4096 "5.15.0" "/home".

Lemma machine_number path w suf :
  files machine_sys path = Some (dec w +:+ suf +:+ nl) → holds_number machine_sys path w suf.
Proof. intros H. by exists EmptyString. Qed.

Lemma machine_cache_dir i e :
  0 ≤ i < 4 → machine_caches !! Z.to_nat i = Some e →
  is_dir machine_sys (cache_path i) = true ∧ cache_dir machine_sys (cache_path i) e ∧ supported e.
Proof.
  intros Hi He. assert (i = 0 ∨ i = 1 ∨ i = 2 ∨ i = 3) as [->|[->|[->| ->]]] by lia;
    injection He as <-; (split; [by vm_compute|]; split;
    [split; try (apply machine_number; by vm_compute); by exists EmptyString; vm_compute
    |split; [cbn; set_solver|cbn; lia]]).
Qed.

Lemma machine_describes : describes machine_sys false machine_caches machine_values.
Proof.
  split; try done.
  - intros i c Hi. change (v_phys_cores machine_values) with core_map in Hi.
    assert (i < 8)%nat as Hlt by (apply (lookup_lt_Some _ _ _ Hi)).
    do 8 (destruct i as [|i];
      [injection Hi as <-; split; [lia|]; apply machine_number; by vm_compute|]). lia.
  - exists machine_cpuinfo. split_and!; by vm_compute.
  - split; [done|]. exists "always ", " never", EmptyString. split_and!; try done; vm_compute; lia.
  - split; [done|]. apply machine_number. by vm_compute.
  - split; [|by vm_compute]. intros j e Hj.
    assert (j < 4)%nat as Hlt by (apply (lookup_lt_Some _ _ _ Hj)).
    change (0 + j)%nat with j. apply machine_cache_dir; [lia|]. by rewrite Nat2Z.id.
Qed.

Lemma create_defs_correct_witness :
  ∃ text, create_defs machine_sys false 5 (Some "info.h"%string) = Ret ("info.h"%string, text) ∧
    int_macro "VM_NBITS" text = Some 48 ∧ int_macro "PHYS_M_NBITS" text = Some 39 ∧
    core_map_of text = Some [0; 1; 2; 3; 0; 1; 2; 3].
Proof.
  destruct (create_defs_correct machine_sys false machine_caches machine_values machine_describes
    5 "info.h"%string) as (text & E & [_ _ Hc _ _ _ Hv Hp _ _ _ _ _ _ _ _]); [simpl; lia|done|done|done|].
  exists text. split_and!; [exact E|exact Hv|exact Hp|exact Hc].
Defined.
