(* ===== verification/ArgParser.v ===== *)
(** * The argument parser ([lib/util/arg.h], [lib/util/arg.cc])

    Declaration of arguments with their checks, the command line, and the text
    written to the error output.  Variables are bytes of a memory, strings of
    the command line are found by their address.  The conversions of floating
    point numbers ([strtof], [strtod], [%f]) are parameters. *)

From S2P Require Import Prelude CString.

(** ** Data *)

(** The last constructor is a value outside of the enumeration. *)
Inductive types := Int | Str | Float | SetT | Help | Cast (v : Z).

Inductive exit_codes :=
  | SUCCESS_PARSE | SUCCESS_HELP | ERROR_PARSING_CMDLINE | ERROR_BAD_VARIABLE
  | ERROR_BAD_ARGUMENT | ERROR_UNKOWN_TYPE | ERROR_DUPLICATE_ARGUMENT
  | ERROR_DUPLICATE_VARIABLE | ERROR_UNKOWN.

#[export] Instance types_dec : EqDecision types.
Proof. solve_decision. Defined.
#[export] Instance exit_codes_dec : EqDecision exit_codes.
Proof. solve_decision. Defined.

Definition exit_value (c : exit_codes) : Z :=
  match c with
  | SUCCESS_PARSE => 0 | SUCCESS_HELP => 1 | ERROR_PARSING_CMDLINE => 2
  | ERROR_BAD_VARIABLE => 3 | ERROR_BAD_ARGUMENT => 4 | ERROR_UNKOWN_TYPE => 5
  | ERROR_DUPLICATE_ARGUMENT => 6 | ERROR_DUPLICATE_VARIABLE => 7 | ERROR_UNKOWN => 8
  end.

Definition exit_codes_to_string (c : exit_codes) : string :=
  match c with
  | SUCCESS_PARSE => "SUCCESS_PARSE" | SUCCESS_HELP => "SUCCESS_HELP"
  | ERROR_PARSING_CMDLINE => "ERROR_PARSING_CMDLINE"
  | ERROR_BAD_VARIABLE => "ERROR_BAD_VARIABLE" | ERROR_BAD_ARGUMENT => "ERROR_BAD_ARGUMENT"
  | ERROR_UNKOWN_TYPE => "ERROR_UNKOWN_TYPE"
  | ERROR_DUPLICATE_ARGUMENT => "ERROR_DUPLICATE_ARGUMENT"
  | ERROR_DUPLICATE_VARIABLE => "ERROR_DUPLICATE_VARIABLE" | ERROR_UNKOWN => "ERROR_UNKOWN"
  end.

(** Indexing the table with another value is undefined. *)
Definition types_to_string (t : types) : option string :=
  match t with
  | Int => Some "int"%string | Str => Some "string"%string | Float => Some "float"%string
  | SetT => Some "set"%string | Help => Some "help"%string | Cast _ => None
  end.

Record argument_info := mk_ai {
  short_argument : string;
  long_argument : option string;
  help_message : string;
  var_name : string;
  var : Z;
  var_size : Z;
  type : types;
  required : bool;
  argument_found : bool
}.

(** The constructor. *)
Definition new_argument_info (short : string) (long : option string) (req : bool) (t : types)
    (v size : Z) (name help : string) : argument_info :=
  mk_ai short long help name v size t req false.

Definition set_found (ai : argument_info) : argument_info :=
  mk_ai (short_argument ai) (long_argument ai) (help_message ai) (var_name ai) (var ai)
    (var_size ai) (type ai) (required ai) true.

(** The parser, the memory of the variables, the strings by address and the
    error output. *)
Record world := mk_world {
  nreq_remaining : Z;
  arguments : list argument_info;
  mem : gmap Z Z;
  strs : gmap Z string;
  err : string
}.

Definition set_nreq (n : Z) (w : world) : world :=
  mk_world n (arguments w) (mem w) (strs w) (err w).
Definition set_arguments (l : list argument_info) (w : world) : world :=
  mk_world (nreq_remaining w) l (mem w) (strs w) (err w).
Definition set_mem (m : gmap Z Z) (w : world) : world :=
  mk_world (nreq_remaining w) (arguments w) m (strs w) (err w).
Definition add_err (s : string) (w : world) : world :=
  mk_world (nreq_remaining w) (arguments w) (mem w) (strs w) (err w +:+ s).

(** ** Programs: a value, [exit], [abort], or undefined behaviour *)

Inductive run (A : Type) : Type :=
  | Next (a : A) (w : world)
  | Exited (code : Z) (w : world)
  | Aborted (w : world)
  | Wild.
Arguments Next {A} a w.
Arguments Exited {A} code w.
Arguments Aborted {A} w.
Arguments Wild {A}.

Definition P (A : Type) : Type := world → run A.

#[export] Instance P_ret : MRet P := λ A a w, Next a w.
#[export] Instance P_bind : MBind P := λ A B f m w,
  match m w with
  | Next a w => f a w
  | Exited c w => Exited c w
  | Aborted w => Aborted w
  | Wild => Wild
  end.

Definition exit {A} (c : Z) : P A := λ w, Exited c w.
Definition abort {A} : P A := λ w, Aborted w.
Definition get {A} (f : world → A) : P A := λ w, Next (f w) w.
Definition put_w (f : world → world) : P unit := λ w, Next tt (f w).
Definition defined {A} (o : option A) : P A :=
  λ w, match o with Some a => Next a w | None => Wild end.
Definition eprint (s : string) : P unit := put_w (add_err s).

(** ** Memory *)

(** [n] bytes of [v], lowest first, and back. *)
Fixpoint le_bytes (n : nat) (v : Z) : list Z :=
  match n with O => [] | S n => v mod 256 :: le_bytes n (v / 256) end.

Fixpoint le_value (l : list Z) : Z :=
  match l with [] => 0 | b :: l => b + 256 * le_value l end.

Fixpoint load_bytes (m : gmap Z Z) (a : Z) (n : nat) : option (list Z) :=
  match n with
  | O => Some []
  | S n => b ← m !! a; l ← load_bytes m (a + 1) n; Some (b :: l)
  end.

(** A byte that is not mapped makes the access undefined. *)
Fixpoint store_bytes (m : gmap Z Z) (a : Z) (l : list Z) : option (gmap Z Z) :=
  match l with
  | [] => Some m
  | b :: l => _ ← m !! a; store_bytes (<[a := b]> m) (a + 1) l
  end.

Definition load (m : gmap Z Z) (a n : Z) : option Z :=
  le_value <$> load_bytes m a (Z.to_nat n).

(** The value of a signed integer of [n] bytes. *)
Definition signed (n x : Z) : Z := if x <? 2 ^ (8 * n - 1) then x else x - 2 ^ (8 * n).

Definition memcpy (a : Z) (l : list Z) : P unit :=
  m ← get mem; m ← defined (store_bytes m a l); put_w (set_mem m).

Section Printing.
(** The text of [%f] for the bits of a value of 4 or 8 bytes. *)
Context (fmt_f : Z → Z → string).

(** ** Printing *)

Fixpoint spaces (n : nat) : string :=
  match n with O => EmptyString | S n => String (chr 32) (spaces n) end.

(** [%w.ps]. *)
Definition fmt_s (w p : nat) (s : string) : string :=
  let s := String.substring 0 p s in spaces (w - String.length s) +:+ s.

Definition usage_fmt (a b c d e : string) : string :=
  fmt_s 16 20 a +:+ "," +:+ fmt_s 8 8 b +:+ "," +:+ fmt_s 16 16 c +:+ "," +:+
  fmt_s 10 10 d +:+ "," +:+ tb +:+ e.

(** The sizes of the integer types. *)
Definition int_size (n : Z) : bool := (n =? 1) || (n =? 2) || (n =? 4) || (n =? 8).

Definition print_default (ai : argument_info) : P unit :=
  eprint " [Default = ";;
  m ← get mem;
  match type ai with
  | Int =>
      if int_size (var_size ai) then
        x ← defined (load m (var ai) (var_size ai));
        eprint (dec (signed (var_size ai) x))
      else eprint "N/A"
  | Str =>
      p ← defined (load m (var ai) 8);
      if p =? 0 then eprint "N/A"
      else
        l ← get strs;
        s ← defined (l !! p);
        eprint s
  | Float =>
      if (var_size ai =? 4) || (var_size ai =? 8) then
        x ← defined (load m (var ai) (var_size ai));
        eprint (fmt_f (var_size ai) x)
      else eprint "N/A"
  | SetT =>
      if int_size (var_size ai) then
        x ← defined (load m (var ai) (var_size ai));
        eprint (dec (if x =? 0 then 0 else 1))
      else eprint "N/A"
  | Help => eprint "Help"
  | Cast _ =>
      eprint ("Something really weird went wrong that I don't understand" +:+ nl);;
      abort
  end;;
  eprint "]".

Definition print_arg_info (ai : argument_info) : P unit :=
  let full_argument_name :=
    match long_argument ai with
    | Some l => short_argument ai +:+ ", " +:+ l
    | None => short_argument ai
    end in
  t ← defined (types_to_string (type ai));
  eprint (usage_fmt full_argument_name t (var_name ai)
            (if required ai then "True" else "False") (help_message ai));;
  (if required ai then mret tt else print_default ai);;
  eprint nl.
End Printing.

(** ** [argument_checker] *)

Definition check_var (v size : Z) : exit_codes :=
  if (v =? 0) || ((1 ≪ 48) - 1 <? v) then ERROR_BAD_VARIABLE
  else if negb (size =? 1) && negb (size =? 2) && negb (size =? 4) && negb (size =? 8)
  then ERROR_BAD_VARIABLE
  else SUCCESS_PARSE.

Definition check_type (t : types) : exit_codes :=
  match t with Cast _ => ERROR_UNKOWN_TYPE | _ => SUCCESS_PARSE end.

Definition dash : ascii := chr 45.

Fixpoint leading_dashes (s : string) : nat :=
  match s with
  | String c s => if bool_decide (c = dash) then S (leading_dashes s) else O
  | EmptyString => O
  end.

Definition drop_leading_dashes (argument : string) : exit_codes :=
  let n := leading_dashes argument in
  if (n =? 0)%nat || (3 <=? n)%nat || bool_decide (drop_chars n argument = EmptyString)
  then ERROR_BAD_ARGUMENT else SUCCESS_PARSE.

Definition not_letter (c : ascii) : bool :=
  let c := char_val c in (c <? 65) || ((90 <? c) && (c <? 97)) || (122 <? c).
Definition not_number (c : ascii) : bool := let c := char_val c in (c <? 48) || (57 <? c).
Definition invalid_argument_char (c : ascii) : bool :=
  not_letter c && not_number c && negb (bool_decide (c = dash)).

Fixpoint check_argument (last_was_dash : bool) (argument : string) : exit_codes :=
  match argument with
  | EmptyString => SUCCESS_PARSE
  | String c argument =>
      if invalid_argument_char c then ERROR_BAD_ARGUMENT
      else if last_was_dash && bool_decide (c = dash) then ERROR_BAD_ARGUMENT
      else check_argument (bool_decide (c = dash)) argument
  end.

(** [res] when it is an error, and the next check otherwise. *)
Definition and_then (res : exit_codes) (next : exit_codes) : exit_codes :=
  if bool_decide (res = SUCCESS_PARSE) then next else res.

Definition preprocess_argument (short : string) (long : option string) (t : types)
    (v size : Z) : exit_codes :=
  and_then (if bool_decide (t = Help) then SUCCESS_PARSE else check_var v size)
  (and_then (check_type t)
  (and_then (match long with Some l => drop_leading_dashes l | None => SUCCESS_PARSE end)
  (and_then (drop_leading_dashes short)
  (match long with Some l => check_argument false (drop_chars 1 l) | None => SUCCESS_PARSE end)))).

(** ** [argument_parser] *)

Section Commands.
(** The bits of the number read, if any, and the text of [%f]. *)
Context (strtof strtod : string → option Z) (fmt_f : Z → Z → string).

Abbreviation print_arg_info := (print_arg_info fmt_f).

Definition argument_format_print : P unit :=
  eprint (usage_fmt "argument" "type" "variable name" "required" ("help message" +:+ nl)).

Fixpoint print_all (l : list argument_info) : P unit :=
  match l with [] => mret tt | ai :: l => print_arg_info ai;; print_all l end.

Definition usage : P unit :=
  argument_format_print;;
  l ← get arguments;
  print_all l.

Definition exit_missing_error {A} : P A :=
  usage;;
  eprint (nl +:+ "Error missing required argument" +:+ nl +:+ nl);;
  l ← get arguments;
  print_all (filter (λ ai, argument_found ai = false ∧ required ai = true) l);;
  exit (exit_value ERROR_PARSING_CMDLINE).

Definition exit_usage_success {A} : P A := usage;; exit (exit_value SUCCESS_PARSE).

(** [vfprintf] with the conversion [%s]; too few arguments are undefined. *)
Fixpoint vformat (fmt : string) (args : list string) : option string :=
  match fmt with
  | EmptyString => Some EmptyString
  | String c fmt' =>
      match fmt' with
      | String d fmt'' =>
          if bool_decide (c = chr 37) && bool_decide (d = chr 115) then
            match args with
            | [] => None
            | a :: args => s ← vformat fmt'' args; Some (a +:+ s)
            end
          else s ← vformat fmt' args; Some (String c s)
      | EmptyString => Some (String c EmptyString)
      end
  end.

Definition exit_usage_error {A} (error : exit_codes) (fmt : string) (args : list string) : P A :=
  eprint ("Error Processing Arguments: " +:+ exit_codes_to_string error +:+ " ->" +:+ nl +:+ tb);;
  s ← defined (vformat fmt args);
  eprint s;;
  eprint nl;;
  usage;;
  exit (exit_value error).

Definition exit_error {A} (error : exit_codes) (bad_argument : argument_info) : P A :=
  eprint ("Error Processing Arguments: " +:+ exit_codes_to_string error +:+ " ->" +:+ nl +:+ nl);;
  argument_format_print;;
  print_arg_info bad_argument;;
  exit (exit_value error).

(** Whether [name] is the short or the long name of the argument. *)
Definition named (name : string) (ai : argument_info) : bool :=
  strcmp_eq (short_argument ai) name ||
  match long_argument ai with Some l => strcmp_eq l name | None => false end.

(** The position of the argument, or a null pointer. *)
Fixpoint find_ai (cmdline_argument : string) (l : list argument_info) : option nat :=
  match l with
  | [] => None
  | ai :: l => if named cmdline_argument ai then Some O else S <$> find_ai cmdline_argument l
  end.

Definition find_ai_ptr (cmdline_argument : string) : P (option nat) :=
  l ← get arguments; mret (find_ai cmdline_argument l).

Fixpoint verify_unique_in (short : string) (long : option string) (v : Z)
    (l : list argument_info) : exit_codes :=
  match l with
  | [] => SUCCESS_PARSE
  | ai :: l =>
      if var ai =? v then ERROR_DUPLICATE_VARIABLE
      else if strcmp_eq (short_argument ai) short then ERROR_DUPLICATE_ARGUMENT
      else if match long_argument ai with Some l' => strcmp_eq l' short | None => false end
      then ERROR_DUPLICATE_ARGUMENT
      else if match long with Some l' => strcmp_eq (short_argument ai) l' | None => false end
      then ERROR_DUPLICATE_ARGUMENT
      else if match long, long_argument ai with
              | Some l', Some l'' => strcmp_eq l'' l'
              | _, _ => false
              end
      then ERROR_DUPLICATE_ARGUMENT
      else verify_unique_in short long v l
  end.

Definition verify_unique (short : string) (long : option string) (v : Z) : P exit_codes :=
  l ← get arguments; mret (verify_unique_in short long v l).

Definition add_argument (short : string) (long : option string) (req : bool) (t : types)
    (v size : Z) (name help : string) : P unit :=
  let ai := new_argument_info short long req t v size name help in
  let res := preprocess_argument short long t v size in
  (if bool_decide (res = SUCCESS_PARSE) then mret tt else exit_error res ai);;
  res ← verify_unique short long v;
  (if bool_decide (res = SUCCESS_PARSE) then mret tt else exit_error res ai);;
  put_w (λ w, set_nreq (u32 (nreq_remaining w + if req then 1 else 0)) w);;
  put_w (λ w, set_arguments (arguments w ++ [ai]) w).

(** The constructor, with the address of the global [verbose]. *)
Definition argument_parser (verbose : Z) : P unit :=
  put_w (set_nreq 0);;
  put_w (set_arguments []);;
  add_argument "-h" (Some "--help"%string) false Help 0 0 "N/A" "Print Usage";;
  add_argument "-v" (Some "--verbose"%string) false Int verbose 4 "verbose" "Set Verbosity".

(** [ADD_ARG] with five and with six arguments: the address and the size of the
    variable, and its name. *)
Definition ADD_ARG_5 (short : string) (req : bool) (t : types) (v size : Z) (name help : string) :
    P unit :=
  add_argument short None req t v size name help.
Definition ADD_ARG_6 (short long : string) (req : bool) (t : types) (v size : Z)
    (name help : string) : P unit :=
  add_argument short (Some long) req t v size name help.

(** ** The command line *)

(** The value that follows an argument. *)
Definition parse_value (ai : argument_info) (p : Z) : P unit :=
  l ← get strs;
  s ← defined (l !! p);
  match type ai with
  | Int =>
      let '(v, k) := strtol s in
      (if (k =? 0)%nat
       then exit_usage_error ERROR_PARSING_CMDLINE ("Int type had not parseable int value" +:+ nl) []
       else mret tt);;
      (if 8 <? var_size ai then defined None else mret tt);;
      memcpy (var ai) (le_bytes (Z.to_nat (var_size ai)) (u64 v))
  | Str => memcpy (var ai) (le_bytes 8 p)
  | Float =>
      r ← (if var_size ai =? 4 then mret (strtof s)
           else if var_size ai =? 8 then mret (strtod s)
           else exit_usage_error ERROR_PARSING_CMDLINE ("Float type of unknown size" +:+ nl) []);
      match r with
      | None =>
          exit_usage_error ERROR_PARSING_CMDLINE
            ("Float type had not parseable float value" +:+ nl) []
      | Some bits => memcpy (var ai) (le_bytes (Z.to_nat (var_size ai)) bits)
      end
  | _ =>
      eprint ("Something really weird went wrong that I don't understand" +:+ nl);;
      abort
  end.

(** The name of an argument: the argument and whether a value follows. *)
Definition parse_name (p : Z) : P (nat * bool) :=
  l ← get strs;
  s ← defined (l !! p);
  cur ← find_ai_ptr s;
  k ← match cur with
      | None =>
          exit_usage_error ERROR_PARSING_CMDLINE
            ("Error argument " +:+ quote +:+ "%s" +:+ quote +:+ " unknown" +:+ nl) [s]
      | Some k => mret k
      end;
  args ← get arguments;
  ai ← defined (args !! k);
  (if argument_found ai then
     exit_usage_error ERROR_PARSING_CMDLINE
       ("Error argument " +:+ quote +:+ "%s" +:+ quote +:+ " specified twice" +:+ nl) [s]
   else if (var ai =? 0) && negb (bool_decide (type ai = Help)) then
     exit_usage_error ERROR_PARSING_CMDLINE
       ("Error argument " +:+ quote +:+ "%s" +:+ quote +:+ " assosiated with invalid variable" +:+ nl)
       [s]
   else mret tt);;
  put_w (λ w, set_arguments (alter set_found k (arguments w)) w);;
  put_w (λ w, set_nreq (u32 (nreq_remaining w - if required ai then 1 else 0)) w);;
  match type ai with
  | Int | Str | Float => mret (k, true)
  | SetT => memcpy (var ai) [1];; mret (k, false)
  | Help => exit_usage_success
  | Cast _ => exit_usage_error ERROR_PARSING_CMDLINE ("Invalid type detected" +:+ nl) []
  end.

(** The loop over the command line; [cur] is the argument that expects a
    value. *)
Fixpoint parse_loop (cmdline : list Z) (cur : option nat) : P unit :=
  match cmdline with
  | [] =>
      match cur with
      | Some _ =>
          exit_usage_error ERROR_PARSING_CMDLINE
            ("Error argument for " +:+ quote +:+ "%s" +:+ quote +:+ " not provided" +:+ nl) []
      | None => mret tt
      end
  | p :: cmdline =>
      match cur with
      | Some k =>
          args ← get arguments;
          ai ← defined (args !! k);
          parse_value ai p;;
          parse_loop cmdline None
      | None =>
          '(k, expecting) ← parse_name p;
          parse_loop cmdline (if (expecting : bool) then Some k else None)
      end
  end.

(** [cmdline] holds the [argc] pointers, the first for the program. *)
Definition parse_arguments (cmdline : list Z) : P unit :=
  (if (1 <=? length cmdline)%nat then mret tt else exit (-1));;
  parse_loop (drop 1 cmdline) None;;
  n ← get nreq_remaining;
  if negb (n =? 0) then exit_missing_error else mret tt.
End Commands.
