(* ===== verification/ArgParserCorrect.v ===== *)
(** * Correctness of the argument parser

    The invariant of a parser built by declarations, command lines as lists of
    uses of arguments, and what parsing them does to the variables. *)

From S2P Require Import Prelude CString ArgParser.

(** ** Bytes and memory *)

Lemma length_le_bytes n v : length (le_bytes n v) = n.
Proof. revert v. induction n as [|n IH]; intros v; simpl; [done|]. by rewrite IH. Qed.

Lemma le_value_bytes n v : le_value (le_bytes n v) = v mod 2 ^ (8 * Z.of_nat n).
Proof.
  revert v. induction n as [|n IH]; intros v; [by rewrite Z.mod_1_r|].
  cbn [le_bytes le_value]. rewrite IH.
  replace (8 * Z.of_nat (S n)) with (8 + 8 * Z.of_nat n) by lia.
  rewrite Z.pow_add_r by lia. change (2 ^ 8) with 256. by rewrite Z.rem_mul_r by lia.
Qed.

(** The bytes from [a] on that are mapped. *)
Definition mapped (m : gmap Z Z) (a : Z) (n : nat) : Prop :=
  ∀ x, a ≤ x < a + Z.of_nat n → is_Some (m !! x).

Fixpoint write_bytes (m : gmap Z Z) (a : Z) (l : list Z) : gmap Z Z :=
  match l with [] => m | b :: l => write_bytes (<[a := b]> m) (a + 1) l end.

Lemma write_bytes_other l m a x :
  x < a ∨ a + Z.of_nat (length l) ≤ x → write_bytes m a l !! x = m !! x.
Proof.
  revert m a. induction l as [|b l IH]; intros m a Hx; simpl in *; [done|].
  rewrite IH by lia. apply lookup_insert_ne. lia.
Qed.

Lemma write_bytes_mapped l m a x : is_Some (m !! x) → is_Some (write_bytes m a l !! x).
Proof.
  revert m a. induction l as [|b l IH]; intros m a Hx; simpl; [done|].
  apply IH. apply lookup_insert_is_Some'. by right.
Qed.

Lemma store_bytes_mapped l m a :
  mapped m a (length l) → store_bytes m a l = Some (write_bytes m a l).
Proof.
  revert m a. induction l as [|b l IH]; intros m a Hm; [done|]. simpl.
  destruct (Hm a) as [x ->]; [simpl; lia|]. simpl. apply IH.
  intros y Hy. apply lookup_insert_is_Some'. right. apply Hm. simpl. lia.
Qed.

Lemma load_written l m a : load_bytes (write_bytes m a l) a (length l) = Some l.
Proof.
  revert m a. induction l as [|b l IH]; intros m a; [done|]. simpl.
  rewrite write_bytes_other, lookup_insert_eq by lia. simpl. by rewrite IH.
Qed.

Lemma load_bytes_ext m m' a n :
  (∀ x, a ≤ x < a + Z.of_nat n → m' !! x = m !! x) → load_bytes m' a n = load_bytes m a n.
Proof.
  revert a. induction n as [|n IH]; intros a H; [done|]. simpl.
  rewrite H, IH by (intros; try apply H; lia). done.
Qed.

(** ** The arguments of a parser *)

Definition missing (l : list argument_info) : nat :=
  length (filter (λ ai, required ai = true ∧ argument_found ai = false) l).

(** Names are unique, variables are valid, and the counter is the number of
    required arguments not seen. *)
Record args_ok (w : world) : Prop := {
  ok_unique i j ai aj s : arguments w !! i = Some ai → arguments w !! j = Some aj →
    named s ai = true → named s aj = true → i = j;
  ok_type ai : ai ∈ arguments w → check_type (type ai) = SUCCESS_PARSE;
  ok_var ai : ai ∈ arguments w → type ai ≠ Help →
    0 < var ai < 2 ^ 48 ∧ var_size ai ∈ [1; 2; 4; 8];
  ok_count : nreq_remaining w = u32 (Z.of_nat (missing (arguments w)))
}.

Lemma named_set_found s ai : named s (set_found ai) = named s ai.
Proof. done. Qed.

Lemma find_ai_Some s l k :
  find_ai s l = Some k → ∃ ai, l !! k = Some ai ∧ named s ai = true.
Proof.
  revert k. induction l as [|ai l IH]; intros k; simpl; [done|].
  destruct (named s ai) eqn:E; [intros [= <-]; eauto|].
  intros (k' & Hk' & ->)%fmap_Some. by apply IH in Hk'.
Qed.

Lemma find_ai_None s l : find_ai s l = None ↔ ∀ ai, ai ∈ l → named s ai = false.
Proof.
  induction l as [|ai l IH]; cbn [find_ai]; [split; [by intros _ ai ?%not_elem_of_nil|done]|].
  destruct (named s ai) eqn:E.
  - split; [done|]. intros H. rewrite H in E by set_solver. done.
  - rewrite fmap_None, IH. split.
    + intros H ai' [->|Hai]%elem_of_cons; [done|by apply H].
    + intros H ai' Hai. apply H. set_solver.
Qed.

Lemma find_ai_iff w s k :
  args_ok w →
  find_ai s (arguments w) = Some k ↔ ∃ ai, arguments w !! k = Some ai ∧ named s ai = true.
Proof.
  intros Hok. split; [apply find_ai_Some|]. intros (ai & Hk & Hn).
  destruct (find_ai s (arguments w)) as [j|] eqn:E.
  - apply find_ai_Some in E as (aj & Hj & Hnj). f_equal. by apply (ok_unique w Hok j k aj ai s).
  - rewrite (proj1 (find_ai_None _ _) E ai) in Hn; [done|]. by apply list_elem_of_lookup_2 in Hk.
Qed.

(** ** Declarations *)

Lemma and_then_success a b :
  and_then a b = SUCCESS_PARSE → a = SUCCESS_PARSE ∧ b = SUCCESS_PARSE.
Proof. unfold and_then. case_bool_decide; by intros ->. Qed.

Lemma verify_unique_success short long v l :
  verify_unique_in short long v l = SUCCESS_PARSE →
  ∀ ai s, ai ∈ l → named s ai = true →
    strcmp_eq short s || match long with Some x => strcmp_eq x s | None => false end = false.
Proof.
  unfold named, strcmp_eq.
  induction l as [|ai l IH]; simpl; [by intros _ ai s ?%not_elem_of_nil|].
  unfold strcmp_eq. intros H ai' s Hin. destruct (var ai =? v); [done|].
  destruct (bool_decide (short_argument ai = short)) eqn:E1; [done|].
  destruct (match long_argument ai with
    | Some l' => bool_decide (l' = short) | None => false end) eqn:E2; [done|].
  destruct (match long with
    | Some l' => bool_decide (short_argument ai = l') | None => false end) eqn:E3; [done|].
  destruct (match long, long_argument ai with
    | Some l', Some l'' => bool_decide (l'' = l') | _, _ => false end) eqn:E4; [done|].
  apply elem_of_cons in Hin as [->|Hin]; [|by apply IH].
  destruct long as [lo|], (long_argument ai) as [la|];
    repeat match goal with H : bool_decide _ = false |- _ => apply bool_decide_eq_false in H end;
    rewrite ?orb_true_iff, ?orb_false_iff, ?bool_decide_eq_true, ?bool_decide_eq_false;
    naive_solver.
Qed.

Lemma missing_app l1 l2 : missing (l1 ++ l2) = (missing l1 + missing l2)%nat.
Proof. unfold missing. by rewrite filter_app, length_app. Qed.

Lemma missing_one ai :
  missing [ai] = if required ai && negb (argument_found ai) then 1%nat else 0%nat.
Proof. unfold missing. by destruct ai as [???????[] []]. Qed.

Lemma check_var_success v size :
  0 ≤ v → check_var v size = SUCCESS_PARSE → 0 < v < 2 ^ 48 ∧ size ∈ [1; 2; 4; 8].
Proof.
  unfold check_var. intros H0. change ((1 ≪ 48) - 1) with (2 ^ 48 - 1).
  destruct (Z.eqb_spec v 0), (Z.ltb_spec (2 ^ 48 - 1) v); try done. simpl.
  destruct (Z.eqb_spec size 1), (Z.eqb_spec size 2), (Z.eqb_spec size 4), (Z.eqb_spec size 8);
    try done; intros _; (split; [lia|]); subst; set_solver.
Qed.

Lemma add_argument_ok fmt_f short long req t v size name help w w' :
  args_ok w → 0 ≤ v → add_argument fmt_f short long req t v size name help w = Next tt w' →
  args_ok w' ∧ mem w' = mem w ∧ strs w' = strs w ∧
  arguments w' = arguments w ++ [new_argument_info short long req t v size name help].
Proof.
  intros Hok Hv0. unfold add_argument, mbind, P_bind, verify_unique, get, mbind, P_bind.
  set (ai := new_argument_info short long req t v size name help).
  destruct (bool_decide (preprocess_argument short long t v size = SUCCESS_PARSE)) eqn:E1;
    [|by unfold exit_error, mbind, P_bind; repeat case_match].
  simpl. destruct (bool_decide (verify_unique_in short long v (arguments w) = SUCCESS_PARSE)) eqn:E2;
    [|by unfold exit_error, mbind, P_bind; repeat case_match].
  simpl. intros [= <-].
  apply bool_decide_eq_true in E1, E2. unfold preprocess_argument in E1.
  apply and_then_success in E1 as [Hv [Ht _]%and_then_success].
  pose proof (verify_unique_success _ _ _ _ E2) as Hu.
  split_and!; [|done..]. split; simpl.
  - assert (∀ k a s, arguments w !! k = Some a → named s a = true → named s ai = true → False) as Hne.
    { intros k a s Hk Ha Hai. specialize (Hu a s (list_elem_of_lookup_2 _ _ _ Hk) Ha).
      unfold named in Hai. simpl in Hai. by rewrite Hu in Hai. }
    intros i j a b s [Ha|[Hi Ha]]%lookup_app_Some [Hb|[Hj Hb]]%lookup_app_Some Hna Hnb.
    + by apply (ok_unique w Hok i j a b s).
    + apply list_lookup_singleton_Some in Hb as [? <-]. by destruct (Hne i a s).
    + apply list_lookup_singleton_Some in Ha as [? <-]. by destruct (Hne j b s).
    + apply list_lookup_singleton_Some in Ha as [? <-], Hb as [? <-]. lia.
  - intros a [Ha|Ha%list_elem_of_singleton]%elem_of_app; [by apply (ok_type w Hok)|].
    by rewrite Ha.
  - intros a [Ha|Ha%list_elem_of_singleton]%elem_of_app Hh; [by apply (ok_var w Hok)|].
    rewrite Ha in Hh |- *. simpl in *. rewrite bool_decide_false in Hv by done.
    by apply check_var_success.
  - rewrite missing_app, (ok_count w Hok). unfold wrap. rewrite Zplus_mod_idemp_l. f_equal.
    rewrite missing_one. simpl. destruct req; simpl; lia.
Qed.

(** Parsers built by the constructor and declarations. *)
Inductive declared (fmt_f : Z → Z → string) (verbose : Z) : world → Prop :=
  | decl_new w w' : 0 ≤ verbose → argument_parser fmt_f verbose w = Next tt w' →
      declared fmt_f verbose w'
  | decl_add w w' short long req t v size name help :
      declared fmt_f verbose w → 0 ≤ v →
      add_argument fmt_f short long req t v size name help w = Next tt w' →
      declared fmt_f verbose w'.

Lemma no_args_ok w : nreq_remaining w = 0 → arguments w = [] → args_ok w.
Proof.
  intros Hn Ha. split; rewrite ?Ha.
  - intros i j ai aj s Hi. by rewrite lookup_nil in Hi.
  - by intros ai ?%not_elem_of_nil.
  - by intros ai ?%not_elem_of_nil.
  - done.
Qed.

Lemma bind_next {A B} (m : P A) (f : A → P B) w b w' :
  (m ≫= f) w = Next b w' → ∃ a w1, m w = Next a w1 ∧ f a w1 = Next b w'.
Proof. unfold mbind, P_bind. destruct (m w); [eauto|done..]. Qed.

Lemma declared_ok fmt_f verbose w : declared fmt_f verbose w → args_ok w.
Proof.
  induction 1 as [w w' Hv H|w w' short long req t v size name help _ IH Hv H].
  - unfold argument_parser in H.
    apply bind_next in H as ([] & w1 & [= <-] & H). apply bind_next in H as ([] & w2 & [= <-] & H).
    apply bind_next in H as ([] & w3 & H1 & H2).
    apply add_argument_ok in H1 as (Hok & _); [|by apply no_args_ok|done].
    by apply add_argument_ok in H2 as (Hok2 & _).
  - by apply add_argument_ok in H as (Hok & _).
Qed.

(** ** Command lines *)

(** A use of an argument: its position, the pointer to its name, and the
    pointer to the value if it has one. *)
Record use := mk_use { u_arg : nat; u_name : Z; u_value : option Z }.

Definition words_of (u : use) : list Z :=
  u_name u :: match u_value u with Some p => [p] | None => [] end.

Section Uses.
Context (strtof strtod : string → option Z) (fmt_f : Z → Z → string).

Abbreviation parse_loop := (parse_loop strtof strtod fmt_f).
Abbreviation parse_arguments := (parse_arguments strtof strtod fmt_f).

(** The bytes the value of a use writes to the variable. *)
Definition value_bytes (ai : argument_info) (v : option string) (p : Z) : option (list Z) :=
  match type ai, v with
  | Int, Some s =>
      let '(x, k) := strtol s in
      if (k =? 0)%nat then None else Some (le_bytes (Z.to_nat (var_size ai)) (u64 x))
  | Str, Some _ => Some (le_bytes 8 p)
  | Float, Some s =>
      if var_size ai =? 4 then le_bytes 4 <$> strtof s
      else if var_size ai =? 8 then le_bytes 8 <$> strtod s else None
  | SetT, None => Some [1]
  | _, _ => None
  end.

Definition use_bytes (w : world) (u : use) : option (list Z) :=
  ai ← arguments w !! u_arg u;
  match u_value u with
  | Some p => s ← strs w !! p; value_bytes ai (Some s) p
  | None => value_bytes ai None 0
  end.

(** The argument of the use is named, has not been seen, and its variable is
    mapped. *)
Definition use_ok (w : world) (u : use) : Prop :=
  ∃ ai s l, arguments w !! u_arg u = Some ai ∧ strs w !! u_name u = Some s ∧
    named s ai = true ∧ argument_found ai = false ∧ use_bytes w u = Some l ∧
    mapped (mem w) (var ai) (length l).

(** What the use does. *)
Definition apply_use (u : use) (w : world) : world :=
  match arguments w !! u_arg u, use_bytes w u with
  | Some ai, Some l =>
      mk_world (u32 (nreq_remaining w - if required ai then 1 else 0))
        (alter set_found (u_arg u) (arguments w)) (write_bytes (mem w) (var ai) l)
        (strs w) (err w)
  | _, _ => w
  end.

Lemma apply_use_ok u w ai l :
  arguments w !! u_arg u = Some ai → use_bytes w u = Some l →
  apply_use u w =
    mk_world (u32 (nreq_remaining w - if required ai then 1 else 0))
      (alter set_found (u_arg u) (arguments w)) (write_bytes (mem w) (var ai) l) (strs w) (err w).
Proof using Type. unfold apply_use. by intros -> ->. Qed.

Lemma missing_found l k ai :
  l !! k = Some ai → argument_found ai = false →
  Z.of_nat (missing (alter set_found k l)) =
    Z.of_nat (missing l) - (if required ai then 1 else 0).
Proof using Type.
  intros Hk Hf. revert k Hk. induction l as [|a l IH]; intros k Hk; [done|].
  assert (∀ b, missing (b :: l) = (missing [b] + missing l)%nat) as Hcons
    by (intros b; apply (missing_app [b])).
  destruct k as [|k].
  - injection Hk as ->. change (alter set_found 0%nat (ai :: l)) with (set_found ai :: l).
    rewrite !Hcons, !missing_one. simpl. rewrite Hf. destruct (required ai); simpl; lia.
  - change (alter set_found (S k) (a :: l)) with (a :: alter set_found k l).
    change (a :: alter set_found k l) with ([a] ++ alter set_found k l).
    rewrite missing_app, Nat2Z.inj_add, (IH k Hk), Hcons. lia.
Qed.

Lemma apply_use_args u w :
  args_ok w → use_ok w u → args_ok (apply_use u w).
Proof using Type.
  intros Hok (ai & s & l & Hai & _ & _ & Hf & Hl & _). rewrite (apply_use_ok u w ai l Hai Hl).
  assert (∀ k a, alter set_found (u_arg u) (arguments w) !! k = Some a →
    ∃ a', arguments w !! k = Some a' ∧ (a = a' ∨ a = set_found a')) as Hold.
  { intros k a. rewrite list_lookup_alter. case_decide; [|by eauto].
    intros (a' & Ha' & ->)%fmap_Some. subst. eauto. }
  assert (∀ a, a ∈ alter set_found (u_arg u) (arguments w) →
    ∃ a', a' ∈ arguments w ∧ (a = a' ∨ a = set_found a')) as Hin.
  { intros a [k Hk]%list_elem_of_lookup. apply Hold in Hk as (a' & Hk & Ha).
    apply list_elem_of_lookup_2 in Hk. eauto. }
  split; simpl.
  - intros i j a b x (a' & Hi & Ha)%Hold (b' & Hj & Hb)%Hold Hna Hnb.
    apply (ok_unique w Hok i j a' b' x); [done..| |]; [by destruct Ha; subst|by destruct Hb; subst].
  - intros a (a' & Ha' & Ha)%Hin. pose proof (ok_type w Hok a' Ha'). by destruct Ha; subst.
  - intros a (a' & Ha' & Ha)%Hin. pose proof (ok_var w Hok a' Ha'). by destruct Ha; subst.
  - rewrite (missing_found _ _ ai), (ok_count w Hok) by done. unfold wrap.
    by rewrite Zminus_mod_idemp_l.
Qed.

Lemma use_type w u ai l :
  arguments w !! u_arg u = Some ai → use_bytes w u = Some l →
  match type ai with
  | Int | Str | Float => is_Some (u_value u)
  | SetT => u_value u = None
  | _ => False
  end.
Proof using Type.
  intros Hai. unfold use_bytes. rewrite Hai. simpl. unfold value_bytes.
  destruct (u_value u) as [p|]; [destruct (strs w !! p); [simpl|done]|];
    destruct (type ai); by eauto.
Qed.

(** One use is consumed by the loop. *)
Lemma parse_name_use w u ai s :
  args_ok w → arguments w !! u_arg u = Some ai → strs w !! u_name u = Some s →
  named s ai = true → argument_found ai = false → type ai ≠ Help →
  parse_name fmt_f (u_name u) w =
    (let w1 := mk_world (u32 (nreq_remaining w - if required ai then 1 else 0))
      (alter set_found (u_arg u) (arguments w)) (mem w) (strs w) (err w) in
     match type ai with
     | Int | Str | Float => Next (u_arg u, true) w1
     | SetT => (memcpy (var ai) [1];; mret (u_arg u, false)) w1
     | _ => Wild
     end).
Proof using Type.
  intros Hok Hai Hs Hn Hf Hh. unfold parse_name, mbind at 1, P_bind at 1, get. rewrite Hs. simpl.
  assert (find_ai s (arguments w) = Some (u_arg u)) as Hfind by (apply find_ai_iff; eauto).
  unfold mbind, P_bind. simpl. rewrite Hfind. simpl. rewrite Hai. simpl. rewrite Hf.
  pose proof (list_elem_of_lookup_2 _ _ _ Hai) as Hin.
  destruct (ok_var w Hok ai Hin Hh) as [Hv _].
  rewrite (proj2 (Z.eqb_neq (var ai) 0)) by lia. simpl.
  pose proof (ok_type w Hok ai Hin). by destruct (type ai).
Qed.

Lemma memcpy_mapped a l w :
  mapped (mem w) a (length l) →
  memcpy a l w = Next tt (set_mem (write_bytes (mem w) a l) w).
Proof using Type.
  intros Hm. unfold memcpy, mbind, P_bind, get, put_w. simpl.
  by rewrite store_bytes_mapped.
Qed.

(** The value of a use, in a state that has the same strings. *)
Lemma parse_value_use w w1 u p ai l :
  args_ok w → arguments w !! u_arg u = Some ai → u_value u = Some p →
  use_bytes w u = Some l → mapped (mem w1) (var ai) (length l) → strs w1 = strs w →
  type ai ≠ Help →
  parse_value strtof strtod fmt_f (set_found ai) p w1 =
    Next tt (set_mem (write_bytes (mem w1) (var ai) l) w1).
Proof using Type.
  intros Hok Hai Hp Hl Hm Hs Hh. unfold use_bytes in Hl. rewrite Hai in Hl. simpl in Hl.
  rewrite Hp in Hl. unfold parse_value, mbind at 1, P_bind at 1, get. rewrite Hs.
  destruct (strs w !! p) as [s|]; [|done]. simpl in Hl. unfold value_bytes in Hl.
  unfold mbind at 1, P_bind at 1. simpl.
  destruct (ok_var w Hok ai (list_elem_of_lookup_2 _ _ _ Hai) Hh) as [_ Hsz].
  destruct (type ai).
  - destruct (strtol s) as [x k]. destruct (k =? 0)%nat; [done|]. injection Hl as <-.
    assert (8 <? var_size ai = false) as E by (apply Z.ltb_ge; set_solver by lia).
    unfold mbind, P_bind. simpl. rewrite E. simpl. by apply memcpy_mapped.
  - injection Hl as <-. by apply memcpy_mapped.
  - unfold mbind at 1, P_bind at 1.
    destruct (Z.eqb_spec (var_size ai) 4) as [E|E].
    + simpl. destruct (strtof s) as [x|]; [|done]. injection Hl as <-. rewrite E.
      by apply memcpy_mapped.
    + destruct (Z.eqb_spec (var_size ai) 8) as [E'|E']; [|done]. simpl.
      destruct (strtod s) as [x|]; [|done]. injection Hl as <-. rewrite E'.
      by apply memcpy_mapped.
  - done.
  - done.
  - done.
Qed.

Lemma parse_use w u rest :
  args_ok w → use_ok w u →
  parse_loop (words_of u ++ rest) None w = parse_loop rest None (apply_use u w).
Proof using Type.
  intros Hok (ai & s & l & Hai & Hs & Hn & Hf & Hl & Hm).
  pose proof (use_type w u ai l Hai Hl) as Ht. rewrite (apply_use_ok u w ai l Hai Hl).
  assert (type ai ≠ Help) as Hh by (by intros E; rewrite E in Ht).
  pose proof (parse_name_use w u ai s Hok Hai Hs Hn Hf Hh) as Hname. cbv zeta in Hname.
  set (w1 := mk_world _ _ (mem w) _ _) in Hname. unfold words_of.
  destruct (u_value u) as [p|] eqn:Hp; cbn [app].
  - assert (parse_name fmt_f (u_name u) w = Next (u_arg u, true) w1) as E.
    { rewrite Hname. destruct (type ai); done. }
    cbn [parse_loop ArgParser.parse_loop]. unfold mbind at 1, P_bind at 1. rewrite E.
    cbn [ArgParser.parse_loop]. unfold mbind at 1, P_bind at 1, get. simpl arguments.
    unfold mbind at 1, P_bind at 1, defined.
    rewrite list_lookup_alter, decide_True, Hai by done. cbn [fmap option_fmap option_map].
    unfold mbind at 1, P_bind at 1.
    by rewrite (parse_value_use w w1 u p ai l).
  - assert (type ai = SetT) as Hty.
    { destruct (type ai); try done; by destruct Ht. }
    assert (l = [1]) as ->.
    { unfold use_bytes in Hl. rewrite Hai, Hp in Hl. simpl in Hl. unfold value_bytes in Hl.
      rewrite Hty in Hl. by injection Hl. }
    rewrite Hty in Hname. cbn [ArgParser.parse_loop]. unfold mbind at 1, P_bind at 1.
    rewrite Hname. unfold mbind at 1, P_bind at 1. by rewrite memcpy_mapped.
Qed.

(** ** A whole command line *)

Definition apply_uses (us : list use) (w : world) : world := foldl (λ w u, apply_use u w) w us.

(** The uses are of different arguments. *)
Definition uses_ok (w : world) (us : list use) : Prop :=
  NoDup (u_arg <$> us) ∧ ∀ u, u ∈ us → use_ok w u.

Lemma use_bytes_after w u u' :
  use_ok w u → use_bytes (apply_use u w) u' = use_bytes w u'.
Proof using Type.
  intros (ai & s & l & Hai & _ & _ & _ & Hl & _). rewrite (apply_use_ok u w ai l Hai Hl).
  unfold use_bytes. simpl. rewrite list_lookup_alter. case_decide as E; [|done].
  rewrite <-E, Hai. simpl. destruct (u_value u'); done.
Qed.

Lemma use_ok_after w u u' :
  use_ok w u → use_ok w u' → u_arg u ≠ u_arg u' → use_ok (apply_use u w) u'.
Proof using Type.
  intros Hu (ai & s & l & Hai & Hs & Hn & Hf & Hl & Hm) Hne.
  exists ai, s, l. rewrite use_bytes_after by done.
  destruct Hu as (ai' & s' & l' & Hai' & _ & _ & _ & Hl' & _).
  rewrite (apply_use_ok u w ai' l' Hai' Hl'). simpl.
  rewrite list_lookup_alter, decide_False by done. split_and!; try done.
  intros x Hx. by apply write_bytes_mapped, Hm.
Qed.

Lemma uses_ok_cons w u us :
  uses_ok w (u :: us) → use_ok w u ∧ uses_ok (apply_use u w) us.
Proof using Type.
  intros [Hnd Hus]. rewrite fmap_cons in Hnd. apply NoDup_cons in Hnd as [Hn Hnd].
  assert (use_ok w u) as Hu by (apply Hus; set_solver). split; [done|]. split; [done|].
  intros u' Hu'. apply use_ok_after; [done|apply Hus; set_solver|].
  intros E. apply Hn. rewrite E. by apply list_elem_of_fmap_2.
Qed.

Lemma parse_uses w us rest :
  args_ok w → uses_ok w us →
  parse_loop (concat (words_of <$> us) ++ rest) None w = parse_loop rest None (apply_uses us w) ∧
  args_ok (apply_uses us w).
Proof using Type.
  revert w. induction us as [|u us IH]; intros w Hok Hus; [done|].
  apply uses_ok_cons in Hus as [Hu Hus].
  rewrite fmap_cons. cbn [concat]. rewrite <-app_assoc, parse_use by done.
  apply IH; [by apply apply_use_args|done].
Qed.

(** The state after the uses: the same strings and output, and the arguments
    with those used marked. *)
Lemma apply_uses_args w us :
  uses_ok w us →
  strs (apply_uses us w) = strs w ∧ err (apply_uses us w) = err w ∧
  ∀ k, arguments (apply_uses us w) !! k =
    (if decide (k ∈ u_arg <$> us) then set_found <$> arguments w !! k else arguments w !! k).
Proof using Type.
  revert w. induction us as [|u us IH]; intros w Hus.
  { split_and!; [done..|]. intros k. by rewrite decide_False by apply not_elem_of_nil. }
  pose proof Hus as [Hnd _]. rewrite fmap_cons in Hnd. apply NoDup_cons in Hnd as [Hn _].
  apply uses_ok_cons in Hus as [Hu Hus]. destruct (IH _ Hus) as (E1 & E2 & E3).
  destruct Hu as (ai & s & l & Hai & _ & _ & _ & Hl & _).
  unfold apply_uses in *. cbn [foldl]. rewrite (apply_use_ok u w ai l Hai Hl) in *.
  split_and!; [done..|]. intros k. rewrite E3. cbn [arguments]. rewrite list_lookup_alter.
  rewrite fmap_cons. destruct (decide (u_arg u = k)) as [<-|Hk].
  - rewrite decide_False, decide_True by set_solver. done.
  - destruct (decide (k ∈ u_arg <$> us)); [rewrite decide_True by set_solver; done|].
    rewrite decide_False by set_solver. done.
Qed.

(** The variables of different uses do not overlap. *)
Definition apart (w : world) (us : list use) : Prop :=
  ∀ u u' ai ai' l l', u ∈ us → u' ∈ us → u_arg u ≠ u_arg u' →
    arguments w !! u_arg u = Some ai → arguments w !! u_arg u' = Some ai' →
    use_bytes w u = Some l → use_bytes w u' = Some l' →
    var ai + Z.of_nat (length l) ≤ var ai' ∨ var ai' + Z.of_nat (length l') ≤ var ai.

(** The address is in the variable of the use. *)
Definition covers (w : world) (u : use) (x : Z) : Prop :=
  ∃ ai l, arguments w !! u_arg u = Some ai ∧ use_bytes w u = Some l ∧
    var ai ≤ x < var ai + Z.of_nat (length l).

Lemma covers_after w u u' x : use_ok w u → covers (apply_use u w) u' x ↔ covers w u' x.
Proof using Type.
  intros Hu. unfold covers. rewrite use_bytes_after by done.
  destruct Hu as (ai & s & l & Hai & _ & _ & _ & Hl & _). rewrite (apply_use_ok u w ai l Hai Hl).
  cbn [arguments]. rewrite list_lookup_alter. case_decide as E; [|done]. rewrite <-E, Hai. simpl.
  split; intros (a & l' & [= <-] & Hl' & Hx); by eexists _, l'.
Qed.

Lemma apply_uses_other w us x :
  uses_ok w us → (∀ u, u ∈ us → ¬ covers w u x) → mem (apply_uses us w) !! x = mem w !! x.
Proof using Type.
  clear fmt_f. revert w. induction us as [|u us IH]; intros w Hus Hx; [done|].
  apply uses_ok_cons in Hus as [Hu Hus]. unfold apply_uses in *. cbn [foldl]. rewrite IH; [|done|].
  - assert (¬ covers w u x) as Hn by (apply Hx; set_solver).
    destruct Hu as (ai & s & l & Hai & _ & _ & _ & Hl & _). rewrite (apply_use_ok u w ai l Hai Hl).
    cbn [mem]. apply write_bytes_other.
    destruct (Z.lt_ge_cases x (var ai)); [by left|right].
    destruct (Z.lt_ge_cases x (var ai + Z.of_nat (length l))); [|done].
    destruct Hn. by exists ai, l.
  - intros u' Hu'. rewrite covers_after by done. apply Hx. set_solver.
Qed.

Lemma apart_after w u us : use_ok w u → apart w (u :: us) → apart (apply_use u w) us.
Proof using Type.
  clear fmt_f. intros Hu Hap v v' a a' l l' Hv Hv' Hne Ha Ha' Hl Hl'.
  rewrite use_bytes_after in Hl, Hl' by done.
  assert (∀ z b, arguments (apply_use u w) !! z = Some b →
    ∃ b', arguments w !! z = Some b' ∧ var b = var b') as Hold.
  { intros z b. destruct Hu as (ai & s & l0 & Hai & _ & _ & _ & Hl0 & _).
    rewrite (apply_use_ok u w ai l0 Hai Hl0). cbn [arguments]. rewrite list_lookup_alter.
    case_decide; [|by eauto]. intros (b' & Hb' & ->)%fmap_Some. subst. eauto. }
  apply Hold in Ha as (b & Hb & ->), Ha' as (b' & Hb' & ->).
  apply (Hap v v' b b' l l'); [set_solver|set_solver|done..].
Qed.

(** Every variable used holds the bytes of its value. *)
Lemma apply_uses_set w us u ai l :
  uses_ok w us → apart w us → u ∈ us → arguments w !! u_arg u = Some ai →
  use_bytes w u = Some l → load_bytes (mem (apply_uses us w)) (var ai) (length l) = Some l.
Proof using Type.
  clear fmt_f. revert w ai. induction us as [|v us IH]; intros w ai Hus Hap Hu Hai Hl;
    [by apply not_elem_of_nil in Hu|].
  pose proof Hus as [Hnd _]. rewrite fmap_cons in Hnd. apply NoDup_cons in Hnd as [Hn _].
  pose proof (uses_ok_cons _ _ _ Hus) as [Hv Hus']. unfold apply_uses in *. cbn [foldl].
  apply elem_of_cons in Hu as [->|Hin].
  - rewrite (load_bytes_ext (write_bytes (mem w) (var ai) l)); [apply load_written|].
    intros x Hx. change (foldl _ _ us) with (apply_uses us (apply_use v w)).
    rewrite apply_uses_other; [by rewrite (apply_use_ok v w ai l Hai Hl)|done|].
    intros u' Hu'. rewrite covers_after by done. intros (ai' & l' & Hai' & Hl' & Hx').
    assert (u_arg v ≠ u_arg u') as Hd.
    { intros E. apply Hn. rewrite E. by apply list_elem_of_fmap_2. }
    destruct (Hap v u' ai ai' l l'); [set_solver..|done|done|done|done|done|lia|lia].
  - assert (∃ ai', arguments (apply_use v w) !! u_arg u = Some ai' ∧ var ai' = var ai)
      as (ai' & Hai' & Hvar).
    { destruct Hv as (a & s & l0 & Ha & _ & _ & _ & Hl0 & _).
      rewrite (apply_use_ok v w a l0 Ha Hl0). cbn [arguments]. rewrite list_lookup_alter, Hai.
      case_decide as E; [rewrite E, Hai; by exists (set_found ai)|by exists ai]. }
    rewrite <-Hvar. apply IH; try done; [by apply apart_after|by rewrite use_bytes_after].
Qed.
End Uses.
