(* ===== verification/ArgParserTheorems.v ===== *)
(** * Theorems about the argument parser

    Names are unique in every parser that can be built, a command line made of
    uses sets the variables to its values, and every other command line is
    rejected with the right status, except one whose last value is missing. *)

From S2P Require Import Prelude CString ArgParser ArgParserCorrect.

(** ** Printing *)

(** The program only adds to the error output. *)
Definition prints (m : P unit) (w : world) : Prop := ∃ t, m w = Next tt (add_err t w).

Lemma add_err_app s t w : add_err t (add_err s w) = add_err (s +:+ t) w.
Proof. destruct w. unfold add_err. simpl. by rewrite append_assoc. Qed.

Lemma prints_eprint s w : prints (eprint s) w.
Proof. by exists s. Qed.

Lemma prints_ret w : prints (mret tt) w.
Proof.
  exists EmptyString. unfold mret, P_ret, add_err. rewrite app_nil_string. by destruct w.
Qed.

Lemma prints_seq m n w : prints m w → (∀ t, prints n (add_err t w)) → prints (m;; n) w.
Proof.
  intros [t Ht] Hn. destruct (Hn t) as [t' Ht']. exists (t +:+ t').
  unfold mbind, P_bind. by rewrite Ht, Ht', add_err_app.
Qed.

Lemma prints_get {A} (f : world → A) (g : A → P unit) w :
  prints (g (f w)) w → prints (a ← get f; g a) w.
Proof. done. Qed.

Lemma prints_defined {A} (o : option A) a (g : A → P unit) w :
  o = Some a → prints (g a) w → prints (a ← defined o; g a) w.
Proof. intros ->. done. Qed.

Create HintDb prints discriminated.
#[export] Hint Resolve prints_eprint prints_ret : prints.

(** The default value of the argument can be shown. *)
Definition printable (m : gmap Z Z) (l : gmap Z string) (ai : argument_info) : Prop :=
  match type ai with
  | Int | SetT | Float => mapped m (var ai) (Z.to_nat (var_size ai))
  | Str => ∃ p, load m (var ai) 8 = Some p ∧ (p = 0 ∨ is_Some (l !! p))
  | Help => True
  | Cast _ => False
  end.

Definition can_print (w : world) : Prop :=
  ∀ ai, ai ∈ arguments w → printable (mem w) (strs w) ai.

Lemma load_mapped m a n : mapped m a (Z.to_nat n) → is_Some (load m a n).
Proof.
  unfold load. intros H. apply fmap_is_Some.
  assert (∀ k b, mapped m b k → is_Some (load_bytes m b k)) as Hl; [|by apply Hl].
  intros k. induction k as [|k IH]; intros b Hb; simpl; [done|].
  destruct (Hb b) as [x ->]; [lia|]. simpl.
  destruct (IH (b + 1)) as [y ->]; [|done]. intros z Hz. apply Hb. lia.
Qed.

Lemma mapped_check m a n :
  forallb (λ x, bool_decide (is_Some (m !! x))) (seqZ a (Z.of_nat n)) = true → mapped m a n.
Proof.
  intros H x Hx. apply (bool_decide_unpack (is_Some (m !! x))).
  apply Is_true_true. by apply (range_forallb _ _ _ H).
Qed.

(** The decision procedure for [can_print]. *)
Definition printable_b (m : gmap Z Z) (l : gmap Z string) (ai : argument_info) : bool :=
  match type ai with
  | Int | SetT | Float =>
      forallb (λ x, bool_decide (is_Some (m !! x)))
        (seqZ (var ai) (Z.of_nat (Z.to_nat (var_size ai))))
  | Str =>
      match load m (var ai) 8 with
      | Some p => (p =? 0) || bool_decide (is_Some (l !! p))
      | None => false
      end
  | Help => true
  | Cast _ => false
  end.

Lemma can_print_check w :
  forallb (printable_b (mem w) (strs w)) (arguments w) = true → can_print w.
Proof.
  rewrite forallb_forall. intros H ai Hai%list_elem_of_In. specialize (H ai Hai).
  unfold printable_b in H. unfold printable. destruct (type ai); try by apply mapped_check.
  - destruct (load (mem w) (var ai) 8) as [p|]; [|done]. exists p. split; [done|].
    apply orb_true_iff in H as [H|H]; [left; by apply Z.eqb_eq|right; by apply bool_decide_eq_true in H].
  - done.
  - done.
Qed.

Section Printing.
Context (fmt_f : Z → Z → string).

Lemma prints_default ai w :
  printable (mem w) (strs w) ai → prints (print_default fmt_f ai) w.
Proof.
  intros Hp. unfold print_default. apply prints_seq; [auto with prints|]. intros t.
  apply prints_get. apply prints_seq; [|auto with prints]. simpl mem. unfold printable in Hp.
  destruct (type ai).
  - destruct (int_size (var_size ai)); [|auto with prints].
    destruct (load_mapped _ _ _ Hp) as [x Hx]. eapply prints_defined; [done|auto with prints].
  - destruct Hp as (p & Hl & Hp). eapply prints_defined; [done|].
    destruct (Z.eqb_spec p 0); [auto with prints|]. destruct Hp as [|[s Hs]]; [done|].
    apply prints_get. eapply prints_defined; [done|auto with prints].
  - destruct (_ || _); [|auto with prints].
    destruct (load_mapped _ _ _ Hp) as [x Hx]. eapply prints_defined; [done|auto with prints].
  - destruct (int_size (var_size ai)); [|auto with prints].
    destruct (load_mapped _ _ _ Hp) as [x Hx]. eapply prints_defined; [done|auto with prints].
  - auto with prints.
  - done.
Qed.

Lemma prints_arg_info ai w :
  printable (mem w) (strs w) ai → prints (print_arg_info fmt_f ai) w.
Proof.
  intros Hp. unfold print_arg_info.
  assert (is_Some (types_to_string (type ai))) as [t Ht].
  { unfold printable in Hp. by destruct (type ai). }
  eapply prints_defined; [done|]. apply prints_seq; [auto with prints|]. intros t1.
  apply prints_seq; [|auto with prints].
  destruct (required ai); [auto with prints|]. by apply prints_default.
Qed.

Lemma prints_all l w :
  (∀ ai, ai ∈ l → printable (mem w) (strs w) ai) → prints (print_all fmt_f l) w.
Proof.
  revert w. induction l as [|ai l IH]; intros w Hl; cbn [print_all]; [auto with prints|].
  apply prints_seq; [apply prints_arg_info, Hl; set_solver|]. intros t. apply IH.
  intros ai' Hai. apply (Hl ai'). set_solver.
Qed.

Lemma prints_usage w : can_print w → prints (usage fmt_f) w.
Proof.
  intros Hp. unfold usage, argument_format_print. apply prints_seq; [auto with prints|].
  intros t. apply prints_get. by apply prints_all.
Qed.

(** The exits end with their status, after printing. *)
Lemma exits_usage_error {A} error fmt args s w :
  can_print w → vformat fmt args = Some s →
  ∃ t, exit_usage_error fmt_f (A := A) error fmt args w = Exited (exit_value error) (add_err t w).
Proof.
  intros Hp Hs.
  set (m := eprint ("Error Processing Arguments: " +:+ exit_codes_to_string error +:+ " ->" +:+ nl
    +:+ tb);; eprint s;; eprint nl;; usage fmt_f).
  assert (prints m w) as [t Ht].
  { apply prints_seq; [auto with prints|]. intros t1. apply prints_seq; [auto with prints|].
    intros t2. apply prints_seq; [auto with prints|]. intros t3. by apply prints_usage. }
  exists t. unfold m, exit_usage_error, mbind, P_bind in *. simpl in *. rewrite Hs. simpl.
  unfold mbind, P_bind in *. simpl in *.
  destruct (usage fmt_f _); by simplify_eq/=.
Qed.

Lemma exits_usage_success {A} w :
  can_print w → ∃ t, exit_usage_success fmt_f (A := A) w = Exited 0 (add_err t w).
Proof.
  intros [t Ht]%prints_usage. exists t. unfold exit_usage_success, mbind, P_bind. by rewrite Ht.
Qed.

Lemma exits_missing_error {A} w :
  can_print w → ∃ t, exit_missing_error fmt_f (A := A) w = Exited 2 (add_err t w).
Proof.
  intros Hp. unfold exit_missing_error.
  destruct (prints_usage w Hp) as [t Ht]. unfold mbind at 1, P_bind at 1. rewrite Ht.
  unfold mbind at 1, P_bind at 1, eprint, put_w. rewrite add_err_app.
  unfold mbind at 1, P_bind at 1, get. set (w1 := add_err _ w).
  destruct (prints_all (filter (λ ai, argument_found ai = false ∧ required ai = true)
    (arguments w1)) w1) as [t2 Ht2].
  { intros ai [_ Hai]%list_elem_of_filter. by apply Hp. }
  unfold mbind, P_bind. rewrite Ht2. unfold exit, w1. rewrite add_err_app. eauto.
Qed.
End Printing.

Section Claims.
Context (strtof strtod : string → option Z) (fmt_f : Z → Z → string).

Abbreviation parse_loop := (parse_loop strtof strtod fmt_f).
Abbreviation parse_arguments := (parse_arguments strtof strtod fmt_f).
Abbreviation uses_ok := (uses_ok strtof strtod).
Abbreviation apply_uses := (apply_uses strtof strtod).
Abbreviation use_bytes := (use_bytes strtof strtod).
Abbreviation apart := (apart strtof strtod).
Abbreviation covers := (covers strtof strtod).


Lemma parse_arguments_uses prog us rest w :
  args_ok w → uses_ok w us →
  parse_arguments (prog :: concat (words_of <$> us) ++ rest) w =
    (parse_loop rest None;;
     n ← get nreq_remaining;
     if negb (n =? 0) then exit_missing_error fmt_f else mret tt) (apply_uses us w).
Proof using Type.
  intros Hok Hus. unfold ArgParser.parse_arguments. unfold mbind at 1, P_bind at 1. simpl.
  unfold mbind at 1, P_bind at 1. rewrite drop_0.
  destruct (parse_uses strtof strtod fmt_f w us rest Hok Hus) as [-> _]. done.
Qed.

(** ** Command lines that are rejected *)

(** What is wrong with the rest of the command line, and the exit status. *)
Inductive rejected (w : world) : list Z → Z → Prop :=
  | rej_unknown p s rest :
      strs w !! p = Some s → (∀ ai, ai ∈ arguments w → named s ai = false) →
      rejected w (p :: rest) 2
  | rej_twice p s k ai rest :
      strs w !! p = Some s → arguments w !! k = Some ai → named s ai = true →
      argument_found ai = true → rejected w (p :: rest) 2
  | rej_help p s k ai rest :
      strs w !! p = Some s → arguments w !! k = Some ai → named s ai = true →
      argument_found ai = false → type ai = Help → rejected w (p :: rest) 0
  | rej_int p s k ai q v rest :
      strs w !! p = Some s → arguments w !! k = Some ai → named s ai = true →
      argument_found ai = false → type ai = Int →
      strs w !! q = Some v → (strtol v).2 = O → rejected w (p :: q :: rest) 2
  | rej_float p s k ai q v rest :
      strs w !! p = Some s → arguments w !! k = Some ai → named s ai = true →
      argument_found ai = false → type ai = Float →
      strs w !! q = Some v →
      (if var_size ai =? 4 then strtof v else if var_size ai =? 8 then strtod v else None) = None →
      rejected w (p :: q :: rest) 2
  | rej_missing : 0 < Z.of_nat (missing (arguments w)) < 2 ^ 32 → rejected w [] 2.

(** The state after the name of an argument. *)
Definition after_name (w : world) (k : nat) (ai : argument_info) : world :=
  mk_world (u32 (nreq_remaining w - if required ai then 1 else 0))
    (alter set_found k (arguments w)) (mem w) (strs w) (err w).

Lemma can_print_after w k ai : can_print w → can_print (after_name w k ai).
Proof using Type.
  clear strtof strtod fmt_f. intros Hp a [j Hj]%list_elem_of_lookup. simpl in Hj.
  rewrite list_lookup_alter in Hj. case_decide; [|apply list_elem_of_lookup_2 in Hj; apply (Hp a Hj)].
  apply fmap_Some in Hj as (a' & Ha' & ->). apply list_elem_of_lookup_2 in Ha'.
  apply (Hp a' Ha').
Qed.

Lemma name_expects w p s k ai :
  args_ok w → strs w !! p = Some s → arguments w !! k = Some ai → named s ai = true →
  argument_found ai = false → type ai ∈ [Int; Str; Float] →
  parse_name fmt_f p w = Next (k, true) (after_name w k ai).
Proof using Type.
  clear strtof strtod. intros Hok Hs Hk Hn Hf Ht.
  assert (type ai ≠ Help) as Hh by (intros E; rewrite E in Ht; set_solver).
  etrans; [apply (parse_name_use fmt_f w (mk_use k p None) ai s Hok Hk Hs Hn Hf Hh)|].
  simpl. rewrite !elem_of_cons in Ht. destruct Ht as [->|[->|[->|[]%not_elem_of_nil]]]; done.
Qed.

Lemma loop_rejected w rest c :
  args_ok w → can_print w → rejected w rest c → rest ≠ [] →
  ∃ w', parse_loop rest None w = Exited c w' ∧ mem w' = mem w.
Proof using Type.
  intros Hok Hp Hrej Hne.
  assert (∀ p rest', parse_loop (p :: rest') None w =
    match parse_name fmt_f p w with
    | Next (k, e) w' => parse_loop rest' (if (e : bool) then Some k else None) w'
    | Exited c w' => Exited c w' | Aborted w' => Aborted w' | Wild => Wild end) as Hloop.
  { intros p rest'. cbn [ArgParser.parse_loop]. unfold mbind, P_bind.
    by destruct (parse_name fmt_f p w) as [[]| | |]. }
  destruct Hrej as [p s rest Hs Hun|p s k ai rest Hs Hk Hn Hf|p s k ai rest Hs Hk Hn Hf Ht
    |p s k ai q v rest Hs Hk Hn Hf Ht Hq Hv|p s k ai q v rest Hs Hk Hn Hf Ht Hq Hv|]; [..|done].
  - rewrite Hloop. unfold parse_name, find_ai_ptr, mbind, P_bind. simpl. rewrite Hs. simpl.
    rewrite (proj2 (find_ai_None s (arguments w)) Hun). simpl.
    edestruct (exits_usage_error fmt_f (A := nat) ERROR_PARSING_CMDLINE) as [t ->];
      [done|done|]. eauto.
  - rewrite Hloop. unfold parse_name, find_ai_ptr, mbind, P_bind. simpl. rewrite Hs. simpl.
    rewrite (proj2 (find_ai_iff w s k Hok)) by eauto. simpl. rewrite Hk. simpl. rewrite Hf.
    edestruct (exits_usage_error fmt_f (A := unit) ERROR_PARSING_CMDLINE) as [t ->];
      [done|done|]. eauto.
  - rewrite Hloop. unfold parse_name, find_ai_ptr, mbind, P_bind. simpl. rewrite Hs. simpl.
    rewrite (proj2 (find_ai_iff w s k Hok)) by eauto. simpl. rewrite Hk. simpl. rewrite Hf, Ht.
    rewrite bool_decide_true, andb_false_r by done. simpl.
    destruct (exits_usage_success fmt_f (A := nat * bool) (after_name w k ai)) as [t E];
      [by apply can_print_after|].
    match goal with |- context [exit_usage_success fmt_f ?x] => change x with (after_name w k ai) end.
    rewrite E. eauto.
  - rewrite Hloop, (name_expects w p s k ai) by (done || (rewrite Ht; set_solver)).
    cbn [ArgParser.parse_loop]. unfold mbind at 1, P_bind at 1, get. simpl arguments.
    unfold mbind at 1, P_bind at 1, defined.
    rewrite list_lookup_alter, decide_True, Hk by done. cbn [fmap option_fmap option_map].
    unfold parse_value, mbind, P_bind. simpl. rewrite Hq. simpl. rewrite Ht.
    destruct (strtol v) as [x n]. simpl in Hv. subst n. simpl.
    edestruct (exits_usage_error fmt_f (A := unit) ERROR_PARSING_CMDLINE) as [t ->];
      [by apply can_print_after|done|]. eauto.
  - rewrite Hloop, (name_expects w p s k ai) by (done || (rewrite Ht; set_solver)).
    cbn [ArgParser.parse_loop]. unfold mbind at 1, P_bind at 1, get. simpl arguments.
    unfold mbind at 1, P_bind at 1, defined.
    rewrite list_lookup_alter, decide_True, Hk by done. cbn [fmap option_fmap option_map].
    unfold parse_value, mbind, P_bind. simpl. rewrite Hq. simpl. rewrite Ht. simpl.
    destruct (var_size ai =? 4); [|destruct (var_size ai =? 8)]; simpl; try rewrite Hv;
      [edestruct (exits_usage_error fmt_f (A := unit) ERROR_PARSING_CMDLINE) as [t ->]
      |edestruct (exits_usage_error fmt_f (A := unit) ERROR_PARSING_CMDLINE) as [t ->]
      |edestruct (exits_usage_error fmt_f (A := option Z) ERROR_PARSING_CMDLINE) as [t ->]];
      by (apply can_print_after || eauto).
Qed.

Lemma all_found_missing l :
  (∀ ai, ai ∈ l → required ai = true → argument_found ai = true) → missing l = O.
Proof using Type.
  clear. intros H. unfold missing. rewrite filter_none; [done|]. intros ai Hai [Hr Hf].
  rewrite (H ai Hai Hr) in Hf. done.
Qed.

Lemma missing_after_uses w us :
  uses_ok w us →
  (∀ k ai, arguments w !! k = Some ai → required ai = true → k ∈ u_arg <$> us) →
  missing (arguments (apply_uses us w)) = O.
Proof using Type.
  intros Hus Hreq. destruct (apply_uses_args _ _ w us Hus) as (_ & _ & Hargs).
  apply all_found_missing. intros ai [k Hk]%list_elem_of_lookup Hr. rewrite Hargs in Hk.
  case_decide as Hin.
  - apply fmap_Some in Hk as (a & _ & ->). done.
  - destruct Hin. by apply (Hreq k ai).
Qed.

Lemma mod_mod_mul z a b : 0 < a → 0 < b → (z mod (a * b)) mod a = z mod a.
Proof using Type.
  clear. intros Ha Hb. rewrite Z.rem_mul_r, (Z.mul_comm a), Z.mod_add by lia. apply Z.mod_mod. lia.
Qed.

(** A number in the range of a variable survives the bytes. *)
Lemma signed_bytes n z :
  n ∈ [1; 2; 4; 8] → - 2 ^ (8 * n - 1) ≤ z < 2 ^ (8 * n - 1) →
  signed n (le_value (le_bytes (Z.to_nat n) (u64 z))) = z.
Proof using Type.
  clear. intros Hn Hz. rewrite le_value_bytes, Z2Nat.id by (set_solver by lia). unfold wrap.
  assert ((z mod 2 ^ 64) mod 2 ^ (8 * n) = z mod 2 ^ (8 * n)) as ->.
  { rewrite !elem_of_cons in Hn. destruct Hn as [->|[->|[->|[->|[]%not_elem_of_nil]]]].
    - change (2 ^ 64) with (2 ^ 8 * 2 ^ 56). by apply mod_mod_mul.
    - change (2 ^ 64) with (2 ^ 16 * 2 ^ 48). by apply mod_mod_mul.
    - change (2 ^ 64) with (2 ^ 32 * 2 ^ 32). by apply mod_mod_mul.
    - apply Z.mod_mod. lia. }
  assert (2 ^ (8 * n) = 2 * 2 ^ (8 * n - 1)) as E.
  { rewrite <-Z.pow_succ_r by (set_solver by lia). f_equal. lia. }
  assert (0 < 2 ^ (8 * n - 1)) by (apply Z.pow_pos_nonneg; set_solver by lia).
  unfold signed. rewrite E. destruct (Z.lt_ge_cases z 0).
  - rewrite <-(Z.mod_add z 1) by lia. rewrite Z.mod_small by lia.
    rewrite (proj2 (Z.ltb_ge _ _)); lia.
  - rewrite Z.mod_small by lia. rewrite (proj2 (Z.ltb_lt _ _)); lia.
Qed.

(** ** Claims *)

(** In every parser that the constructor and successful declarations can
    build, a name on the command line resolves to an argument exactly when it
    is that argument's short or long name; no name belongs to two arguments. *)
Theorem declared_names_resolve verbose w s k :
  declared fmt_f verbose w →
  find_ai s (arguments w) = Some k ↔ ∃ ai, arguments w !! k = Some ai ∧ named s ai = true.
Proof using Type. intros H%declared_ok. by apply find_ai_iff. Qed.

(** C33: a command line that uses declared arguments, each at most once and all
    required ones, with values of their types, is accepted without output: each
    variable used holds the bytes of its value, an integer that fits in its
    variable is read back as the number written, and no other byte changes. *)
Theorem parse_sets_variables verbose prog us w :
  declared fmt_f verbose w → uses_ok w us → apart w us →
  (∀ k ai, arguments w !! k = Some ai → required ai = true → k ∈ u_arg <$> us) →
  ∃ w', parse_arguments (prog :: concat (words_of <$> us)) w = Next tt w' ∧ err w' = err w ∧
    (∀ u ai l, u ∈ us → arguments w !! u_arg u = Some ai → use_bytes w u = Some l →
      load_bytes (mem w') (var ai) (length l) = Some l) ∧
    (∀ u ai p z, u ∈ us → arguments w !! u_arg u = Some ai → type ai = Int →
      u_value u = Some p → strs w !! p = Some (dec z) →
      - 2 ^ (8 * var_size ai - 1) ≤ z < 2 ^ (8 * var_size ai - 1) →
      signed (var_size ai) <$> load (mem w') (var ai) (var_size ai) = Some z) ∧
    ∀ x, (∀ u, u ∈ us → ¬ covers w u x) → mem w' !! x = mem w !! x.
Proof using Type.
  intros Hok%declared_ok Hus Hap Hreq. exists (apply_uses us w).
  destruct (apply_uses_args _ _ w us Hus) as (_ & Herr & _).
  assert (∀ u ai l, u ∈ us → arguments w !! u_arg u = Some ai → use_bytes w u = Some l →
    load_bytes (mem (apply_uses us w)) (var ai) (length l) = Some l) as Hset
    by (intros; by apply (apply_uses_set strtof strtod w us u ai l)).
  split_and!; [|done|done| |by intros; apply apply_uses_other].
  - rewrite <-(app_nil_r (concat _)), parse_arguments_uses by done.
    destruct (parse_uses strtof strtod fmt_f w us [] Hok Hus) as [_ Hok'].
    unfold mbind, P_bind. simpl.
    by rewrite (ok_count _ Hok'), missing_after_uses.
  - intros u ai p z Hu Hai Ht Hp Hs Hz.
    assert (type ai ≠ Help) as Hh by (by rewrite Ht).
    destruct (ok_var w Hok ai (list_elem_of_lookup_2 _ _ _ Hai) Hh) as [_ Hsz].
    assert (- 2 ^ 63 ≤ z < 2 ^ 63) as Hz63.
    { rewrite !elem_of_cons in Hsz. destruct Hsz as [E|[E|[E|[E|[]%not_elem_of_nil]]]];
        rewrite E in Hz; simpl in Hz; lia. }
    pose proof (strtol_dec z EmptyString Hz63 eq_refl) as Hst. rewrite app_nil_string in Hst.
    pose proof (dec_nonempty z) as Hne.
    assert (use_bytes w u = Some (le_bytes (Z.to_nat (var_size ai)) (u64 z))) as Hb.
    { unfold ArgParserCorrect.use_bytes. rewrite Hai, Hp. simpl. rewrite Hs. simpl.
      unfold value_bytes. rewrite Ht, Hst. by rewrite (proj2 (Nat.eqb_neq _ 0)) by lia. }
    pose proof (Hset u ai _ Hu Hai Hb) as Hl. rewrite length_le_bytes in Hl.
    unfold load. rewrite Hl. simpl. f_equal. by apply signed_bytes.
Qed.

(** C34: after uses that are in order, an unknown name, an argument given
    twice, a number that cannot be read or a missing required argument ends
    the program with status 2, and the help argument with status 0; the
    variables keep the values set so far. *)
Theorem parse_rejects verbose prog us w rest c :
  declared fmt_f verbose w → uses_ok w us → can_print (apply_uses us w) →
  rejected (apply_uses us w) rest c →
  ∃ w', parse_arguments (prog :: concat (words_of <$> us) ++ rest) w = Exited c w' ∧
    mem w' = mem (apply_uses us w).
Proof using Type.
  intros Hok%declared_ok Hus Hp Hrej. rewrite parse_arguments_uses by done.
  destruct (parse_uses strtof strtod fmt_f w us [] Hok Hus) as [_ Hok'].
  set (w1 := apply_uses us w) in *. destruct (decide (rest = [])) as [->|Hne].
  - inversion Hrej as [| | | | |Hm]; subst. unfold mbind, P_bind. simpl.
    rewrite (ok_count _ Hok'), wrap_small by (unfold is_word; lia).
    rewrite (proj2 (Z.eqb_neq _ 0)) by lia. simpl.
    destruct (exits_missing_error fmt_f (A := unit) w1 Hp) as [t ->]. eauto.
  - destruct (loop_rejected w1 rest c Hok' Hp Hrej Hne) as (w' & E & Hm). exists w'.
    unfold mbind at 1, P_bind at 1. by rewrite E.
Qed.

(** A command line that ends after the name of an argument with a value is
    undefined behaviour: the message names a string argument that is not
    passed. *)
Theorem missing_value_undefined verbose prog us w p s k ai :
  declared fmt_f verbose w → uses_ok w us →
  strs w !! p = Some s → arguments (apply_uses us w) !! k = Some ai → named s ai = true →
  argument_found ai = false → type ai ∈ [Int; Str; Float] →
  parse_arguments (prog :: concat (words_of <$> us) ++ [p]) w = Wild.
Proof using Type.
  intros Hok%declared_ok Hus Hs Hk Hn Hf Ht. rewrite parse_arguments_uses by done.
  destruct (parse_uses strtof strtod fmt_f w us [] Hok Hus) as [_ Hok'].
  destruct (apply_uses_args _ _ w us Hus) as (Hstr & _ & _).
  set (w1 := apply_uses us w) in *. rewrite <-Hstr in Hs.
  unfold mbind at 1, P_bind at 1. cbn [ArgParser.parse_loop]. unfold mbind at 1, P_bind at 1.
  by rewrite (name_expects w1 p s k ai).
Qed.
End Claims.

(** ** A concrete program *)

(** [-n/--num], a required [int32_t] at 1000, and the flag [-q] at 3000; the
    global [verbose] is at 4000. *)
Definition no_float (s : string) : option Z := None.
Definition no_text (n x : Z) : string := EmptyString.

Definition demo_strs : gmap Z string :=
  list_to_map [(11, "prog"%string); (12, "--num"%string); (13, "-42"%string); (14, "-q"%string);
               (15, "-h"%string); (16, "-x"%string)].

Definition demo_mem : gmap Z Z :=
  list_to_map ((λ x, (x, 0)) <$> seqZ 1000 4 ++ seqZ 3000 1 ++ seqZ 4000 4).

Definition demo_start : world := mk_world 0 [] demo_mem demo_strs EmptyString.

Definition world_of (d : world) (r : run unit) : world :=
  match r with Next _ w => w | _ => d end.

Definition demo_new : world := world_of demo_start (argument_parser no_text 4000 demo_start).
Definition demo_num : world :=
  world_of demo_start
    (add_argument no_text "-n" (Some "--num"%string) true Int 1000 4 "num" "A number" demo_new).
Definition demo_parser : world :=
  world_of demo_start
    (add_argument no_text "-q" None false SetT 3000 1 "quiet" "No output" demo_num).

Lemma demo_declared : declared no_text 4000 demo_parser.
Proof.
  apply (decl_add no_text 4000 demo_num demo_parser "-q" None false SetT 3000 1 "quiet" "No output");
    [|lia|exact (eq_refl (Next tt demo_parser)
      <: add_argument no_text "-q" None false SetT 3000 1 "quiet" "No output" demo_num =
         Next tt demo_parser)].
  apply (decl_add no_text 4000 demo_new demo_num "-n" (Some "--num"%string) true Int 1000 4 "num"
    "A number"); [|lia|exact (eq_refl (Next tt demo_num)
      <: add_argument no_text "-n" (Some "--num"%string) true Int 1000 4 "num" "A number" demo_new =
         Next tt demo_num)].
  apply (decl_new no_text 4000 demo_start); [lia|].
  exact (eq_refl (Next tt demo_new) <: argument_parser no_text 4000 demo_start = Next tt demo_new).
Qed.

(** [prog --num -42 -q]. *)
Definition demo_uses : list use := [mk_use 2 12 (Some 13); mk_use 3 14 None].

Lemma demo_uses_ok : uses_ok no_float no_float demo_parser demo_uses.
Proof.
  split; [apply (bool_decide_unpack _); by vm_compute|].
  intros u. unfold demo_uses. rewrite !elem_of_cons.
  intros [->|[->|[]%not_elem_of_nil]]; do 3 eexists; (split_and!;
    [by vm_compute|by vm_compute|by vm_compute|by vm_compute|by vm_compute|]);
    apply mapped_check; by vm_compute.
Qed.

Lemma fmap_of {A B} (f : A → B) o a : o = Some a → f <$> o = Some (f a).
Proof. by intros ->. Qed.

Lemma demo_apart : apart no_float no_float demo_parser demo_uses.
Proof.
  intros u u' ai ai' l l' Hu Hu' Hne Hai%(fmap_of var) Hai'%(fmap_of var)
    Hl%(fmap_of length) Hl'%(fmap_of length). revert Hai Hai' Hl Hl'.
  generalize (var ai) (var ai') (length l) (length l'). intros v v' n n' Hai Hai' Hl Hl'.
  unfold demo_uses in Hu, Hu'. rewrite !elem_of_cons in Hu, Hu'.
  destruct Hu as [->|[->|[]%not_elem_of_nil]], Hu' as [->|[->|[]%not_elem_of_nil]];
    [by destruct Hne| | |by destruct Hne]; vm_compute in Hai, Hai', Hl, Hl'; simplify_eq; lia.
Qed.

Lemma demo_required k ai :
  arguments demo_parser !! k = Some ai → required ai = true → k ∈ u_arg <$> demo_uses.
Proof.
  intros Hk Hr. assert (k < 4)%nat as Hlt by (by apply lookup_lt_Some in Hk).
  do 4 (destruct k as [|k]; [vm_compute in Hk; simplify_eq/=; set_solver|]). lia.
Qed.

Lemma declared_names_resolve_witness :
  find_ai "--num" (arguments demo_parser) = Some 2%nat ↔
    ∃ ai, arguments demo_parser !! 2%nat = Some ai ∧ named "--num" ai = true.
Proof. apply (declared_names_resolve no_text 4000 demo_parser "--num" 2 demo_declared). Defined.

Lemma parse_sets_variables_witness :
  ∃ w', parse_arguments no_float no_float no_text [11; 12; 13; 14] demo_parser = Next tt w' ∧
    signed 4 <$> load (mem w') 1000 4 = Some (-42).
Proof.
  destruct (parse_sets_variables no_float no_float no_text 4000 11 demo_uses demo_parser
    demo_declared demo_uses_ok demo_apart demo_required) as (w' & Hrun & _ & _ & Hint & _).
  exists w'. split; [exact Hrun|].
  apply (Hint (mk_use 2 12 (Some 13))
    (mk_ai "-n" (Some "--num"%string) "A number" "num" 1000 4 Int true false) 13 (-42));
    [apply elem_of_cons; by left|by vm_compute|done|done|by vm_compute|simpl; lia].
Defined.

Lemma demo_can_print : can_print (apply_uses no_float no_float demo_uses demo_parser).
Proof. apply can_print_check. by vm_compute. Qed.

Lemma parse_rejects_witness :
  ∃ w', parse_arguments no_float no_float no_text [11; 12; 13; 14; 16] demo_parser = Exited 2 w' ∧
    mem w' = mem (apply_uses no_float no_float demo_uses demo_parser).
Proof.
  apply (parse_rejects no_float no_float no_text 4000 11 demo_uses demo_parser [16] 2
    demo_declared demo_uses_ok demo_can_print).
  apply (rej_unknown _ _ _ 16 "-x"); [by vm_compute|].
  apply find_ai_None. by vm_compute.
Defined.

Lemma missing_value_undefined_witness :
  parse_arguments no_float no_float no_text [11; 12] demo_parser = Wild.
Proof.
  apply (missing_value_undefined no_float no_float no_text 4000 11 [] demo_parser 12 "--num" 2
    (mk_ai "-n" (Some "--num"%string) "A number" "num" 1000 4 Int true false) demo_declared);
    [|by vm_compute|by vm_compute|by vm_compute|done|set_solver].
  split; [constructor|]. by intros u ?%not_elem_of_nil.
Defined.
