(* ===== verification/Rseq.v ===== *)
(** * Restartable sequences ([lib/concurrency/rseq/rseq_asm_defs.h] and the
    [asm] statements of [allocator/] and [src/rseq_demo.cc])

    The assembly of every restartable sequence of the program, line by line,
    an assembler that resolves the local labels, and the machine it runs on:
    threads on CPUs that are preempted, migrated and interrupted between any
    two instructions, and the kernel that sends an interrupted sequence to its
    abort handler.  Memory is a map from addresses to 64-bit words; the
    accesses of the sequences are aligned. *)

From Stdlib Require Import String.
From stdpp Require Import strings.
From S2P Require Import Prelude Bits ConstMath Machine SizeClasses Atomics ObjSlab SlabManager ObjectAllocator.
#[local] Open Scope Z_scope.

(** ** Assembly *)

(** The named operands of the [asm] statements. *)
Inductive reg :=
  | r_cpu | r_arr | r_temp_ptr | r_sm | r_slab | r_sm_base | r_offset | r_next_reg
  | r_ret | r_fc_cache | r_idx | r_ptr | r_expected_slab | r_this | r_start_cpu
  | r_temp_av | r_temp_as | r_idx_av.

Scheme Boolean Equality for reg.

(** [disp(base, index, scale)]. *)
Inductive address := Addr (disp : Z) (base : reg) (index : option (reg * Z)).

Inductive value := Imm (i : Z) | Reg (r : reg).

(** The instructions used, source operand first; [L] is what a jump names.
    [Return] stands for the C++ code behind the statement. *)
Inductive instr (L : Type) :=
  | LeaInfo (d : reg)               (* leaq 3b(%rip), d *)
  | MovRseqPtr (s : reg)            (* movq s, %fs:__rseq_abi@tpoff+8 *)
  | MovCpu (d : reg)                (* movl %fs:__rseq_abi@tpoff+4, %k[d] *)
  | CmpCpu (s : reg)                (* cmpl s, %fs:__rseq_abi@tpoff+4 *)
  | Mov (s : value) (d : reg)
  | Load (a : address) (d : reg)    (* movq a, d *)
  | Store (s : reg) (a : address)   (* movq s, a *)
  | Lea (a : address) (d : reg)
  | Add (s : value) (d : reg)
  | AddMem (i : Z) (a : address)
  | SubMem (i : Z) (a : address)
  | Sal (i : Z) (d : reg)
  | Xor (s d : reg)
  | Cmp (s : value) (d : reg)
  | CmpMem (i : Z) (a : address)
  | Test (s : reg)                  (* testq s, s *)
  | Tzcnt (s d : reg)
  | Blsr (s d : reg)
  | Cmovne (s d : reg)
  | CmovneLoad (a : address) (d : reg)
  | Jmp (l : L)
  | Jz (l : L)                      (* jz, je *)
  | Jnz (l : L)                     (* jnz, jne *)
  | Return (v : value).
Arguments LeaInfo {L} d.
Arguments MovRseqPtr {L} s.
Arguments MovCpu {L} d.
Arguments CmpCpu {L} s.
Arguments Mov {L} s d.
Arguments Load {L} a d.
Arguments Store {L} s a.
Arguments Lea {L} a d.
Arguments Add {L} s d.
Arguments AddMem {L} i a.
Arguments SubMem {L} i a.
Arguments Sal {L} i d.
Arguments Xor {L} s d.
Arguments Cmp {L} s d.
Arguments CmpMem {L} i a.
Arguments Test {L} s.
Arguments Tzcnt {L} s d.
Arguments Blsr {L} s d.
Arguments Cmovne {L} s d.
Arguments CmovneLoad {L} a d.
Arguments Jmp {L} l.
Arguments Jz {L} l.
Arguments Jnz {L} l.
Arguments Return {L} v.

(** [N:] and the C++ labels of [asm goto]. *)
Inductive label := Local (n : Z) | Goto (name : string).

#[global] Instance label_eq_dec : EqDecision label.
Proof. solve_decision. Defined.

(** A line of assembly.  [Info] is the descriptor of [RSEQ_INFO_DEF]; [Quad]
    a word of data that holds a label, [Signature] the bytes in front of the
    abort handler. *)
Inductive line :=
  | Label (l : label)
  | Ins (i : instr label)
  | Info (version flags : Z) (start_ip end_ip abort_ip : label)
  | Quad (l : label)
  | Signature (s : Z)
  | PushSection
  | PopSection.

Definition RSEQ_SIGNATURE : Z := 0x53053053.

(** ** The macros of [rseq_asm_defs.h] *)

Definition RSEQ_INFO_DEF : list line :=
  [PushSection; Label (Local 3); Info 0 0 (Local 1) (Local 2) (Local 4); PopSection].

Definition RSEQ_CS_ARR_DEF : list line := [PushSection; Quad (Local 3); PopSection].

Definition RSEQ_PREP_CS_DEF (TEMP_REGISTER : reg) : list line :=
  [Ins (LeaInfo TEMP_REGISTER); Ins (MovRseqPtr TEMP_REGISTER)].

Definition RSEQ_CMP_CUR_VS_START_CPUS : list line := [Ins (CmpCpu r_start_cpu)].

Definition RSEQ_START_ABORT_DEF : list line :=
  [PushSection; Signature 0x53053053; Label (Local 4)].

Definition RSEQ_END_ABORT_DEF : list line := [PopSection].

(** ** The sequences

    Each ends in the [return] of the C++ function around it. *)

Definition at_ (disp : Z) (base : reg) : address := Addr disp base None.

Definition rseq_add_asm : list line :=
  RSEQ_INFO_DEF ++ RSEQ_CS_ARR_DEF ++
  [Label (Local 1)] ++
  RSEQ_PREP_CS_DEF r_cpu ++
  [Ins (MovCpu r_cpu);
   Ins (Sal 7 r_cpu);
   Ins (AddMem 1 (Addr 0 r_arr (Some (r_cpu, 1))));
   Label (Local 2)] ++
  RSEQ_START_ABORT_DEF ++ [Ins (Jmp (Local 1))] ++ RSEQ_END_ABORT_DEF ++
  [Ins (Return (Imm 0))].

Definition try_pop_asm : list line :=
  RSEQ_INFO_DEF ++ RSEQ_CS_ARR_DEF ++
  [Label (Local 1)] ++
  RSEQ_PREP_CS_DEF r_ret ++
  [Ins (MovCpu r_fc_cache);
   Ins (Sal _log_sizeof_slab_manager r_fc_cache);
   Ins (Add (Reg r_sm_base) r_fc_cache);
   Ins (Load (at_ 16 r_fc_cache) r_ret);
   Ins (Test r_ret);
   Ins (Jz (Local 2));
   Ins (Load (Addr 16 r_fc_cache (Some (r_ret, 8))) r_ret);
   Ins (SubMem 1 (at_ 16 r_fc_cache));
   Label (Local 2)] ++
  RSEQ_START_ABORT_DEF ++ [Ins (Jmp (Local 1))] ++ RSEQ_END_ABORT_DEF ++
  [Ins (Return (Reg r_ret))].

Definition try_push_asm : list line :=
  RSEQ_INFO_DEF ++ RSEQ_CS_ARR_DEF ++
  [Label (Local 1)] ++
  RSEQ_PREP_CS_DEF r_fc_cache ++
  [Ins (MovCpu r_fc_cache);
   Ins (Sal _log_sizeof_slab_manager r_fc_cache);
   Ins (Add (Reg r_sm_base) r_fc_cache);
   Ins (Load (at_ 16 r_fc_cache) r_idx);
   Ins (Cmp (Imm cache_size) r_idx);
   Ins (Jz (Goto "no_push"));
   Ins (Store r_ptr (Addr 24 r_fc_cache (Some (r_idx, 8))));
   Ins (AddMem 1 (at_ 16 r_fc_cache));
   Label (Local 2)] ++
  RSEQ_START_ABORT_DEF ++ [Ins (Jmp (Local 1))] ++ RSEQ_END_ABORT_DEF ++
  [Ins (Return (Imm 0));
   Label (Goto "no_push");
   Ins (Return (Imm 1))].

(** The critical section of [_cas_set_next_available_slab]. *)
Definition cas_asm : list line :=
  RSEQ_INFO_DEF ++ RSEQ_CS_ARR_DEF ++
  [Label (Local 1)] ++
  RSEQ_PREP_CS_DEF r_temp_ptr ++
  RSEQ_CMP_CUR_VS_START_CPUS ++
  [Ins (Jnz (Goto "failure"));
   Ins (Load (at_ 0 r_this) r_temp_ptr);
   Ins (Cmp (Reg r_temp_ptr) r_expected_slab);
   Ins (Jnz (Goto "failure"));
   Ins (Load (at_ next_offset r_temp_ptr) r_temp_ptr);
   Ins (Store r_temp_ptr (at_ 0 r_this));
   Label (Local 2)] ++
  RSEQ_START_ABORT_DEF ++ [Ins (Jmp (Local 1))] ++ RSEQ_END_ABORT_DEF ++
  [Ins (Return (Imm 0));
   Label (Goto "failure");
   Ins (Return (Imm ANY))].

(** The critical section of [obj_slab::_allocate]. *)
Definition slab_allocate_asm : list line :=
  RSEQ_INFO_DEF ++ RSEQ_CS_ARR_DEF ++
  [Label (Local 1)] ++
  RSEQ_PREP_CS_DEF r_temp_av ++
  [Ins (Mov (Imm MIGRATED) r_idx)] ++
  RSEQ_CMP_CUR_VS_START_CPUS ++
  [Ins (Jnz (Local 9));
   Ins (Load (at_ 0 r_this) r_temp_av);
   Ins (Jmp (Local 5));
   Label (Local 7);
   Ins (Blsr r_temp_av r_temp_av);
   Ins (Store r_temp_av (at_ 0 r_this));
   Label (Local 5);
   Ins (Mov (Imm FULL) r_idx);
   Ins (Test r_temp_av);
   Ins (Jz (Local 9));
   Ins (Tzcnt r_temp_av r_idx_av);
   Ins (Load (Addr 8 r_this (Some (r_idx_av, 8))) r_temp_as);
   Ins (Test r_temp_as);
   Ins (Jz (Local 7));
   Ins (Mov (Reg r_temp_as) r_idx);
   Ins (Blsr r_temp_as r_temp_as);
   Ins (Store r_temp_as (Addr 8 r_this (Some (r_idx_av, 8))));
   Label (Local 2);
   Ins (Tzcnt r_idx r_idx);
   Ins (Sal 6 r_idx_av);
   Ins (Add (Reg r_idx_av) r_idx);
   Label (Local 9)] ++
  RSEQ_START_ABORT_DEF ++ [Ins (Jmp (Local 1))] ++ RSEQ_END_ABORT_DEF ++
  [Ins (Return (Reg r_idx))].

(** The three versions of [_send_slab]: [SEND_SLAB_BRANCHES] is 1 in the
    repository. *)
Definition send_slab_0_asm : list line :=
  RSEQ_INFO_DEF ++ RSEQ_CS_ARR_DEF ++
  [Label (Local 1)] ++
  RSEQ_PREP_CS_DEF r_temp_ptr ++
  [Ins (Xor r_offset r_offset);
   Ins (MovCpu r_sm);
   Ins (Sal _log_sizeof_slab_manager r_sm);
   Ins (Add (Reg r_sm_base) r_sm);
   Ins (CmpMem 0 (at_ 0 r_sm));
   Ins (Lea (at_ 8 r_sm) r_temp_ptr);
   Ins (Cmovne r_next_reg r_offset);
   Ins (Cmovne r_temp_ptr r_sm);
   Ins (CmovneLoad (at_ 0 r_temp_ptr) r_temp_ptr);
   Ins (Store r_slab (Addr 0 r_temp_ptr (Some (r_offset, 1))));
   Ins (Store r_slab (at_ 0 r_sm));
   Label (Local 2)] ++
  RSEQ_START_ABORT_DEF ++ [Ins (Jmp (Local 1))] ++ RSEQ_END_ABORT_DEF ++
  [Ins (Return (Imm 0))].

Definition send_slab_1_asm : list line :=
  RSEQ_INFO_DEF ++ RSEQ_CS_ARR_DEF ++
  [Label (Local 1)] ++
  RSEQ_PREP_CS_DEF r_temp_ptr ++
  [Ins (MovCpu r_sm);
   Ins (Sal _log_sizeof_slab_manager r_sm);
   Ins (Add (Reg r_sm_base) r_sm);
   Ins (CmpMem 0 (at_ 0 r_sm));
   Ins (Lea (at_ 8 r_sm) r_temp_ptr);
   Ins (Jz (Local 6));
   Ins (Mov (Reg r_temp_ptr) r_sm);
   Ins (Load (at_ 0 r_temp_ptr) r_temp_ptr);
   Ins (Add (Imm next_offset) r_temp_ptr);
   Label (Local 6);
   Ins (Store r_slab (at_ 0 r_temp_ptr));
   Ins (Store r_slab (at_ 0 r_sm));
   Label (Local 2)] ++
  RSEQ_START_ABORT_DEF ++ [Ins (Jmp (Local 1))] ++ RSEQ_END_ABORT_DEF ++
  [Ins (Return (Imm 0))].

Definition send_slab_2_asm : list line :=
  RSEQ_INFO_DEF ++ RSEQ_CS_ARR_DEF ++
  [Label (Local 1)] ++
  RSEQ_PREP_CS_DEF r_temp_ptr ++
  [Ins (MovCpu r_sm);
   Ins (Sal _log_sizeof_slab_manager r_sm);
   Ins (Add (Reg r_sm_base) r_sm);
   Ins (CmpMem 0 (at_ 0 r_sm));
   Ins (Lea (at_ 8 r_sm) r_temp_ptr);
   Ins (Jnz (Local 6));
   Ins (Store r_slab (at_ 0 r_temp_ptr));
   Ins (Jmp (Local 7));
   Label (Local 6);
   Ins (Mov (Reg r_temp_ptr) r_sm);
   Ins (Load (at_ 0 r_temp_ptr) r_temp_ptr);
   Ins (Store r_slab (at_ next_offset r_temp_ptr));
   Label (Local 7);
   Ins (Store r_slab (at_ 0 r_sm));
   Label (Local 2)] ++
  RSEQ_START_ABORT_DEF ++ [Ins (Jmp (Local 1))] ++ RSEQ_END_ABORT_DEF ++
  [Ins (Return (Imm 0))].

(** ** Assembling *)

(** The lines of the section of the statement, and those of the pushed
    sections, which the assembler places elsewhere. *)
Fixpoint split_sections (pushed : bool) (ls : list line) : list line * list line :=
  match ls with
  | [] => ([], [])
  | PushSection :: ls => split_sections true ls
  | PopSection :: ls => split_sections false ls
  | l :: ls =>
      let '(main, aside) := split_sections pushed ls in
      if pushed then (main, l :: aside) else (l :: main, aside)
  end.

(** The number of the instruction a label stands in front of. *)
Fixpoint find_label (l : label) (n : nat) (ls : list line) : option nat :=
  match ls with
  | [] => None
  | Label l' :: ls => if decide (l = l') then Some n else find_label l n ls
  | Ins _ :: ls => find_label l (S n) ls
  | _ :: ls => find_label l n ls
  end.

Definition resolve (ls : list line) (i : instr label) : option (instr nat) :=
  match i with
  | LeaInfo d => Some (LeaInfo d)
  | MovRseqPtr s => Some (MovRseqPtr s)
  | MovCpu d => Some (MovCpu d)
  | CmpCpu s => Some (CmpCpu s)
  | Mov s d => Some (Mov s d)
  | Load a d => Some (Load a d)
  | Store s a => Some (Store s a)
  | Lea a d => Some (Lea a d)
  | Add s d => Some (Add s d)
  | AddMem i a => Some (AddMem i a)
  | SubMem i a => Some (SubMem i a)
  | Sal i d => Some (Sal i d)
  | Xor s d => Some (Xor s d)
  | Cmp s d => Some (Cmp s d)
  | CmpMem i a => Some (CmpMem i a)
  | Test s => Some (Test s)
  | Tzcnt s d => Some (Tzcnt s d)
  | Blsr s d => Some (Blsr s d)
  | Cmovne s d => Some (Cmovne s d)
  | CmovneLoad a d => Some (CmovneLoad a d)
  | Jmp l => Jmp <$> find_label l 0 ls
  | Jz l => Jz <$> find_label l 0 ls
  | Jnz l => Jnz <$> find_label l 0 ls
  | Return v => Some (Return v)
  end.

Definition instructions (ls : list line) : list (instr label) :=
  omap (λ l, match l with Ins i => Some i | _ => None end) ls.

(** [struct _rseq_info], with instruction numbers for addresses. *)
Record rseq_info := mk_info {
  version : Z;
  info_flags : Z;
  start_ip : nat;
  post_commit_offset : nat;
  abort_ip : nat
}.

(** The word in front of the abort handler. *)
Fixpoint find_signature (ls : list line) : option Z :=
  match ls with
  | Signature s :: Label (Local 4) :: _ => Some s
  | _ :: ls => find_signature ls
  | [] => None
  end.

Definition find_info (ls all : list line) : option rseq_info :=
  match omap (λ l, match l with Info v f s e a => Some (v, f, s, e, a) | _ => None end) ls with
  | (v, f, s, e, a) :: _ =>
      s ← find_label s 0 all;
      e ← find_label e 0 all;
      a ← find_label a 0 all;
      Some (mk_info v f s (e - s) a)
  | [] => None
  end.

Record sequence := mk_sequence {
  body : list (instr nat);
  info : rseq_info;
  signature : Z
}.

Definition assemble (ls : list line) : option sequence :=
  let '(main, aside) := split_sections false ls in
  let all := (main ++ aside)%list in
  body ← mapM (resolve all) (instructions all);
  inf ← find_info aside all;
  sig ← find_signature aside;
  Some (mk_sequence body inf sig).

(** ** Executing instructions *)

Definition mem := Z → Z.
Definition regs := reg → Z.

Definition store (a v : Z) (m : mem) : mem := λ a', if a' =? a then v else m a'.
Definition set_reg (r : reg) (v : Z) (ρ : regs) : regs := λ r', if reg_beq r r' then v else ρ r'.

Record core := mk_core { pc : nat; gpr : regs; zf : bool }.

Definition ea (a : address) (ρ : regs) : Z :=
  let '(Addr disp base index) := a in
  u64 (disp + ρ base + match index with Some (i, scale) => ρ i * scale | None => 0 end).

Definition val (v : value) (ρ : regs) : Z :=
  match v with Imm i => u64 i | Reg r => ρ r end.

(** The addresses an instruction reads or writes. *)
Definition touched (i : instr nat) (k : core) : list Z :=
  match i with
  | Load a _ | Store _ a | AddMem _ a | SubMem _ a | CmpMem _ a | CmovneLoad a _ => [ea a (gpr k)]
  | _ => []
  end.

(** An instruction of the critical section on CPU [c]; the two that reach the
    rseq area other than for the CPU number, and [Return], are the machine's. *)
Definition exec (c : Z) (i : instr nat) (k : core) (m : mem) : option (core * mem) :=
  let ρ := gpr k in
  let next (ρ : regs) (z : bool) (m : mem) := Some (mk_core (S (pc k)) ρ z, m) in
  let jump (b : bool) (l : nat) := Some (mk_core (if b then l else S (pc k)) ρ (zf k), m) in
  let arith (d : reg) (v : Z) := next (set_reg d v ρ) (v =? 0) m in
  let write (a : address) (v : Z) := next ρ (v =? 0) (store (ea a ρ) v m) in
  match i with
  | MovCpu d => next (set_reg d c ρ) (zf k) m
  | CmpCpu s => next ρ (c =? u32 (ρ s)) m
  | Mov s d => next (set_reg d (val s ρ) ρ) (zf k) m
  | Load a d => next (set_reg d (m (ea a ρ)) ρ) (zf k) m
  | Store s a => next ρ (zf k) (store (ea a ρ) (ρ s) m)
  | Lea a d => next (set_reg d (ea a ρ) ρ) (zf k) m
  | Add s d => arith d (u64 (ρ d + val s ρ))
  | AddMem i a => write a (u64 (m (ea a ρ) + i))
  | SubMem i a => write a (u64 (m (ea a ρ) - i))
  | Sal i d => arith d (u64 (ρ d ≪ i))
  | Xor s d => arith d (Z.lxor (ρ d) (ρ s))
  | Cmp s d => next ρ (ρ d =? val s ρ) m
  | CmpMem i a => next ρ (m (ea a ρ) =? u64 i) m
  | Test s => next ρ (ρ s =? 0) m
  | Tzcnt s d => arith d (instr_tzcnt 64 (ρ s))
  | Blsr s d => arith d (blsr (ρ s))
  | Cmovne s d => next (if zf k then ρ else set_reg d (ρ s) ρ) (zf k) m
  | CmovneLoad a d => next (if zf k then ρ else set_reg d (m (ea a ρ)) ρ) (zf k) m
  | Jmp l => jump true l
  | Jz l => jump (zf k) l
  | Jnz l => jump (negb (zf k)) l
  | LeaInfo _ | MovRseqPtr _ | Return _ => None
  end.

(** Is the instruction pointer in [start_ip, start_ip + post_commit_offset)? *)
Definition in_cs (d : rseq_info) (pc : nat) : bool :=
  (start_ip d <=? pc)%nat && (pc <? start_ip d + post_commit_offset d)%nat.

(** ** The sequences of the program *)

Inductive kind := KAdd | KPop | KPush | KCas | KAllocate | KSend0 | KSend1 | KSend2.

Scheme Boolean Equality for kind.

Definition kinds : list kind := [KAdd; KPop; KPush; KCas; KAllocate; KSend0; KSend1; KSend2].

Definition source (k : kind) : list line :=
  match k with
  | KAdd => rseq_add_asm
  | KPop => try_pop_asm
  | KPush => try_push_asm
  | KCas => cas_asm
  | KAllocate => slab_allocate_asm
  | KSend0 => send_slab_0_asm
  | KSend1 => send_slab_1_asm
  | KSend2 => send_slab_2_asm
  end.

Definition no_sequence : sequence := mk_sequence [] (mk_info 0 0 0 0 0) 0.

(** Every [asm] statement assembles. *)
Lemma sources_assemble : forallb (λ k, match assemble (source k) with Some _ => true | None => false end) kinds = true.
Proof. by vm_compute. Qed.

Definition add_code : sequence := Eval vm_compute in default no_sequence (assemble rseq_add_asm).
Definition pop_code : sequence := Eval vm_compute in default no_sequence (assemble try_pop_asm).
Definition push_code : sequence := Eval vm_compute in default no_sequence (assemble try_push_asm).
Definition cas_code : sequence := Eval vm_compute in default no_sequence (assemble cas_asm).
Definition allocate_code : sequence :=
  Eval vm_compute in default no_sequence (assemble slab_allocate_asm).
Definition send_0_code : sequence := Eval vm_compute in default no_sequence (assemble send_slab_0_asm).
Definition send_1_code : sequence := Eval vm_compute in default no_sequence (assemble send_slab_1_asm).
Definition send_2_code : sequence := Eval vm_compute in default no_sequence (assemble send_slab_2_asm).

Definition code (k : kind) : sequence :=
  match k with
  | KAdd => add_code
  | KPop => pop_code
  | KPush => push_code
  | KCas => cas_code
  | KAllocate => allocate_code
  | KSend0 => send_0_code
  | KSend1 => send_1_code
  | KSend2 => send_2_code
  end.

(** A call of a function: which [asm] statement, and its input operands. *)
Record call := mk_call { which : kind; args : list (reg * Z) }.

Definition call_pop (sm_base : Z) : call := mk_call KPop [(r_sm_base, sm_base)].
Definition call_push (ptr sm_base : Z) : call :=
  mk_call KPush [(r_ptr, ptr); (r_sm_base, sm_base)].
Definition call_cas (this start_cpu expected_slab : Z) : call :=
  mk_call KCas [(r_this, this); (r_start_cpu, start_cpu); (r_expected_slab, expected_slab)].
Definition call_allocate (this start_cpu : Z) : call :=
  mk_call KAllocate [(r_this, this); (r_start_cpu, start_cpu)].
Definition call_send (slab sm_base : Z) : call :=
  mk_call KSend1 [(r_slab, slab); (r_sm_base, sm_base)].
Definition call_add (arr : Z) : call := mk_call KAdd [(r_arr, arr)].

(** ** Threads and the kernel *)

(** [struct _rseq_def], the area of a thread the kernel reads and writes. *)
Record rseq_def := mk_abi { cpu_id_start : Z; cpu_id : Z; ptr : Z; abi_flags : Z }.

Definition set_ptr (p : Z) (a : rseq_def) : rseq_def :=
  mk_abi (cpu_id_start a) (cpu_id a) p (abi_flags a).
Definition set_cpu (c : Z) (a : rseq_def) : rseq_def := mk_abi c c (ptr a) (abi_flags a).

(** [activity] is the statement the thread executes, if it is in one. *)
Record thread := mk_thread {
  abi : rseq_def;
  running : bool;
  activity : option (call * core)
}.

Record machine := mk_machine { memory : mem; threads : list thread }.

Inductive event := ECall (i : nat) (cl : call) | EReturn (i : nat) (v : Z).

(** What the next moment brings: a thread calls a function (its registers,
    and the flag, hold anything but the arguments), executes an instruction,
    loses its CPU, gets one, or handles a signal. *)
Inductive action :=
  | ACall (i : nat) (cl : call) (ρ : regs) (z : bool)
  | AExec (i : nat)
  | APreempt (i : nat)
  | AResume (i : nat) (c : Z)
  | ASignal (i : nat).

Inductive result :=
  | Next (es : list event) (s : machine)
  | Disabled
  | Killed.

Section Machine.
(** Where the linker put the descriptors. *)
Context (info_address : kind → Z).

(** [rseq_ip_fixup] of the kernel, on the way back to a thread: a thread whose
    descriptor covers its instruction pointer goes to the abort handler; the
    descriptor is forgotten; a bad descriptor kills the thread. *)
Definition rseq_ip_fixup (t : thread) : option thread :=
  if ptr (abi t) =? 0 then Some t
  else
    match List.find (λ k, info_address k =? ptr (abi t)) kinds with
    | None => None
    | Some k =>
        let d := info (code k) in
        if negb ((version d =? 0) && (signature (code k) =? RSEQ_SIGNATURE)) then None
        else
          Some (mk_thread (set_ptr 0 (abi t)) (running t)
            (match activity t with
             | Some (cl, co) =>
                 Some (cl, if kind_beq (which cl) k && in_cs d (pc co)
                           then mk_core (abort_ip d) (gpr co) (zf co) else co)
             | None => None
             end))
    end.

Definition put (i : nat) (t : thread) (m : mem) (s : machine) : machine :=
  mk_machine m (<[i := t]> (threads s)).

Definition load_args (cl : call) (ρ : regs) : regs :=
  foldr (λ '(r, v) ρ, set_reg r v ρ) ρ (args cl).

(** Does any thread run on CPU [c]? *)
Definition busy (c : Z) (s : machine) : bool :=
  existsb (λ t, running t && (cpu_id (abi t) =? c)) (threads s).

(** One instruction of thread [i]. *)
Definition exec_thread (i : nat) (t : thread) (cl : call) (co : core) (s : machine) : result :=
  let ρ := gpr co in
  match body (code (which cl)) !! pc co with
  | None => Killed
  | Some (LeaInfo d) =>
      Next [] (put i (mk_thread (abi t) true
        (Some (cl, mk_core (S (pc co)) (set_reg d (info_address (which cl)) ρ) (zf co))))
        (memory s) s)
  | Some (MovRseqPtr r) =>
      Next [] (put i (mk_thread (set_ptr (ρ r) (abi t)) true
        (Some (cl, mk_core (S (pc co)) ρ (zf co)))) (memory s) s)
  | Some (Return v) =>
      Next [EReturn i (val v ρ)] (put i (mk_thread (abi t) true None) (memory s) s)
  | Some ins =>
      match exec (cpu_id (abi t)) ins co (memory s) with
      | Some (co', m') => Next [] (put i (mk_thread (abi t) true (Some (cl, co'))) m' s)
      | None => Killed
      end
  end.

Definition act (a : action) (s : machine) : result :=
  match a with
  | ACall i cl ρ z =>
      match threads s !! i with
      | Some t =>
          match running t, activity t with
          | true, None =>
              Next [ECall i cl] (put i (mk_thread (abi t) true
                (Some (cl, mk_core 0 (load_args cl ρ) z))) (memory s) s)
          | _, _ => Disabled
          end
      | None => Disabled
      end
  | AExec i =>
      match threads s !! i with
      | Some t =>
          match running t, activity t with
          | true, Some (cl, co) => exec_thread i t cl co s
          | _, _ => Disabled
          end
      | None => Disabled
      end
  | APreempt i =>
      match threads s !! i with
      | Some t => if running t then Next [] (put i (mk_thread (abi t) false (activity t)) (memory s) s)
                  else Disabled
      | None => Disabled
      end
  | AResume i c =>
      match threads s !! i with
      | Some t =>
          if running t || busy c s || negb ((0 <=? c) && (c <? NPROCS)) then Disabled
          else
            match rseq_ip_fixup (mk_thread (set_cpu c (abi t)) true (activity t)) with
            | Some t' => Next [] (put i t' (memory s) s)
            | None => Killed
            end
      | None => Disabled
      end
  | ASignal i =>
      match threads s !! i with
      | Some t =>
          if running t then
            match rseq_ip_fixup t with
            | Some t' => Next [] (put i t' (memory s) s)
            | None => Killed
            end
          else Disabled
      | None => Disabled
      end
  end.

(** A run of the machine, and what can be seen of it. *)
Fixpoint run (as_ : list action) (s : machine) : result :=
  match as_ with
  | [] => Next [] s
  | a :: as_ =>
      match act a s with
      | Next es s' =>
          match run as_ s' with
          | Next es' s'' => Next (es ++ es')%list s''
          | r => r
          end
      | r => r
      end
  end.
End Machine.

(** [n] threads that have registered and not run yet. *)
Definition new_thread : thread := mk_thread (mk_abi 0 0 0 0) false None.
Definition start (n : nat) (m : mem) : machine := mk_machine m (replicate n new_thread).
