(* ===== verification/RseqCorrect.v ===== *)
(** * Restartable sequences are atomic

    A generic theorem about the machine of [Rseq]: when every sequence, run
    without interruption, keeps to the words of its CPU, leaves what they
    represent unchanged up to its last store, and then does what an atomic
    operation does, every interleaved execution with preemption, migration and
    signals looks like one in which each call takes effect at once. *)

From S2P Require Import Prelude Bits Machine ObjSlab Rseq.

(** ** Single instructions *)

(** Two memories agree on the words of a set. *)
Definition agree (P : Z → Prop) (m m' : mem) : Prop := ∀ a, P a → m a = m' a.

Lemma agree_store P m m' a v : agree P m m' → agree P (store a v m) (store a v m').
Proof. intros H b Hb. unfold store. destruct (b =? a); [done|by apply H]. Qed.

(** An instruction depends on the words it touches only. *)
Lemma exec_frame P c i k m m' k1 m1 :
  agree P m m' → Forall P (touched i k) → exec c i k m = Some (k1, m1) →
  ∃ m1', exec c i k m' = Some (k1, m1') ∧ agree P m1 m1'.
Proof.
  intros Ha Ht He.
  destruct i; cbn [exec touched] in *; try done;
    try (pose proof (Ha _ (Forall_inv Ht)) as E; rewrite <-?E);
    injection He as <- <-; (eexists; split; [reflexivity|]); by try apply agree_store.
Qed.

(** It changes no other word. *)
Lemma exec_untouched c i k m k1 m1 a :
  exec c i k m = Some (k1, m1) → a ∉ touched i k → m1 a = m a.
Proof.
  intros He Ha. destruct i; cbn [exec touched] in *; try done; injection He as <- <-; try done;
    unfold store; destruct (Z.eqb_spec a (ea a0 (gpr k))) as [->|]; set_solver.
Qed.

(** Instructions on registers alone. *)
Definition is_local (i : instr nat) : bool :=
  match i with
  | Mov _ _ | Lea _ _ | Add _ _ | Sal _ _ | Xor _ _ | Cmp _ _ | Test _ | Tzcnt _ _ | Blsr _ _
  | Cmovne _ _ | Jmp _ | Jz _ | Jnz _ => true
  | _ => false
  end.

Lemma exec_local c c' i k m m' k1 m1 :
  is_local i = true → exec c i k m = Some (k1, m1) → m1 = m ∧ exec c' i k m' = Some (k1, m').
Proof. intros Hi He. by destruct i; simpl in *; simplify_eq. Qed.

(** ** Atomic machines

    The same threads, scheduled by the same actions, with calls that take
    effect in one step on the state of the CPU their thread runs on. *)

Inductive status := SIdle | SPending (cl : call) | SFinished (v : Z).

(** The shared state; the CPU each thread runs on, if it runs; how far each
    thread is with its call. *)
Record atomic G := mk_atomic { shared : G; places : list (option Z); statuses : list status }.

Arguments mk_atomic {G}.
Arguments shared {G}.
Arguments places {G}.
Arguments statuses {G}.

Section Atomic.
(** [effect cl c g v g']: the call, on CPU [c], takes [g] to [g'] and returns [v]. *)
Context {G : Type} (effect : call → Z → G → Z → G → Prop).

(** A call takes effect at an instruction of its own thread, on the CPU the
    thread is on at that moment; all its other instructions do nothing. *)
Inductive atomic_step : action → atomic G → list event → atomic G → Prop :=
  | atomic_call g ps ts i cl ρ z c :
      ps !! i = Some (Some c) → ts !! i = Some SIdle →
      atomic_step (ACall i cl ρ z) (mk_atomic g ps ts) [ECall i cl]
        (mk_atomic g ps (<[i := SPending cl]> ts))
  | atomic_internal g ps ts i c :
      ps !! i = Some (Some c) → ts !! i ≠ Some SIdle →
      atomic_step (AExec i) (mk_atomic g ps ts) [] (mk_atomic g ps ts)
  | atomic_effect g ps ts i cl c v g' :
      ps !! i = Some (Some c) → 0 ≤ c < NPROCS → ts !! i = Some (SPending cl) →
      effect cl c g v g' →
      atomic_step (AExec i) (mk_atomic g ps ts) [] (mk_atomic g' ps (<[i := SFinished v]> ts))
  | atomic_return g ps ts i c v :
      ps !! i = Some (Some c) → ts !! i = Some (SFinished v) →
      atomic_step (AExec i) (mk_atomic g ps ts) [EReturn i v] (mk_atomic g ps (<[i := SIdle]> ts))
  | atomic_preempt g ps ts i c :
      ps !! i = Some (Some c) →
      atomic_step (APreempt i) (mk_atomic g ps ts) [] (mk_atomic g (<[i := None]> ps) ts)
  | atomic_resume g ps ts i c :
      ps !! i = Some None → 0 ≤ c < NPROCS → Some c ∉ ps →
      atomic_step (AResume i c) (mk_atomic g ps ts) [] (mk_atomic g (<[i := Some c]> ps) ts)
  | atomic_signal g ps ts i c :
      ps !! i = Some (Some c) → atomic_step (ASignal i) (mk_atomic g ps ts) [] (mk_atomic g ps ts).

Inductive atomic_run : list action → atomic G → list event → atomic G → Prop :=
  | atomic_done a : atomic_run [] a [] a
  | atomic_next x xs a a1 a2 es es1 :
      atomic_step x a es a1 → atomic_run xs a1 es1 a2 → atomic_run (x :: xs) a (es ++ es1) a2.
End Atomic.

(** No thread runs, and none is in a call. *)
Definition atomic_start {G} (n : nat) (g : G) : atomic G :=
  mk_atomic g (replicate n None) (replicate n SIdle).

(** ** What a sequence has to do *)

(** The argument registers hold the arguments. *)
Definition args_hold (cl : call) (ρ : regs) : Prop := Forall (λ '(r, v), ρ r = v) (args cl).

Definition cs_of (cl : call) : rseq_info := info (code (which cl)).

(** Behind the critical section: local instructions up to the [return] of [v]. *)
Fixpoint returns (n : nat) (cl : call) (k : core) (v : Z) : Prop :=
  match n with
  | O => False
  | S n =>
      in_cs (cs_of cl) (pc k) = false ∧
      ∃ i, body (code (which cl)) !! pc k = Some i ∧
        match i with
        | Return w => val w (gpr k) = v
        | _ => is_local i = true ∧
               ∃ k', exec 0 i k (λ _, 0) = Some (k', λ _, 0) ∧ returns n cl k' v
        end
  end.

Lemma returns_mono n n' cl k v : (n ≤ n')%nat → returns n cl k v → returns n' cl k v.
Proof.
  revert n' k. induction n as [|n IH]; intros n' k Hn Hr; [done|].
  destruct n' as [|n']; [lia|]. destruct Hr as (Hin & i & Hb & Hr).
  split; [done|]. exists i. split; [done|].
  destruct i; try done; destruct Hr as (Hl & k' & He & Hr); (split; [done|]); exists k';
    (split; [done|]); (apply IH; [lia|done]).
Qed.

Section Safe.
Context {G : Type} (effect : call → Z → G → Z → G → Prop).
(** The words of each CPU, and the state they represent. *)
Context (owned : Z → Z → Prop) (rep : Z → mem → G → Prop).

(** The rest of a critical section, run on CPU [c]: [n] bounds the number of
    instructions up to the [return]. *)
Fixpoint safe (n : nat) (cl : call) (c : Z) (k : core) (m : mem) (g : G) : Prop :=
  match n with
  | O => False
  | S n =>
      ∃ i k' m', body (code (which cl)) !! pc k = Some i ∧ exec c i k m = Some (k', m') ∧
        Forall (owned c) (touched i k) ∧ args_hold cl (gpr k') ∧
        if in_cs (cs_of cl) (pc k') then rep c m' g ∧ safe n cl c k' m' g
        else ∃ v g', effect cl c g v g' ∧ rep c m' g' ∧ returns n cl k' v
  end.

Lemma safe_mono n n' cl c k m g : (n ≤ n')%nat → safe n cl c k m g → safe n' cl c k m g.
Proof.
  revert n' k m. induction n as [|n IH]; intros n' k m Hn Hs; [done|].
  destruct n' as [|n']; [lia|]. destruct Hs as (i & k' & m' & Hb & He & Ht & Ha & Hs).
  exists i, k', m'. do 4 (split; [done|]). destruct (in_cs _ _).
  - destruct Hs as [Hr Hs]. split; [done|]. apply IH; [lia|done].
  - destruct Hs as (v & g' & Hef & Hr & Hret). exists v, g'. split_and!; [done|done|].
    eapply returns_mono; [|done]. lia.
Qed.
End Safe.

(** The frame every sequence of the program has: the descriptor is announced by
    the first two instructions, through a temporary register, and the abort
    handler jumps back to them. *)
Definition temporary (k : kind) : reg :=
  match k with
  | KAdd => r_cpu
  | KPop => r_ret
  | KPush => r_fc_cache
  | KAllocate => r_temp_av
  | KCas | KSend0 | KSend1 | KSend2 => r_temp_ptr
  end.

Record framed (s : sequence) (t : reg) : Prop := {
  framed_lea : body s !! 0%nat = Some (LeaInfo t);
  framed_mov : body s !! 1%nat = Some (MovRseqPtr t);
  framed_abort : body s !! abort_ip (info s) = Some (Jmp 0%nat);
  framed_start : start_ip (info s) = 0%nat;
  framed_offset : (2 < post_commit_offset (info s) ≤ abort_ip (info s))%nat;
  framed_version : version (info s) = 0;
  framed_signature : signature s = RSEQ_SIGNATURE
}.

Lemma code_framed k : framed (code k) (temporary k).
Proof. destruct k; split; simpl; (done || lia). Qed.

Lemma in_cs_code k n : in_cs (info (code k)) n = (n <? post_commit_offset (info (code k)))%nat.
Proof. unfold in_cs. rewrite (framed_start _ _ (code_framed k)). done. Qed.

Lemma set_reg_eq r v ρ : set_reg r v ρ r = v.
Proof. unfold set_reg. by destruct r. Qed.

Lemma set_reg_ne r r' v ρ : r ≠ r' → set_reg r v ρ r' = ρ r'.
Proof. intros Hne. unfold set_reg. by destruct r, r'. Qed.

Lemma args_hold_set cl t v ρ :
  t ∉ (args cl).*1 → args_hold cl ρ → args_hold cl (set_reg t v ρ).
Proof.
  unfold args_hold. rewrite !Forall_forall. intros Ht H [r w] Hin. simpl.
  rewrite set_reg_ne; [by apply (H (r, w))|]. intros ->. apply Ht. apply list_elem_of_fmap.
  by exists (r, w).
Qed.

Lemma load_args_hold cl ρ : NoDup (args cl).*1 → args_hold cl (load_args cl ρ).
Proof.
  unfold args_hold, load_args. induction (args cl) as [|[r v] l IH]; simpl; intros Hnd; [done|].
  apply NoDup_cons in Hnd as [Hr Hnd]. constructor; [apply set_reg_eq|].
  apply Forall_forall. intros [r' v'] Hin. rewrite set_reg_ne.
  - by apply (proj1 (Forall_forall _ _) (IH Hnd) (r', v')).
  - intros ->. apply Hr, list_elem_of_fmap. by exists (r', v').
Qed.

(** Calls whose arguments are given once, none of them in the temporary. *)
Definition wf_call (cl : call) : Prop := NoDup (temporary (which cl) :: (args cl).*1).

(** ** The interface

    What the sequences of a program promise: each call that may be made,
    started behind the announcement of its descriptor, is [safe]. *)
Class PerCpu (G : Type) := {
  effect : call → Z → G → Z → G → Prop;
  owned : Z → Z → Prop;
  rep : Z → mem → G → Prop;
  (* the states agree on what belongs to a CPU *)
  same : Z → G → G → Prop;
  allowed : call → Prop;
  fuel : nat;
  allowed_wf cl : allowed cl → wf_call cl;
  owned_once c c' a : owned c a → owned c' a → c = c';
  same_refl c g : same c g g;
  rep_frame c m m' g g' : agree (owned c) m m' → same c g g' → rep c m g → rep c m' g';
  effect_local cl c c' m g v g' :
    effect cl c g v g' → rep c m g → c' ≠ c → same c' g g';
  effect_frame cl c m g1 g2 v g1' :
    effect cl c g1 v g1' → rep c m g1 → same c g1 g2 →
    ∃ g2', effect cl c g2 v g2' ∧ same c g1' g2';
  allowed_safe cl c k m g :
    allowed cl → 0 ≤ c < NPROCS → pc k = 2%nat → args_hold cl (gpr k) → rep c m g →
    safe effect owned rep fuel cl c k m g
}.

(** Descriptors are at different addresses, none at 0. *)
Record linked (info_address : kind → Z) : Prop := {
  linked_nonzero k : info_address k ≠ 0;
  linked_inj k k' : info_address k = info_address k' → k = k'
}.

(** Descriptors of 32 bytes in a row. *)
Definition consecutive_info (k : kind) : Z :=
  match k with
  | KAdd => 32 | KPop => 64 | KPush => 96 | KCas => 128 | KAllocate => 160
  | KSend0 => 192 | KSend1 => 224 | KSend2 => 256
  end.

Lemma consecutive_linked : linked consecutive_info.
Proof. split; [by intros []|]. by intros [] []. Qed.

Section Linearizable.
Context (info_address : kind → Z) (Hlink : linked info_address).
Context {G : Type} `{PerCpu G}.

Lemma safe_frame n cl c k m m' g g' :
  agree (owned c) m m' → same c g g' → rep c m g →
  safe effect owned rep n cl c k m g → safe effect owned rep n cl c k m' g'.
Proof.
  revert k m m'.
  induction n as [|n IH]; intros k m m' Ha Hg Hrep Hs; [done|].
  destruct Hs as (i & k' & m1 & Hi & He & Ht & Hargs & Hs).
  destruct (exec_frame _ _ _ _ _ _ _ _ Ha Ht He) as (m1' & He' & Ha').
  exists i, k', m1'. do 4 (split; [done|]). destruct (in_cs _ _).
  - destruct Hs as [Hr Hs]. split; [by eapply rep_frame|by eapply IH].
  - destruct Hs as (v & g1 & Hsp & Hr & Hret).
    destruct (effect_frame _ _ _ _ _ _ _ Hsp Hrep Hg) as (g2 & Hsp' & Hg').
    exists v, g2. split_and!; [done|by eapply rep_frame|done].
Qed.

(** In front of the critical section, or sent back there. *)
Definition restartable (cl : call) (k : core) : Prop :=
  pc k = abort_ip (cs_of cl) ∨ pc k = 0%nat ∨
  (pc k = 1%nat ∧ gpr k (temporary (which cl)) = info_address (which cl)).

Inductive related (m : mem) (g : G) (t : thread) : status → Prop :=
  | related_idle : activity t = None → related m g t SIdle
  | related_finished cl k v n :
      activity t = Some (cl, k) → (n ≤ fuel)%nat → returns n cl k v → related m g t (SFinished v)
  | related_restart cl k :
      activity t = Some (cl, k) → allowed cl → args_hold cl (gpr k) → restartable cl k →
      related m g t (SPending cl)
  | related_inside cl k :
      activity t = Some (cl, k) → allowed cl → args_hold cl (gpr k) →
      in_cs (cs_of cl) (pc k) = true → ptr (abi t) = info_address (which cl) →
      (running t = true → ∃ n, (n ≤ fuel)%nat ∧
        safe effect owned rep n cl (cpu_id (abi t)) k m g) →
      related m g t (SPending cl).

Definition thread_ok (t : thread) : Prop :=
  (running t = true → 0 ≤ cpu_id (abi t) < NPROCS) ∧
  (ptr (abi t) = 0 ∨ ∃ k, ptr (abi t) = info_address k).

Record simulates (s : machine) (g : G) (ts : list status) : Prop := {
  sim_threads : Forall2 (related (memory s) g) (threads s) ts;
  sim_rep c : 0 ≤ c < NPROCS → rep c (memory s) g;
  sim_ok : Forall thread_ok (threads s);
  sim_alone i j t t' :
    threads s !! i = Some t → threads s !! j = Some t' → i ≠ j →
    running t = true → running t' = true → cpu_id (abi t) ≠ cpu_id (abi t')
}.

(** A thread is not disturbed by what happens to the words of other CPUs. *)
Lemma related_frame m m' g g' t st :
  (running t = true →
    agree (owned (cpu_id (abi t))) m m' ∧ same (cpu_id (abi t)) g g' ∧ rep (cpu_id (abi t)) m g) →
  related m g t st → related m' g' t st.
Proof.
  intros Hr Ht. destruct Ht as [| | |cl k Hact Hpre Hargs Hin Hptr Hs]; [by constructor|by econstructor..|].
  eapply related_inside; eauto. intros Hrun. destruct (Hr Hrun) as (Ha & Hg & Hrep).
  destruct (Hs Hrun) as (n & Hn & Hsafe). exists n. split; [done|].
  by eapply safe_frame.
Qed.

(** Replacing one thread. *)
Lemma simulates_put s g ts i t t' st' m' g' :
  simulates s g ts → threads s !! i = Some t →
  (∀ j u, j ≠ i → threads s !! j = Some u → running u = true →
    agree (owned (cpu_id (abi u))) (memory s) m' ∧ same (cpu_id (abi u)) g g' ∧
    (running t' = true → cpu_id (abi t') ≠ cpu_id (abi u))) →
  (∀ c, 0 ≤ c < NPROCS → rep c m' g') →
  related m' g' t' st' → thread_ok t' →
  simulates (put i t' m' s) g' (<[i := st']> ts).
Proof.
  intros [Hth Hrep Hok Hal] Hi Hothers Hrep' Hrel Hok'. split; simpl.
  - apply Forall2_same_length_lookup_2.
    + rewrite !length_insert. by apply (Forall2_length _ _ _ Hth).
    + intros j u st Hu Hst. destruct (decide (j = i)) as [->|Hj].
      * rewrite list_lookup_insert_eq in Hu by (by eapply lookup_lt_Some).
        rewrite list_lookup_insert_eq in Hst
          by (rewrite <-(Forall2_length _ _ _ Hth); by eapply lookup_lt_Some).
        by simplify_eq.
      * rewrite list_lookup_insert_ne in Hu by done. rewrite list_lookup_insert_ne in Hst by done.
        eapply related_frame; [|by eapply Forall2_lookup_lr].
        intros Hrun. destruct (Hothers j u Hj Hu Hrun) as (? & ? & _). split_and!; [done..|].
        apply Hrep. by apply (Forall_lookup_1 _ _ _ _ Hok Hu).
  - done.
  - by apply Forall_insert.
  - intros j j' u u' Hu Hu' Hne Hrun Hrun'.
    destruct (decide (j = i)) as [->|Hj]; destruct (decide (j' = i)) as [->|Hj']; try done.
    + rewrite list_lookup_insert_eq in Hu by (by eapply lookup_lt_Some).
      rewrite list_lookup_insert_ne in Hu' by done. simplify_eq.
      by destruct (Hothers j' u' Hj' Hu' Hrun') as (_ & _ & Hc); apply Hc.
    + rewrite list_lookup_insert_eq in Hu' by (by eapply lookup_lt_Some).
      rewrite list_lookup_insert_ne in Hu by done. simplify_eq.
      destruct (Hothers j u Hj Hu Hrun) as (_ & _ & Hc). intros Heq. by apply Hc.
    + rewrite list_lookup_insert_ne in Hu by done. rewrite list_lookup_insert_ne in Hu' by done. by eapply Hal.
Qed.

(** Replacing one thread without touching the memory, the thread staying where
    it is or leaving its CPU. *)
Lemma simulates_stay s g ts i t t' st' :
  simulates s g ts → threads s !! i = Some t →
  (running t' = true → running t = true ∧ cpu_id (abi t') = cpu_id (abi t)) →
  related (memory s) g t' st' → (ptr (abi t') = 0 ∨ ∃ k, ptr (abi t') = info_address k) →
  simulates (put i t' (memory s) s) g (<[i := st']> ts).
Proof.
  intros Hsim Hi Hrun Hrel Hptr.
  pose proof (Forall_lookup_1 _ _ _ _ (sim_ok _ _ _ Hsim) Hi) as [Hc _].
  eapply simulates_put; eauto.
  - intros j u Hj Hu Hru. split; [done|]. split; [apply same_refl|]. intros Hr.
    destruct (Hrun Hr) as [Ht ->].
    eapply (sim_alone _ _ _ Hsim); [done..| | |]; done.
  - intros. by apply (sim_rep _ _ _ Hsim).
  - split; [|done]. intros Hr. destruct (Hrun Hr) as [Ht ->]. auto.
Qed.

Lemma sim_lookup s g ts i t :
  simulates s g ts → threads s !! i = Some t →
  ∃ st, ts !! i = Some st ∧ related (memory s) g t st.
Proof.
  intros Hsim Hi. destruct (Forall2_lookup_l _ _ _ _ _ (sim_threads _ _ _ Hsim) Hi) as (st & ? & ?).
  eauto.
Qed.

(** The status of a thread that stays the same. *)
Lemma stays_same (ts : list status) i st : ts !! i = Some st → <[i := st]> ts = ts.
Proof. apply list_insert_id. Qed.

(** ** The kernel *)

Lemma find_kind k : List.find (λ k', info_address k' =? info_address k) kinds = Some k.
Proof.
  destruct (List.find _ kinds) as [k'|] eqn:E.
  - apply List.find_some in E as [_ E]. apply Z.eqb_eq, (linked_inj _ Hlink) in E. by subst.
  - apply (List.find_none _ _) with (x := k) in E; [|by destruct k; repeat first [left; reflexivity|right]].
    by rewrite Z.eqb_refl in E.
Qed.

Lemma fixup_eq t k :
  ptr (abi t) = info_address k →
  rseq_ip_fixup info_address t =
    Some (mk_thread (set_ptr 0 (abi t)) (running t)
      (match activity t with
       | Some (cl, co) =>
           Some (cl, if kind_beq (which cl) k && in_cs (info (code k)) (pc co)
                     then mk_core (abort_ip (info (code k))) (gpr co) (zf co) else co)
       | None => None
       end)).
Proof.
  intros Hp. unfold rseq_ip_fixup. rewrite Hp.
  rewrite (proj2 (Z.eqb_neq _ _) (linked_nonzero _ Hlink k)), find_kind.
  by rewrite (framed_version _ _ (code_framed k)), (framed_signature _ _ (code_framed k)).
Qed.

Lemma kind_beq_eq k k' : kind_beq k k' = true ↔ k = k'.
Proof. by destruct k, k'. Qed.

(** A thread that comes back to its CPU, or to another one, has lost what it
    knew of the memory, and is where that does not matter. *)
Lemma fixup_related m g a a' act r st :
  related m g (mk_thread a false act) st → ptr a' = ptr a →
  (ptr a = 0 ∨ ∃ k, ptr a = info_address k) →
  ∃ a1 act1, rseq_ip_fixup info_address (mk_thread a' r act) = Some (mk_thread a1 r act1) ∧
    cpu_id a1 = cpu_id a' ∧ ptr a1 = 0 ∧ related m g (mk_thread a1 r act1) st.
Proof.
  intros Hrel Hptr Hok. destruct Hok as [Hp|[k Hp]].
  - exists a', act. unfold rseq_ip_fixup. simpl. rewrite Hptr, Hp. simpl. do 3 (split; [done|]).
    destruct Hrel as [| | |cl co Ha Hpre Hargs Hin Hp' _]; simpl in *.
    + by constructor.
    + by econstructor.
    + by eapply related_restart.
    + rewrite Hp in Hp'. by destruct (linked_nonzero _ Hlink (which cl)).
  - rewrite (fixup_eq _ k) by (simpl; congruence). simpl.
    eexists _, _. split; [done|]. split; [done|]. split; [done|].
    destruct Hrel as [Ha|cl co v n Ha Hn Hret|cl co Ha Hpre Hargs Hrs|cl co Ha Hpre Hargs Hin Hp' _];
      simpl in *; subst act.
    + by constructor.
    + eapply related_finished; simpl; [done|done|].
      destruct (kind_beq _ k) eqn:Ek; [|done]. apply kind_beq_eq in Ek as <-. fold (cs_of cl). cbn [andb].
      destruct n; [done|]. pose proof (proj1 Hret) as ->. done.
    + destruct (kind_beq _ k) eqn:Ek; simpl; [|by eapply related_restart].
      apply kind_beq_eq in Ek as <-. fold (cs_of cl).
      destruct (in_cs _ _); [|by eapply related_restart].
      eapply related_restart; [done|done|done|]. by left.
    + rewrite Hp in Hp'. apply (linked_inj _ Hlink) in Hp' as ->.
      rewrite (proj2 (kind_beq_eq _ _) eq_refl). fold (cs_of cl). rewrite Hin. simpl.
      eapply related_restart; [done|done|done|]. by left.
Qed.

(** ** Instructions *)

Lemma exec_thread_plain i t cl k s ins k' m' :
  body (code (which cl)) !! pc k = Some ins → exec (cpu_id (abi t)) ins k (memory s) = Some (k', m') →
  exec_thread info_address i t cl k s =
    Next [] (put i (mk_thread (abi t) true (Some (cl, k'))) m' s).
Proof. intros Hb He. unfold exec_thread. rewrite Hb. destruct ins; simpl in He; try done; by simplify_eq/=. Qed.

(** Where the threads of the machine run. *)
Definition place (t : thread) : option Z := if running t then Some (cpu_id (abi t)) else None.
Definition placed (s : machine) : list (option Z) := place <$> threads s.

Lemma placed_put i t' m' s : placed (put i t' m' s) = <[i := place t']> (placed s).
Proof. apply list_fmap_insert. Qed.

Lemma placed_lookup s i t : threads s !! i = Some t → placed s !! i = Some (place t).
Proof. intros Hi. unfold placed. by rewrite list_lookup_fmap, Hi. Qed.

Lemma placed_same i t t' m' s :
  threads s !! i = Some t → place t' = place t → placed (put i t' m' s) = placed s.
Proof. intros Hi Hp. rewrite placed_put, Hp. by apply list_insert_id, placed_lookup. Qed.

(** The state of the atomic machine that goes with one of the machine. *)
Definition view (s : machine) (g : G) (ts : list status) : atomic G := mk_atomic g (placed s) ts.

(** A step that can be matched: the atomic machine makes the same action with
    the same events, to a state that simulates the new one. *)
Definition matched (steps : atomic G → list event → atomic G → Prop)
    (s : machine) (g : G) (ts : list status) (r : result) : Prop :=
  match r with
  | Next es s' => ∃ g' ts', steps (view s g ts) es (view s' g' ts') ∧ simulates s' g' ts'
  | Disabled => True
  | Killed => False
  end.

Section Step.
Context (s : machine) (g : G) (ts : list status) (Hsim : simulates s g ts).
Context (i : nat) (t : thread) (Hi : threads s !! i = Some t).

Lemma matched_silent x st t' :
  (∀ s', placed s' = <[i := place t']> (placed s) →
    atomic_step effect x (view s g ts) [] (view s' g ts)) →
  ts !! i = Some st →
  (running t' = true → running t = true ∧ cpu_id (abi t') = cpu_id (abi t)) →
  related (memory s) g t' st → (ptr (abi t') = 0 ∨ ∃ k, ptr (abi t') = info_address k) →
  matched (atomic_step effect x) s g ts (Next [] (put i t' (memory s) s)).
Proof using Hi Hsim.
  intros Hx Hst Hrun Hrel Hptr. exists g, ts. split; [apply Hx, placed_put|].
  rewrite <-(stays_same ts i st Hst). by eapply simulates_stay.
Qed.

Lemma running_ok : running t = true → 0 ≤ cpu_id (abi t) < NPROCS.
Proof using Hi Hsim. apply (Forall_lookup_1 _ _ _ _ (sim_ok _ _ _ Hsim) Hi). Qed.

Lemma ptr_ok : ptr (abi t) = 0 ∨ ∃ k, ptr (abi t) = info_address k.
Proof using Hi Hsim. apply (Forall_lookup_1 _ _ _ _ (sim_ok _ _ _ Hsim) Hi). Qed.

Context (Hrun : running t = true).

Lemma running_place : placed s !! i = Some (Some (cpu_id (abi t))).
Proof using Hi Hrun. rewrite (placed_lookup _ _ _ Hi). unfold place. by rewrite Hrun. Qed.

(** An instruction of a call that cannot be seen. *)
Lemma exec_silent st t' s' :
  ts !! i = Some st → st ≠ SIdle → place t' = place t → placed s' = <[i := place t']> (placed s) →
  atomic_step effect (AExec i) (view s g ts) [] (view s' g ts).
Proof using Hi Hrun.
  intros Hst Hne Hp Hs. unfold view. rewrite Hs, Hp, list_insert_id by (by apply placed_lookup).
  eapply atomic_internal; [apply running_place|congruence].
Qed.

Lemma matched_exec st t' :
  ts !! i = Some st → st ≠ SIdle → place t' = place t →
  related (memory s) g t' st → (ptr (abi t') = 0 ∨ ∃ k, ptr (abi t') = info_address k) →
  matched (atomic_step effect (AExec i)) s g ts (Next [] (put i t' (memory s) s)).
Proof using Hi Hsim Hrun.
  intros Hst Hne Hp Hrel Hptr. eapply matched_silent; [|done| |done|done].
  - intros s' Hs. by eapply exec_silent.
  - unfold place in Hp. rewrite Hrun in Hp. intros Hr. rewrite Hr in Hp. by injection Hp.
Qed.

Lemma place_put_running a act m' :
  cpu_id a = cpu_id (abi t) → placed (put i (mk_thread a true act) m' s) = placed s.
Proof using Hi Hrun. intros Ha. eapply placed_same; [done|]. unfold place. by rewrite Hrun; simpl; rewrite Ha. Qed.

(** The way into the critical section. *)
Lemma matched_restart cl k :
  activity t = Some (cl, k) → ts !! i = Some (SPending cl) → allowed cl → args_hold cl (gpr k) →
  restartable cl k → matched (atomic_step effect (AExec i)) s g ts (exec_thread info_address i t cl k s).
Proof using Hi Hsim Hrun Hlink.
  intros Ha Hst Hpre Hargs Hr. pose proof (code_framed (which cl)) as F.
  pose proof (allowed_wf _ Hpre) as Hwf. apply NoDup_cons in Hwf as [Htmp _].
  destruct Hr as [Hpc|[Hpc|[Hpc Htm]]].
  - rewrite (exec_thread_plain _ _ _ _ _ (Jmp 0%nat) (mk_core 0 (gpr k) (zf k)) (memory s));
      [|rewrite Hpc; apply (framed_abort _ _ F)|done].
    eapply matched_exec; [done|done|unfold place; by rewrite Hrun| |apply ptr_ok].
    eapply related_restart; [done|done|done|by right; left].
  - unfold exec_thread. rewrite Hpc, (framed_lea _ _ F).
    eapply matched_exec; [done|done|unfold place; by rewrite Hrun| |apply ptr_ok].
    eapply related_restart; [done|done|by apply args_hold_set|]. right; right. split; [done|].
    apply set_reg_eq.
  - unfold exec_thread. rewrite Hpc, (framed_mov _ _ F), Htm.
    eapply matched_exec; [done|done|unfold place; by rewrite Hrun| |right; by eexists].
    eapply related_inside; [done|done|done| |done|].
    + unfold cs_of. rewrite in_cs_code. simpl. apply Nat.ltb_lt. pose proof (framed_offset _ _ F). lia.
    + intros _. exists fuel. split; [done|]. simpl. apply allowed_safe; try done.
      * by apply running_ok.
      * apply (sim_rep _ _ _ Hsim). by apply running_ok.
Qed.

(** An instruction of the critical section on the words of the CPU. *)
Lemma others_undisturbed c ins k k' m' g' :
  cpu_id (abi t) = c → exec c ins k (memory s) = Some (k', m') → Forall (owned c) (touched ins k) →
  (∀ c', c' ≠ c → same c' g g') →
  ∀ j u, j ≠ i → threads s !! j = Some u → running u = true →
    agree (owned (cpu_id (abi u))) (memory s) m' ∧ same (cpu_id (abi u)) g g' ∧
    c ≠ cpu_id (abi u).
Proof using Hi Hsim Hrun.
  intros Hc He Ht Hg j u Hj Hu Hru.
  assert (c ≠ cpu_id (abi u)) as Hne.
  { rewrite <-Hc. eapply (sim_alone _ _ _ Hsim); eauto. }
  split; [|split; [by apply Hg, not_eq_sym|done]].
  intros a Ha. symmetry. eapply exec_untouched; [done|]. intros Hin.
  rewrite Forall_forall in Ht. apply Hne. by eapply owned_once; [apply Ht|].
Qed.

Lemma rep_others c ins k k' m' g' :
  0 ≤ c < NPROCS → exec c ins k (memory s) = Some (k', m') → Forall (owned c) (touched ins k) →
  rep c m' g' → (∀ c', c' ≠ c → same c' g g') → ∀ c', 0 ≤ c' < NPROCS → rep c' m' g'.
Proof using Hi Hsim.
  intros Hc He Ht Hr Hg c' Hc'. destruct (Z.eqb_spec c' c) as [->|Hne]; [done|].
  eapply rep_frame; [|by apply Hg|by apply (sim_rep _ _ _ Hsim)].
  intros a Ha. symmetry. eapply exec_untouched; [done|]. intros Hin.
  rewrite Forall_forall in Ht. apply Hne. by eapply owned_once; [|apply Ht].
Qed.

Lemma matched_inside cl k n :
  activity t = Some (cl, k) → ts !! i = Some (SPending cl) → allowed cl → args_hold cl (gpr k) →
  ptr (abi t) = info_address (which cl) → (n ≤ fuel)%nat →
  safe effect owned rep n cl (cpu_id (abi t)) k (memory s) g →
  matched (atomic_step effect (AExec i)) s g ts (exec_thread info_address i t cl k s).
Proof using Hi Hsim Hrun.
  intros Ha Hst Hpre Hargs Hp Hn Hs. destruct n as [|n]; [done|].
  destruct Hs as (ins & k' & m' & Hb & He & Ht & Hargs' & Hs).
  pose proof (running_ok Hrun) as Hc. set (c := cpu_id (abi t)) in *.
  rewrite (exec_thread_plain _ _ _ _ _ _ _ _ Hb He).
  destruct (in_cs (cs_of cl) (pc k')) eqn:Hin.
  - destruct Hs as [Hr Hs]. exists g, ts.
    split; [eapply exec_silent; [done|done| |apply placed_put]; unfold place; by rewrite Hrun|].
    rewrite <-(stays_same ts i _ Hst). eapply simulates_put; [done|done| | | |].
    + intros j u Hj Hu Hru.
      destruct (others_undisturbed c _ _ _ _ g eq_refl He Ht ltac:(intros; apply same_refl) j u)
        as (?&?&?); eauto.
    + eapply rep_others; [done..|]. intros. apply same_refl.
    + eapply related_inside; [done|done|done|done|done|]. intros _. exists n. split; [lia|done].
    + split; [done|]. right. by eexists.
  - destruct Hs as (v & g' & Hsp & Hr & Hret). exists g', (<[i := SFinished v]> ts).
    assert (∀ c', c' ≠ c → same c' g g') as Hg.
    { intros c' Hne. by eapply effect_local; [|apply (sim_rep _ _ _ Hsim)|]. }
    split.
    { unfold view. rewrite place_put_running by done. eapply atomic_effect; [apply running_place|done..]. }
    eapply simulates_put; [done|done| | | |].
    + intros j u Hj Hu Hru.
      destruct (others_undisturbed c _ _ _ _ g' eq_refl He Ht Hg j u) as (?&?&?); eauto.
    + by eapply rep_others.
    + eapply related_finished; [done| |done]. lia.
    + split; [done|]. apply ptr_ok.
Qed.

Lemma matched_finished cl k v n :
  activity t = Some (cl, k) → ts !! i = Some (SFinished v) → (n ≤ fuel)%nat → returns n cl k v →
  matched (atomic_step effect (AExec i)) s g ts (exec_thread info_address i t cl k s).
Proof using Hi Hsim Hrun.
  intros Ha Hst Hn Hret. destruct n as [|n]; [done|]. destruct Hret as (Hin & ins & Hb & Hret).
  destruct (decide (is_local ins = true)) as [Hl|Hl].
  - assert (∃ k', exec 0 ins k (λ _, 0) = Some (k', λ _, 0) ∧ returns n cl k' v) as (k' & He & Hr).
    { destruct ins; (done || by destruct Hret as [_ Hret]). }
    destruct (exec_local _ (cpu_id (abi t)) _ _ _ (memory s) _ _ Hl He) as [_ He'].
    rewrite (exec_thread_plain _ _ _ _ _ _ _ _ Hb He').
    eapply matched_exec; [done|done|unfold place; by rewrite Hrun| |apply ptr_ok]. eapply related_finished; [done| |done]. lia.
  - destruct ins; try (by destruct Hret). subst v. unfold exec_thread. rewrite Hb.
    exists g, (<[i := SIdle]> ts). split.
    { unfold view. rewrite place_put_running by done. eapply atomic_return; [apply running_place|done]. }
    eapply simulates_stay; [done|done|done| |apply ptr_ok]. by constructor.
Qed.
End Step.

(** ** Every step *)

Definition permitted (a : action) : Prop :=
  match a with ACall _ cl _ _ => allowed cl | _ => True end.

Lemma busy_placed c s : busy c s = false → Some c ∉ placed s.
Proof.
  intros Hb Hin. apply not_true_iff_false in Hb. apply Hb. apply list_elem_of_fmap in Hin as (u & Hu & Hin).
  apply existsb_exists. exists u. split; [by apply list_elem_of_In|]. unfold place in Hu.
  destruct (running u); [|done].
  injection Hu as ->. apply Z.eqb_refl.
Qed.

Lemma act_matched s g ts a :
  simulates s g ts → permitted a → matched (atomic_step effect a) s g ts (act info_address a s).
Proof using Hlink.
  intros Hsim Hperm. destruct a as [i cl ρ z|i|i|i c|i]; simpl;
    (destruct (threads s !! i) as [t|] eqn:Hi; [|done]);
    destruct (sim_lookup _ _ _ _ _ Hsim Hi) as (st & Hst & Hrel).
  - destruct (running t) eqn:Hrun; [|done]. destruct (activity t) eqn:Hact; [done|].
    destruct Hrel; try congruence.
    exists g, (<[i := SPending cl]> ts). split.
    { unfold view. rewrite (place_put_running s i t Hi Hrun) by done.
      eapply atomic_call; [by apply running_place|done]. }
    eapply simulates_stay; [done|done|done| |by apply (ptr_ok _ _ _ Hsim _ _ Hi)].
    eapply related_restart; [done|done| |by right; left].
    apply load_args_hold. by apply allowed_wf, NoDup_cons in Hperm as [_ ?].
  - destruct (running t) eqn:Hrun; [|done]. destruct (activity t) as [[cl k]|] eqn:Hact; [|done].
    destruct Hrel as [|cl' k' v n Ha Hn Hret|cl' k' Ha Hpre Hargs Hr|cl' k' Ha Hpre Hargs Hin Hp Hs];
      try congruence; rewrite Hact in Ha; injection Ha as <- <-.
    + by eapply matched_finished.
    + by eapply matched_restart.
    + destruct (Hs Hrun) as (n & Hn & Hs'). by eapply matched_inside.
  - destruct (running t) eqn:Hrun; [|done].
    eapply matched_silent; [done|done| |done|done| |by apply (ptr_ok _ _ _ Hsim _ _ Hi)].
    { intros s' Hs. unfold view. rewrite Hs. eapply atomic_preempt. by apply running_place. }
    destruct Hrel; by econstructor.
  - destruct (running t) eqn:Hrun; [done|]. destruct (busy c s) eqn:Hbusy; [done|]. simpl.
    destruct (Z.leb_spec 0 c); [|done]. destruct (Z.ltb_spec c NPROCS); [|done]. simpl.
    destruct (fixup_related (memory s) g (abi t) (set_cpu c (abi t)) (activity t) true st)
      as (a1 & act1 & Hf & Hc & Hp & Hr); [|done|by apply (ptr_ok _ _ _ Hsim _ _ Hi)|].
    { destruct t as [a r ac]. simpl in *. by subst r. }
    rewrite Hf. exists g, ts. split.
    { unfold view. rewrite placed_put. unfold place; simpl. rewrite Hc. simpl.
      apply atomic_resume; [by rewrite (placed_lookup _ _ _ Hi); unfold place; rewrite Hrun|lia|].
      by apply busy_placed. }
    rewrite <-(stays_same ts i st Hst).
    eapply simulates_put; [done|done| | |done|].
    + intros j u Hj Hu Hru. split; [done|]. split; [apply same_refl|]. intros _. simpl. rewrite Hc. simpl.
      intros ->. apply (busy_placed _ _ Hbusy). apply list_elem_of_lookup. exists j.
      by apply running_place.
    + intros. by apply (sim_rep _ _ _ Hsim).
    + split; [intros _; simpl; rewrite Hc; simpl; lia|]. by left.
  - destruct (running t) eqn:Hrun; [|done].
    destruct (fixup_related (memory s) g (abi t) (abi t) (activity t) true st)
      as (a1 & act1 & Hf & Hc & Hp & Hr); [|done|by apply (ptr_ok _ _ _ Hsim _ _ Hi)|].
    { destruct Hrel; by econstructor. }
    destruct t as [a r ac]. simpl in *. subst r. rewrite Hf.
    eapply matched_silent; [done|done| |done| |done|by left]; [|by simpl].
    intros s' Hs. unfold view. rewrite Hs. unfold place; simpl. rewrite Hc.
    rewrite list_insert_id by (by rewrite (placed_lookup _ _ _ Hi)).
    eapply atomic_signal. by rewrite (placed_lookup _ _ _ Hi).
Qed.

(** The threads at the start. *)
Lemma start_simulates n m g :
  (∀ c, 0 ≤ c < NPROCS → rep c m g) → simulates (start n m) g (replicate n SIdle).
Proof.
  intros Hrep. split; simpl.
  - apply Forall2_replicate. by constructor.
  - done.
  - apply Forall_replicate. split; [done|by left].
  - intros i j t t' Ht _ _ Hr. apply lookup_replicate in Ht as [-> _]. done.
Qed.

Lemma start_view n m (g : G) : view (start n m) g (replicate n SIdle) = atomic_start n g.
Proof. unfold view, atomic_start, placed. simpl. by rewrite fmap_replicate. Qed.

(** Every run of the machine looks like an atomic one, and kills no thread. *)
Lemma run_matched as_ s g ts :
  simulates s g ts → Forall permitted as_ →
  matched (atomic_run effect as_) s g ts (run info_address as_ s).
Proof using Hlink.
  revert s g ts. induction as_ as [|a as_ IH]; intros s g ts Hsim Hp; simpl.
  - exists g, ts. split; [constructor|done].
  - apply Forall_cons in Hp as [Ha Hp]. pose proof (act_matched s g ts a Hsim Ha) as Hm.
    destruct (act info_address a s) as [es s'| |]; try done.
    destruct Hm as (g1 & ts1 & Hr1 & Hsim1). pose proof (IH s' g1 ts1 Hsim1 Hp) as Hm.
    destruct (run info_address as_ s') as [es' s''| |]; try done.
    destruct Hm as (g2 & ts2 & Hr2 & Hsim2). exists g2, ts2. split; [|done].
    by eapply atomic_next.
Qed.

(** ** A thread that is left alone returns *)

Definition returns_within (n : nat) (i : nat) (s : machine) : Prop :=
  ∃ n' v s', (n' ≤ n)%nat ∧ run info_address (replicate n' (AExec i)) s = Next [EReturn i v] s'.

Lemma within_step n i s s' :
  act info_address (AExec i) s = Next [] s' → returns_within n i s' → returns_within (S n) i s.
Proof.
  intros Ha (n' & v & s'' & Hn & Hr). exists (S n'), v, s''. split; [lia|]. simpl in *.
  by rewrite Ha, Hr.
Qed.

Lemma act_exec i t cl k s :
  threads s !! i = Some t → running t = true → activity t = Some (cl, k) →
  act info_address (AExec i) s = exec_thread info_address i t cl k s.
Proof. intros Hi Hr Ha. simpl. by rewrite Hi, Hr, Ha. Qed.

Lemma put_lookup i t t' m s : threads s !! i = Some t → threads (put i t' m s) !! i = Some t'.
Proof. intros Hi. apply list_lookup_insert_eq. by eapply lookup_lt_Some. Qed.

Lemma finished_within n i t cl k s v :
  threads s !! i = Some t → running t = true → activity t = Some (cl, k) → returns n cl k v →
  returns_within n i s.
Proof.
  revert t k s. induction n as [|n IH]; intros t k s Hi Hrun Ha Hret; [done|].
  pose proof (act_exec _ _ _ _ _ Hi Hrun Ha) as He. destruct Hret as (_ & ins & Hb & Hret).
  destruct (decide (is_local ins = true)) as [Hl|Hl].
  - assert (∃ k', exec 0 ins k (λ _, 0) = Some (k', λ _, 0) ∧ returns n cl k' v) as (k' & Hx & Hr).
    { destruct ins; (done || by destruct Hret as [_ Hret]). }
    destruct (exec_local _ (cpu_id (abi t)) _ _ _ (memory s) _ _ Hl Hx) as [_ Hx'].
    rewrite (exec_thread_plain _ _ _ _ _ _ _ _ Hb Hx') in He.
    eapply within_step; [done|]. by eapply IH; [by eapply put_lookup|..].
  - destruct ins; try (by destruct Hret). unfold exec_thread in He. rewrite Hb in He.
    exists 1%nat, (val v0 (gpr k)). eexists. split; [lia|]. simpl replicate. cbn [run]. by rewrite He.
Qed.

Lemma inside_within n i t cl k s l :
  threads s !! i = Some t → running t = true → activity t = Some (cl, k) →
  safe effect owned rep n cl (cpu_id (abi t)) k (memory s) l → returns_within n i s.
Proof.
  revert t k s l. induction n as [|n IH]; intros t k s l Hi Hrun Ha Hs; [done|].
  destruct Hs as (ins & k' & m' & Hb & Hx & _ & _ & Hs).
  pose proof (act_exec _ _ _ _ _ Hi Hrun Ha) as He.
  rewrite (exec_thread_plain _ _ _ _ _ _ _ _ Hb Hx) in He. eapply within_step; [done|].
  destruct (in_cs _ _).
  - destruct Hs as [_ Hs]. by eapply IH; [by eapply put_lookup|..].
  - destruct Hs as (v & l' & _ & _ & Hr). by eapply finished_within; [by eapply put_lookup|..].
Qed.

Lemma within_mono n n' i s : (n ≤ n')%nat → returns_within n i s → returns_within n' i s.
Proof. intros Hn (k & v & s' & Hk & Hr). exists k, v, s'. split; [lia|done]. Qed.

(** The way into the critical section takes up to three instructions. *)
Lemma restart_within i t cl k s l :
  threads s !! i = Some t → running t = true → activity t = Some (cl, k) → allowed cl →
  args_hold cl (gpr k) → restartable cl k → 0 ≤ cpu_id (abi t) < NPROCS →
  rep (cpu_id (abi t)) (memory s) l → returns_within (3 + fuel) i s.
Proof.
  intros Hi Hrun Ha Hpre Hargs Hr Hc Hrep. pose proof (code_framed (which cl)) as F.
  pose proof (allowed_wf _ Hpre) as Hwf. apply NoDup_cons in Hwf as [Htmp _].
  assert (∀ k t s, threads s !! i = Some t → running t = true → activity t = Some (cl, k) →
    args_hold cl (gpr k) → pc k = 1%nat → 0 ≤ cpu_id (abi t) < NPROCS →
    rep (cpu_id (abi t)) (memory s) l → returns_within (1 + fuel) i s) as H1.
  { clear -F Hpre. intros k t s Hi Hrun Ha Hargs Hpc Hc Hrep.
    pose proof (act_exec _ _ _ _ _ Hi Hrun Ha) as He. unfold exec_thread in He.
    rewrite Hpc, (framed_mov _ _ F) in He. eapply within_step; [done|].
    eapply inside_within; [by eapply put_lookup|done|done|]. by apply allowed_safe. }
  assert (∀ k t s, threads s !! i = Some t → running t = true → activity t = Some (cl, k) →
    args_hold cl (gpr k) → pc k = 0%nat → 0 ≤ cpu_id (abi t) < NPROCS →
    rep (cpu_id (abi t)) (memory s) l → returns_within (2 + fuel) i s) as H0.
  { clear -F Htmp H1. intros k t s Hi Hrun Ha Hargs Hpc Hc Hrep.
    pose proof (act_exec _ _ _ _ _ Hi Hrun Ha) as He. unfold exec_thread in He.
    rewrite Hpc, (framed_lea _ _ F) in He. eapply within_step; [done|].
    eapply H1; [by eapply put_lookup|done|done| |done..]. by apply args_hold_set. }
  destruct Hr as [Hpc|[Hpc|[Hpc _]]].
  - pose proof (act_exec _ _ _ _ _ Hi Hrun Ha) as He.
    rewrite (exec_thread_plain _ _ _ _ _ (Jmp 0%nat) (mk_core 0 (gpr k) (zf k)) (memory s)) in He;
      [|rewrite Hpc; apply (framed_abort _ _ F)|done].
    eapply within_step; [done|]. eapply H0; [by eapply put_lookup|done..].
  - eapply within_mono; [|by eapply H0]. lia.
  - eapply within_mono; [|by eapply H1]. lia.
Qed.

Lemma active_within s g ts i t :
  simulates s g ts → threads s !! i = Some t → running t = true → activity t ≠ None →
  returns_within (3 + fuel) i s.
Proof.
  intros Hsim Hi Hrun Hact. destruct (sim_lookup _ _ _ _ _ Hsim Hi) as (st & Hst & Hrel).
  pose proof (running_ok _ _ _ Hsim _ _ Hi Hrun) as Hc.
  destruct Hrel as [|cl k v n Ha Hn Hret|cl k Ha Hpre Hargs Hr|cl k Ha Hpre Hargs Hin Hp Hs]; [done|..].
  - eapply within_mono; [|by eapply finished_within]. lia.
  - eapply restart_within; try done. by apply (sim_rep _ _ _ Hsim).
  - destruct (Hs Hrun) as (n & Hn & Hs'). eapply within_mono; [|by eapply inside_within]. lia.
Qed.
End Linearizable.
