(* ===== verification/RseqAllocator.v ===== *)
(** * The restartable sequences of the allocator

    The assembly of [try_pop], [try_push], [_cas_set_next_available_slab] and
    [obj_slab::_allocate] against the one-step operations of [ObjectAllocator],
    [SlabManager] and [ObjSlab]: how the words of memory represent managers
    and slabs, and that each sequence is [safe] in the sense of [RseqCorrect]. *)

From S2P Require Import Prelude Bits ConstMath Machine SizeClasses Atomics ObjSlab SlabManager ObjectAllocator Rseq RseqCorrect.

(** ** Critical sections, instruction by instruction *)

Section Symbolic.
Context {G : Type} (effect : call → Z → G → Z → G → Prop).
Context (owned : Z → Z → Prop) (rep : Z → mem → G → Prop).

Lemma safe_stay n cl c k m g i k' m' :
  body (code (which cl)) !! pc k = Some i → exec c i k m = Some (k', m') →
  Forall (owned c) (touched i k) → args_hold cl (gpr k') → in_cs (cs_of cl) (pc k') = true →
  rep c m' g → safe effect owned rep n cl c k' m' g → safe effect owned rep (S n) cl c k m g.
Proof. intros Hb He Ht Ha Hin Hr Hs. exists i, k', m'. do 4 (split; [done|]). by rewrite Hin. Qed.

Lemma safe_leave n cl c k m g i k' m' v g' :
  body (code (which cl)) !! pc k = Some i → exec c i k m = Some (k', m') →
  Forall (owned c) (touched i k) → args_hold cl (gpr k') → in_cs (cs_of cl) (pc k') = false →
  effect cl c g v g' → rep c m' g' → returns n cl k' v → safe effect owned rep (S n) cl c k m g.
Proof.
  intros Hb He Ht Ha Hin Hsp Hr Hret. exists i, k', m'. do 4 (split; [done|]). rewrite Hin. eauto.
Qed.
End Symbolic.

(** The [return] right behind the section. *)
Lemma returns_now n cl k v w :
  in_cs (cs_of cl) (pc k) = false → body (code (which cl)) !! pc k = Some (Return w) →
  val w (gpr k) = v → returns (S n) cl k v.
Proof. intros Hin Hb Hv. split; [done|]. by exists (Return w). Qed.

Lemma returns_later n cl k v i k' :
  in_cs (cs_of cl) (pc k) = false → body (code (which cl)) !! pc k = Some i → is_local i = true →
  exec 0 i k (λ _, 0) = Some (k', λ _, 0) → returns n cl k' v → returns (S n) cl k v.
Proof.
  intros Hin Hb Hl He Hr. split; [done|]. exists i. split; [done|]. destruct i; try done; eauto.
Qed.

(** Execute an instruction inside the section, or the one that leaves it. *)
Ltac cs_stay := eapply safe_stay; [reflexivity|reflexivity| | |reflexivity| |].
Ltac cs_leave := eapply safe_leave; [reflexivity|reflexivity| | |reflexivity| | |].

(** ** Memory *)

(** The region starts at [base]; [made] are the slabs that were constructed in
    it, [owner] the CPU on whose list each of them is. *)
Record layout (base : Z) (made : gset Z) : Prop := {
  layout_base : 0 ≤ base ∧ base + sizeof_memory_layout < 2 ^ 64;
  layout_slab a :
    a ∈ made → a mod sizeof_obj_slab = 0 ∧ base + sizeof_memory_layout ≤ a ∧
    a + sizeof_obj_slab < 2 ^ 64
}.

Section Allocator.
Context (base : Z) (made : gset Z) (owner : Z → Z) (Hlay : layout base made).

(** [m->slab_managers[size_idx]], and the manager of a CPU in it. *)
Definition class_base (size_idx : Z) : Z := base + size_idx * (NPROCS * sizeof_slab_manager cache_size).
Definition manager_at (size_idx cpu : Z) : Z :=
  class_base size_idx + cpu * sizeof_slab_manager cache_size.

Definition is_class (size_idx : Z) : Prop := 0 ≤ size_idx < num_size_classes.
Definition is_cpu (c : Z) : Prop := 0 ≤ c < NPROCS.

(** ** Operations *)

Inductive op :=
  | OPop (size_idx : Z)
  | OPush (ptr size_idx : Z)
  | OCas (size_idx start_cpu expected_slab : Z)
  | OAllocate (slab start_cpu : Z).

Definition op_call (o : op) : call :=
  match o with
  | OPop size_idx => call_pop (class_base size_idx)
  | OPush ptr size_idx => call_push ptr (class_base size_idx)
  | OCas size_idx start_cpu expected_slab =>
      call_cas (manager_at size_idx start_cpu) start_cpu expected_slab
  | OAllocate slab start_cpu => call_allocate slab start_cpu
  end.

(** What the callers see to.  A slab is used by the CPU that has it, [owner],
    which does not change: these are the runs between two calls of
    [_send_slab], the only function that gives a slab to a CPU. *)
Definition op_ok (o : op) : Prop :=
  match o with
  | OPop size_idx => is_class size_idx
  | OPush ptr size_idx => is_class size_idx
  | OCas size_idx start_cpu expected_slab =>
      is_class size_idx ∧ is_cpu start_cpu ∧ expected_slab ≠ 0
  | OAllocate slab start_cpu => slab ∈ made ∧ owner slab = start_cpu ∧ is_cpu start_cpu
  end.

(** The one-step operation on CPU [c]. *)
Definition op_effect (o : op) (c : Z) (s : sys) (v : Z) (s' : sys) : Prop :=
  match o with
  | OPop size_idx => try_pop (λ _, c) size_idx s = Done (v, s')
  | OPush ptr size_idx => try_push (λ _, c) ptr size_idx s = Done (v, s')
  | OCas size_idx start_cpu expected_slab =>
      _cas_set_next_available_slab (λ _, c) size_idx start_cpu expected_slab s = Done (v, s')
  | OAllocate slab start_cpu =>
      run_slab slab (ObjSlab._allocate slab start_cpu c) s = Done (v, s')
  end.

(** ** Representation *)

Definition rep_manager (a : Z) (sm : slab_manager) (m : mem) : Prop :=
  m a = available_slabs_head sm ∧ m (a + 8) = available_slabs_tail sm ∧
  m (a + 16) = current_idx (fc sm) ∧ 0 ≤ current_idx (fc sm) ≤ cache_size ∧
  length (ptrs (fc sm)) = Z.to_nat cache_size ∧
  ∀ i, 0 ≤ i < current_idx (fc sm) → ptrs (fc sm) !! Z.to_nat i = Some (m (a + 24 + 8 * i)).

(** The summary word in memory may lack bits of exhausted words that it still
    has in the state. *)
Definition rep_slab (a : Z) (sl : obj_slab) (m : mem) : Prop :=
  wf_slab sl ∧ wf_slab (set_available_vecs (m a) sl) ∧ m (a + next_offset) = next sl ∧
  ∀ i, 0 ≤ i < 64 → available_slots sl !! Z.to_nat i = Some (m (a + 8 + 8 * i)).

Definition own_slab (c h : Z) : Prop := h ≠ 0 → h ∈ made ∧ owner h = c.

Definition rep_cpu (c : Z) (m : mem) (s : sys) : Prop :=
  is_cpu c ∧ (∀ a, a ∈ made → is_Some (slabs s !! a)) ∧
  (∀ k, is_class k → ∃ sm, slab_managers s !! (k, c) = Some sm ∧
    rep_manager (manager_at k c) sm m ∧ own_slab c (available_slabs_head sm)) ∧
  (∀ a, a ∈ made → owner a = c → ∃ sl, slabs s !! a = Some sl ∧
    rep_slab a sl m ∧ own_slab c (next sl)).

Definition owned_cpu (c a : Z) : Prop :=
  is_cpu c ∧ (∃ k, is_class k ∧ manager_at k c ≤ a < manager_at k c + sizeof_slab_manager cache_size) ∨
  ∃ b, b ∈ made ∧ owner b = c ∧ b ≤ a < b + sizeof_obj_slab.

Definition same_cpu (c : Z) (s s' : sys) : Prop :=
  (∀ k, slab_managers s !! (k, c) = slab_managers s' !! (k, c)) ∧
  (∀ a, a ∈ made → owner a = c → slabs s !! a = slabs s' !! a) ∧
  (∀ a, is_Some (slabs s !! a) → is_Some (slabs s' !! a)).

Ltac consts :=
  slab_consts; unfold manager_at, class_base, is_class, is_cpu in *;
  change (sizeof_slab_manager cache_size) with 128 in *; change NPROCS with 8 in *;
  change num_size_classes with 11 in *; change sizeof_memory_layout with 11392 in *;
  change cache_size with 13 in *; change next_offset with 520 in *.

Lemma owned_cpu_once c c' a : owned_cpu c a → owned_cpu c' a → c = c'.
Proof using Hlay.
  intros [[Hc (k & Hk & Ha)]|(b & Hb & <- & Ha)] [[Hc' (k' & Hk' & Ha')]|(b' & Hb' & <- & Ha')].
  - consts. lia.
  - destruct (layout_slab _ _ Hlay b' Hb'). consts. lia.
  - destruct (layout_slab _ _ Hlay b Hb). consts. lia.
  - destruct (layout_slab _ _ Hlay b Hb) as [Hm _], (layout_slab _ _ Hlay b' Hb') as [Hm' _]. f_equal.
    pose proof (Z.div_mod b sizeof_obj_slab). pose proof (Z.div_mod b' sizeof_obj_slab). consts. lia.
Qed.

Lemma owned_manager k c i :
  is_cpu c → is_class k → 0 ≤ i < sizeof_slab_manager cache_size → owned_cpu c (manager_at k c + i).
Proof. intros Hc Hk Hi. left. split; [done|]. exists k. split; [done|]. lia. Qed.

Lemma owned_slab a c i : a ∈ made → owner a = c → 0 ≤ i < sizeof_obj_slab → owned_cpu c (a + i).
Proof. intros Ha Ho Hi. right. exists a. split_and!; [done|done|lia..]. Qed.

Lemma rep_manager_agree A sm m m' :
  (∀ i, 0 ≤ i < sizeof_slab_manager cache_size → m (A + i) = m' (A + i)) →
  rep_manager A sm m → rep_manager A sm m'.
Proof.
  intros Hw (H1 & H2 & H3 & H4 & H5 & H6). pose proof (Hw 0) as Hw0. rewrite Z.add_0_r in Hw0.
  split_and!; [| | |lia|lia|done|].
  - rewrite <-Hw0; [done|consts; lia].
  - rewrite <-Hw; [done|consts; lia].
  - rewrite <-Hw; [done|consts; lia].
  - intros i Hi. rewrite <-Z.add_assoc, <-Hw by (consts; lia). rewrite Z.add_assoc. by apply H6.
Qed.

Lemma rep_slab_agree A sl m m' :
  (∀ i, 0 ≤ i < sizeof_obj_slab → m (A + i) = m' (A + i)) → rep_slab A sl m → rep_slab A sl m'.
Proof.
  intros Hw (H1 & H2 & H3 & H4). pose proof (Hw 0) as Hw0. rewrite Z.add_0_r in Hw0.
  split_and!; [done| | |].
  - rewrite <-Hw0; [done|consts; lia].
  - rewrite <-Hw; [done|consts; lia].
  - intros i Hi. rewrite <-Z.add_assoc, <-Hw by (consts; lia). rewrite Z.add_assoc. by apply H4.
Qed.

Lemma rep_cpu_frame c m m' s s' :
  agree (owned_cpu c) m m' → same_cpu c s s' → rep_cpu c m s → rep_cpu c m' s'.
Proof.
  intros Ha (Hsm & Hsl & Hex) (Hc & Hall & Hrm & Hrs). split; [done|]. split; [by auto|]. split.
  - intros k Hk. destruct (Hrm k Hk) as (sm & Hl & Hr & Ho).
    exists sm. rewrite <-Hsm. split; [done|]. split; [|done].
    eapply rep_manager_agree; [|done]. intros i Hi. apply Ha. by apply owned_manager.
  - intros a Hm Ho. destruct (Hrs a Hm Ho) as (sl & Hl & Hr & Hn).
    exists sl. rewrite <-Hsl by done. split; [done|]. split; [|done].
    eapply rep_slab_agree; [|done]. intros i Hi. apply Ha. by apply owned_slab.
Qed.

(** ** The one-step operations, as functions of what they read *)

Definition put_sm (k c : Z) (sm : slab_manager) (s : sys) : sys :=
  set_managers (<[(k, c) := sm]> (slab_managers s)) s.
Definition put_sl (a : Z) (sl : obj_slab) (s : sys) : sys :=
  set_slabs (<[a := sl]> (slabs s)) s.

Lemma try_pop_eq c k s sm :
  slab_managers s !! (k, c) = Some sm →
  try_pop (λ _, c) k s =
    if current_idx (fc sm) =? 0 then Done (0, tick s)
    else match ptrs (fc sm) !! Z.to_nat (current_idx (fc sm) - 1) with
         | Some p =>
             Done (p, put_sm k c (set_fc (mk_fc (u64 (current_idx (fc sm) - 1)) (ptrs (fc sm))) sm) (tick s))
         | None => Fault
         end.
Proof.
  intros Hl. cbv [try_pop get_manager gets from_opt read_cpu mbind ST_bind mret ST_ret id].
  cbn [slab_managers tick]. rewrite Hl. destruct (_ =? 0); [done|]. by destruct (ptrs _ !! _).
Qed.

Lemma try_push_eq c p k s sm :
  slab_managers s !! (k, c) = Some sm →
  try_push (λ _, c) p k s =
    if current_idx (fc sm) =? cache_size then Done (1, tick s)
    else if current_idx (fc sm) <? cache_size then
      Done (0, put_sm k c (set_fc (mk_fc (u64 (current_idx (fc sm) + 1))
        (<[Z.to_nat (current_idx (fc sm)) := p]> (ptrs (fc sm)))) sm) (tick s))
    else Fault.
Proof.
  intros Hl. cbv [try_push get_manager gets from_opt read_cpu mbind ST_bind mret ST_ret id require].
  cbn [slab_managers tick]. rewrite Hl. destruct (_ =? cache_size); [done|]. by destruct (_ <? cache_size).
Qed.

Lemma cas_migrated c k sc e s :
  c ≠ sc → _cas_set_next_available_slab (λ _, c) k sc e s = Done (ANY, tick s).
Proof.
  intros Hne. cbv [_cas_set_next_available_slab read_cpu mbind ST_bind mret ST_ret].
  by rewrite (proj2 (Z.eqb_neq c sc) Hne).
Qed.

Lemma cas_eq c k sc e s sm :
  slab_managers s !! (k, sc) = Some sm →
  _cas_set_next_available_slab (λ _, c) k sc e s =
    if negb (c =? sc) then Done (ANY, tick s)
    else if negb (available_slabs_head sm =? e) then Done (ANY, tick s)
    else match slabs s !! available_slabs_head sm with
         | Some sl => Done (0, put_sm k sc (set_head (next sl) sm)
             (put_sl (available_slabs_head sm) sl (tick s)))
         | None => Fault
         end.
Proof.
  intros Hl. cbv [_cas_set_next_available_slab get_manager gets from_opt read_cpu mbind ST_bind mret
    ST_ret id run_slab]. destruct (c =? sc); [|done]. cbn [negb slab_managers tick slabs].
  rewrite Hl. destruct (_ =? e); [|done]. cbn [negb slabs tick]. by destruct (slabs s !! _).
Qed.

Lemma allocate_eq c a sc s sl v sl' :
  slabs s !! a = Some sl → ObjSlab._allocate a sc c sl = Done (v, sl') →
  run_slab a (ObjSlab._allocate a sc c) s = Done (v, put_sl a sl' s).
Proof. intros Hl Ha. unfold run_slab. by rewrite Hl, Ha. Qed.

(** ** States of the CPUs *)

Lemma same_cpu_refl c s : same_cpu c s s.
Proof. by split. Qed.

Lemma same_cpu_tick c s s' : same_cpu c s s' → same_cpu c s (tick s').
Proof. intros (H1 & H2 & H3). by split_and!. Qed.

Lemma same_cpu_ticks c s s' : same_cpu c s s' → same_cpu c (tick s) (tick s').
Proof. intros (H1 & H2 & H3). by split_and!. Qed.

Lemma same_put_sm c k c' sm s s' :
  same_cpu c s s' → same_cpu c (put_sm k c' sm s) (put_sm k c' sm s').
Proof.
  intros (H1 & H2 & H3). split_and!; [|done..]. intros k'. simpl.
  destruct (decide ((k', c) = (k, c'))) as [->|Hne]; [by rewrite !lookup_insert_eq|].
  by rewrite !lookup_insert_ne.
Qed.

Lemma same_put_sl c a sl s s' :
  same_cpu c s s' → same_cpu c (put_sl a sl s) (put_sl a sl s').
Proof.
  intros (H1 & H2 & H3). split_and!; [done| |].
  - intros b Hb Ho. simpl. destruct (decide (b = a)) as [->|Hne]; [by rewrite !lookup_insert_eq|].
    rewrite !lookup_insert_ne by done. auto.
  - intros b. simpl. rewrite !lookup_insert_is_Some'. naive_solver.
Qed.

Lemma same_other_sm c k c' sm s s' : c ≠ c' → same_cpu c s s' → same_cpu c s (put_sm k c' sm s').
Proof.
  intros Hne (H1 & H2 & H3). split_and!; [|done..]. intros k'. simpl.
  rewrite lookup_insert_ne; [done|congruence].
Qed.

Lemma same_other_sl c a sl s s' : owner a ≠ c → same_cpu c s s' → same_cpu c s (put_sl a sl s').
Proof.
  intros Hne (H1 & H2 & H3). split_and!; [done| |].
  - intros b Hb Ho. simpl. rewrite lookup_insert_ne; [auto|congruence].
  - intros b. simpl. rewrite !lookup_insert_is_Some'. naive_solver.
Qed.

Lemma same_put_same c a sl s : slabs s !! a = Some sl → same_cpu c s (put_sl a sl s).
Proof. intros Hl. unfold put_sl. rewrite insert_id by done. by destruct s. Qed.

Lemma op_effect_local o c c' m s v s' :
  op_ok o → op_effect o c s v s' → rep_cpu c m s → c' ≠ c → same_cpu c' s s'.
Proof.
  intros Hok He (Hc & Hall & Hrm & Hrs) Hne. destruct o as [k|p k|k sc e|a sc]; simpl in *.
  - destruct (Hrm k Hok) as (sm & Hl & _ & _). rewrite (try_pop_eq _ _ _ _ Hl) in He.
    destruct (_ =? 0); [|destruct (_ !! _); [|done]]; simplify_eq;
      auto using same_other_sm, same_cpu_tick, same_cpu_refl.
  - destruct (Hrm k Hok) as (sm & Hl & _ & _). rewrite (try_push_eq _ _ _ _ _ Hl) in He.
    destruct (_ =? cache_size); [|destruct (_ <? _); [|done]]; simplify_eq;
      auto using same_other_sm, same_cpu_tick, same_cpu_refl.
  - destruct Hok as (Hk & Hsc & He0). destruct (decide (c = sc)) as [->|Hcs].
    + destruct (Hrm k Hk) as (sm & Hl & _ & Ho). rewrite (cas_eq _ _ _ _ _ _ Hl), Z.eqb_refl in He.
      cbn [negb] in He. destruct (Z.eqb_spec (available_slabs_head sm) e) as [Hh|]; cbn [negb] in He;
        [|simplify_eq; by apply same_cpu_tick, same_cpu_refl].
      destruct (_ !! available_slabs_head sm); [|done]. simplify_eq.
      apply same_other_sm, same_other_sl, same_cpu_tick, same_cpu_refl; [done|].
      destruct Ho; congruence.
    + rewrite cas_migrated in He by done. injection He as <- <-.
      by apply same_cpu_tick, same_cpu_refl.
  - destruct Hok as (Ha & Ho & Hsc). unfold run_slab in He. destruct (slabs s !! a) as [sl|] eqn:Hl; [|done].
    destruct (decide (c = sc)) as [->|Hcs].
    + destruct (ObjSlab._allocate _ _ _ _) as [[v' sl']| | |]; simplify_eq.
      apply same_other_sl, same_cpu_refl. congruence.
    + revert He. cbv [ObjSlab._allocate require mbind ST_bind mret ST_ret].
      rewrite (proj2 (Z.eqb_neq c sc) Hcs). cbn [negb]. destruct (_ =? 0); [|done].
      intros [= <- <-]. by apply same_put_same.
Qed.

Lemma op_effect_frame o c m s1 s2 v s1' :
  op_ok o → op_effect o c s1 v s1' → rep_cpu c m s1 → same_cpu c s1 s2 →
  ∃ s2', op_effect o c s2 v s2' ∧ same_cpu c s1' s2'.
Proof.
  intros Hok He (Hc & Hall & Hrm & Hrs) Hs. pose proof Hs as (Hsm & Hsl & Hex).
  destruct o as [k|p k|k sc e|a sc]; simpl in *.
  - destruct (Hrm k Hok) as (sm & Hl & _ & _). pose proof Hl as Hl'. rewrite Hsm in Hl'.
    rewrite (try_pop_eq _ _ _ _ Hl'). rewrite (try_pop_eq _ _ _ _ Hl) in He.
    destruct (_ =? 0); [|destruct (_ !! _); [|done]]; simplify_eq;
      eauto using same_put_sm, same_cpu_ticks.
  - destruct (Hrm k Hok) as (sm & Hl & _ & _). pose proof Hl as Hl'. rewrite Hsm in Hl'.
    rewrite (try_push_eq _ _ _ _ _ Hl'). rewrite (try_push_eq _ _ _ _ _ Hl) in He.
    destruct (_ =? cache_size); [|destruct (_ <? _); [|done]]; simplify_eq;
      eauto using same_put_sm, same_cpu_ticks.
  - destruct Hok as (Hk & Hsc & He0). destruct (decide (c = sc)) as [->|Hcs].
    + destruct (Hrm k Hk) as (sm & Hl & _ & Ho). pose proof Hl as Hl'. rewrite Hsm in Hl'.
      rewrite (cas_eq _ _ _ _ _ _ Hl'). rewrite (cas_eq _ _ _ _ _ _ Hl) in He.
      rewrite Z.eqb_refl in *. cbn [negb] in *.
      destruct (Z.eqb_spec (available_slabs_head sm) e) as [Hh|]; cbn [negb] in *;
        [|simplify_eq; eauto using same_cpu_ticks].
      rewrite <-Hsl by (apply Ho; congruence).
      destruct (_ !! available_slabs_head sm); [|done]. simplify_eq.
      eauto using same_put_sm, same_put_sl, same_cpu_ticks.
    + rewrite cas_migrated in * by done. injection He as <- <-. eauto using same_cpu_ticks.
  - destruct Hok as (Ha & Ho & Hsc). unfold run_slab in *.
    destruct (slabs s1 !! a) as [sl|] eqn:Hl; [|done].
    destruct (Hex a) as [sl2 Hl2]; [by eexists|]. rewrite Hl2.
    destruct (decide (c = sc)) as [->|Hcs].
    + rewrite Hsl, Hl2 in Hl by done. simplify_eq.
      destruct (ObjSlab._allocate _ _ _ _) as [[v' sl']| | |]; simplify_eq.
      eexists. split; [done|]. by apply same_put_sl.
    + revert He. cbv [ObjSlab._allocate require mbind ST_bind mret ST_ret].
      rewrite (proj2 (Z.eqb_neq c sc) Hcs). cbn [negb]. destruct (_ =? 0); [|done].
      intros [= <- <-]. eexists. split; [done|].
      fold (put_sl a sl s1) (put_sl a sl2 s2). unfold put_sl. rewrite !insert_id by done.
      by destruct s1, s2.
Qed.

(** ** The sequences *)

Definition cpu_effect (cl : call) (c : Z) (s : sys) (v : Z) (s' : sys) : Prop :=
  ∃ o, cl = op_call o ∧ op_ok o ∧ op_effect o c s v s'.

Notation cs_safe := (safe cpu_effect owned_cpu rep_cpu).

Lemma manager_address c k :
  is_cpu c → is_class k → u64 (u64 (c ≪ 7) + class_base k) = manager_at k c.
Proof using Hlay.
  intros Hc Hk. destruct (layout_base _ _ Hlay). rewrite Z.shiftl_mul_pow2 by lia.
  change (2 ^ 7) with 128. consts. rewrite (wrap_small 64 (c * 128)) by word_const.
  rewrite wrap_small by word_const. lia.
Qed.

(** Offsets into a manager do not wrap around. *)
Lemma manager_offset c k d :
  is_cpu c → is_class k → 0 ≤ d < sizeof_slab_manager cache_size →
  u64 (manager_at k c + d) = manager_at k c + d.
Proof using Hlay.
  intros Hc Hk Hd. destruct (layout_base _ _ Hlay). apply wrap_small. consts. word_const.
Qed.

Lemma ea_manager c k r d ρ :
  is_cpu c → is_class k → 0 ≤ d < sizeof_slab_manager cache_size → ρ r = manager_at k c →
  ea (Addr d r None) ρ = manager_at k c + d.
Proof using Hlay.
  intros Hc Hk Hd Hr. simpl. rewrite Hr, Z.add_0_r, Z.add_comm. by apply manager_offset.
Qed.

Lemma ea_manager_index c k r i d ρ :
  is_cpu c → is_class k → 0 ≤ d + 8 * ρ i < sizeof_slab_manager cache_size → ρ r = manager_at k c →
  ea (Addr d r (Some (i, 8))) ρ = manager_at k c + (d + 8 * ρ i).
Proof using Hlay.
  intros Hc Hk Hd Hr. simpl. rewrite Hr.
  replace (d + manager_at k c + ρ i * 8) with (manager_at k c + (d + 8 * ρ i)) by lia.
  by apply manager_offset.
Qed.

(** A change of one manager of the CPU. *)
Lemma rep_cpu_manager c k m m' s s' sm' :
  is_class k → rep_cpu c m s →
  (∀ a, ¬ (manager_at k c ≤ a < manager_at k c + sizeof_slab_manager cache_size) → m a = m' a) →
  slab_managers s' !! (k, c) = Some sm' →
  (∀ k', k' ≠ k → slab_managers s' !! (k', c) = slab_managers s !! (k', c)) →
  (∀ a, slabs s' !! a = slabs s !! a) →
  rep_manager (manager_at k c) sm' m' → own_slab c (available_slabs_head sm') →
  rep_cpu c m' s'.
Proof using Hlay.
  intros Hk (Hc & Hall & Hrm & Hrs) Hm Hl Hothers Hsl Hrep Hown.
  split; [done|]. split; [intros a Ha; rewrite Hsl; by apply Hall|]. split.
  - intros k' Hk'. destruct (decide (k' = k)) as [->|Hne]; [by exists sm'|].
    destruct (Hrm k' Hk') as (sm & Hl' & Hr & Ho). exists sm. rewrite Hothers by done.
    split; [done|]. split; [|done]. eapply rep_manager_agree; [|done].
    intros i Hi. apply Hm. consts. lia.
  - intros a Ha Ho. destruct (Hrs a Ha Ho) as (sl & Hl' & Hr & Hn). exists sl. rewrite Hsl.
    split; [done|]. split; [|done]. eapply rep_slab_agree; [|done].
    intros i Hi. apply Hm. destruct (layout_slab _ _ Hlay a Ha). consts. lia.
Qed.

Lemma store_eq a v m : store a v m a = v.
Proof. unfold store. by rewrite Z.eqb_refl. Qed.

Lemma store_ne a v m b : b ≠ a → store a v m b = m b.
Proof. intros Hne. unfold store. by rewrite (proj2 (Z.eqb_neq b a)). Qed.

(** The rest of [try_pop] and [try_push], when the address of the manager is
    computed. *)
Section Cache.
Context (c k : Z) (m : mem) (s : sys) (sm : slab_manager).
Context (Hk : is_class k) (Hrep : rep_cpu c m s) (Hl : slab_managers s !! (k, c) = Some sm).
Context (Hsm : rep_manager (manager_at k c) sm m) (Hown : own_slab c (available_slabs_head sm)).

Let A := manager_at k c.
Let idx := current_idx (fc sm).

Lemma cache_cpu : is_cpu c.
Proof using Hrep. apply Hrep. Qed.

Lemma cache_ea d ρ :
  0 ≤ d < sizeof_slab_manager cache_size → ρ r_fc_cache = A →
  ea (Addr d r_fc_cache None) ρ = A + d.
Proof using Hlay Hk Hrep. intros. apply ea_manager; auto using cache_cpu. Qed.

Lemma cache_owned d : 0 ≤ d < sizeof_slab_manager cache_size → Forall (owned_cpu c) [A + d].
Proof using Hlay Hk Hrep. intros. constructor; [|done]. apply owned_manager; auto using cache_cpu. Qed.

Lemma cache_rep_tick : rep_cpu c m (tick s).
Proof using Hrep. eapply rep_cpu_frame; [done|by apply same_cpu_tick, same_cpu_refl|exact Hrep]. Qed.

(** A change of the cache of the manager. *)
Lemma cache_rep m' f s' :
  (∀ a, ¬ (A + 16 ≤ a < A + sizeof_slab_manager cache_size) → m' a = m a) →
  m' (A + 16) = current_idx f → 0 ≤ current_idx f ≤ cache_size →
  length (ptrs f) = Z.to_nat cache_size →
  (∀ i, 0 ≤ i < current_idx f → ptrs f !! Z.to_nat i = Some (m' (A + 24 + 8 * i))) →
  s' = put_sm k c (set_fc f sm) (tick s) ∨ f = fc sm ∧ s' = s →
  rep_cpu c m' s'.
Proof using Hlay Hk Hrep Hl Hsm Hown.
  intros Hm Hi Hr Hlen Hp Hs'. destruct Hsm as (Hh & Htl & _).
  assert (rep_manager A (set_fc f sm) m') as Hr'.
  { split_and!; simpl; [| |done|lia|lia|done|done].
    - rewrite Hm by (consts; lia). done.
    - rewrite Hm by (consts; lia). done. }
  eapply (rep_cpu_manager c k m m' s s' (set_fc f sm)); [done|done| | | | |done|done].
  - intros a Ha. symmetry. apply Hm. unfold A. consts. lia.
  - destruct Hs' as [->|[-> ->]]; [by simpl; rewrite lookup_insert_eq|]. rewrite Hl. by destruct sm.
  - intros k' Hne. destruct Hs' as [->|[-> ->]]; [|done].
    simpl. rewrite lookup_insert_ne; [done|congruence].
  - intros a. by destruct Hs' as [->|[-> ->]].
Qed.

Lemma pop_args ρ : ρ r_sm_base = class_base k → args_hold (op_call (OPop k)) ρ.
Proof. intros H. by repeat constructor. Qed.

Lemma pop_loaded n ρ z :
  ρ r_fc_cache = A → ρ r_sm_base = class_base k →
  cs_safe (6 + n) (op_call (OPop k)) c (mk_core 5 ρ z) m s.
Proof using Hlay Hk Hrep Hl Hsm Hown.
  intros Hfc Hb. pose proof Hsm as (_ & _ & Hidx & Hr & Hlen & Hptrs). fold A in Hidx, Hptrs.
  cs_stay; [cbn [gpr touched]; rewrite cache_ea by (done || consts; lia); apply cache_owned; consts; lia|
    by apply pop_args|done|].
  cbn [pc gpr zf]. rewrite cache_ea by (done || consts; lia). rewrite Hidx. fold idx in Hr, Hptrs |- *.
  cs_stay; [done|by apply pop_args|done|]. cbn [pc gpr zf]. rewrite set_reg_eq.
  destruct (Z.eqb_spec idx 0) as [H0|H0].
  - cs_leave; [done|by apply pop_args| |apply cache_rep_tick|].
    + exists (OPop k). split; [done|]. split; [done|]. simpl. rewrite (try_pop_eq _ _ _ _ Hl).
      fold idx. by rewrite H0.
    + by eapply returns_now.
  - set (ρ1 := set_reg r_ret idx ρ).
    assert (ea (Addr 16 r_fc_cache (Some (r_ret, 8))) ρ1 = A + (16 + 8 * idx)) as Hea.
    { rewrite ea_manager_index with (c := c) (k := k); auto using cache_cpu.
      subst ρ1. rewrite set_reg_eq. consts. lia. }
    cs_stay; [done|by apply pop_args|done|]. cbn [pc gpr zf].
    cs_stay; [cbn [gpr touched]; rewrite Hea; apply cache_owned; consts; lia|by apply pop_args|done|].
    cbn [pc gpr zf]. rewrite Hea. set (ret := m (A + (16 + 8 * idx))). set (ρ2 := set_reg r_ret ret ρ1).
    assert (ptrs (fc sm) !! Z.to_nat (idx - 1) = Some ret) as Hret.
    { rewrite Hptrs by lia. f_equal. unfold ret. f_equal. lia. }
    assert (u64 (idx - 1) = idx - 1) as Hw by (apply wrap_small; consts; word_const).
    cs_leave; [cbn [gpr touched]; rewrite cache_ea by (done || consts; lia); apply cache_owned; consts; lia|
      by apply pop_args| | |].
    + exists (OPop k). split; [done|]. split; [done|]. simpl. rewrite (try_pop_eq _ _ _ _ Hl).
      fold idx. rewrite (proj2 (Z.eqb_neq idx 0) H0), Hret. done.
    + cbn [gpr]. rewrite cache_ea by (done || consts; lia). rewrite Hidx. fold idx. rewrite Hw.
      eapply cache_rep; [..|by left]; simpl.
      * intros a Ha. apply store_ne. consts. lia.
      * apply store_eq.
      * lia.
      * done.
      * intros i Hi. rewrite store_ne by lia. apply Hptrs. lia.
    + by eapply returns_now.
Qed.

Lemma push_args p ρ :
  ρ r_ptr = p → ρ r_sm_base = class_base k → args_hold (op_call (OPush p k)) ρ.
Proof. intros H H'. by repeat constructor. Qed.

Lemma push_loaded n p ρ z :
  ρ r_fc_cache = A → ρ r_ptr = p → ρ r_sm_base = class_base k →
  cs_safe (6 + n) (op_call (OPush p k)) c (mk_core 5 ρ z) m s.
Proof using Hlay Hk Hrep Hl Hsm Hown.
  intros Hfc Hp Hb. pose proof Hsm as (_ & _ & Hidx & Hr & Hlen & Hptrs). fold A in Hidx, Hptrs.
  cs_stay; [cbn [gpr touched]; rewrite cache_ea by (done || consts; lia); apply cache_owned; consts; lia|
    by apply push_args|done|].
  cbn [pc gpr zf]. rewrite cache_ea by (done || consts; lia). rewrite Hidx. fold idx in Hr, Hptrs |- *.
  cs_stay; [done|by apply push_args|done|]. cbn [pc gpr zf val]. rewrite set_reg_eq.
  change (u64 13) with cache_size. set (ρ1 := set_reg r_idx idx ρ).
  destruct (Z.eqb_spec idx cache_size) as [Hfull|Hfull].
  - cs_leave; [done|by apply push_args| |apply cache_rep_tick|].
    + exists (OPush p k). split; [done|]. split; [done|]. simpl. rewrite (try_push_eq _ _ _ _ _ Hl).
      fold idx. rewrite Hfull, Z.eqb_refl. done.
    + by eapply returns_now.
  - assert (ea (Addr 24 r_fc_cache (Some (r_idx, 8))) ρ1 = A + (24 + 8 * idx)) as Hea.
    { rewrite ea_manager_index with (c := c) (k := k); auto using cache_cpu.
      subst ρ1. rewrite set_reg_eq. consts. lia. }
    cs_stay; [done|by apply push_args|done|]. cbn [pc gpr zf].
    cs_stay; [cbn [gpr touched]; rewrite Hea; apply cache_owned; consts; lia|by apply push_args| |].
    { cbn [gpr]. rewrite Hea. eapply (cache_rep _ (fc sm)); [..|by right].
      - intros a Ha. apply store_ne. consts. lia.
      - rewrite store_ne by lia. done.
      - done.
      - done.
      - intros i Hi. rewrite store_ne by (fold idx in Hi; lia). by apply Hptrs. }
    cbn [pc gpr zf]. rewrite Hea. change (ρ1 r_ptr) with (ρ r_ptr). rewrite Hp.
    set (m1 := store (A + (24 + 8 * idx)) p m).
    assert (m1 (A + 16) = idx) as Hidx1 by (unfold m1; rewrite store_ne by lia; done).
    assert (u64 (idx + 1) = idx + 1) as Hw by (apply wrap_small; consts; word_const).
    cs_leave; [cbn [gpr touched]; rewrite cache_ea by (done || consts; lia); apply cache_owned; consts; lia|
      by apply push_args| | |].
    + exists (OPush p k). split; [done|]. split; [done|]. simpl. rewrite (try_push_eq _ _ _ _ _ Hl).
      fold idx. rewrite (proj2 (Z.eqb_neq idx cache_size) Hfull).
      rewrite (proj2 (Z.ltb_lt idx cache_size)) by lia. done.
    + cbn [gpr]. rewrite cache_ea by (done || consts; lia). rewrite Hidx1, Hw.
      eapply cache_rep; [..|by left]; simpl.
      * intros a Ha. unfold m1. rewrite !store_ne by (consts; lia). done.
      * apply store_eq.
      * lia.
      * by rewrite length_insert.
      * intros i Hi. rewrite store_ne by lia. unfold m1. destruct (decide (i = idx)) as [->|Hne].
        -- rewrite list_lookup_insert_eq by (rewrite Hlen; lia).
           f_equal. symmetry. replace (A + 24 + 8 * idx) with (A + (24 + 8 * idx)) by lia. apply store_eq.
        -- rewrite list_lookup_insert_ne, store_ne by lia. apply Hptrs. lia.
    + by eapply returns_now.
Qed.
End Cache.

Lemma rep_cpu_class c m s k :
  rep_cpu c m s → is_class k →
  ∃ sm, slab_managers s !! (k, c) = Some sm ∧ rep_manager (manager_at k c) sm m ∧
    own_slab c (available_slabs_head sm).
Proof. intros (_ & _ & Hrm & _). apply Hrm. Qed.

Lemma pop_safe k c co m s :
  is_class k → rep_cpu c m s → pc co = 2%nat → args_hold (op_call (OPop k)) (gpr co) →
  cs_safe 9 (op_call (OPop k)) c co m s.
Proof using Hlay.
  intros Hk Hrep Hpc Ha. destruct co as [pc0 ρ z]. simpl in Hpc, Ha. subst pc0.
  destruct (rep_cpu_class _ _ _ _ Hrep Hk) as (sm & Hl & Hsm & Hown).
  pose proof (Forall_inv Ha) as Hb. simpl in Hb.
  do 3 (cs_stay; [done|by apply pop_args|done|]).
  eapply (pop_loaded _ _ _ _ _ Hk Hrep Hl Hsm Hown 0); [|done].
  cbn [gpr val set_reg reg_beq]. rewrite Hb. apply manager_address; [apply Hrep|done].
Qed.

Lemma push_safe p k c co m s :
  is_class k → rep_cpu c m s → pc co = 2%nat → args_hold (op_call (OPush p k)) (gpr co) →
  cs_safe 9 (op_call (OPush p k)) c co m s.
Proof using Hlay.
  intros Hk Hrep Hpc Ha. destruct co as [pc0 ρ z]. simpl in Hpc, Ha. subst pc0.
  destruct (rep_cpu_class _ _ _ _ Hrep Hk) as (sm & Hl & Hsm & Hown).
  pose proof (Forall_inv Ha) as Hp. pose proof (Forall_inv (Forall_inv_tail Ha)) as Hb. simpl in Hp, Hb.
  do 3 (cs_stay; [done|by apply push_args|done|]).
  eapply (push_loaded _ _ _ _ _ Hk Hrep Hl Hsm Hown 0); [|done|done].
  cbn [gpr val set_reg reg_beq]. rewrite Hb. apply manager_address; [apply Hrep|done].
Qed.

(** ** [_cas_set_next_available_slab] *)

Lemma cas_args k sc e ρ :
  ρ r_this = manager_at k sc → ρ r_start_cpu = sc → ρ r_expected_slab = e →
  args_hold (op_call (OCas k sc e)) ρ.
Proof. intros H H' H''. by repeat constructor. Qed.

Lemma u32_cpu c : is_cpu c → u32 c = c.
Proof. intros Hc. apply wrap_small. consts. word_const. Qed.

(** The head of the list moves to the next slab. *)
Lemma rep_cpu_head c k m s sm h s' :
  is_class k → rep_cpu c m s → slab_managers s !! (k, c) = Some sm →
  rep_manager (manager_at k c) sm m → own_slab c h →
  slab_managers s' = <[(k, c) := set_head h sm]> (slab_managers s) →
  (∀ a, slabs s' !! a = slabs s !! a) →
  rep_cpu c (store (manager_at k c + 0) h m) s'.
Proof using Hlay.
  intros Hk Hrep Hl (Hh & Htl & Hi & Hr & Hlen & Hp) Hown Hs Hsl.
  eapply (rep_cpu_manager c k m _ s s' (set_head h sm)); try done.
  - intros a Ha. symmetry. apply store_ne. consts. lia.
  - by rewrite Hs, lookup_insert_eq.
  - intros k' Hne. rewrite Hs, lookup_insert_ne; [done|congruence].
  - split_and!; simpl; [|by rewrite store_ne by lia|by rewrite store_ne by lia|lia|lia|done|].
    + rewrite Z.add_0_r. apply store_eq.
    + intros i Hi'. rewrite store_ne by lia. by apply Hp.
Qed.

Lemma slab_offset a d : a ∈ made → 0 ≤ d < sizeof_obj_slab → u64 (a + d) = a + d.
Proof using Hlay.
  intros Ha Hd. destruct (layout_slab _ _ Hlay a Ha) as (_ & ? & ?). destruct (layout_base _ _ Hlay).
  apply wrap_small. consts. word_const.
Qed.

Lemma ea_slab a r d ρ :
  a ∈ made → 0 ≤ d < sizeof_obj_slab → ρ r = a → ea (Addr d r None) ρ = a + d.
Proof using Hlay. intros Ha Hd Hr. simpl. rewrite Hr, Z.add_0_r, Z.add_comm. by apply slab_offset. Qed.

(** The rest of the section on CPU [start_cpu]. *)
Lemma cas_here k sc e m s ρ z sm :
  op_ok (OCas k sc e) → rep_cpu sc m s → slab_managers s !! (k, sc) = Some sm →
  rep_manager (manager_at k sc) sm m → own_slab sc (available_slabs_head sm) →
  ρ r_this = manager_at k sc → ρ r_start_cpu = sc → ρ r_expected_slab = e →
  ρ r_temp_ptr = available_slabs_head sm →
  cs_safe 5 (op_call (OCas k sc e)) sc (mk_core 5 ρ z) m s.
Proof using Hlay.
  intros Hok Hrep Hl Hsm Hown Ht Hcpu Hexp Htmp. pose proof Hok as (Hk & Hsc & He0).
  pose proof (cas_eq sc k sc e s sm Hl) as Heff. rewrite Z.eqb_refl in Heff. cbn [negb] in Heff.
  cs_stay; [done|by apply cas_args|done|]. cbn [pc gpr zf val]. rewrite Hexp, Htmp.
  destruct (Z.eqb_spec e (available_slabs_head sm)) as [Heq|Hne].
  2: { cs_leave; [done|by apply cas_args| | |].
    - exists (OCas k sc e). split; [done|]. split; [done|]. simpl. rewrite Heff.
      rewrite (proj2 (Z.eqb_neq (available_slabs_head sm) e)) by done. done.
    - eapply rep_cpu_frame; [done|by apply same_cpu_tick, same_cpu_refl|exact Hrep].
    - by eapply returns_now. }
  cs_stay; [done|by apply cas_args|done|]. cbn [pc gpr zf negb].
  destruct Hown as [Hmade Howner]; [congruence|].
  pose proof Hrep as (_ & _ & _ & Hrs).
  destruct (Hrs _ Hmade Howner) as (sl & Hsl & (_ & _ & Hnext & _) & Hnown).
  assert (ea (Addr 520 r_temp_ptr None) ρ = available_slabs_head sm + 520) as Hea
    by (apply ea_slab; [done|consts; lia|done]).
  cs_stay; [cbn [gpr touched]; rewrite Hea; constructor; [|done]; apply owned_slab; [done|done|consts; lia]|
    by apply cas_args|done|]. cbn [pc gpr zf]. rewrite Hea.
  change (m (available_slabs_head sm + 520)) with (m (available_slabs_head sm + next_offset)).
  rewrite Hnext. set (ρ1 := set_reg r_temp_ptr (next sl) ρ).
  assert (ea (Addr 0 r_this None) ρ1 = manager_at k sc + 0) as Hea1
    by (apply ea_manager; [done|done|consts; lia|done]).
  cs_leave; [cbn [gpr touched]; rewrite Hea1; constructor; [|done]; apply owned_manager; [done|done|consts; lia]|
    by apply cas_args| | |].
  - exists (OCas k sc e). split; [done|]. split; [done|]. simpl.
    rewrite Heff, <-Heq, Z.eqb_refl. cbn [negb]. rewrite Heq, Hsl. done.
  - cbn [gpr]. rewrite Hea1. eapply rep_cpu_head; try done.
    intros a. simpl. destruct (decide (a = available_slabs_head sm)) as [->|];
      [by rewrite lookup_insert_eq|by rewrite lookup_insert_ne].
  - by eapply returns_now.
Qed.

(** On another CPU. *)
Lemma cas_elsewhere k sc e c m s ρ :
  op_ok (OCas k sc e) → rep_cpu c m s → c ≠ sc →
  ρ r_this = manager_at k sc → ρ r_start_cpu = sc → ρ r_expected_slab = e →
  cs_safe 7 (op_call (OCas k sc e)) c (mk_core 3 ρ false) m s.
Proof.
  intros Hok Hrep Hne Ht Hcpu Hexp. cs_leave; [done|by apply cas_args| | |].
  - exists (OCas k sc e). split; [done|]. split; [done|]. by apply cas_migrated.
  - eapply rep_cpu_frame; [done|by apply same_cpu_tick, same_cpu_refl|exact Hrep].
  - by eapply returns_now.
Qed.

Lemma cas_safe k sc e c co m s :
  op_ok (OCas k sc e) → rep_cpu c m s → pc co = 2%nat → args_hold (op_call (OCas k sc e)) (gpr co) →
  cs_safe 8 (op_call (OCas k sc e)) c co m s.
Proof using Hlay.
  intros Hok Hrep Hpc Ha. destruct co as [pc0 ρ z]. simpl in Hpc, Ha. subst pc0.
  pose proof Hok as (Hk & Hsc & He0).
  pose proof (Forall_inv Ha) as Ht. pose proof (Forall_inv (Forall_inv_tail Ha)) as Hcpu.
  pose proof (Forall_inv (Forall_inv_tail (Forall_inv_tail Ha))) as Hexp. simpl in Ht, Hcpu, Hexp.
  cs_stay; [done|by apply cas_args|done|]. cbn [pc gpr zf]. rewrite Hcpu, u32_cpu by done.
  destruct (Z.eqb_spec c sc) as [->|Hne]; [|by apply cas_elsewhere].
  destruct (rep_cpu_class _ _ _ _ Hrep Hk) as (sm & Hl & Hsm & Hown).
  assert (ea (Addr 0 r_this None) ρ = manager_at k sc + 0) as Hea
    by (apply ea_manager; [done|done|consts; lia|done]).
  cs_stay; [done|by apply cas_args|done|]. cbn [pc gpr zf negb].
  cs_stay; [cbn [gpr touched]; rewrite Hea; constructor; [|done]; apply owned_manager; [done|done|consts; lia]|
    by apply cas_args|done|].
  cbn [pc gpr zf]. rewrite Hea, Z.add_0_r, (proj1 Hsm). by eapply cas_here.
Qed.

(** ** [obj_slab::_allocate] *)

(** Arrays of words with the same bits are the same. *)
Lemma words_ext l l' :
  words l → words l' → (∀ q, position q → bit_at l q = bit_at l' q) → l = l'.
Proof.
  intros Hl Hl' Hb. apply list_eq_same_length with (n := 64%nat); [by destruct Hl'|by destruct Hl|].
  intros i x y Hi Hx Hy. rewrite <-(Nat2Z.id i) in Hx, Hy.
  destruct Hl as [_ HF], Hl' as [_ HF'].
  apply (word_eq 64); [lia|apply (Forall_lookup_1 _ _ _ _ HF Hx)|apply (Forall_lookup_1 _ _ _ _ HF' Hy)|].
  intros j Hj. rewrite <-(bit_at_lookup l (Z.of_nat i) j x), <-(bit_at_lookup l' (Z.of_nat i) j y) by done.
  apply Hb. unfold position. consts. lia.
Qed.

(** The first available block does not depend on the summary, nor does what is
    left when it is taken. *)
Lemma took_same sl sl1 v v1 sl' sl1' :
  available_slots sl1 = available_slots sl → took sl v sl' → took sl1 v1 sl1' →
  v = v1 ∧ available_slots sl' = available_slots sl1'.
Proof.
  intros Hs (Hr & Ha & Hlow & Hb & Hf & Hwf) (Hr1 & Ha1 & Hlow1 & Hb1 & Hf1 & Hwf1).
  unfold avail in *. rewrite Hs in *.
  assert (v = v1) as ->.
  { destruct (Z.lt_trichotomy v v1) as [Hlt|[->|Hlt]]; [|done|].
    - rewrite Hlow1 in Ha by lia. done.
    - rewrite Hlow in Ha1 by lia. done. }
  split; [done|]. apply words_ext; [apply Hwf|apply Hwf1|]. intros q Hq. rewrite Hb, Hb1 by done. done.
Qed.

Lemma rep_cpu_slab c a m m' s s' sl' :
  a ∈ made → owner a = c → rep_cpu c m s →
  (∀ b, ¬ (a ≤ b < a + sizeof_obj_slab) → m b = m' b) →
  slabs s' !! a = Some sl' → (∀ b, b ≠ a → slabs s' !! b = slabs s !! b) →
  slab_managers s' = slab_managers s → rep_slab a sl' m' → own_slab c (next sl') →
  rep_cpu c m' s'.
Proof using Hlay.
  intros Ha Ho (Hc & Hall & Hrm & Hrs) Hm Hl Hothers Hsm Hrep Hown.
  destruct (layout_slab _ _ Hlay a Ha) as (Hmod & Hlo & _).
  split; [done|]. split.
  { intros b Hb. destruct (decide (b = a)) as [->|]; [by eexists|]. rewrite Hothers by done. by apply Hall. }
  split.
  - intros k Hk. rewrite Hsm. destruct (Hrm k Hk) as (sm & Hl' & Hr & Hown'). exists sm.
    split; [done|]. split; [|done]. eapply rep_manager_agree; [|done].
    intros i Hi. apply Hm. consts. lia.
  - intros b Hb Hob. destruct (decide (b = a)) as [->|Hne]; [by exists sl'|].
    destruct (Hrs b Hb Hob) as (sl & Hl' & Hr & Hn). exists sl. rewrite Hothers by done.
    split; [done|]. split; [|done]. eapply rep_slab_agree; [|done].
    intros i Hi. apply Hm. destruct (layout_slab _ _ Hlay b Hb) as (Hmod' & _ & _).
    pose proof (Z.div_mod a sizeof_obj_slab). pose proof (Z.div_mod b sizeof_obj_slab). consts. lia.
Qed.

Section Slab.
Context (a sc : Z) (Ha : a ∈ made) (Hsc : is_cpu sc) (Ho : owner a = sc).

Lemma allocate_args ρ :
  ρ r_this = a → ρ r_start_cpu = sc → args_hold (op_call (OAllocate a sc)) ρ.
Proof. intros H H'. by repeat constructor. Qed.

Lemma allocate_ok : op_ok (OAllocate a sc).
Proof using Ha Hsc Ho. by split_and!. Qed.

Lemma slab_owned d : 0 ≤ d < sizeof_obj_slab → Forall (owned_cpu sc) [a + d].
Proof using Ha Ho. intros Hd. constructor; [|done]. by apply owned_slab. Qed.

Lemma ea_slot ρ :
  ρ r_this = a → 0 ≤ ρ r_idx_av < 64 →
  ea (Addr 8 r_this (Some (r_idx_av, 8))) ρ = a + (8 + 8 * ρ r_idx_av).
Proof using Hlay Ha.
  intros Ht Hi. simpl. rewrite Ht. replace (8 + a + ρ r_idx_av * 8) with (a + (8 + 8 * ρ r_idx_av)) by lia.
  apply slab_offset; [done|]. consts. lia.
Qed.

(** The one-step operation. *)
Lemma allocate_effect s sl v sl' :
  slabs s !! a = Some sl → ObjSlab._allocate a sc sc sl = Done (v, sl') →
  cpu_effect (op_call (OAllocate a sc)) sc s v (put_sl a sl' s).
Proof using Ha Hsc Ho.
  intros Hl He. exists (OAllocate a sc). split; [done|]. split; [apply allocate_ok|].
  by eapply allocate_eq.
Qed.

Lemma allocate_result sl :
  wf_slab sl →
  ∃ v sl', ObjSlab._allocate a sc sc sl = Done (v, sl') ∧ (took sl v sl' ∨ exhausted sl v sl').
Proof using Hlay Ha.
  intros Hwf. destruct (layout_slab _ _ Hlay a Ha) as (Hmod & _).
  destruct (wp_total_done _ _ _ (wp_slab_allocate a sc sc sl Hmod Hwf)) as (v & sl' & He & Hr).
  rewrite Z.eqb_refl in Hr. by exists v, sl'.
Qed.

(** Behind the section. *)
Lemma allocate_returns n ρ z v :
  u64 (instr_tzcnt 64 (ρ r_idx) + u64 (ρ r_idx_av ≪ 6)) = v →
  returns (4 + n) (op_call (OAllocate a sc)) (mk_core 19 ρ z) v.
Proof.
  intros Hv.
  do 3 (eapply returns_later; [reflexivity|reflexivity|reflexivity|reflexivity|]).
  eapply returns_now; [reflexivity|reflexivity|]. exact Hv.
Qed.

Section Loop.
Context (s : sys) (sl : obj_slab) (Hl : slabs s !! a = Some sl) (Hnext : own_slab sc (next sl)).

Let as_memory (m : mem) : obj_slab := set_available_vecs (m a) sl.

(** The state a slab that was changed represents. *)
Lemma rep_cpu_put m m' sl' :
  rep_cpu sc m s → (∀ b, ¬ (a ≤ b < a + sizeof_obj_slab) → m b = m' b) →
  rep_slab a sl' m' → next sl' = next sl → rep_cpu sc m' (put_sl a sl' s).
Proof using Hlay Ha Ho Hl Hnext.
  intros Hrep Hm Hr Hn. eapply (rep_cpu_slab sc a m m' s _ sl'); try done.
  - simpl. by rewrite lookup_insert_eq.
  - intros b Hb. simpl. by rewrite lookup_insert_ne.
  - by rewrite Hn.
Qed.

(** The summary is empty: the slab is full. *)
Lemma allocate_full m :
  rep_cpu sc m s → rep_slab a sl m → m a = 0 →
  ∃ s', cpu_effect (op_call (OAllocate a sc)) sc s FULL s' ∧ rep_cpu sc m s'.
Proof using Hlay Ha Hsc Ho Hl Hnext.
  intros Hrep (Hwf & Hwf' & Hn & Hslots) H0.
  assert (∀ q, position q → avail sl q = false) as Hempty.
  { intros q Hq. destruct (pos_split q Hq) as (i & j & -> & Hi & Hj).
    apply (avail_unsummarised (as_memory m)); try done. simpl. rewrite H0. apply Z.bits_0. }
  destruct (allocate_result sl Hwf) as (v & sl' & He & [Ht|(-> & _ & Hs & (Hnx & Hb & Hfv & Hst & Hfs) & Hw)]).
  - destruct Ht as (Hr & Hav & _). rewrite Hempty in Hav; [done|].
    pose proof (nblocks_bounds sl (wf_block_size sl Hwf)). unfold position. lia.
  - exists (put_sl a sl' s). split; [by eapply allocate_effect|].
    eapply rep_cpu_put; [done|done| |done]. split_and!; [done| |by rewrite Hnx|by rewrite Hs].
    replace (set_available_vecs (m a) sl') with (as_memory m); [done|].
    unfold as_memory, set_available_vecs. by rewrite Hs, Hnx, Hb, Hfv, Hst, Hfs.
Qed.

(** The commit: the lowest bit of the lowest word goes. *)
Lemma allocate_commit m x :
  let i := instr_tzcnt 64 (m a) in
  rep_cpu sc m s → rep_slab a sl m → m a ≠ 0 → m (a + (8 + 8 * i)) = x → x ≠ 0 →
  ∃ s', cpu_effect (op_call (OAllocate a sc)) sc s (u64 (instr_tzcnt 64 x + u64 (i ≪ 6))) s' ∧
    rep_cpu sc (store (a + (8 + 8 * i)) (blsr x) m) s'.
Proof using Hlay Ha Hsc Ho Hl Hnext.
  intros i Hrep (Hwf & Hwf' & Hn & Hslots) H0 Hx Hx0.
  assert (0 ≤ i < 64) as Hi by (apply word_tz_64; [apply (wf_available_vecs _ Hwf')|done]).
  assert (available_slots sl !! Z.to_nat i = Some x) as Hlx.
  { rewrite Hslots by done. do 2 f_equal. rewrite <-Hx. f_equal. lia. }
  pose proof (take_lowest (as_memory m) x Hwf' H0 Hlx Hx0) as Htook. simpl in Htook. fold i in Htook.
  destruct (allocate_result sl Hwf) as (v & sl' & He & [Ht|Hex]).
  2: { destruct Hex as (_ & Hempty & _). destruct Htook as (Hr & Hav & _).
    change (avail sl (u64 (instr_tzcnt 64 x + u64 (i ≪ 6))) = true) in Hav.
    rewrite Hempty in Hav; [done|]. pose proof (nblocks_bounds _ (wf_block_size _ Hwf')).
    unfold position, as_memory in *. lia. }
  destruct (took_same sl (as_memory m) _ _ _ _ eq_refl Ht Htook) as [Hv Hs]. simpl in Hs. rewrite <-Hv.
  exists (put_sl a sl' s). split; [by eapply allocate_effect|].
  destruct Ht as (_ & _ & _ & _ & (Hnx & Hb & Hfv & Hst & Hfs) & Hw).
  eapply rep_cpu_put; [done| | |done].
  { intros b Hb'. symmetry. apply store_ne. consts. lia. }
  split_and!; [done| | |].
  - rewrite store_ne by lia.
    replace (set_available_vecs (m a) sl')
      with (set_available_slots (<[Z.to_nat i:=blsr x]> (available_slots sl)) (as_memory m)); [apply Htook|].
    unfold as_memory, set_available_vecs, set_available_slots. simpl.
    by rewrite Hs, Hnx, Hb, Hfv, Hst, Hfs.
  - rewrite store_ne by (consts; lia). by rewrite Hnx.
  - intros j Hj. rewrite Hs. destruct (decide (j = i)) as [->|Hne].
    + rewrite list_lookup_insert_eq.
      * f_equal. symmetry. replace (a + 8 + 8 * i) with (a + (8 + 8 * i)) by lia. apply store_eq.
      * destruct (wf_available_slots _ Hwf). lia.
    + rewrite list_lookup_insert_ne, store_ne by lia. by apply Hslots.
Qed.

(** An exhausted word leaves the summary: nothing else can tell. *)
Lemma allocate_drop m :
  let i := instr_tzcnt 64 (m a) in
  rep_cpu sc m s → rep_slab a sl m → m a ≠ 0 → m (a + (8 + 8 * i)) = 0 →
  rep_slab a sl (store a (blsr (m a)) m) ∧ rep_cpu sc (store a (blsr (m a)) m) s.
Proof using Hlay Ha Ho Hl Hnext.
  intros i Hrep (Hwf & Hwf' & Hn & Hslots) H0 Hx.
  assert (0 ≤ i < 64) as Hi by (apply word_tz_64; [apply (wf_available_vecs _ Hwf')|done]).
  assert (rep_slab a sl (store a (blsr (m a)) m)) as Hr.
  { split_and!; [done| | |].
    - rewrite store_eq. apply (drop_summary_wf (as_memory m)); [done|done|]. simpl. fold i.
      rewrite Hslots by done. rewrite <-Hx. do 2 f_equal. lia.
    - rewrite store_ne by (consts; lia). done.
    - intros j Hj. rewrite store_ne by lia. by apply Hslots. }
  split; [done|]. eapply (rep_cpu_slab sc a m _ s s sl); try done.
  intros b Hb. symmetry. apply store_ne. consts. lia.
Qed.

(** A round of the loop, from label 5. *)
Lemma allocate_round N m ρ z :
  rep_cpu sc m s → rep_slab a sl m → ρ r_this = a → ρ r_start_cpu = sc → ρ r_temp_av = m a →
  (∀ ρ' z', m a ≠ 0 → rep_cpu sc (store a (blsr (m a)) m) s → rep_slab a sl (store a (blsr (m a)) m) →
    ρ' r_this = a → ρ' r_start_cpu = sc → ρ' r_temp_av = blsr (m a) →
    cs_safe (5 + N) (op_call (OAllocate a sc)) sc (mk_core 9 ρ' z') (store a (blsr (m a)) m) s) →
  cs_safe (14 + N) (op_call (OAllocate a sc)) sc (mk_core 9 ρ z) m s.
Proof using Hlay Ha Hsc Ho Hl Hnext.
  intros Hrep Hsl Ht Hcpu Htav Hloop.
  pose proof (wf_available_vecs _ (proj1 (proj2 Hsl))) as Hword. cbn [available_vecs set_available_vecs] in Hword.
  cs_stay; [done|by apply allocate_args|done|]. cbn [pc gpr zf].
  cs_stay; [done|by apply allocate_args|done|]. cbn [pc gpr zf].
  rewrite set_reg_ne by done. rewrite Htav. set (ρ1 := set_reg r_idx _ ρ).
  destruct (Z.eqb_spec (m a) 0) as [H0|H0].
  { destruct (allocate_full m Hrep Hsl H0) as (s' & Heff & Hrep').
    cs_leave; [done|by apply allocate_args|exact Heff|exact Hrep'|].
    eapply returns_now; [reflexivity|reflexivity|]. by vm_compute. }
  assert (0 ≤ instr_tzcnt 64 (m a) < 64) as Hi by (by apply word_tz_64).
  cs_stay; [done|by apply allocate_args|done|]. cbn [pc gpr zf].
  cs_stay; [done|by apply allocate_args|done|]. cbn [pc gpr zf].
  change (ρ1 r_temp_av) with (ρ r_temp_av). rewrite Htav. set (i := instr_tzcnt 64 (m a)) in *.
  set (ρ2 := set_reg r_idx_av i ρ1).
  assert (ea (Addr 8 r_this (Some (r_idx_av, 8))) ρ2 = a + (8 + 8 * i)) as Hea by (by apply ea_slot).
  cs_stay; [cbn [gpr touched]; rewrite Hea; apply slab_owned; consts; lia|by apply allocate_args|done|].
  cbn [pc gpr zf]. rewrite Hea. set (x := m (a + (8 + 8 * i))). set (ρ3 := set_reg r_temp_as x ρ2).
  cs_stay; [done|by apply allocate_args|done|]. cbn [pc gpr zf]. change (ρ3 r_temp_as) with x.
  destruct (Z.eqb_spec x 0) as [Hx|Hx].
  - destruct (allocate_drop m Hrep Hsl H0 Hx) as [Hsl' Hrep'].
    assert (∀ ρ, ρ r_this = a → ea (Addr 0 r_this None) ρ = a) as Hea0.
    { intros ρ' Hρ. rewrite (ea_slab a) by (done || consts; lia). lia. }
    cs_stay; [done|by apply allocate_args|done|]. cbn [pc gpr zf].
    cs_stay; [done|by apply allocate_args|done|]. cbn [pc gpr zf].
    change (ρ3 r_temp_av) with (ρ r_temp_av). rewrite Htav. set (ρ4 := set_reg r_temp_av _ ρ3).
    cs_stay; [|by apply allocate_args| |]; cbn [gpr touched]; rewrite Hea0 by done;
      change (ρ4 r_temp_av) with (blsr (m a)).
    + replace a with (a + 0) by lia. apply slab_owned. consts. lia.
    + done.
    + by apply Hloop.
  - destruct (allocate_commit m x Hrep Hsl H0 eq_refl Hx) as (s' & Heff & Hrep'). fold i in Heff, Hrep'.
    cs_stay; [done|by apply allocate_args|done|]. cbn [pc gpr zf].
    cs_stay; [done|by apply allocate_args|done|]. cbn [pc gpr zf val].
    change (ρ3 r_temp_as) with x. set (ρ4 := set_reg r_idx x ρ3).
    cs_stay; [done|by apply allocate_args|done|]. cbn [pc gpr zf].
    change (ρ4 r_temp_as) with x. set (ρ5 := set_reg r_temp_as (blsr x) ρ4).
    assert (ea (Addr 8 r_this (Some (r_idx_av, 8))) ρ5 = a + (8 + 8 * i)) as Hea5 by (by apply ea_slot).
    cs_leave; [|by apply allocate_args|exact Heff| |]; cbn [gpr touched]; rewrite ?Hea5.
    + apply slab_owned. consts. lia.
    + exact Hrep'.
    + by apply (allocate_returns N).
Qed.

(** The whole loop; the bits of the summary below [64 - n] are gone. *)
Lemma allocate_loop n m ρ z :
  rep_cpu sc m s → rep_slab a sl m → ρ r_this = a → ρ r_start_cpu = sc → ρ r_temp_av = m a →
  (n ≤ 64)%nat → (∀ i, 0 ≤ i < 64 - Z.of_nat n → Z.testbit (m a) i = false) →
  cs_safe (14 + n * 9) (op_call (OAllocate a sc)) sc (mk_core 9 ρ z) m s.
Proof using Hlay Ha Hsc Ho Hl Hnext.
  revert m ρ z. induction n as [|n IH]; intros m ρ z Hrep Hsl Ht Hcpu Htav Hn Hlow;
    pose proof (wf_available_vecs _ (proj1 (proj2 Hsl))) as Hword; cbn [available_vecs set_available_vecs] in Hword;
    apply allocate_round; try done; intros ρ' z' H0 Hrep' Hsl' Ht' Hcpu' Htav'.
  - destruct H0. apply (word_zero_iff 64); [lia|done|]. intros i Hi. apply Hlow. lia.
  - apply (IH (store a (blsr (m a)) m)); try done.
    + by rewrite store_eq.
    + lia.
    + intros i Hi. rewrite store_eq, blsr_testbit by (unfold is_word in *; lia).
      destruct (Z.eqb_spec (instr_tzcnt 64 (m a)) i); [by rewrite andb_false_r|].
      assert (64 - Z.of_nat (S n) ≤ instr_tzcnt 64 (m a)).
      { apply Z.nlt_ge. intros Hlt. pose proof (word_tz_64 _ Hword H0).
        pose proof (tzcnt_bit 64 (m a)) as Hb. rewrite Hlow in Hb by lia.
        unfold is_word in Hword. discriminate Hb. lia. }
      rewrite (tzcnt_low 64 (m a)) by (unfold is_word in Hword; lia). done.
Qed.
End Loop.

Lemma allocate_safe_here m s ρ :
  rep_cpu sc m s → ρ r_this = a → ρ r_start_cpu = sc →
  cs_safe 593 (op_call (OAllocate a sc)) sc (mk_core 4 ρ true) m s.
Proof using Hlay Ha Hsc Ho.
  intros Hrep Ht Hcpu. pose proof Hrep as (_ & _ & _ & Hrs).
  destruct (Hrs a Ha Ho) as (sl & Hl & Hsl & Hnext).
  cs_stay; [done|by apply allocate_args|done|]. cbn [pc gpr zf negb].
  assert (ea (Addr 0 r_this None) ρ = a + 0) as Hea by (apply ea_slab; [done|consts; lia|done]).
  cs_stay; [cbn [gpr touched]; rewrite Hea; apply slab_owned; consts; lia|by apply allocate_args|done|].
  cbn [pc gpr zf]. rewrite Hea, Z.add_0_r. set (ρ1 := set_reg r_temp_av (m a) ρ).
  cs_stay; [done|by apply allocate_args|done|]. cbn [pc gpr zf].
  eapply (allocate_loop s sl Hl Hnext 64); try done. intros i Hi. lia.
Qed.

(** On another CPU. *)
Lemma allocate_safe_elsewhere c m s ρ :
  rep_cpu c m s → c ≠ sc → ρ r_this = a → ρ r_start_cpu = sc → ρ r_idx = MIGRATED →
  cs_safe 593 (op_call (OAllocate a sc)) c (mk_core 4 ρ false) m s.
Proof using Hlay Ha Hsc Ho.
  intros Hrep Hne Ht Hcpu Hidx. pose proof Hrep as (_ & Hall & _). destruct (Hall a Ha) as [sl Hl].
  destruct (layout_slab _ _ Hlay a Ha) as (Hmod & _).
  cs_leave; [done|by apply allocate_args| | |].
  - exists (OAllocate a sc). split; [done|]. split; [by apply allocate_ok|].
    eapply (allocate_eq _ _ _ _ sl MIGRATED sl); [done|].
    cbv [ObjSlab._allocate require mbind ST_bind mret ST_ret]. rewrite Hmod.
    by rewrite (proj2 (Z.eqb_neq c sc) Hne).
  - eapply rep_cpu_frame; [done|by apply same_put_same|exact Hrep].
  - eapply returns_now; [reflexivity|reflexivity|]. exact Hidx.
Qed.

Lemma allocate_safe_any c co m s :
  rep_cpu c m s → pc co = 2%nat → args_hold (op_call (OAllocate a sc)) (gpr co) →
  cs_safe 595 (op_call (OAllocate a sc)) c co m s.
Proof using Hlay Ha Hsc Ho.
  intros Hrep Hpc Hargs. destruct co as [pc0 ρ z]. simpl in Hpc, Hargs. subst pc0.
  pose proof (Forall_inv Hargs) as Ht. pose proof (Forall_inv (Forall_inv_tail Hargs)) as Hcpu.
  simpl in Ht, Hcpu.
  cs_stay; [done|by apply allocate_args|done|]. cbn [pc gpr zf val]. set (ρ1 := set_reg r_idx _ ρ).
  cs_stay; [done|by apply allocate_args|done|]. cbn [pc gpr zf].
  change (ρ1 r_start_cpu) with (ρ r_start_cpu). rewrite Hcpu, u32_cpu by done.
  destruct (Z.eqb_spec c sc) as [->|Hne]; [by apply allocate_safe_here|].
  apply allocate_safe_elsewhere; done.
Qed.
End Slab.

(** ** The interface holds *)

(** More instructions than any of the sequences executes without interruption. *)
Definition max_instructions : nat := 595.

Definition cpu_allowed (cl : call) : Prop := ∃ o, cl = op_call o ∧ op_ok o.

Lemma cpu_allowed_wf cl : cpu_allowed cl → wf_call cl.
Proof. intros (o & -> & _). unfold wf_call. destruct o; simpl;
  repeat (apply NoDup_cons; split; [set_solver|]); by apply NoDup_nil. Qed.

Lemma cpu_safe cl c k m s :
  cpu_allowed cl → is_cpu c → pc k = 2%nat → args_hold cl (gpr k) → rep_cpu c m s →
  cs_safe max_instructions cl c k m s.
Proof using Hlay.
  intros (o & -> & Hok) Hc Hpc Hargs Hrep. unfold max_instructions.
  destruct o as [i|p i|i sc e|a sc].
  - eapply safe_mono; [|by apply pop_safe]. lia.
  - eapply safe_mono; [|by apply push_safe]. lia.
  - eapply safe_mono; [|by apply cas_safe]. lia.
  - destruct Hok as (Ha & Ho & Hsc). by apply allocate_safe_any.
Qed.

Lemma cpu_effect_local cl c c' m s v s' :
  cpu_effect cl c s v s' → rep_cpu c m s → c' ≠ c → same_cpu c' s s'.
Proof. intros (o & _ & Hok & He). by eapply op_effect_local. Qed.

Lemma cpu_effect_frame cl c m s1 s2 v s1' :
  cpu_effect cl c s1 v s1' → rep_cpu c m s1 → same_cpu c s1 s2 →
  ∃ s2', cpu_effect cl c s2 v s2' ∧ same_cpu c s1' s2'.
Proof.
  intros (o & Hcl & Hok & He) Hrep Hs.
  destruct (op_effect_frame _ _ _ _ _ _ _ Hok He Hrep Hs) as (s2' & He' & Hs').
  exists s2'. split; [|done]. by exists o.
Qed.

#[export] Instance allocator_percpu : PerCpu sys := {|
  effect := cpu_effect;
  owned := owned_cpu;
  rep := rep_cpu;
  same := same_cpu;
  allowed := cpu_allowed;
  fuel := max_instructions;
  allowed_wf := cpu_allowed_wf;
  owned_once := owned_cpu_once;
  same_refl := same_cpu_refl;
  rep_frame := rep_cpu_frame;
  effect_local := cpu_effect_local;
  effect_frame := cpu_effect_frame;
  allowed_safe := cpu_safe
|}.
End Allocator.
