(* ===== verification/RseqSend.v ===== *)
(** * [_send_slab]: the assembly and the one-step operation

    The three versions of the assembly of [_send_slab], run without
    interruption, do the same two stores, and these are what [_send_slab] of
    [ObjectAllocator] does. *)

From S2P Require Import Prelude Bits ConstMath Machine SizeClasses Atomics ObjSlab SlabManager ObjectAllocator AllocatorInv AllocatorSpec Rseq RseqCorrect RseqAllocator.

(** ** [_send_slab] when it is not interrupted *)

(** A critical section run to its end. *)
Fixpoint run_cs (n : nat) (cl : call) (c : Z) (k : core) (m : mem) : option mem :=
  match n with
  | O => None
  | S n =>
      i ← body (code (which cl)) !! pc k;
      '(k', m') ← exec c i k m;
      if in_cs (cs_of cl) (pc k') then run_cs n cl c k' m' else Some m'
  end.

Lemma run_cs_stay n cl c k m i k' m' :
  body (code (which cl)) !! pc k = Some i → exec c i k m = Some (k', m') →
  in_cs (cs_of cl) (pc k') = true → run_cs (S n) cl c k m = run_cs n cl c k' m'.
Proof. intros Hb He Hin. simpl. rewrite Hb. simpl. rewrite He. simpl. by rewrite Hin. Qed.

Lemma run_cs_leave n cl c k m i k' m' :
  body (code (which cl)) !! pc k = Some i → exec c i k m = Some (k', m') →
  in_cs (cs_of cl) (pc k') = false → run_cs (S n) cl c k m = Some m'.
Proof. intros Hb He Hin. simpl. rewrite Hb. simpl. rewrite He. simpl. by rewrite Hin. Qed.

Ltac run_stay := erewrite run_cs_stay; [|reflexivity|reflexivity|reflexivity]; cbn [pc gpr zf val].
Ltac run_leave := erewrite run_cs_leave; [|reflexivity|reflexivity|reflexivity]; cbn [pc gpr zf val].

Section Send.
Context (base : Z) (made : gset Z) (owner : Z → Z) (Hlay : layout base made).
Context (c k slab : Z) (Hc : is_cpu c) (Hk : is_class k).

Let A := manager_at base k c.

(** The two stores. *)
Definition send_memory (m : mem) : mem :=
  if m A =? 0 then store A slab (store (A + 8) slab m)
  else store (A + 8) slab (store (u64 (m (A + 8) + next_offset)) slab m).

Definition send_args (ρ : regs) : Prop :=
  ρ r_slab = slab ∧ ρ r_sm_base = class_base base k ∧ ρ r_next_reg = next_offset.

Lemma send_ea d r ρ :
  0 ≤ d < 128 → ρ r = A → ea (Addr d r None) ρ = A + d.
Proof using Hlay Hc Hk. intros. by eapply ea_manager. Qed.


Lemma send_A : is_word 64 A ∧ is_word 64 (A + 8).
Proof using Hlay Hc Hk.
  split; [rewrite <-(Z.add_0_r A)|]; rewrite <-(send_ea _ r_sm (λ _, A)) by (done || lia);
    by apply wrap_word.
Qed.

(** Evaluate the addresses of the stores. *)
Ltac send_addresses :=
  cbn [ea set_reg reg_beq]; rewrite ?Z.add_0_l, ?Z.add_0_r, ?Z.mul_1_r.

(** The versions, once [sm] holds the address of the manager. *)
Lemma send_0_loaded ρ z m args :
  ρ r_slab = slab → ρ r_next_reg = next_offset → ρ r_sm = A → ρ r_offset = 0 →
  run_cs 7 (mk_call KSend0 args) c (mk_core 6 ρ z) m = Some (send_memory m).
Proof using Hlay Hc Hk.
  intros Hs Hn Hsm Hoff. destruct send_A as [HA HA8].
  run_stay. rewrite (send_ea 0) by (done || lia). rewrite Z.add_0_r. change (u64 0) with 0.
  run_stay. rewrite (send_ea 8) by (done || lia).
  do 3 run_stay. unfold send_memory. destruct (Z.eqb_spec (m A) 0) as [H0|H0]; run_stay; run_leave; f_equal.
  - send_addresses. rewrite Hs, Hoff, Hsm, ?Z.add_0_r, !wrap_small by done. done.
  - send_addresses. rewrite Hs, Hn, (wrap_small 64 (A + 8)) by done. done.
Qed.

Lemma send_1_loaded ρ z m args :
  ρ r_slab = slab → ρ r_sm = A →
  run_cs 8 (mk_call KSend1 args) c (mk_core 5 ρ z) m = Some (send_memory m).
Proof using Hlay Hc Hk.
  intros Hs Hsm. destruct send_A as [HA HA8].
  run_stay. rewrite (send_ea 0) by (done || lia). rewrite Z.add_0_r. change (u64 0) with 0.
  run_stay. rewrite (send_ea 8) by (done || lia).
  unfold send_memory. destruct (Z.eqb_spec (m A) 0) as [H0|H0].
  - do 2 run_stay. run_leave. f_equal. send_addresses. rewrite Hs, Hsm, !wrap_small by done. done.
  - do 5 run_stay. run_leave. f_equal. send_addresses. rewrite Hs, (wrap_small 64 (A + 8)) by done.
    rewrite (wrap_small 64 (u64 _)) by (by apply wrap_word). done.
Qed.

Lemma send_2_loaded ρ z m args :
  ρ r_slab = slab → ρ r_sm = A →
  run_cs 8 (mk_call KSend2 args) c (mk_core 5 ρ z) m = Some (send_memory m).
Proof using Hlay Hc Hk.
  intros Hs Hsm. destruct send_A as [HA HA8].
  run_stay. rewrite (send_ea 0) by (done || lia). rewrite Z.add_0_r. change (u64 0) with 0.
  run_stay. rewrite (send_ea 8) by (done || lia).
  unfold send_memory. destruct (Z.eqb_spec (m A) 0) as [H0|H0].
  - do 3 run_stay. run_leave. f_equal. send_addresses. rewrite Hs, Hsm, !wrap_small by done. done.
  - do 4 run_stay. run_leave. f_equal. send_addresses. rewrite Hs, !(wrap_small 64 (A + 8)) by done.
    rewrite (Z.add_comm _ (m (A + 8))). done.
Qed.

(** The addresses of the managers. *)
Lemma send_runs v ρ z m args :
  v = KSend0 ∨ v = KSend1 ∨ v = KSend2 → send_args ρ →
  run_cs 11 (mk_call v args) c (mk_core 2 ρ z) m = Some (send_memory m).
Proof using Hlay Hc Hk.
  intros Hv (Hs & Hb & Hn). destruct Hv as [->|[->| ->]].
  - do 4 run_stay. apply send_0_loaded; cbn [set_reg reg_beq]; [done|done| |apply Z.lxor_nilpotent].
    rewrite Hb. by eapply manager_address.
  - do 3 run_stay. apply send_1_loaded; cbn [set_reg reg_beq]; [done|].
    rewrite Hb. by eapply manager_address.
  - do 3 run_stay. apply send_2_loaded; cbn [set_reg reg_beq]; [done|].
    rewrite Hb. by eapply manager_address.
Qed.

(** ** The one-step operation *)

Lemma put_sl_id a sl s : slabs s !! a = Some sl → put_sl a sl s = s.
Proof. intros Hl. unfold put_sl. rewrite insert_id by done. by destruct s. Qed.

Lemma send_eq s sl sm :
  slabs s !! slab = Some sl → next sl = 0 → slab_managers s !! (k, c) = Some sm →
  _send_slab (λ _, c) slab k s =
    if available_slabs_head sm =? 0
    then Done (tt, put_sm k c (set_head slab (set_tail slab sm)) (tick s))
    else match slabs s !! available_slabs_tail sm with
         | Some t => Done (tt, put_sm k c (set_tail slab sm)
             (put_sl (available_slabs_tail sm) (set_next slab t) (tick s)))
         | None => Fault
         end.
Proof.
  intros Hl Hn Hsm. cbv [_send_slab get_manager gets from_opt read_cpu mbind ST_bind mret ST_ret id
    run_slab require modify put_manager]. rewrite Hl, Hn. cbn [Z.eqb].
  fold (put_sl slab sl s). rewrite (put_sl_id _ _ _ Hl). cbn [slab_managers tick slabs]. rewrite Hsm.
  destruct (_ =? 0); [done|]. cbn [slabs tick]. by destruct (slabs s !! available_slabs_tail sm).
Qed.

(** An empty list: the slab becomes its head and its tail. *)
Lemma send_empty m s sm :
  rep_cpu base made owner c m s → slab_managers s !! (k, c) = Some sm → slab ∈ made → owner slab = c →
  rep_manager A sm m →
  rep_cpu base made owner c (store A slab (store (A + 8) slab m))
    (put_sm k c (set_head slab (set_tail slab sm)) (tick s)).
Proof using Hlay Hc Hk.
  intros Hrep Hsm Hmade Hown (Hh & Ht & Hi & Hr & Hlen & Hp).
  eapply (rep_cpu_manager base made owner Hlay c k m _ s _ (set_head slab (set_tail slab sm))); try done.
  - intros a Ha. rewrite !store_ne; [done|..]; fold A in Ha;
      change (sizeof_slab_manager cache_size) with 128 in Ha; lia.
  - simpl. by rewrite lookup_insert_eq.
  - intros k' Hne. simpl. rewrite lookup_insert_ne; [done|congruence].
  - fold A. split_and!; simpl; [apply store_eq| | |lia|lia|done|].
    + rewrite store_ne by lia. apply store_eq.
    + rewrite !store_ne by lia. done.
    + intros i Hi'. rewrite !store_ne by lia. by apply Hp.
Qed.

(** Another list: the slab goes behind its tail. *)
Lemma send_behind m s sm t :
  rep_cpu base made owner c m s → slab_managers s !! (k, c) = Some sm → slab ∈ made → owner slab = c →
  rep_manager A sm m → own_slab made owner c (available_slabs_head sm) →
  available_slabs_tail sm ∈ made → owner (available_slabs_tail sm) = c →
  slabs s !! available_slabs_tail sm = Some t →
  rep_cpu base made owner c
    (store (A + 8) slab (store (u64 (available_slabs_tail sm + next_offset)) slab m))
    (put_sm k c (set_tail slab sm) (put_sl (available_slabs_tail sm) (set_next slab t) (tick s))).
Proof using Hlay Hc Hk.
  intros Hrep Hsm Hmade Hown Hrm Hh Htm Hto Ht. set (tail := available_slabs_tail sm) in *.
  rewrite (slab_offset base made Hlay) by (done || by vm_compute).
  destruct (layout_slab _ _ Hlay tail Htm) as (_ & Hlo & _).
  change sizeof_memory_layout with 11392 in Hlo.
  assert (∀ i, 0 ≤ i < 128 → A + i ≠ tail + next_offset) as Hne.
  { intros i Hi'. unfold A, manager_at, class_base. unfold is_class, is_cpu in *.
    change (sizeof_slab_manager cache_size) with 128. change NPROCS with 8 in *.
    change num_size_classes with 11 in *. change next_offset with 520. lia. }
  pose proof Hrep as (_ & _ & _ & Hrs).
  destruct (Hrs tail Htm Hto) as (t' & Ht' & (Hw & Hw' & Hn & Hs) & _).
  rewrite Ht in Ht'. injection Ht' as <-.
  assert (rep_cpu base made owner c (store (tail + next_offset) slab m)
    (put_sl tail (set_next slab t) (tick s))) as Hrep1.
  { eapply (rep_cpu_slab base made owner Hlay c tail m _ s _ (set_next slab t)); try done.
    - intros b Hb. rewrite store_ne; [done|].
      change sizeof_obj_slab with 34048 in Hb. change next_offset with 520. lia.
    - simpl. by rewrite lookup_insert_eq.
    - intros b Hb. simpl. by rewrite lookup_insert_ne.
    - split_and!; [by apply wf_set_next_slab| |apply store_eq|].
      + rewrite store_ne by (change next_offset with 520; lia). apply (wf_set_next_slab slab _ Hw').
      + intros i Hi'. rewrite store_ne by (change next_offset with 520; lia). by apply Hs. }
  eapply (rep_cpu_manager base made owner Hlay c k (store (tail + next_offset) slab m) _
    (put_sl tail (set_next slab t) (tick s)) _ (set_tail slab sm)); try done.
  - intros a Ha. rewrite (store_ne (A + 8)); [done|]. fold A in Ha.
    change (sizeof_slab_manager cache_size) with 128 in Ha. lia.
  - simpl. by rewrite lookup_insert_eq.
  - intros k' Hk'. simpl. rewrite lookup_insert_ne; [done|congruence].
  - fold A. destruct Hrm as (Hh' & Ht' & Hi & Hr & Hlen & Hp).
    pose proof Hr as Hr13. change cache_size with 13 in Hr13.
    split_and!; simpl; [|apply store_eq| |lia|lia|done|].
    + rewrite !store_ne by (first [lia|replace A with (A + 0) by lia; apply Hne; lia]). done.
    + rewrite !store_ne by (first [lia|apply Hne; lia]). done.
    + intros i Hi'. rewrite !store_ne by (first [lia|rewrite <-Z.add_assoc; apply Hne; lia]). by apply Hp.
Qed.
End Send.

(** ** Claim *)

(** Run without interruption, the assembly of [_send_slab], in each of its
    three versions, does what the one-step [_send_slab] does on the CPU it
    runs on. *)
Theorem send_slab_sequential base made owner c k slab v args ρ z m s sl sm :
  layout base made → is_class k → rep_cpu base made owner c m s →
  slab ∈ made → owner slab = c → slabs s !! slab = Some sl → next sl = 0 →
  slab_managers s !! (k, c) = Some sm →
  own_slab made owner c (available_slabs_tail sm) → available_slabs_tail sm ≠ 0 ∨ available_slabs_head sm = 0 →
  v = KSend0 ∨ v = KSend1 ∨ v = KSend2 → send_args base k slab ρ →
  ∃ m' s', run_cs 11 (mk_call v args) c (mk_core 2 ρ z) m = Some m' ∧
    _send_slab (λ _, c) slab k s = Done (tt, s') ∧ rep_cpu base made owner c m' s'.
Proof.
  intros Hlay Hk Hrep Hmade Hown Hl Hn Hsm Htail Hne Hv Hargs. pose proof (proj1 Hrep) as Hc.
  exists (send_memory base c k slab m). rewrite (send_runs base made Hlay c k slab Hc Hk v) by done.
  rewrite (send_eq c k slab s sl sm) by done.
  destruct (rep_cpu_class _ _ _ _ _ _ _ Hrep Hk) as (sm' & Hsm' & Hr & Hh).
  rewrite Hsm in Hsm'. injection Hsm' as <-.
  pose proof Hr as (Hhead & Htl & _). unfold send_memory. rewrite Hhead, Htl.
  destruct (Z.eqb_spec (available_slabs_head sm) 0) as [H0|H0].
  - eexists. split; [done|]. split; [done|]. by apply (send_empty base made owner Hlay).
  - destruct Htail as [Htm Hto]; [naive_solver|]. pose proof Hrep as (_ & Hall & _).
    destruct (Hall _ Htm) as [t Ht]. rewrite Ht. eexists. split; [done|]. split; [done|].
    by apply (send_behind base made owner Hlay).
Qed.

(** A full slab in zeroed memory. *)
Definition full_zero_slab : obj_slab := mk_slab 0 zero_words 0 16 0 0 zero_words.

Lemma full_zero_wf : wf_slab full_zero_slab.
Proof.
  split; simpl; auto using words_zero; try word_const.
  - change payload_size with 32768. lia.
  - intros i x _ Hx Hx0. by apply zero_words_lookup in Hx.
  - intros i x _ Hx. apply zero_words_lookup in Hx as ->. by rewrite Z.bits_0.
  - intros p _. unfold avail. simpl. by rewrite bit_at_zeros.
  - intros p _. unfold freed. simpl. by rewrite bit_at_zeros.
Qed.

Definition send_sys : sys := mk_sys 0 zero_managers 0 {[374528 := full_zero_slab]}.

Lemma send_layout : layout 4096 {[374528]}.
Proof. split; [by vm_compute|]. intros a ->%elem_of_singleton. by vm_compute. Qed.

Lemma send_rep : rep_cpu 4096 {[374528]} (λ _, 0) 0 (λ _, 0) send_sys.
Proof.
  split; [by vm_compute|]. split; [|split].
  - intros a ->%elem_of_singleton. eexists. simpl. by rewrite lookup_singleton_eq.
  - intros k Hk. exists zero_manager. change (slab_managers send_sys) with zero_managers.
    rewrite zero_managers_lookup, decide_True by (split; done).
    split; [done|]. split; [|done]. split_and!; try done. simpl. lia.
  - intros a ->%elem_of_singleton _. exists full_zero_slab. simpl. rewrite lookup_singleton_eq.
    split; [done|]. split; [|done]. split_and!; [apply full_zero_wf|apply full_zero_wf|done|].
    intros i Hi. apply lookup_replicate_2. lia.
Qed.

Lemma send_slab_sequential_witness :
  ∃ m' s', run_cs 11 (call_send 374528 4096) 0
      (mk_core 2 (load_args (call_send 374528 4096) (λ _, 520)) false) (λ _, 0) = Some m' ∧
    _send_slab (λ _, 0) 374528 0 send_sys = Done (tt, s') ∧ rep_cpu 4096 {[374528]} (λ _, 0) 0 m' s'.
Proof.
  apply (send_slab_sequential 4096 {[374528]} (λ _, 0) 0 0 374528 KSend1 _ _ _ _ send_sys full_zero_slab
    zero_manager send_layout); try done.
  - apply send_rep.
  - by right.
  - by right; left.
Defined.
