(* ===== verification/RseqTheorems.v ===== *)
(** * Theorems about restartable sequences

    The sequences of the allocator with a single commit are atomic under every
    schedule; [_send_slab], whose first store shows before the second, is not:
    a migration between them puts a slab on the lists of two CPUs. *)

From S2P Require Import Prelude Bits ConstMath Machine SizeClasses Atomics ObjSlab SlabManager ObjectAllocator AllocatorSpec Rseq RseqCorrect RseqAllocator.

(** Runs in which threads call the operations of the allocator only. *)
Definition permits (base : Z) (made : gset Z) (owner : Z → Z) (a : action) : Prop :=
  match a with ACall _ cl _ _ => cpu_allowed base made owner cl | _ => True end.

(** ** An execution to look at *)

Lemma demo_layout : layout 4096 ∅.
Proof. split; [by vm_compute|]. set_solver. Qed.

Definition zero_memory : mem := λ _, 0.
Definition demo_sys : sys := mk_sys 0 zero_managers 0 ∅.

Lemma demo_rep c : 0 ≤ c < NPROCS → rep_cpu 4096 ∅ (λ _, 0) c zero_memory demo_sys.
Proof.
  intros Hc. split; [done|]. split; [set_solver|]. split; [|set_solver].
  intros k Hk. exists zero_manager. change (slab_managers demo_sys) with zero_managers.
  rewrite zero_managers_lookup.
  rewrite decide_True by (split; done).
  split; [done|]. split; [|done]. split_and!; try done. simpl. lia.
Qed.

(** Thread 0 starts to push a pointer on CPU 3, is moved to CPU 5 before the
    index is incremented, and finishes there. *)
Definition demo_push : action :=
  ACall 0 (op_call 4096 (OPush 77 2)) (λ _, 0) false.
Definition demo_actions : list action :=
  (AResume 0 3 :: demo_push :: replicate 9 (AExec 0)) ++
  (APreempt 0 :: AResume 0 5 :: replicate 12 (AExec 0)).

(** The same push, interrupted on CPU 3 in front of its first store and resumed
    on CPU 5. *)
Definition paused_actions : list action :=
  (AResume 0 3 :: demo_push :: replicate 8 (AExec 0)) ++ [APreempt 0; AResume 0 5].

Lemma push_permits : permits 4096 ∅ (λ _, 0) demo_push.
Proof. exists (OPush 77 2). split; [done|]. by vm_compute. Qed.

Lemma demo_permits : Forall (permits 4096 ∅ (λ _, 0)) demo_actions.
Proof. do 2 (apply Forall_cons; split; [by auto using push_permits|]). by repeat constructor. Qed.

Lemma paused_permits : Forall (permits 4096 ∅ (λ _, 0)) paused_actions.
Proof. do 2 (apply Forall_cons; split; [by auto using push_permits|]). by repeat constructor. Qed.

(** Does thread [i] run inside a call? *)
Definition active_in (i : nat) (r : result) : bool :=
  match r with
  | Next _ s =>
      match threads s !! i with
      | Some t => running t && match activity t with Some _ => true | None => false end
      | None => false
      end
  | _ => false
  end.

Lemma active_in_spec i r :
  active_in i r = true →
  ∃ es s t, r = Next es s ∧ threads s !! i = Some t ∧ running t = true ∧ activity t ≠ None.
Proof.
  destruct r as [es s| |]; simpl; [|done..]. destruct (threads s !! i) as [t|] eqn:Ht; [|done].
  intros [Hr Ha]%andb_true_iff. exists es, s, t. split_and!; try done. by destruct (activity t).
Qed.

Lemma paused_active : active_in 0 (run consecutive_info paused_actions (start 1 zero_memory)) = true.
Proof. vm_compute. reflexivity. Qed.

(** Two slabs, the first the only one on the list of CPU 0 and full, the second
    with one block, still in the hands of thread 0. *)
Definition full_slab : Z := 340480.
Definition new_slab : Z := 374528.
Definition shared_memory : mem :=
  store 4096 full_slab (store 4104 full_slab (store new_slab 1 (store (new_slab + 8) 1 zero_memory))).

(** Thread 0 sends the second slab to the list of CPU 0, is moved to CPU 1
    after the first store and sends it there; thread 1 takes the full slab off
    the list of CPU 0; then both threads allocate. *)
Definition send_actions : list action :=
  (AResume 0 0 :: ACall 0 (call_send new_slab 4096) (λ _, 0) false :: replicate 12 (AExec 0)) ++
  (APreempt 0 :: AResume 0 1 :: replicate 12 (AExec 0)).
Definition cas_actions : list action :=
  AResume 1 0 :: ACall 1 (call_cas 4096 0 full_slab) (λ _, 0) false :: replicate 10 (AExec 1).
Definition allocate_actions : list action :=
  (ACall 0 (call_allocate new_slab 1) (λ _, 0) false ::
   ACall 1 (call_allocate new_slab 0) (λ _, 0) false :: replicate 16 (AExec 0)) ++
  replicate 21 (AExec 1) ++ replicate 5 (AExec 0).
Definition shared_actions : list action := send_actions ++ cas_actions ++ allocate_actions.

(** The heads of the lists of CPUs 0 and 1 for size class 0. *)
Definition heads (r : result) : option (Z * Z) :=
  match r with Next _ s => Some (memory s 4096, memory s 4224) | _ => None end.

Definition events_of (r : result) : option (list event) :=
  match r with Next es _ => Some es | _ => None end.

Lemma demo_events :
  events_of (run consecutive_info demo_actions (start 1 zero_memory)) =
    Some [ECall 0 (op_call 4096 (OPush 77 2)); EReturn 0 0].
Proof. vm_compute. reflexivity. Qed.

(** ** Claims *)

(** C3: whatever the schedule, the sequences of the allocator with a single
    commit behave like the one-step operations.  The slabs [made] and the CPU
    [owner] on whose list each of them is are fixed during the run ([_send_slab],
    which moves a slab to another list, is not among the calls), and
    [obj_slab::_allocate] is called for a slab of the CPU given as [start_cpu]
    ([op_ok]).  A run of the instructions of any number of threads, with
    preemptions, migrations and signals between any two instructions, is then
    not stopped by the kernel, and the atomic machine, driven by the same
    actions, has the same calls and returns: there each call is one step of
    [try_pop], [try_push], [_cas_set_next_available_slab] or
    [obj_slab::_allocate], made at one of the instructions of its thread, on
    the CPU the thread is on at that moment.  The memory then represents the
    state of the atomic machine. *)
Theorem sequences_linearizable info_address base made owner n m s actions :
  linked info_address → layout base made →
  (∀ c, 0 ≤ c < NPROCS → rep_cpu base made owner c m s) →
  Forall (permits base made owner) actions →
  match run info_address actions (start n m) with
  | Next es s' =>
      ∃ g ts, atomic_run (cpu_effect base made owner) actions (atomic_start n s) es
          (mk_atomic g (placed s') ts) ∧
        ∀ c, 0 ≤ c < NPROCS → rep_cpu base made owner c (memory s') g
  | Disabled => True
  | Killed => False
  end.
Proof.
  intros Hlink Hlay Hrep Hall.
  pose proof (@run_matched info_address Hlink sys (allocator_percpu base made owner Hlay) actions
    (start n m) s (replicate n SIdle)) as Hrun.
  specialize (Hrun ltac:(by apply start_simulates) Hall). unfold matched in Hrun.
  destruct (run info_address actions (start n m)) as [es s'| |]; [|done|done].
  destruct Hrun as (g & ts & Hr & Hsim). rewrite start_view in Hr. exists g, ts. split; [exact Hr|].
  apply (sim_rep _ _ _ _ Hsim).
Qed.

Lemma sequences_linearizable_witness :
  ∃ s', run consecutive_info demo_actions (start 1 zero_memory) =
      Next [ECall 0 (op_call 4096 (OPush 77 2)); EReturn 0 0] s' ∧
    ∃ g ts, atomic_run (cpu_effect 4096 ∅ (λ _, 0)) demo_actions (atomic_start 1 demo_sys)
      [ECall 0 (op_call 4096 (OPush 77 2)); EReturn 0 0] (mk_atomic g (placed s') ts).
Proof.
  pose proof (sequences_linearizable consecutive_info 4096 ∅ (λ _, 0) 1 zero_memory demo_sys demo_actions
    consecutive_linked demo_layout demo_rep demo_permits) as H.
  revert H. generalize demo_events. generalize (run consecutive_info demo_actions (start 1 zero_memory)) as r.
  intros [es s'| |] E H; [|done..]. injection E as ->.
  destruct H as (g & ts & H & _). exists s'. split; [done|]. by exists g, ts.
Defined.

(** C27: a thread that keeps its CPU returns: after any run, a thread that
    runs and is inside one of these calls returns within 598 of its own
    instructions, from wherever it is, also on its way back from an abort. *)
Theorem uninterrupted_returns info_address base made owner n m s actions es s' i t :
  linked info_address → layout base made →
  (∀ c, 0 ≤ c < NPROCS → rep_cpu base made owner c m s) →
  Forall (permits base made owner) actions →
  run info_address actions (start n m) = Next es s' →
  threads s' !! i = Some t → running t = true → activity t ≠ None →
  ∃ k v s'', (k ≤ 598)%nat ∧
    run info_address (replicate k (AExec i)) s' = Next [EReturn i v] s''.
Proof.
  intros Hlink Hlay Hrep Hall Hr Ht Hrun Hact.
  pose proof (@run_matched info_address Hlink sys (allocator_percpu base made owner Hlay) actions
    (start n m) s (replicate n SIdle)) as Hm.
  specialize (Hm ltac:(by apply start_simulates) Hall). rewrite Hr in Hm.
  destruct Hm as (g & ts & _ & Hsim).
  exact (@active_within info_address sys (allocator_percpu base made owner Hlay) s' g ts i t Hsim Ht Hrun Hact).
Qed.

Lemma uninterrupted_returns_witness :
  ∃ es s' k v s'', run consecutive_info paused_actions (start 1 zero_memory) = Next es s' ∧ (k ≤ 598)%nat ∧
    run consecutive_info (replicate k (AExec 0)) s' = Next [EReturn 0 v] s''.
Proof.
  destruct (active_in_spec _ _ paused_active) as (es & s' & t & Hr & Ht & Hrun & Hact).
  destruct (uninterrupted_returns consecutive_info 4096 ∅ (λ _, 0) 1 zero_memory demo_sys paused_actions
    es s' 0 t consecutive_linked demo_layout demo_rep paused_permits Hr Ht Hrun Hact) as (k & v & s'' & Hk & H).
  exists es, s', k, v, s''. split; [exact Hr|]. split; [exact Hk|exact H].
Defined.

(** [_send_slab] is not restartable: a thread that is moved to another CPU
    between its two stores leaves the slab linked behind the tail of the old
    CPU and sends it to the new one as well.  In this run the slab becomes the
    head of the lists of CPUs 0 and 1, and its only block is handed out by
    both. *)
Theorem send_slab_shared :
  heads (run consecutive_info shared_actions (start 2 shared_memory)) = Some (new_slab, new_slab) ∧
  events_of (run consecutive_info shared_actions (start 2 shared_memory)) =
    Some [ECall 0 (call_send new_slab 4096); EReturn 0 0;
          ECall 1 (call_cas 4096 0 full_slab); EReturn 1 0;
          ECall 0 (call_allocate new_slab 1); ECall 1 (call_allocate new_slab 0);
          EReturn 1 0; EReturn 0 0].
Proof. split; vm_compute; reflexivity. Qed.
