(* ===== verification/RseqHelpers.v ===== *)
(** * Registration ([lib/concurrency/rseq/rseq_helpers.h],
    [lib/concurrency/rseq/rseq_defines.h], [dep/verify_rseq.cc])

    The area of a thread and its reference count, the functions that register
    the area and read the CPU number from it, and the program that checks at
    build time that restartable sequences work.  The [rseq] system call and
    the scheduler are parameters. *)

From S2P Require Import Prelude Bits ConstMath Machine Rseq CString.

(** ** Definitions *)

Definition RSEQ_CPU_ID_UNINITIALIZED : Z := -1.
Definition RSEQ_CPU_ID_REGISTRATION_FAILED : Z := -2.

(** [__rseq_abi] and [rseq_refcount] of a thread; [ncalls] counts its [rseq]
    system calls. *)
Record tls := mk_tls { area : rseq_def; rseq_refcount : Z; ncalls : nat }.

(** Thread-local variables without initialiser are zeroed. *)
Definition new_tls : tls := mk_tls (mk_abi 0 0 0 0) 0 0.

Section Kernel.
(** The result of the [n]-th [rseq] system call of a thread, and what it leaves
    in the area. *)
Context (sys_rseq : nat → rseq_def → Z * rseq_def).

Definition syscall_rseq (t : tls) : Z * tls :=
  let '(r, a) := sys_rseq (ncalls t) (area t) in
  (r, mk_tls a (rseq_refcount t) (S (ncalls t))).

Definition set_refcount (n : Z) (t : tls) : tls := mk_tls (area t) (u32 n) (ncalls t).

Definition safe_rseq_syscall (t : tls) : exec tls :=
  let '(r, t) := syscall_rseq t in
  ERROR_ASSERT (negb (r =? 0));; Ret t.

Definition register_thread (t : tls) : tls :=
  let '(r, t) := syscall_rseq t in
  let ret := u32 r in
  if negb (ret =? 0) then set_refcount (rseq_refcount t - 1) t else t.

Definition init_thread (t : tls) : tls :=
  let t := set_refcount (rseq_refcount t + 1) t in
  if rseq_refcount t =? 1 then register_thread t else t.

Definition get_cur_cpu (t : tls) : Z := cpu_id (area t).
Definition get_start_cpu (t : tls) : Z := cpu_id_start (area t).

Definition init_and_get_cur_cpu (t : tls) : Z * tls :=
  let t := init_thread t in (get_cur_cpu t, t).

Definition init_and_get_start_cpu (t : tls) : Z * tls :=
  let t := init_thread t in (get_start_cpu t, t).

Definition get_cur_cpu_check (t : tls) : Z * tls :=
  let cur_cpu := i32 (get_cur_cpu t) in
  if cur_cpu <? 0 then let t := init_thread t in (get_cur_cpu t, t)
  else (u32 cur_cpu, t).

Definition get_start_cpu_check (t : tls) : Z * tls :=
  let start_cpu := i32 (get_start_cpu t) in
  if start_cpu <? 0 then let t := init_thread t in (get_start_cpu t, t)
  else (u32 start_cpu, t).

Definition clear_rseq (t : tls) : tls :=
  mk_tls (set_ptr 0 (area t)) (rseq_refcount t) (ncalls t).

(** ** [verify_rseq] *)

Definition retries : Z := 10.

(** The first loop: [n] is the number of rounds left. *)
Fixpoint retry_loop (n : nat) (i : Z) (t : tls) : Z * tls :=
  match n with
  | O => (i, t)
  | S n =>
      if (rseq_refcount t =? 0) && (i <? retries)
      then retry_loop n (i + 1) (init_thread t)
      else (i, t)
  end.

(** The scheduler: the number of CPUs, whether the affinity can be set, what
    [sched_getcpu] answers when asked for the [n]-th time after the affinity
    was set to a CPU, and the area of the thread after that. *)
Context (nprocessors : Z) (setaffinity_ok : Z → bool) (sched_getcpu : Z → nat → Z).
Context (area_on : Z → rseq_def → rseq_def).

(** [while (sched_getcpu() != i && --timeout)]. *)
Fixpoint wait_for (n : nat) (asked : nat) (i timeout : Z) : Z :=
  match n with
  | O => timeout
  | S n =>
      if negb (u32 (sched_getcpu i asked) =? i) then
        if timeout - 1 =? 0 then 0 else wait_for n (S asked) i (timeout - 1)
      else timeout
  end.

Definition check_cpu (i : Z) (t : tls) : exec tls :=
  ERROR_ASSERT (setaffinity_ok i);;
  let timeout := wait_for 1000 0 i 1000 in
  DIE_ASSERT (negb (timeout =? 0));;
  let t := mk_tls (area_on i (area t)) (rseq_refcount t) (ncalls t) in
  DIE_ASSERT (get_start_cpu t =? get_cur_cpu t);;
  DIE_ASSERT (get_start_cpu t =? i);;
  Ret t.

Fixpoint check_cpus (n : nat) (i : Z) (t : tls) : exec tls :=
  match n with
  | O => Ret t
  | S n => if i <? nprocessors then t ← check_cpu i t; check_cpus n (i + 1) t else Ret t
  end.

(** Up to the first look at a CPU number. *)
Definition verify_registration (t : tls) : exec tls :=
  DIE_ASSERT (rseq_refcount t =? 0);;
  let '(i, t) := retry_loop 11 0 (init_thread t) in
  DIE_ASSERT (negb (rseq_refcount t =? 0));;
  DIE_ASSERT (i <? retries);;
  Ret t.

Definition verify_rseq_main : exec Z :=
  t ← verify_registration new_tls;
  DIE_ASSERT (get_cur_cpu t <=? nprocessors);;
  t ← check_cpus (Z.to_nat nprocessors) 0 t;
  Ret 0.
End Kernel.

(** ** Counting references *)

Section Registration.
Context (sys_rseq : nat → rseq_def → Z * rseq_def).

(** Does the [n]-th call succeed, on the area the thread has? *)
Definition succeeds (n : nat) (a : rseq_def) : bool := u32 (fst (sys_rseq n a)) =? 0.

(** The area after [n] calls. *)
Fixpoint area_after (n : nat) (a : rseq_def) : rseq_def :=
  match n with
  | O => a
  | S n => let a' := area_after n a in snd (sys_rseq n a')
  end.

Lemma init_thread_first a n :
  init_thread sys_rseq (mk_tls a 0 n) =
    mk_tls (snd (sys_rseq n a)) (if succeeds n a then 1 else 0) (S n).
Proof.
  unfold init_thread, set_refcount. simpl. change (u32 1) with 1. simpl.
  unfold register_thread, syscall_rseq, succeeds. simpl. destruct (sys_rseq n a) as [r a']. simpl.
  by destruct (u32 r =? 0).
Qed.

Lemma init_thread_again a k n :
  1 ≤ k < 2 ^ 32 - 1 → init_thread sys_rseq (mk_tls a k n) = mk_tls a (k + 1) n.
Proof.
  intros Hk. unfold init_thread, set_refcount. simpl. rewrite wrap_small by (unfold is_word; lia).
  by rewrite (proj2 (Z.eqb_neq (k + 1) 1)) by lia.
Qed.

(** [k] calls of [init_thread] in a row. *)
Fixpoint init_times (k : nat) (t : tls) : tls :=
  match k with O => t | S k => init_thread sys_rseq (init_times k t) end.

(** As long as the kernel refuses. *)
Lemma init_times_fail k :
  (∀ j, (j < k)%nat → succeeds j (area_after j (area new_tls)) = false) →
  init_times k new_tls = mk_tls (area_after k (area new_tls)) 0 k.
Proof.
  induction k as [|k IH]; intros Hf; [done|]. simpl. rewrite IH by (intros j Hj; apply Hf; lia).
  rewrite init_thread_first. by rewrite Hf by lia.
Qed.

(** Once it accepted. *)
Lemma init_times_succeed j k :
  (∀ i, (i < j)%nat → succeeds i (area_after i (area new_tls)) = false) →
  succeeds j (area_after j (area new_tls)) = true → (j < k)%nat → Z.of_nat k < 2 ^ 32 →
  init_times k new_tls = mk_tls (area_after (S j) (area new_tls)) (Z.of_nat (k - j)) (S j).
Proof.
  intros Hf Hs. induction k as [|k IH]; intros Hk Hlim; [lia|]. simpl init_times.
  destruct (decide (j = k)) as [<-|Hne].
  - rewrite init_times_fail by done. rewrite init_thread_first, Hs.
    by replace (S j - j)%nat with 1%nat by lia.
  - rewrite IH by lia. rewrite init_thread_again by lia. f_equal. lia.
Qed.

(** The loop of [verify_rseq] with a kernel that accepts the [j]-th call: it
    ends with that call or with the last retry. *)
Lemma retry_loop_accepted j n i k :
  (∀ i, (i < j)%nat → succeeds i (area_after i (area new_tls)) = false) →
  succeeds j (area_after j (area new_tls)) = true →
  (k ≤ S j)%nat → Z.of_nat j < 2 ^ 31 → 0 ≤ i ≤ retries → retries - i < Z.of_nat n →
  let d := Z.min (Z.of_nat (S j - k)) (retries - i) in
  retry_loop sys_rseq n i (init_times k new_tls) = (i + d, init_times (k + Z.to_nat d) new_tls).
Proof.
  intros Hf Hs. revert i k. induction n as [|n IH]; intros i k Hk Hj Hi Hn d; [lia|]. simpl.
  destruct (decide (k = S j)) as [->|Hne].
  - rewrite (init_times_succeed j (S j)) at 1 by (done || lia). cbn [rseq_refcount].
    replace (S j - j)%nat with 1%nat by lia. simpl. replace d with 0 by lia. f_equal; [lia|].
    simpl. by rewrite Nat.add_0_r.
  - rewrite init_times_fail at 1 by (intros; apply Hf; lia). cbn [rseq_refcount]. simpl.
    destruct (Z.ltb_spec i retries) as [Hlt|Hge].
    + change (init_thread sys_rseq (init_times k new_tls)) with (init_times (S k) new_tls).
      rewrite IH by lia. f_equal; [lia|]. f_equal. lia.
    + replace d with 0 by lia. f_equal; [lia|]. f_equal. lia.
Qed.
End Registration.

(** ** Claims *)

(** [init_thread] registers a thread once: with a kernel that accepts the
    [j]-th registration and none before, [k] calls in a row make [k] system
    calls and leave the reference count at 0 as long as [k] is at most [j];
    after that the thread is registered, no more system calls are made, and the
    reference count is the number of calls since. *)
Theorem init_thread_counts sys_rseq j k :
  (∀ i, (i < j)%nat → succeeds sys_rseq i (area_after sys_rseq i (area new_tls)) = false) →
  succeeds sys_rseq j (area_after sys_rseq j (area new_tls)) = true → Z.of_nat k < 2 ^ 32 →
  init_times sys_rseq k new_tls =
    if (k <=? j)%nat then mk_tls (area_after sys_rseq k (area new_tls)) 0 k
    else mk_tls (area_after sys_rseq (S j) (area new_tls)) (Z.of_nat (k - j)) (S j).
Proof.
  intros Hf Hs Hk. destruct (Nat.leb_spec k j).
  - apply init_times_fail. intros i Hi. apply Hf. lia.
  - by apply init_times_succeed.
Qed.

(** A kernel that is busy for the first calls and then registers the thread on
    CPU 3. *)
Definition busy_kernel (busy : nat) (n : nat) (a : rseq_def) : Z * rseq_def :=
  if (n <? busy)%nat then (-1, a) else (0, mk_abi 3 3 (ptr a) (abi_flags a)).

Lemma init_thread_counts_witness :
  init_times (busy_kernel 2) 5 new_tls = mk_tls (mk_abi 3 3 0 0) 3 3.
Proof.
  rewrite (init_thread_counts (busy_kernel 2) 2 5); [done| |done|lia].
  intros [|[|i]] Hi; [done|done|lia].
Defined.

(** [verify_rseq] accepts a kernel that registers the thread at the first
    call or at one of nine retries; when it does at the tenth and last retry
    the program dies of its "impossible" condition. *)
Theorem verify_rseq_registers sys_rseq j :
  Z.of_nat j < 2 ^ 31 →
  (∀ i, (i < j)%nat → succeeds sys_rseq i (area_after sys_rseq i (area new_tls)) = false) →
  succeeds sys_rseq j (area_after sys_rseq j (area new_tls)) = true →
  verify_registration sys_rseq new_tls =
    if (j <=? 9)%nat then Ret (mk_tls (area_after sys_rseq (S j) (area new_tls)) 1 (S j))
    else Exit (-1).
Proof.
  intros Hj Hf Hs. unfold verify_registration. change (rseq_refcount new_tls =? 0) with true.
  cbn [DIE_ASSERT mbind exec_bind].
  change (init_thread sys_rseq new_tls) with (init_times sys_rseq 1 new_tls).
  rewrite (retry_loop_accepted sys_rseq j 11 0 1 Hf Hs) by (unfold retries; lia). unfold retries.
  destruct (Nat.leb_spec j 9).
  - replace (1 + Z.to_nat _)%nat with (S j) by lia. rewrite (init_times_succeed sys_rseq j (S j)) by (done || lia).
    cbn [rseq_refcount]. replace (S j - j)%nat with 1%nat by lia. simpl.
    by rewrite (proj2 (Z.ltb_lt _ _)) by lia.
  - replace (0 + Z.min _ _) with 10 by lia. change (10 <? 10) with false.
    destruct (negb _); done.
Qed.

Lemma verify_rseq_registers_witness :
  verify_registration (busy_kernel 9) new_tls = Ret (mk_tls (mk_abi 3 3 0 0) 1 10) ∧
  verify_registration (busy_kernel 10) new_tls = Exit (-1).
Proof.
  split.
  - rewrite (verify_rseq_registers (busy_kernel 9) 9); [done|lia| |done].
    intros i Hi. do 9 (destruct i as [|i]; [done|]). lia.
  - rewrite (verify_rseq_registers (busy_kernel 10) 10); [done|lia| |done].
    intros i Hi. do 10 (destruct i as [|i]; [done|]). lia.
Defined.

(** Before a thread is registered its area is zeroed, which is not the
    [RSEQ_CPU_ID_UNINITIALIZED] the checks look for: [get_cur_cpu_check] and
    [get_start_cpu_check] answer CPU 0 and do not register the thread, whatever
    the kernel would do. *)
Theorem checks_do_not_register sys_rseq :
  get_cur_cpu_check sys_rseq new_tls = (0, new_tls) ∧
  get_start_cpu_check sys_rseq new_tls = (0, new_tls) ∧
  i32 (u32 RSEQ_CPU_ID_UNINITIALIZED) < 0.
Proof. done. Qed.

(** [safe_rseq_syscall] is inverted: it exits with an error exactly when
    the registration succeeds. *)
Theorem safe_rseq_syscall_inverted sys_rseq t :
  (∃ t', safe_rseq_syscall sys_rseq t = Ret t') ↔ fst (sys_rseq (ncalls t) (area t)) ≠ 0.
Proof.
  unfold safe_rseq_syscall, syscall_rseq. destruct (sys_rseq _ _) as [r a]. simpl.
  destruct (Z.eqb_spec r 0) as [->|Hr]; simpl; split; try done; [by intros [? ?]|]. by eexists.
Qed.
