(* ===== verification/RseqDemo.v ===== *)
(** * Per-CPU counters ([src/rseq_demo.cc])

    [rseq_add] increments the counter of the CPU it runs on, in a cache line of
    its own, without an atomic instruction; [main] adds the counters up.  The
    interface of [RseqCorrect] holds of it, and no increment is lost. *)

From S2P Require Import Prelude Bits ConstMath Machine SizeClasses Atomics ObjSlab SlabManager ObjectAllocator Rseq RseqCorrect RseqAllocator.

(** [for (i = 0; i < 128; ++i) total += arr[i];] of [main], from [total = 0]. *)
Definition add_up (arr : Z) (m : mem) : Z :=
  foldl (λ total i, u64 (total + m (arr + 8 * i))) 0 (seqZ 0 128).

Section Counters.
Context (arr : Z) (Harr : 0 ≤ arr ∧ arr + 1024 < 2 ^ 64).

Definition counter (c : Z) : Z := arr + 128 * c.

(** A state is the value of each counter. *)
Definition add_effect (cl : call) (c : Z) (g : Z → Z) (v : Z) (g' : Z → Z) : Prop :=
  cl = call_add arr ∧ v = 0 ∧ g' = λ c', if c' =? c then u64 (g c + 1) else g c'.

Definition counter_owned (c a : Z) : Prop := is_cpu c ∧ counter c ≤ a < counter c + 128.

(** The other words of the cache line stay 0. *)
Definition counter_rep (c : Z) (m : mem) (g : Z → Z) : Prop :=
  is_cpu c ∧ m (counter c) = g c ∧ ∀ j, 1 ≤ j < 16 → m (counter c + 8 * j) = 0.

Definition counter_same (c : Z) (g g' : Z → Z) : Prop := g c = g' c.

Lemma add_args ρ : ρ r_arr = arr → args_hold (call_add arr) ρ.
Proof. intros H. by repeat constructor. Qed.

Lemma add_safe c k m g :
  is_cpu c → pc k = 2%nat → args_hold (call_add arr) (gpr k) → counter_rep c m g →
  safe add_effect counter_owned counter_rep 5 (call_add arr) c k m g.
Proof using Harr.
  intros Hc Hpc Ha Hrep. destruct k as [pc0 ρ z]. simpl in Hpc, Ha. subst pc0.
  pose proof (Forall_inv Ha) as Hb. simpl in Hb.
  do 2 (cs_stay; [done|by apply add_args|done|]). cbn [pc gpr zf]. rewrite set_reg_eq.
  set (ρ1 := set_reg r_cpu (u64 (c ≪ 7)) _).
  assert (ea (Addr 0 r_arr (Some (r_cpu, 1))) ρ1 = counter c) as Hea.
  { cbn [ea]. change (ρ1 r_arr) with (ρ r_arr). unfold ρ1. rewrite Hb, set_reg_eq.
    rewrite Z.shiftl_mul_pow2 by lia. unfold is_cpu in Hc. change NPROCS with 8 in Hc.
    rewrite (wrap_small 64 (c * _)) by word_const. unfold counter. rewrite wrap_small by word_const. lia. }
  pose proof Hrep as (_ & Hg & Hz).
  cs_leave; [|by apply add_args| | |by eapply returns_now]; cbn [gpr touched]; rewrite ?Hea.
  - constructor; [|done]. split; [done|]. lia.
  - by split_and!.
  - rewrite Hg. split_and!; [done| |].
    + by rewrite store_eq, Z.eqb_refl.
    + intros j Hj. rewrite store_ne by lia. by apply Hz.
Qed.

Lemma counter_rep_frame c m m' g g' :
  agree (counter_owned c) m m' → counter_same c g g' → counter_rep c m g → counter_rep c m' g'.
Proof.
  intros Ha Hs (Hc & Hg & Hz). split_and!; [done| |].
  - rewrite <-Ha by (split; [done|lia]). by rewrite Hg.
  - intros j Hj. rewrite <-Ha by (split; [done|lia]). by apply Hz.
Qed.

Lemma counter_owned_once c c' a : counter_owned c a → counter_owned c' a → c = c'.
Proof. unfold counter_owned, counter. lia. Qed.

Lemma add_effect_local cl c c' m g v g' :
  add_effect cl c g v g' → counter_rep c m g → c' ≠ c → counter_same c' g g'.
Proof.
  intros (_ & _ & ->) _ Hne. unfold counter_same. by rewrite (proj2 (Z.eqb_neq c' c)).
Qed.

Lemma add_effect_frame cl c m g1 g2 v g1' :
  add_effect cl c g1 v g1' → counter_rep c m g1 → counter_same c g1 g2 →
  ∃ g2', add_effect cl c g2 v g2' ∧ counter_same c g1' g2'.
Proof.
  intros (-> & -> & ->) _ Hs. eexists. split; [by split_and!|]. unfold counter_same in *.
  by rewrite Z.eqb_refl, Hs.
Qed.

Definition add_allowed (cl : call) : Prop := cl = call_add arr.

Lemma add_allowed_wf cl : add_allowed cl → wf_call cl.
Proof.
  intros ->. unfold wf_call. simpl. repeat (apply NoDup_cons; split; [set_solver|]). by apply NoDup_nil.
Qed.

Lemma add_allowed_safe cl c k m g :
  add_allowed cl → is_cpu c → pc k = 2%nat → args_hold cl (gpr k) → counter_rep c m g →
  safe add_effect counter_owned counter_rep 5 cl c k m g.
Proof using Harr. intros ->. apply add_safe. Qed.

#[export] Instance counters_percpu : PerCpu (Z → Z) := {|
  effect := add_effect;
  owned := counter_owned;
  rep := counter_rep;
  same := counter_same;
  allowed := add_allowed;
  fuel := 5;
  allowed_wf := add_allowed_wf;
  owned_once := counter_owned_once;
  same_refl := λ c g, eq_refl;
  rep_frame := counter_rep_frame;
  effect_local := add_effect_local;
  effect_frame := add_effect_frame;
  allowed_safe := add_allowed_safe
|}.

(** ** Counting *)

(** The sum over the CPUs, as an integer. *)
Definition sum_over (g : Z → Z) (cs : list Z) : Z := foldr (λ c s, g c + s) 0 cs.

Definition count_returns (es : list event) : Z :=
  foldr (λ e n, match e with EReturn _ _ => n + 1 | ECall _ _ => n end) 0 es.

Definition count_finished (ts : list status) : Z :=
  foldr (λ t n, match t with SFinished _ => n + 1 | _ => n end) 0 ts.

Lemma count_returns_app es es' : count_returns (es ++ es') = count_returns es + count_returns es'.
Proof. induction es as [|[] es IH]; simpl; lia. Qed.

Definition finished_1 (t : status) : Z := match t with SFinished _ => 1 | _ => 0 end.

Lemma count_finished_insert ts i t t' :
  ts !! i = Some t → count_finished (<[i := t']> ts) = count_finished ts - finished_1 t + finished_1 t'.
Proof.
  revert i. induction ts as [|u ts IH]; intros [|i] Hi; simpl in *; [done|done| |].
  - injection Hi as ->. destruct t, t'; simpl; lia.
  - rewrite (IH i Hi). destruct u; lia.
Qed.

Lemma sum_over_other g c x cs :
  c ∉ cs → sum_over (λ c', if c' =? c then x else g c') cs = sum_over g cs.
Proof.
  induction cs as [|d cs IH]; [done|]. intros Hc. simpl.
  rewrite (proj2 (Z.eqb_neq d c)) by set_solver. rewrite IH by set_solver. done.
Qed.

Lemma sum_over_one g c x cs :
  NoDup cs → c ∈ cs → sum_over (λ c', if c' =? c then x else g c') cs = sum_over g cs - g c + x.
Proof.
  induction cs as [|d cs IH]; intros Hnd Hc; [set_solver|]. apply NoDup_cons in Hnd as [Hd Hnd]. simpl.
  destruct (Z.eqb_spec d c) as [->|Hne].
  - rewrite sum_over_other by done. lia.
  - rewrite IH by set_solver. lia.
Qed.

(** Every finished call has added 1 to one of the counters. *)
Lemma atomic_counts xs a es a' :
  atomic_run add_effect xs a es a' →
  u64 (sum_over (shared a') (seqZ 0 NPROCS)) =
  u64 (sum_over (shared a) (seqZ 0 NPROCS) + count_returns es + count_finished (statuses a') -
       count_finished (statuses a)).
Proof.
  assert (∀ x y z, u64 x = u64 y → u64 (x + z) = u64 (y + z)) as Hadd.
  { intros x y z H. unfold wrap in *. rewrite Z.add_mod, H, <-Z.add_mod by lia. done. }
  induction 1 as [a|x xs a a1 a2 es es1 Hs _ IH]; [f_equal; simpl; lia|].
  rewrite count_returns_app, IH.
  assert (u64 (sum_over (shared a1) (seqZ 0 NPROCS)) =
    u64 (sum_over (shared a) (seqZ 0 NPROCS) + count_returns es + count_finished (statuses a1) -
         count_finished (statuses a))) as H1.
  { destruct Hs as [g ps ts i cl ρ z c Hp Hi| |g ps ts i cl c v g' Hp Hc Hi (_ & _ & ->)|g ps ts i c v Hp Hi| | |];
      cbn [shared statuses count_returns foldr]; try (f_equal; lia);
      rewrite (count_finished_insert _ _ _ _ Hi); cbn [finished_1].
    - f_equal. lia.
    - rewrite (sum_over_one g c) by (apply NoDup_seqZ || (apply elem_of_seqZ; lia)).
      replace (sum_over g (seqZ 0 NPROCS) + 0 + (count_finished ts - 0 + 1) - count_finished ts)
        with (sum_over g (seqZ 0 NPROCS) - g c + (g c + 1)) by lia.
      unfold wrap. apply Z.add_mod_idemp_r. lia.
    - f_equal. lia. }
  pose proof (Hadd _ _ (count_returns es1 + count_finished (statuses a2) - count_finished (statuses a1)) H1) as H2.
  etransitivity; [|etransitivity; [exact H2|]]; f_equal; lia.
Qed.

(** ** The sum [main] prints *)

Lemma foldl_wrap f l x : foldl (λ t i, u64 (t + f i)) (u64 x) l = u64 (x + sum_over f l).
Proof.
  revert x. induction l as [|i l IH]; intros x; simpl; [by rewrite Z.add_0_r|].
  replace (u64 (u64 x + f i)) with (u64 (x + f i)) by (unfold wrap; by rewrite Z.add_mod_idemp_l by lia).
  rewrite IH. f_equal. lia.
Qed.

Lemma sum_over_ext f f' l : (∀ i, i ∈ l → f i = f' i) → sum_over f l = sum_over f' l.
Proof.
  induction l as [|i l IH]; intros H; [done|]. simpl. rewrite H by set_solver. rewrite IH by set_solver.
  done.
Qed.

(** Of each cache line only the first word counts. *)
Lemma sum_of_lines (g : Z → Z) :
  sum_over (λ i, if i mod 16 =? 0 then g (i / 16) else 0) (seqZ 0 128) = sum_over g (seqZ 0 8).
Proof. vm_compute. reflexivity. Qed.

Lemma add_up_rep m g :
  (∀ c, 0 ≤ c < NPROCS → counter_rep c m g) → add_up arr m = u64 (sum_over g (seqZ 0 NPROCS)).
Proof.
  intros Hrep. unfold add_up. pose proof (foldl_wrap (λ i, m (arr + 8 * i)) (seqZ 0 128) 0) as Hf.
  change (u64 0) with 0 in Hf. rewrite Hf, Z.add_0_l. change (seqZ 0 NPROCS) with (seqZ 0 8). rewrite <-sum_of_lines. f_equal.
  apply sum_over_ext. intros i Hi. apply elem_of_seqZ in Hi.
  pose proof (Z.div_mod i 16 ltac:(lia)) as Hdm. pose proof (Z.mod_pos_bound i 16 ltac:(lia)) as Hm.
  assert (0 ≤ i / 16 < NPROCS) as Hc by (change NPROCS with 8; lia).
  destruct (Hrep _ Hc) as (_ & Hg & Hz). unfold counter in *.
  destruct (Z.eqb_spec (i mod 16) 0) as [H0|H0].
  - rewrite <-Hg. f_equal. lia.
  - rewrite <-(Hz (i mod 16)) by lia. f_equal. lia.
Qed.

Lemma idle_none_finished info_address s g ts :
  simulates info_address s g ts → Forall (λ t, activity t = None) (threads s) → count_finished ts = 0.
Proof.
  intros Hsim. pose proof (sim_threads _ _ _ _ Hsim) as Hth. revert Hth.
  clear Hsim. generalize (threads s) as l, (memory s) as m. intros l m Hth.
  induction Hth as [|t st l ts Hr _ IH]; intros Hidle; [done|].
  apply Forall_cons in Hidle as [Ht Hidle]. simpl. rewrite (IH Hidle).
  destruct Hr; [done|congruence..].
Qed.
End Counters.

(** ** Claim *)

(** C28: no increment is lost: from zeroed counters, with any number of threads
    calling [rseq_add] under any schedule, whenever all threads are between two
    calls the sum [main] prints is the number of calls that have returned. *)
Theorem rseq_add_counts info_address arr n m actions es s' :
  linked info_address → 0 ≤ arr ∧ arr + 1024 < 2 ^ 64 →
  (∀ i, 0 ≤ i < 128 → m (arr + 8 * i) = 0) →
  Forall (λ a, match a with ACall _ cl _ _ => cl = call_add arr | _ => True end) actions →
  run info_address actions (start n m) = Next es s' →
  Forall (λ t, activity t = None) (threads s') →
  add_up arr (memory s') = u64 (count_returns es).
Proof.
  intros Hlink Harr Hzero Hall Hrun Hidle.
  assert (∀ c, 0 ≤ c < NPROCS → counter_rep arr c m (λ _, 0)) as Hrep.
  { intros c Hc. split_and!; [apply Hc|..]; unfold counter; change NPROCS with 8 in Hc.
    - replace (arr + 128 * c) with (arr + 8 * (16 * c)) by lia. apply Hzero. lia.
    - intros j Hj. replace (arr + 128 * c + 8 * j) with (arr + 8 * (16 * c + j)) by lia.
      apply Hzero. lia. }
  pose proof (@start_simulates info_address (Z → Z) (counters_percpu arr Harr) n m (λ _, 0) Hrep) as Hs.
  pose proof (@run_matched info_address Hlink (Z → Z) (counters_percpu arr Harr) actions
    (start n m) (λ _, 0) (replicate n SIdle) Hs Hall) as Hm.
  rewrite Hrun in Hm. destruct Hm as (g & ts & Hr & Hsim).
  rewrite (add_up_rep arr Harr _ g (sim_rep _ _ _ _ Hsim)).
  rewrite start_view in Hr.
  pose proof (atomic_counts arr Harr _ _ _ _ Hr) as Hcount. cbn [shared statuses view atomic_start] in Hcount.
  rewrite Hcount.
  rewrite (idle_none_finished arr Harr _ _ _ _ Hsim Hidle). f_equal.
  assert (count_finished (replicate n SIdle) = 0) as -> by (clear; induction n; simpl; done).
  assert (sum_over (λ _, 0) (seqZ 0 NPROCS) = 0) as -> by done. lia.
Qed.

(** Two threads on one CPU: the first is interrupted in the middle. *)
Definition add_actions : list action :=
  [AResume 0 3; ACall 0 (call_add 65536) (λ _, 0) false] ++ replicate 4 (AExec 0) ++
  [APreempt 0; AResume 1 3; ACall 1 (call_add 65536) (λ _, 0) false] ++ replicate 6 (AExec 1) ++
  [APreempt 1; AResume 0 5] ++ replicate 7 (AExec 0).

Definition all_idle (r : result) : bool :=
  match r with
  | Next _ s => forallb (λ t, match activity t with None => true | Some _ => false end) (threads s)
  | _ => false
  end.

Definition returned (r : result) : Z := match r with Next es _ => count_returns es | _ => 0 end.

Lemma add_run_idle : all_idle (run consecutive_info add_actions (start 2 (λ _, 0))) = true.
Proof. vm_compute. reflexivity. Qed.

Lemma add_run_returned : returned (run consecutive_info add_actions (start 2 (λ _, 0))) = 2.
Proof. vm_compute. reflexivity. Qed.

Lemma add_run_permitted :
  Forall (λ a, match a with ACall _ cl _ _ => cl = call_add 65536 | _ => True end) add_actions.
Proof. by repeat constructor. Qed.

Lemma rseq_add_counts_witness :
  ∃ es s', run consecutive_info add_actions (start 2 (λ _, 0)) = Next es s' ∧ add_up 65536 (memory s') = 2.
Proof.
  pose proof (rseq_add_counts consecutive_info 65536 2 (λ _, 0) add_actions) as H.
  revert H. generalize add_run_idle, add_run_returned.
  generalize (run consecutive_info add_actions (start 2 (λ _, 0))) as r.
  intros [es s'| |] Hidle Hret H; [|done..]. exists es, s'. split; [done|].
  rewrite (H es s'); [|apply consecutive_linked|lia|done|apply add_run_permitted|done|].
  - simpl in Hret. by rewrite Hret.
  - apply Forall_forall. intros t Ht. simpl in Hidle. rewrite forallb_forall in Hidle.
    specialize (Hidle t (proj1 (list_elem_of_In _ _) Ht)). by destruct (activity t).
Defined.
