(* ===== verification/MmapHelpers.v ===== *)
(** * Memory mapping ([lib/system/mmap_helpers.h]) and the constructors and
    the destructor of [object_allocator] that use it

    The wrappers around [mmap], [munmap] and [madvise].  The system calls are
    parameters: their answer may depend on how many calls were made before. *)

From S2P Require Import Prelude Bits ConstMath Machine SizeClasses Atomics ObjSlab SlabManager ObjectAllocator AllocatorInv AllocatorSpec CString.

(** ** Constants *)

Definition PROT_READ : Z := 1.
Definition PROT_WRITE : Z := 2.
Definition MAP_PRIVATE : Z := 2.
Definition MAP_ANONYMOUS : Z := 32.
Definition MAP_NORESERVE : Z := 16384.
Definition MAP_HUGETLB : Z := 262144.
Definition MADV_RANDOM : Z := 1.
Definition MADV_WILLNEED : Z := 3.
Definition MADV_DONTNEED : Z := 4.
Definition MADV_HUGEPAGE : Z := 14.
Definition EAGAIN : Z := 11.
Definition MAP_FAILED : Z := 2 ^ 64 - 1.

(** ** The kernel *)

Record mmap_request := mk_mmap {
  mmap_addr : Z; mmap_length : Z; mmap_prot : Z; mmap_flags : Z; mmap_fd : Z; mmap_offset : Z
}.

(** Programs that make system calls: the number of calls made so far is passed
    along. *)
Definition K (A : Type) : Type := nat → exec (A * nat).

#[export] Instance K_ret : MRet K := λ A a n, Ret (a, n).
#[export] Instance K_bind : MBind K := λ A B f m n,
  match m n with
  | Ret (a, n') => f a n'
  | Exit c => Exit c
  | Undef => Undef
  | Running => Running
  end.

Definition lift {A} (e : exec A) : K A := λ n,
  match e with Ret a => Ret (a, n) | Exit c => Exit c | Undef => Undef | Running => Running end.

Section Mmap.
(** [mmap] returns an address or [MAP_FAILED]; [munmap] and [madvise] return 0
    or -1, [madvise] with its [errno]. *)
Context (mmap : nat → mmap_request → Z) (munmap : nat → Z → Z → Z).
Context (madvise : nat → Z → Z → Z → Z * Z).

Definition call_mmap (r : mmap_request) : K Z := λ n, Ret (mmap n r, S n).
Definition call_munmap (addr length : Z) : K Z := λ n, Ret (munmap n addr length, S n).
Definition call_madvise (addr length advise : Z) : K (Z * Z) := λ n,
  Ret (madvise n addr length advise, S n).

Definition _safe_mmap (r : mmap_request) : K Z :=
  p ← call_mmap r;
  lift (ERROR_ASSERT (negb (p =? MAP_FAILED)));;
  mret p.

Definition _safe_munmap (addr length : Z) : K unit :=
  r ← call_munmap addr length;
  lift (ERROR_ASSERT (negb (r =? -1))).

(** The [do ... while] of [_strong_madvise]; each round takes a unit of fuel. *)
Fixpoint madvise_loop (fuel : nat) (addr length advise : Z) : K Z :=
  match fuel with
  | O => λ _, Running
  | S fuel =>
      '(r, errno) ← call_madvise addr length advise;
      if (r =? -1) && (errno =? EAGAIN) then madvise_loop fuel addr length advise else mret r
  end.

Definition _strong_madvise (fuel : nat) (addr length advise : Z) : K unit :=
  r ← madvise_loop fuel addr length advise;
  lift (ERROR_ASSERT (r =? 0)).

Definition _weak_madvise (addr length advise : Z) : K unit :=
  '(r, errno) ← call_madvise addr length advise;
  lift (ERROR_ASSERT (negb (r =? -1) || (errno =? EAGAIN))).

Definition _mmap_hugepage (r : mmap_request) : K Z :=
  p ← call_mmap (mk_mmap (mmap_addr r) (mmap_length r) (mmap_prot r) (Z.lor (mmap_flags r) MAP_HUGETLB)
    (mmap_fd r) (mmap_offset r));
  if p =? MAP_FAILED then
    p ← call_mmap r;
    lift (ERROR_ASSERT (negb (p =? MAP_FAILED)));;
    _weak_madvise p (mmap_length r) MADV_HUGEPAGE;;
    mret p
  else mret p.

(** ** The macros *)

Definition anonymous (length flags : Z) : mmap_request :=
  mk_mmap 0 length (Z.lor PROT_READ PROT_WRITE) (Z.lor (Z.lor MAP_ANONYMOUS MAP_PRIVATE) flags) (-1) 0.

Definition mmap_alloc_hugepage (length : Z) : K Z := _mmap_hugepage (anonymous length 0).
Definition mmap_alloc_reserve (length : Z) : K Z := _safe_mmap (anonymous length 0).
Definition mmap_alloc_noreserve (length : Z) : K Z := _safe_mmap (anonymous length MAP_NORESERVE).

Definition weak_ram_range (addr length : Z) : K unit := _weak_madvise addr length MADV_RANDOM.
Definition strong_ram_range (fuel : nat) (addr length : Z) : K unit :=
  _strong_madvise fuel addr length MADV_RANDOM.
Definition weak_prepage (addr length : Z) : K unit := _weak_madvise addr length MADV_WILLNEED.
Definition strong_prepage (fuel : nat) (addr length : Z) : K unit :=
  _strong_madvise fuel addr length MADV_WILLNEED.
Definition weak_hugepage (addr length : Z) : K unit := _weak_madvise addr length MADV_HUGEPAGE.
Definition strong_hugepage (fuel : nat) (addr length : Z) : K unit :=
  _strong_madvise fuel addr length MADV_HUGEPAGE.
Definition madv_free (fuel : nat) (addr length : Z) : K unit :=
  _strong_madvise fuel addr length MADV_DONTNEED.

(** ** The allocator's life *)

(** [object_allocator(mem, region_size)]; a failed assertion aborts. *)
Definition allocator_at (mem region_size : Z) : K (object_allocator * sys) :=
  lift (match new_allocator mem region_size with Some r => Ret r | None => Undef end).

(** [object_allocator()]. *)
Definition allocator_default : K (object_allocator * sys) :=
  mem ← mmap_alloc_noreserve default_region_size;
  allocator_at mem default_region_size.

(** [object_allocator(region_size)]. *)
Definition allocator_of_size (region_size : Z) : K (object_allocator * sys) :=
  mem ← mmap_alloc_reserve region_size;
  allocator_at mem region_size.

(** [~object_allocator()]. *)
Definition destroy (fuel : nat) (al : object_allocator) : K unit :=
  madv_free fuel (m al) (ObjectAllocator.raw_region_size al).

(** ** Retrying *)

(** The first answer to [madvise] that is not "try again". *)
Definition first_answer (n tries : nat) (addr length advise : Z) (r : Z) : Prop :=
  (∀ j, (j < tries)%nat → madvise (n + j)%nat addr length advise = (-1, EAGAIN)) ∧
  ∃ errno, madvise (n + tries)%nat addr length advise = (r, errno) ∧ ¬ (r = -1 ∧ errno = EAGAIN).

Lemma madvise_loop_spec fuel n tries addr length advise r :
  first_answer n tries addr length advise r → (tries < fuel)%nat →
  madvise_loop fuel addr length advise n = Ret (r, (n + tries + 1)%nat).
Proof using Type.
  clear mmap munmap.
  revert n tries. induction fuel as [|fuel IH]; intros n tries [Htry (e & Hr & Hne)] Hf; [lia|].
  cbn [madvise_loop]. cbv [mbind K_bind call_madvise].
  destruct tries as [|tries].
  - rewrite Nat.add_0_r in Hr |- *. rewrite Hr.
    replace ((r =? -1) && (e =? EAGAIN)) with false; [by rewrite Nat.add_1_r|].
    symmetry. apply andb_false_iff. destruct (Z.eqb_spec r (-1)), (Z.eqb_spec e EAGAIN); naive_solver.
  - pose proof (Htry 0%nat ltac:(lia)) as H0. rewrite Nat.add_0_r in H0. rewrite H0. simpl.
    rewrite (IH (S n) tries); [do 2 f_equal; lia| |lia]. split.
    + intros j Hj. replace (S n + j)%nat with (n + S j)%nat by lia. apply Htry. lia.
    + exists e. replace (S n + tries)%nat with (n + S tries)%nat by lia. done.
Qed.

Lemma strong_madvise_result fuel n tries addr length advise r :
  first_answer n tries addr length advise r → (tries < fuel)%nat →
  _strong_madvise fuel addr length advise n =
    if r =? 0 then Ret (tt, (n + tries + 1)%nat) else Exit (-1).
Proof using Type.
  intros Ha Hf. unfold _strong_madvise. cbv [mbind K_bind].
  rewrite (madvise_loop_spec _ _ _ _ _ _ _ Ha Hf). unfold lift, ERROR_ASSERT. by destruct (r =? 0).
Qed.
End Mmap.

(** [_mmap_hugepage] with a kernel that has no huge pages left: it asks for
    ordinary pages and advises, and tolerates only "try again" as an answer. *)
Lemma mmap_hugepage_fallback mmap madvise r n p a e :
  mmap n (mk_mmap (mmap_addr r) (mmap_length r) (mmap_prot r) (Z.lor (mmap_flags r) MAP_HUGETLB)
    (mmap_fd r) (mmap_offset r)) = MAP_FAILED →
  mmap (S n) r = p → p ≠ MAP_FAILED →
  madvise (S (S n)) p (mmap_length r) MADV_HUGEPAGE = (a, e) →
  _mmap_hugepage mmap madvise r n =
    if negb (a =? -1) || (e =? EAGAIN) then Ret (p, S (S (S n))) else Exit (-1).
Proof.
  intros H1 H2 Hp H3. unfold _mmap_hugepage, _weak_madvise. cbv [mbind K_bind call_mmap call_madvise].
  rewrite H1, Z.eqb_refl, H2. cbv [lift ERROR_ASSERT]. rewrite (proj2 (Z.eqb_neq _ _) Hp). simpl.
  rewrite H3. by destruct (_ || _).
Qed.

(** ** Claim *)

(** C30: the life of an allocator made by the default constructor, on a kernel
    that maps the 2 GiB it asks for at [p]: it makes one system call, manages
    the region at [p], which holds the managers and at least one slab, and its
    destructor gives the same bytes back, as often as the kernel asks to try
    again; it ends the program when the kernel refuses to map or to take the
    region back. *)
Theorem allocator_lifecycle mmap madvise n p :
  mmap n (anonymous default_region_size MAP_NORESERVE) = p →
  if p =? MAP_FAILED then allocator_default mmap n = Exit (-1)
  else 0 ≤ p → p + default_region_size < 2 ^ 64 →
    ∃ al s, allocator_default mmap n = Ret ((al, s), S n) ∧ m al = p ∧
      ObjectAllocator.raw_region_size al = default_region_size ∧
      current_slab s + sizeof_obj_slab ≤ end_ al ≤ p + default_region_size ∧
      ∀ fuel n' tries r,
        first_answer madvise n' tries p default_region_size MADV_DONTNEED r → (tries < fuel)%nat →
        destroy madvise fuel al n' = if r =? 0 then Ret (tt, (n' + tries + 1)%nat) else Exit (-1).
Proof.
  intros Hp. unfold allocator_default, mmap_alloc_noreserve, _safe_mmap.
  cbv [mbind K_bind call_mmap lift ERROR_ASSERT]. rewrite Hp.
  destruct (Z.eqb_spec p MAP_FAILED) as [->|Hne]; [done|]. simpl negb. cbv iota.
  intros H0 Hmax.
  destruct (new_allocator_region p default_region_size H0 Hmax ltac:(by vm_compute))
    as (al & st & Hnew & Hreg & Hm & Hst & Hend).
  assert (ObjectAllocator.raw_region_size al = default_region_size) as Hraw.
  { revert Hnew. unfold new_allocator. destruct (calculate_end _ _) as [e|]; [|done]. simpl.
    destruct (new_layout 0 p); [|done]. simpl. destruct (assert_opt _); [|done]. simpl.
    intros [= <- _]. done. }
  exists al, (mk_sys 0 zero_managers st ∅). unfold allocator_at. cbv [mret K_ret lift]. rewrite Hnew.
  split; [done|]. split; [done|]. split; [done|]. split.
  - simpl. change default_region_size with 2147483648 in *. change sizeof_obj_slab with 34048 in *.
    change sizeof_memory_layout with 11392 in *. lia.
  - intros fuel n' tries r Ha Hf. unfold destroy, madv_free. rewrite Hm, Hraw.
    by apply (strong_madvise_result madvise).
Qed.

(** A kernel that maps regions at 1 GiB, and wants to be asked three times. *)
Definition demo_mmap (n : nat) (r : mmap_request) : Z := 2 ^ 30.
Definition demo_madvise (n : nat) (addr length advise : Z) : Z * Z :=
  if (n <? 3)%nat then (-1, EAGAIN) else (0, 0).

Lemma allocator_lifecycle_witness :
  ∃ al s, allocator_default demo_mmap 0%nat = Ret ((al, s), 1%nat) ∧ m al = 2 ^ 30 ∧
    destroy demo_madvise 5%nat al 1%nat = Ret (tt, 4%nat).
Proof.
  destruct (allocator_lifecycle demo_mmap demo_madvise 0%nat (2 ^ 30) eq_refl) as (al & s & Hc & Hm & _ & _ & Hd);
    [lia|by vm_compute|].
  exists al, s. split; [done|]. split; [done|].
  rewrite (Hd 5%nat 1%nat 2%nat 0); [done| |lia]. split.
  - intros [|[|j]] Hj; [done|done|lia].
  - exists 0. split; [done|]. by intros [? _].
Defined.
