(* ===== verification/Printing.v ===== *)
(** * Printing the state ([allocator/obj_slab.h], [allocator/slab_manager.h],
    [allocator/object_allocator.h], [lib/container/block_list.h])

    The functions that write slabs, lists of slabs and blocks to the error
    output, each as the text it writes. *)

From S2P Require Import Prelude Bits ConstMath Machine SizeClasses Atomics ObjSlab SlabManager ObjectAllocator CString BlockList.

(** ** Conversions *)

(** [%p]: NULL is printed as [(nil)]. *)
Definition fmt_p (x : Z) : string := if x =? 0 then "(nil)" else "0x" +:+ fmt_lx x.

Definition fmt_lu (x : Z) : string := dec (u64 x).

Fixpoint zeros (n : nat) : string :=
  match n with O => EmptyString | S n => String (chr 48) (zeros n) end.

(** [%016lx]. *)
Definition fmt_016lx (x : Z) : string := zeros (16 - String.length (fmt_lx x)) +:+ fmt_lx x.

(** ** [obj_slab] *)

Definition print_state_recap (this : Z) (sl : obj_slab) : string :=
  "obj_slab {" +:+ nl +:+ tb +:+
  "Start  : " +:+ fmt_p this +:+ " (" +:+ fmt_p this +:+ " % " +:+ fmt_lu sizeof_obj_slab +:+ " == " +:+
    fmt_lu (this mod sizeof_obj_slab) +:+ ")" +:+ nl +:+ tb +:+
  "State  : " +:+ fmt_lx (state sl) +:+ nl +:+ tb +:+
  "Avail  : 0x" +:+ fmt_016lx (available_vecs sl) +:+ nl +:+ tb +:+
  "Free   : 0x" +:+ fmt_016lx (freed_vecs sl) +:+ nl +:+ tb +:+
  "}" +:+ nl.

(** The loop over the words from index [i] on. *)
Fixpoint print_words (i : Z) (l : list Z) : string :=
  match l with
  | [] => EmptyString
  | w :: l =>
      (if i mod 4 =? 0 then nl +:+ "       " +:+ tb +:+ tb +:+ " " +:+ fmt_016lx w
       else ", " +:+ fmt_016lx w) +:+ print_words (i + 1) l
  end.

Definition print_state_full (this : Z) (sl : obj_slab) : option string :=
  a0 ← available_slots sl !! 0%nat;
  f0 ← freed_slots sl !! 0%nat;
  Some (
    "obj_slab {" +:+ nl +:+ tb +:+
    "Start  : " +:+ fmt_p this +:+ " (" +:+ fmt_p this +:+ " % " +:+ fmt_lu sizeof_obj_slab +:+ " == " +:+
      fmt_lu (this mod sizeof_obj_slab) +:+ ")" +:+ nl +:+ tb +:+
    "Next   : " +:+ fmt_p (next sl) +:+ nl +:+ tb +:+
    "State  : " +:+ fmt_lx (state sl) +:+ nl +:+ tb +:+
    "Avail  : " +:+ fmt_016lx (available_vecs sl) +:+ nl +:+ nl +:+ tb +:+
    "       " +:+ tb +:+ "[" +:+ fmt_016lx a0 +:+
    print_words 1 (drop 1 (available_slots sl)) +:+
    "]" +:+ nl +:+ nl +:+ tb +:+
    "Free   : " +:+ fmt_016lx (freed_vecs sl) +:+ nl +:+ nl +:+ tb +:+
    "       " +:+ tb +:+ "[" +:+ fmt_016lx f0 +:+
    print_words 1 (drop 1 (freed_slots sl)) +:+
    "]" +:+ nl +:+ tb +:+ "}" +:+ nl).

(** ** [slab_manager] *)

Definition manager_heading (sm : slab_manager) : string :=
  "Available Slabs [ " +:+ fmt_p (available_slabs_head sm) +:+ " ... " +:+
  fmt_p (available_slabs_tail sm) +:+ " ]" +:+ nl +:+ tb +:+ "->".

(** [while (tmp) { ...; tmp = tmp->next; }]; [show] is what is printed of a
    slab.  Each round takes a unit of fuel. *)
Fixpoint print_list (show : Z → obj_slab → option string) (fuel : nat) (tmp : Z) : ST sys string :=
  match fuel with
  | O => out_of_fuel
  | S fuel =>
      if tmp =? 0 then mret EmptyString
      else
        s ← gets id;
        sl ← from_opt (slabs s !! tmp);
        text ← from_opt (show tmp sl);
        rest ← print_list show fuel (next sl);
        mret (text +:+ rest)
  end.

Definition print_status_recap (fuel : nat) (sm : slab_manager) : ST sys string :=
  list ← print_list (λ tmp _, Some (" " +:+ fmt_p tmp +:+ " ->")) fuel (available_slabs_head sm);
  mret (manager_heading sm +:+ list +:+ " nil" +:+ nl).

Definition print_status_full (fuel : nat) (sm : slab_manager) : ST sys string :=
  list ← print_list print_state_full fuel (available_slabs_head sm);
  mret (manager_heading sm +:+ list +:+ "nil" +:+ nl).

(** ** [object_allocator] *)

(** The loop over the CPUs, for the managers of size class 1. *)
Fixpoint print_managers (fuel : nat) (n : nat) (i : Z) : ST sys string :=
  match n with
  | O => mret EmptyString
  | S n =>
      sm ← get_manager 1 i;
      text ← print_status_full fuel sm;
      rest ← print_managers fuel n (i + 1);
      mret ("[" +:+ fmt_d i +:+ "]" +:+ text +:+ rest)
  end.

Definition print_allocator_full (fuel : nat) (al : object_allocator) : ST sys string :=
  start ← from_opt (calculate_start (u64 (m al + sizeof_memory_layout)));
  size ← from_opt (get_slab_region_size al);
  end' ← from_opt (calculate_end (u64 (m al + sizeof_memory_layout)) size);
  rest ← print_managers fuel (Z.to_nat NPROCS) 0;
  mret ("[" +:+ fmt_p start +:+ " ... " +:+ fmt_p end' +:+ "]" +:+ nl +:+ rest).

(** ** [node_block::show] *)

Definition show_block {T} (this : Z) (b : node_block T) : string :=
  "[" +:+ fmt_p this +:+ "] -> { 0x" +:+ fmt_016lx (node_slots b) +:+ " | " +:+ fmt_p (next_iter b) +:+
  " -> | <- " +:+ fmt_p (prev_iter b) +:+ " | " +:+ fmt_p (next_available b) +:+ " -> | <- " +:+
  fmt_p (prev_available b) +:+ "}" +:+ nl.

(** ** Reading numbers back *)

Lemma app_inj_l (s a b : string) : s +:+ a = s +:+ b → a = b.
Proof. induction s as [|c s IH]; [done|]. intros [= H]. by apply IH. Qed.

(** The number at the start of a text. *)
Definition hex_value (s : string) : Z := fst (read_digits 16 s 0 0).

Lemma hex_value_lx x rest :
  is_word 64 x → no_digit 16 rest = true → hex_value (fmt_lx x +:+ rest) = x.
Proof.
  intros Hx Hr. unfold hex_value, fmt_lx. rewrite wrap_small by done.
  rewrite <-(digits_split 16 16 x rest), read_digits_go, read_digits_stop by (done || lia || apply Hx).
  done.
Qed.

Lemma hex_value_zeros n s : hex_value (zeros n +:+ s) = hex_value s.
Proof.
  assert (∀ s a k k', fst (read_digits 16 s a k) = fst (read_digits 16 s a k')) as Hk.
  { clear. induction s as [|c s IH]; intros a k k'; simpl; [done|].
    destruct (digit_val c) as [d|]; [|done]. destruct (d <? 16); [apply IH|done]. }
  unfold hex_value. induction n as [|n IH]; [done|].
  rewrite <-IH.
  apply (Hk (zeros n +:+ s) 0 1%nat 0%nat).
Qed.

Lemma hex_value_016 x rest :
  is_word 64 x → no_digit 16 rest = true → hex_value (fmt_016lx x +:+ rest) = x.
Proof.
  intros Hx Hr. unfold fmt_016lx. rewrite <-append_assoc, hex_value_zeros. by apply hex_value_lx.
Qed.

(** Two texts that start with a number and go on with something else. *)
Lemma field_016 x x' rest rest' :
  is_word 64 x → is_word 64 x' → no_digit 16 rest = true → no_digit 16 rest' = true →
  fmt_016lx x +:+ rest = fmt_016lx x' +:+ rest' → x = x' ∧ rest = rest'.
Proof.
  intros Hx Hx' Hr Hr' H. assert (x = x') as <-.
  { rewrite <-(hex_value_016 x rest), <-(hex_value_016 x' rest') by done. by rewrite H. }
  split; [done|]. by apply app_inj_l in H.
Qed.

Lemma field_lx x x' rest rest' :
  is_word 64 x → is_word 64 x' → no_digit 16 rest = true → no_digit 16 rest' = true →
  fmt_lx x +:+ rest = fmt_lx x' +:+ rest' → x = x' ∧ rest = rest'.
Proof.
  intros Hx Hx' Hr Hr' H. assert (x = x') as <-.
  { rewrite <-(hex_value_lx x rest), <-(hex_value_lx x' rest') by done. by rewrite H. }
  split; [done|]. by apply app_inj_l in H.
Qed.

Lemma field_p x x' rest rest' :
  is_word 64 x → is_word 64 x' → no_digit 16 rest = true → no_digit 16 rest' = true →
  fmt_p x +:+ rest = fmt_p x' +:+ rest' → x = x' ∧ rest = rest'.
Proof.
  intros Hx Hx' Hr Hr'. unfold fmt_p.
  destruct (Z.eqb_spec x 0) as [->|], (Z.eqb_spec x' 0) as [->|]; [|done|done|].
  - intros H. split; [done|]. by apply app_inj_l in H.
  - rewrite <-!append_assoc. intros H%app_inj_l. by apply field_lx in H.
Qed.

(** The words of a vector, up to the closing bracket. *)
Lemma print_words_no_digit i l rest : no_digit 16 rest = true → no_digit 16 (print_words i l +:+ rest) = true.
Proof. intros Hr. destruct l as [|w l]; [done|]. simpl. by destruct (_ =? 0). Qed.

Lemma print_words_inj i l l' rest rest' :
  length l = length l' → Forall (is_word 64) l → Forall (is_word 64) l' →
  no_digit 16 rest = true → no_digit 16 rest' = true →
  print_words i l +:+ rest = print_words i l' +:+ rest' → l = l' ∧ rest = rest'.
Proof.
  revert i l'. induction l as [|w l IH]; intros i [|w' l'] Hlen Hl Hl' Hr Hr' H; try done.
  apply Forall_cons in Hl as [Hw Hl]. apply Forall_cons in Hl' as [Hw' Hl']. cbn [print_words] in H.
  assert (fmt_016lx w +:+ print_words (i + 1) l +:+ rest =
    fmt_016lx w' +:+ print_words (i + 1) l' +:+ rest') as H1.
  { rewrite <-!append_assoc in H. destruct (i mod 4 =? 0); rewrite <-!append_assoc in H.
    - by repeat apply app_inj_l in H.
    - by apply app_inj_l in H. }
  apply field_016 in H1 as [<- H1]; [|done|done|by apply print_words_no_digit..].
  apply IH in H1 as [<- <-]; [done|by injection Hlen|done..].
Qed.

(** The lists of a manager. *)
Lemma print_list_chain show fuel s h l :
  chain (slabs s) h l → 0 ∉ l → (length l < fuel)%nat →
  (∀ a sl, slabs s !! a = Some sl → is_Some (show a sl)) →
  ∃ texts, print_list show fuel h s = Done (foldr String.append EmptyString texts, s) ∧
    Forall2 (λ a text, ∃ sl, slabs s !! a = Some sl ∧ show a sl = Some text) l texts.
Proof.
  intros Hc H0 Hf Hshow. revert fuel h Hc H0 Hf. induction l as [|a l IH]; intros fuel h Hc H0 Hf.
  - simpl in Hc. subst h. destruct fuel; [simpl in Hf; lia|]. by exists [].
  - destruct Hc as (-> & sl & Hl & Hc). destruct fuel as [|fuel]; [simpl in Hf; lia|].
    destruct (Hshow a sl Hl) as [text Htext].
    destruct (IH fuel (next sl) Hc ltac:(set_solver) ltac:(simpl in Hf; lia)) as (texts & Hp & Ht).
    exists (text :: texts). split; [|constructor; [by exists sl|done]].
    cbn [print_list]. rewrite (proj2 (Z.eqb_neq a 0)) by set_solver.
    cbv [mbind ST_bind gets from_opt mret ST_ret id]. rewrite Hl, Htext. cbv beta iota. by rewrite Hp.
Qed.

(** ** Claims *)

(** What [print_state_full] prints of a slab tells its state: two slabs
    with the same text have the same list pointer, ownership, available and
    freed blocks. *)
Theorem print_state_full_faithful this sl sl' text :
  wf_slab sl → wf_slab sl' → is_word 64 (next sl) → is_word 64 (next sl') →
  print_state_full this sl = Some text → print_state_full this sl' = Some text →
  next sl = next sl' ∧ state sl = state sl' ∧ available_vecs sl = available_vecs sl' ∧
  available_slots sl = available_slots sl' ∧ freed_vecs sl = freed_vecs sl' ∧
  freed_slots sl = freed_slots sl'.
Proof.
  intros Hwf Hwf' Hn Hn'. unfold print_state_full.
  destruct (wf_available_slots _ Hwf) as [HL HF], (wf_available_slots _ Hwf') as [HL' HF'].
  destruct (wf_freed_slots _ Hwf) as [HM HG], (wf_freed_slots _ Hwf') as [HM' HG'].
  destruct (available_slots sl) as [|a0 l]; [done|]. destruct (available_slots sl') as [|a0' l']; [done|].
  destruct (freed_slots sl) as [|f0 k]; [done|]. destruct (freed_slots sl') as [|f0' k']; [done|].
  apply Forall_cons in HF as [Ha HF], HF' as [Ha' HF'], HG as [Hf HG], HG' as [Hf' HG'].
  assert (∀ s, wf_slab s → is_word 64 (state s)) as Hst.
  { intros s Hs. destruct (wf_state s Hs) as [->| ->]; unfold OWNED, UNOWNED; word_const. }
  cbn [lookup list_lookup mbind option_bind drop]. intros [= <-] [= H]. symmetry in H.
  rewrite !drop_0 in H.
  repeat apply app_inj_l in H. apply field_p in H as [E1 H]; [|done|done|reflexivity..].
  repeat apply app_inj_l in H. apply field_lx in H as [E2 H]; [|by apply Hst..|reflexivity|reflexivity].
  repeat apply app_inj_l in H.
  apply field_016 in H as [E3 H]; [|by apply wf_available_vecs..|reflexivity|reflexivity].
  repeat apply app_inj_l in H.
  apply field_016 in H as [E4 H]; [|done|done|by apply print_words_no_digit..].
  apply print_words_inj in H as [E5 H]; [|by injection HL as ->; injection HL'|done|done|reflexivity..].
  repeat apply app_inj_l in H.
  apply field_016 in H as [E6 H]; [|by apply wf_freed_vecs..|reflexivity|reflexivity].
  repeat apply app_inj_l in H.
  apply field_016 in H as [E7 H]; [|done|done|by apply print_words_no_digit..].
  apply print_words_inj in H as [E8 _]; [|by injection HM as ->; injection HM'|done|done|reflexivity..].
  by rewrite E4, E5, E7, E8.
Qed.

(** ** A concrete run *)

Lemma print_state_full_some this sl : wf_slab sl → is_Some (print_state_full this sl).
Proof.
  intros Hwf. destruct (wf_available_slots _ Hwf) as [HL _], (wf_freed_slots _ Hwf) as [HM _].
  unfold print_state_full. destruct (available_slots sl) as [|a0 l]; [done|].
  destruct (freed_slots sl) as [|f0 k]; [done|]. by eexists.
Qed.

(** A slab with the same words, cut into smaller blocks: its text is the same. *)
Definition finer_slab (b : Z) (s : obj_slab) : obj_slab :=
  mk_slab (available_vecs s) (available_slots s) (next s) b (freed_vecs s) (state s) (freed_slots s).

Lemma finer_slab_wf b s : 8 ≤ b ≤ block_size s → wf_slab s → wf_slab (finer_slab b s).
Proof.
  intros Hb Hwf. pose proof (wf_block_size s Hwf) as Hs.
  assert (nblocks s ≤ nblocks (finer_slab b s)) as Hn.
  { unfold nblocks. simpl. apply Z.div_le_compat_l; slia. }
  destruct Hwf as [_ ? ? ? ? ? ? ? Ha Hf]. constructor; try done.
  - simpl. lia.
  - intros p Hp Hav. specialize (Ha p Hp Hav). lia.
  - intros p Hp Hav. specialize (Hf p Hp Hav). lia.
Qed.

Lemma print_state_full_faithful_witness :
  let sl := demo_slab_freed in let sl' := finer_slab 8192 demo_slab_freed in
  sl ≠ sl' ∧
  next sl = next sl' ∧ state sl = state sl' ∧ available_vecs sl = available_vecs sl' ∧
  available_slots sl = available_slots sl' ∧ freed_vecs sl = freed_vecs sl' ∧
  freed_slots sl = freed_slots sl'.
Proof.
  intros sl sl'. destruct (print_state_full_some 34048 _ demo_slab_freed_wf) as [text Htext].
  assert (is_word 64 (next demo_slab_freed)) as Hn by (vm_compute; split; congruence).
  assert (block_size demo_slab_freed = 16384) as Hb by (vm_compute; reflexivity).
  split.
  - intros He%(f_equal block_size). change (block_size sl') with 8192 in He. unfold sl in He.
    rewrite Hb in He. discriminate He.
  - exact (print_state_full_faithful 34048 sl sl' text demo_slab_freed_wf
      (finer_slab_wf 8192 _ ltac:(rewrite Hb; split; discriminate) demo_slab_freed_wf) Hn Hn Htext Htext).
Defined.
