(* ===== verification/Doubles.v ===== *)
(** * Double precision numbers

    The [double] of C++: IEEE 754 binary64 with rounding to nearest, as specified
    executably in the Standard Library ([SpecFloat]).  The integers below [2^53]
    are exact, and so are their sums; a product with a factor below
    [1 - 2^-7] stays below the integer that was multiplied. *)

From Stdlib Require Import SpecFloat.
From S2P Require Import Prelude.

Definition double : Type := spec_float.

Definition d_add : double → double → double := SFadd 53 1024.
Definition d_sub : double → double → double := SFsub 53 1024.
Definition d_mul : double → double → double := SFmul 53 1024.
Definition d_div : double → double → double := SFdiv 53 1024.
Definition d_lt : double → double → bool := SFltb.
Definition d_le : double → double → bool := SFleb.

(** Conversion of an integer, and truncation towards zero; infinities and NaN
    have no truncation. *)
Definition d_of_Z (z : Z) : double := binary_normalize 53 1024 z 0 false.

Definition d_trunc (x : double) : option Z :=
  match x with
  | S754_zero _ => Some 0
  | S754_finite s m e =>
      let a := if 0 <=? e then Z.pos m * 2 ^ e else Z.pos m / 2 ^ (- e) in
      Some (if s then - a else a)
  | _ => None
  end.

Definition d_is_nan (x : double) : bool := match x with S754_nan => true | _ => false end.

(** ** Shifts *)

Lemma digits2_log2 p : Z.pos (digits2_pos p) = Z.log2 (Z.pos p) + 1.
Proof.
  induction p as [p IH|p IH|]; [| |done].
  - cbn [digits2_pos]. rewrite Pos2Z.inj_succ, IH, Pos2Z.inj_xI, Z.log2_succ_double by lia. lia.
  - cbn [digits2_pos]. rewrite Pos2Z.inj_succ, IH, Pos2Z.inj_xO, Z.log2_double by lia. lia.
Qed.

Lemma Zdigits2_log2 m : 0 < m → Zdigits2 m = Z.log2 m + 1.
Proof. destruct m as [|p|p]; [lia| |lia]. intros _. apply digits2_log2. Qed.

Lemma iter_pos_nat {A} (f : A → A) p x : SpecFloat.iter_pos f p x = Nat.iter (Pos.to_nat p) f x.
Proof.
  revert x. induction p as [p IH|p IH|]; intros x; cbn [SpecFloat.iter_pos]; [| |done].
  - rewrite !IH, <-Nat.iter_add, <-PeanoNat.Nat.iter_succ_r. f_equal. lia.
  - rewrite !IH, <-Nat.iter_add, Pos2Nat.inj_xO. f_equal. lia.
Qed.

Lemma shr_1_m mrs : 0 ≤ shr_m mrs → shr_m (shr_1 mrs) = shr_m mrs / 2.
Proof.
  destruct mrs as [m r s]. cbn [shr_m]. destruct m as [|[p|p|]|p]; intros Hm; try done; cbn [shr_1 shr_m].
  - rewrite Pos2Z.inj_xI. apply (Z.div_unique _ _ _ 1); lia.
  - rewrite Pos2Z.inj_xO. apply (Z.div_unique _ _ _ 0); lia.
Qed.

Lemma shr_1_exact m : 0 ≤ m → shr_1 (Build_shr_record (2 * m) false false) = Build_shr_record m false false.
Proof. destruct m as [|p|p]; [done|done|lia]. Qed.

Lemma iter_shr_m (n : nat) mrs :
  0 ≤ shr_m mrs → shr_m (Nat.iter n shr_1 mrs) = shr_m mrs / 2 ^ Z.of_nat n.
Proof.
  intros Hm. induction n as [|n IH].
  - change (2 ^ Z.of_nat 0) with 1. by rewrite Z.div_1_r.
  - rewrite PeanoNat.Nat.iter_succ, shr_1_m.
    + rewrite IH, Z.div_div, Nat2Z.inj_succ, Z.pow_succ_r by lia. f_equal. lia.
    + rewrite IH. apply Z.div_pos; lia.
Qed.

Lemma iter_shr_exact (n : nat) m :
  0 ≤ m → Nat.iter n shr_1 (Build_shr_record (m * 2 ^ Z.of_nat n) false false) = Build_shr_record m false false.
Proof.
  intros Hm. revert m Hm. induction n as [|n IH]; intros m Hm.
  - change (2 ^ Z.of_nat 0) with 1. by rewrite Z.mul_1_r.
  - rewrite PeanoNat.Nat.iter_succ, Nat2Z.inj_succ, Z.pow_succ_r by lia.
    replace (m * (2 * 2 ^ Z.of_nat n)) with (2 * m * 2 ^ Z.of_nat n) by lia.
    rewrite IH by lia. by apply shr_1_exact.
Qed.

Lemma shr_m_div mrs e n : 0 ≤ shr_m mrs → 0 ≤ n →
  shr_m (fst (shr mrs e n)) = shr_m mrs / 2 ^ n ∧ snd (shr mrs e n) = e + n.
Proof.
  intros Hm Hn. destruct n as [|p|p]; [| |lia]; cbn [shr fst snd].
  - change (2 ^ 0) with 1. rewrite Z.div_1_r. split; [done|lia].
  - rewrite iter_pos_nat, iter_shr_m by done. by rewrite positive_nat_Z.
Qed.

Lemma shr_exact m e n : 0 ≤ m → 0 ≤ n →
  shr (Build_shr_record (m * 2 ^ n) false false) e n = (Build_shr_record m false false, e + n).
Proof.
  intros Hm Hn. destruct n as [|p|p]; [| |lia]; cbn [shr].
  - change (2 ^ 0) with 1. rewrite Z.mul_1_r. f_equal. lia.
  - rewrite iter_pos_nat. f_equal. rewrite <-(positive_nat_Z p). by apply iter_shr_exact.
Qed.

Lemma iter_xO m d : Z.pos (Pos.iter xO m d) = Z.pos m * 2 ^ Z.pos d.
Proof.
  rewrite Pos2Nat.inj_iter. rewrite <-(positive_nat_Z d). induction (Pos.to_nat d) as [|n IH].
  - change (2 ^ Z.of_nat 0) with 1. cbn. lia.
  - cbn [nat_rect]. rewrite Pos2Z.inj_xO, IH, Nat2Z.inj_succ, Z.pow_succ_r by lia. lia.
Qed.

(** ** Exact integers *)

(** The canonical form of an integer of at most 53 bits. *)
Definition canonical (k : Z) : double :=
  S754_finite false (Z.to_pos (k * 2 ^ (52 - Z.log2 k))) (Z.log2 k - 52).

Lemma log2_shift k c : 0 < k → 0 ≤ c → Z.log2 (k * 2 ^ c) = Z.log2 k + c.
Proof. intros Hk Hc. rewrite <-Z.shiftl_mul_pow2 by done. by apply Z.log2_shiftl. Qed.

Lemma fexp_53 d : -1074 ≤ d - 53 → fexp 53 1024 d = d - 53.
Proof. intros Hd. unfold fexp, SpecFloat.emin. lia. Qed.

Lemma round_aux_exact k j :
  0 < k < 2 ^ 53 → 52 - Z.log2 k ≤ j ≤ 1000 →
  binary_round_aux 53 1024 false (k * 2 ^ j) (- j) loc_Exact = canonical k.
Proof.
  intros Hk Hj. pose proof (Z.log2_spec k (proj1 Hk)) as Hl. pose proof (Z.log2_nonneg k) as Hl0.
  assert (Z.log2 k < 53) as Hl53 by (apply Z.log2_lt_pow2; lia).
  unfold binary_round_aux, shr_fexp. cbn [shr_record_of_loc].
  assert (0 < 2 ^ j) by lia. assert (0 < k * 2 ^ j) by lia.
  rewrite Zdigits2_log2, log2_shift, fexp_53 by lia.
  replace (Z.log2 k + j + 1 + - j - 53 - - j) with (j - (52 - Z.log2 k)) by lia.
  assert (k * 2 ^ j = k * 2 ^ (52 - Z.log2 k) * 2 ^ (j - (52 - Z.log2 k))) as ->.
  { rewrite <-Z.mul_assoc, <-Z.pow_add_r by lia. do 2 f_equal. lia. }
  set (m := k * 2 ^ (52 - Z.log2 k)). assert (0 < 2 ^ (52 - Z.log2 k)) by lia.
  assert (0 < m) as Hm by (unfold m; lia).
  rewrite shr_exact by lia. cbn [shr_m loc_of_shr_record shr_r shr_s round_nearest_even].
  replace (- j + (j - (52 - Z.log2 k))) with (Z.log2 k - 52) by lia.
  rewrite Zdigits2_log2 by done. unfold m at 2. rewrite log2_shift, fexp_53 by lia.
  replace (Z.log2 k + (52 - Z.log2 k) + 1 + (Z.log2 k - 52) - 53 - (Z.log2 k - 52)) with 0 by lia.
  cbn [shr shr_m]. unfold canonical. fold m. destruct m as [|p|p]; [lia| |lia].
  replace (Z.log2 k - 52 <=? 1024 - 53) with true by lia. done.
Qed.

(** A number of any precision whose value is the integer [k]. *)
Lemma normalize_exact k c :
  0 < k < 2 ^ 53 → 0 ≤ c ≤ 900 → binary_normalize 53 1024 (k * 2 ^ c) (- c) false = canonical k.
Proof.
  intros Hk Hc. assert (0 < k * 2 ^ c) as Hp by lia. unfold binary_normalize.
  destruct (k * 2 ^ c) as [|p|p] eqn:Ep; [lia| |lia]. unfold binary_round.
  pose proof (Z.log2_nonneg k) as Hl0. assert (Z.log2 k < 53) as Hl53 by (apply Z.log2_lt_pow2; lia).
  rewrite digits2_log2, <-Ep, log2_shift by lia. rewrite fexp_53 by lia.
  replace (Z.log2 k + c + 1 + - c - 53) with (Z.log2 k - 52) by lia. unfold shl_align.
  destruct (Z.log2 k - 52 - - c) as [|d|d] eqn:Ed.
  - rewrite <-Ep. apply round_aux_exact; lia.
  - rewrite <-Ep. apply round_aux_exact; lia.
  - rewrite iter_xO, <-Ep, <-Z.mul_assoc, <-Z.pow_add_r by lia.
    replace (Z.log2 k - 52) with (- (c + Z.pos d)) by lia. apply round_aux_exact; lia.
Qed.

Lemma d_of_Z_canonical k : 0 < k < 2 ^ 53 → d_of_Z k = canonical k.
Proof.
  intros Hk. pose proof (normalize_exact k 0 Hk ltac:(lia)) as H.
  change (2 ^ 0) with 1 in H. by rewrite Z.mul_1_r in H.
Qed.

Lemma canonical_pos k : 0 < k → Z.pos (Z.to_pos (k * 2 ^ (52 - Z.log2 k))) = k * 2 ^ (52 - Z.log2 k) ∨ 52 < Z.log2 k.
Proof.
  intros Hk. destruct (Z.le_gt_cases (Z.log2 k) 52); [left|right; lia]. assert (0 < 2 ^ (52 - Z.log2 k)) by lia. lia.
Qed.

Lemma d_trunc_of_Z k : 0 ≤ k < 2 ^ 53 → d_trunc (d_of_Z k) = Some k.
Proof.
  intros Hk. destruct (Z.eq_dec k 0) as [->|Hne]; [done|]. rewrite d_of_Z_canonical by lia.
  assert (Z.log2 k < 53) by (apply Z.log2_lt_pow2; lia). pose proof (Z.log2_nonneg k).
  destruct (canonical_pos k ltac:(lia)) as [Ep|]; [|lia]. unfold canonical, d_trunc. rewrite Ep.
  destruct (Z.leb_spec 0 (Z.log2 k - 52)).
  - replace (52 - Z.log2 k) with 0 by lia. replace (Z.log2 k - 52) with 0 by lia.
    change (2 ^ 0) with 1. f_equal. lia.
  - replace (- (Z.log2 k - 52)) with (52 - Z.log2 k) by lia. by rewrite Z.div_mul by lia.
Qed.

Lemma d_le_of_Z a b : 0 ≤ a < 2 ^ 53 → 0 ≤ b < 2 ^ 53 → d_le (d_of_Z a) (d_of_Z b) = (a <=? b).
Proof.
  intros Ha Hb. destruct (Z.eq_dec a 0) as [->|Ha0], (Z.eq_dec b 0) as [->|Hb0].
  - done.
  - rewrite (d_of_Z_canonical b) by lia. symmetry. apply Z.leb_le. lia.
  - rewrite (d_of_Z_canonical a) by lia. symmetry. apply Z.leb_gt. lia.
  - rewrite !d_of_Z_canonical by lia.
    destruct (canonical_pos a ltac:(lia)) as [Ea|Ea]; [|assert (Z.log2 a < 53) by (apply Z.log2_lt_pow2; lia); lia].
    destruct (canonical_pos b ltac:(lia)) as [Eb|Eb]; [|assert (Z.log2 b < 53) by (apply Z.log2_lt_pow2; lia); lia].
    unfold d_le, SFleb, canonical, SFcompare.
    destruct (Z.compare_spec (Z.log2 a - 52) (Z.log2 b - 52)) as [E|E|E].
    + replace (Z.log2 b) with (Z.log2 a) in * by lia.
      change (PosDef.Pos.compare_cont Eq) with Pos.compare. rewrite Pos2Z.inj_compare, Ea, Eb.
      assert (0 < 2 ^ (52 - Z.log2 a)).
      { apply Z.pow_pos_nonneg; [lia|]. assert (Z.log2 a < 53) by (apply Z.log2_lt_pow2; lia). lia. }
      rewrite <-Zmult_compare_compat_r by lia. unfold Z.leb. by destruct (a ?= b).
    + symmetry. apply Z.leb_le. destruct (Z.le_gt_cases a b) as [|Hc]; [done|].
      assert (Z.log2 b ≤ Z.log2 a) by (apply Z.log2_le_mono; lia). lia.
    + symmetry. apply Z.leb_gt. destruct (Z.le_gt_cases a b) as [Hc|]; [|done].
      assert (Z.log2 a ≤ Z.log2 b) by (apply Z.log2_le_mono; lia). lia.
Qed.

Lemma shl_align_value m e e' : e' ≤ e → Z.pos (fst (shl_align m e e')) = Z.pos m * 2 ^ (e - e').
Proof.
  intros He. unfold shl_align. destruct (e' - e) as [|d|d] eqn:Ed; [|lia|]; cbn [fst].
  - replace (e - e') with 0 by lia. change (2 ^ 0) with 1. lia.
  - rewrite iter_xO. do 2 f_equal. lia.
Qed.

(** Sums of integers are exact. *)
Lemma d_add_of_Z a b : 0 ≤ a → 0 ≤ b → a + b < 2 ^ 53 → d_add (d_of_Z a) (d_of_Z b) = d_of_Z (a + b).
Proof.
  intros Ha Hb Hs. destruct (Z.eq_dec a 0) as [->|Ha0], (Z.eq_dec b 0) as [->|Hb0].
  - done.
  - rewrite Z.add_0_l, (d_of_Z_canonical b) by lia. done.
  - rewrite Z.add_0_r, (d_of_Z_canonical a) by lia. done.
  - rewrite !d_of_Z_canonical by lia. unfold d_add, SFadd, canonical. cbn [cond_Zopp].
    assert (Z.log2 a < 53 ∧ Z.log2 b < 53) as [La Lb] by (split; apply Z.log2_lt_pow2; lia).
    pose proof (Z.log2_nonneg a). pose proof (Z.log2_nonneg b).
    set (ez := Z.min (Z.log2 a - 52) (Z.log2 b - 52)).
    rewrite !shl_align_value by lia.
    destruct (canonical_pos a ltac:(lia)) as [->|]; [|lia]. destruct (canonical_pos b ltac:(lia)) as [->|]; [|lia].
    rewrite <-!Z.mul_assoc, <-!Z.pow_add_r by lia.
    replace (52 - Z.log2 a + (Z.log2 a - 52 - ez)) with (- ez) by lia.
    replace (52 - Z.log2 b + (Z.log2 b - 52 - ez)) with (- ez) by lia.
    rewrite <-Z.mul_add_distr_r. replace ez with (- - ez) at 2 by lia.
    rewrite normalize_exact by lia. done.
Qed.

(** ** Products *)

Lemma round_nearest_bounds m l : 0 ≤ m → m ≤ round_nearest_even m l ≤ m + 1.
Proof. intros Hm. destruct l as [|[]]; simpl; try lia. destruct (Z.even m); lia. Qed.

(** Rounding a number [P * 2^E] of more than 53 bits that is well below [n]. *)
Lemma mul_round_small P E n :
  2 ^ 60 ≤ P → E + (Z.log2 P - 52) < 0 → -900 ≤ E → 0 < n →
  P + 2 ^ (Z.log2 P - 52) < n * 2 ^ (- E) →
  ∃ z, d_trunc (binary_round_aux 53 1024 false P E loc_Exact) = Some z ∧ 0 ≤ z < n.
Proof.
  intros HP He HE Hn Hb. set (s := Z.log2 P - 52) in *.
  pose proof (Z.log2_spec P ltac:(lia)) as [Hl1 Hl2].
  assert (60 ≤ Z.log2 P) as Hl by (apply Z.log2_le_pow2; lia).
  unfold binary_round_aux, shr_fexp. cbn [shr_record_of_loc].
  rewrite Zdigits2_log2, fexp_53 by lia. replace (Z.log2 P + 1 + E - 53 - E) with s by lia.
  destruct (shr (Build_shr_record P false false) E s) as [mrs' e'] eqn:E1.
  pose proof (shr_m_div (Build_shr_record P false false) E s ltac:(simpl; lia) ltac:(lia)) as [Hm1 He1].
  rewrite E1 in Hm1, He1. cbn [fst snd shr_m] in Hm1, He1. subst e'.
  assert (0 < 2 ^ s) as Hs by lia.
  assert (2 ^ Z.log2 P = 2 ^ 52 * 2 ^ s) as Ep by (rewrite <-Z.pow_add_r by lia; f_equal; lia).
  rewrite Z.pow_succ_r, Ep in Hl2 by lia. rewrite Ep in Hl1.
  assert (2 ^ 52 ≤ P / 2 ^ s < 2 ^ 53) as Hq.
  { split; [apply Z.div_le_lower_bound; lia|apply Z.div_lt_upper_bound; lia]. }
  assert (P / 2 ^ s * 2 ^ s ≤ P) as Hq2 by (pose proof (Z.mul_div_le P (2 ^ s)); lia).
  set (m2 := round_nearest_even (shr_m mrs') (loc_of_shr_record mrs')).
  assert (P / 2 ^ s ≤ m2 ≤ P / 2 ^ s + 1) as Hm2.
  { unfold m2. rewrite <-Hm1. apply round_nearest_bounds. lia. }
  assert (m2 < n * 2 ^ (- (E + s))) as Hlt.
  { assert (m2 * 2 ^ s < n * 2 ^ (- (E + s)) * 2 ^ s) as H; [|by apply Z.mul_lt_mono_pos_r in H].
    rewrite <-Z.mul_assoc, <-Z.pow_add_r by lia. replace (- (E + s) + s) with (- E) by lia. nia. }
  rewrite Zdigits2_log2 by lia.
  assert (0 ≤ Z.log2 m2 - 52 ≤ 1) as Hd.
  { assert (52 ≤ Z.log2 m2) by (apply Z.log2_le_pow2; lia).
    assert (Z.log2 m2 < 54) by (apply Z.log2_lt_pow2; lia). lia. }
  rewrite fexp_53 by lia. replace (Z.log2 m2 + 1 + (E + s) - 53 - (E + s)) with (Z.log2 m2 - 52) by lia.
  set (d := Z.log2 m2 - 52) in *.
  destruct (shr (Build_shr_record m2 false false) (E + s) d) as [mrs'' e''] eqn:E2.
  pose proof (shr_m_div (Build_shr_record m2 false false) (E + s) d ltac:(simpl; lia) ltac:(lia)) as [Hm3 He3].
  rewrite E2 in Hm3, He3. cbn [fst snd shr_m] in Hm3, He3. subst e''. rewrite Hm3.
  assert (0 < 2 ^ d ≤ 2) as Hd2.
  { split; [lia|]. change 2 with (2 ^ 1) at 2. apply Z.pow_le_mono_r; lia. }
  assert (0 < m2 / 2 ^ d) as Hpos.
  { assert (1 ≤ m2 / 2 ^ d); [|lia]. apply Z.div_le_lower_bound; lia. }
  destruct (m2 / 2 ^ d) as [|m|m] eqn:Em; [lia| |lia].
  replace (E + s + d <=? 1024 - 53) with true by lia. cbn [d_trunc]. rewrite <-Em.
  destruct (Z.leb_spec 0 (E + s + d)).
  - assert (E + s = -1 ∧ d = 1) as [Es Ed] by lia. rewrite Es, Ed in *. change (2 ^ (- -1)) with 2 in Hlt.
    change (2 ^ 1) with 2. change (2 ^ (-1 + 1)) with 1. eexists. split; [done|]. rewrite Z.mul_1_r.
    split; [apply Z.div_pos; lia|]. apply Z.div_lt_upper_bound; lia.
  - rewrite Z.div_div, <-Z.pow_add_r by lia. replace (d + - (E + s + d)) with (- (E + s)) by lia.
    eexists. split; [done|]. split; [apply Z.div_pos; lia|]. apply Z.div_lt_upper_bound; lia.
Qed.

(** A factor [c * 2^-53] between 1/2 and [1 - 2^-7]. *)
Lemma d_mul_below c n :
  2 ^ 52 ≤ Z.pos c ≤ 2 ^ 53 - 2 ^ 46 → 0 < n < 2 ^ 32 →
  ∃ z, d_trunc (d_mul (S754_finite false c (-53)) (d_of_Z n)) = Some z ∧ 0 ≤ z < n.
Proof.
  intros Hc Hn. rewrite d_of_Z_canonical by lia. unfold canonical, d_mul, SFmul. cbn [xorb].
  assert (Z.log2 n < 32) as Ln by (apply Z.log2_lt_pow2; lia). pose proof (Z.log2_nonneg n).
  rewrite Pos2Z.inj_mul. destruct (canonical_pos n ltac:(lia)) as [->|]; [|lia].
  set (mn := n * 2 ^ (52 - Z.log2 n)).
  pose proof (Z.log2_spec n ltac:(lia)) as [Hl1 Hl2]. rewrite Z.pow_succ_r in Hl2 by lia.
  assert (2 ^ Z.log2 n * 2 ^ (52 - Z.log2 n) = 2 ^ 52) as Ep by (rewrite <-Z.pow_add_r by lia; f_equal; lia).
  assert (0 < 2 ^ (52 - Z.log2 n)) by lia.
  assert (2 ^ 52 ≤ mn < 2 ^ 53) as Hmn by (unfold mn; nia).
  set (P := Z.pos c * mn).
  assert (2 ^ 104 ≤ P < 2 ^ 106) as HP by (unfold P; nia).
  assert (104 ≤ Z.log2 P < 106) as LP.
  { split; [apply Z.log2_le_pow2; lia|apply Z.log2_lt_pow2; lia]. }
  apply mul_round_small; [lia|lia|lia|lia|].
  replace (- (-53 + (Z.log2 n - 52))) with (52 - Z.log2 n + 53) by lia.
  rewrite Z.pow_add_r, Z.mul_assoc by lia. fold mn.
  assert (2 ^ (Z.log2 P - 52) ≤ 2 ^ 53) by (apply Z.pow_le_mono_r; lia).
  unfold P at 1. nia.
Qed.
