(* ===== verification/Timing.v ===== *)
(** * Timers and statistics

    The clock conversions of lib/timing/timers.h and the statistics of
    lib/timing/stats.h and stats.cc.  Clock readings are arguments; doubles are
    those of [Doubles].  Reading outside of the data, a signed overflow, a
    conversion of a double out of the range of [int] and sorting with NaN are
    undefined ([Fault] or [None]). *)

From S2P Require Import Prelude.
From S2P Require Import CString.
From S2P Require Import Doubles.
From stdpp Require Import strings sorting.
From Stdlib Require Import SpecFloat.
Local Open Scope Z_scope.

(** ** timers.h *)

Inductive time_units := CYCLES | NSEC | USEC | MSEC | SEC.

Definition unit_to_str (unit : time_units) : string :=
  match unit with
  | CYCLES => "cycles" | NSEC => "nsec" | USEC => "usec" | MSEC => "msec" | SEC => "sec"
  end.

(** The two registers that [rdtsc] sets. *)
Definition get_cycles (lo hi : Z) : Z := Z.lor lo (u64 (hi ≪ 32)).

Record timespec := mk_timespec { tv_sec : Z; tv_nsec : Z }.

(** A product or sum of [long] numbers. *)
Definition long (x : Z) : option Z := if (- 2 ^ 63 <=? x) && (x <? 2 ^ 63) then Some x else None.

Definition ts_to_ns (ts : timespec) : option Z :=
  a ← long (tv_sec ts * 1000); b ← long (a * 1000); c ← long (b * 1000);
  d ← long (c + tv_nsec ts); Some (u64 d).

Definition ts_to_us (ts : timespec) : option Z :=
  a ← long (tv_sec ts * 1000); b ← long (a * 1000);
  d ← long (b + Z.quot (tv_nsec ts) 1000); Some (u64 d).

Definition ts_to_ms (ts : timespec) : option Z :=
  a ← long (tv_sec ts * 1000); d ← long (a + Z.quot (tv_nsec ts) (1000 * 1000)); Some (u64 d).

Definition ts_to_s (ts : timespec) : option Z :=
  d ← long (tv_sec ts + Z.quot (tv_nsec ts) (1000 * 1000 * 1000)); Some (u64 d).

(** [get_ns], given what the clock reads. *)
Definition get_ns (reading : timespec) : option Z := ts_to_ns reading.

(** ** stats.h and stats.cc *)

Record stats_out := mk_stats_out {
  st_N : Z;
  median : double;
  mean : double;
  st_max : double;
  st_min : double;
  p99 : double;
  p95 : double;
  p90 : double;
  stddev : double;
  variance : double;
  units : time_units;
}.

Definition sci_notation_bound : Z := 10 * 1000.

Definition best_format (value : double) : string :=
  if d_le (d_of_Z sci_notation_bound) value then "%.4E" else "%.4lf".

Local Abbreviation ST := (ST stats_out).

Definition read (data : list double) (i : Z) : ST double := from_opt (get_at data i).

(** The loop of [stddev_and_variance]. *)
Fixpoint squares_loop (k : nat) (i : Z) (mean : double) (data : list double) (sum : double) : ST double :=
  match k with
  | O => mret sum
  | S k =>
      x ← read data i;
      squares_loop k (i + 1) mean data (d_add sum (d_mul (d_sub x mean) (d_sub x mean)))
  end.

(** [stddev_and_variance] with both results asked for: nothing if there is
    too little data. *)
Definition stddev_and_variance (mean : double) (data : list double) (n : Z) : ST (option (double * double)) :=
  if n <=? 1 then mret None
  else
    sum ← squares_loop (Z.to_nat n) 0 mean data (d_of_Z 0);
    mret (Some (d_div sum (d_of_Z (u32 (n - 1))), d_div sum (d_of_Z n))).

(** [std::accumulate(data, data + n, 0)]: the accumulator is an [int]. *)
Fixpoint accumulate (k : nat) (i : Z) (data : list double) (acc : Z) : ST Z :=
  match k with
  | O => mret acc
  | S k =>
      x ← read data i;
      t ← from_opt (d_trunc (d_add (d_of_Z acc) x));
      require ((- 2 ^ 31 <=? t) && (t <? 2 ^ 31));;
      accumulate k (i + 1) data t
  end.

(** [uint64_t idx = fraction * (double)n]. *)
Definition percentile_idx (fraction : double) (n : Z) : ST Z :=
  t ← from_opt (d_trunc (d_mul fraction (d_of_Z n)));
  require ((0 <=? t) && (t <? 2 ^ 64));;
  mret t.

Definition d_099 : double := d_div (d_of_Z 99) (d_of_Z 100).
Definition d_095 : double := d_div (d_of_Z 95) (d_of_Z 100).
Definition d_090 : double := d_div (d_of_Z 90) (d_of_Z 100).

Definition sorted_array_to_stats (data : list double) (n : Z) (_units : time_units) : ST unit :=
  if n =? 1 then
    x ← read data 0;
    modify (λ _, mk_stats_out 1 x x x x x x x (d_of_Z 0) (d_of_Z 0) _units)
  else
    med ← (if n mod 2 =? 0 then
             a ← read data (n / 2); b ← read data (n / 2 + 1); mret (d_div (d_add a b) (d_of_Z 2))
           else read data (n / 2));
    acc ← accumulate (Z.to_nat n) 0 data 0;
    let m := d_of_Z (u32 acc / n) in
    mx ← read data (n - 1);
    mn ← read data 0;
    p99_idx ← percentile_idx d_099 n;
    p95_idx ← percentile_idx d_095 n;
    p90_idx ← percentile_idx d_090 n;
    q99 ← read data p99_idx;
    q95 ← read data p95_idx;
    q90 ← read data p90_idx;
    sv ← stddev_and_variance m data n;
    modify (λ s,
      let '(sd, va) := match sv with Some p => p | None => (stddev s, variance s) end in
      mk_stats_out n med m mx mn q99 q95 q90 sd va _units).

(** [std::sort] of doubles. *)
Fixpoint d_insert (x : double) (l : list double) : list double :=
  match l with
  | [] => [x]
  | y :: l => if d_le x y then x :: y :: l else y :: d_insert x l
  end.

Definition std_sort (l : list double) : ST (list double) :=
  require (forallb (λ x, negb (d_is_nan x)) l);;
  mret (foldr d_insert [] l).

(** [get_stats(double *, n, units)] on an array of [n] doubles; the array after
    the call. *)
Definition get_stats (data : list double) (_units : time_units) : ST (list double) :=
  let n := Z.of_nat (length data) in
  if n =? 0 then mret data
  else
    data ← std_sort data;
    sorted_array_to_stats data n _units;;
    mret data.

(** [get_stats(uint64_t *, n, units)]: the numbers are converted in place. *)
Definition get_stats_u64 (data : list Z) (_units : time_units) : ST (list double) :=
  get_stats (d_of_Z <$> data) _units.

(** ** Correctness of the statistics *)

(** A sort of integers as reference. *)
Fixpoint z_insert (x : Z) (l : list Z) : list Z :=
  match l with
  | [] => [x]
  | y :: l => if x <=? y then x :: y :: l else y :: z_insert x l
  end.

Definition z_sort (l : list Z) : list Z := foldr z_insert [] l.

Lemma z_insert_perm x l : z_insert x l ≡ₚ x :: l.
Proof.
  induction l as [|y l IH]; [done|]. simpl. destruct (x <=? y); [done|]. rewrite IH. apply Permutation_swap.
Qed.

Lemma z_sort_perm l : z_sort l ≡ₚ l.
Proof. induction l as [|x l IH]; [done|]. simpl. by rewrite z_insert_perm, IH. Qed.

Lemma z_insert_sorted x l : StronglySorted Z.le l → StronglySorted Z.le (z_insert x l).
Proof.
  induction 1 as [|y l Hl IH Hy]; simpl; [repeat constructor|]. destruct (Z.leb_spec x y).
  - constructor; [by constructor|]. constructor; [done|]. eapply Forall_impl; [done|]. simpl. lia.
  - constructor; [done|]. rewrite z_insert_perm. constructor; [lia|done].
Qed.

Lemma z_sort_sorted l : StronglySorted Z.le (z_sort l).
Proof. induction l as [|x l IH]; [constructor|]. by apply z_insert_sorted. Qed.

Definition exact (x : Z) : Prop := 0 ≤ x < 2 ^ 53.

Lemma d_sort_exact l : Forall exact l → foldr d_insert [] (d_of_Z <$> l) = d_of_Z <$> z_sort l.
Proof.
  induction 1 as [|x l Hx Hl IH]; [done|]. cbn [fmap list_fmap foldr]. rewrite IH. clear IH.
  change (z_sort (x :: l)) with (z_insert x (z_sort l)).
  assert (Forall exact (z_sort l)) as Hs by (by rewrite z_sort_perm). clear Hl. revert Hs. generalize (z_sort l).
  intros k Hk. induction Hk as [|y k Hy Hk IH]; [done|]. cbn [fmap list_fmap d_insert z_insert].
  rewrite d_le_of_Z by done. destruct (x <=? y); [done|]. cbn [fmap list_fmap]. by rewrite IH.
Qed.

Lemma exact_not_nan x : exact x → d_is_nan (d_of_Z x) = false.
Proof.
  intros Hx. destruct (Z.eq_dec x 0) as [->|]; [done|]. unfold exact in Hx. by rewrite d_of_Z_canonical by lia.
Qed.

Section Reads.
Context (data : list double) (s : stats_out).
Local Abbreviation n := (Z.of_nat (length data)).

Lemma read_spec i (Q : double → stats_out → Prop) :
  0 ≤ i < n → (∀ x, data !! Z.to_nat i = Some x → Q x s) → wp true (read data i) Q s.
Proof.
  intros Hi HQ. unfold read, get_at. replace (0 <=? i) with true by lia.
  destruct (lookup_lt_is_Some_2 data (Z.to_nat i)) as [x Hx]; [lia|]. rewrite Hx. wp_step; [done|]. by apply HQ.
Qed.

Lemma squares_loop_spec k i m sum (Q : double → stats_out → Prop) :
  0 ≤ i → i + Z.of_nat k ≤ n → (∀ x, Q x s) → wp true (squares_loop k i m data sum) Q s.
Proof.
  revert i sum. induction k as [|k IH]; intros i sum Hi Hk HQ; cbn [squares_loop]; [by wp_step|].
  wp_step. apply read_spec; [lia|]. intros x _. apply IH; [lia|lia|done].
Qed.

Lemma stddev_spec m (Q : option (double * double) → stats_out → Prop) :
  1 < n → (∀ p, Q (Some p) s) → wp true (stddev_and_variance m data n) Q s.
Proof.
  intros Hn HQ. unfold stddev_and_variance. replace (n <=? 1) with false by lia. wp_step.
  apply squares_loop_spec; [lia|lia|]. intros x. wp_step. apply HQ.
Qed.

Lemma percentile_spec c (Q : Z → stats_out → Prop) :
  2 ^ 52 ≤ Z.pos c ≤ 2 ^ 53 - 2 ^ 46 → 0 < n < 2 ^ 32 → (∀ i, 0 ≤ i < n → Q i s) →
  wp true (percentile_idx (S754_finite false c (-53)) n) Q s.
Proof.
  intros Hc Hn HQ. unfold percentile_idx. destruct (d_mul_below c n Hc Hn) as (z & Ez & Hz).
  wp_step. wp_step; [done|]. wp_step. wp_step; [lia|]. wp_step. by apply HQ.
Qed.
End Reads.

Definition z_sum (l : list Z) : Z := foldr Z.add 0 l.

Lemma z_sum_perm l k : l ≡ₚ k → z_sum l = z_sum k.
Proof. induction 1; simpl; lia. Qed.

Lemma z_sum_nonneg l : Forall (λ x, 0 ≤ x) l → 0 ≤ z_sum l.
Proof. induction 1; simpl; lia. Qed.

(** The accumulator is exact while the sum fits in an [int]. *)
Lemma accumulate_spec pre l acc s (Q : Z → stats_out → Prop) :
  Forall (λ x, 0 ≤ x) l → 0 ≤ acc → acc + z_sum l < 2 ^ 31 → Q (acc + z_sum l) s →
  wp true (accumulate (length l) (Z.of_nat (length pre)) (d_of_Z <$> (pre ++ l)) acc) Q s.
Proof.
  intros Hl. revert pre acc. induction Hl as [|x l Hx Hl IH]; intros pre acc Ha Hs HQ.
  - simpl in *. rewrite Z.add_0_r in HQ. by wp_step.
  - cbn [length accumulate]. cbn [z_sum foldr] in Hs, HQ. fold (z_sum l) in Hs, HQ.
    pose proof (z_sum_nonneg l Hl). wp_step. apply read_spec.
    { rewrite length_fmap, length_app. cbn [length]. lia. }
    intros y Hy. rewrite Nat2Z.id, fmap_app, lookup_app_r, length_fmap, Nat.sub_diag in Hy by (rewrite length_fmap; lia).
    injection Hy as <-. wp_step. wp_step; [by rewrite d_add_of_Z, d_trunc_of_Z by lia|]. wp_step.
    wp_step; [lia|]. replace (Z.of_nat (length pre) + 1) with (Z.of_nat (length (pre ++ [x])))
      by (rewrite length_app; simpl; lia).
    replace (pre ++ x :: l) with ((pre ++ [x]) ++ l) by (by rewrite <-app_assoc). apply IH; [lia|lia|].
    by replace (acc + x + z_sum l) with (acc + (x + z_sum l)) by lia.
Qed.

(** What the statistics of [n] sorted numbers are; for an even number of them
    [median] is taken one place too high. *)
Definition stats_of (l : list Z) (u : time_units) (s : stats_out) : Prop :=
  let n := Z.of_nat (length l) in
  let at_ i := d_of_Z (default 0 (l !! Z.to_nat i)) in
  st_N s = n ∧ st_min s = at_ 0 ∧ st_max s = at_ (n - 1) ∧ mean s = d_of_Z (z_sum l / n) ∧
  (n mod 2 = 1 → median s = at_ (n / 2)) ∧
  (n mod 2 = 0 → median s = d_div (d_add (at_ (n / 2)) (at_ (n / 2 + 1))) (d_of_Z 2)) ∧
  (∀ p, p ∈ [p99 s; p95 s; p90 s] → p ∈ d_of_Z <$> l) ∧ units s = u.

Lemma lookup_at (l : list Z) i y : (d_of_Z <$> l) !! Z.to_nat i = Some y → y = d_of_Z (default 0 (l !! Z.to_nat i)).
Proof.
  rewrite list_lookup_fmap. destruct (l !! Z.to_nat i) as [x|] eqn:E; [|done]. intros H. injection H as <-. done.
Qed.

Lemma sorted_array_spec l u s :
  Forall (λ x, 0 ≤ x) l → z_sum l < 2 ^ 31 → 1 ≤ Z.of_nat (length l) < 2 ^ 32 → length l ≠ 2%nat →
  wp true (sorted_array_to_stats (d_of_Z <$> l) (Z.of_nat (length l)) u) (λ _ s', stats_of l u s') s.
Proof.
  intros Hl Hs Hn Hne. pose proof (z_sum_nonneg l Hl) as Hs0. unfold sorted_array_to_stats.
  assert (Z.of_nat (length (d_of_Z <$> l)) = Z.of_nat (length l)) as Elen by (by rewrite length_fmap).
  destruct (Z.eqb_spec (Z.of_nat (length l)) 1) as [E1|E1].
  - destruct l as [|x [|y l]]; simpl in E1; [lia| |lia]. wp_step. apply read_spec; [simpl; lia|].
    intros z Hz. injection Hz as <-. wp_step. unfold stats_of. simpl. rewrite Z.add_0_r.
    split_and!; try done; [by rewrite Z.div_1_r|]. intros p. set_solver.
  - set (n := Z.of_nat (length l)) in *. assert (3 ≤ n) as Hn3 by lia.
    pose proof (Z.div_mod n 2) as Hdm. pose proof (Z.mod_pos_bound n 2) as Hmb.
    wp_step. apply (wp_mono _ _ (λ med s', s' = s ∧
      (n mod 2 = 1 → med = d_of_Z (default 0 (l !! Z.to_nat (n / 2)))) ∧
      (n mod 2 = 0 → med = d_div (d_add (d_of_Z (default 0 (l !! Z.to_nat (n / 2))))
         (d_of_Z (default 0 (l !! Z.to_nat (n / 2 + 1))))) (d_of_Z 2)))).
    { destruct (Z.eqb_spec (n mod 2) 0) as [Em|Em].
      - wp_step. apply read_spec; [lia|]. intros a ->%lookup_at. wp_step. apply read_spec; [lia|].
        intros b ->%lookup_at. wp_step. split_and!; [done|lia|done].
      - apply read_spec; [lia|]. intros a ->%lookup_at. split_and!; [done|done|lia]. }
    intros med s0 (-> & Hodd & Heven). wp_step.
    replace (Z.to_nat n) with (length l) by lia.
    apply (accumulate_spec [] l 0 s); [done|lia|lia|]. rewrite Z.add_0_l.
    wp_step. apply read_spec; [lia|]. intros mx Hmx%lookup_at.
    wp_step. apply read_spec; [lia|]. intros mn Hmn%lookup_at.
    wp_step. rewrite <-Elen. apply percentile_spec; [done|lia|]. intros i99 H99.
    wp_step. apply percentile_spec; [done|lia|]. intros i95 H95.
    wp_step. apply percentile_spec; [done|lia|]. intros i90 H90.
    wp_step. apply read_spec; [done|]. intros q99 Hq99.
    wp_step. apply read_spec; [done|]. intros q95 Hq95.
    wp_step. apply read_spec; [done|]. intros q90 Hq90.
    wp_step. apply stddev_spec; [lia|]. intros [sd va]. wp_step. rewrite Elen.
    unfold stats_of. fold n. simpl. split_and!; try done.
    + rewrite wrap_small; [done|]. unfold is_word. lia.
    + intros p Hp. repeat (apply elem_of_cons in Hp as [->|Hp]); try (by apply not_elem_of_nil in Hp);
        by eapply list_elem_of_lookup_2.
Qed.
