(* ===== verification/TimingTheorems.v ===== *)
(** * Theorems about timers and statistics *)

From S2P Require Import Prelude.
From S2P Require Import Doubles.
From S2P Require Import Timing.
From stdpp Require Import sorting.
Local Open Scope Z_scope.

(** ** Clocks *)

Lemma long_Some x : - 2 ^ 63 ≤ x < 2 ^ 63 → long x = Some x.
Proof. intros Hx. unfold long. by replace ((- 2 ^ 63 <=? x) && (x <? 2 ^ 63)) with true by lia. Qed.

(** The conversions of a reading of up to 290 years agree with each other: the
    coarser units are the nanoseconds divided, rounded down, and no conversion
    overflows. *)
Theorem timers_consistent ts :
  0 ≤ tv_sec ts ≤ 9 * 10 ^ 9 → 0 ≤ tv_nsec ts < 10 ^ 9 →
  let ns := tv_sec ts * 10 ^ 9 + tv_nsec ts in
  ts_to_ns ts = Some ns ∧ ts_to_us ts = Some (ns / 10 ^ 3) ∧ ts_to_ms ts = Some (ns / 10 ^ 6) ∧
  ts_to_s ts = Some (ns / 10 ^ 9).
Proof.
  intros Hs Hn ns. unfold ts_to_ns, ts_to_us, ts_to_ms, ts_to_s. rewrite !Z.quot_div_nonneg by lia.
  assert (0 ≤ tv_nsec ts / 1000 < 10 ^ 9) by (split; [apply Z.div_pos; lia|apply Z.div_lt_upper_bound; lia]).
  assert (0 ≤ tv_nsec ts / (1000 * 1000) < 10 ^ 9) by (split; [apply Z.div_pos; lia|apply Z.div_lt_upper_bound; lia]).
  assert (tv_nsec ts / (1000 * 1000 * 1000) = 0) as E0 by (apply Z.div_small; lia). rewrite E0.
  repeat (rewrite long_Some by lia; cbn [mbind option_bind]).
  assert (∀ c m, 0 < c → m * c = 10 ^ 9 → ns / c = tv_sec ts * m + tv_nsec ts / c) as Hdiv.
  { intros c m Hc Hm. unfold ns. rewrite <-Hm, Z.mul_assoc, Z.add_comm, Z.div_add by lia. lia. }
  rewrite (Hdiv (10 ^ 3) (10 ^ 6)), (Hdiv (10 ^ 6) (10 ^ 3)), (Hdiv (10 ^ 9) 1) by lia.
  change (tv_nsec ts / 10 ^ 9) with (tv_nsec ts / (1000 * 1000 * 1000)). rewrite E0.
  change (10 ^ 3) with 1000. change (10 ^ 6) with (1000 * 1000).
  rewrite !wrap_small by (unfold is_word; lia). unfold ns. split_and!; f_equal; lia.
Qed.

(** ** Statistics *)

(** C38: The statistics of any data of at most [2^32 - 1] unsigned numbers whose sum fits in
    an [int], unless there are exactly two: no read is outside of the data, the
    minimum and the maximum are the least and the greatest number, the mean is
    the integer part of the exact mean, for an odd number of data the median is
    the middle one, and the percentiles are among the data. *)
Theorem stats_correct (data : list Z) u s :
  Forall (λ x, 0 ≤ x) data → z_sum data < 2 ^ 31 → 0 < Z.of_nat (length data) < 2 ^ 32 → length data ≠ 2%nat →
  ∃ l s', get_stats_u64 data u s = Done (d_of_Z <$> l, s') ∧ l ≡ₚ data ∧ StronglySorted Z.le l ∧ stats_of l u s'.
Proof.
  intros Hd Hs Hn Hne. exists (z_sort data).
  pose proof (z_sort_perm data) as Hp. pose proof (Permutation_length Hp) as Hlen.
  assert (Forall exact data) as Hex.
  { clear Hn Hne Hp Hlen. revert Hs. induction Hd as [|x l Hx Hl IH]; intros Hs; constructor.
    - cbn [z_sum foldr] in Hs. fold (z_sum l) in Hs. pose proof (z_sum_nonneg l Hl). unfold exact. lia.
    - apply IH. cbn [z_sum foldr] in Hs. fold (z_sum l) in Hs. lia. }
  assert (wp true (get_stats_u64 data u) (λ r s', r = d_of_Z <$> z_sort data ∧ stats_of (z_sort data) u s') s) as Hw.
  { unfold get_stats_u64, get_stats. rewrite length_fmap. replace (Z.of_nat (length data) =? 0) with false by lia.
    unfold std_sort. do 2 wp_step. wp_step.
    { apply forallb_forall. intros y Hy. apply list_elem_of_In, list_elem_of_fmap in Hy as (x & -> & Hx).
      rewrite Forall_forall in Hex. by rewrite exact_not_nan by (by apply Hex). }
    wp_step. rewrite d_sort_exact by done. rewrite <-Hlen. wp_step.
    eapply wp_mono; [apply sorted_array_spec|].
    - by rewrite Hp.
    - by rewrite (z_sum_perm _ _ Hp).
    - lia.
    - congruence.
    - intros [] s' Hst. by wp_step. }
  apply wp_total_done in Hw as (r & s' & E & -> & Hst). exists s'. split_and!; [done|done|apply z_sort_sorted|done].
Qed.

Lemma stats_correct_witness :
  ∃ l s', get_stats_u64 [7; 3; 5; 1; 9] NSEC
      (mk_stats_out 0 (d_of_Z 0) (d_of_Z 0) (d_of_Z 0) (d_of_Z 0) (d_of_Z 0) (d_of_Z 0) (d_of_Z 0)
        (d_of_Z 0) (d_of_Z 0) NSEC) = Done (d_of_Z <$> l, s') ∧ l ≡ₚ [7; 3; 5; 1; 9] ∧
    StronglySorted Z.le l ∧ stats_of l NSEC s'.
Proof.
  apply stats_correct; [repeat (constructor; [lia|]); constructor|done|done|done].
Defined.

(** C39: The index of a percentile is within the data for every number of data: the
    product of the fraction and the number, rounded to a double and truncated,
    is below the number. *)
Theorem percentile_in_bounds n s :
  0 < n < 2 ^ 32 →
  ∀ q, q ∈ [d_099; d_095; d_090] → ∃ i, percentile_idx q n s = Done (i, s) ∧ 0 ≤ i < n.
Proof.
  intros Hn q Hq.
  assert (∃ c, q = SpecFloat.S754_finite false c (-53) ∧ 2 ^ 52 ≤ Z.pos c ≤ 2 ^ 53 - 2 ^ 46) as (c & -> & Hc).
  { repeat (apply elem_of_cons in Hq as [->|Hq]); [..|by apply not_elem_of_nil in Hq];
      eexists; split; [vm_compute; reflexivity|lia|vm_compute; reflexivity|lia|vm_compute; reflexivity|lia]. }
  destruct (d_mul_below c n Hc Hn) as (z & Ez & Hz). exists z. split; [|done].
  unfold percentile_idx, mbind, ST_bind, from_opt. rewrite Ez. unfold require.
  by replace ((0 <=? z) && (z <? 2 ^ 64)) with true by lia.
Qed.

Lemma percentile_in_bounds_witness :
  ∃ i, percentile_idx d_099 100
      (mk_stats_out 0 (d_of_Z 0) (d_of_Z 0) (d_of_Z 0) (d_of_Z 0) (d_of_Z 0) (d_of_Z 0) (d_of_Z 0)
        (d_of_Z 0) (d_of_Z 0) NSEC) =
    Done (i, mk_stats_out 0 (d_of_Z 0) (d_of_Z 0) (d_of_Z 0) (d_of_Z 0) (d_of_Z 0) (d_of_Z 0) (d_of_Z 0)
        (d_of_Z 0) (d_of_Z 0) NSEC) ∧ 0 ≤ i < 100.
Proof. apply percentile_in_bounds; [lia|left]. Defined.

(** Two numbers are read past the end: the median of an even number of data is
    taken from the places [n / 2] and [n / 2 + 1]. *)
Theorem stats_two_values a b u s :
  get_stats_u64 [a; b] u s = Fault.
Proof.
  unfold get_stats_u64, get_stats, std_sort. cbn [fmap list_fmap length]. unfold mbind, ST_bind at 1 2, require.
  cbn [Z.of_nat Z.eqb]. destruct (forallb _ _); [|done]. unfold mret, ST_ret at 1.
  assert (length (foldr d_insert [] [d_of_Z a; d_of_Z b]) = 2%nat) as Hl.
  { cbn [foldr d_insert]. by destruct (d_le _ _). }
  destruct (foldr _ _ _) as [|x [|y [|]]]; try done.
Qed.

(** The mean is truncated, also on the way: two halves have mean 0. *)
Theorem mean_truncates s :
  ∃ s', get_stats [d_div (d_of_Z 1) (d_of_Z 2); d_div (d_of_Z 1) (d_of_Z 2); d_div (d_of_Z 1) (d_of_Z 2)] NSEC s =
    Done ([d_div (d_of_Z 1) (d_of_Z 2); d_div (d_of_Z 1) (d_of_Z 2); d_div (d_of_Z 1) (d_of_Z 2)], s') ∧
    mean s' = d_of_Z 0.
Proof. destruct s. eexists. split; [vm_compute; reflexivity|done]. Qed.
