(* ===== verification/ThreadHelper.v ===== *)
(** * Thread helpers

    [thelper] (lib/timing/thread_helper.h and thread_helper.cc) starts a number of
    threads, pinned to CPUs, and joins them.  The threads library and [calloc]
    are parameters, the class [Pthreads]; the error macros, which end the
    process, and accesses outside of the array of identifiers are [Fault]. *)

From S2P Require Import Prelude.
From S2P Require Import Machine.

Inductive pin_policy := NONE | FIRST_N | RR.

(** The calls that may fail, by the state [W] of the library.  A set of CPUs is a
    bit mask. *)
Class Pthreads (W : Type) := {
  calloc_ok : Z → W → bool * W;
  attr_init : W → bool * W;
  attr_setstacksize : Z → W → bool * W;
  attr_setaffinity : Z → W → bool * W;
  (* [pthread_create] with the attributes set before, and the argument. *)
  pthread_create : Z → Z → W → option Z * W;
  attr_destroy : W → bool * W;
  pthread_join : Z → W → bool * W;
}.

Section Helper.
Context {W : Type} `{!Pthreads W}.

(** The fields of [thelper], with the array behind [tids], and the library.
    [affinity] is the mask the attributes hold. *)
Record thelper := mk_thelper {
  cur_nthreads : Z;
  cap_nthreads : Z;
  tids : option (list Z);
  affinity : Z;
  world : W;
}.

Local Abbreviation ST := (ST thelper).

Definition new_thelper (w : W) : thelper := mk_thelper 0 0 None 0 w.

Definition stack_size : Z := 1 ≪ 20.

Definition call {A} (f : W → A * W) : ST A := λ s,
  let '(a, w) := f (world s) in
  Done (a, mk_thelper (cur_nthreads s) (cap_nthreads s) (tids s) (affinity s) w).

(** [ERROR_ASSERT] of a call that returns whether it succeeded. *)
Definition error_assert (f : W → bool * W) : ST unit := ok ← call f; require ok.

Definition CPU_SET (cpu set : Z) : Z := Z.lor set (1 ≪ cpu).
Definition CPU_CLR (cpu set : Z) : Z := Z.ldiff set (1 ≪ cpu).

(** The loop that fills [full_cpu_set]. *)
Fixpoint full_set_loop (k : nat) (i set : Z) : Z :=
  match k with O => set | S k => full_set_loop k (i + 1) (CPU_SET i set) end.

Definition full_cpu_set : Z := full_set_loop (Z.to_nat NPROCS) 0 0.

Definition setaffinity (set : Z) : ST unit :=
  error_assert (attr_setaffinity set);;
  modify (λ s, mk_thelper (cur_nthreads s) (cap_nthreads s) (tids s) set (world s)).

(** The loop that creates the threads, from thread [i] on; [cset] is the set
    that is used for one CPU at a time. *)
Fixpoint spawn_loop (k : nat) (i : Z) (cset : Z) (pp : pin_policy) (data_start data_incr : Z) : ST unit :=
  match k with
  | O => mret tt
  | S k =>
      cset ← (match pp with
              | FIRST_N =>
                  if i <? NPROCS then setaffinity (CPU_SET i cset);; mret (CPU_CLR i (CPU_SET i cset))
                  else setaffinity full_cpu_set;; mret cset
              | RR =>
                  setaffinity (CPU_SET (i mod NPROCS) cset);;
                  mret (CPU_CLR (i mod NPROCS) (CPU_SET (i mod NPROCS) cset))
              | NONE => setaffinity full_cpu_set;; mret cset
              end);
      aff ← gets affinity;
      tid ← call (pthread_create aff (u64 (data_start + u64 (i * data_incr))));
      tid ← from_opt tid;
      arr ← gets tids;
      arr ← from_opt arr;
      arr ← from_opt (put_at arr i tid);
      modify (λ s, mk_thelper (cur_nthreads s) (cap_nthreads s) (Some arr) (affinity s) (world s));;
      spawn_loop k (i + 1) cset pp data_start data_incr
  end.

Definition spawn_n (nthreads : Z) (pp : pin_policy) (data_start data_incr : Z) : ST unit :=
  modify (λ s, mk_thelper nthreads (cap_nthreads s) (tids s) (affinity s) (world s));;
  cap ← gets cap_nthreads;
  (if cap <? nthreads then
     modify (λ s, mk_thelper (cur_nthreads s) (cap_nthreads s) None (affinity s) (world s));;
     error_assert (calloc_ok nthreads);;
     modify (λ s, mk_thelper (cur_nthreads s) nthreads (Some (replicate (Z.to_nat nthreads) 0)) (affinity s) (world s))
   else mret tt);;
  error_assert attr_init;;
  error_assert (attr_setstacksize stack_size);;
  spawn_loop (Z.to_nat nthreads) 0 0 pp data_start data_incr;;
  error_assert attr_destroy.

Fixpoint join_loop (k : nat) (i : Z) : ST unit :=
  match k with
  | O => mret tt
  | S k =>
      arr ← gets tids;
      arr ← from_opt arr;
      tid ← from_opt (get_at arr i);
      error_assert (pthread_join tid);;
      join_loop k (i + 1)
  end.

Definition join_all : ST unit :=
  n ← gets cur_nthreads;
  if n =? 0 then mret tt else join_loop (Z.to_nat n) 0.
End Helper.

(** ** What is asked of the library *)

(** The CPUs of thread [i]. *)
Definition pinned (pp : pin_policy) (i : Z) : Z :=
  match pp with
  | NONE => full_cpu_set
  | FIRST_N => if i <? NPROCS then 1 ≪ i else full_cpu_set
  | RR => 1 ≪ (i mod NPROCS)
  end.

Inductive libcall :=
  | CCalloc (n : Z) | CAttrInit | CStackSize (size : Z) | CAffinity (set : Z)
  | CCreate (set arg : Z) | CAttrDestroy | CJoin (tid : Z).

(** The calls of [spawn_n] on a helper with room for [cap] threads. *)
Definition thread_calls (pp : pin_policy) (data_start data_incr i : Z) : list libcall :=
  [CAffinity (pinned pp i); CCreate (pinned pp i) (u64 (data_start + u64 (i * data_incr)))].

Definition spawn_calls (cap n : Z) (pp : pin_policy) (data_start data_incr : Z) : list libcall :=
  (if cap <? n then [CCalloc n] else []) ++ [CAttrInit; CStackSize stack_size] ++
  (seqZ 0 n ≫= thread_calls pp data_start data_incr) ++ [CAttrDestroy].

Section Spec.
Context {W : Type} `{!Pthreads W}.
Local Abbreviation thelper := (thelper (W := W)).
Implicit Types s : thelper.

Definition checked (r : bool * W) : option (list Z * W) := if fst r then Some ([], snd r) else None.

(** One call: the identifier of the thread it makes, if any; [None] when it
    fails. *)
Definition do_call (c : libcall) (w : W) : option (list Z * W) :=
  match c with
  | CCalloc n => checked (calloc_ok n w)
  | CAttrInit => checked (attr_init w)
  | CStackSize size => checked (attr_setstacksize size w)
  | CAffinity set => checked (attr_setaffinity set w)
  | CCreate set arg => let '(r, w) := pthread_create set arg w in tid ← r; Some ([tid], w)
  | CAttrDestroy => checked (attr_destroy w)
  | CJoin tid => checked (pthread_join tid w)
  end.

(** Calls one after the other, up to the first that fails: the threads made. *)
Fixpoint perform (cs : list libcall) (w : W) : option (list Z * W) :=
  match cs with
  | [] => Some ([], w)
  | c :: cs => '(r, w) ← do_call c w; '(ids, w) ← perform cs w; Some (r ++ ids, w)
  end.

Lemma perform_app cs1 cs2 w :
  perform (cs1 ++ cs2) w = '(r1, w) ← perform cs1 w; '(r2, w) ← perform cs2 w; Some (r1 ++ r2, w).
Proof.
  revert w. induction cs1 as [|c cs1 IH]; intros w; cbn [perform app].
  - simpl. by destruct (perform cs2 w) as [[]|].
  - destruct (do_call c w) as [[r w1]|]; [|done]. cbn [mbind option_bind]. rewrite IH.
    destruct (perform cs1 w1) as [[r1 w2]|]; [|done]. cbn [mbind option_bind].
    destruct (perform cs2 w2) as [[r2 w3]|]; [|done]. cbn [mbind option_bind]. by rewrite app_assoc.
Qed.

(** [m] makes the calls [cs], and ends the process when one of them fails. *)
Definition makes {A} (m : ST thelper A) (cs : list libcall) (Q : list Z → A → thelper → Prop) s : Prop :=
  match perform cs (world s) with
  | None => m s = Fault
  | Some (ids, w) => ∃ a s', m s = Done (a, s') ∧ world s' = w ∧ Q ids a s'
  end.

Lemma makes_bind {A B} (m : ST thelper A) (f : A → ST thelper B) cs1 cs2 R (Q : list Z → B → thelper → Prop) s :
  makes m cs1 R s → (∀ ids a s1, R ids a s1 → makes (f a) cs2 (λ ids2, Q (ids ++ ids2)) s1) →
  makes (m ≫= f) (cs1 ++ cs2) Q s.
Proof.
  unfold makes. intros Hm Hf. rewrite perform_app. remember (m ≫= f) as mf eqn:Emf.
  destruct (perform cs1 (world s)) as [[ids w]|]; cbn [mbind option_bind].
  - destruct Hm as (a & s1 & Em & <- & HR). specialize (Hf ids a s1 HR).
    assert (mf s = f a s1) as -> by (rewrite Emf; unfold mbind, ST_bind; by rewrite Em).
    destruct (perform cs2 (world s1)) as [[ids2 w2]|]; cbn [mbind option_bind]; exact Hf.
  - rewrite Emf. unfold mbind, ST_bind. by rewrite Hm.
Qed.

Lemma makes_mono {A} (m : ST thelper A) cs (R Q : list Z → A → thelper → Prop) s :
  makes m cs R s → (∀ ids a s', R ids a s' → Q ids a s') → makes m cs Q s.
Proof.
  unfold makes. intros Hm HQ. destruct (perform cs (world s)) as [[ids w]|]; [|done].
  destruct Hm as (a & s' & ? & ? & ?). eauto 10.
Qed.

(** A step of the helper itself. *)
Lemma makes_pure {A B} (m : ST thelper A) (f : A → ST thelper B) cs a s1 (Q : list Z → B → thelper → Prop) s :
  m s = Done (a, s1) → world s1 = world s → makes (f a) cs Q s1 → makes (m ≫= f) cs Q s.
Proof. unfold makes. intros Hm Hw Hf. unfold mbind, ST_bind. rewrite Hm. by rewrite Hw in Hf. Qed.

Lemma makes_ret {A} (m : ST thelper A) a s' (Q : list Z → A → thelper → Prop) s :
  m s = Done (a, s') → world s' = world s → Q [] a s' → makes m [] Q s.
Proof. intros Hm Hw HQ. exists a, s'. done. Qed.

Definition with_world (w : W) s : thelper :=
  mk_thelper (cur_nthreads s) (cap_nthreads s) (tids s) (affinity s) w.

(** A checked call. *)
Lemma makes_assert f c (Q : list Z → unit → thelper → Prop) s :
  (∀ w, do_call c w = checked (f w)) → (∀ w, Q [] tt (with_world w s)) → makes (error_assert f) [c] Q s.
Proof.
  intros Hc HQ. unfold makes. cbn [perform]. rewrite Hc. unfold error_assert, call, mbind, ST_bind, checked.
  destruct (f (world s)) as [[] w]; simpl; [|done]. eexists _, _. split; [done|]. split; [done|]. apply HQ.
Qed.

Definition pinned_to (set : Z) s : thelper :=
  mk_thelper (cur_nthreads s) (cap_nthreads s) (tids s) set (world s).

Lemma makes_setaffinity set (Q : list Z → unit → thelper → Prop) s :
  (∀ w, Q [] tt (pinned_to set (with_world w s))) → makes (setaffinity set) [CAffinity set] Q s.
Proof.
  intros HQ. unfold makes, setaffinity. cbn [perform]. unfold error_assert, call, mbind, ST_bind. cbn [do_call].
  unfold checked. destruct (attr_setaffinity set (world s)) as [[] w]; simpl; [|done].
  eexists _, _. split; [done|]. split; [done|]. apply HQ.
Qed.

Lemma set_clr i : 0 ≤ i → CPU_CLR i (CPU_SET i 0) = 0.
Proof. intros Hi. unfold CPU_CLR, CPU_SET. by rewrite Z.lor_0_l, Z.ldiff_diag. Qed.

(** Pinning thread [i]; the set for one CPU is empty again afterwards. *)
Lemma makes_pin pp i s (Q : list Z → Z → thelper → Prop) :
  0 ≤ i → (∀ w, Q [] 0 (pinned_to (pinned pp i) (with_world w s))) →
  makes (match pp with
         | FIRST_N =>
             if i <? NPROCS then setaffinity (CPU_SET i 0);; mret (CPU_CLR i (CPU_SET i 0))
             else setaffinity full_cpu_set;; mret 0
         | RR =>
             setaffinity (CPU_SET (i mod NPROCS) 0);;
             mret (CPU_CLR (i mod NPROCS) (CPU_SET (i mod NPROCS) 0))
         | NONE => setaffinity full_cpu_set;; mret 0
         end) [CAffinity (pinned pp i)] Q s.
Proof.
  intros Hi HQ. assert (∀ set c, set = pinned pp i → c = 0 →
    makes (setaffinity set;; mret c) [CAffinity (pinned pp i)] Q s) as H.
  { intros set c -> ->. rewrite <-(app_nil_r [_]).
    eapply makes_bind; [apply (makes_setaffinity _ (λ ids _ s', ids = [] ∧ ∃ w, s' = pinned_to (pinned pp i) (with_world w s)));
      intros w; eauto|].
    intros ids [] s1 (-> & w & ->). by eapply makes_ret. }
  pose proof (Z.mod_pos_bound i NPROCS ltac:(done)). destruct pp; cbn [pinned] in *.
  - by apply H.
  - destruct (i <? NPROCS); apply H; try done. by apply set_clr.
  - apply H; [done|]. apply set_clr. lia.
Qed.

(** [ids] are in the places from [i] on. *)
Definition written (i : Z) (ids arr arr' : list Z) : Prop :=
  length arr' = length arr ∧
  ∀ j, get_at arr' j = if decide (i ≤ j < i + Z.of_nat (length ids)) then ids !! Z.to_nat (j - i) else get_at arr j.

Lemma written_nil i arr : written i [] arr arr.
Proof. split; [done|]. intros j. simpl. by rewrite decide_False by lia. Qed.

Lemma written_cons i tid ids arr arr' :
  0 ≤ i < Z.of_nat (length arr) → written (i + 1) ids (<[Z.to_nat i := tid]> arr) arr' →
  written i (tid :: ids) arr arr'.
Proof.
  intros Hi [Hl Hg]. rewrite length_insert in Hl. split; [done|]. intros j. rewrite Hg, get_at_insert by lia.
  cbn [length]. repeat case_decide; try lia; subst; try done.
  - by replace (Z.to_nat (j - i)) with (S (Z.to_nat (j - (i + 1)))) by lia.
  - by rewrite Z.sub_diag.
Qed.

Lemma makes_create aff arg (f : Z → ST thelper unit) cs (Q : list Z → unit → thelper → Prop) s :
  (∀ tid w, makes (f tid) cs (λ ids, Q (tid :: ids)) (with_world w s)) →
  makes (tid ← call (pthread_create aff arg); tid ← from_opt tid; f tid) (CCreate aff arg :: cs) Q s.
Proof.
  intros Hf. remember (tid ← call _; _) as m eqn:Em.
  assert (m s = let '(r, w) := pthread_create aff arg (world s) in
    match r with Some tid => f tid (with_world w s) | None => Fault end) as E.
  { rewrite Em. unfold call, mbind, ST_bind. by destruct (pthread_create aff arg (world s)) as [[tid|] w]. }
  unfold makes. cbn [perform do_call]. rewrite E.
  destruct (pthread_create aff arg (world s)) as [[tid|] w]; [|done]. cbn [mbind option_bind].
  specialize (Hf tid w). unfold makes in Hf. cbn [world with_world] in Hf.
  by destruct (perform cs w) as [[]|].
Qed.

Lemma makes_spawn_loop k i pp ds di arr s :
  0 ≤ i → tids s = Some arr → i + Z.of_nat k ≤ Z.of_nat (length arr) →
  makes (spawn_loop k i 0 pp ds di) (seqZ i (Z.of_nat k) ≫= thread_calls pp ds di)
    (λ ids _ s', length ids = k ∧ cur_nthreads s' = cur_nthreads s ∧ cap_nthreads s' = cap_nthreads s ∧
      ∃ arr', tids s' = Some arr' ∧ written i ids arr arr') s.
Proof.
  revert i arr s. induction k as [|k IH]; intros i arr s Hi Harr Hlen; cbn [spawn_loop].
  - rewrite seqZ_nil by lia. eapply makes_ret; [done|done|]. split_and!; [done..|]. exists arr.
    split; [done|]. apply written_nil.
  - rewrite seqZ_cons by lia. rewrite bind_cons. unfold thread_calls at 1.
    change (makes ?m ([?a; ?b] ++ ?l)) with (makes m ([a] ++ b :: l)). eapply makes_bind.
    { apply (makes_pin pp i s (λ ids c s', ids = [] ∧ c = 0 ∧ ∃ w, s' = pinned_to (pinned pp i) (with_world w s)));
        [done|]. intros w. eauto. }
    intros ids c s1 (-> & -> & w & ->). cbn [app]. eapply makes_pure; [done|done|]. cbn [affinity pinned_to].
    apply makes_create. intros tid w'.
    eapply makes_pure; [done|done|]. eapply makes_pure; [cbn [tids with_world pinned_to]; by rewrite Harr|done|].
    eapply makes_pure; [by rewrite put_at_Some by lia|done|]. eapply makes_pure; [done|done|].
    replace (Z.pred (Z.of_nat (S k))) with (Z.of_nat k) by lia. rewrite <-Z.add_1_r.
    eapply makes_mono; [apply (IH (i + 1) (<[Z.to_nat i := tid]> arr)); [lia|done|rewrite length_insert; lia]|].
    cbn [cur_nthreads cap_nthreads]. intros ids [] s' (H1 & H2 & H3 & arr' & H4 & H5).
    split_and!; [by rewrite <-H1|done|done|]. exists arr'. split; [done|]. apply written_cons; [lia|done].
Qed.

Lemma makes_join_loop ids i arr s :
  tids s = Some arr → (∀ j, (j < length ids)%nat → get_at arr (i + Z.of_nat j) = ids !! j) →
  makes (join_loop (length ids) i) (CJoin <$> ids)
    (λ _ _ s', cur_nthreads s' = cur_nthreads s ∧ cap_nthreads s' = cap_nthreads s ∧ tids s' = tids s) s.
Proof.
  revert i s. induction ids as [|tid ids IH]; intros i s Harr Hget; cbn [join_loop length fmap list_fmap].
  - by eapply makes_ret.
  - change (CJoin tid :: ?l) with ([CJoin tid] ++ l).
    pose proof (Hget O ltac:(simpl; lia)) as H0. cbn in H0. rewrite Z.add_0_r in H0.
    eapply makes_pure; [done|done|]. eapply makes_pure; [by rewrite Harr|done|].
    eapply makes_pure; [by rewrite H0|done|].
    eapply makes_bind; [apply (makes_assert _ _ (λ _ _ s', ∃ w, s' = with_world w s)); [done|by eauto]|].
    intros _ [] s1 [w ->]. apply (IH (i + 1) (with_world w s)); [done|].
    intros j Hj. change (ids !! j) with ((tid :: ids) !! S j). rewrite <-(Hget (S j)) by (simpl; lia).
    f_equal. lia.
Qed.

(** As many places in the array as the helper has room for. *)
Definition well_sized s : Prop :=
  match tids s with Some arr => Z.of_nat (length arr) = cap_nthreads s | None => cap_nthreads s = 0 end.

(** The identifiers in the array. *)
Definition identifiers s : list Z := take (Z.to_nat (cur_nthreads s)) (default [] (tids s)).

Lemma written_identifiers ids arr arr' :
  (length ids ≤ length arr)%nat → written 0 ids arr arr' → take (length ids) arr' = ids.
Proof.
  intros Hl [Hla Hg]. apply list_eq. intros j. destruct (decide (j < length ids)%nat) as [Hj|Hj].
  - rewrite lookup_take_lt by done. specialize (Hg (Z.of_nat j)). rewrite decide_True in Hg by lia.
    unfold get_at in Hg. rewrite Z.sub_0_r, !Nat2Z.id in Hg. by destruct (Z.leb_spec 0 (Z.of_nat j)); [|lia].
  - rewrite lookup_take_ge, lookup_ge_None_2 by lia. done.
Qed.

(** Room for [n] threads. *)
Lemma makes_room n s :
  well_sized s → 0 ≤ n → cur_nthreads s = n →
  makes (if cap_nthreads s <? n then
           modify (λ s, mk_thelper (cur_nthreads s) (cap_nthreads s) None (affinity s) (world s));;
           error_assert (calloc_ok n);;
           modify (λ s, mk_thelper (cur_nthreads s) n (Some (replicate (Z.to_nat n) 0)) (affinity s) (world s))
         else mret tt)
    (if cap_nthreads s <? n then [CCalloc n] else [])
    (λ ids _ s', ids = [] ∧ well_sized s' ∧ cur_nthreads s' = n ∧ cap_nthreads s' = Z.max n (cap_nthreads s)) s.
Proof.
  intros Hs Hn Hc. destruct (Z.ltb_spec (cap_nthreads s) n).
  - eapply makes_pure; [done|done|]. rewrite <-(app_nil_r [CCalloc n]).
    set (s1 := mk_thelper (cur_nthreads s) (cap_nthreads s) None (affinity s) (world s)).
    eapply makes_bind; [apply (makes_assert _ _ (λ ids _ s', ids = [] ∧ ∃ w, s' = with_world w s1)); [done|by eauto]|].
    intros ids [] s' (-> & w & ->). eapply makes_ret; [done|done|]. cbn. unfold well_sized. cbn.
    rewrite length_replicate. split_and!; [done|lia|done|lia].
  - eapply makes_ret; [done|done|]. split_and!; [done|done|done|lia].
Qed.

Lemma makes_spawn_n n pp ds di s :
  well_sized s → 0 ≤ n →
  makes (spawn_n n pp ds di) (spawn_calls (cap_nthreads s) n pp ds di)
    (λ ids _ s', Z.of_nat (length ids) = n ∧ cur_nthreads s' = n ∧ cap_nthreads s' = Z.max n (cap_nthreads s) ∧
      well_sized s' ∧ identifiers s' = ids) s.
Proof.
  intros Hs Hn. unfold spawn_n, spawn_calls. eapply makes_pure; [done|done|]. eapply makes_pure; [done|done|].
  cbn [cap_nthreads].
  set (s0 := mk_thelper n (cap_nthreads s) (tids s) (affinity s) (world s)).
  eapply makes_bind; [apply (makes_room n s0); [exact Hs|done|done]|].
  intros ids0 [] s1 (-> & Hs1 & Hc1 & Hcap1). cbn [app cap_nthreads s0] in *.
  change (CAttrInit :: ?a :: ?l) with ([CAttrInit] ++ [a] ++ l).
  eapply makes_bind; [apply (makes_assert _ _ (λ ids _ s', ids = [] ∧ ∃ w, s' = with_world w s1)); [done|by eauto]|].
  intros ids1 [] s2 (-> & w2 & ->).
  eapply makes_bind; [apply (makes_assert _ _ (λ ids _ s', ids = [] ∧ ∃ w, s' = with_world w s1)); [done|by eauto]|].
  intros ids2 [] s3 (-> & w3 & ->).
  set (R := λ (ids : list Z) (_ : unit) s', Z.of_nat (length ids) = n ∧ cur_nthreads s' = n ∧
    cap_nthreads s' = Z.max n (cap_nthreads s) ∧ well_sized s' ∧ identifiers s' = ids).
  assert (makes (spawn_loop (Z.to_nat n) 0 0 pp ds di) (seqZ 0 n ≫= thread_calls pp ds di) R (with_world w3 s1)) as Hloop.
  { destruct (tids s1) as [arr|] eqn:Harr.
    - assert (Z.of_nat (length arr) = Z.max n (cap_nthreads s)) as Hlen by (unfold well_sized in Hs1; by rewrite Harr in Hs1; lia).
      pose proof (makes_spawn_loop (Z.to_nat n) 0 pp ds di arr (with_world w3 s1) ltac:(lia) Harr ltac:(lia)) as Hl.
      rewrite Z2Nat.id in Hl by done. eapply makes_mono; [exact Hl|].
      intros ids [] s' (H1 & H2 & H3 & arr' & H4 & H5). cbn in H2, H3. split_and!; [lia|by rewrite H2|by rewrite H3| |].
      + unfold well_sized. rewrite H4, H3, (proj1 H5). lia.
      + unfold identifiers. rewrite H4, H2, Hc1, <-H1. cbn. apply (written_identifiers _ arr); [lia|done].
    - assert (n = 0) as -> by (unfold well_sized in Hs1; rewrite Harr in Hs1; lia).
      eapply makes_ret; [done|done|]. split_and!; [done|done|done|exact Hs1|].
      unfold identifiers. cbn. by rewrite Hc1. }
  eapply makes_bind; [exact Hloop|]. intros ids [] s4 H4.
  eapply makes_mono; [apply (makes_assert _ _ (λ ids _ s', ids = [] ∧ ∃ w, s' = with_world w s4)); [done|by eauto]|].
  intros ids' [] s5 (-> & w5 & ->). cbn [app]. rewrite app_nil_r. exact H4.
Qed.

Lemma makes_join_all s ids :
  well_sized s → identifiers s = ids → Z.of_nat (length ids) = cur_nthreads s →
  makes join_all (CJoin <$> ids)
    (λ _ _ s', cur_nthreads s' = cur_nthreads s ∧ cap_nthreads s' = cap_nthreads s ∧ tids s' = tids s) s.
Proof.
  intros Hs Hids Hlen. unfold join_all. eapply makes_pure; [done|done|]. destruct (Z.eqb_spec (cur_nthreads s) 0).
  - destruct ids; [|simpl in Hlen; lia]. by eapply makes_ret.
  - rewrite <-Hlen, Nat2Z.id. unfold identifiers in Hids. destruct (tids s) as [arr|] eqn:Harr.
    + eapply makes_mono; [apply (makes_join_loop ids 0 arr); [done|]|];
        [|intros ? ? ? (H1 & H2 & H3); by rewrite H1, H2, H3].
      intros j Hj. unfold get_at. rewrite Z.add_0_l, Nat2Z.id. destruct (Z.leb_spec 0 (Z.of_nat j)); [|lia].
      rewrite <-Hids. simpl. rewrite lookup_take_lt; [done|]. lia.
    + simpl in Hids. rewrite take_nil in Hids. subst ids. simpl in Hlen. lia.
Qed.

(** C40: [spawn_n] of [n] threads followed by [join_all], whatever the helper was
    used for before, and whatever the threads library and [calloc] answer.
    [spawn_n] makes the calls [spawn_calls]: room for [n] identifiers when there
    is less, the attributes, and for thread [i] a [pthread_create] with the
    argument [data_start + i * data_incr] and the CPUs its policy says (all of
    them, CPU [i] while there is one, or CPU [i] modulo their number).
    [join_all] joins exactly the threads that were created, in order.  The
    process is ended ([ERROR_ASSERT]) when one of these calls fails, and only
    then: when all of them succeed the two functions return, and the array of
    identifiers, never accessed out of range, holds those of the threads. *)
Theorem spawn_join_all s n pp ds di :
  well_sized s → 0 ≤ n < 2 ^ 32 →
  match perform (spawn_calls (cap_nthreads s) n pp ds di) (world s) with
  | None => (spawn_n n pp ds di;; join_all) s = Fault
  | Some (ids, w) =>
      Z.of_nat (length ids) = n ∧
      match perform (CJoin <$> ids) w with
      | None => (spawn_n n pp ds di;; join_all) s = Fault
      | Some (_, w') =>
          ∃ s', (spawn_n n pp ds di;; join_all) s = Done (tt, s') ∧ world s' = w' ∧ well_sized s' ∧
            cur_nthreads s' = n ∧ cap_nthreads s' = Z.max n (cap_nthreads s) ∧ identifiers s' = ids
      end
  end.
Proof.
  intros Hs Hn. pose proof (makes_spawn_n n pp ds di s Hs ltac:(lia)) as H. unfold makes in H.
  remember (spawn_n n pp ds di;; join_all) as m eqn:Em.
  destruct (perform (spawn_calls _ _ _ _ _) (world s)) as [[ids w]|].
  - destruct H as ([] & s1 & E1 & <- & Hlen & Hcur & Hcap & Hs1 & Hids). split; [done|].
    assert (m s = join_all s1) as -> by (rewrite Em; unfold mbind, ST_bind; by rewrite E1).
    pose proof (makes_join_all s1 ids Hs1 Hids ltac:(lia)) as Hj. unfold makes in Hj.
    destruct (perform (CJoin <$> ids) (world s1)) as [[r w']|]; [|done].
    destruct Hj as ([] & s2 & E2 & Hw & H1 & H2 & H3). exists s2.
    unfold well_sized, identifiers in *. rewrite H1, H2, H3. done.
  - rewrite Em. unfold mbind, ST_bind. by rewrite H.
Qed.
End Spec.

(** A library whose calls succeed and are recorded: the threads that were
    created, as identifier, CPU mask and argument, and those that were joined,
    the last one last. *)
Record log := mk_log { running : list (Z * Z * Z); joined : list Z }.

#[export] Instance log_pthreads : Pthreads log := {
  calloc_ok _ w := (true, w);
  attr_init w := (true, w);
  attr_setstacksize _ w := (true, w);
  attr_setaffinity _ w := (true, w);
  pthread_create aff arg w :=
    let tid := Z.of_nat (length (running w) + length (joined w)) + 1 in
    (Some tid, mk_log (running w ++ [(tid, aff, arg)]) (joined w));
  attr_destroy w := (true, w);
  pthread_join tid w := (true, mk_log (running w) (joined w ++ [tid]));
}.

(** Threads made, then joined: what the library has seen. *)
Definition log_of (r : option (list Z * log)) : option (list Z * log * option (list Z * log)) :=
  match r with Some (ids, w) => Some (ids, w, perform (CJoin <$> ids) w) | None => None end.

Definition log_ok (r : option (list Z * log * option (list Z * log))) : bool :=
  match r with
  | Some (ids, w, Some (_, w')) =>
      bool_decide (ids = seqZ 1 20) && bool_decide (joined w' = ids) &&
      bool_decide (running w !! 18%nat = Some (19, 1 ≪ 2, 4096 + 18 * 8))
  | _ => false
  end.

Lemma log_spawned : log_ok (log_of (perform (spawn_calls 0 20 RR 4096 8) (mk_log [] []))) = true.
Proof. vm_compute. reflexivity. Qed.

Lemma spawn_join_all_witness :
  ∃ s', (spawn_n 20 RR 4096 8;; join_all) (new_thelper (mk_log [] [])) = Done (tt, s') ∧
    joined (world s') = seqZ 1 20 ∧ identifiers s' = seqZ 1 20.
Proof.
  pose proof (spawn_join_all (new_thelper (mk_log [] [])) 20 RR 4096 8 eq_refl ltac:(lia)) as H.
  revert H. generalize log_spawned. cbn [new_thelper world cap_nthreads].
  generalize (perform (spawn_calls 0 20 RR 4096 8) (mk_log [] [])) as r. intros [[ids w]|] E H; [|discriminate E].
  destruct H as [_ H]. unfold log_of, log_ok in E. revert E H.
  generalize (perform (CJoin <$> ids) w) as r. intros [[ids' w']|] E H; [|discriminate E].
  apply andb_true_iff in E as [E _]. apply andb_true_iff in E as [E1%bool_decide_eq_true E2%bool_decide_eq_true].
  destruct H as (s' & H1 & H2 & _ & _ & _ & H3). exists s'. rewrite H2, H3, E2.
  split; [exact H1|]. split; exact E1.
Defined.
