(* ===== verification/SlabTest.v ===== *)
(** * The allocator's test ([src/slab_test.cc])

    Threads that allocate and free blocks of random sizes, fill each with a
    number of their own, keep them in a block list, and check that no block
    was written to by anyone else.  The threads share the allocator and its
    memory; each call of the allocator or of [alloc_tester] is one step, and
    the steps of the threads interleave in any order. *)

From S2P Require Import Prelude Bits ConstMath Machine SizeClasses ObjSlab SlabManager ObjectAllocator BlockList.

(** ** Data *)

(** [size] counts 32-bit words. *)
Record region := mk_region { r_id : Z; r_size : Z; r_mem : Z }.

(** A node holds a region of 16 bytes and its 32-bit index. *)
Definition sizeof_node : Z := 24.

Record alloc_tester := mk_tester { allocs : block_list region; counter : Z }.

(** The variables of a thread: the state of its [simple_rng], its tester, and
    the locals of its function. *)
Record locals := mk_locals {
  cur : Z; tester : alloc_tester; i_ : Z; size_ : Z; lbytes : Z; lcalls : Z
}.

(** What a thread can access: the allocator, the memory it hands out (32-bit
    words by address), the number of calls of [rand] so far, and its own
    variables. *)
Record env := mk_env { e_sys : sys; e_cells : Z → Z; e_rands : nat; e_loc : locals }.

Definition set_cur (x : Z) (l : locals) : locals :=
  mk_locals x (tester l) (i_ l) (size_ l) (lbytes l) (lcalls l).
Definition set_tester (t : alloc_tester) (l : locals) : locals :=
  mk_locals (cur l) t (i_ l) (size_ l) (lbytes l) (lcalls l).
Definition set_i (i : Z) (l : locals) : locals :=
  mk_locals (cur l) (tester l) i (size_ l) (lbytes l) (lcalls l).
Definition set_size (n : Z) (l : locals) : locals :=
  mk_locals (cur l) (tester l) (i_ l) n (lbytes l) (lcalls l).
(** [lbytes += size; ++lcalls;] *)
Definition count_call (l : locals) : locals :=
  mk_locals (cur l) (tester l) (i_ l) (size_ l) (u64 (lbytes l + size_ l)) (u64 (lcalls l + 1)).

Definition set_sys (s : sys) (e : env) : env := mk_env s (e_cells e) (e_rands e) (e_loc e).
Definition set_cells (c : Z → Z) (e : env) : env := mk_env (e_sys e) c (e_rands e) (e_loc e).
Definition set_rands (n : nat) (e : env) : env := mk_env (e_sys e) (e_cells e) n (e_loc e).
Definition set_loc (l : locals) (e : env) : env := mk_env (e_sys e) (e_cells e) (e_rands e) l.
Definition set_list (b : block_list region) (e : env) : env :=
  set_loc (set_tester (mk_tester b (counter (tester (e_loc e)))) (e_loc e)) e.

Definition list_of (e : env) : block_list region := allocs (tester (e_loc e)).

(** Calls of the allocator and of the list. *)
Definition on_sys {A} (m : ST sys A) : ST env A := λ e,
  match m (e_sys e) with
  | Done (a, s) => Done (a, set_sys s e)
  | Fault => Fault
  | OutOfFuel => OutOfFuel
  | Crashed => Crashed
  end.
Definition on_list {A} (m : ST (block_list region) A) : ST env A := λ e,
  match m (list_of e) with
  | Done (a, b) => Done (a, set_list b e)
  | Fault => Fault
  | OutOfFuel => OutOfFuel
  | Crashed => Crashed
  end.

(** ** [region] *)

Definition write_cell (a v : Z) (c : Z → Z) : Z → Z := λ a', if a' =? a then v else c a'.

(** The loop of the constructor, from index [i] on. *)
Fixpoint fill (n : nat) (i mem id : Z) : ST env unit :=
  match n with
  | O => mret tt
  | S n =>
      modify (λ e, set_cells (write_cell (mem + 4 * i) id (e_cells e)) e);;
      fill n (i + 1) mem id
  end.

Definition new_region (al : object_allocator) (id size mem : Z) : ST env region :=
  let size := size / 4 in
  require (negb (mem =? 0));;
  require (in_range al mem);;
  fill (Z.to_nat size) 0 mem id;;
  mret (mk_region id size mem).

Fixpoint verify_from (n : nat) (i : Z) (r : region) : ST env unit :=
  match n with
  | O => mret tt
  | S n =>
      c ← gets e_cells;
      require (c (r_mem r + 4 * i) =? r_id r);;
      verify_from n (i + 1) r
  end.

Definition verify (r : region) : ST env unit :=
  require (negb (r_mem r =? 0));;
  verify_from (Z.to_nat (r_size r)) 0 r.

(** ** [simple_rng] *)

Definition RAND_MAX : Z := 2147483647.

(** The next state, before it is checked for 0. *)
Definition next_rand (cur : Z) : Z :=
  let lo := u32 (16807 * Z.land cur 65535) in
  let hi := u32 (16807 * (cur ≫ 16)) in
  let lo := u32 (lo + u32 (Z.land hi 32767 ≪ 16)) in
  let lo := u32 (lo + (hi ≫ 15)) in
  if 2147483647 <? lo then u32 (lo - 2147483647) else lo.

Section Tester.
(** The allocator, what the calls of [rand] return, the CPU at each step of the
    allocator's clock, the block [calloc] returns if it is called, and the fuel
    of the loops. *)
Context (al : object_allocator) (rand : nat → Z) (cpu : nat → Z) (fresh : Z) (fuel : nat).

Definition call_rand : ST env Z :=
  n ← gets e_rands;
  modify (set_rands (S n));;
  mret (u32 (rand n)).

Definition simple_rand : ST env Z :=
  l ← gets e_loc;
  let lo := next_rand (cur l) in
  modify (λ e, set_loc (set_cur lo (e_loc e)) e);;
  if lo =? 0 then
    r ← call_rand;
    modify (λ e, set_loc (set_cur r (e_loc e)) e);;
    mret r
  else mret lo.

(** [do { size = rng.simple_rand() % 144; } while (!size);] *)
Fixpoint pick_size (fuel : nat) : ST env Z :=
  match fuel with
  | O => out_of_fuel
  | S fuel =>
      r ← simple_rand;
      let size := r mod 144 in
      if size =? 0 then pick_size fuel else mret size
  end.

(** ** [alloc_tester] *)

(** The object of the node at address [x]. *)
Definition read_obj (x : Z) : ST (block_list region) region :=
  s ← gets id;
  bi ← from_opt (node_at sizeof_node x s);
  blk ← deref (bi.1);
  o ← from_opt (nodes blk !! Z.to_nat (bi.2));
  o ← from_opt o;
  mret (obj o).

(** [alloc_tester()]. *)
Definition new_tester : alloc_tester := mk_tester (mk_bl 0 0 ∅ []) 0.

(** The loop of [verify_all]. *)
Fixpoint verify_loop (fuel : nat) (it : Z * Z) : ST env unit :=
  match fuel with
  | O => out_of_fuel
  | S fuel =>
      if it_end it then mret tt
      else
        r ← on_list (read_obj (it_get sizeof_node it));
        verify r;;
        it ← on_list (it_next it);
        verify_loop fuel it
  end.

Definition verify_all : ST env unit :=
  it ← on_list nbegin;
  verify_loop fuel it.

Definition next_counter : ST env Z :=
  l ← gets e_loc;
  let n := u32 (counter (tester l) + 1) in
  modify (λ e, set_loc (set_tester (mk_tester (allocs (tester (e_loc e))) n) (e_loc e)) e);;
  mret n.

Definition test_new (size : Z) : ST env Z :=
  r ← on_sys (_allocate cpu al fuel size);
  if negb (r =? 0) then
    id ← next_counter;
    v ← new_region al id size r;
    x ← on_list (_insert sizeof_node fresh v);
    _r ← on_list (read_obj x);
    verify _r;;
    mret 0
  else mret 1.

Definition test_delete : ST env unit :=
  x ← on_list (pop sizeof_node);
  require (negb (x =? 0));;
  r ← on_list (read_obj x);
  verify r;;
  on_sys (_free cpu (r_mem r)).

Definition batch_destroy_lo : Z := 3689348814741910323.

(** The inner and the outer loop of [_delete_batch]. *)
Fixpoint delete_nodes (fuel : nat) (it : Z * Z) : ST env unit :=
  match fuel with
  | O => out_of_fuel
  | S fuel =>
      if single_end it then mret tt
      else
        r ← on_list (read_obj (single_get sizeof_node it));
        verify r;;
        require (negb (r_mem r =? 0));;
        on_sys (_free cpu (r_mem r));;
        delete_nodes fuel (single_next it)
  end.

Fixpoint delete_blocks (fuel : nat) (block : Z) : ST env unit :=
  match fuel with
  | O => out_of_fuel
  | S fuel =>
      if block_end block then mret tt
      else
        it ← on_list (single_begin block);
        delete_nodes 65 it;;
        on_list (nb_drop block batch_destroy_lo);;
        block ← on_list (block_next block);
        delete_blocks fuel block
  end.

Definition _delete_batch : ST env unit :=
  block ← on_list bbegin;
  delete_blocks fuel block.

(** ** The functions of the threads

    The four functions differ in what follows a successful allocation.  A
    thread is before its first statement, at the barrier, at the head of its
    loop, about to free, about to allocate for the second time, or done. *)

Inductive test := AllocOnly | AllocFree | AllocFreeAlloc | AllocFreeHalf.
Inductive phase := PBegin | PBarrier | PLoop | PDelete | PAgain | PDone.

#[export] Instance phase_eq_dec : EqDecision phase.
Proof. solve_decision. Defined.

(** [++i]. *)
Definition next_round : ST env phase :=
  modify (λ e, set_loc (set_i (u32 (i_ (e_loc e) + 1)) (e_loc e)) e);; mret PLoop.

Definition count : ST env unit := modify (λ e, set_loc (count_call (e_loc e)) e).

(** The loop up to the first call of [_new]. *)
Definition loop_phase (k : test) : ST env phase :=
  size ← pick_size fuel;
  modify (λ e, set_loc (set_size size (e_loc e)) e);;
  r ← test_new size;
  l ← gets e_loc;
  if r =? 0 then
    count;;
    match k with
    | AllocOnly => next_round
    | AllocFree | AllocFreeAlloc => mret PDelete
    | AllocFreeHalf => if negb (i_ l mod 2 =? 0) then mret PDelete else next_round
    end
  else match k with AllocFreeAlloc => mret PAgain | _ => next_round end.

Definition delete_phase (k : test) : ST env phase :=
  test_delete;;
  match k with AllocFreeAlloc => mret PAgain | _ => next_round end.

Definition again_phase : ST env phase :=
  l ← gets e_loc;
  r ← test_new (size_ l);
  (if r =? 0 then count else mret tt);;
  next_round.

Definition done_phase : ST env phase := verify_all;; mret PDone.
End Tester.

(** ** The test *)

Record thread := mk_thread { th_phase : phase; th_loc : locals }.

Record world := mk_world {
  w_sys : sys; w_cells : Z → Z; w_rands : nat; threads : list thread;
  success_bytes : Z; success_calls : Z
}.

Definition set_success (b c : Z) (w : world) : world :=
  mk_world (w_sys w) (w_cells w) (w_rands w) (threads w) b c.

Definition env_of (th : thread) (w : world) : env :=
  mk_env (w_sys w) (w_cells w) (w_rands w) (th_loc th).

Definition put_env (t : nat) (p : phase) (e : env) (w : world) : world :=
  mk_world (e_sys e) (e_cells e) (e_rands e) (<[t := mk_thread p (e_loc e)]> (threads w))
    (success_bytes w) (success_calls w).

(** Thread [t] runs [m] and is in the phase it returns. *)
Definition run_thread (t : nat) (th : thread) (m : ST env phase) : ST world unit := λ w,
  match m (env_of th w) with
  | Done (p, e) => Done (tt, put_env t p e w)
  | Fault => Fault
  | OutOfFuel => OutOfFuel
  | Crashed => Crashed
  end.

Definition begins (th : thread) : bool := match th_phase th with PBegin => true | _ => false end.

(** The barrier lets a thread pass when every thread has come to it. *)
Definition enabled (w : world) (th : thread) : bool :=
  match th_phase th with
  | PDone => false
  | PBarrier => negb (existsb begins (threads w))
  | _ => true
  end.

(** One step of thread [t]; [test_size] is the global variable. *)
Definition thread_step (al : object_allocator) (rand : nat → Z) (test_size : Z) (k : test)
    (cpu : nat → Z) (fresh : Z) (fuel : nat) (t : nat) : ST world unit :=
  w ← gets id;
  th ← from_opt (threads w !! t);
  match th_phase th with
  | PBegin =>
      run_thread t th (
        r ← call_rand rand;
        modify (set_loc (mk_locals r new_tester 0 0 0 0));;
        mret PBarrier);;
      modify (set_success 0 0)
  | PBarrier => run_thread t th (mret PLoop)
  | PLoop =>
      if i_ (th_loc th) <? u32 test_size then
        run_thread t th (loop_phase al rand cpu fresh fuel k)
      else
        run_thread t th (done_phase fuel);;
        modify (λ w, set_success (u64 (success_bytes w + lbytes (th_loc th)))
          (u64 (success_calls w + lcalls (th_loc th))) w)
  | PDelete => run_thread t th (delete_phase cpu k)
  | PAgain => run_thread t th (again_phase al cpu fresh fuel)
  | PDone => mret tt
  end.

(** [spawn_n]: the threads of a test; their variables do not exist yet. *)
Definition new_thread : thread := mk_thread PBegin (mk_locals 0 new_tester 0 0 0 0).
