(* ===== verification/SlabTestCorrect.v ===== *)
(** * The allocator's test: correctness of its parts

    The random numbers, the block lists of the testers, and the regions: what
    the steps of a thread need of the allocator and of the list, and what they
    keep. *)

From S2P Require Import Prelude Bits ConstMath Machine SizeClasses Atomics ObjSlab SlabManager.
From S2P Require Import ObjectAllocator AllocatorInv AllocatorSteps AllocatorCorrect AllocatorSpec AllocatorTheorems.
From S2P Require Import BlockList BlockListCorrect BlockListTheorems SlabTest.

(** ** Random numbers *)

(** The generator is the multiplicative one of Park and Miller. *)
Definition park_miller (x : Z) : Z := 16807 * x mod RAND_MAX.

Lemma park_miller_range x : 0 < x < RAND_MAX → 0 < park_miller x < RAND_MAX.
Proof.
  unfold park_miller, RAND_MAX. intros Hx.
  pose proof (Z.mod_pos_bound (16807 * x) 2147483647 ltac:(lia)) as Hb.
  destruct (decide (16807 * x mod 2147483647 = 0)) as [H0|]; [|lia].
  apply Z.mod_divide in H0; [|lia].
  apply Z.gauss in H0; [|by vm_compute].
  apply Z.divide_pos_le in H0; lia.
Qed.

Lemma next_rand_spec x : 0 < x < RAND_MAX → next_rand x = park_miller x.
Proof.
  intros Hx. pose proof (park_miller_range x Hx) as Hpm. unfold park_miller, RAND_MAX in *.
  unfold next_rand.
  change 65535 with (Z.ones 16). change 32767 with (Z.ones 15).
  rewrite !Z.land_ones, !Z.shiftr_div_pow2, Z.shiftl_mul_pow2 by lia.
  set (l := x mod 2 ^ 16). set (h := x / 2 ^ 16).
  assert (x = 65536 * h + l ∧ 0 ≤ l < 65536 ∧ 0 ≤ h < 32768) as (Hs & Hl & Hh).
  { split_and!; subst l h.
    - apply Z.div_mod. lia.
    - apply Z.mod_pos_bound. lia.
    - apply Z.mod_pos_bound. lia.
    - apply Z.div_pos; lia.
    - apply Z.div_lt_upper_bound; lia. }
  clearbody l h. rewrite (wrap_small 32 (16807 * l)), (wrap_small 32 (16807 * h)) by (unfold is_word; lia).
  set (r := 16807 * h mod 2 ^ 15). set (q := 16807 * h / 2 ^ 15).
  assert (16807 * h = 32768 * q + r ∧ 0 ≤ r < 32768 ∧ 0 ≤ q < 16807) as (Hs' & Hr & Hq).
  { split_and!; subst r q.
    - apply Z.div_mod. lia.
    - apply Z.mod_pos_bound. lia.
    - apply Z.mod_pos_bound. lia.
    - apply Z.div_pos; lia.
    - apply Z.div_lt_upper_bound; lia. }
  clearbody r q. change (2 ^ 16) with 65536.
  rewrite (wrap_small 32 (r * 65536)), (wrap_small 32 (16807 * l + _)), (wrap_small 32 (16807 * l + _ + _))
    by (unfold is_word; lia).
  set (v := 16807 * l + r * 65536 + q).
  assert (16807 * x = 2147483647 * q + v) as Hv by lia. clearbody v.
  destruct (Z.ltb_spec 2147483647 v).
  - rewrite wrap_small by (unfold is_word; lia). apply Z.mod_unique with (q + 1); lia.
  - apply Z.mod_unique with q; [|lia]. left.
    split; [lia|]. destruct (decide (v = 2147483647)) as [->|]; [|lia].
    replace (16807 * x) with ((q + 1) * 2147483647) in Hpm by lia. rewrite Z.mod_mul in Hpm; lia.
Qed.

(** Does the generator return multiples of 144 only, [n] times from [x] on? *)
Fixpoint multiples (n : nat) (x : Z) : bool :=
  match n with
  | O => true
  | S n => (x mod 144 =? 0) && multiples n (park_miller x)
  end.

(** Two multiples in a row: the quotient is one as well. *)
Lemma multiple_step a b :
  0 < 144 * a < RAND_MAX → park_miller (144 * a) = 144 * b →
  ∃ j, 0 ≤ j < 117 ∧ 16807 * a = RAND_MAX * j + b.
Proof.
  unfold park_miller, RAND_MAX. intros Ha Hb.
  pose proof (Z.div_mod (16807 * (144 * a)) 2147483647 ltac:(lia)) as Hdm. rewrite Hb in Hdm.
  set (q := 16807 * (144 * a) / 2147483647) in *.
  assert (0 ≤ q < 16807) as Hq.
  { split; [apply Z.div_pos; lia|apply Z.div_lt_upper_bound; lia]. }
  clearbody q. assert ((144 | 2147483647 * q)) as Hdiv.
  { exists (16807 * a - b). lia. }
  apply Z.gauss in Hdiv as [j ->]; [|by vm_compute]. exists j. lia.
Qed.

(** The numbers [a] with [16807 ^ 2 * a = RAND_MAX * d + c] for a [c] of at most
    14913080, for [n] values of [d] in a row; [RAND_MAX * d] is
    [16807 ^ 2 * a + r] for the first.  No division is needed from one to the
    next. *)
Definition square : Z := 282475249.

Fixpoint scan (n : nat) (a r : Z) : bool :=
  match n with
  | O => true
  | S n =>
      (if r <? square - 14913080 then true else negb (multiples 5 (144 * (a + 1)))) &&
      let r := r + 170156904 in
      if r <? square then scan n (a + 7) r else scan n (a + 8) (r - square)
  end.

Lemma scan_spec n d a r k A c :
  RAND_MAX * d = square * a + r → 0 ≤ r < square → scan n a r = true →
  0 ≤ k < Z.of_nat n → square * A = RAND_MAX * (d + k) + c → 0 < c ≤ 14913080 →
  multiples 5 (144 * A) = false.
Proof.
  unfold RAND_MAX, square.
  revert d a r k. induction n as [|n IH]; intros d a r k Hd Hr Hs Hk HA Hc; [lia|].
  cbn [scan] in Hs. apply andb_true_iff in Hs as [H0 Hs]. unfold square in *.
  destruct (decide (k = 0)) as [->|Hne].
  - assert (A = a + 1) as -> by lia. revert H0. destruct (Z.ltb_spec r (282475249 - 14913080)); [lia|].
    by rewrite negb_true_iff.
  - revert Hs. destruct (Z.ltb_spec (r + 170156904) 282475249); intros Hs.
    + apply (IH (d + 1) (a + 7) (r + 170156904) (k - 1)); [lia..|done|lia|lia|done].
    + apply (IH (d + 1) (a + 8) (r + 170156904 - 282475249) (k - 1)); [lia..|done|lia|lia|done].
Qed.

Definition scan_from (n : nat) (j : Z) : bool :=
  let d := RAND_MAX * (16807 * j) in scan n (d / square) (d mod square).

Lemma scan_from_spec n j k a c :
  scan_from n j = true → 0 ≤ k < Z.of_nat n →
  square * a = RAND_MAX * (16807 * j + k) + c → 0 < c ≤ 14913080 →
  multiples 5 (144 * a) = false.
Proof.
  intros Hs Hk Ha Hc. refine (scan_spec _ (16807 * j) _ _ k a c _ _ Hs Hk Ha Hc).
  - apply Z.div_mod. unfold square. lia.
  - apply Z.mod_pos_bound. unfold square. lia.
Qed.

Lemma scans_end : forallb (scan_from 117) (seqZ 0 117) = true.
Proof. vm_compute. reflexivity. Qed.

(** Three multiples in a row are found by the scan. *)
Lemma multiples_found n x :
  0 < x < RAND_MAX → x mod 144 = 0 → park_miller x mod 144 = 0 →
  park_miller (park_miller x) mod 144 = 0 →
  (∀ j, 0 ≤ j < 117 → scan_from n j = true) → 117 ≤ Z.of_nat n → multiples 5 x = false.
Proof.
  intros Hx H0 H1 H2 Hs Hn.
  pose proof (park_miller_range x Hx) as Hx1. pose proof (park_miller_range _ Hx1) as Hx2.
  apply Z.mod_divide in H0 as [a Ha]; [|lia]. apply Z.mod_divide in H1 as [b Hb]; [|lia].
  apply Z.mod_divide in H2 as [c Hc]; [|lia].
  rewrite Z.mul_comm in Ha, Hb, Hc. rewrite Hb in Hc, Hx1, Hx2. rewrite Hc in Hx2. rewrite Ha in Hx, Hb.
  destruct (multiple_step a b Hx Hb) as (j & Hj & Ej). destruct (multiple_step b c Hx1 Hc) as (k & Hk & Ek).
  rewrite Ha. refine (scan_from_spec n j k a c (Hs j Hj) _ _ _); unfold square, RAND_MAX in *; lia.
Qed.

(** It does not do so five times. *)
Lemma multiples_end x : 0 < x < RAND_MAX → multiples 5 x = false.
Proof.
  intros Hx. destruct (multiples 5 x) eqn:Hm; [|done]. rewrite <-Hm.
  cbn [multiples] in Hm. rewrite !andb_true_iff, !Z.eqb_eq in Hm. destruct Hm as (H0 & H1 & H2 & _).
  apply (multiples_found 117); [done..| |lia].
  intros j Hj. refine (range_forallb (scan_from 117) 0 117 scans_end j _). lia.
Qed.

(** ** Picking a size *)

(** What the random numbers change. *)
Definition reseeded (e e' : env) : Prop :=
  ∃ x n, e' = set_rands n (set_loc (set_cur x (e_loc e)) e).

Definition seeded (e : env) : Prop := 0 ≤ cur (e_loc e) ≤ RAND_MAX.

(** A seed the generator moves through its cycle; 0 is replaced by [rand], and
    [RAND_MAX] stays. *)
Definition cycling (e : env) : Prop := 0 < cur (e_loc e) < RAND_MAX.

Lemma reseeded_trans e1 e2 e3 : reseeded e1 e2 → reseeded e2 e3 → reseeded e1 e3.
Proof. intros (x & n & ->) (y & m & ->). by exists y, m. Qed.

Section Rand.
Context (rand : nat → Z).

(** The results of [rand]. *)
Definition rand_range : Prop := ∀ n, 0 ≤ rand n ≤ RAND_MAX.

(** From the call number [n] on, at most [z] results are 0 before one is not. *)
Definition nonzero_by (z n : nat) : Prop := ∃ m, (n ≤ m ≤ n + z)%nat ∧ rand m ≠ 0.

Lemma next_rand_nonneg x : 0 ≤ next_rand x.
Proof using Type. unfold next_rand. destruct (_ <? _); apply wrap_word; lia. Qed.

Lemma next_rand_0 : next_rand 0 = 0.
Proof using Type. done. Qed.

Lemma next_rand_max : next_rand RAND_MAX = RAND_MAX.
Proof using Type. done. Qed.

Lemma wp_simple_rand_cycling total e :
  cycling e → wp total (simple_rand rand)
    (λ r e', r = park_miller (cur (e_loc e)) ∧ cur (e_loc e') = r ∧ cycling e' ∧ reseeded e e') e.
Proof.
  intros Hs. pose proof (park_miller_range _ Hs) as Hr. unfold simple_rand. do 4 wp_step.
  rewrite (next_rand_spec _ Hs). rewrite (proj2 (Z.eqb_neq _ 0)) by lia.
  wp_step. split_and!; [done..|by exists (park_miller (cur (e_loc e))), (e_rands e)].
Qed.

(** From the seed 0, the result of [rand]. *)
Lemma wp_simple_rand_zero total e :
  rand_range → cur (e_loc e) = 0 → wp total (simple_rand rand)
    (λ r e', r = rand (e_rands e) ∧ cur (e_loc e') = r ∧ e_rands e' = S (e_rands e) ∧ reseeded e e') e.
Proof.
  intros Hr H0. unfold simple_rand. do 4 wp_step. rewrite H0, next_rand_0. cbn [Z.eqb].
  specialize (Hr (e_rands e)). unfold call_rand. repeat wp_step.
  simpl. rewrite wrap_small by (unfold is_word, RAND_MAX in *; lia).
  split_and!; [done..|by eexists _, _].
Qed.

(** [RAND_MAX] stays. *)
Lemma wp_simple_rand_max total e :
  cur (e_loc e) = RAND_MAX → wp total (simple_rand rand)
    (λ r e', r = RAND_MAX ∧ cur (e_loc e') = RAND_MAX ∧ reseeded e e') e.
Proof.
  intros H0. unfold simple_rand. do 4 wp_step. rewrite H0, next_rand_max. cbn [Z.eqb RAND_MAX].
  wp_step. split_and!; [done..|by eexists _, _].
Qed.

Lemma seeded_cases e : seeded e → cur (e_loc e) = 0 ∨ cur (e_loc e) = RAND_MAX ∨ cycling e.
Proof using Type. unfold seeded, cycling. lia. Qed.

Lemma wp_simple_rand total e :
  wp total (simple_rand rand) (λ r e', 0 ≤ r ∧ reseeded e e' ∧ (rand_range → seeded e → seeded e')) e.
Proof.
  unfold simple_rand. do 4 wp_step. destruct (next_rand (cur (e_loc e)) =? 0) eqn:E0.
  - unfold call_rand. repeat wp_step. split_and!; [apply wrap_word; lia|by eexists _, _|].
    intros Hr _. specialize (Hr (e_rands e)). unfold seeded. simpl.
    rewrite wrap_small; unfold is_word, RAND_MAX in *; lia.
  - wp_step. split_and!; [apply next_rand_nonneg|by exists (next_rand (cur (e_loc e))), (e_rands e)|].
    intros _ [H0|[H0|Hc]]%seeded_cases; unfold seeded; simpl.
    + rewrite H0. done.
    + rewrite H0. by vm_compute.
    + rewrite (next_rand_spec _ Hc). pose proof (park_miller_range _ Hc). lia.
Qed.

Lemma wp_pick_size_any fuel e :
  wp false (pick_size rand fuel)
    (λ n e', 0 < n < 144 ∧ reseeded e e' ∧ (rand_range → seeded e → seeded e')) e.
Proof.
  revert e. induction fuel as [|fuel IH]; intros e; [done|]. cbn [pick_size]. wp_step.
  eapply wp_mono; [apply wp_simple_rand|]. intros r e1 (Hr & He1 & Hs1).
  pose proof (Z.mod_pos_bound r 144 ltac:(lia)). destruct (Z.eqb_spec (r mod 144) 0).
  - eapply wp_mono; [apply IH|]. intros n e2 (Hn & He2 & Hs2).
    split_and!; [lia..|by eapply reseeded_trans|by auto].
  - wp_step. split_and!; [lia..|done|done].
Qed.

Lemma wp_pick_size_cycling m fuel e :
  cycling e → multiples m (park_miller (cur (e_loc e))) = false → (m ≤ fuel)%nat →
  wp true (pick_size rand fuel) (λ n e', 0 < n < 144 ∧ seeded e' ∧ reseeded e e') e.
Proof.
  revert m e. induction fuel as [|fuel IH]; intros m e Hs Hm Hf; (destruct m as [|m]; [done|]); [lia|].
  cbn [pick_size multiples] in *. wp_step.
  eapply wp_mono; [by apply wp_simple_rand_cycling|]. intros r e1 (-> & Hc & Hs1 & He1).
  pose proof (Z.mod_pos_bound (park_miller (cur (e_loc e))) 144 ltac:(lia)).
  destruct (Z.eqb_spec (park_miller (cur (e_loc e)) mod 144) 0) as [H0|H0].
  - eapply wp_mono; [apply (IH m)|].
    + done.
    + by rewrite Hc.
    + lia.
    + intros n e2 (Hn & Hs2 & He2). split_and!; [lia..|done|]. by eapply reseeded_trans.
  - wp_step. unfold seeded, cycling in *. split_and!; [lia..|done].
Qed.

(** From a seed that is not 0, five numbers are enough. *)
Lemma wp_pick_size_nonzero fuel e :
  seeded e → cur (e_loc e) ≠ 0 → (5 ≤ fuel)%nat →
  wp true (pick_size rand fuel) (λ n e', 0 < n < 144 ∧ seeded e' ∧ reseeded e e') e.
Proof.
  intros Hs H0 Hf. destruct (seeded_cases e Hs) as [Hc|[Hc|Hc]]; [done| |].
  - destruct fuel as [|fuel]; [lia|]. cbn [pick_size]. wp_step.
    eapply wp_mono; [by apply wp_simple_rand_max|]. intros r e1 (-> & Hc1 & He1).
    change (RAND_MAX mod 144 =? 0) with false. cbv iota. wp_step. change (RAND_MAX mod 144) with 127.
    unfold seeded. rewrite Hc1. split_and!; [done..|by unfold RAND_MAX|done].
  - apply (wp_pick_size_cycling 5); [done| |done]. apply multiples_end. by apply park_miller_range.
Qed.

(** From the seed 0, five more than there are zeros. *)
Lemma wp_pick_size_zero z fuel e :
  rand_range → cur (e_loc e) = 0 → nonzero_by z (e_rands e) → (z + 6 ≤ fuel)%nat →
  wp true (pick_size rand fuel) (λ n e', 0 < n < 144 ∧ seeded e' ∧ reseeded e e') e.
Proof.
  intros Hrange. revert fuel e. induction z as [|z IH]; intros fuel e H0 (m & Hm & Hmz) Hf;
    (destruct fuel as [|fuel]; [lia|]); cbn [pick_size]; wp_step;
    (eapply wp_mono; [by apply wp_simple_rand_zero|]); intros r e1 (-> & Hc & Hn & He1);
    pose proof (Z.mod_pos_bound (rand (e_rands e)) 144 ltac:(lia));
    pose proof (Hrange (e_rands e)) as Hr;
    (destruct (Z.eqb_spec (rand (e_rands e) mod 144) 0) as [E|E];
      [|wp_step; unfold seeded; rewrite Hc; split_and!; [lia..|done]]);
    (destruct (decide (rand (e_rands e) = 0)) as [Ez|Ez];
      [|eapply wp_mono; [apply wp_pick_size_nonzero; [unfold seeded; by rewrite Hc|by rewrite Hc|lia]|];
        intros n e2 (Hn2 & Hs2 & He2); split_and!; [lia..|done|by eapply reseeded_trans]]).
  - by replace m with (e_rands e) in Hmz by lia.
  - eapply wp_mono; [apply (IH fuel e1)|].
    + by rewrite Hc.
    + exists m. rewrite Hn. split; [|done]. destruct (decide (m = e_rands e)) as [->|]; [done|lia].
    + lia.
    + intros n e2 (Hn2 & Hs2 & He2). split_and!; [lia..|done|by eapply reseeded_trans].
Qed.

Lemma wp_pick_size total z fuel e :
  (total = true → rand_range ∧ seeded e ∧ nonzero_by z (e_rands e) ∧ (z + 6 ≤ fuel)%nat) →
  wp total (pick_size rand fuel)
    (λ n e', 0 < n < 144 ∧ reseeded e e' ∧ (rand_range → seeded e → seeded e')) e.
Proof.
  intros Ht. destruct total; [|apply wp_pick_size_any].
  destruct (Ht eq_refl) as (Hr & Hs & Hz & Hf).
  assert (wp true (pick_size rand fuel) (λ n e', 0 < n < 144 ∧ seeded e' ∧ reseeded e e') e) as Hw.
  { destruct (decide (cur (e_loc e) = 0)); [by eapply wp_pick_size_zero|].
    apply wp_pick_size_nonzero; [done|done|lia]. }
  eapply wp_mono; [exact Hw|]. tauto.
Qed.
End Rand.

(** ** The list of a tester *)

(** What the functions of a test need of the block list: the states at the
    head of the loop and after an insertion, with the regions they hold by the
    address of their node. *)
Class TestList (k : test) := {
  at_loop : block_list region → gmap Z region → Prop;
  after_new : block_list region → gmap Z region → Prop;
  tl_start : at_loop (mk_bl 0 0 ∅ []) ∅;
  tl_insert b M fresh v :
    at_loop b M → fresh_ok sizeof_node fresh b →
    ∃ x b', _insert sizeof_node fresh v b = Done (x, b') ∧ M !! x = None ∧
      read_obj x b' = Done (v, b') ∧ after_new b' (<[x := v]> M);
  tl_pop b M :
    k = AllocFree → after_new b M →
    ∃ x v b', pop sizeof_node b = Done (x, b') ∧ x ≠ 0 ∧ M !! x = Some v ∧
      read_obj x b' = Done (v, b') ∧ at_loop b' (delete x M);
  tl_keep b M : k = AllocOnly → after_new b M → at_loop b M;
  tl_visit b M fuel :
    at_loop b M → (size M < fuel)%nat →
    ∃ L, visit_all sizeof_node fuel b = Done (L, b) ∧
      Forall (λ x, ∃ v, M !! x = Some v ∧ read_obj x b = Done (v, b)) L
}.

(** *** [alloc_only]: no block of the list is empty *)

Definition nonempty (s : block_list region) : Prop :=
  map_Forall (λ _ blk, is_word 64 (node_slots blk) ∧ node_slots blk ≠ FULL_MASK) (blocks s).

(** Programs that keep a property of the state when they return. *)
Definition keeps {S A} (P : S → Prop) (m : ST S A) : Prop :=
  ∀ s a s', P s → m s = Done (a, s') → P s'.

Section Keeps.
Context {S : Type} (P : S → Prop).

Lemma keeps_ret {A} (a : A) : keeps P (mret a).
Proof. by intros s a' s' Hs [= <- <-]. Qed.

Lemma keeps_bind {A B} (m : ST S A) (f : A → ST S B) :
  keeps P m → (∀ a, keeps P (f a)) → keeps P (m ≫= f).
Proof.
  intros Hm Hf s b s' Hs. unfold mbind, ST_bind. destruct (m s) as [[a s1]| | |] eqn:E; [|done..].
  apply Hf. by eapply Hm.
Qed.

Lemma keeps_bind_res {A B} (R : A → Prop) (m : ST S A) (f : A → ST S B) :
  (∀ s a s', P s → m s = Done (a, s') → P s' ∧ R a) → (∀ a, R a → keeps P (f a)) → keeps P (m ≫= f).
Proof.
  intros Hm Hf s b s' Hs. unfold mbind, ST_bind. destruct (m s) as [[a s1]| | |] eqn:E; [|done..].
  destruct (Hm s a s1 Hs E). by apply Hf.
Qed.

Lemma keeps_gets {A} (f : S → A) : keeps P (gets f).
Proof. by intros s a' s' Hs [= <- <-]. Qed.

Lemma keeps_modify f : (∀ s, P s → P (f s)) → keeps P (modify f).
Proof. intros Hf s a' s' Hs [= <- <-]. by apply Hf. Qed.

Lemma keeps_require b : keeps P (require b).
Proof. intros s a' s' Hs. unfold require. destruct b; [|done]. by intros [= <- <-]. Qed.

Lemma keeps_from_opt {A} (o : option A) : keeps P (from_opt o).
Proof. intros s a' s' Hs. unfold from_opt. destruct o; [|done]. by intros [= <- <-]. Qed.
End Keeps.

Lemma keeps_deref b : keeps nonempty (deref b).
Proof. apply keeps_bind; [apply keeps_gets|intros; apply keeps_from_opt]. Qed.

Lemma keeps_update b f :
  (∀ blk : node_block region, is_word 64 (node_slots blk) → node_slots blk ≠ FULL_MASK →
    is_word 64 (node_slots (f blk)) ∧ node_slots (f blk) ≠ FULL_MASK) →
  keeps nonempty (update b f).
Proof.
  intros Hf. apply keeps_bind; [apply keeps_deref|]. intros _. apply keeps_modify. intros s Hs a blk.
  simpl. rewrite lookup_alter_Some. intros [(-> & blk' & Hb & ->)|[_ Hb]]; [|by apply (Hs a)].
  destruct (Hs a _ Hb). by apply Hf.
Qed.

Create HintDb keeps discriminated.
#[local] Hint Resolve keeps_ret keeps_gets keeps_require keeps_deref : keeps.

Ltac keeps_step :=
  lazymatch goal with
  | |- keeps _ (mbind _ _) => apply keeps_bind; [|intros ?]
  | |- keeps _ (if ?b then _ else _) => destruct b
  | |- keeps _ (update _ _) => apply keeps_update; done
  | |- keeps _ (modify _) => apply keeps_modify; done
  | |- _ => by eauto with keeps
  end.

Lemma blsr_no_full sl : is_word 64 sl → blsr sl ≠ FULL_MASK.
Proof.
  intros Hw. destruct (decide (sl = 0)) as [->|H0]; [done|]. by apply blsr_not_full.
Qed.

Lemma keeps_nb_insert b v : keeps nonempty (nb_insert sizeof_node b v).
Proof.
  apply (keeps_bind_res _ (λ blk, is_word 64 (node_slots blk))).
  - intros s blk s' Hs. unfold deref, mbind, ST_bind, gets, from_opt. simpl.
    destruct (blocks s !! b) as [blk'|] eqn:Hb; [|done]. intros [= <- <-]. split; [done|].
    by destruct (Hs b _ Hb).
  - intros blk Hw. cbv zeta. repeat keeps_step.
    apply keeps_update. intros blk0 _ _. simpl.
    split; [apply word_land; [lia|done|apply wrap_word; lia]|by apply blsr_no_full].
Qed.

Lemma keeps_calloc fresh : keeps nonempty (calloc_block fresh).
Proof. apply keeps_modify. intros s Hs. by apply map_Forall_insert_2. Qed.

#[local] Hint Resolve keeps_nb_insert keeps_calloc : keeps.

Lemma keeps_insert fresh v : keeps nonempty (_insert sizeof_node fresh v).
Proof.
  unfold _insert, nb_init, construct_first, link_block, link_available. cbv zeta. repeat keeps_step.
Qed.

Lemma read_obj_elem s li la x v :
  inv sizeof_node (iter_links (blocks s)) (avail_links (blocks s)) (data (blocks s)) (iter_list s)
    (available_list s) li la →
  elem sizeof_node (data (blocks s)) x v → read_obj x s = Done (v, s).
Proof.
  intros Hinv (b & sl & ns & i & Hb & Hi & _ & Hn & ->).
  unfold read_obj, deref, mbind, ST_bind, gets, from_opt, id. cbv beta iota.
  rewrite (node_at_elem sizeof_node ltac:(done) s li la b i Hinv) by (done || by eexists). cbn [fst snd].
  apply data_lookup in Hb as (blk & Hb & _ & <-). rewrite Hb. cbv iota beta. by rewrite Hn.
Qed.

Lemma alloc_only_insert b M fresh v :
  represents sizeof_node b M ∧ nonempty b → fresh_ok sizeof_node fresh b →
  ∃ x b', _insert sizeof_node fresh v b = Done (x, b') ∧ M !! x = None ∧
    read_obj x b' = Done (v, b') ∧ represents sizeof_node b' (<[x := v]> M) ∧ nonempty b'.
Proof.
  intros [Hrep Hne] Hfresh. pose proof Hrep as [HM (li & la & Hinv)].
  assert (orphaned b = false) as Ho.
  { unfold orphaned. destruct (blocks b !! available_list b) as [blk|] eqn:Hb.
    - destruct (Hne _ _ Hb) as [_ Hf]. by rewrite (proj2 (Z.eqb_neq _ _) Hf), andb_false_r.
    - apply andb_false_r. }
  destruct (wp_total_done _ _ _ (wp_insert sizeof_node ltac:(done) ltac:(done) true b fresh v li la Hinv Hfresh Ho))
    as (x & b' & Hrun & Hins).
  pose proof (represents_insert sizeof_node b M x v b' Hrep Hins) as Hrep'.
  destruct Hins as (Hnew & _ & Hel & (li' & la' & Hinv')).
  exists x, b'. split_and!; [done| | |done|by eapply keeps_insert].
  - destruct (M !! x) as [w|] eqn:E; [|done]. apply HM in E. by destruct (Hnew w).
  - apply (read_obj_elem b' li' la'); [done|]. apply Hel. by left.
Qed.

Lemma alloc_only_visit b M fuel :
  represents sizeof_node b M → (size M < fuel)%nat →
  ∃ L, visit_all sizeof_node fuel b = Done (L, b) ∧
    Forall (λ x, ∃ v, M !! x = Some v ∧ read_obj x b = Done (v, b)) L.
Proof.
  intros [HM (li & la & Hinv)] Hf.
  pose proof (visited_permutation sizeof_node ltac:(done) b M li la HM Hinv) as Hp.
  destruct (wp_total_done _ _ _ (wp_visit_all sizeof_node b li fuel (inv_iter Hinv)
    (inv_occupied sizeof_node b li la Hinv) ltac:(rewrite Hp, length_fmap, length_map_to_list; lia)))
    as (L & b' & Hrun & -> & ->).
  eexists. split; [done|]. apply Forall_forall. intros x Hx. rewrite Hp in Hx.
  apply list_elem_of_fmap in Hx as ([x' v] & -> & Hx%elem_of_map_to_list). exists v. split; [done|].
  apply (read_obj_elem b li la); [done|]. by apply HM.
Qed.

Lemma alloc_only_start : represents sizeof_node (mk_bl 0 0 ∅ [] : block_list region) ∅ ∧ nonempty (mk_bl 0 0 ∅ []).
Proof.
  split; [|apply map_Forall_empty].
  apply (history_represents sizeof_node true ltac:(done) ltac:(done)). by apply hist_new with (mk_bl 0 0 ∅ []).
Qed.

Lemma only_not_free (P : Prop) : AllocOnly = AllocFree → P.
Proof. discriminate. Qed.

#[export] Instance alloc_only_list : TestList AllocOnly := {|
  at_loop b M := represents sizeof_node b M ∧ nonempty b;
  after_new b M := represents sizeof_node b M ∧ nonempty b;
  tl_start := alloc_only_start;
  tl_insert := alloc_only_insert;
  tl_pop b M H := only_not_free _ H;
  tl_keep b M _ H := H;
  tl_visit b M fuel H := alloc_only_visit b M fuel (proj1 H)
|}.

(** *** [alloc_free]: at most one region, in the only block *)

(** The list with one region, and with none after that. *)
Definition one_block (a : Z) (v : region) (l : list (option (node region))) : block_list region :=
  mk_bl a a (<[a := mk_nb (wnot 64 1) 0 0 0 0 (Some (mk_node v 0) :: l)]> ∅) [].
Definition idle_block (a : Z) (l : list (option (node region))) : block_list region :=
  mk_bl 0 a (<[a := mk_nb (wnot 64 0) 0 0 0 0 l]> ∅) [].

(** Run the program on a list of one block. *)
Ltac run_block :=
  unfold update, deref, gets, modify, from_opt, require, free_block, mbind, ST_bind, mret, ST_ret, id;
  simpl; repeat (first [rewrite lookup_insert_eq|rewrite alter_insert_eq]; simpl).

Lemma insert_first fresh v :
  _insert sizeof_node fresh v (mk_bl 0 0 ∅ []) =
    Done (node_addr sizeof_node fresh 0, one_block fresh v (replicate 63 None)).
Proof.
  unfold _insert, calloc_block, nb_init, construct_first, link_block, link_available. by run_block.
Qed.

Lemma insert_again fresh a w l v :
  a ≠ 0 →
  _insert sizeof_node fresh v (idle_block a (w :: l)) =
    Done (node_addr sizeof_node a 0, one_block a v l).
Proof.
  intros Ha. unfold _insert, idle_block, construct_first, nb_init. run_block.
  rewrite (proj2 (Z.eqb_neq a 0) Ha). by run_block.
Qed.

Lemma pop_one a v l :
  a ≠ 0 →
  pop sizeof_node (one_block a v l) = Done (node_addr sizeof_node a 0, idle_block a (Some (mk_node v 0) :: l)).
Proof.
  intros Ha. unfold pop, one_block, retire, unlink_block. by run_block.
Qed.

Lemma read_block a sl n p o l :
  let b := mk_bl n p (<[a := mk_nb sl 0 0 0 0 (Some o :: l)]> ∅) [] in
  read_obj (node_addr sizeof_node a 0) b = Done (obj o, b).
Proof.
  intros b. assert (node_at sizeof_node (node_addr sizeof_node a 0) b = Some (a, 0)) as Hat.
  { unfold node_at, b. cbn [blocks]. rewrite insert_empty, map_to_list_singleton. simpl.
    by rewrite decide_True. }
  unfold read_obj. run_block. rewrite Hat. unfold b. by run_block.
Qed.

Definition alloc_free_loop (b : block_list region) (M : gmap Z region) : Prop :=
  M = ∅ ∧ (b = mk_bl 0 0 ∅ [] ∨ ∃ a w l, 0 < a ∧ b = idle_block a (w :: l)).

Definition alloc_free_new (b : block_list region) (M : gmap Z region) : Prop :=
  ∃ a v l, 0 < a ∧ b = one_block a v l ∧ M = {[node_addr sizeof_node a 0 := v]}.

Lemma alloc_free_insert b M fresh v :
  alloc_free_loop b M → fresh_ok sizeof_node fresh b →
  ∃ x b', _insert sizeof_node fresh v b = Done (x, b') ∧ M !! x = None ∧
    read_obj x b' = Done (v, b') ∧ alloc_free_new b' (<[x := v]> M).
Proof.
  intros [-> Hb] (Hf & _).
  assert (∃ a l, 0 < a ∧ _insert sizeof_node fresh v b = Done (node_addr sizeof_node a 0, one_block a v l))
    as (a & l & Ha & Hrun).
  { destruct Hb as [->|(a & w & l & Ha & ->)].
    - eexists _, _. split; [exact Hf|apply insert_first].
    - eexists _, _. split; [exact Ha|apply insert_again; lia]. }
  eexists _, _. split; [exact Hrun|]. split; [apply lookup_empty|]. split; [apply read_block|].
  exists a, v, l. by rewrite insert_empty.
Qed.

Lemma alloc_free_pop b M :
  AllocFree = AllocFree → alloc_free_new b M →
  ∃ x v b', pop sizeof_node b = Done (x, b') ∧ x ≠ 0 ∧ M !! x = Some v ∧
    read_obj x b' = Done (v, b') ∧ alloc_free_loop b' (delete x M).
Proof.
  intros _ (a & v & l & Ha & -> & ->). eexists _, v, _. split; [apply pop_one; lia|].
  split; [unfold node_addr, sizeof_node; lia|]. split; [by rewrite lookup_singleton_eq|].
  split; [apply read_block|]. split; [by rewrite delete_singleton_eq|]. right. by eexists _, _, _.
Qed.

Lemma alloc_free_visit b M fuel :
  alloc_free_loop b M → (size M < fuel)%nat →
  ∃ L, visit_all sizeof_node fuel b = Done (L, b) ∧
    Forall (λ x, ∃ v, M !! x = Some v ∧ read_obj x b = Done (v, b)) L.
Proof.
  intros [-> Hb] Hf. exists []. split; [|done]. destruct fuel as [|fuel]; [lia|].
  by destruct Hb as [->|(a & w & l & _ & ->)].
Qed.

Lemma free_not_only (P : Prop) : AllocFree = AllocOnly → P.
Proof. discriminate. Qed.

#[export] Instance alloc_free_list : TestList AllocFree := {|
  at_loop := alloc_free_loop;
  after_new := alloc_free_new;
  tl_start := conj eq_refl (or_introl eq_refl);
  tl_insert := alloc_free_insert;
  tl_pop := alloc_free_pop;
  tl_keep b M H := free_not_only _ H;
  tl_visit := alloc_free_visit
|}.
