(* ===== verification/SlabTestTheorems.v ===== *)
(** * The allocator's test: theorems

    The allocator, the block list and the memory together: no check of the
    tests [alloc_only] and [alloc_free] fails, in any interleaving of the calls
    of any number of threads, and the tests end. *)

From S2P Require Import Prelude Bits ConstMath Machine SizeClasses Atomics ObjSlab SlabManager.
From S2P Require Import ObjectAllocator AllocatorInv AllocatorSteps AllocatorCorrect AllocatorSpec AllocatorTheorems.
From S2P Require Import BlockList BlockListCorrect BlockListTheorems SlabTest SlabTestCorrect.

(** ** The allocator *)

Section Allocator.
Context (al : object_allocator).

(** The allocator is in a state in which clients hold [held]. *)
Definition alloc_ok (s : sys) (held : gmap Z Z) : Prop :=
  ∃ st g, wf_region al st ∧ WF al st None g s ∧ holds g s held.

Lemma alloc_ok_nonzero s held x n : alloc_ok s held → held !! x = Some n → x ≠ 0.
Proof.
  intros (st & g & Hal & Hwf & Hh) Hx. destruct (holds_live g s held x n Hh Hx) as (_ & b & Hb & _).
  destruct (live_range al st g s x b Hal Hwf Hb). pose proof (region_low al st Hal). lia.
Qed.

Lemma alloc_ok_free total cpu s held x :
  (∀ n, 0 ≤ cpu n < NPROCS) → alloc_ok s held → is_Some (held !! x) →
  wp total (_free cpu x) (λ _ s', alloc_ok s' (delete x held)) s.
Proof.
  intros Hcpu (st & g & Hal & Hwf & Hh) [n Hx].
  destruct (holds_live g s held x n Hh Hx) as (_ & b & Hb & _).
  eapply wp_mono; [by apply (wp_free cpu Hcpu al st Hal total g s x b)|].
  intros [] s' (g' & Hwf' & Hback). exists st, g'. split_and!; [done..|].
  by apply holds_takes_back with g s.
Qed.

(** What a client gets. *)
Definition gets_block (held : gmap Z Z) (sz ptr : Z) (s' : sys) : Prop :=
  ptr ≠ 0 ∧ held !! ptr = None ∧ in_range al ptr = true ∧
  (∀ y n, held !! y = Some n → disjoint_blocks ptr sz y n) ∧ alloc_ok s' (<[ptr := sz]> held).

Lemma alloc_ok_allocate total cpu fuel s held sz :
  (∀ n, 0 ≤ cpu n < NPROCS) → alloc_ok s held → served sz →
  (total = true → (∃ c, ∀ n, cpu n = c) ∧ (2 * size (slabs s) + 1 < fuel)%nat) →
  wp total (_allocate cpu al fuel sz)
    (λ ptr s', ptr = 0 ∧ alloc_ok s' held ∨ gets_block held sz ptr s') s.
Proof.
  intros Hcpu (st & g & Hal & Hwf & Hh) Hsz Ht.
  eapply wp_mono; [by apply (wp_allocate cpu Hcpu al st Hal total fuel g s sz)|].
  intros ptr s' (g' & Hwf' & [(-> & _ & Hsame)|Hout]).
  - left. split; [done|]. exists st, g'. split_and!; [done..|]. by apply holds_same with g s.
  - right. destruct (hands_out_block al st g s held sz ptr g' s' Hal Hwf' Hh Hsz Hout)
      as (_ & H0 & _ & _ & _ & Hnone & Hdis).
    destruct (holds_hands_out g s held sz ptr g' s' Hh Hsz Hout) as [_ Hh'].
    destruct (holds_live g' s' _ ptr sz Hh') as (_ & b & Hb & _); [by rewrite lookup_insert_eq|].
    destruct (live_valid al st g' s' ptr b Hal Hwf' Hb) as (_ & Hr & _).
    split_and!; [done..|]. by exists st, g'.
Qed.
End Allocator.

(** ** Regions *)

(** The region lies in a block that is held, and its words are as written. *)
Definition region_ok (held : gmap Z Z) (cells : Z → Z) (r : region) : Prop :=
  ∃ sz, held !! r_mem r = Some sz ∧ 0 < sz ∧ r_size r = sz / 4 ∧
    ∀ j, 0 ≤ j < r_size r → cells (r_mem r + 4 * j) = r_id r.

(** The regions of all threads, by their address, each with its thread and the
    address of its node. *)
Abbreviation owners := (gmap Z (nat * Z * region)).

Definition cells_ok (held : gmap Z Z) (cells : Z → Z) (own : owners) : Prop :=
  map_Forall (λ a '(_, _, r), a = r_mem r ∧ region_ok held cells r) own.

Definition owns (t : nat) (M : gmap Z region) (own : owners) : Prop :=
  ∀ x r, M !! x = Some r → own !! r_mem r = Some (t, x, r).

Definition others_kept (t : nat) (own own' : owners) : Prop :=
  ∀ a t' x r, t' ≠ t → own !! a = Some (t', x, r) → own' !! a = Some (t', x, r).

Lemma owns_other t t' M own own' : t' ≠ t → others_kept t own own' → owns t' M own → owns t' M own'.
Proof. intros Hne Hk Ho x r Hx. by apply Hk, Ho. Qed.

Lemma wp_fill total n i mem id e :
  wp total (fill n i mem id) (λ _ e', ∃ c, e' = set_cells c e ∧
    (∀ j, i ≤ j < i + Z.of_nat n → c (mem + 4 * j) = id) ∧
    ∀ a, a < mem + 4 * i ∨ mem + 4 * (i + Z.of_nat n) ≤ a → c a = e_cells e a) e.
Proof.
  revert i e. induction n as [|n IH]; intros i e; cbn [fill].
  - wp_step. exists (e_cells e). split; [by destruct e|]. split; [lia|done].
  - do 2 wp_step. eapply wp_mono; [apply IH|]. intros _ e' (c & -> & Hin & Hout). exists c.
    split; [done|]. split.
    + intros j Hj. destruct (decide (j = i)) as [->|Hne]; [|apply Hin; lia].
      rewrite Hout by lia. simpl. unfold write_cell. by rewrite Z.eqb_refl.
    + intros a Ha. rewrite Hout by lia. simpl. unfold write_cell. by rewrite (proj2 (Z.eqb_neq a _)) by lia.
Qed.

Lemma wp_verify_from total n i r e (Q : unit → env → Prop) :
  (∀ j, i ≤ j < i + Z.of_nat n → e_cells e (r_mem r + 4 * j) = r_id r) → Q tt e →
  wp total (verify_from n i r) Q e.
Proof.
  revert i. induction n as [|n IH]; intros i Hc HQ; cbn [verify_from]; [by wp_step|].
  do 3 wp_step. wp_step; [apply Z.eqb_eq, Hc; lia|]. apply IH; [|done]. intros j Hj. apply Hc. lia.
Qed.

Lemma wp_verify total held r e (Q : unit → env → Prop) :
  r_mem r ≠ 0 → region_ok held (e_cells e) r → Q tt e → wp total (verify r) Q e.
Proof.
  intros H0 (sz & _ & Hsz & Hs & Hc) HQ. unfold verify. wp_step. wp_step.
  - by rewrite (proj2 (Z.eqb_neq _ 0) H0).
  - assert (0 ≤ r_size r) by (rewrite Hs; apply Z.div_pos; lia).
    apply wp_verify_from; [|done]. intros j Hj. apply Hc. lia.
Qed.

(** A region made of a new block. *)
Lemma cells_ok_new held cells cells' own sz ptr t x r :
  cells_ok held cells own → 0 < sz → (∀ y n, held !! y = Some n → disjoint_blocks ptr sz y n) →
  held !! ptr = None →
  r_mem r = ptr → r_size r = sz / 4 → (∀ j, 0 ≤ j < sz / 4 → cells' (ptr + 4 * j) = r_id r) →
  (∀ a, a < ptr ∨ ptr + 4 * (sz / 4) ≤ a → cells' a = cells a) →
  cells_ok (<[ptr := sz]> held) cells' (<[ptr := (t, x, r)]> own) ∧ own !! ptr = None.
Proof.
  intros Hown Hsz Hdis Hnone Hm Hs Hin Hout. split.
  - apply map_Forall_insert_2.
    + split; [done|]. exists sz. rewrite Hm, lookup_insert_eq, Hs. done.
    + intros a [[t' x'] r'] Ha. destruct (Hown a _ Ha) as [Hr (n & Hh & Hn & Hs' & Hc)]. split; [done|].
      exists n. rewrite lookup_insert_ne by congruence. split_and!; [done..|].
      intros j Hj. rewrite Hout; [by apply Hc|].
      pose proof (Z.mul_div_le sz 4 ltac:(lia)). pose proof (Z.mul_div_le n 4 ltac:(lia)).
      destruct (Hdis _ _ Hh); lia.
  - destruct (own !! ptr) as [[[t' x'] r']|] eqn:E; [|done].
    destruct (Hown _ _ E) as [Hr (n & Hh & _)]. rewrite <-Hr in Hh. congruence.
Qed.

(** A region given back. *)
Lemma cells_ok_delete held cells own x :
  cells_ok held cells own → cells_ok (delete x held) cells (delete x own).
Proof.
  intros Hown a [[t y] r] Ha. apply lookup_delete_Some in Ha as [Hne Ha].
  destruct (Hown a _ Ha) as [Hr (n & Hh & Hrest)]. split; [done|]. exists n.
  rewrite lookup_delete_ne by congruence. done.
Qed.

(** ** Calls of a thread *)

(** Programs that only read. *)
Ltac keeps_reads :=
  repeat first [apply keeps_bind; [|intros ?]|apply keeps_gets|apply keeps_from_opt|apply keeps_ret|case_match].

Lemma it_next_same (it it' : Z * Z) (b b' : block_list region) : it_next it b = Done (it', b') → b' = b.
Proof.
  assert (keeps (λ s, s = b) (it_next it)) as Hk; [|by apply Hk].
  unfold it_next, deref. cbv zeta.
  keeps_reads.
Qed.

Lemma wp_on_sys {A} total (m : ST sys A) (Q : A → env → Prop) e :
  wp total m (λ a s, Q a (set_sys s e)) (e_sys e) → wp total (on_sys m) Q e.
Proof. unfold wp, on_sys. by destruct (m (e_sys e)) as [[a s]| | |]. Qed.

Lemma wp_on_list {A} total (m : ST (block_list region) A) a b (Q : A → env → Prop) e :
  m (list_of e) = Done (a, b) → Q a (set_list b e) → wp total (on_list m) Q e.
Proof. intros Hm HQ. unfold wp, on_list. by rewrite Hm. Qed.

Lemma nbegin_same (it : Z * Z) (b b' : block_list region) : nbegin b = Done (it, b') → b' = b.
Proof.
  assert (keeps (λ s, s = b) nbegin) as Hk; [|by apply Hk].
  unfold nbegin, deref.
  keeps_reads.
Qed.

(** A call changes no variable of the thread but its tester. *)
Definition same_vars (e e' : env) : Prop :=
  e_rands e' = e_rands e ∧ ∃ T, e_loc e' = set_tester T (e_loc e).

(** What is true of a thread's environment; [P] of its list. *)
Record env_ok (al : object_allocator) (P : block_list region → gmap Z region → Prop) (t : nat)
    (held : gmap Z Z) (own : owners) (M : gmap Z region) (e : env) : Prop := {
  env_alloc : alloc_ok al (e_sys e) held;
  env_cells : cells_ok held (e_cells e) own;
  env_list : P (list_of e) M;
  env_owns : owns t M own
}.
Arguments env_alloc {al P t held own M e}.
Arguments env_cells {al P t held own M e}.
Arguments env_list {al P t held own M e}.
Arguments env_owns {al P t held own M e}.

Section Calls.
Context (al : object_allocator) (k : test) {TL : TestList k} (total : bool).
Context (cpu : nat → Z) (Hcpu : ∀ n, 0 ≤ cpu n < NPROCS) (t : nat).

(** A region of the thread can be read and checked. *)
Lemma region_of P held own M e x r :
  env_ok al P t held own M e → M !! x = Some r → r_mem r ≠ 0 ∧ region_ok held (e_cells e) r.
Proof.
  intros Hok Hx. pose proof (env_owns Hok x r Hx) as Ho.
  destruct (env_cells Hok _ _ Ho) as [_ Hr]. split; [|done].
  destruct Hr as (sz & Hh & _). by apply (alloc_ok_nonzero al (e_sys e) held _ sz (env_alloc Hok)).
Qed.

(** [_new] after the allocator has returned a block. *)
Lemma wp_new_region held own M e sz ptr s fresh :
  env_ok al at_loop t held own M e → served sz → gets_block al held sz ptr s →
  fresh_ok sizeof_node fresh (list_of e) →
  wp total (
    id ← next_counter; v ← new_region al id sz ptr; x ← on_list (_insert sizeof_node fresh v);
    _r ← on_list (read_obj x); verify _r;; mret 0)
  (λ ret e', ret = 0 ∧ same_vars e e' ∧ ∃ x r,
    let own' := <[ptr := (t, x, r)]> own in
    env_ok al after_new t (<[ptr := sz]> held) own' (<[x := r]> M) e' ∧
    own !! ptr = None ∧ M !! x = None) (set_sys s e).
Proof.
  intros Hok Hsz (H0 & Hnone & Hrange & Hdis & Halloc) Hfresh.
  wp_step. unfold next_counter. repeat wp_step.
  set (id := u32 (counter _ + 1)). unfold new_region.
  do 2 wp_step; [by rewrite (proj2 (Z.eqb_neq ptr 0) H0)|]. do 2 wp_step; [done|].
  wp_step. eapply wp_mono; [apply wp_fill|]. cbv beta. intros _ e1 (c & -> & Hin & Hout).
  do 2 wp_step. simpl in Hin, Hout |- *. set (r := mk_region id (sz / 4) ptr).
  destruct (tl_insert (list_of e) M fresh r (env_list Hok) Hfresh) as (x & b & Hins & HM & Hread & Hnew).
  assert (0 < sz) as Hpos by (unfold served in Hsz; lia).
  assert (0 ≤ sz / 4) by (apply Z.div_pos; lia). rewrite Z2Nat.id in Hin, Hout by done.
  destruct (cells_ok_new held (e_cells e) c own sz ptr t x r (env_cells Hok) Hpos Hdis Hnone)
    as [Hc Hown]; [done|done|intros j Hj; apply Hin; lia|intros a Ha; apply Hout; lia|].
  eapply wp_on_list; [exact Hins|]. wp_step. eapply wp_on_list; [exact Hread|]. wp_step.
  destruct (map_Forall_lookup_1 _ _ _ _ Hc (lookup_insert_eq _ _ _)) as [_ Hrok].
  eapply wp_verify; [exact H0|exact Hrok|]. wp_step. split; [done|].
  split; [split; [done|by eexists]|]. exists x, r. split; [|done].
  split; [done..|]. intros y r' Hy. apply lookup_insert_Some in Hy as [[<- <-]|[Hne Hy]].
  - by rewrite lookup_insert_eq.
  - pose proof (env_owns Hok y r' Hy) as Ho. rewrite lookup_insert_ne by congruence. done.
Qed.

(** What a call leaves: the regions of the other threads, and a list that
    satisfies [Q] and has at most [n] regions more. *)
Definition leaves (Q : block_list region → gmap Z region → Prop) (n : nat) (own : owners)
    (M : gmap Z region) (e' : env) : Prop :=
  ∃ held' own' M', env_ok al Q t held' own' M' e' ∧ others_kept t own own' ∧
    (size M' ≤ size M + n)%nat.

Lemma wp_test_new held own M e sz fresh fuel :
  env_ok al at_loop t held own M e → served sz → fresh_ok sizeof_node fresh (list_of e) →
  (total = true → (∃ c, ∀ n, cpu n = c) ∧ (2 * size (slabs (e_sys e)) + 1 < fuel)%nat) →
  wp total (test_new al cpu fresh fuel sz) (λ ret e', same_vars e e' ∧
    (ret = 0 ∧ leaves after_new 1 own M e' ∨ ret = 1 ∧ leaves at_loop 0 own M e')) e.
Proof.
  intros Hok Hsz Hfresh Ht. unfold test_new. wp_step. apply wp_on_sys.
  eapply wp_mono; [by apply (alloc_ok_allocate al total cpu fuel _ held sz Hcpu (env_alloc Hok))|].
  intros ptr s [[-> Ha]|Hb].
  - rewrite Z.eqb_refl. cbn [negb]. wp_step. split; [split; [done|]|].
    + exists (tester (e_loc e)). by destruct e as [? ? ? []].
    + right. split; [done|]. exists held, own, M. split; [|split; [by intros ?|lia]].
      split; [done|apply Hok..].
  - rewrite (proj2 (Z.eqb_neq ptr 0)) by apply Hb. cbn [negb].
    eapply wp_mono; [by eapply wp_new_region|].
    intros ret e' (-> & Hsame & x & r & Hok' & Hnone & HM). split; [done|]. left. split; [done|].
    eexists _, _, _. split; [exact Hok'|]. split.
    + intros a t' y r' Hne Ha. rewrite lookup_insert_ne by congruence. done.
    + rewrite map_size_insert_None by done. lia.
Qed.

Lemma wp_test_delete held own M e :
  k = AllocFree → env_ok al after_new t held own M e →
  wp total (test_delete cpu) (λ _ e', same_vars e e' ∧ leaves at_loop 0 own M e') e.
Proof.
  intros Hk Hok. unfold test_delete. wp_step.
  destruct (tl_pop (list_of e) M Hk (env_list Hok)) as (x & r & b & Hpop & H0 & HM & Hread & Hloop).
  destruct (region_of _ held own M e x r Hok HM) as [Hm Hr].
  eapply wp_on_list; [exact Hpop|]. do 2 wp_step; [by rewrite (proj2 (Z.eqb_neq x 0) H0)|].
  wp_step. eapply wp_on_list; [exact Hread|]. wp_step.
  eapply wp_verify; [exact Hm|exact Hr|]. apply wp_on_sys. eapply wp_mono.
  { apply (alloc_ok_free al total cpu (e_sys e) held (r_mem r) Hcpu (env_alloc Hok)).
    destruct Hr as (sz & Hh & _). by eexists. }
  intros [] s Ha. split; [split; [done|by eexists]|].
  exists (delete (r_mem r) held), (delete (r_mem r) own), (delete x M).
  pose proof (env_owns Hok x r HM) as Ho. split; [|split].
  - split; [done| |done|].
    + apply cells_ok_delete, Hok.
    + intros y r' Hy. apply lookup_delete_Some in Hy as [Hne Hy].
      pose proof (env_owns Hok y r' Hy) as Ho'. rewrite lookup_delete_ne by congruence. done.
  - intros a t' y r' Hne Ha'. rewrite lookup_delete_ne by congruence. done.
  - assert (is_Some (M !! x)) as Hs by (by rewrite HM). rewrite (map_size_delete_Some x M Hs). lia.
Qed.

(** The loop of [verify_all] checks what the iterator visits. *)
Lemma wp_verify_loop held own M e F fuel it L :
  env_ok al at_loop t held own M e → visit sizeof_node F it (list_of e) = Done (L, list_of e) →
  Forall (λ x, ∃ v, M !! x = Some v ∧ read_obj x (list_of e) = Done (v, list_of e)) L →
  (total = true → (F ≤ fuel)%nat) → wp total (verify_loop fuel it) (λ _ e', e' = e) e.
Proof.
  intros Hok. assert (set_list (list_of e) e = e) as Hid by (by destruct e as [? ? ? [? [] ? ? ? ?]]).
  revert F it L. induction fuel as [|fuel IH]; intros [|F] it L; cbn [visit verify_loop]; try done.
  { intros _ _ Hf. destruct total; [|done]. specialize (Hf eq_refl). lia. }
  destruct (it_end it); [by intros _ _ _; wp_step|].
  unfold mbind at 1, ST_bind at 1. destruct (it_next it (list_of e)) as [[it' b]| | |] eqn:Hnext; [|done..].
  unfold mbind at 1, ST_bind at 1. destruct (visit sizeof_node F it' b) as [[L' b']| | |] eqn:Hv; [|done..].
  intros [= <- ->]. assert (b = list_of e) as -> by (by apply it_next_same in Hnext).
  intros [(v & HM & Hread) HL]%Forall_cons Hf.
  destruct (region_of _ held own M e _ v Hok HM) as [Hm Hr].
  wp_step. eapply wp_on_list; [exact Hread|]. rewrite Hid. wp_step.
  eapply wp_verify; [exact Hm|exact Hr|]. wp_step. eapply wp_on_list; [exact Hnext|]. rewrite Hid.
  apply (IH F it' L'); [done..|]. intros Ht. specialize (Hf Ht). lia.
Qed.

Lemma wp_verify_all held own M e fuel :
  env_ok al at_loop t held own M e → (total = true → (size M < fuel)%nat) →
  wp total (verify_all fuel) (λ _ e', e' = e) e.
Proof.
  intros Hok Hf. assert (set_list (list_of e) e = e) as Hid by (by destruct e as [? ? ? [? [] ? ? ? ?]]).
  destruct (tl_visit (list_of e) M (S (size M)) (env_list Hok) ltac:(lia)) as (L & Hv & HL).
  unfold visit_all, mbind, ST_bind in Hv.
  destruct (nbegin (list_of e)) as [[it b]| | |] eqn:Hbegin; [|done..].
  assert (b = list_of e) as -> by (by apply nbegin_same in Hbegin).
  unfold verify_all. wp_step. eapply wp_on_list; [exact Hbegin|]. rewrite Hid.
  eapply wp_verify_loop; [exact Hok|exact Hv|exact HL|]. intros Ht. specialize (Hf Ht). lia.
Qed.
End Calls.

(** ** Steps of a thread *)

(** The program to run is [m], as [tac] shows. *)
Ltac wp_is m tac := match goal with |- wp _ ?m' _ _ => replace m' with m by tac end.

Section Phases.
Context (al : object_allocator) (rand : nat → Z) (test_size : Z) (k : test) {TL : TestList k}.

Definition rounds : Z := u32 test_size.

(** How many steps a thread still makes, at most. *)
Definition remaining (th : thread) : Z :=
  match th_phase th with
  | PBegin => 2 * rounds + 3
  | PBarrier => 2 * rounds + 2
  | PLoop => 2 * (rounds - i_ (th_loc th)) + 1
  | PDelete | PAgain => 2 * (rounds - i_ (th_loc th))
  | PDone => 0
  end.

Definition phase_ok (p : phase) (b : block_list region) (M : gmap Z region) : Prop :=
  match p with
  | PBegin => M = ∅
  | PBarrier | PLoop | PDone => at_loop b M
  | PDelete => k = AllocFree ∧ after_new b M
  | PAgain => False
  end.

(** [rand] keeps to its range, and never returns 0 more than [z] times in a
    row: a generator with the seed 0 takes its next seed from it. *)
Definition rand_ok (z : nat) : Prop := rand_range rand ∧ ∀ n, nonzero_by rand z n.

Record thread_ok (t : nat) (th : thread) (M : gmap Z region) (own : owners) : Prop := {
  th_list : phase_ok (th_phase th) (allocs (tester (th_loc th))) M;
  th_owns : owns t M own;
  th_i : 0 ≤ i_ (th_loc th) ≤ rounds;
  th_round : th_phase th = PDelete → i_ (th_loc th) < rounds;
  th_size : Z.of_nat (size M) ≤ i_ (th_loc th) + (if decide (th_phase th = PDelete) then 1 else 0);
  th_seed : rand_range rand → th_phase th ≠ PBegin → 0 ≤ cur (th_loc th) ≤ RAND_MAX
}.

(** What a step of thread [t] from [th] gives. *)
Definition steps_to (t : nat) (th : thread) (own : owners) (p : phase) (e : env) : Prop :=
  ∃ held' own' M', alloc_ok al (e_sys e) held' ∧ cells_ok held' (e_cells e) own' ∧
    others_kept t own own' ∧ thread_ok t (mk_thread p (e_loc e)) M' own' ∧
    p ≠ PBegin ∧ p ≠ PBarrier ∧ p ≠ PDone ∧ remaining (mk_thread p (e_loc e)) < remaining th.

(** [++i] at the end of a round. *)
Lemma wp_next_round (total : bool) t th own held' own' M' e :
  env_ok al at_loop t held' own' M' e → others_kept t own own' →
  0 ≤ i_ (e_loc e) < rounds → Z.of_nat (size M') ≤ i_ (e_loc e) + 1 →
  (rand_range rand → 0 ≤ cur (e_loc e) ≤ RAND_MAX) →
  (th_phase th = PLoop ∨ th_phase th = PDelete) → i_ (th_loc th) = i_ (e_loc e) →
  wp total next_round (steps_to t th own) e.
Proof.
  intros Hok Hkept Hi Hsz Hseed Hph Hth. unfold next_round. do 3 wp_step.
  assert (0 ≤ rounds < 2 ^ 32) as HN by (apply wrap_word; lia).
  exists held', own', M'. split_and!; [apply Hok|apply Hok|done| |done..|].
  - split; simpl; rewrite ?wrap_small by (unfold is_word; lia); [apply Hok|apply Hok|lia|done|lia|auto].
  - unfold remaining. simpl. rewrite wrap_small by (unfold is_word; lia).
    destruct Hph as [-> | ->]; lia.
Qed.

Lemma env_ok_same P t held own M e e' :
  e_sys e' = e_sys e → e_cells e' = e_cells e → list_of e' = list_of e →
  env_ok al P t held own M e → env_ok al P t held own M e'.
Proof. intros H1 H2 H3 [Ha Hc Hl Ho]. split; [by rewrite H1|by rewrite H2|by rewrite H3|done]. Qed.

Lemma wp_loop_phase (total : bool) z cpu fresh fuel t th held own M e :
  (k = AllocOnly ∨ k = AllocFree) → (∀ n, 0 ≤ cpu n < NPROCS) →
  env_ok al at_loop t held own M e → thread_ok t th M own → th_phase th = PLoop → e_loc e = th_loc th →
  i_ (th_loc th) < rounds → fresh_ok sizeof_node fresh (list_of e) →
  (total = true → rand_ok z ∧ (∃ c, ∀ n, cpu n = c) ∧
    (2 * size (slabs (e_sys e)) + 1 < fuel)%nat ∧ (z + 6 ≤ fuel)%nat) →
  wp total (loop_phase al rand cpu fresh fuel k) (steps_to t th own) e.
Proof.
  intros Hk Hcpu Hok Hth Hph Hloc Hi Hfresh Ht. unfold loop_phase. wp_step.
  pose proof (th_i _ _ _ _ Hth) as Hi0. pose proof (th_size _ _ _ _ Hth) as Hsz.
  rewrite decide_False in Hsz by (by rewrite Hph).
  assert (rand_range rand → seeded e) as Hseed.
  { unfold seeded. rewrite Hloc. intros Hr. apply (th_seed _ _ _ _ Hth Hr). by rewrite Hph. }
  eapply wp_mono; [apply (wp_pick_size rand total z fuel e)|].
  { intros Htt. destruct (Ht Htt) as ((Hr & Hz) & _ & _ & Hf). auto. }
  intros sz e1 (Hn & (x & n & ->) & Hseed1). cbv beta. do 2 wp_step. wp_step. eapply wp_mono.
  { eapply (wp_test_new al k total cpu Hcpu t held own M _ sz fresh fuel); [|unfold served; lia|done|].
    - by eapply env_ok_same, Hok.
    - intros Htt. by destruct (Ht Htt) as (_ & Hc & Hf & _). }
  intros ret e2 ((_ & T & HT) & Hret). simpl in HT. wp_step. wp_step.
  assert (i_ (e_loc e2) = i_ (th_loc th)) as Hi2 by (by rewrite HT, <-Hloc).
  assert (rand_range rand → 0 ≤ cur (e_loc e2) ≤ RAND_MAX) as Hseed2
    by (rewrite HT; intros Hr; by apply (Hseed1 Hr), Hseed).
  destruct Hret as [(-> & held' & own' & M' & Hok' & Hkept & HM)|(-> & held' & own' & M' & Hok' & Hkept & HM)].
  - cbn [Z.eqb]. unfold count. do 2 wp_step.
    assert (env_ok al after_new t held' own' M' (set_loc (count_call (e_loc e2)) e2)) as Hok3
      by (by eapply env_ok_same, Hok').
    destruct Hk as [Hk|Hk].
    + assert (env_ok al at_loop t held' own' M' (set_loc (count_call (e_loc e2)) e2)) as Hok4.
      { destruct Hok3 as [? ? Hl ?]. split; [done..| |done]. by apply tl_keep. }
      wp_is next_round ltac:(by rewrite Hk).
      apply (wp_next_round total t th own held' own' M'); simpl; auto; lia.
    + wp_is (mret PDelete : ST env phase) ltac:(by rewrite Hk).
      wp_step. exists held', own', M'.
      split_and!; [apply Hok3|apply Hok3|done| |done..|unfold remaining; simpl; rewrite Hph; lia].
      split; simpl; [|apply Hok3|lia|lia|lia|auto]. split; [done|apply Hok3].
  - cbn [Z.eqb].
    wp_is next_round ltac:(by destruct Hk as [Hk|Hk]; rewrite Hk).
    apply (wp_next_round total t th own held' own' M'); auto; lia.
Qed.

Lemma wp_delete_phase (total : bool) cpu t th held own M e :
  k = AllocFree → (∀ n, 0 ≤ cpu n < NPROCS) →
  env_ok al after_new t held own M e → thread_ok t th M own → th_phase th = PDelete →
  e_loc e = th_loc th → wp total (delete_phase cpu k) (steps_to t th own) e.
Proof.
  intros Hk Hcpu Hok Hth Hph Hloc. unfold delete_phase. wp_step.
  pose proof (th_i _ _ _ _ Hth) as Hi0. pose proof (th_size _ _ _ _ Hth) as Hsz.
  pose proof (th_round _ _ _ _ Hth Hph) as Hi.
  rewrite decide_True in Hsz by done.
  eapply wp_mono; [by apply (wp_test_delete al k total cpu Hcpu t held own M)|].
  intros _ e2 ((_ & T & HT) & held' & own' & M' & Hok' & Hkept & HM).
  wp_is next_round ltac:(by rewrite Hk).
  apply (wp_next_round total t th own held' own' M'); rewrite ?HT; simpl; rewrite ?Hloc; auto; try lia.
  intros Hr. apply (th_seed _ _ _ _ Hth Hr). by rewrite Hph.
Qed.
End Phases.

(** ** Steps of the test *)

(** The sum of [f] over the threads. *)
Definition total_of (f : thread → Z) (l : list thread) : Z := foldr (λ th s, f th + s) 0 l.

Lemma total_of_insert f l t th th' :
  l !! t = Some th → total_of f (<[t := th']> l) = total_of f l - f th + f th'.
Proof.
  revert t. induction l as [|a l IH]; intros [|t] Hl; simplify_eq/=; [lia|]. rewrite (IH t) by done. lia.
Qed.

Lemma total_of_zero f l : Forall (λ th, f th = 0) l → total_of f l = 0.
Proof. induction 1 as [|th l Hf Hl IH]; simpl; lia. Qed.

(** What the threads that are done have added. *)
Definition if_done (f : locals → Z) (th : thread) : Z :=
  if decide (th_phase th = PDone) then f (th_loc th) else 0.

Lemma if_done_no f th : th_phase th ≠ PDone → if_done f th = 0.
Proof. intros H. unfold if_done. by rewrite decide_False. Qed.

Lemma total_of_done f l :
  Forall (λ th, th_phase th = PDone) l → total_of (if_done f) l = total_of (f ∘ th_loc) l.
Proof.
  induction 1 as [|th l Hth Hl IH]; [done|]. simpl. rewrite IH. unfold if_done. by rewrite Hth.
Qed.

Section World.
Context (al : object_allocator) (rand : nat → Z) (test_size : Z) (k : test) {TL : TestList k}.

Definition world_ok (w : world) : Prop :=
  ∃ held own Ms, alloc_ok al (w_sys w) held ∧ cells_ok held (w_cells w) own ∧
    length Ms = length (threads w) ∧
    ∀ t th M, threads w !! t = Some th → Ms !! t = Some M → thread_ok rand test_size k t th M own.

(** No thread is past the barrier before all have come to it. *)
Definition gathered (w : world) : Prop :=
  existsb begins (threads w) = true →
  Forall (λ th, th_phase th = PBegin ∨ th_phase th = PBarrier) (threads w).

Definition counted (w : world) : Prop :=
  Forall (λ th, th_phase th = PBegin) (threads w) ∨
  success_calls w = u64 (total_of (if_done lcalls) (threads w)) ∧
  success_bytes w = u64 (total_of (if_done lbytes) (threads w)).

Definition work (w : world) : Z := total_of (remaining test_size) (threads w).

Definition test_ok (w : world) : Prop := world_ok w ∧ gathered w ∧ counted w.

(** A thread of a good world, with the parts it needs. *)
Lemma world_ok_thread w t th :
  world_ok w → threads w !! t = Some th →
  ∃ held own M, alloc_ok al (w_sys w) held ∧ cells_ok held (w_cells w) own ∧
    thread_ok rand test_size k t th M own ∧
    ∀ p e held' own' M', alloc_ok al (e_sys e) held' → cells_ok held' (e_cells e) own' →
      others_kept t own own' → thread_ok rand test_size k t (mk_thread p (e_loc e)) M' own' →
      world_ok (put_env t p e w).
Proof.
  intros (held & own & Ms & Ha & Hc & Hlen & Hall) Ht.
  destruct (lookup_lt_is_Some_2 Ms t) as [M HM].
  { rewrite Hlen. by eapply lookup_lt_Some. }
  exists held, own, M. split_and!; [done..|by apply Hall|].
  intros p e held' own' M' Ha' Hc' Hk Hth'. exists held', own', (<[t := M']> Ms). simpl.
  split_and!; [done|done|by rewrite !length_insert|].
  intros t' th' M'' Hth HM''. destruct (decide (t' = t)) as [->|Hne].
  - rewrite list_lookup_insert_eq in Hth by (by eapply lookup_lt_Some).
    rewrite list_lookup_insert_eq in HM'' by (by eapply lookup_lt_Some). by simplify_eq.
  - rewrite list_lookup_insert_ne in Hth by done. rewrite list_lookup_insert_ne in HM'' by done.
    destruct (Hall t' th' M'' Hth HM'').
    split; try done. by eapply owns_other.
Qed.

Lemma wp_run_thread total t th m w (Q : unit → world → Prop) :
  wp total m (λ p e, Q tt (put_env t p e w)) (env_of th w) → wp total (run_thread t th m) Q w.
Proof. unfold wp, run_thread. by destruct (m (env_of th w)) as [[p e]| | |]. Qed.

Lemma begins_insert t th' l :
  begins th' = false → existsb begins l = false → existsb begins (<[t := th']> l) = false.
Proof.
  intros Hth. revert t. induction l as [|a l IH]; intros [|t]; simpl; try done;
    rewrite !orb_false_iff; intros [? ?]; auto.
Qed.

(** Past the barrier no thread is before it. *)
Lemma past_barrier w t th :
  gathered w → threads w !! t = Some th → th_phase th ≠ PBegin → th_phase th ≠ PBarrier →
  existsb begins (threads w) = false.
Proof.
  intros Hg Ht H1 H2. destruct (existsb begins (threads w)) eqn:E; [|done].
  pose proof (Forall_lookup_1 _ _ _ _ (Hg E) Ht) as [?|?]; done.
Qed.

(** The counts do not change when a thread goes on. *)
Lemma counted_same w t th p e :
  counted w → threads w !! t = Some th → th_phase th ≠ PBegin → th_phase th ≠ PDone → p ≠ PDone →
  counted (put_env t p e w).
Proof.
  intros [Hall|[Hc Hb]] Ht H1 H2 H3; [by apply (Forall_lookup_1 _ _ _ _ Hall) in Ht|]. right. simpl.
  rewrite !(total_of_insert _ _ t th) by done.
  rewrite !(if_done_no _ th), !if_done_no by done. by rewrite !Z.sub_0_r, !Z.add_0_r.
Qed.

Lemma gathered_past w t p e :
  existsb begins (threads w) = false → p ≠ PBegin → gathered (put_env t p e w).
Proof.
  intros He Hp Hex. exfalso. revert Hex. simpl.
  by rewrite begins_insert by (done || destruct p; done).
Qed.

Lemma work_insert w t th p e :
  threads w !! t = Some th →
  work (put_env t p e w) = work w - remaining test_size th + remaining test_size (mk_thread p (e_loc e)).
Proof. intros Ht. unfold work. simpl. by apply total_of_insert. Qed.

Lemma work_success b c w : work (set_success b c w) = work w.
Proof. done. Qed.

(** A step within the loop. *)
Lemma steps_to_ok w t th own p e :
  gathered w → counted w → threads w !! t = Some th →
  th_phase th ≠ PBegin → th_phase th ≠ PBarrier → th_phase th ≠ PDone →
  (∀ p e held' own' M', alloc_ok al (e_sys e) held' → cells_ok held' (e_cells e) own' →
      others_kept t own own' → thread_ok rand test_size k t (mk_thread p (e_loc e)) M' own' →
      world_ok (put_env t p e w)) →
  steps_to al rand test_size k t th own p e →
  test_ok (put_env t p e w) ∧ work (put_env t p e w) < work w.
Proof.
  intros Hg Hc Ht H1 H2 H3 Hput (held' & own' & M' & Ha & Hcell & Hk & Hth & Hp1 & Hp2 & Hp3 & Hr).
  split; [split_and!|].
  - by eapply Hput.
  - apply gathered_past; [by eapply past_barrier|done].
  - by eapply counted_same.
  - rewrite (work_insert w t th) by done. lia.
Qed.

Lemma others_kept_refl t own : others_kept t own own.
Proof. by intros ?. Qed.

(** The first step of a thread. *)
Lemma begin_ok w t th :
  test_ok w → threads w !! t = Some th → th_phase th = PBegin →
  let l := mk_locals (u32 (rand (w_rands w))) new_tester 0 0 0 0 in
  let w' := set_success 0 0
    (put_env t PBarrier (mk_env (w_sys w) (w_cells w) (S (w_rands w)) l) w) in
  test_ok w' ∧ work w' < work w.
Proof.
  intros (Hw & Hg & Hc) Ht Hph l w'.
  destruct (world_ok_thread w t th Hw Ht) as (held & own & M & Ha & Hcell & Hth & Hput).
  assert (existsb begins (threads w) = true) as Hex.
  { apply existsb_exists. exists th. split; [by apply list_elem_of_In, list_elem_of_lookup_2 with t|].
    unfold begins. by rewrite Hph. }
  assert (Forall (λ th, th_phase th = PBegin ∨ th_phase th = PBarrier) (threads w')) as Hall.
  { simpl. apply Forall_insert; [by apply Hg|by right]. }
  pose proof (th_list _ _ _ _ _ _ _ Hth) as HM. rewrite Hph in HM. simpl in HM. subst M.
  assert (0 ≤ rounds test_size < 2 ^ 32) as HN by (apply wrap_word; lia).
  split; [split_and!|].
  - apply (Hput PBarrier (mk_env (w_sys w) (w_cells w) (S (w_rands w)) l) held own ∅); [done..| |].
    + apply others_kept_refl.
    + split; simpl.
      * apply tl_start.
      * by intros x r Hx%lookup_empty_Some.
      * lia.
      * done.
      * rewrite map_size_empty. lia.
      * intros Hr _. rewrite wrap_small; [apply Hr|]. specialize (Hr (w_rands w)).
        unfold is_word, RAND_MAX in *. lia.
  - by intros _.
  - right. split; simpl; symmetry;
      (rewrite total_of_zero; [done|]; eapply Forall_impl; [exact Hall|]; intros th' [He|He];
        unfold if_done; by rewrite He).
  - unfold w'. rewrite work_success, (work_insert w t th) by done. unfold remaining. simpl. rewrite Hph. lia.
Qed.

Lemma barrier_ok w t th :
  test_ok w → threads w !! t = Some th → th_phase th = PBarrier → enabled w th = true →
  test_ok (put_env t PLoop (env_of th w) w) ∧ work (put_env t PLoop (env_of th w) w) < work w.
Proof.
  intros (Hw & Hg & Hc) Ht Hph He. unfold enabled in He. rewrite Hph in He. apply negb_true_iff in He.
  destruct (world_ok_thread w t th Hw Ht) as (held & own & M & Ha & Hcell & Hth & Hput).
  destruct Hth as [Hl Ho Hi Hr Hs Hseed]. rewrite Hph in *. split; [split_and!|].
  - apply (Hput PLoop (env_of th w) held own M); [done..|apply others_kept_refl|]. split; simpl; try done.
    intros Hrand _. by apply Hseed.
  - by apply gathered_past.
  - apply (counted_same w t th); rewrite ?Hph; done.
  - rewrite (work_insert w t th) by done. unfold remaining. simpl. rewrite Hph. lia.
Qed.

(** The last step of a thread. *)
Lemma done_ok w t th :
  test_ok w → threads w !! t = Some th → th_phase th = PLoop →
  let w' := put_env t PDone (env_of th w) w in
  let w'' := set_success (u64 (success_bytes w' + lbytes (th_loc th)))
    (u64 (success_calls w' + lcalls (th_loc th))) w' in
  test_ok w'' ∧ work w'' < work w.
Proof.
  intros (Hw & Hg & Hc) Ht Hph w' w''.
  destruct (world_ok_thread w t th Hw Ht) as (held & own & M & Ha & Hcell & Hth & Hput).
  pose proof (th_i _ _ _ _ _ _ _ Hth) as HiN.
  destruct Hth as [Hl Ho Hi Hr Hs Hseed]. rewrite Hph in *. split; [split_and!|].
  - apply (Hput PDone (env_of th w) held own M); [done..|apply others_kept_refl|]. split; simpl; try done.
    intros Hrand _. by apply Hseed.
  - apply (gathered_past w t PDone); [|done]. eapply past_barrier; [done..| |]; by rewrite Hph.
  - right. destruct Hc as [Hall|[Hcalls Hbytes]].
    { apply (Forall_lookup_1 _ _ _ _ Hall) in Ht. congruence. }
    simpl. rewrite !(total_of_insert _ _ t th), Hcalls, Hbytes by done.
    rewrite !(if_done_no _ th) by (by rewrite Hph). rewrite !Z.sub_0_r.
    unfold wrap. by rewrite !Zplus_mod_idemp_l.
  - unfold w'', w'. rewrite work_success, (work_insert w t th) by done. unfold remaining. simpl. rewrite Hph. lia.
Qed.

(** The fuel that is enough for a step. *)
Definition enough (z : nat) (cpu : nat → Z) (fuel : nat) (w : world) : Prop :=
  rand_ok rand z ∧ (∃ c, ∀ n, cpu n = c) ∧ (2 * size (slabs (w_sys w)) + 1 < fuel)%nat ∧
  (z + 6 ≤ fuel)%nat ∧ rounds test_size < Z.of_nat fuel.

Lemma env_ok_of w P t th held own M :
  alloc_ok al (w_sys w) held → cells_ok held (w_cells w) own → thread_ok rand test_size k t th M own →
  P (allocs (tester (th_loc th))) M → env_ok al P t held own M (env_of th w).
Proof. intros Ha Hc Hth HP. split; [done..|apply Hth]. Qed.

Lemma wp_thread_step (total : bool) z cpu fresh fuel t th w :
  (k = AllocOnly ∨ k = AllocFree) → test_ok w → threads w !! t = Some th → enabled w th = true →
  (∀ n, 0 ≤ cpu n < NPROCS) → fresh_ok sizeof_node fresh (allocs (tester (th_loc th))) →
  (total = true → enough z cpu fuel w) →
  wp total (thread_step al rand test_size k cpu fresh fuel t) (λ _ w', test_ok w' ∧ work w' < work w) w.
Proof.
  intros Hk Hok Ht He Hcpu Hfresh Hen. pose proof Hok as (Hw & Hg & Hc).
  destruct (world_ok_thread w t th Hw Ht) as (held & own & M & Ha & Hcell & Hth & Hput).
  unfold thread_step. do 3 wp_step. wp_step; [exact Ht|].
  pose proof (th_list _ _ _ _ _ _ _ Hth) as Hl. destruct (th_phase th) eqn:Hph; simpl in Hl.
  - wp_step. apply wp_run_thread. unfold call_rand. repeat wp_step. by apply (begin_ok w t th).
  - apply wp_run_thread. wp_step. by apply (barrier_ok w t th).
  - pose proof (env_ok_of w _ t th held own M Ha Hcell Hth Hl) as Hok'.
    destruct (Z.ltb_spec (i_ (th_loc th)) (u32 test_size)) as [Hi|Hi].
    + apply wp_run_thread. eapply wp_mono.
      { apply (wp_loop_phase al rand test_size k total z cpu fresh fuel t th held own M); try done.
        intros Htt. destruct (Hen Htt) as (? & ? & ? & ? & ?). done. }
      intros p e Hs. eapply steps_to_ok; try done; by rewrite Hph.
    + wp_step. apply wp_run_thread. unfold done_phase. wp_step. eapply wp_mono.
      { apply (wp_verify_all al k total t held own M (env_of th w) fuel Hok').
        intros Htt. destruct (Hen Htt) as (_ & _ & _ & _ & Hf).
        pose proof (th_size _ _ _ _ _ _ _ Hth) as Hs. rewrite decide_False in Hs by (by rewrite Hph).
        pose proof (th_i _ _ _ _ _ _ _ Hth). lia. }
      intros _ e ->. do 2 wp_step. by apply (done_ok w t th).
  - destruct Hl as [Hfree Hl]. pose proof (env_ok_of w _ t th held own M Ha Hcell Hth Hl) as Hok'.
    apply wp_run_thread. eapply wp_mono; [by apply (wp_delete_phase al rand test_size k total cpu t th held own M)|].
    intros p e Hs. eapply steps_to_ok; try done; by rewrite Hph.
  - done.
  - unfold enabled in He. by rewrite Hph in He.
Qed.
End World.

(** ** Runs of the test *)

(** An allocator as its constructor or [reset] leaves it. *)
Definition unused (al : object_allocator) (s : sys) : Prop :=
  ∃ mem rs st c, 0 ≤ mem ∧ mem + rs < 2 ^ 64 ∧ sizeof_memory_layout + sizeof_obj_slab ≤ rs ∧
    new_allocator mem rs = Some (al, mk_sys 0 zero_managers st ∅) ∧ s = mk_sys c zero_managers st ∅.

(** The states of a test: its threads take steps in any order, on any CPUs, and
    [calloc] returns memory apart from the blocks of the list. *)
Inductive reachable (al : object_allocator) (rand : nat → Z) (test_size : Z) (k : test) : world → Prop :=
  | reach_start s cells rands n b c :
      unused al s → reachable al rand test_size k (mk_world s cells rands (replicate n new_thread) b c)
  | reach_step w t th cpu fresh fuel w' :
      reachable al rand test_size k w → threads w !! t = Some th → enabled w th = true →
      (∀ n, 0 ≤ cpu n < NPROCS) → fresh_ok sizeof_node fresh (allocs (tester (th_loc th))) →
      thread_step al rand test_size k cpu fresh fuel t w = Done (tt, w') →
      reachable al rand test_size k w'.

Lemma unused_region al s : unused al s → ∃ st c, wf_region al st ∧ s = mk_sys c zero_managers st ∅.
Proof.
  intros (mem & rs & st & c & Hm & Hr & Hrs & Hnew & ->).
  destruct (new_allocator_region mem rs Hm Hr Hrs) as (al' & st' & Hnew' & Hal & _).
  rewrite Hnew in Hnew'. injection Hnew' as <- <-. eauto.
Qed.

Section Reachable.
Context (al : object_allocator) (rand : nat → Z) (test_size : Z).

Lemma start_ok k {TL : TestList k} s cells rands n b c :
  unused al s → test_ok al rand test_size k (mk_world s cells rands (replicate n new_thread) b c).
Proof.
  intros (st & t & Hal & ->)%unused_region. split_and!.
  - exists ∅, ∅, (replicate n ∅). split_and!.
    + exists st, initial. split_and!; [done|by apply initial_wf|by apply holds_initial].
    + apply map_Forall_empty.
    + simpl. by rewrite !length_replicate.
    + intros i th M Hth HM. simpl in Hth. apply lookup_replicate in Hth as [-> _].
      apply lookup_replicate in HM as [-> _].
      assert (0 ≤ rounds test_size < 2 ^ 32) by (apply wrap_word; lia).
      split; simpl; [done|by intros x r Hx%lookup_empty_Some|lia|done| |done].
      rewrite map_size_empty. lia.
  - intros _. apply Forall_replicate. by left.
  - left. by apply Forall_replicate.
Qed.

Lemma reachable_ok k {TL : TestList k} w :
  (k = AllocOnly ∨ k = AllocFree) → reachable al rand test_size k w → test_ok al rand test_size k w.
Proof.
  intros Hk. induction 1 as [|w t th cpu fresh fuel w' _ IH Ht He Hcpu Hf Hrun]; [by apply start_ok|].
  apply (wp_done false _ (λ _ w', test_ok al rand test_size k w' ∧ work test_size w' < work test_size w) _ _ _ Hrun).
  by apply (wp_thread_step al rand test_size k false 0 cpu fresh fuel t th w).
Qed.

(** The region an allocator was made for is the same after any calls. *)
Lemma reachable_unused k w :
  reachable al rand test_size k w → ∃ s, unused al s.
Proof. induction 1 as [s|]; [by exists s|done]. Qed.

Lemma remaining_nonneg k {TL : TestList k} t th M own :
  thread_ok rand test_size k t th M own → 0 ≤ remaining test_size th.
Proof.
  intros Hth. pose proof (th_i _ _ _ _ _ _ _ Hth).
  assert (0 ≤ rounds test_size < 2 ^ 32) by (apply wrap_word; lia).
  unfold remaining. destruct (th_phase th); lia.
Qed.

Lemma work_nonneg k {TL : TestList k} w : world_ok al rand test_size k w → 0 ≤ work test_size w.
Proof.
  intros (held & own & Ms & _ & _ & Hlen & Hall). unfold work.
  assert (Forall (λ th, 0 ≤ remaining test_size th) (threads w)) as HF.
  { apply Forall_lookup. intros t th Ht. destruct (lookup_lt_is_Some_2 Ms t) as [M HM].
    { rewrite Hlen. by eapply lookup_lt_Some. }
    by eapply remaining_nonneg, Hall. }
  revert HF. generalize (threads w). induction 1; simpl; lia.
Qed.
End Reachable.

(** Some thread can go on as long as not all are done. *)
Lemma some_enabled w :
  ¬ Forall (λ th, th_phase th = PDone) (threads w) →
  ∃ t th, threads w !! t = Some th ∧ enabled w th = true.
Proof.
  intros Hnot. destruct (existsb begins (threads w)) eqn:He.
  - apply existsb_exists in He as (th & Hin & Hb). apply list_elem_of_In, list_elem_of_lookup in Hin as [t Ht].
    exists t, th. split; [done|]. unfold begins, enabled in *. by destruct (th_phase th).
  - apply not_Forall_Exists, Exists_exists in Hnot as (th & Hin & Hp); [|intros; apply _].
    apply list_elem_of_lookup in Hin as [t Ht]. exists t, th. split; [done|].
    unfold enabled. rewrite He. unfold compose in Hp. by destruct (th_phase th).
Qed.

(** ** Claims *)

(** C18: the tests [alloc_only] and [alloc_free] pass: in every interleaving of
    the calls of any number of threads, on any CPUs, no assertion of the
    allocator, of the block list or of a region fails and nothing is read
    outside of what was allocated; when all threads are done, the totals
    [main] prints are those of the threads, and [reset] leaves an allocator
    the next test can start with. *)
Theorem slab_test_passes al rand test_size k w :
  k = AllocOnly ∨ k = AllocFree → reachable al rand test_size k w →
  (∀ t th cpu fresh fuel,
    threads w !! t = Some th → enabled w th = true → (∀ n, 0 ≤ cpu n < NPROCS) →
    fresh_ok sizeof_node fresh (allocs (tester (th_loc th))) →
    thread_step al rand test_size k cpu fresh fuel t w ≠ Fault) ∧
  (threads w ≠ [] → Forall (λ th, th_phase th = PDone) (threads w) →
    success_calls w = u64 (total_of (lcalls ∘ th_loc) (threads w)) ∧
    success_bytes w = u64 (total_of (lbytes ∘ th_loc) (threads w)) ∧
    ∃ s, reset al (w_sys w) = Done (tt, s) ∧ unused al s).
Proof.
  intros Hk Hw. assert (∃ TL : TestList k, True) as [TL _].
  { destruct Hk as [-> | ->]; by eexists _. }
  pose proof (reachable_ok al rand test_size k w Hk Hw) as Hok. split.
  - intros t th cpu fresh fuel Ht He Hcpu Hf Hrun.
    pose proof (wp_thread_step al rand test_size k false 0 cpu fresh fuel t th w Hk Hok Ht He Hcpu Hf) as Hwp.
    unfold wp in Hwp. rewrite Hrun in Hwp. by apply Hwp.
  - intros Hne Hall. destruct Hok as (_ & _ & [Hb|[Hc Hb]]).
    { destruct (threads w) as [|th l]; [done|]. apply Forall_cons in Hall as [H1 _], Hb as [H2 _]. congruence. }
    assert (∀ f, total_of (if_done f) (threads w) = total_of (f ∘ th_loc) (threads w)) as Hsum.
    { intros f. apply total_of_done, Hall. }
    rewrite Hc, Hb, !Hsum. split_and!; [done..|].
    destruct (reachable_unused al rand test_size k w Hw) as [s Hs].
    pose proof Hs as (mem & rs & st & c & Hm & Hr & Hrs & Hnew & ->).
    destruct (unused_region al _ Hs) as (st' & c' & Hal & [= <- <-]).
    unfold reset. rewrite (new_layout_wf _ al st Hal). eexists. split; [done|].
    by exists mem, rs, st, (clock (w_sys w)).
Qed.

(** Two threads on a new allocator of 1 MiB. *)
Definition demo_world (s : sys) : world := mk_world s (λ _, 0) 0 (replicate 2 new_thread) 0 0.

Lemma demo_unused : ∃ al s, unused al s.
Proof.
  destruct (new_allocator_region 1048576 1048576 ltac:(lia) ltac:(lia) ltac:(vm_compute; discriminate))
    as (al & st & Hnew & _).
  exists al, (mk_sys 0 zero_managers st ∅), 1048576, 1048576, st, 0%nat.
  split_and!; [lia|lia|vm_compute; discriminate|exact Hnew|done].
Qed.

Lemma demo_fresh : fresh_ok sizeof_node 65536 (allocs (tester (th_loc new_thread))).
Proof. split_and!; [lia|done|by vm_compute|]. intros b [blk Hb]. simpl in Hb. by rewrite lookup_empty in Hb. Qed.

Lemma slab_test_passes_witness :
  ∃ al s, unused al s ∧ ∀ fuel,
    thread_step al (λ _, 12345) 3 AllocOnly (λ _, 0) 65536 fuel 0 (demo_world s) ≠ Fault.
Proof.
  destruct demo_unused as (al & s & Hs). exists al, s. split; [exact Hs|]. intros fuel.
  destruct (slab_test_passes al (λ _, 12345) 3 AllocOnly (demo_world s)) as [Hpass _].
  - by left.
  - by apply reach_start.
  - apply (Hpass 0%nat new_thread (λ _, 0) 65536 fuel); [done|done|done|exact demo_fresh].
Defined.

(** C19: the tests end.  [rand] returns values from 0 to [RAND_MAX], and never 0
    more than [z] times in a row (a generator with the seed 0 asks it for
    another one, so zeros without end would keep a thread in its loop).  As long
    as not all threads are done some thread can take a step.  A step in which
    the thread keeps its CPU (an allocation starts over after a migration, and
    could do so without end) returns, with fuel for the slabs there are, for
    [z + 6] random numbers to find a size that is not 0, and for the rounds of
    the test; and it leaves less work, where the work of a test is bounded by
    its rounds. *)
Theorem slab_test_ends al rand test_size k z w :
  k = AllocOnly ∨ k = AllocFree → reachable al rand test_size k w → rand_ok rand z →
  (¬ Forall (λ th, th_phase th = PDone) (threads w) →
    ∃ t th, threads w !! t = Some th ∧ enabled w th = true) ∧
  (∀ t th c fresh fuel,
    threads w !! t = Some th → enabled w th = true → 0 ≤ c < NPROCS →
    fresh_ok sizeof_node fresh (allocs (tester (th_loc th))) →
    (2 * size (slabs (w_sys w)) + 1 < fuel)%nat → (z + 6 ≤ fuel)%nat → u32 test_size < Z.of_nat fuel →
    ∃ w', thread_step al rand test_size k (λ _, c) fresh fuel t w = Done (tt, w') ∧
      0 ≤ work test_size w' < work test_size w).
Proof.
  intros Hk Hw Hrand. split; [apply some_enabled|].
  intros t th c fresh fuel Ht He Hc Hf Hfuel Hz Hrounds. assert (∃ TL : TestList k, True) as [TL _].
  { destruct Hk as [-> | ->]; by eexists _. }
  pose proof (reachable_ok al rand test_size k w Hk Hw) as Hok.
  assert (enough rand test_size z (λ _, c) fuel w) as Hen.
  { split_and!; [done|by exists c|lia|lia|done]. }
  destruct (wp_total_done _ _ _ (wp_thread_step al rand test_size k true z (λ _, c) fresh fuel t th w
    Hk Hok Ht He (λ _, Hc) Hf (λ _, Hen))) as ([] & w' & Hrun & Hok' & Hwork).
  exists w'. split; [done|]. split; [|done]. by apply (work_nonneg al rand test_size k w'), Hok'.
Qed.

(** A generator that returns 0, [RAND_MAX] and other values in turn. *)
Definition demo_rand (n : nat) : Z :=
  match (n mod 3)%nat with O => 0 | 1%nat => RAND_MAX | _ => 12345 end.

Lemma demo_rand_ok : rand_ok demo_rand 1.
Proof.
  split.
  - intros n. unfold demo_rand, RAND_MAX. repeat case_match; lia.
  - intros n. pose proof (Nat.mod_upper_bound n 3 ltac:(lia)) as Hn.
    destruct (decide (n mod 3 = 0)%nat) as [E|E].
    + exists (S n). split; [lia|]. unfold demo_rand.
      replace (S n mod 3)%nat with 1%nat; [done|].
      change (S n) with (1 + n)%nat. rewrite Nat.Div0.add_mod, E. done.
    + exists n. split; [lia|]. unfold demo_rand, RAND_MAX. destruct (n mod 3)%nat as [|[|m]]; lia.
Qed.

Lemma slab_test_ends_witness :
  ∃ al s w', unused al s ∧
    thread_step al demo_rand 3 AllocFree (λ _, 0) 65536 10 0 (demo_world s) = Done (tt, w') ∧
    0 ≤ work 3 w' < 18.
Proof.
  destruct demo_unused as (al & s & Hs). exists al, s.
  destruct (slab_test_ends al demo_rand 3 AllocFree 1 (demo_world s)) as [_ Hend].
  - by right.
  - by apply reach_start.
  - exact demo_rand_ok.
  - destruct (Hend 0%nat new_thread 0 65536 10%nat) as (w' & Hrun & Hwork);
      [done|done|done|exact demo_fresh| |lia|done|].
    + destruct (unused_region al s Hs) as (st & c & _ & ->). simpl. rewrite map_size_empty. lia.
    + exists w'. split; [exact Hs|]. split; [exact Hrun|exact Hwork].
Defined.
