(* ===== verification/TcCommon.v ===== *)
(** * tcmalloc: configuration

    The constants of tcmalloc/common.h and tcmalloc/internal/config.h that depend on
    how the library is configured, the integer logarithms of
    tcmalloc/internal/bits.h, and the record of a size class of
    tcmalloc/size_class_info.h.  The target is 64-bit x86. *)

From S2P Require Import Prelude.
From S2P Require Import CString.

(** ** internal/bits.h *)

(** [__builtin_clz] of a nonzero 32-bit number. *)
Definition builtin_clz (n : Z) : Z := 31 - Z.log2 n.

(** [Bits::Log2Floor], as compiled by GCC and clang. *)
Definition Log2Floor (n : Z) : Z := if n =? 0 then -1 else Z.lxor 31 (builtin_clz n).

(** The loop of the other compilers: [i] from 4 down to 0. *)
Fixpoint Log2Floor_loop (k : nat) (value log : Z) : Z * Z :=
  match k with
  | O => (value, log)
  | S i =>
      let shift := 1 ≪ Z.of_nat i in
      let x := value ≫ shift in
      if x =? 0 then Log2Floor_loop i value log else Log2Floor_loop i x (log + shift)
  end.

(** [Bits::Log2Floor] without the builtin; [None] is the failed assertion. *)
Definition Log2Floor_portable (n : Z) : option Z :=
  if n =? 0 then Some (-1)
  else let '(value, log) := Log2Floor_loop 5 n 0 in
       if value =? 1 then Some log else None.

Definition Log2Ceiling (n : Z) : Z :=
  let floor := Log2Floor n in
  if Z.land n (u32 (n - 1)) =? 0 then floor else floor + 1.

(** ** Configurations *)

(** The supported values of [TCMALLOC_PAGE_SHIFT]. *)
Inductive page_shift := Shift12 | Shift13 | Shift15 | Shift18.

(** The page shift, whether [operator new] aligns to at most 8 bytes, and
    whether the library is linked with runtime_size_classes.cc instead of
    noruntime_size_classes.cc. *)
Record config := mk_config {
  shift : page_shift;
  new_align_8 : bool;
  with_runtime : bool;
}.

#[export] Instance page_shift_eq : EqDecision page_shift.
Proof. solve_decision. Defined.

(** One-step case analysis on a configuration. *)
Ltac on_config cfg := destruct cfg as [[] [] ?].

Definition kPageShift (cfg : config) : Z :=
  match shift cfg with Shift12 => 12 | Shift13 => 13 | Shift15 => 15 | Shift18 => 18 end.

Definition kNumClasses (cfg : config) : Z :=
  match shift cfg with Shift12 => 46 | Shift13 => 86 | Shift15 => 78 | Shift18 => 89 end.

Definition kMaxSize (cfg : config) : Z :=
  match shift cfg with Shift12 => 8 ≪ 10 | _ => 256 * 1024 end.

Definition kMinThreadCacheSize (cfg : config) : Z :=
  match shift cfg with Shift12 => 4 * 1024 | _ => kMaxSize cfg * 2 end.

Definition kMaxThreadCacheSize (cfg : config) : Z :=
  match shift cfg with Shift12 => 64 * 1024 | _ => 4 ≪ 20 end.

Definition kMaxCpuCacheSize (cfg : config) : Z :=
  match shift cfg with Shift12 => 20 * 1024 | _ => 3 * 1024 * 1024 end.

Definition kDefaultOverallThreadCacheSize (cfg : config) : Z :=
  match shift cfg with Shift12 => kMaxThreadCacheSize cfg | _ => 8 * kMaxThreadCacheSize cfg end.

Definition kStealAmount (cfg : config) : Z :=
  match shift cfg with Shift12 => kMinThreadCacheSize cfg | _ => 1 ≪ 16 end.

Definition kDefaultProfileSamplingRate (cfg : config) : Z :=
  match shift cfg with Shift12 => 1 ≪ 19 | _ => 1 ≪ 21 end.

Definition kMinPages (cfg : config) : Z :=
  match shift cfg with Shift12 => 2 | _ => 8 end.

Definition kMinObjectsToMove : Z := 2.
Definition kMaxObjectsToMove : Z := 128.

Definition kPageSize (cfg : config) : Z := 1 ≪ kPageShift cfg.

Definition kAlignment : Z := 8.
Definition kAlignmentShift : Z := Log2Ceiling kAlignment.
Definition kMaxPages (cfg : config) : Z := 1 ≪ (20 - kPageShift cfg).
Definition kMaxValidPages (cfg : config) : Z := wnot 64 0 ≫ kPageShift cfg.
Definition kAddressBits : Z := 48.

Definition kHugePageShift : Z := 21.
Definition kHugePageSize : Z := 1 ≪ kHugePageShift.
Definition kPagesPerHugePage (cfg : config) : Z := 1 ≪ (kHugePageShift - kPageShift cfg).
Definition kTagMask : Z := 1 ≪ Z.min (kAddressBits - 4) 42.

Definition kMinSystemAlloc (cfg : config) : Z :=
  match shift cfg with Shift12 => 2 ≪ 20 | _ => kHugePageSize end.
Definition kMinMmapAlloc (cfg : config) : Z :=
  match shift cfg with Shift12 => 32 ≪ 20 | _ => 1 ≪ 30 end.

(** The [static_assert]s. *)
Definition kMaxSize_ratio_ok (cfg : config) : bool :=
  (kMinPages cfg <=? kMaxSize cfg / kPageSize cfg) || (18 <=? kPageShift cfg).
Definition kMinMmapAlloc_ok (cfg : config) : bool :=
  kMinMmapAlloc cfg mod kMinSystemAlloc cfg =? 0.

(** [pages(bytes)]: the number of pages that hold [bytes] bytes. *)
Definition pages (cfg : config) (bytes : Z) : Z :=
  u64 ((bytes ≫ kPageShift cfg) + (if 0 <? Z.land bytes (kPageSize cfg - 1) then 1 else 0)).

Definition IsTaggedMemory (ptr : Z) : bool := Z.land ptr kTagMask =? 0.

(** ** size_class_info.h *)

Definition kSizeClassInfoMembers : Z := 3.

Record SizeClassInfo := info {
  sc_size : Z;
  sc_pages : Z;
  num_to_move : Z;
}.

(** [Value]: the result is an [int].  A failed [CHECK_CONDITION] is [None]. *)
Definition Value (sc : SizeClassInfo) (index : Z) : option Z :=
  if index =? 0 then Some (i32 (sc_size sc))
  else if index =? 1 then Some (i32 (sc_pages sc))
  else if index =? 2 then Some (i32 (num_to_move sc))
  else if index <? kSizeClassInfoMembers then Some 0 else None.

Definition SetValue (sc : SizeClassInfo) (index v : Z) : option SizeClassInfo :=
  if index =? 0 then Some (info v (sc_pages sc) (num_to_move sc))
  else if index =? 1 then Some (info (sc_size sc) v (num_to_move sc))
  else if index =? 2 then Some (info (sc_size sc) (sc_pages sc) v)
  else if index <? kSizeClassInfoMembers then Some sc else None.

(** ** Lemmas *)

(** A mask of low bits, as a remainder. *)
Lemma land_mask x k : 0 ≤ k → Z.land x (2 ^ k - 1) = x mod 2 ^ k.
Proof.
  intros Hk. assert (2 ^ k - 1 = Z.ones k) as -> by (rewrite Z.ones_equiv; lia).
  by apply Z.land_ones.
Qed.

(** Clearing the low bits rounds down. *)
Lemma land_wnot_mask x k :
  0 ≤ k → is_word 64 x → Z.land x (wnot 64 (2 ^ k - 1)) = x - x mod 2 ^ k.
Proof.
  intros Hk Hx. transitivity ((x ≫ k) ≪ k).
  - apply Z.bits_inj'. intros j Hj. rewrite Z.land_spec, wnot_testbit, Z.shiftl_spec by lia.
    assert (2 ^ k - 1 = Z.ones k) as -> by (rewrite Z.ones_equiv; lia).
    destruct (Z.lt_ge_cases j k).
    + rewrite Z.ones_spec_low, (Z.testbit_neg_r (_ ≫ _)) by lia. simpl.
      by rewrite !andb_false_r.
    + rewrite Z.ones_spec_high, Z.shiftr_spec by lia. replace (j - k + k) with j by lia.
      destruct (Z.ltb_spec j 64); [apply andb_true_r|].
      by rewrite (word_testbit_high 64 ltac:(lia) x) by done.
  - rewrite Z.shiftr_div_pow2, Z.shiftl_mul_pow2 by lia. pose proof (Z.div_mod x (2 ^ k)). lia.
Qed.

Lemma i32_small x : 0 ≤ x < 2 ^ 31 → i32 x = x.
Proof.
  intros Hx. unfold i32. rewrite wrap_small by (unfold is_word; lia).
  by replace (x <? 2 ^ 31) with true by lia.
Qed.

Lemma Log2Floor_log2 n : 0 < n < 2 ^ 32 → Log2Floor n = Z.log2 n.
Proof.
  intros Hn. unfold Log2Floor, builtin_clz.
  replace (n =? 0) with false by lia.
  assert (0 ≤ Z.log2 n < 32) as Hl.
  { split; [apply Z.log2_nonneg|]. apply Z.log2_lt_pow2; lia. }
  revert Hl. generalize (Z.log2 n). intros l Hl.
  apply Z.eqb_eq. by_range (λ l, Z.lxor 31 (31 - l) =? l) 0 32.
Qed.

(** After the steps for [i >= k], the value is below [2^(2^k)] and the logarithm
    of [n] is [log] plus that of the value. *)
Lemma Log2Floor_loop_spec k value log :
  0 < value < 2 ^ 2 ^ Z.of_nat k →
  Log2Floor_loop k value log = (1, log + Z.log2 value).
Proof.
  revert value log. induction k as [|i IH]; intros value log Hv; simpl.
  - assert (value = 1) as -> by (cbn in Hv; lia). f_equal. rewrite Z.log2_1. lia.
  - rewrite Z.shiftl_1_l, Z.shiftr_div_pow2 by lia.
    set (h := 2 ^ Z.of_nat i). assert (0 < h) by (unfold h; lia).
    assert (2 ^ 2 ^ Z.of_nat (S i) = 2 ^ h * 2 ^ h) as E.
    { rewrite <-Z.pow_add_r by lia. f_equal. unfold h.
      rewrite Nat2Z.inj_succ, Z.pow_succ_r by lia. lia. }
    rewrite E in Hv. assert (0 < 2 ^ h) by lia.
    destruct (Z.eqb_spec (value / 2 ^ h) 0) as [E0|E0].
    + apply IH. split; [lia|]. apply Z.div_small_iff in E0; fold h; lia.
    + rewrite IH.
      * f_equal. assert (0 < value / 2 ^ h).
        { pose proof (Z.div_pos value (2 ^ h)). lia. }
        rewrite <-Z.add_assoc. f_equal.
        rewrite <-Z.shiftr_div_pow2, Z.log2_shiftr by lia.
        assert (h ≤ Z.log2 value); [|lia].
        apply (proj1 (Z.log2_le_pow2 value h ltac:(lia))).
        destruct (Z.le_gt_cases (2 ^ h) value) as [|Hlt]; [done|].
        rewrite Z.div_small in E0; lia.
      * fold h. assert (value / 2 ^ h < 2 ^ h) by (apply Z.div_lt_upper_bound; lia).
        pose proof (Z.div_pos value (2 ^ h)). lia.
Qed.

Lemma Log2Floor_portable_eq n : 0 ≤ n < 2 ^ 32 → Log2Floor_portable n = Some (Log2Floor n).
Proof.
  intros Hn. unfold Log2Floor_portable.
  destruct (Z.eqb_spec n 0) as [->|Hne]; [done|].
  rewrite Log2Floor_loop_spec by (cbn; lia). rewrite Log2Floor_log2 by lia. done.
Qed.

(** [n & (n - 1)] is zero for the powers of two and for 0 only. *)
Lemma land_pred_zero n : 0 < n → Z.land n (n - 1) = 0 ↔ n = 2 ^ Z.log2 n.
Proof.
  intros Hn. pose proof (Z.log2_spec n Hn) as [Hlo Hhi].
  pose proof (Z.log2_nonneg n) as Hl. split.
  - intros E. destruct (Z.eq_dec n (2 ^ Z.log2 n)) as [|Hne]; [done|exfalso].
    assert (Z.testbit (Z.land n (n - 1)) (Z.log2 n) = true); [|by rewrite E, Z.bits_0 in *].
    rewrite Z.land_spec, Z.bit_log2 by lia. simpl.
    assert (Z.log2 (n - 1) = Z.log2 n) as <- by (apply Z.log2_unique; lia).
    apply Z.bit_log2. lia.
  - intros E. clear Hlo Hhi. revert E Hl. generalize (Z.log2 n). intros l -> Hl.
    assert (2 ^ l - 1 = Z.ones l) as -> by (rewrite Z.ones_equiv; lia).
    rewrite Z.land_ones by lia. apply Z.mod_same. lia.
Qed.

Lemma Log2Ceiling_spec n :
  0 < n < 2 ^ 32 → 2 ^ (Log2Ceiling n - 1) < n ≤ 2 ^ Log2Ceiling n ∨ n = 1 ∧ Log2Ceiling n = 0.
Proof.
  intros Hn. unfold Log2Ceiling. rewrite Log2Floor_log2 by done.
  pose proof (Z.log2_spec n) as [Hlo Hhi]; [lia|]. pose proof (Z.log2_nonneg n) as Hl.
  rewrite (wrap_small 32 (n - 1)) by (unfold is_word; lia).
  pose proof (land_pred_zero n) as Hp.
  destruct (Z.eqb_spec (Z.land n (n - 1)) 0) as [E|E].
  - apply Hp in E; [|lia]. destruct (Z.eq_dec (Z.log2 n) 0) as [E0|E0].
    + right. rewrite E0 in *. split; [|done]. rewrite E. done.
    + left. split; [|lia].
      assert (2 ^ (Z.log2 n - 1) < 2 ^ Z.log2 n); [|lia]. apply Z.pow_lt_mono_r; lia.
  - left. replace (Z.log2 n + 1 - 1) with (Z.log2 n) by lia. split; [|lia].
    destruct (Z.eq_dec n (2 ^ Z.log2 n)) as [E'|]; [|lia].
    apply Hp in E'; [done|lia].
Qed.

Lemma config_asserts cfg : kMaxSize_ratio_ok cfg = true ∧ kMinMmapAlloc_ok cfg = true.
Proof. on_config cfg; by vm_compute. Qed.

(** [pages] rounds up: the pages hold the bytes, and one page fewer does not. *)
Lemma pages_spec cfg bytes :
  is_word 64 bytes →
  bytes ≤ pages cfg bytes * kPageSize cfg < bytes + kPageSize cfg.
Proof.
  intros Hb. unfold pages.
  assert (kPageSize cfg = 2 ^ kPageShift cfg ∧ 12 ≤ kPageShift cfg) as [E Hs].
  { on_config cfg; by vm_compute. }
  rewrite E, Z.shiftr_div_pow2 by lia.
  set (sh := kPageShift cfg) in *. assert (0 < 2 ^ sh) by lia.
  assert (2 ^ sh - 1 = Z.ones sh) as -> by (rewrite Z.ones_equiv; lia).
  rewrite Z.land_ones by lia.
  pose proof (Z.div_mod bytes (2 ^ sh)). pose proof (Z.mod_pos_bound bytes (2 ^ sh)).
  assert (0 ≤ bytes / 2 ^ sh < 2 ^ 63).
  { unfold is_word in Hb. split; [apply Z.div_pos; lia|]. apply Z.div_lt_upper_bound; [lia|].
    assert (2 ^ 12 ≤ 2 ^ sh) by (apply Z.pow_le_mono_r; lia). lia. }
  rewrite wrap_small by (unfold is_word; destruct (0 <? _); lia).
  destruct (Z.ltb_spec 0 (bytes mod 2 ^ sh)); lia.
Qed.
