(* ===== verification/TcSizeClasses.v ===== *)
(** * tcmalloc: the tables of size classes

    The tables of size_classes.cc, experimental_56_size_class.cc and
    experimental_4k_size_class.cc, one definition per branch of the
    preprocessor conditions: the page shift, and whether the default alignment
    of [operator new] is at most 8 ([new8]) or not ([new16]).  A row is the
    largest size of the class, the pages of a span, and the size of a batch. *)

From S2P Require Import Prelude.
From S2P Require Import TcCommon.

(** ** size_classes.cc: the default classes *)

Definition kSizeClasses_new8_13 : list SizeClassInfo :=
  [
    info 0 0 0; info 8 1 32; info 16 1 32; info 24 1 32; info 32 1 32; info 40 1 32;
    info 48 1 32; info 56 1 32; info 64 1 32; info 72 1 32; info 80 1 32; info 88 1 32;
    info 96 1 32; info 104 1 32; info 112 1 32; info 120 1 32; info 128 1 32; info 136 1 32;
    info 144 1 32; info 160 1 32; info 176 1 32; info 192 1 32; info 208 1 32; info 224 1 32;
    info 240 1 32; info 256 1 32; info 272 1 32; info 288 1 32; info 312 1 32; info 336 1 32;
    info 352 1 32; info 384 1 32; info 408 1 32; info 424 1 32; info 448 1 32; info 480 1 32;
    info 512 1 32; info 576 1 32; info 640 1 32; info 704 1 32; info 768 1 32; info 896 1 32;
    info 1024 1 32; info 1152 2 32; info 1280 2 32; info 1408 2 32; info 1536 2 32;
    info 1792 2 32; info 2048 2 32; info 2304 2 28; info 2688 2 24; info 3200 2 20;
    info 3456 3 18; info 3584 4 18; info 4096 2 16; info 4736 3 13; info 5376 2 12;
    info 6144 3 10; info 6528 4 10; info 7168 7 9; info 8192 2 8; info 9472 5 6; info 10240 4 6;
    info 12288 3 5; info 14336 7 4; info 16384 2 4; info 20480 5 3; info 24576 3 2;
    info 28672 7 2; info 32768 4 2; info 40960 5 2; info 49152 6 2; info 57344 7 2;
    info 65536 8 2; info 73728 9 2; info 81920 10 2; info 98304 12 2; info 106496 13 2;
    info 114688 14 2; info 131072 16 2; info 147456 18 2; info 163840 20 2; info 180224 22 2;
    info 204800 25 2; info 229376 28 2; info 262144 32 2
  ].

Definition kSizeClasses_new8_15 : list SizeClassInfo :=
  [
    info 0 0 0; info 8 1 32; info 16 1 32; info 24 1 32; info 32 1 32; info 40 1 32;
    info 48 1 32; info 56 1 32; info 64 1 32; info 72 1 32; info 80 1 32; info 88 1 32;
    info 96 1 32; info 104 1 32; info 112 1 32; info 120 1 32; info 128 1 32; info 144 1 32;
    info 160 1 32; info 176 1 32; info 192 1 32; info 208 1 32; info 224 1 32; info 240 1 32;
    info 256 1 32; info 280 1 32; info 304 1 32; info 336 1 32; info 368 1 32; info 416 1 32;
    info 464 1 32; info 512 1 32; info 576 1 32; info 640 1 32; info 704 1 32; info 832 1 32;
    info 896 1 32; info 1024 1 32; info 1152 1 32; info 1280 1 32; info 1408 1 32;
    info 1536 1 32; info 1792 1 32; info 2048 1 32; info 2176 1 30; info 2432 1 26;
    info 2688 1 24; info 2944 1 22; info 3200 1 20; info 3584 1 18; info 4096 1 16;
    info 4608 1 14; info 5376 1 12; info 6528 1 10; info 8192 1 8; info 9344 2 7;
    info 10880 1 6; info 13056 2 5; info 13952 3 4; info 16384 1 4; info 19072 3 3;
    info 21760 2 3; info 24576 3 2; info 28032 6 2; info 32768 1 2; info 38144 5 2;
    info 40960 4 2; info 49152 3 2; info 57344 7 2; info 65536 2 2; info 81920 5 2;
    info 98304 3 2; info 114688 7 2; info 131072 4 2; info 163840 5 2; info 196608 6 2;
    info 229376 7 2; info 262144 8 2
  ].

Definition kSizeClasses_new8_18 : list SizeClassInfo :=
  [
    info 0 0 0; info 8 1 32; info 16 1 32; info 24 1 32; info 32 1 32; info 40 1 32;
    info 48 1 32; info 56 1 32; info 64 1 32; info 72 1 32; info 80 1 32; info 88 1 32;
    info 96 1 32; info 104 1 32; info 112 1 32; info 128 1 32; info 144 1 32; info 160 1 32;
    info 176 1 32; info 192 1 32; info 216 1 32; info 232 1 32; info 256 1 32; info 288 1 32;
    info 304 1 32; info 320 1 32; info 344 1 32; info 384 1 32; info 416 1 32; info 464 1 32;
    info 512 1 32; info 576 1 32; info 640 1 32; info 704 1 32; info 832 1 32; info 960 1 32;
    info 1024 1 32; info 1152 1 32; info 1280 1 32; info 1408 1 32; info 1664 1 32;
    info 1792 1 32; info 1920 1 32; info 2048 1 32; info 2176 1 30; info 2304 1 28;
    info 2432 1 26; info 2688 1 24; info 2944 1 22; info 3328 1 19; info 3584 1 18;
    info 4096 1 16; info 4736 1 13; info 5120 1 12; info 5504 1 11; info 5760 1 11;
    info 6144 1 10; info 6528 1 10; info 7168 1 9; info 8192 1 8; info 8704 1 7; info 9600 1 6;
    info 10880 1 6; info 11904 1 5; info 13056 1 5; info 14464 1 4; info 16384 1 4;
    info 18688 1 3; info 21760 1 3; info 23808 1 2; info 26112 1 2; info 29056 1 2;
    info 32768 1 2; info 37376 1 2; info 43648 1 2; info 45568 2 2; info 52352 1 2;
    info 56064 2 2; info 65536 1 2; info 74880 2 2; info 87296 1 2; info 104832 2 2;
    info 112256 3 2; info 131072 1 2; info 149760 3 2; info 174720 2 2; info 196608 3 2;
    info 209664 4 2; info 262144 1 2
  ].

Definition kSizeClasses_new8_12 : list SizeClassInfo :=
  [
    info 0 0 0; info 8 1 32; info 16 1 32; info 24 1 32; info 32 1 32; info 40 1 32;
    info 48 1 32; info 56 1 32; info 64 1 32; info 72 1 32; info 80 1 32; info 96 1 32;
    info 104 1 32; info 112 1 32; info 128 1 32; info 144 1 32; info 160 1 32; info 176 1 32;
    info 192 1 32; info 208 1 32; info 240 1 32; info 272 1 32; info 288 1 32; info 312 1 32;
    info 336 1 32; info 408 1 32; info 448 1 32; info 512 1 32; info 576 2 32; info 640 2 32;
    info 704 2 32; info 896 2 32; info 1024 2 32; info 1152 3 32; info 1280 3 32;
    info 1536 3 32; info 1792 4 32; info 2048 4 32; info 2304 4 28; info 2688 4 24;
    info 3200 4 20; info 4096 4 16; info 4736 5 13; info 6144 3 10; info 7168 7 9; info 8192 4 8
  ].

Definition kSizeClasses_new16_13 : list SizeClassInfo :=
  [
    info 0 0 0; info 8 1 32; info 16 1 32; info 32 1 32; info 48 1 32; info 64 1 32;
    info 80 1 32; info 96 1 32; info 112 1 32; info 128 1 32; info 144 1 32; info 160 1 32;
    info 176 1 32; info 192 1 32; info 208 1 32; info 224 1 32; info 240 1 32; info 256 1 32;
    info 272 1 32; info 288 1 32; info 304 1 32; info 320 1 32; info 336 1 32; info 352 1 32;
    info 368 1 32; info 384 1 32; info 400 1 32; info 416 1 32; info 448 1 32; info 480 1 32;
    info 512 1 32; info 576 1 32; info 640 1 32; info 704 1 32; info 768 1 32; info 896 1 32;
    info 1024 1 32; info 1152 2 32; info 1280 2 32; info 1408 2 32; info 1536 2 32;
    info 1792 2 32; info 2048 2 32; info 2304 2 28; info 2688 2 24; info 2816 3 23;
    info 3200 2 20; info 3456 3 18; info 3584 4 18; info 4096 2 16; info 4736 3 13;
    info 5376 2 12; info 6144 3 10; info 6528 4 10; info 6784 5 9; info 7168 7 9; info 8192 2 8;
    info 9472 5 6; info 10240 4 6; info 12288 3 5; info 13568 5 4; info 14336 7 4;
    info 16384 2 4; info 20480 5 3; info 24576 3 2; info 28672 7 2; info 32768 4 2;
    info 40960 5 2; info 49152 6 2; info 57344 7 2; info 65536 8 2; info 73728 9 2;
    info 81920 10 2; info 90112 11 2; info 98304 12 2; info 106496 13 2; info 114688 14 2;
    info 131072 16 2; info 139264 17 2; info 155648 19 2; info 172032 21 2; info 196608 24 2;
    info 204800 25 2; info 221184 27 2; info 245760 30 2; info 262144 32 2
  ].

Definition kSizeClasses_new16_15 : list SizeClassInfo :=
  [
    info 0 0 0; info 8 1 32; info 16 1 32; info 32 1 32; info 48 1 32; info 64 1 32;
    info 80 1 32; info 96 1 32; info 112 1 32; info 128 1 32; info 144 1 32; info 160 1 32;
    info 176 1 32; info 192 1 32; info 208 1 32; info 224 1 32; info 240 1 32; info 256 1 32;
    info 272 1 32; info 288 1 32; info 304 1 32; info 336 1 32; info 368 1 32; info 400 1 32;
    info 416 1 32; info 464 1 32; info 512 1 32; info 576 1 32; info 640 1 32; info 704 1 32;
    info 768 1 32; info 832 1 32; info 896 1 32; info 960 1 32; info 1024 1 32; info 1152 1 32;
    info 1280 1 32; info 1408 1 32; info 1536 1 32; info 1664 1 32; info 1920 1 32;
    info 2048 1 32; info 2176 1 30; info 2304 1 28; info 2432 1 26; info 2688 1 24;
    info 2944 1 22; info 3200 1 20; info 3584 1 18; info 4096 1 16; info 4608 1 14;
    info 5376 1 12; info 6528 1 10; info 7168 2 9; info 8192 1 8; info 9344 2 7; info 10880 1 6;
    info 13056 2 5; info 13952 3 4; info 16384 1 4; info 19072 3 3; info 21760 2 3;
    info 24576 3 2; info 28032 6 2; info 32768 1 2; info 38144 5 2; info 40960 4 2;
    info 49152 3 2; info 57344 7 2; info 65536 2 2; info 81920 5 2; info 98304 3 2;
    info 114688 7 2; info 131072 4 2; info 163840 5 2; info 196608 6 2; info 229376 7 2;
    info 262144 8 2
  ].

Definition kSizeClasses_new16_18 : list SizeClassInfo :=
  [
    info 0 0 0; info 8 1 32; info 16 1 32; info 32 1 32; info 48 1 32; info 64 1 32;
    info 80 1 32; info 96 1 32; info 112 1 32; info 128 1 32; info 144 1 32; info 160 1 32;
    info 176 1 32; info 192 1 32; info 208 1 32; info 224 1 32; info 240 1 32; info 256 1 32;
    info 288 1 32; info 304 1 32; info 320 1 32; info 352 1 32; info 384 1 32; info 416 1 32;
    info 464 1 32; info 512 1 32; info 576 1 32; info 640 1 32; info 704 1 32; info 832 1 32;
    info 960 1 32; info 1024 1 32; info 1152 1 32; info 1280 1 32; info 1408 1 32;
    info 1536 1 32; info 1664 1 32; info 1792 1 32; info 1920 1 32; info 2048 1 32;
    info 2176 1 30; info 2304 1 28; info 2432 1 26; info 2688 1 24; info 2944 1 22;
    info 3328 1 19; info 3584 1 18; info 4096 1 16; info 4736 1 13; info 5120 1 12;
    info 5504 1 11; info 5760 1 11; info 6144 1 10; info 6528 1 10; info 7168 1 9;
    info 7680 1 8; info 8192 1 8; info 8704 1 7; info 9344 1 7; info 9984 1 6; info 10880 1 6;
    info 11904 1 5; info 13056 1 5; info 14464 1 4; info 16384 1 4; info 17408 1 3;
    info 18688 1 3; info 20096 1 3; info 21760 1 3; info 23808 1 2; info 26112 1 2;
    info 29056 1 2; info 32768 1 2; info 37376 1 2; info 43648 1 2; info 45568 2 2;
    info 52352 1 2; info 56064 2 2; info 65536 1 2; info 74880 2 2; info 87296 1 2;
    info 104832 2 2; info 112256 3 2; info 131072 1 2; info 149760 3 2; info 174720 2 2;
    info 196608 3 2; info 209664 4 2; info 262144 1 2
  ].

Definition kSizeClasses_new16_12 : list SizeClassInfo :=
  [
    info 0 0 0; info 8 1 32; info 16 1 32; info 32 1 32; info 48 1 32; info 64 1 32;
    info 80 1 32; info 96 1 32; info 112 1 32; info 128 1 32; info 144 1 32; info 160 1 32;
    info 176 1 32; info 192 1 32; info 208 1 32; info 224 1 32; info 240 1 32; info 256 1 32;
    info 272 1 32; info 288 1 32; info 304 1 32; info 336 1 32; info 368 1 32; info 400 1 32;
    info 448 1 32; info 512 1 32; info 576 2 32; info 640 2 32; info 704 2 32; info 768 2 32;
    info 896 2 32; info 1024 2 32; info 1152 3 32; info 1280 3 32; info 1536 3 32;
    info 1792 4 32; info 2048 4 32; info 2304 4 28; info 2688 4 24; info 3200 4 20;
    info 3584 7 18; info 4096 4 16; info 4736 5 13; info 6144 3 10; info 7168 7 9; info 8192 4 8
  ].

(** ** experimental_56_size_class.cc: the classes of the experiment TCMALLOC_SANS_56_SIZECLASS *)

Definition kExperimentalSizeClasses_new8_13 : list SizeClassInfo :=
  [
    info 0 0 0; info 8 1 32; info 16 1 32; info 24 1 32; info 32 1 32; info 40 1 32;
    info 48 1 32; info 64 1 32; info 72 1 32; info 80 1 32; info 88 1 32; info 96 1 32;
    info 104 1 32; info 112 1 32; info 120 1 32; info 128 1 32; info 136 1 32; info 144 1 32;
    info 160 1 32; info 176 1 32; info 192 1 32; info 208 1 32; info 224 1 32; info 240 1 32;
    info 256 1 32; info 272 1 32; info 288 1 32; info 312 1 32; info 336 1 32; info 352 1 32;
    info 384 1 32; info 408 1 32; info 424 1 32; info 448 1 32; info 480 1 32; info 512 1 32;
    info 576 1 32; info 640 1 32; info 704 1 32; info 768 1 32; info 896 1 32; info 1024 1 32;
    info 1152 2 32; info 1280 2 32; info 1408 2 32; info 1536 2 32; info 1792 2 32;
    info 2048 2 32; info 2304 2 28; info 2688 2 24; info 2816 3 23; info 3200 2 20;
    info 3456 3 18; info 3584 4 18; info 4096 2 16; info 4736 3 13; info 5376 2 12;
    info 6144 3 10; info 6528 4 10; info 7168 7 9; info 8192 2 8; info 9472 5 6; info 10240 4 6;
    info 12288 3 5; info 14336 7 4; info 16384 2 4; info 20480 5 3; info 24576 3 2;
    info 28672 7 2; info 32768 4 2; info 40960 5 2; info 49152 6 2; info 57344 7 2;
    info 65536 8 2; info 73728 9 2; info 81920 10 2; info 98304 12 2; info 106496 13 2;
    info 114688 14 2; info 131072 16 2; info 147456 18 2; info 163840 20 2; info 180224 22 2;
    info 204800 25 2; info 229376 28 2; info 262144 32 2
  ].

Definition kExperimentalSizeClasses_new8_15 : list SizeClassInfo :=
  [
    info 0 0 0; info 8 1 32; info 16 1 32; info 24 1 32; info 32 1 32; info 40 1 32;
    info 48 1 32; info 64 1 32; info 72 1 32; info 80 1 32; info 88 1 32; info 96 1 32;
    info 104 1 32; info 112 1 32; info 120 1 32; info 128 1 32; info 144 1 32; info 160 1 32;
    info 176 1 32; info 192 1 32; info 208 1 32; info 224 1 32; info 240 1 32; info 256 1 32;
    info 280 1 32; info 304 1 32; info 336 1 32; info 368 1 32; info 416 1 32; info 464 1 32;
    info 512 1 32; info 576 1 32; info 640 1 32; info 704 1 32; info 832 1 32; info 896 1 32;
    info 1024 1 32; info 1152 1 32; info 1280 1 32; info 1408 1 32; info 1536 1 32;
    info 1792 1 32; info 2048 1 32; info 2176 1 30; info 2432 1 26; info 2688 1 24;
    info 2944 1 22; info 3200 1 20; info 3584 1 18; info 4096 1 16; info 4608 1 14;
    info 5376 1 12; info 6528 1 10; info 7168 2 9; info 8192 1 8; info 9344 2 7; info 10880 1 6;
    info 13056 2 5; info 13952 3 4; info 16384 1 4; info 19072 3 3; info 21760 2 3;
    info 24576 3 2; info 28032 6 2; info 32768 1 2; info 38144 5 2; info 40960 4 2;
    info 49152 3 2; info 57344 7 2; info 65536 2 2; info 81920 5 2; info 98304 3 2;
    info 114688 7 2; info 131072 4 2; info 163840 5 2; info 196608 6 2; info 229376 7 2;
    info 262144 8 2
  ].

Definition kExperimentalSizeClasses_new8_18 : list SizeClassInfo :=
  [
    info 0 0 0; info 8 1 32; info 16 1 32; info 24 1 32; info 32 1 32; info 40 1 32;
    info 48 1 32; info 64 1 32; info 72 1 32; info 80 1 32; info 88 1 32; info 96 1 32;
    info 104 1 32; info 112 1 32; info 128 1 32; info 144 1 32; info 160 1 32; info 176 1 32;
    info 192 1 32; info 216 1 32; info 232 1 32; info 256 1 32; info 288 1 32; info 304 1 32;
    info 320 1 32; info 344 1 32; info 384 1 32; info 416 1 32; info 464 1 32; info 512 1 32;
    info 576 1 32; info 640 1 32; info 704 1 32; info 832 1 32; info 960 1 32; info 1024 1 32;
    info 1152 1 32; info 1280 1 32; info 1408 1 32; info 1664 1 32; info 1792 1 32;
    info 1920 1 32; info 2048 1 32; info 2176 1 30; info 2304 1 28; info 2432 1 26;
    info 2688 1 24; info 2944 1 22; info 3328 1 19; info 3584 1 18; info 4096 1 16;
    info 4736 1 13; info 5120 1 12; info 5504 1 11; info 5760 1 11; info 6144 1 10;
    info 6528 1 10; info 7168 1 9; info 7680 1 8; info 8192 1 8; info 8704 1 7; info 9600 1 6;
    info 10880 1 6; info 11904 1 5; info 13056 1 5; info 14464 1 4; info 16384 1 4;
    info 18688 1 3; info 21760 1 3; info 23808 1 2; info 26112 1 2; info 29056 1 2;
    info 32768 1 2; info 37376 1 2; info 43648 1 2; info 45568 2 2; info 52352 1 2;
    info 56064 2 2; info 65536 1 2; info 74880 2 2; info 87296 1 2; info 104832 2 2;
    info 112256 3 2; info 131072 1 2; info 149760 3 2; info 174720 2 2; info 196608 3 2;
    info 209664 4 2; info 262144 1 2
  ].

Definition kExperimentalSizeClasses_new8_12 : list SizeClassInfo :=
  [
    info 0 0 0; info 8 1 32; info 16 1 32; info 24 1 32; info 32 1 32; info 40 1 32;
    info 48 1 32; info 64 1 32; info 72 1 32; info 80 1 32; info 96 1 32; info 104 1 32;
    info 112 1 32; info 120 1 32; info 128 1 32; info 144 1 32; info 160 1 32; info 176 1 32;
    info 192 1 32; info 208 1 32; info 240 1 32; info 272 1 32; info 288 1 32; info 312 1 32;
    info 336 1 32; info 408 1 32; info 448 1 32; info 512 1 32; info 576 2 32; info 640 2 32;
    info 704 2 32; info 896 2 32; info 1024 2 32; info 1152 3 32; info 1280 3 32;
    info 1536 3 32; info 1792 4 32; info 2048 4 32; info 2304 4 28; info 2688 4 24;
    info 3200 4 20; info 4096 4 16; info 4736 5 13; info 6144 3 10; info 7168 7 9; info 8192 4 8
  ].

Definition kExperimentalSizeClasses_new16_13 : list SizeClassInfo :=
  [
    info 0 0 0; info 8 1 32; info 16 1 32; info 32 1 32; info 48 1 32; info 64 1 32;
    info 80 1 32; info 96 1 32; info 112 1 32; info 128 1 32; info 144 1 32; info 160 1 32;
    info 176 1 32; info 192 1 32; info 208 1 32; info 224 1 32; info 240 1 32; info 256 1 32;
    info 272 1 32; info 288 1 32; info 304 1 32; info 320 1 32; info 336 1 32; info 352 1 32;
    info 368 1 32; info 384 1 32; info 400 1 32; info 416 1 32; info 448 1 32; info 480 1 32;
    info 512 1 32; info 576 1 32; info 640 1 32; info 704 1 32; info 768 1 32; info 896 1 32;
    info 1024 1 32; info 1152 2 32; info 1280 2 32; info 1408 2 32; info 1536 2 32;
    info 1792 2 32; info 2048 2 32; info 2304 2 28; info 2688 2 24; info 2816 3 23;
    info 3200 2 20; info 3456 3 18; info 3584 4 18; info 4096 2 16; info 4736 3 13;
    info 5376 2 12; info 6144 3 10; info 6528 4 10; info 6784 5 9; info 7168 7 9; info 8192 2 8;
    info 9472 5 6; info 10240 4 6; info 12288 3 5; info 13568 5 4; info 14336 7 4;
    info 16384 2 4; info 20480 5 3; info 24576 3 2; info 28672 7 2; info 32768 4 2;
    info 40960 5 2; info 49152 6 2; info 57344 7 2; info 65536 8 2; info 73728 9 2;
    info 81920 10 2; info 90112 11 2; info 98304 12 2; info 106496 13 2; info 114688 14 2;
    info 131072 16 2; info 139264 17 2; info 155648 19 2; info 172032 21 2; info 196608 24 2;
    info 204800 25 2; info 221184 27 2; info 245760 30 2; info 262144 32 2
  ].

Definition kExperimentalSizeClasses_new16_15 : list SizeClassInfo :=
  [
    info 0 0 0; info 8 1 32; info 16 1 32; info 32 1 32; info 48 1 32; info 64 1 32;
    info 80 1 32; info 96 1 32; info 112 1 32; info 128 1 32; info 144 1 32; info 160 1 32;
    info 176 1 32; info 192 1 32; info 208 1 32; info 224 1 32; info 240 1 32; info 256 1 32;
    info 272 1 32; info 288 1 32; info 304 1 32; info 336 1 32; info 368 1 32; info 400 1 32;
    info 416 1 32; info 464 1 32; info 512 1 32; info 576 1 32; info 640 1 32; info 704 1 32;
    info 768 1 32; info 832 1 32; info 896 1 32; info 960 1 32; info 1024 1 32; info 1152 1 32;
    info 1280 1 32; info 1408 1 32; info 1536 1 32; info 1664 1 32; info 1920 1 32;
    info 2048 1 32; info 2176 1 30; info 2304 1 28; info 2432 1 26; info 2688 1 24;
    info 2944 1 22; info 3200 1 20; info 3584 1 18; info 4096 1 16; info 4608 1 14;
    info 5376 1 12; info 6528 1 10; info 7168 2 9; info 8192 1 8; info 9344 2 7; info 10880 1 6;
    info 13056 2 5; info 13952 3 4; info 16384 1 4; info 19072 3 3; info 21760 2 3;
    info 24576 3 2; info 28032 6 2; info 32768 1 2; info 38144 5 2; info 40960 4 2;
    info 49152 3 2; info 57344 7 2; info 65536 2 2; info 81920 5 2; info 98304 3 2;
    info 114688 7 2; info 131072 4 2; info 163840 5 2; info 196608 6 2; info 229376 7 2;
    info 262144 8 2
  ].

Definition kExperimentalSizeClasses_new16_18 : list SizeClassInfo :=
  [
    info 0 0 0; info 8 1 32; info 16 1 32; info 32 1 32; info 48 1 32; info 64 1 32;
    info 80 1 32; info 96 1 32; info 112 1 32; info 128 1 32; info 144 1 32; info 160 1 32;
    info 176 1 32; info 192 1 32; info 208 1 32; info 224 1 32; info 240 1 32; info 256 1 32;
    info 288 1 32; info 304 1 32; info 320 1 32; info 352 1 32; info 384 1 32; info 416 1 32;
    info 464 1 32; info 512 1 32; info 576 1 32; info 640 1 32; info 704 1 32; info 832 1 32;
    info 960 1 32; info 1024 1 32; info 1152 1 32; info 1280 1 32; info 1408 1 32;
    info 1536 1 32; info 1664 1 32; info 1792 1 32; info 1920 1 32; info 2048 1 32;
    info 2176 1 30; info 2304 1 28; info 2432 1 26; info 2688 1 24; info 2944 1 22;
    info 3328 1 19; info 3584 1 18; info 4096 1 16; info 4736 1 13; info 5120 1 12;
    info 5504 1 11; info 5760 1 11; info 6144 1 10; info 6528 1 10; info 7168 1 9;
    info 7680 1 8; info 8192 1 8; info 8704 1 7; info 9344 1 7; info 9984 1 6; info 10880 1 6;
    info 11904 1 5; info 13056 1 5; info 14464 1 4; info 16384 1 4; info 17408 1 3;
    info 18688 1 3; info 20096 1 3; info 21760 1 3; info 23808 1 2; info 26112 1 2;
    info 29056 1 2; info 32768 1 2; info 37376 1 2; info 43648 1 2; info 45568 2 2;
    info 52352 1 2; info 56064 2 2; info 65536 1 2; info 74880 2 2; info 87296 1 2;
    info 104832 2 2; info 112256 3 2; info 131072 1 2; info 149760 3 2; info 174720 2 2;
    info 196608 3 2; info 209664 4 2; info 262144 1 2
  ].

Definition kExperimentalSizeClasses_new16_12 : list SizeClassInfo :=
  [
    info 0 0 0; info 8 1 32; info 16 1 32; info 32 1 32; info 48 1 32; info 64 1 32;
    info 80 1 32; info 96 1 32; info 112 1 32; info 128 1 32; info 144 1 32; info 160 1 32;
    info 176 1 32; info 192 1 32; info 208 1 32; info 224 1 32; info 240 1 32; info 256 1 32;
    info 272 1 32; info 288 1 32; info 304 1 32; info 336 1 32; info 368 1 32; info 400 1 32;
    info 448 1 32; info 512 1 32; info 576 2 32; info 640 2 32; info 704 2 32; info 768 2 32;
    info 896 2 32; info 1024 2 32; info 1152 3 32; info 1280 3 32; info 1536 3 32;
    info 1792 4 32; info 2048 4 32; info 2304 4 28; info 2688 4 24; info 3200 4 20;
    info 3584 7 18; info 4096 4 16; info 4736 5 13; info 6144 3 10; info 7168 7 9; info 8192 4 8
  ].

(** ** experimental_4k_size_class.cc: the classes of the experiment TCMALLOC_4K_SIZE_CLASS *)

Definition kExperimental4kSizeClasses_new8_13 : list SizeClassInfo :=
  [
    info 0 0 0; info 8 1 32; info 16 1 32; info 24 1 32; info 32 1 32; info 40 1 32;
    info 48 1 32; info 56 1 32; info 64 1 32; info 72 1 32; info 80 1 32; info 88 1 32;
    info 96 1 32; info 104 1 32; info 112 1 32; info 120 1 32; info 128 1 32; info 136 1 32;
    info 144 1 32; info 160 1 32; info 176 1 32; info 192 1 32; info 208 1 32; info 224 1 32;
    info 240 1 32; info 256 1 32; info 272 1 32; info 288 1 32; info 312 1 32; info 336 1 32;
    info 352 1 32; info 384 1 32; info 408 1 32; info 424 1 32; info 448 1 32; info 480 1 32;
    info 512 1 32; info 576 1 32; info 640 1 32; info 704 1 32; info 768 1 32; info 896 1 32;
    info 1024 1 32; info 1152 2 32; info 1280 2 32; info 1408 2 32; info 1536 2 32;
    info 1792 2 32; info 2048 2 32; info 2304 2 28; info 2688 2 24; info 3200 2 20;
    info 3456 3 18; info 3584 4 18; info 4096 1 16; info 4736 3 13; info 5376 2 12;
    info 6144 3 10; info 6528 4 10; info 7168 7 9; info 8192 1 8; info 9472 5 6; info 10240 4 6;
    info 12288 3 5; info 14336 7 4; info 16384 2 4; info 20480 5 3; info 24576 3 2;
    info 28672 7 2; info 32768 4 2; info 40960 5 2; info 49152 6 2; info 57344 7 2;
    info 65536 8 2; info 73728 9 2; info 81920 10 2; info 98304 12 2; info 106496 13 2;
    info 114688 14 2; info 131072 16 2; info 147456 18 2; info 163840 20 2; info 180224 22 2;
    info 204800 25 2; info 229376 28 2; info 262144 32 2
  ].

Definition kExperimental4kSizeClasses_new8_15 : list SizeClassInfo :=
  [
    info 0 0 0; info 8 1 32; info 16 1 32; info 24 1 32; info 32 1 32; info 40 1 32;
    info 48 1 32; info 56 1 32; info 64 1 32; info 72 1 32; info 80 1 32; info 88 1 32;
    info 96 1 32; info 104 1 32; info 112 1 32; info 120 1 32; info 128 1 32; info 144 1 32;
    info 160 1 32; info 176 1 32; info 192 1 32; info 208 1 32; info 224 1 32; info 240 1 32;
    info 256 1 32; info 280 1 32; info 304 1 32; info 336 1 32; info 368 1 32; info 416 1 32;
    info 464 1 32; info 512 1 32; info 576 1 32; info 640 1 32; info 704 1 32; info 832 1 32;
    info 896 1 32; info 1024 1 32; info 1152 1 32; info 1280 1 32; info 1408 1 32;
    info 1536 1 32; info 1792 1 32; info 2048 1 32; info 2176 1 30; info 2432 1 26;
    info 2688 1 24; info 2944 1 22; info 3200 1 20; info 3584 1 18; info 4096 1 16;
    info 4608 1 14; info 5376 1 12; info 6528 1 10; info 8192 1 8; info 9344 2 7;
    info 10880 1 6; info 13056 2 5; info 13952 3 4; info 16384 1 4; info 19072 3 3;
    info 21760 2 3; info 24576 3 2; info 28032 6 2; info 32768 1 2; info 38144 5 2;
    info 40960 4 2; info 49152 3 2; info 57344 7 2; info 65536 2 2; info 81920 5 2;
    info 98304 3 2; info 114688 7 2; info 131072 4 2; info 163840 5 2; info 196608 6 2;
    info 229376 7 2; info 262144 8 2
  ].

Definition kExperimental4kSizeClasses_new8_18 : list SizeClassInfo :=
  [
    info 0 0 0; info 8 1 32; info 16 1 32; info 24 1 32; info 32 1 32; info 40 1 32;
    info 48 1 32; info 56 1 32; info 64 1 32; info 72 1 32; info 80 1 32; info 88 1 32;
    info 96 1 32; info 104 1 32; info 112 1 32; info 128 1 32; info 144 1 32; info 160 1 32;
    info 176 1 32; info 192 1 32; info 216 1 32; info 232 1 32; info 256 1 32; info 288 1 32;
    info 304 1 32; info 320 1 32; info 344 1 32; info 384 1 32; info 416 1 32; info 464 1 32;
    info 512 1 32; info 576 1 32; info 640 1 32; info 704 1 32; info 832 1 32; info 960 1 32;
    info 1024 1 32; info 1152 1 32; info 1280 1 32; info 1408 1 32; info 1664 1 32;
    info 1792 1 32; info 1920 1 32; info 2048 1 32; info 2176 1 30; info 2304 1 28;
    info 2432 1 26; info 2688 1 24; info 2944 1 22; info 3328 1 19; info 3584 1 18;
    info 4096 1 16; info 4736 1 13; info 5120 1 12; info 5504 1 11; info 5760 1 11;
    info 6144 1 10; info 6528 1 10; info 7168 1 9; info 8192 1 8; info 8704 1 7; info 9600 1 6;
    info 10880 1 6; info 11904 1 5; info 13056 1 5; info 14464 1 4; info 16384 1 4;
    info 18688 1 3; info 21760 1 3; info 23808 1 2; info 26112 1 2; info 29056 1 2;
    info 32768 1 2; info 37376 1 2; info 43648 1 2; info 45568 2 2; info 52352 1 2;
    info 56064 2 2; info 65536 1 2; info 74880 2 2; info 87296 1 2; info 104832 2 2;
    info 112256 3 2; info 131072 1 2; info 149760 3 2; info 174720 2 2; info 196608 3 2;
    info 209664 4 2; info 262144 1 2
  ].

Definition kExperimental4kSizeClasses_new8_12 : list SizeClassInfo :=
  [
    info 0 0 0; info 8 1 32; info 16 1 32; info 24 1 32; info 32 1 32; info 40 1 32;
    info 48 1 32; info 56 1 32; info 64 1 32; info 72 1 32; info 80 1 32; info 96 1 32;
    info 104 1 32; info 112 1 32; info 128 1 32; info 144 1 32; info 160 1 32; info 176 1 32;
    info 192 1 32; info 208 1 32; info 240 1 32; info 272 1 32; info 288 1 32; info 312 1 32;
    info 336 1 32; info 408 1 32; info 448 1 32; info 512 1 32; info 576 2 32; info 640 2 32;
    info 704 2 32; info 896 2 32; info 1024 2 32; info 1152 3 32; info 1280 3 32;
    info 1536 3 32; info 1792 4 32; info 2048 4 32; info 2304 4 28; info 2688 4 24;
    info 3200 4 20; info 4096 4 16; info 4736 5 13; info 6144 3 10; info 7168 7 9; info 8192 4 8
  ].

Definition kExperimental4kSizeClasses_new16_13 : list SizeClassInfo :=
  [
    info 0 0 0; info 8 1 32; info 16 1 32; info 32 1 32; info 48 1 32; info 64 1 32;
    info 80 1 32; info 96 1 32; info 112 1 32; info 128 1 32; info 144 1 32; info 160 1 32;
    info 176 1 32; info 192 1 32; info 208 1 32; info 224 1 32; info 240 1 32; info 256 1 32;
    info 272 1 32; info 288 1 32; info 304 1 32; info 320 1 32; info 336 1 32; info 352 1 32;
    info 368 1 32; info 384 1 32; info 400 1 32; info 416 1 32; info 448 1 32; info 480 1 32;
    info 512 1 32; info 576 1 32; info 640 1 32; info 704 1 32; info 768 1 32; info 896 1 32;
    info 1024 1 32; info 1152 2 32; info 1280 2 32; info 1408 2 32; info 1536 2 32;
    info 1792 2 32; info 2048 2 32; info 2304 2 28; info 2688 2 24; info 2816 3 23;
    info 3200 2 20; info 3456 3 18; info 3584 4 18; info 4096 1 16; info 4736 3 13;
    info 5376 2 12; info 6144 3 10; info 6528 4 10; info 6784 5 9; info 7168 7 9; info 8192 1 8;
    info 9472 5 6; info 10240 4 6; info 12288 3 5; info 13568 5 4; info 14336 7 4;
    info 16384 2 4; info 20480 5 3; info 24576 3 2; info 28672 7 2; info 32768 4 2;
    info 40960 5 2; info 49152 6 2; info 57344 7 2; info 65536 8 2; info 73728 9 2;
    info 81920 10 2; info 90112 11 2; info 98304 12 2; info 106496 13 2; info 114688 14 2;
    info 131072 16 2; info 139264 17 2; info 155648 19 2; info 172032 21 2; info 196608 24 2;
    info 204800 25 2; info 221184 27 2; info 245760 30 2; info 262144 32 2
  ].

Definition kExperimental4kSizeClasses_new16_15 : list SizeClassInfo :=
  [
    info 0 0 0; info 8 1 32; info 16 1 32; info 32 1 32; info 48 1 32; info 64 1 32;
    info 80 1 32; info 96 1 32; info 112 1 32; info 128 1 32; info 144 1 32; info 160 1 32;
    info 176 1 32; info 192 1 32; info 208 1 32; info 224 1 32; info 240 1 32; info 256 1 32;
    info 272 1 32; info 288 1 32; info 304 1 32; info 336 1 32; info 368 1 32; info 400 1 32;
    info 416 1 32; info 464 1 32; info 512 1 32; info 576 1 32; info 640 1 32; info 704 1 32;
    info 768 1 32; info 832 1 32; info 896 1 32; info 960 1 32; info 1024 1 32; info 1152 1 32;
    info 1280 1 32; info 1408 1 32; info 1536 1 32; info 1664 1 32; info 1920 1 32;
    info 2048 1 32; info 2176 1 30; info 2304 1 28; info 2432 1 26; info 2688 1 24;
    info 2944 1 22; info 3200 1 20; info 3584 1 18; info 4096 1 16; info 4608 1 14;
    info 5376 1 12; info 6528 1 10; info 7168 2 9; info 8192 1 8; info 9344 2 7; info 10880 1 6;
    info 13056 2 5; info 13952 3 4; info 16384 1 4; info 19072 3 3; info 21760 2 3;
    info 24576 3 2; info 28032 6 2; info 32768 1 2; info 38144 5 2; info 40960 4 2;
    info 49152 3 2; info 57344 7 2; info 65536 2 2; info 81920 5 2; info 98304 3 2;
    info 114688 7 2; info 131072 4 2; info 163840 5 2; info 196608 6 2; info 229376 7 2;
    info 262144 8 2
  ].

Definition kExperimental4kSizeClasses_new16_18 : list SizeClassInfo :=
  [
    info 0 0 0; info 8 1 32; info 16 1 32; info 32 1 32; info 48 1 32; info 64 1 32;
    info 80 1 32; info 96 1 32; info 112 1 32; info 128 1 32; info 144 1 32; info 160 1 32;
    info 176 1 32; info 192 1 32; info 208 1 32; info 224 1 32; info 240 1 32; info 256 1 32;
    info 288 1 32; info 304 1 32; info 320 1 32; info 352 1 32; info 384 1 32; info 416 1 32;
    info 464 1 32; info 512 1 32; info 576 1 32; info 640 1 32; info 704 1 32; info 832 1 32;
    info 960 1 32; info 1024 1 32; info 1152 1 32; info 1280 1 32; info 1408 1 32;
    info 1536 1 32; info 1664 1 32; info 1792 1 32; info 1920 1 32; info 2048 1 32;
    info 2176 1 30; info 2304 1 28; info 2432 1 26; info 2688 1 24; info 2944 1 22;
    info 3328 1 19; info 3584 1 18; info 4096 1 16; info 4736 1 13; info 5120 1 12;
    info 5504 1 11; info 5760 1 11; info 6144 1 10; info 6528 1 10; info 7168 1 9;
    info 7680 1 8; info 8192 1 8; info 8704 1 7; info 9344 1 7; info 9984 1 6; info 10880 1 6;
    info 11904 1 5; info 13056 1 5; info 14464 1 4; info 16384 1 4; info 17408 1 3;
    info 18688 1 3; info 20096 1 3; info 21760 1 3; info 23808 1 2; info 26112 1 2;
    info 29056 1 2; info 32768 1 2; info 37376 1 2; info 43648 1 2; info 45568 2 2;
    info 52352 1 2; info 56064 2 2; info 65536 1 2; info 74880 2 2; info 87296 1 2;
    info 104832 2 2; info 112256 3 2; info 131072 1 2; info 149760 3 2; info 174720 2 2;
    info 196608 3 2; info 209664 4 2; info 262144 1 2
  ].

Definition kExperimental4kSizeClasses_new16_12 : list SizeClassInfo :=
  [
    info 0 0 0; info 8 1 32; info 16 1 32; info 32 1 32; info 48 1 32; info 64 1 32;
    info 80 1 32; info 96 1 32; info 112 1 32; info 128 1 32; info 144 1 32; info 160 1 32;
    info 176 1 32; info 192 1 32; info 208 1 32; info 224 1 32; info 240 1 32; info 256 1 32;
    info 272 1 32; info 288 1 32; info 304 1 32; info 336 1 32; info 368 1 32; info 400 1 32;
    info 448 1 32; info 512 1 32; info 576 2 32; info 640 2 32; info 704 2 32; info 768 2 32;
    info 896 2 32; info 1024 2 32; info 1152 3 32; info 1280 3 32; info 1536 3 32;
    info 1792 4 32; info 2048 4 32; info 2304 4 28; info 2688 4 24; info 3200 4 20;
    info 3584 7 18; info 4096 4 16; info 4736 5 13; info 6144 3 10; info 7168 7 9; info 8192 4 8
  ].

(** ** The tables of a configuration *)

Definition kSizeClasses (cfg : config) : list SizeClassInfo :=
  if new_align_8 cfg then
    match shift cfg with
    | Shift12 => kSizeClasses_new8_12
    | Shift13 => kSizeClasses_new8_13
    | Shift15 => kSizeClasses_new8_15
    | Shift18 => kSizeClasses_new8_18
    end
  else
    match shift cfg with
    | Shift12 => kSizeClasses_new16_12
    | Shift13 => kSizeClasses_new16_13
    | Shift15 => kSizeClasses_new16_15
    | Shift18 => kSizeClasses_new16_18
    end.

Definition kExperimentalSizeClasses (cfg : config) : list SizeClassInfo :=
  if new_align_8 cfg then
    match shift cfg with
    | Shift12 => kExperimentalSizeClasses_new8_12
    | Shift13 => kExperimentalSizeClasses_new8_13
    | Shift15 => kExperimentalSizeClasses_new8_15
    | Shift18 => kExperimentalSizeClasses_new8_18
    end
  else
    match shift cfg with
    | Shift12 => kExperimentalSizeClasses_new16_12
    | Shift13 => kExperimentalSizeClasses_new16_13
    | Shift15 => kExperimentalSizeClasses_new16_15
    | Shift18 => kExperimentalSizeClasses_new16_18
    end.

Definition kExperimental4kSizeClasses (cfg : config) : list SizeClassInfo :=
  if new_align_8 cfg then
    match shift cfg with
    | Shift12 => kExperimental4kSizeClasses_new8_12
    | Shift13 => kExperimental4kSizeClasses_new8_13
    | Shift15 => kExperimental4kSizeClasses_new8_15
    | Shift18 => kExperimental4kSizeClasses_new8_18
    end
  else
    match shift cfg with
    | Shift12 => kExperimental4kSizeClasses_new16_12
    | Shift13 => kExperimental4kSizeClasses_new16_13
    | Shift15 => kExperimental4kSizeClasses_new16_15
    | Shift18 => kExperimental4kSizeClasses_new16_18
    end.
