(* ===== verification/TcExperiment.v ===== *)
(** * tcmalloc: experiments

    experiment_config.h and experiment.cc: the experiments, how the environment
    variables BORG_EXPERIMENTS and BORG_DISABLE_EXPERIMENTS select them, and the
    reports of the selection.  A [string_view] is the list of its characters;
    the environment is a function from names to values. *)

From S2P Require Import Prelude.
From S2P Require Import CString.

Abbreviation string_view := (list ascii).

(** The characters of a literal. *)
Definition lit (s : string) : string_view := String.list_ascii_of_string s.

(** ** experiment_config.h *)

Inductive Experiment :=
  | TCMALLOC_TEMERAIRE
  | TCMALLOC_SANS_56_SIZECLASS
  | TCMALLOC_ARBITRARY_TRANSFER_CACHE
  | TCMALLOC_LARGE_NUM_TO_MOVE
  | TCMALLOC_PARTIAL_RELEASE
  | TCMALLOC_4K_SIZE_CLASS.

#[export] Instance Experiment_eq : EqDecision Experiment.
Proof. solve_decision. Defined.

(** [static_cast<int>(id)]. *)
Definition exp_id (e : Experiment) : nat :=
  match e with
  | TCMALLOC_TEMERAIRE => 0
  | TCMALLOC_SANS_56_SIZECLASS => 1
  | TCMALLOC_ARBITRARY_TRANSFER_CACHE => 2
  | TCMALLOC_LARGE_NUM_TO_MOVE => 3
  | TCMALLOC_PARTIAL_RELEASE => 4
  | TCMALLOC_4K_SIZE_CLASS => 5
  end.

Definition kNumExperiments : nat := 6.

Record ExperimentConfig := mk_exp { cfg_id : Experiment; cfg_name : string_view }.

Definition experiments : list ExperimentConfig :=
  [ mk_exp TCMALLOC_TEMERAIRE (lit "TCMALLOC_TEMERAIRE");
    mk_exp TCMALLOC_SANS_56_SIZECLASS (lit "TCMALLOC_SANS_56_SIZECLASS");
    mk_exp TCMALLOC_ARBITRARY_TRANSFER_CACHE (lit "TCMALLOC_ARBITRARY_TRANSFER_CACHE");
    mk_exp TCMALLOC_LARGE_NUM_TO_MOVE (lit "TCMALLOC_LARGE_NUM_TO_MOVE");
    mk_exp TCMALLOC_PARTIAL_RELEASE (lit "TCMALLOC_PARTIAL_RELEASE");
    mk_exp TCMALLOC_4K_SIZE_CLASS (lit "TCMALLOC_4K_SIZE_CLASS") ].

(** ** experiment.cc *)

Definition kDelimiter : ascii := ","%char.
Definition kExperiments : string := "BORG_EXPERIMENTS".
Definition kDisableExperiments : string := "BORG_DISABLE_EXPERIMENTS".
Definition kDisableAll : string_view := lit "all".

Fixpoint LookupExperimentID_in (l : list ExperimentConfig) (label : string_view)
    : option Experiment :=
  match l with
  | [] => None
  | config :: l =>
      if decide (cfg_name config = label) then Some (cfg_id config)
      else LookupExperimentID_in l label
  end.
Definition LookupExperimentID : string_view → option Experiment :=
  LookupExperimentID_in experiments.

(** [labels.find(c, pos)]; [None] is [npos]. *)
Fixpoint find_char (c : ascii) (l : string_view) : option nat :=
  match l with
  | [] => None
  | x :: l => if decide (x = c) then Some 0%nat else S <$> find_char c l
  end.
Definition sv_find (labels : string_view) (c : ascii) (pos : nat) : option nat :=
  Nat.add pos <$> find_char c (drop pos labels).

(** The loop of [ParseExperiments]; [f] acts on a state. *)
Fixpoint ParseExperiments_loop {S} (fuel : nat) (labels : string_view)
    (f : string_view → S → S) (pos : nat) (s : S) : option S :=
  match fuel with
  | O => None
  | Datatypes.S fuel =>
      match sv_find labels kDelimiter pos with
      | None => Some (f (drop pos labels) s)
      | Some end_ =>
          ParseExperiments_loop fuel labels f (end_ + 1)%nat
            (f (take (end_ - pos) (drop pos labels)) s)
      end
  end.
Definition ParseExperiments {S} (labels : string_view) (f : string_view → S → S) (s : S)
    : option S :=
  ParseExperiments_loop (Datatypes.S (length labels)) labels f 0 s.

(** The lambdas: a known label sets its entry of the buffer. *)
Definition set_token (b : bool) (token : string_view) (buffer : list bool) : list bool :=
  match LookupExperimentID token with
  | Some id => <[exp_id id := b]> buffer
  | None => buffer
  end.

(** [memset(buffer, 0, ...)]. *)
Definition clear_buffer : list bool := replicate kNumExperiments false.

Definition SelectExperiments (active disabled : string_view) : option (list bool) :=
  buffer ← ParseExperiments active (set_token true) clear_buffer;
  ParseExperiments disabled (set_token false)
    (if decide (disabled = kDisableAll) then clear_buffer else buffer).

Section Environment.
(** [thread_safe_getenv] at the first call (the selection is static). *)
Context (getenv : string → option string_view).

Definition GetSelectedExperiments : option (list bool) :=
  SelectExperiments (default [] (getenv kExperiments)) (default [] (getenv kDisableExperiments)).

(** [None] would be an index outside of the buffer or a loop that does not end. *)
Definition IsExperimentActive (exp : Experiment) : option bool :=
  by_id ← GetSelectedExperiments; by_id !! exp_id exp.

(** [FillExperimentProperties]: the map from names to values. *)
Fixpoint FillExperimentProperties_in (l : list ExperimentConfig)
    (result : gmap string_view Z) : option (gmap string_view Z) :=
  match l with
  | [] => Some result
  | config :: l =>
      b ← IsExperimentActive (cfg_id config);
      let key := lit "tcmalloc.experiment." ++ cfg_name config in
      FillExperimentProperties_in l (<[key := if (b : bool) then 1 else 0]> result)
  end.
Definition FillExperimentProperties (result : gmap string_view Z)
    : option (gmap string_view Z) :=
  FillExperimentProperties_in experiments result.

(** [PrintExperiments]: what it prints. *)
Fixpoint PrintExperiments_in (by_id : list bool) (l : list ExperimentConfig)
    : option string_view :=
  match l with
  | [] => Some [newline]
  | config :: l =>
      b ← by_id !! exp_id (cfg_id config);
      rest ← PrintExperiments_in by_id l;
      Some (lit " " ++ cfg_name config ++ lit "=" ++ lit (if (b : bool) then "1" else "0") ++ rest)
  end.
Definition PrintExperiments : option string_view :=
  by_id ← GetSelectedExperiments;
  rest ← PrintExperiments_in by_id experiments;
  Some (lit "MALLOC EXPERIMENTS:" ++ rest).
End Environment.

Definition FindExperimentByName (name : string_view) : option Experiment :=
  LookupExperimentID_in experiments name.

(** ** Reference: splitting at the commas *)

Fixpoint split (c : ascii) (l : string_view) : list string_view :=
  match l with
  | [] => [[]]
  | x :: l =>
      if decide (x = c) then [] :: split c l
      else match split c l with
           | t :: ts => (x :: t) :: ts
           | [] => [[x]]
           end
  end.

Definition name_of (e : Experiment) : string_view :=
  match experiments !! exp_id e with Some config => cfg_name config | None => [] end.

(** ** Lemmas *)

Lemma split_nonempty c l : split c l ≠ [].
Proof. destruct l as [|x l]; simpl; [done|]. destruct (decide _); [done|]. by destruct (split c l). Qed.

Lemma split_find c l :
  match find_char c l with
  | None => split c l = [l]
  | Some n => split c l = take n l :: split c (drop (n + 1) l) ∧ (n < length l)%nat
  end.
Proof.
  induction l as [|x l IH]; simpl; [done|].
  destruct (decide (x = c)) as [->|]; simpl; [split; [done|lia]|].
  destruct (find_char c l) as [k|]; simpl; [|by rewrite IH].
  destruct IH as [-> ?]. split; [done|lia].
Qed.

(** [ParseExperiments] applies [f] to the pieces between the commas, in order. *)
Lemma ParseExperiments_loop_split {S} (f : string_view → S → S) fuel labels pos s :
  (pos ≤ length labels)%nat → (length labels - pos < fuel)%nat →
  ParseExperiments_loop fuel labels f pos s
    = Some (fold_left (λ s t, f t s) (split kDelimiter (drop pos labels)) s).
Proof.
  revert pos s. induction fuel as [|fuel IH]; intros pos s Hp Hf; [lia|]. simpl.
  unfold sv_find. pose proof (split_find kDelimiter (drop pos labels)) as H.
  rewrite length_drop in H.
  destruct (find_char _ _) as [k|]; simpl; [|by rewrite H].
  destruct H as [-> Hk]. rewrite IH by lia. simpl. rewrite drop_drop.
  replace (pos + k - pos)%nat with k by lia.
  by replace (pos + k + 1)%nat with (pos + (k + 1))%nat by lia.
Qed.

Lemma ParseExperiments_split {S} (f : string_view → S → S) labels s :
  ParseExperiments labels f s = Some (fold_left (λ s t, f t s) (split kDelimiter labels) s).
Proof. unfold ParseExperiments. by rewrite ParseExperiments_loop_split by lia. Qed.

Lemma lookup_name e : LookupExperimentID (name_of e) = Some e.
Proof. by destruct e. Qed.

Lemma lookup_experiment t e : LookupExperimentID t = Some e ↔ t = name_of e.
Proof.
  split; [|intros ->; apply lookup_name].
  unfold LookupExperimentID, experiments. cbn [LookupExperimentID_in cfg_name cfg_id].
  intros H. repeat (case_decide; [subst; by injection H as <-|]). done.
Qed.

Lemma exp_id_inj e e' : exp_id e = exp_id e' → e = e'.
Proof. by destruct e, e'. Qed.

(** The entry of [e] after the tokens [l] have been set to [b]. *)
Lemma set_tokens b l buffer e :
  length buffer = kNumExperiments →
  fold_left (λ s t, set_token b t s) l buffer !! exp_id e
    = (if decide (name_of e ∈ l) then Some b else buffer !! exp_id e).
Proof.
  revert buffer. induction l as [|t l IH]; intros buffer Hb; simpl.
  { done. }
  assert (length (set_token b t buffer) = kNumExperiments) as Hl.
  { unfold set_token. destruct (LookupExperimentID t); [|done]. by rewrite length_insert. }
  rewrite IH by done. destruct (decide (name_of e ∈ l)) as [Hin|Hin].
  { by rewrite decide_True by set_solver. }
  unfold set_token. destruct (LookupExperimentID t) as [e'|] eqn:E.
  - apply lookup_experiment in E as ->. destruct (decide (e = e')) as [->|Hne].
    + rewrite decide_True by set_solver. apply list_lookup_insert_eq.
      rewrite Hb. destruct e'; simpl; unfold kNumExperiments; lia.
    + rewrite list_lookup_insert_ne by (intros H; by apply exp_id_inj in H).
      rewrite decide_False; [done|]. rewrite elem_of_cons. intros [H|H]; [|done].
      apply Hne. apply (f_equal LookupExperimentID) in H. rewrite !lookup_name in H. congruence.
  - rewrite decide_False; [done|]. rewrite elem_of_cons. intros [<-|H]; [|done].
    by rewrite lookup_name in E.
Qed.

Lemma set_tokens_length b l buffer :
  length (fold_left (λ s t, set_token b t s) l buffer) = length buffer.
Proof.
  revert buffer. induction l as [|t l IH]; intros buffer; simpl; [done|]. rewrite IH.
  unfold set_token. destruct (LookupExperimentID t); [by rewrite length_insert|done].
Qed.

Lemma clear_buffer_lookup e : clear_buffer !! exp_id e = Some false.
Proof. by destruct e. Qed.

(** The selection is defined, and an experiment is active exactly if its name is
    a piece of the active list, is not a piece of the disabled list, and the
    disabled list is not "all". *)
Lemma select_experiments_spec active disabled e :
  ∃ by_id, SelectExperiments active disabled = Some by_id ∧
    length by_id = kNumExperiments ∧
    by_id !! exp_id e = Some (bool_decide (name_of e ∈ split kDelimiter active ∧
      name_of e ∉ split kDelimiter disabled ∧ disabled ≠ kDisableAll)).
Proof.
  unfold SelectExperiments. rewrite ParseExperiments_split. simpl.
  rewrite ParseExperiments_split. eexists. split; [done|].
  set (l := fold_left _ _ clear_buffer).
  assert (length l = kNumExperiments) as Hl by (unfold l; by rewrite set_tokens_length).
  assert (length (if decide (disabled = kDisableAll) then clear_buffer else l)
    = kNumExperiments) as Hd by by destruct (decide _).
  split; [by rewrite set_tokens_length|]. rewrite set_tokens by done.
  destruct (decide (name_of e ∈ split kDelimiter disabled)).
  { rewrite bool_decide_eq_false_2; [done|]. tauto. }
  destruct (decide (disabled = kDisableAll)).
  { rewrite bool_decide_eq_false_2 by tauto. apply clear_buffer_lookup. }
  unfold l. rewrite set_tokens by done. destruct (decide (name_of e ∈ split kDelimiter active)).
  - by rewrite bool_decide_eq_true_2.
  - rewrite bool_decide_eq_false_2 by tauto. apply clear_buffer_lookup.
Qed.

(** The environment decides whether an experiment is active. *)
Definition active_in (getenv : string → option string_view) (e : Experiment) : bool :=
  let active := default [] (getenv kExperiments) in
  let disabled := default [] (getenv kDisableExperiments) in
  bool_decide (name_of e ∈ split kDelimiter active ∧
    name_of e ∉ split kDelimiter disabled ∧ disabled ≠ kDisableAll).

(** The experiments of the environment: IsExperimentActive ends, reads inside
    of its buffer, and says of an experiment that it is active exactly if its
    name is one of the comma-separated pieces of BORG_EXPERIMENTS, is not one of
    those of BORG_DISABLE_EXPERIMENTS, and the latter is not the word all.  The
    names are found by FindExperimentByName, and nothing else is. *)
Theorem experiments_selected getenv e :
  IsExperimentActive getenv e = Some (active_in getenv e) ∧
  ∀ name, FindExperimentByName name = Some e ↔ name = name_of e.
Proof.
  split; [|intros name; apply lookup_experiment].
  unfold IsExperimentActive, GetSelectedExperiments.
  destruct (select_experiments_spec (default [] (getenv kExperiments))
    (default [] (getenv kDisableExperiments)) e) as (by_id & -> & _ & H).
  exact H.
Qed.
