(* ===== verification/TcSizeMap.v ===== *)
(** * tcmalloc: the map from sizes to size classes

    [SizeMap] of common.h and common.cc, and the size classes that can be given
    in the environment (runtime_size_classes.cc).  The state is the four arrays
    of the class; a failed check, a crash logged with [kCrash], an access outside
    of an array and a signed overflow are [Fault] (or [None]). *)

From S2P Require Import Prelude.
From S2P Require Import CString.
From S2P Require Import TcCommon.
From S2P Require Import TcSizeClasses.
From S2P Require Import TcExperiment.

(** ** runtime_size_classes.cc *)

Definition zero_info : SizeClassInfo := info 0 0 0.

(** A character of the environment variable. *)
Definition code (e : ascii) : Z := Z.of_N (N_of_ascii e).

(** The loop of [ParseSizeClasses]: [c] is the class and [t] the member being
    read.  The result is the returned number and the array. *)
Fixpoint ParseSizeClasses_loop (max_size max_classes : Z) (env : string_view) (c t : Z)
    (parsed : list SizeClassInfo) : option (Z * list SizeClassInfo) :=
  match env with
  | [] => Some (c + 1, parsed)
  | e :: env =>
      if (48 <=? code e) && (code e <=? 57) then
        let n := code e - 48 in
        sc ← get_at parsed c;
        x ← Value sc t;
        let v := 10 * x + n in
        if bool_decide (- 2 ^ 31 ≤ v < 2 ^ 31) then
          if max_size <? v then Some (-3, parsed)
          else
            sc' ← SetValue sc t (u64 v);
            parsed' ← put_at parsed c sc';
            ParseSizeClasses_loop max_size max_classes env c t parsed'
        else None
      else if code e =? 59 then
        if max_classes <=? c + 1 then Some (c + 1, parsed)
        else ParseSizeClasses_loop max_size max_classes env (c + 1) 0 parsed
      else if code e =? 44 then
        if kSizeClassInfoMembers <=? t + 1 then Some (-1, parsed)
        else ParseSizeClasses_loop max_size max_classes env c (t + 1) parsed
      else Some (-2, parsed)
  end.

(** The array has [max_classes] entries, which are zeroed. *)
Definition ParseSizeClasses (env : string_view) (max_size max_classes : Z)
    : option (Z * list SizeClassInfo) :=
  ParseSizeClasses_loop max_size max_classes env 1 0
    (replicate (Z.to_nat max_classes) zero_info).

(** ** The state *)

Record SizeMap := mk_map {
  class_array_ : list Z;
  num_objects_to_move_ : list Z;
  class_to_pages_ : list Z;
  class_to_size_ : list Z;
}.

(** Writing an entry of each array; the element types are [unsigned char],
    [unsigned char], [unsigned char] and [uint32_t]. *)
Definition set_class_array (i v : Z) : ST SizeMap unit :=
  l ← gets class_array_; l ← from_opt (put_at l i (wrap 8 v));
  modify (λ m, mk_map l (num_objects_to_move_ m) (class_to_pages_ m) (class_to_size_ m)).
Definition set_num_objects (i v : Z) : ST SizeMap unit :=
  l ← gets num_objects_to_move_; l ← from_opt (put_at l i (wrap 8 v));
  modify (λ m, mk_map (class_array_ m) l (class_to_pages_ m) (class_to_size_ m)).
Definition set_class_pages (i v : Z) : ST SizeMap unit :=
  l ← gets class_to_pages_; l ← from_opt (put_at l i (wrap 8 v));
  modify (λ m, mk_map (class_array_ m) (num_objects_to_move_ m) l (class_to_size_ m)).
Definition set_class_size (i v : Z) : ST SizeMap unit :=
  l ← gets class_to_size_; l ← from_opt (put_at l i (u32 v));
  modify (λ m, mk_map (class_array_ m) (num_objects_to_move_ m) (class_to_pages_ m) l).

(** ** SizeMap *)

Definition kMultiPageSize : Z := 512.
Definition kMultiPageAlignment : Z := 64.
Definition kMultiPageAlignmentShift : Z := Log2Ceiling kMultiPageAlignment.
Definition kMaxSmallSize : Z := 1024.

Section SizeMap.
Context (cfg : config).

Definition kClassArraySize : Z := ((kMaxSize cfg + 127 + (120 ≪ 7)) ≫ 7) + 1.

Definition ClassIndexMaybe (s : Z) : option Z :=
  if s <=? kMaxSmallSize then Some (u32 (u32 s + 7) ≫ 3)
  else if s <=? kMaxSize cfg then Some (u32 (u32 s + 127 + (120 ≪ 7)) ≫ 7)
  else None.

(** [None] is the failed [CHECK_CONDITION]. *)
Definition ClassIndex (s : Z) : option Z := ClassIndexMaybe s.

(** [ValidSizeClasses]: the checks of class [c] (the log lines are left out). *)
Definition valid_class (parsed : list SizeClassInfo) (c : Z) : option bool :=
  sc ← get_at parsed c;
  prev ← get_at parsed (c - 1);
  let class_size := sc_size sc in
  let pages := sc_pages sc in
  let num_objects_to_move := num_to_move sc in
  let alignment :=
    if class_size <=? kMultiPageSize then kAlignment
    else if class_size <=? kMaxSmallSize then kMultiPageAlignment else 128 in
  Some (if class_size <=? sc_size prev then false
        else if kMaxSize cfg <? class_size then false
        else if negb (Z.land class_size (alignment - 1) =? 0) then false
        else if (class_size <=? kMultiPageSize) && negb (pages =? 1) then false
        else if 256 <=? pages then false
        else if kMaxObjectsToMove <? num_objects_to_move then false
        else true).

(** The loop over [c], [n] rounds long. *)
Fixpoint valid_classes (n : nat) (parsed : list SizeClassInfo) (c : Z) : option bool :=
  match n with
  | O => Some true
  | S n =>
      b ← valid_class parsed c;
      if (b : bool) then valid_classes n parsed (c + 1) else Some false
  end.

Definition ValidSizeClasses (num_classes : Z) (parsed : list SizeClassInfo) : option bool :=
  if num_classes <=? 0 then Some false
  else
    b ← valid_classes (Z.to_nat (num_classes - 1)) parsed 1;
    if (b : bool) then
      last ← get_at parsed (num_classes - 1);
      Some (negb (sc_size last <? kMaxSize cfg))
    else Some false.

Section Environment.
Context (getenv : string → option string_view).

(** [IsExperimentActive] as a step. *)
Definition is_active (e : Experiment) : ST SizeMap bool :=
  from_opt (IsExperimentActive getenv e).

(** [SetSizeClasses]: the loop over the given classes, the loop that fills the
    others with the largest class, and the function. *)
Fixpoint set_given (n : nat) (parsed : list SizeClassInfo) (c : Z) : ST SizeMap unit :=
  match n with
  | O => mret tt
  | S n =>
      sc ← from_opt (get_at parsed c);
      set_class_size c (sc_size sc);;
      set_class_pages c (sc_pages sc);;
      set_num_objects c (num_to_move sc);;
      set_given n parsed (c + 1)
  end.

Fixpoint set_rest (n : nat) (x : Z) : ST SizeMap unit :=
  match n with
  | O => mret tt
  | S n =>
      last ← from_opt (get_at (kSizeClasses cfg) (kNumClasses cfg - 1));
      set_class_size x (sc_size last);;
      set_class_pages x (sc_pages last);;
      large ← is_active TCMALLOC_LARGE_NUM_TO_MOVE;
      let num :=
        if (large : bool) then Z.min kMaxObjectsToMove (u64 (4 * num_to_move last))
        else num_to_move last in
      set_num_objects x num;;
      set_rest n (x + 1)
  end.

Definition SetSizeClasses (num_classes : Z) (parsed : list SizeClassInfo) : ST SizeMap unit :=
  set_class_size 0 0;;
  set_class_pages 0 0;;
  set_num_objects 0 0;;
  set_given (Z.to_nat (num_classes - 1)) parsed 1;;
  set_rest (Z.to_nat (kNumClasses cfg - num_classes)) num_classes.

(** [MaybeSizeClassesFromEnv]: the number of classes and the array, which is
    left alone ([parsed]) if there is nothing to parse. *)
Definition MaybeSizeClassesFromEnv (max_size max_classes : Z) (parsed : list SizeClassInfo)
    : option (Z * list SizeClassInfo) :=
  if with_runtime cfg then
    match getenv "TCMALLOC_SIZE_CLASSES" with
    | None => Some (0, parsed)
    | Some e => ParseSizeClasses e max_size max_classes
    end
  else Some (-1, parsed).

(** [parsed] is an uninitialised local array. *)
Definition MaybeRunTimeSizeClasses (parsed : list SizeClassInfo) : ST SizeMap bool :=
  '(num_classes, parsed) ←
    from_opt (MaybeSizeClassesFromEnv (kMaxSize cfg) (kNumClasses cfg) parsed);
  valid ← from_opt (ValidSizeClasses num_classes parsed);
  if negb (valid : bool) then mret false
  else if negb (num_classes =? kNumClasses cfg) then mret false
  else SetSizeClasses num_classes parsed;; mret true.

(** [Init]: the inner loop ([s] up to [max_size_in_class]) and the outer one. *)
Fixpoint fill_class (fuel : nat) (c s max_size_in_class : Z) : ST SizeMap unit :=
  match fuel with
  | O => out_of_fuel
  | S fuel =>
      if s <=? max_size_in_class then
        i ← from_opt (ClassIndex s);
        set_class_array i c;;
        fill_class fuel c (s + kAlignment) max_size_in_class
      else mret tt
  end.

Definition fill_fuel : nat := Z.to_nat (kMaxSize cfg / kAlignment + 2).

Fixpoint fill_classes (n : nat) (c next_size : Z) : ST SizeMap unit :=
  match n with
  | O => mret tt
  | S n =>
      sz ← gets class_to_size_;
      x ← from_opt (get_at sz c);
      let max_size_in_class := i32 x in
      fill_class fill_fuel c next_size max_size_in_class;;
      let next_size := max_size_in_class + kAlignment in
      if kMaxSize cfg <? next_size then mret tt else fill_classes n (c + 1) next_size
  end.

Definition Init (parsed : list SizeClassInfo) : ST SizeMap unit :=
  i0 ← from_opt (ClassIndex 0);
  require (i0 =? 0);;
  im ← from_opt (ClassIndex (kMaxSize cfg));
  require (im <? kClassArraySize);;
  sans56 ← is_active TCMALLOC_SANS_56_SIZECLASS;
  (if (sans56 : bool) then SetSizeClasses (kNumClasses cfg) (kExperimentalSizeClasses cfg)
   else
     e4k ← is_active TCMALLOC_4K_SIZE_CLASS;
     if (e4k : bool) then SetSizeClasses (kNumClasses cfg) (kExperimental4kSizeClasses cfg)
     else SetSizeClasses (kNumClasses cfg) (kSizeClasses cfg));;
  MaybeRunTimeSizeClasses parsed;;
  fill_classes (Z.to_nat (kNumClasses cfg - 1)) 1 0.
End Environment.

(** *** Lookups; a failed [ASSERT] or an access outside of an array is [Fault] *)

Definition class_to_size (m : SizeMap) (cl : Z) : outcome Z :=
  match get_at (class_to_size_ m) cl with
  | Some x => if cl <? kNumClasses cfg then Done x else Fault
  | None => Fault
  end.

Definition class_to_pages (m : SizeMap) (cl : Z) : outcome Z :=
  match get_at (class_to_pages_ m) cl with
  | Some x => if cl <? kNumClasses cfg then Done x else Fault
  | None => Fault
  end.

Definition num_objects_to_move (m : SizeMap) (cl : Z) : outcome Z :=
  match get_at (num_objects_to_move_ m) cl with
  | Some x => if cl <? kNumClasses cfg then Done x else Fault
  | None => Fault
  end.

(** [GetSizeClass(size, &cl)]: [Some cl] is the result [true]. *)
Definition GetSizeClass (m : SizeMap) (size : Z) : outcome (option Z) :=
  match ClassIndexMaybe size with
  | Some idx =>
      match get_at (class_array_ m) idx with
      | Some cl => Done (Some cl)
      | None => Fault
      end
  | None => Done None
  end.

(** The loop of [GetSizeClass(size, align, &cl)]. *)
Fixpoint find_aligned (fuel : nat) (m : SizeMap) (mask cl : Z) : outcome (option Z) :=
  match fuel with
  | O => OutOfFuel
  | S fuel =>
      match class_to_size m cl with
      | Done x =>
          if Z.land x mask =? 0 then Done (Some cl)
          else if u32 (cl + 1) <? kNumClasses cfg then find_aligned fuel m mask (u32 (cl + 1))
          else Done None
      | Fault => Fault
      | OutOfFuel => OutOfFuel
      | Crashed => Crashed
      end
  end.

Definition GetSizeClass_aligned (m : SizeMap) (size align : Z) : outcome (option Z) :=
  if (0 <? align) && (Z.land align (align - 1) =? 0) then
    if kPageSize cfg <=? align then Done None
    else
      match GetSizeClass m size with
      | Done (Some cl) => find_aligned (Z.to_nat (kNumClasses cfg)) m (align - 1) cl
      | r => r
      end
  else Fault.

Definition SizeClass (m : SizeMap) (size : Z) : outcome Z :=
  if size <=? kMaxSize cfg then
    match GetSizeClass m size with
    | Done r => Done (default 0 r)
    | Fault => Fault
    | OutOfFuel => OutOfFuel
    | Crashed => Crashed
    end
  else Fault.
End SizeMap.
