(* ===== verification/TcSizeMapCorrect.v ===== *)
(** * tcmalloc: correctness of the size map

    The classes that pass [ValidSizeClasses], the loading of the classes
    into the arrays, and the table from sizes to classes. *)

From S2P Require Import Prelude.
From S2P Require Import CString.
From S2P Require Import TcCommon.
From S2P Require Import TcSizeClasses.
From S2P Require Import TcExperiment.
From S2P Require Import TcSizeMap.

(** ** Valid classes *)

Definition size_of (infos : list SizeClassInfo) (c : Z) : Z :=
  match get_at infos c with Some sc => sc_size sc | None => 0 end.
Definition pages_of (infos : list SizeClassInfo) (c : Z) : Z :=
  match get_at infos c with Some sc => sc_pages sc | None => 0 end.
Definition batch_of (infos : list SizeClassInfo) (c : Z) : Z :=
  match get_at infos c with Some sc => num_to_move sc | None => 0 end.

(** The members are of type [size_t]. *)
Definition typed_info (sc : SizeClassInfo) : Prop :=
  is_word 64 (sc_size sc) ∧ is_word 64 (sc_pages sc) ∧ is_word 64 (num_to_move sc).

(** The alignment of a class: 8 up to 1024 bytes, 128 above. *)
Definition granular (s : Z) : Prop := s mod 8 = 0 ∧ (1024 < s → s mod 128 = 0).

(** Classes that can be loaded: well-typed, one per class number, valid. *)
Definition good (cfg : config) (infos : list SizeClassInfo) : Prop :=
  length infos = Z.to_nat (kNumClasses cfg) ∧ Forall typed_info infos ∧
  ValidSizeClasses cfg (kNumClasses cfg) infos = Some true.

Lemma config_bounds cfg :
  46 ≤ kNumClasses cfg ≤ 89 ∧ (kMaxSize cfg = 8192 ∨ kMaxSize cfg = 262144) ∧
  kPageSize cfg ≤ kMaxSize cfg.
Proof. on_config cfg; vm_compute; intuition congruence. Qed.

Lemma mod8_of x k : 3 ≤ k → x mod 2 ^ k = 0 → x mod 8 = 0.
Proof.
  intros Hk H. apply Z.mod_divide; [lia|]. apply Z.divide_trans with (2 ^ k).
  - exists (2 ^ (k - 3)). change 8 with (2 ^ 3). rewrite <-Z.pow_add_r by lia. f_equal. lia.
  - apply Z.mod_divide; lia.
Qed.

Lemma valid_class_facts cfg infos c :
  valid_class cfg infos c = Some true →
  size_of infos (c - 1) < size_of infos c ≤ kMaxSize cfg ∧ granular (size_of infos c) ∧
  (size_of infos c ≤ 512 → pages_of infos c = 1) ∧ pages_of infos c < 256 ∧
  batch_of infos c ≤ 128.
Proof.
  unfold valid_class, size_of, pages_of, batch_of.
  destruct (get_at infos c) as [sc|]; simpl; [|done].
  destruct (get_at infos (c - 1)) as [prev|]; simpl; [|done].
  unfold kMultiPageSize, kAlignment, kMultiPageAlignment, kMaxSmallSize, kMaxObjectsToMove.
  intros H. injection H as H.
  repeat match type of H with (if ?b then _ else _) = _ => destruct b eqn:?; [done|] end.
  assert (granular (sc_size sc)).
  { unfold granular.
    destruct (sc_size sc <=? 512) eqn:E1; [|destruct (sc_size sc <=? 1024) eqn:E2].
    - change (8 - 1) with (2 ^ 3 - 1) in *. rewrite land_mask in * by lia.
      split; [apply (mod8_of _ 3); lia|lia].
    - change (64 - 1) with (2 ^ 6 - 1) in *. rewrite land_mask in * by lia.
      split; [|lia]. apply (mod8_of _ 6); lia.
    - change (128 - 1) with (2 ^ 7 - 1) in *. rewrite land_mask in * by lia.
      split; [apply (mod8_of _ 7); lia|]. change 128 with (2 ^ 7). lia. }
  split_and!; [lia|lia|done|intros; lia|lia|lia].
Qed.

Lemma valid_classes_facts cfg infos n c :
  valid_classes cfg n infos c = Some true →
  ∀ c', c ≤ c' < c + Z.of_nat n → valid_class cfg infos c' = Some true.
Proof.
  revert c. induction n as [|n IH]; intros c H c' Hc; [lia|]. simpl in H.
  destruct (valid_class cfg infos c) as [[]|] eqn:E; simpl in H; try done.
  destruct (decide (c' = c)) as [->|]; [done|]. apply (IH (c + 1)); [done|lia].
Qed.

Section Good.
Context (cfg : config) (infos : list SizeClassInfo) (Hgood : good cfg infos).

Lemma good_class c :
  1 ≤ c < kNumClasses cfg →
  size_of infos (c - 1) < size_of infos c ≤ kMaxSize cfg ∧ granular (size_of infos c) ∧
  (size_of infos c ≤ 512 → pages_of infos c = 1) ∧ pages_of infos c < 256 ∧
  batch_of infos c ≤ 128.
Proof.
  intros Hc. apply valid_class_facts. destruct Hgood as (_ & _ & H).
  unfold ValidSizeClasses in H. destruct (Z.leb_spec (kNumClasses cfg) 0); [done|].
  destruct (valid_classes _ _ _ _) as [[]|] eqn:E; simpl in H; try done.
  apply (valid_classes_facts _ _ _ _ E). lia.
Qed.

Lemma good_last : size_of infos (kNumClasses cfg - 1) = kMaxSize cfg.
Proof.
  pose proof (config_bounds cfg) as [HK _].
  pose proof (good_class (kNumClasses cfg - 1) ltac:(lia)) as [Hlt _].
  destruct Hgood as (_ & _ & H). unfold ValidSizeClasses in H.
  destruct (Z.leb_spec (kNumClasses cfg) 0); [done|].
  destruct (valid_classes _ _ _ _) as [[]|] eqn:E; simpl in H; try done.
  unfold size_of in *. destruct (get_at infos (kNumClasses cfg - 1)); simpl in H; [|done].
  injection H as H. lia.
Qed.

Lemma good_get c :
  0 ≤ c < kNumClasses cfg →
  ∃ sc, get_at infos c = Some sc ∧ sc_size sc = size_of infos c ∧
    sc_pages sc = pages_of infos c ∧ num_to_move sc = batch_of infos c ∧ typed_info sc.
Proof.
  intros Hc. destruct Hgood as (Hl & Ht & _).
  destruct (get_at_is_Some infos c) as [sc Hsc]; [lia|]. exists sc.
  unfold size_of, pages_of, batch_of. rewrite Hsc. repeat split_and; try done.
  unfold get_at in Hsc. destruct (0 <=? c); [|done]. by apply (Forall_lookup_1 _ _ _ _ Ht Hsc).
Qed.

Lemma good_mono c c' :
  0 ≤ c → c < c' → c' < kNumClasses cfg → size_of infos c < size_of infos c'.
Proof.
  intros Hc Hlt Hc'.
  assert (∀ n : nat, c + 1 + Z.of_nat n < kNumClasses cfg →
    size_of infos c < size_of infos (c + 1 + Z.of_nat n)) as H.
  { induction n as [|n IH]; intros Hn.
    - pose proof (good_class (c + 1 + Z.of_nat 0) ltac:(lia)) as [H _].
      replace (c + 1 + Z.of_nat 0 - 1) with c in H by lia. lia.
    - pose proof (good_class (c + 1 + Z.of_nat (S n)) ltac:(lia)) as [H _].
      replace (c + 1 + Z.of_nat (S n) - 1) with (c + 1 + Z.of_nat n) in H by lia.
      specialize (IH ltac:(lia)). lia. }
  specialize (H (Z.to_nat (c' - c - 1)) ltac:(lia)).
  by replace (c + 1 + Z.of_nat (Z.to_nat (c' - c - 1))) with c' in H by lia.
Qed.

Lemma good_pos c : 1 ≤ c < kNumClasses cfg → 0 < size_of infos c.
Proof.
  intros Hc. pose proof (good_class c Hc) as [[H _] _].
  destruct (good_get (c - 1)) as (sc & _ & E & _ & _ & Ht & _); [lia|].
  unfold is_word in Ht. lia.
Qed.
End Good.

(** ** Indices of the table *)

Definition index (s : Z) : Z := if s <=? 1024 then (s + 7) / 8 else (s + 127) / 128 + 120.

Lemma index_range cfg s : 0 ≤ s ≤ kMaxSize cfg → 0 ≤ index s < kClassArraySize cfg.
Proof.
  intros Hs. unfold index.
  assert (kClassArraySize cfg = kMaxSize cfg / 128 + 121 ∧ 8192 ≤ kMaxSize cfg) as [-> ?].
  { on_config cfg; by vm_compute. }
  destruct (Z.leb_spec s 1024).
  - split; [apply Z.div_pos; lia|]. apply Z.div_lt_upper_bound; [lia|].
    assert (64 ≤ kMaxSize cfg / 128) by (apply Z.div_le_lower_bound; lia). lia.
  - assert ((s + 127) / 128 ≤ (kMaxSize cfg + 127) / 128) by (apply Z.div_le_mono; lia).
    assert ((kMaxSize cfg + 127) / 128 = kMaxSize cfg / 128) by (on_config cfg; by vm_compute).
    pose proof (Z.div_pos (s + 127) 128). lia.
Qed.

Lemma ClassIndex_index cfg s : 0 ≤ s ≤ kMaxSize cfg → ClassIndexMaybe cfg s = Some (index s).
Proof.
  intros Hs. unfold ClassIndexMaybe, index, kMaxSmallSize.
  pose proof (config_bounds cfg) as (_ & Hm & _).
  rewrite (wrap_small 32 s) by (unfold is_word; lia).
  destruct (Z.leb_spec s 1024).
  - rewrite wrap_small by (unfold is_word; lia). by rewrite Z.shiftr_div_pow2 by lia.
  - replace (s <=? kMaxSize cfg) with true by lia.
    change (120 ≪ 7) with 15360. rewrite wrap_small by (unfold is_word; lia).
    rewrite Z.shiftr_div_pow2 by lia. f_equal. change (2 ^ 7) with 128.
    replace (s + 127 + 15360) with (s + 127 + 120 * 128) by lia. apply Z.div_add. lia.
Qed.

Lemma index_mono s s' : 0 ≤ s ≤ s' → index s ≤ index s'.
Proof.
  intros Hs. unfold index. destruct (Z.leb_spec s 1024), (Z.leb_spec s' 1024).
  - apply Z.div_le_mono; lia.
  - assert ((s + 7) / 8 < 129) by (apply Z.div_lt_upper_bound; lia).
    assert (9 ≤ (s' + 127) / 128) by (apply Z.div_le_lower_bound; lia). lia.
  - lia.
  - assert ((s + 127) / 128 ≤ (s' + 127) / 128) by (apply Z.div_le_mono; lia). lia.
Qed.

(** Sizes above a class size have larger indices. *)
Lemma index_boundary s s' : 0 ≤ s < s' → granular s → index s < index s'.
Proof.
  intros Hs [H8 H128]. unfold index. destruct (Z.leb_spec s 1024), (Z.leb_spec s' 1024).
  - apply Z.div_exact in H8; [|lia].
    assert ((s + 7) / 8 = s / 8) as -> by (symmetry; apply Z.div_unique with 7; lia).
    assert (s / 8 + 1 ≤ (s' + 7) / 8) by (apply Z.div_le_lower_bound; lia). lia.
  - assert ((s + 7) / 8 < 129) by (apply Z.div_lt_upper_bound; lia).
    assert (9 ≤ (s' + 127) / 128) by (apply Z.div_le_lower_bound; lia). lia.
  - lia.
  - specialize (H128 ltac:(lia)). apply Z.div_exact in H128; [|lia].
    assert ((s + 127) / 128 = s / 128) as -> by (symmetry; apply Z.div_unique with 127; lia).
    assert (s / 128 + 1 ≤ (s' + 127) / 128) by (apply Z.div_le_lower_bound; lia). lia.
Qed.

(** A size has the index of the next multiple of 8. *)
Definition round8 (s : Z) : Z := (s + 7) / 8 * 8.

Lemma round8_spec s : s ≤ round8 s < s + 8 ∧ round8 s mod 8 = 0.
Proof.
  unfold round8. pose proof (Z.div_mod (s + 7) 8). pose proof (Z.mod_pos_bound (s + 7) 8).
  split; [lia|]. apply Z.mod_mul. lia.
Qed.

Lemma round8_le s s' : s ≤ s' → s' mod 8 = 0 → round8 s ≤ s'.
Proof.
  intros Hs H8. pose proof (round8_spec s) as [H1 H2].
  apply Z.div_exact in H8, H2; lia.
Qed.

Lemma index_round8 s : 0 ≤ s → index (round8 s) = index s.
Proof.
  intros Hs. pose proof (round8_spec s) as [H1 H2]. unfold index.
  destruct (Z.leb_spec s 1024) as [Hle|Hgt].
  - pose proof (round8_le s 1024 Hle eq_refl).
    replace (round8 s <=? 1024) with true by lia.
    unfold round8. symmetry. apply Z.div_unique with 7; lia.
  - replace (round8 s <=? 1024) with false by lia. f_equal.
    apply Z.div_unique with (s + 127 - 128 * ((round8 s + 127) / 128)); [|lia].
    pose proof (Z.div_mod (round8 s + 127) 128).
    pose proof (Z.mod_pos_bound (round8 s + 127) 128).
    apply Z.div_exact in H2; [|lia].
    assert ((round8 s + 127) mod 128 mod 8 = 7) as E7.
    + rewrite <-Znumtheory.Zmod_div_mod; [|lia|lia|by exists 16].
      rewrite H2. replace (8 * (round8 s / 8) + 127) with (7 + (round8 s / 8 + 15) * 8) by lia.
      rewrite Z.mod_add by lia. done.
    + assert (7 ≤ (round8 s + 127) mod 128); [|lia].
      rewrite <-E7. apply Z.mod_le; lia.
Qed.

(** ** Loading the classes *)

Section Load.
Context (cfg : config) (getenv : string → option string_view).
Local Abbreviation K := (kNumClasses cfg).

(** The arrays have their declared lengths. *)
Definition sized (m : SizeMap) : Prop :=
  Z.of_nat (length (class_array_ m)) = kClassArraySize cfg ∧
  Z.of_nat (length (num_objects_to_move_ m)) = K ∧
  Z.of_nat (length (class_to_pages_ m)) = K ∧
  Z.of_nat (length (class_to_size_ m)) = K.

(** The entries of class [c] in the three arrays. *)
Definition entries (m : SizeMap) (c : Z) : option Z * option Z * option Z :=
  (get_at (class_to_size_ m) c, get_at (class_to_pages_ m) c, get_at (num_objects_to_move_ m) c).

Definition loads (sc : SizeClassInfo) : option Z * option Z * option Z :=
  (Some (u32 (sc_size sc)), Some (wrap 8 (sc_pages sc)), Some (wrap 8 (num_to_move sc))).

(** Writing the three entries of a class. *)
Lemma wp_set_entries c sc (k : ST SizeMap unit) Q m :
  sized m → 0 ≤ c < K →
  (∀ m', sized m' → class_array_ m' = class_array_ m →
    (∀ c', entries m' c' = if decide (c' = c) then loads sc else entries m c') →
    wp true k Q m') →
  wp true (set_class_size c (sc_size sc);; set_class_pages c (sc_pages sc);;
    set_num_objects c (num_to_move sc);; k) Q m.
Proof.
  intros (Ha & Hn & Hp & Hs) Hc Hk.
  unfold set_class_size, set_class_pages, set_num_objects.
  repeat wp_step; [apply put_at_Some; simpl; lia..|].
  apply Hk; simpl.
  - unfold sized. simpl. by rewrite !length_insert.
  - done.
  - intros c'. unfold entries, loads. simpl. rewrite !get_at_insert by lia.
    by destruct (decide (c = c')), (decide (c' = c)); try congruence.
Qed.

Lemma set_given_spec n infos c m :
  sized m → 0 ≤ c → c + Z.of_nat n ≤ K → Z.of_nat (length infos) = K →
  wp true (set_given n infos c) (λ _ m', sized m' ∧ class_array_ m' = class_array_ m ∧
    ∀ c', entries m' c' =
      if decide (c ≤ c' < c + Z.of_nat n)
      then match get_at infos c' with Some sc => loads sc | None => entries m c' end
      else entries m c') m.
Proof.
  revert c m. induction n as [|n IH]; intros c m Hm Hc Hn Hl; simpl.
  { wp_step. split_and!; [done..|]. intros c'. by rewrite decide_False by lia. }
  destruct (get_at_is_Some infos c) as [sc Hsc]; [lia|].
  wp_step. wp_step; [done|]. apply wp_set_entries; [done|lia|].
  intros m' Hm' Harr He. eapply wp_mono; [apply IH; [done|lia..]|].
  intros _ m'' (Hm'' & Harr'' & He''). split_and!; [done|congruence|].
  intros c'. rewrite He'', He. destruct (decide (c' = c)) as [->|Hne].
  - rewrite decide_False, decide_True by lia. by rewrite Hsc.
  - destruct (decide (c + 1 ≤ c' < c + 1 + Z.of_nat n)).
    + by rewrite decide_True by lia.
    + by rewrite decide_False by lia.
Qed.

(** The three arrays hold the classes. *)
Definition loaded (infos : list SizeClassInfo) (m : SizeMap) : Prop :=
  sized m ∧
  ∀ c, 0 ≤ c < K → entries m c =
    if decide (c = 0) then (Some 0, Some 0, Some 0)
    else (Some (size_of infos c), Some (pages_of infos c), Some (batch_of infos c)).

Lemma good_loads infos c sc :
  good cfg infos → 1 ≤ c < K → get_at infos c = Some sc →
  loads sc = (Some (size_of infos c), Some (pages_of infos c), Some (batch_of infos c)).
Proof.
  intros Hg Hc Hsc. destruct (good_get cfg infos Hg c) as (sc' & E & <- & <- & <- & Ht); [lia|].
  rewrite Hsc in E. injection E as <-.
  pose proof (good_class cfg infos Hg c Hc) as (H1 & _ & _ & H2 & H3).
  destruct Ht as (Ht1 & Ht2 & Ht3). pose proof (config_bounds cfg) as (_ & Hm & _).
  unfold size_of, pages_of, batch_of in *. rewrite Hsc in *. unfold is_word in *. unfold loads.
  rewrite !wrap_small by (unfold is_word; lia). done.
Qed.

(** Loading as many classes as there are leaves nothing to fill. *)
Lemma SetSizeClasses_spec infos m :
  sized m → good cfg infos →
  wp true (SetSizeClasses cfg getenv K infos) (λ _ m', loaded infos m') m.
Proof.
  intros Hm Hg. pose proof (config_bounds cfg) as (HK & _ & _).
  unfold SetSizeClasses. replace (K - K) with 0 by lia.
  apply (wp_set_entries 0 zero_info); [done|lia|]. intros m1 Hm1 _ He1.
  wp_step. eapply wp_mono; [apply set_given_spec; [done|lia|lia|]|].
  { destruct Hg as [-> _]. lia. }
  intros _ m2 (Hm2 & _ & He2). simpl. wp_step. split; [done|]. intros c Hc.
  rewrite He2. destruct (decide (c = 0)) as [->|Hne].
  - rewrite decide_False, He1, decide_True by lia. done.
  - rewrite decide_True by lia.
    destruct (good_get cfg infos Hg c) as (sc & E & _); [lia|]. rewrite E.
    apply good_loads; [done|lia|done].
Qed.

(** ** Filling the table *)

(** [c] is the smallest class that holds [s] bytes. *)
Definition smallest (infos : list SizeClassInfo) (s c : Z) : Prop :=
  1 ≤ c < K ∧ s ≤ size_of infos c ∧ ∀ c', 1 ≤ c' < c → size_of infos c' < s.

(** Everything but the table is the same. *)
Definition same_classes (m m' : SizeMap) : Prop :=
  num_objects_to_move_ m' = num_objects_to_move_ m ∧ class_to_pages_ m' = class_to_pages_ m ∧
  class_to_size_ m' = class_to_size_ m ∧ length (class_array_ m') = length (class_array_ m).

Lemma same_classes_trans m1 m2 m3 :
  same_classes m1 m2 → same_classes m2 m3 → same_classes m1 m3.
Proof. unfold same_classes. intuition congruence. Qed.

Lemma loaded_same infos m m' : same_classes m m' → loaded infos m → loaded infos m'.
Proof.
  intros (E1 & E2 & E3 & E4) [Hs He]. unfold loaded, sized, entries in *.
  rewrite E1, E2, E3, E4. done.
Qed.

Lemma fill_class_spec fuel c s mx m :
  sized m → 0 ≤ s → s mod 8 = 0 → mx ≤ kMaxSize cfg → 0 ≤ c < 256 →
  (0 < fuel)%nat → mx - s < 8 * (Z.of_nat fuel - 1) →
  wp true (fill_class cfg fuel c s mx) (λ _ m', same_classes m m' ∧
    (∀ s', s ≤ s' ≤ mx → s' mod 8 = 0 → get_at (class_array_ m') (index s') = Some c) ∧
    (∀ i, (∀ s', s ≤ s' ≤ mx → index s' ≠ i) →
      get_at (class_array_ m') i = get_at (class_array_ m) i)) m.
Proof.
  revert s m. induction fuel as [|fuel IH]; intros s m Hm Hs H8 Hmx Hc Hf0 Hf; [lia|].
  simpl. destruct (Z.leb_spec s mx) as [Hle|Hgt]; [|wp_step; split_and!; [done..|lia|done]].
  pose proof (index_range cfg s ltac:(lia)) as Hi. pose proof Hm as (Ha & Hrest).
  wp_step. wp_step; [by apply ClassIndex_index; lia|]. wp_step. unfold set_class_array.
  repeat wp_step; [apply put_at_Some; lia|]. rewrite (wrap_small 8) by (unfold is_word; lia).
  unfold kAlignment. eapply wp_mono; [apply IH; try lia|].
  - unfold sized. simpl. by rewrite length_insert.
  - replace (s + 8) with (s + 1 * 8) by lia. by rewrite Z.mod_add by lia.
  - intros _ m' (Hsame & Hset & Hkeep). simpl in *. split_and!.
    + unfold same_classes in *. simpl in Hsame. by rewrite length_insert in Hsame.
    + intros s' Hs' H8'. destruct (decide (s' = s)) as [->|Hne].
      * destruct (decide (s + 8 ≤ mx ∧ index (s + 8) = index s)) as [[Hn <-]|Hn].
        -- apply Hset; [lia|]. replace (s + 8) with (s + 1 * 8) by lia.
           by rewrite Z.mod_add by lia.
        -- rewrite Hkeep; [by rewrite get_at_insert, decide_True by lia|].
           intros s' Hs2 E. apply Hn. split; [lia|].
           pose proof (index_mono s (s + 8) ltac:(lia)).
           pose proof (index_mono (s + 8) s' ltac:(lia)). lia.
      * apply Hset; [|done]. apply Z.div_exact in H8, H8'; lia.
    + intros i Hni. rewrite Hkeep; [|intros; apply Hni; lia].
      rewrite get_at_insert by lia. rewrite decide_False; [done|]. apply Hni. lia.
Qed.

(** The table is right below [next] - 7: the entry of a size is its smallest class. *)
Definition filled (infos : list SizeClassInfo) (next : Z) (m : SizeMap) : Prop :=
  ∀ s, 0 ≤ s ≤ next - 8 → ∃ c, get_at (class_array_ m) (index s) = Some c ∧ smallest infos s c.

(** One round of the outer loop. *)
Lemma fill_round infos c next m m' :
  good cfg infos → 1 ≤ c < K →
  next = (if decide (c = 1) then 0 else size_of infos (c - 1) + 8) →
  filled infos next m →
  (∀ s', next ≤ s' ≤ size_of infos c → s' mod 8 = 0 →
    get_at (class_array_ m') (index s') = Some c) →
  (∀ i, (∀ s', next ≤ s' ≤ size_of infos c → index s' ≠ i) →
    get_at (class_array_ m') i = get_at (class_array_ m) i) →
  filled infos (size_of infos c + 8) m'.
Proof.
  intros Hg Hc Hnext Hf Hset Hkeep s Hs.
  pose proof (good_class cfg infos Hg c Hc) as (Hlt & [Hc8 _] & _).
  destruct (decide (s ≤ next - 8)) as [Hlow|Hhigh].
  - destruct (Hf s ltac:(lia)) as (c0 & E & Hsm). exists c0. split; [|done].
    rewrite Hkeep; [done|]. intros s' Hs' E'. destruct (decide (c = 1)); [lia|].
    pose proof (good_class cfg infos Hg (c - 1) ltac:(lia)) as (_ & Hgran & _).
    pose proof (good_pos cfg infos Hg (c - 1) ltac:(lia)).
    pose proof (index_boundary (size_of infos (c - 1)) s' ltac:(lia) Hgran).
    pose proof (index_mono s (size_of infos (c - 1)) ltac:(lia)). lia.
  - exists c. split.
    + rewrite <-index_round8 by lia. pose proof (round8_spec s) as [H1 H2].
      apply Hset; [|done]. split; [|apply round8_le; [lia|done]].
      destruct (decide (c = 1)); [lia|].
      pose proof (good_class cfg infos Hg (c - 1) ltac:(lia)) as (_ & [Hp8 _] & _).
      apply Z.div_exact in Hp8, H2; lia.
    + split_and!; [lia|lia|lia|]. intros c' Hc'. destruct (decide (c = 1)); [lia|].
      destruct (decide (c' = c - 1)) as [->|]; [lia|].
      pose proof (good_mono cfg infos Hg c' (c - 1) ltac:(lia) ltac:(lia) ltac:(lia)). lia.
Qed.

Lemma fill_classes_spec n infos c next m :
  good cfg infos → loaded infos m → 1 ≤ c → c + Z.of_nat n = K → (0 < n)%nat →
  next = (if decide (c = 1) then 0 else size_of infos (c - 1) + 8) →
  filled infos next m →
  wp true (fill_classes cfg n c next)
    (λ _ m', loaded infos m' ∧ filled infos (kMaxSize cfg + 8) m') m.
Proof.
  intros Hg. revert c next m. induction n as [|n IH]; intros c next m Hld Hc Hn Hn0 Hnext Hf; [lia|].
  pose proof (config_bounds cfg) as (HK & Hmax & _).
  pose proof (good_class cfg infos Hg c ltac:(lia)) as (Hlt & [Hc8 Hc128] & _).
  pose proof (good_pos cfg infos Hg c ltac:(lia)) as Hpos.
  pose proof Hld as [Hsz He]. specialize (He c ltac:(lia)) as Hec.
  rewrite decide_False in Hec by lia. injection Hec as Ec _ _.
  assert (0 ≤ next ∧ next mod 8 = 0) as [Hnn Hn8].
  { subst next. destruct (decide (c = 1)); [done|].
    pose proof (good_class cfg infos Hg (c - 1) ltac:(lia)) as (_ & [Hp8 _] & _).
    pose proof (good_pos cfg infos Hg (c - 1) ltac:(lia)). split; [lia|].
    rewrite Z.add_mod, Hp8 by lia. done. }
  simpl. do 2 wp_step. wp_step. wp_step; [done|]. rewrite i32_small by lia.
  wp_step. eapply wp_mono; [apply fill_class_spec; try done; try lia|].
  1-2: unfold fill_fuel, kAlignment; rewrite <-?Z2Nat.inj_0.
  1-2: assert (kMaxSize cfg / 8 = 1024 ∧ kMaxSize cfg = 8192 ∨
    kMaxSize cfg / 8 = 32768 ∧ kMaxSize cfg = 262144)
    by (destruct Hmax as [-> | ->]; [by left|by right]); lia.
  intros _ m' (Hsame & Hset & Hkeep).
  pose proof (loaded_same infos m m' Hsame Hld) as Hld'.
  pose proof (fill_round infos c next m m' Hg ltac:(lia) Hnext Hf Hset Hkeep) as Hf'.
  unfold kAlignment. destruct (Z.ltb_spec (kMaxSize cfg) (size_of infos c + 8)) as [Hbr|Hbr].
  - wp_step. split; [done|]. replace (kMaxSize cfg) with (size_of infos c); [done|].
    assert (kMaxSize cfg mod 8 = 0) as Hm8 by (destruct Hmax as [-> | ->]; done).
    apply Z.div_exact in Hc8, Hm8; lia.
  - assert (c ≠ K - 1) by (intros ->; rewrite (good_last cfg infos Hg) in Hbr; lia).
    apply IH; try done; try lia. rewrite decide_False by lia.
    replace (c + 1 - 1) with c by lia. done.
Qed.
End Load.
