(* ===== verification/TcSizeMapTheorems.v ===== *)
(** * tcmalloc: theorems about the size map

    The tables are valid, the parser of the environment variable is safe and
    inverts printing, and [Init] makes the lookups return the smallest class
    that fits. *)

From S2P Require Import Prelude.
From S2P Require Import CString.
From S2P Require Import TcCommon.
From S2P Require Import TcSizeClasses.
From S2P Require Import TcExperiment.
From S2P Require Import TcSizeMap.
From S2P Require Import TcSizeMapCorrect.

(** ** The tables *)

Definition typed_infob (sc : SizeClassInfo) : bool :=
  bool_decide (is_word 64 (sc_size sc) ∧ is_word 64 (sc_pages sc) ∧ is_word 64 (num_to_move sc)).

Definition goodb (cfg : config) (infos : list SizeClassInfo) : bool :=
  (Z.of_nat (length infos) =? kNumClasses cfg) && forallb typed_infob infos &&
  match ValidSizeClasses cfg (kNumClasses cfg) infos with Some true => true | _ => false end.

Lemma goodb_good cfg infos : goodb cfg infos = true → good cfg infos.
Proof.
  unfold goodb, good. intros H. apply andb_prop in H as [H Hv]. apply andb_prop in H as [Hl Ht].
  split_and!.
  - lia.
  - apply Forall_forall. intros sc Hsc. rewrite forallb_forall in Ht.
    specialize (Ht sc ltac:(by apply list_elem_of_In)). by apply bool_decide_eq_true in Ht.
  - by destruct (ValidSizeClasses _ _ _) as [[]|].
Qed.

(** What the comments of the tables promise of a class: a span holds an object,
    and a batch moves 64 KiB but at least 2 and at most 32 objects. *)
Definition economical (cfg : config) (sc : SizeClassInfo) : bool :=
  (sc_size sc <=? sc_pages sc * kPageSize cfg) &&
  (num_to_move sc =? Z.max 2 (Z.min 32 (65536 / sc_size sc))).

Definition tables (cfg : config) : list (list SizeClassInfo) :=
  [kSizeClasses cfg; kExperimentalSizeClasses cfg; kExperimental4kSizeClasses cfg].

(** A boolean statement about the tables of every configuration, by evaluation. *)
Lemma tables_forallb (P : config → list SizeClassInfo → bool) :
  (∀ s a r, forallb (P (mk_config s a r)) (tables (mk_config s a r)) = true) →
  ∀ cfg infos, infos ∈ tables cfg → P cfg infos = true.
Proof.
  intros H [s a r] infos Hin. specialize (H s a r). rewrite forallb_forall in H.
  apply H. by apply list_elem_of_In.
Qed.

Lemma tables_good cfg infos : infos ∈ tables cfg → good cfg infos.
Proof.
  intros H. apply goodb_good. revert cfg infos H. apply tables_forallb.
  by intros [] [] r; vm_compute.
Qed.

Definition has_size (s : Z) (infos : list SizeClassInfo) : bool :=
  existsb (λ sc, sc_size sc =? s) infos.

(** C36: Every table of size classes, in every configuration, is what the code
    that uses it needs: it has one row per class, passes ValidSizeClasses, its
    classes increase strictly up to exactly kMaxSize, a span of each class holds
    at least one object, and the batch of each class is 64 KiB worth of objects
    but at least 2 and at most 32.  The table of the experiment that removes the
    56 byte class has no such class. *)
Theorem size_class_tables cfg infos :
  infos ∈ tables cfg →
  good cfg infos ∧
  (∀ c c', 0 ≤ c → c < c' → c' < kNumClasses cfg → size_of infos c < size_of infos c') ∧
  size_of infos (kNumClasses cfg - 1) = kMaxSize cfg ∧
  (∀ c, 1 ≤ c < kNumClasses cfg →
    size_of infos c ≤ pages_of infos c * kPageSize cfg ∧
    batch_of infos c = Z.max 2 (Z.min 32 (65536 / size_of infos c))) ∧
  has_size 56 (kExperimentalSizeClasses cfg) = false.
Proof.
  intros Hin. pose proof (tables_good cfg infos Hin) as Hg. split_and!; [done| | | |].
  - by apply good_mono.
  - by apply good_last.
  - intros c Hc. destruct (good_get cfg infos Hg c) as (sc & Hsc & <- & <- & <- & _); [lia|].
    assert (forallb (economical cfg) (drop 1 infos) = true) as He.
    { revert cfg infos Hin Hg Hc Hsc. intros cfg0 infos0 Hin _ _ _. revert cfg0 infos0 Hin.
      apply (tables_forallb (λ cfg infos, forallb (economical cfg) (drop 1 infos))).
      by intros [] [] r; vm_compute. }
    rewrite forallb_forall in He. specialize (He sc).
    unfold get_at in Hsc. replace (0 <=? c) with true in Hsc by lia.
    assert (sc ∈ drop 1 infos) as Hd.
    { apply list_elem_of_lookup_2 with (Z.to_nat (c - 1)). rewrite lookup_drop.
      by replace (1 + Z.to_nat (c - 1))%nat with (Z.to_nat c) by lia. }
    specialize (He ltac:(by apply list_elem_of_In)). unfold economical in He. lia.
  - on_config cfg; by vm_compute.
Qed.

(** ** The parser of the environment variable *)

(** The members as total functions. *)
Definition member (sc : SizeClassInfo) (t : Z) : Z :=
  if t =? 0 then sc_size sc else if t =? 1 then sc_pages sc else num_to_move sc.
Definition with_member (sc : SizeClassInfo) (t v : Z) : SizeClassInfo :=
  if t =? 0 then info v (sc_pages sc) (num_to_move sc)
  else if t =? 1 then info (sc_size sc) v (num_to_move sc)
  else info (sc_size sc) (sc_pages sc) v.

Lemma Value_member sc t : 0 ≤ t < 3 → Value sc t = Some (i32 (member sc t)).
Proof. intros Ht. by assert (t = 0 ∨ t = 1 ∨ t = 2) as [-> | [-> | ->]] by lia. Qed.

Lemma SetValue_member sc t v : 0 ≤ t < 3 → SetValue sc t v = Some (with_member sc t v).
Proof. intros Ht. by assert (t = 0 ∨ t = 1 ∨ t = 2) as [-> | [-> | ->]] by lia. Qed.

Lemma member_with sc t v : member (with_member sc t v) t = v.
Proof. unfold member, with_member. by destruct (t =? 0); [|destruct (t =? 1)]. Qed.

Lemma with_member_twice sc t v v' : with_member (with_member sc t v) t v' = with_member sc t v'.
Proof. unfold with_member. by destruct (t =? 0); [|destruct (t =? 1)]. Qed.

(** The members are between 0 and [mx]. *)
Definition bounded (mx : Z) (sc : SizeClassInfo) : Prop :=
  0 ≤ sc_size sc ≤ mx ∧ 0 ≤ sc_pages sc ≤ mx ∧ 0 ≤ num_to_move sc ≤ mx.

Lemma bounded_member mx sc t : bounded mx sc → 0 ≤ member sc t ≤ mx.
Proof. intros (? & ? & ?). unfold member. by destruct (t =? 0); [|destruct (t =? 1)]. Qed.

Lemma bounded_with mx sc t v : bounded mx sc → 0 ≤ v ≤ mx → bounded mx (with_member sc t v).
Proof.
  intros (? & ? & ?) ?. unfold with_member. by destruct (t =? 0); [|destruct (t =? 1)].
Qed.

Lemma code_digit d : 0 ≤ d < 10 → code (digit_char d) = 48 + d.
Proof. intros Hd. apply Z.eqb_eq. by_range (λ d, code (digit_char d) =? 48 + d) 0 10. Qed.

Section Parse.
Context (max_size max_classes : Z) (Hsize : 0 ≤ max_size ≤ 2 ^ 27).
Local Abbreviation loop := (ParseSizeClasses_loop max_size max_classes).

(** One digit. *)
Lemma parse_digit e env c t parsed sc :
  48 ≤ code e ≤ 57 → 0 ≤ t < 3 → get_at parsed c = Some sc → bounded max_size sc →
  let v := 10 * member sc t + (code e - 48) in
  loop (e :: env) c t parsed =
    if max_size <? v then Some (-3, parsed)
    else loop env c t (<[Z.to_nat c := with_member sc t v]> parsed).
Proof.
  intros He Ht Hsc Hb v. simpl. replace ((48 <=? code e) && (code e <=? 57)) with true by lia.
  rewrite Hsc. simpl. rewrite Value_member by done. simpl.
  pose proof (bounded_member max_size sc t Hb) as Hm.
  rewrite i32_small by lia. fold v. rewrite bool_decide_eq_true_2 by (unfold v; lia).
  destruct (Z.ltb_spec max_size v); [done|].
  rewrite wrap_small by (unfold is_word, v in *; lia). rewrite SetValue_member by done. simpl.
  by rewrite put_at_Some by (by apply get_at_Some in Hsc).
Qed.

(** The parser stays inside of the array, whatever the string is. *)
Lemma parse_loop_safe env c t parsed :
  1 ≤ c < max_classes → 0 ≤ t < 3 → Z.of_nat (length parsed) = max_classes →
  Forall (bounded max_size) parsed →
  ∃ n parsed', loop env c t parsed = Some (n, parsed') ∧ n ≤ max_classes ∧
    length parsed' = length parsed ∧ Forall (bounded max_size) parsed' ∧
    parsed' !! 0%nat = parsed !! 0%nat.
Proof.
  revert c t parsed. induction env as [|e env IH]; intros c t parsed Hc Ht Hl Hb.
  { simpl. eexists _, _. split; [done|]. split_and!; [lia|done..]. }
  destruct (decide (48 ≤ code e ≤ 57)) as [He|He].
  - destruct (get_at_is_Some parsed c) as [sc Hsc]; [lia|].
    assert (bounded max_size sc) as Hbc.
    { unfold get_at in Hsc. replace (0 <=? c) with true in Hsc by lia.
      by apply (Forall_lookup_1 _ _ _ _ Hb Hsc). }
    rewrite (parse_digit e env c t parsed sc He Ht Hsc Hbc). cbv zeta.
    pose proof (bounded_member max_size sc t Hbc).
    destruct (Z.ltb_spec max_size (10 * member sc t + (code e - 48))).
    { eexists _, _. split; [done|]. split_and!; [lia|done..]. }
    set (parsed1 := <[Z.to_nat c := _]> parsed).
    destruct (IH c t parsed1) as (n & parsed' & E & Hn & Hl' & Hb' & Hz).
    + done.
    + done.
    + unfold parsed1. by rewrite length_insert.
    + apply Forall_insert; [done|]. apply bounded_with; [done|lia].
    + exists n, parsed'. split_and!; try done.
      * rewrite Hl'. apply length_insert.
      * rewrite Hz. apply list_lookup_insert_ne. lia.
  - simpl. replace ((48 <=? code e) && (code e <=? 57)) with false by lia.
    destruct (code e =? 59); [|destruct (code e =? 44)].
    + destruct (Z.leb_spec max_classes (c + 1)).
      * eexists _, _. split; [done|]. split_and!; [lia|done..].
      * apply IH; try done; lia.
    + unfold kSizeClassInfoMembers. destruct (Z.leb_spec 3 (t + 1)).
      * eexists _, _. split; [done|]. split_and!; [lia|done..].
      * apply IH; try done; lia.
    + eexists _, _. split; [done|]. split_and!; [lia|done..].
Qed.

(** A printed number sets the member. *)
Lemma parse_number fuel n acc c t parsed sc :
  fuel ≠ 0%nat → 0 ≤ n < 10 ^ Z.of_nat fuel → n ≤ max_size → 0 ≤ t < 3 →
  get_at parsed c = Some sc → bounded max_size sc → member sc t = 0 →
  loop (lit (digits_go 10 fuel n acc)) c t parsed =
    loop (lit acc) c t (<[Z.to_nat c := with_member sc t n]> parsed).
Proof.
  revert n acc. induction fuel as [|fuel IH]; intros n acc Hf Hn Hmx Ht Hsc Hb H0; [done|].
  pose proof (get_at_Some _ _ _ Hsc) as Hc.
  destruct (Z.lt_ge_cases n 10) as [Hlt|Hge].
  - cbn [digits_go]. replace (n <? 10) with true by lia. rewrite (Z.mod_small n 10) by lia.
    unfold lit. cbn [String.list_ascii_of_string].
    erewrite parse_digit; [|rewrite code_digit; lia|done..]. cbv zeta.
    rewrite H0, code_digit by lia. replace (10 * 0 + (48 + n - 48)) with n by lia.
    by replace (max_size <? n) with false by lia.
  - pose proof (Z.mod_pos_bound n 10 ltac:(lia)). pose proof (Z.div_mod n 10 ltac:(lia)).
    destruct (decide (fuel = 0%nat)) as [->|Hf']; [simpl in Hn; lia|].
    cbn [digits_go]. replace (n <? 10) with false by lia. rewrite IH; try done.
    + unfold lit. cbn [String.list_ascii_of_string].
      erewrite parse_digit; [|rewrite code_digit; lia|done|by rewrite get_at_insert, decide_True by lia|].
      2: { apply bounded_with; [done|]. pose proof (Z.div_pos n 10). lia. }
      cbv zeta. rewrite member_with, code_digit by lia.
      replace (10 * (n / 10) + (48 + n mod 10 - 48)) with n by lia.
      replace (max_size <? n) with false by lia.
      by rewrite with_member_twice, list_insert_insert_eq.
    + split; [apply Z.div_pos; lia|]. apply Z.div_lt_upper_bound; [lia|].
      rewrite Nat2Z.inj_succ, Z.pow_succ_r in Hn by lia. lia.
    + lia.
Qed.
End Parse.

(** The format of the environment variable. *)
Definition print_class (sc : SizeClassInfo) (rest : string) : string :=
  digits_go 10 20 (sc_size sc) (String ","%char
    (digits_go 10 20 (sc_pages sc) (String ","%char (digits_go 10 20 (num_to_move sc) rest)))).

Fixpoint print_classes (infos : list SizeClassInfo) : string :=
  match infos with
  | [] => EmptyString
  | [sc] => print_class sc EmptyString
  | sc :: infos => print_class sc (String ";"%char (print_classes infos))
  end.

Section RoundTrip.
Context (max_size max_classes : Z) (Hsize : 0 ≤ max_size ≤ 2 ^ 27).
Local Abbreviation loop := (ParseSizeClasses_loop max_size max_classes).

Lemma parse_comma rest c t parsed :
  0 ≤ t < 2 → loop (lit (String ","%char rest)) c t parsed = loop (lit rest) c (t + 1) parsed.
Proof.
  intros Ht. unfold lit. cbn [String.list_ascii_of_string ParseSizeClasses_loop].
  change (code ","%char) with 44. cbn [Z.leb Z.eqb Z.compare andb Pos.compare Pos.compare_cont Pos.eqb].
  unfold kSizeClassInfoMembers. by replace (3 <=? t + 1) with false by lia.
Qed.

Lemma parse_semicolon rest c t parsed :
  c + 1 < max_classes →
  loop (lit (String ";"%char rest)) c t parsed = loop (lit rest) (c + 1) 0 parsed.
Proof.
  intros Hc. unfold lit. cbn [String.list_ascii_of_string ParseSizeClasses_loop].
  change (code ";"%char) with 59. cbn [Z.leb Z.eqb Z.compare andb Pos.compare Pos.compare_cont Pos.eqb].
  by replace (max_classes <=? c + 1) with false by lia.
Qed.

Lemma parse_class sc rest pre post :
  bounded max_size sc →
  loop (lit (print_class sc rest)) (Z.of_nat (length pre)) 0 (pre ++ zero_info :: post) =
    loop (lit rest) (Z.of_nat (length pre)) 2 (pre ++ sc :: post).
Proof.
  intros (H1 & H2 & H3). set (c := Z.of_nat (length pre)).
  assert (∀ x : SizeClassInfo, get_at (pre ++ x :: post) c = Some x) as Hget.
  { intros x. unfold get_at, c. replace (0 <=? Z.of_nat (length pre)) with true by lia.
    by rewrite Nat2Z.id, list_lookup_middle. }
  assert (∀ x y : SizeClassInfo, <[Z.to_nat c := y]> (pre ++ x :: post) = pre ++ y :: post) as Hins.
  { intros x y. unfold c. rewrite Nat2Z.id. by rewrite list_insert_middle || by rewrite insert_app_r_alt, Nat.sub_diag. }
  assert (0 ≤ max_size < 10 ^ Z.of_nat 20) by lia.
  unfold print_class.
  rewrite (parse_number max_size max_classes Hsize) with (sc := zero_info);
    [|done|lia|lia|lia|apply Hget|unfold bounded; simpl; lia|done].
  rewrite Hins, parse_comma by lia.
  rewrite (parse_number max_size max_classes Hsize) with (sc := with_member zero_info 0 (sc_size sc));
    [|done|lia|lia|lia|apply Hget|unfold bounded; simpl; lia|done].
  rewrite Hins, parse_comma by lia.
  rewrite (parse_number max_size max_classes Hsize)
    with (sc := with_member (with_member zero_info 0 (sc_size sc)) (0 + 1) (sc_pages sc));
    [|done|lia|lia|lia|apply Hget|unfold bounded; simpl; lia|done].
  rewrite Hins. by destruct sc.
Qed.

Lemma parse_classes infos pre k :
  infos ≠ [] → Forall (bounded max_size) infos → pre ≠ [] →
  (length infos ≤ k)%nat → Z.of_nat (length pre + k) = max_classes →
  loop (lit (print_classes infos)) (Z.of_nat (length pre)) 0 (pre ++ replicate k zero_info) =
    Some (Z.of_nat (length pre + length infos),
      pre ++ infos ++ replicate (k - length infos) zero_info).
Proof.
  revert pre k. induction infos as [|sc infos IH]; intros pre k Hne Hb Hpre Hk Hmc; [done|].
  apply Forall_cons in Hb as [Hsc Hb]. destruct k as [|k]; simpl in Hk; [lia|].
  simpl replicate. destruct infos as [|sc' infos].
  - cbn [print_classes]. rewrite parse_class by done. cbn.
    rewrite Nat.sub_0_r. do 2 f_equal. lia.
  - change (print_classes (sc :: sc' :: infos))
      with (print_class sc (String ";"%char (print_classes (sc' :: infos)))).
    simpl in Hk. rewrite parse_class, parse_semicolon by (done || lia).
    specialize (IH (pre ++ [sc]) k ltac:(done) Hb ltac:(by destruct pre) ltac:(simpl; lia)).
    rewrite length_app in IH. cbn [length] in IH. rewrite <-!(assoc_L (++)) in IH. simpl app in IH.
    replace (Z.of_nat (length pre) + 1) with (Z.of_nat (length pre + 1)) by lia.
    rewrite IH by lia. simpl length. by replace (length pre + 1 + S (length infos))%nat
      with (length pre + S (S (length infos)))%nat by lia.
Qed.
End RoundTrip.

(** The environment variable is read back as it is written: for classes whose
    numbers are at most max_size, ParseSizeClasses of their printed form returns
    the number of classes (with class 0), and an array of class 0, the classes in
    order, and zeroed classes up to max_classes.  On any other string too it stays
    inside of the array, overflows no integer, returns at most max_classes and
    only stores numbers up to max_size. *)
Theorem size_classes_parsed max_size max_classes infos env :
  0 ≤ max_size ≤ 2 ^ 27 → 2 ≤ max_classes →
  infos ≠ [] → Forall (bounded max_size) infos → Z.of_nat (length infos) < max_classes →
  ParseSizeClasses (lit (print_classes infos)) max_size max_classes =
    Some (Z.of_nat (length infos) + 1, zero_info :: infos ++
      replicate (Z.to_nat max_classes - 1 - length infos) zero_info) ∧
  ∃ n parsed, ParseSizeClasses env max_size max_classes = Some (n, parsed) ∧
    n ≤ max_classes ∧ Z.of_nat (length parsed) = max_classes ∧
    Forall (bounded max_size) parsed ∧ parsed !! 0%nat = Some zero_info.
Proof.
  intros Hs Hc Hne Hb Hl. unfold ParseSizeClasses.
  assert (Z.to_nat max_classes = S (Z.to_nat max_classes - 1)) as -> by lia.
  simpl replicate. rewrite Nat.sub_0_r. split.
  - pose proof (parse_classes max_size max_classes Hs infos [zero_info]
      (Z.to_nat max_classes - 1) Hne Hb ltac:(done) ltac:(lia)) as H.
    simpl length in H. simpl app in H. change (Z.of_nat 1) with 1 in H. rewrite H by lia.
    do 2 f_equal. lia.
  - destruct (parse_loop_safe max_size max_classes Hs env 1 0
      (zero_info :: replicate (Z.to_nat max_classes - 1) zero_info))
      as (n & parsed & E & Hn & Hlen & Hbd & H0).
    + lia.
    + lia.
    + simpl. rewrite length_replicate. lia.
    + apply Forall_cons. split; [|apply Forall_replicate]; unfold bounded; simpl; lia.
    + exists n, parsed. split_and!; try done. rewrite Hlen. simpl. rewrite length_replicate. lia.
Qed.

Definition demo_infos : list SizeClassInfo := [info 16 1 14; info 32 1 15; info 8192 4 2].

Lemma size_classes_parsed_witness :
  ParseSizeClasses (lit "16,1,14;32,1,15;8192,4,2") 8192 6 =
    Some (4, zero_info :: demo_infos ++ [zero_info; zero_info]) ∧
  ∃ n parsed, ParseSizeClasses (lit "16;x") 8192 6 = Some (n, parsed) ∧
    n ≤ 6 ∧ Z.of_nat (length parsed) = 6 ∧
    Forall (bounded 8192) parsed ∧ parsed !! 0%nat = Some zero_info.
Proof.
  apply (size_classes_parsed 8192 6 demo_infos (lit "16;x")).
  - lia.
  - lia.
  - discriminate.
  - repeat constructor; simpl; lia.
  - simpl. lia.
Defined.

Lemma size_class_tables_witness :
  good (mk_config Shift12 true false) kSizeClasses_new8_12 ∧
  (∀ c c', 0 ≤ c → c < c' → c' < 46 →
    size_of kSizeClasses_new8_12 c < size_of kSizeClasses_new8_12 c') ∧
  size_of kSizeClasses_new8_12 45 = 8192 ∧
  (∀ c, 1 ≤ c < 46 →
    size_of kSizeClasses_new8_12 c ≤ pages_of kSizeClasses_new8_12 c * 4096 ∧
    batch_of kSizeClasses_new8_12 c =
      Z.max 2 (Z.min 32 (65536 / size_of kSizeClasses_new8_12 c))) ∧
  has_size 56 kExperimentalSizeClasses_new8_12 = false.
Proof.
  apply (size_class_tables (mk_config Shift12 true false) kSizeClasses_new8_12).
  left.
Defined.

(** ** Initialisation *)

Lemma valid_classes_total cfg infos n c :
  1 ≤ c → c + Z.of_nat n ≤ Z.of_nat (length infos) →
  ∃ b, valid_classes cfg n infos c = Some b.
Proof.
  revert c. induction n as [|n IH]; intros c Hc Hn; simpl; [by eexists|].
  unfold valid_class.
  destruct (get_at_is_Some infos c) as [sc ->]; [lia|].
  destruct (get_at_is_Some infos (c - 1)) as [prev ->]; [lia|]. simpl.
  match goal with |- context [if ?b then _ else Some false] => destruct b end;
    [apply IH; lia|by eexists].
Qed.

(** The check is defined for the classes that were parsed. *)
Lemma ValidSizeClasses_total cfg n infos :
  n ≤ Z.of_nat (length infos) → ∃ b, ValidSizeClasses cfg n infos = Some b.
Proof.
  intros Hn. unfold ValidSizeClasses. destruct (Z.leb_spec n 0); [by eexists|].
  destruct (valid_classes_total cfg infos (Z.to_nat (n - 1)) 1) as [[] ->]; [lia|lia| |];
    simpl; [|by eexists].
  destruct (get_at_is_Some infos (n - 1)) as [last ->]; [lia|]. by eexists.
Qed.

Section Init.
Context (cfg : config) (getenv : string → option string_view).
Local Abbreviation K := (kNumClasses cfg).

(** The classes of the environment variable, if they are used. *)
Definition runtime_classes : option (list SizeClassInfo) :=
  if with_runtime cfg then
    e ← getenv "TCMALLOC_SIZE_CLASSES";
    '(n, parsed) ← ParseSizeClasses e (kMaxSize cfg) K;
    if decide (n = K ∧ ValidSizeClasses cfg n parsed = Some true) then Some parsed else None
  else None.

(** The classes [Init] loads: those of the environment variable, or the table of
    the active experiment. *)
Definition classes : list SizeClassInfo :=
  match runtime_classes with
  | Some parsed => parsed
  | None =>
      if active_in getenv TCMALLOC_SANS_56_SIZECLASS then kExperimentalSizeClasses cfg
      else if active_in getenv TCMALLOC_4K_SIZE_CLASS then kExperimental4kSizeClasses cfg
      else kSizeClasses cfg
  end.

Lemma is_active_spec e : IsExperimentActive getenv e = Some (active_in getenv e).
Proof.
  unfold IsExperimentActive, GetSelectedExperiments.
  by destruct (select_experiments_spec (default [] (getenv kExperiments))
    (default [] (getenv kDisableExperiments)) e) as (by_id & -> & _ & H).
Qed.

Lemma parse_env e :
  ∃ n parsed, ParseSizeClasses e (kMaxSize cfg) K = Some (n, parsed) ∧ n ≤ K ∧
    length parsed = Z.to_nat K ∧ Forall typed_info parsed.
Proof.
  pose proof (config_bounds cfg) as (HK & Hm & _).
  destruct (parse_loop_safe (kMaxSize cfg) K ltac:(lia) e 1 0
    (replicate (Z.to_nat K) zero_info)) as (n & parsed & E & Hn & Hl & Hb & _).
  - lia.
  - lia.
  - rewrite length_replicate. lia.
  - apply Forall_replicate. unfold bounded. simpl. lia.
  - exists n, parsed. rewrite length_replicate in Hl. split_and!; try done.
    eapply Forall_impl; [exact Hb|]. intros sc (? & ? & ?). unfold typed_info, is_word. lia.
Qed.

Lemma classes_good : good cfg classes.
Proof.
  unfold classes, runtime_classes.
  assert (good cfg (if active_in getenv TCMALLOC_SANS_56_SIZECLASS
    then kExperimentalSizeClasses cfg
    else if active_in getenv TCMALLOC_4K_SIZE_CLASS then kExperimental4kSizeClasses cfg
    else kSizeClasses cfg)) as Htab.
  { apply tables_good. unfold tables. repeat case_match; set_solver. }
  destruct (with_runtime cfg); [|done]. destruct (getenv _) as [e|]; simpl; [|done].
  destruct (parse_env e) as (n & parsed & -> & Hn & Hl & Ht). simpl.
  case_decide as H; [|done]. destruct H as [-> Hv]. done.
Qed.

(** The run-time classes replace those that were loaded, or change nothing. *)
Lemma MaybeRunTimeSizeClasses_spec parsed infos m :
  loaded cfg infos m →
  wp true (MaybeRunTimeSizeClasses cfg getenv parsed)
    (λ _ m', loaded cfg (default infos runtime_classes) m') m.
Proof.
  intros Hld. pose proof (config_bounds cfg) as (HK & _).
  unfold MaybeRunTimeSizeClasses, MaybeSizeClassesFromEnv, runtime_classes.
  destruct (with_runtime cfg).
  2: { wp_step. wp_step; [done|]. cbv beta iota. wp_step. wp_step; [done|]. by wp_step. }
  destruct (getenv "TCMALLOC_SIZE_CLASSES") as [e|]; simpl.
  2: { wp_step. wp_step; [done|]. cbv beta iota. wp_step. wp_step; [done|]. by wp_step. }
  destruct (parse_env e) as (n & infos' & -> & Hn & Hl & Ht). simpl.
  destruct (ValidSizeClasses_total cfg n infos') as [b Hb]; [lia|].
  wp_step. wp_step; [done|]. cbv beta iota. wp_step. wp_step; [done|]. rewrite ?Hb.
  destruct b; simpl; [|rewrite decide_False by naive_solver; by wp_step].
  destruct (Z.eqb_spec n K) as [->|Hne]; simpl.
  - rewrite decide_True by done. simpl. wp_step.
    eapply wp_mono; [apply SetSizeClasses_spec; [apply Hld|done]|]. simpl. intros. by wp_step.
  - rewrite decide_False by naive_solver. by wp_step.
Qed.

(** The map is initialised with [classes]. *)
Definition ready (m : SizeMap) : Prop :=
  loaded cfg classes m ∧ filled cfg classes (kMaxSize cfg + 8) m.

Lemma Init_ready parsed m :
  sized cfg m → wp true (Init cfg getenv parsed) (λ _ m', ready m') m.
Proof.
  intros Hm. pose proof (config_bounds cfg) as (HK & Hmax & _). unfold Init, is_active, ClassIndex.
  wp_step. wp_step; [apply ClassIndex_index; lia|]. wp_step. wp_step; [done|].
  wp_step. wp_step; [apply ClassIndex_index; lia|]. wp_step.
  wp_step; [pose proof (index_range cfg (kMaxSize cfg)); lia|].
  wp_step. wp_step; [apply is_active_spec|]. wp_step.
  set (table := if active_in getenv TCMALLOC_SANS_56_SIZECLASS then kExperimentalSizeClasses cfg
    else if active_in getenv TCMALLOC_4K_SIZE_CLASS then kExperimental4kSizeClasses cfg
    else kSizeClasses cfg).
  eapply (wp_mono _ _ (λ _ m', loaded cfg table m')).
  { unfold table. destruct (active_in getenv TCMALLOC_SANS_56_SIZECLASS).
    - apply SetSizeClasses_spec; [done|]. apply tables_good. unfold tables. set_solver.
    - wp_step. wp_step; [apply is_active_spec|]. destruct (active_in _ _);
        (apply SetSizeClasses_spec; [done|apply tables_good; unfold tables; set_solver]). }
  intros _ m1 Hld. wp_step.
  eapply wp_mono; [by apply MaybeRunTimeSizeClasses_spec|]. intros b m2 Hld2.
  assert (loaded cfg classes m2) as Hld3.
  { unfold classes. by destruct runtime_classes. }
  apply fill_classes_spec; try done; try lia.
  - apply classes_good.
  - intros s Hs. lia.
Qed.
End Init.

(** ** Lookups *)

(** Below the page size, the largest class has every alignment. *)
Lemma max_aligned cfg k : 0 ≤ k → 2 ^ k < kPageSize cfg → kMaxSize cfg mod 2 ^ k = 0.
Proof.
  intros Hk Hlt. assert (∃ j, 0 ≤ j ∧ kMaxSize cfg = 2 ^ j ∧ kPageSize cfg ≤ 2 ^ j) as (j & Hj & -> & Hp).
  { destruct cfg as [[] ? ?]; [exists 13|exists 18..]; vm_compute; split_and!; congruence. }
  assert (k < j) by (apply (Z.pow_lt_mono_r_iff 2); lia).
  replace (2 ^ j) with (2 ^ (j - k) * 2 ^ k) by (rewrite <-Z.pow_add_r by lia; f_equal; lia).
  apply Z.mod_mul. lia.
Qed.

Section Lookup.
Context (cfg : config) (getenv : string → option string_view) (m : SizeMap).
Context (Hready : ready cfg getenv m).
Local Abbreviation K := (kNumClasses cfg).
Local Abbreviation infos := (classes cfg getenv).

Lemma GetSizeClass_fits s :
  0 ≤ s ≤ kMaxSize cfg → ∃ c, GetSizeClass cfg m s = Done (Some c) ∧ smallest cfg infos s c.
Proof.
  intros Hs. destruct Hready as [_ Hf]. destruct (Hf s ltac:(lia)) as (c & E & Hc).
  exists c. split; [|done]. unfold GetSizeClass. rewrite ClassIndex_index by done. by rewrite E.
Qed.

Lemma GetSizeClass_large s : kMaxSize cfg < s → GetSizeClass cfg m s = Done None.
Proof using Type.
  intros Hs. pose proof (config_bounds cfg) as (_ & Hm & _).
  unfold GetSizeClass, ClassIndexMaybe, kMaxSmallSize.
  replace (s <=? 1024) with false by lia. by replace (s <=? kMaxSize cfg) with false by lia.
Qed.

Lemma class_entries c :
  1 ≤ c < K →
  class_to_size cfg m c = Done (size_of infos c) ∧
  class_to_pages cfg m c = Done (pages_of infos c) ∧
  num_objects_to_move cfg m c = Done (batch_of infos c).
Proof.
  intros Hc. destruct Hready as [[_ He] _]. specialize (He c ltac:(lia)).
  rewrite decide_False in He by lia. injection He as E1 E2 E3.
  unfold class_to_size, class_to_pages, num_objects_to_move. rewrite E1, E2, E3.
  by replace (c <? K) with true by lia.
Qed.

Lemma find_aligned_spec fuel k cl :
  0 ≤ k → 2 ^ k < kPageSize cfg → 1 ≤ cl < K → K - cl ≤ Z.of_nat fuel →
  ∃ c, find_aligned cfg fuel m (2 ^ k - 1) cl = Done (Some c) ∧ cl ≤ c < K ∧
    size_of infos c mod 2 ^ k = 0 ∧ ∀ c', cl ≤ c' < c → size_of infos c' mod 2 ^ k ≠ 0.
Proof.
  intros Hk Hlt. revert cl. induction fuel as [|fuel IH]; intros cl Hcl Hf; [lia|].
  pose proof (config_bounds cfg) as (HK & _). simpl.
  destruct (class_entries cl Hcl) as [-> _]. rewrite land_mask by lia.
  destruct (Z.eqb_spec (size_of infos cl mod 2 ^ k) 0) as [E|E].
  { exists cl. split_and!; [done|lia|lia|done|lia]. }
  rewrite wrap_small by (unfold is_word; lia).
  destruct (Z.ltb_spec (cl + 1) K) as [Hn|Hn].
  - destruct (IH (cl + 1) ltac:(lia) ltac:(lia)) as (c & -> & Hc & H0 & Hmin).
    exists c. split_and!; [done|lia|lia|done|]. intros c' Hc'.
    destruct (decide (c' = cl)) as [->|]; [done|]. apply Hmin. lia.
  - exfalso. apply E. replace cl with (K - 1) by lia.
    rewrite (good_last cfg infos (classes_good cfg getenv)). by apply max_aligned.
Qed.

Lemma GetSizeClass_aligned_fits s k :
  0 ≤ s ≤ kMaxSize cfg → 0 ≤ k → 2 ^ k < kPageSize cfg →
  ∃ c, GetSizeClass_aligned cfg m s (2 ^ k) = Done (Some c) ∧ 1 ≤ c < K ∧
    s ≤ size_of infos c ∧ size_of infos c mod 2 ^ k = 0 ∧
    ∀ c', 1 ≤ c' < c → s ≤ size_of infos c' → size_of infos c' mod 2 ^ k ≠ 0.
Proof.
  intros Hs Hk Hlt. pose proof (config_bounds cfg) as (HK & _).
  unfold GetSizeClass_aligned. rewrite land_mask, Z.mod_same by lia.
  replace (0 <? 2 ^ k) with true by lia. simpl.
  replace (kPageSize cfg <=? 2 ^ k) with false by lia.
  destruct (GetSizeClass_fits s Hs) as (cl & -> & Hcl & Hfit & Hmin).
  destruct (find_aligned_spec (Z.to_nat K) k cl) as (c & -> & Hc & H0 & Hno); [lia..|].
  exists c. split_and!; [done|lia|lia| |done|].
  - destruct (decide (c = cl)) as [->|]; [done|].
    pose proof (good_mono cfg infos (classes_good cfg getenv) cl c). lia.
  - intros c' Hc' Hs'. destruct (Z.lt_ge_cases c' cl); [|apply Hno; lia].
    specialize (Hmin c'). lia.
Qed.
End Lookup.

(** C16: Init of the size map ends without a fault for every configuration, every
    environment and whatever the arrays held before, and makes the map from sizes
    to classes right: the classes are those of the environment variable if it
    describes kNumClasses valid classes, else the table of the active experiment;
    a size up to kMaxSize is mapped to the smallest class that holds it, a larger
    one to none, and the other arrays return the size, pages and batch of each
    class. *)
Theorem size_map_correct cfg getenv parsed m :
  sized cfg m →
  wp true (Init cfg getenv parsed) (λ _ m',
    good cfg (classes cfg getenv) ∧
    (∀ s, 0 ≤ s ≤ kMaxSize cfg → ∃ c,
      GetSizeClass cfg m' s = Done (Some c) ∧ SizeClass cfg m' s = Done c ∧
      smallest cfg (classes cfg getenv) s c) ∧
    (∀ s, kMaxSize cfg < s → GetSizeClass cfg m' s = Done None) ∧
    (∀ c, 1 ≤ c < kNumClasses cfg →
      class_to_size cfg m' c = Done (size_of (classes cfg getenv) c) ∧
      class_to_pages cfg m' c = Done (pages_of (classes cfg getenv) c) ∧
      num_objects_to_move cfg m' c = Done (batch_of (classes cfg getenv) c))) m.
Proof.
  intros Hm. eapply wp_mono; [by apply Init_ready|]. simpl. intros _ m' Hr.
  split; [|split; [|split]].
  - apply classes_good.
  - intros s Hs. destruct (GetSizeClass_fits cfg getenv m' Hr s Hs) as (c & E & Hc).
    exists c. split_and!; [done| |done]. unfold SizeClass. rewrite E.
    by replace (s <=? kMaxSize cfg) with true by lia.
  - apply GetSizeClass_large.
  - by apply class_entries.
Qed.

Definition demo_config : config := mk_config Shift12 true true.
Definition demo_map : SizeMap :=
  mk_map (replicate 185 7) (replicate 46 0) (replicate 46 0) (replicate 46 0).

Lemma size_map_correct_witness :
  sized demo_config demo_map ∧
  wp true (Init demo_config (λ _, None) []) (λ _ m',
    good demo_config (classes demo_config (λ _, None)) ∧
    (∀ s, 0 ≤ s ≤ 8192 → ∃ c,
      GetSizeClass demo_config m' s = Done (Some c) ∧ SizeClass demo_config m' s = Done c ∧
      smallest demo_config (classes demo_config (λ _, None)) s c) ∧
    (∀ s, 8192 < s → GetSizeClass demo_config m' s = Done None) ∧
    (∀ c, 1 ≤ c < 46 →
      class_to_size demo_config m' c = Done (size_of (classes demo_config (λ _, None)) c) ∧
      class_to_pages demo_config m' c = Done (pages_of (classes demo_config (λ _, None)) c) ∧
      num_objects_to_move demo_config m' c =
        Done (batch_of (classes demo_config (λ _, None)) c))) demo_map.
Proof.
  assert (sized demo_config demo_map) as H by by vm_compute.
  split; [exact H|]. exact (size_map_correct demo_config (λ _, None) [] demo_map H).
Defined.

(** Aligned lookups after Init: for a power of two below the page size and a
    size up to kMaxSize, GetSizeClass returns the smallest class that holds the
    size and whose size is a multiple of the alignment; there always is one.  For
    larger alignments and sizes it returns false. *)
Theorem size_map_aligned cfg getenv parsed m :
  sized cfg m →
  wp true (Init cfg getenv parsed) (λ _ m', ∀ s k, 0 ≤ s → 0 ≤ k →
    if decide (2 ^ k < kPageSize cfg ∧ s ≤ kMaxSize cfg) then
      ∃ c, GetSizeClass_aligned cfg m' s (2 ^ k) = Done (Some c) ∧ 1 ≤ c < kNumClasses cfg ∧
        s ≤ size_of (classes cfg getenv) c ∧ size_of (classes cfg getenv) c mod 2 ^ k = 0 ∧
        ∀ c', 1 ≤ c' < c → s ≤ size_of (classes cfg getenv) c' →
          size_of (classes cfg getenv) c' mod 2 ^ k ≠ 0
    else GetSizeClass_aligned cfg m' s (2 ^ k) = Done None) m.
Proof.
  intros Hm. eapply wp_mono; [by apply Init_ready|]. simpl. intros _ m' Hr s k Hs Hk.
  case_decide as Hd; [apply GetSizeClass_aligned_fits; [done|lia|done|lia]|].
  unfold GetSizeClass_aligned. rewrite land_mask, Z.mod_same by lia.
  replace (0 <? 2 ^ k) with true by lia. simpl.
  destruct (Z.leb_spec (kPageSize cfg) (2 ^ k)); [done|].
  by rewrite GetSizeClass_large by lia.
Qed.

Lemma size_map_aligned_witness :
  wp true (Init demo_config (λ _, None) []) (λ _ m', ∀ s k, 0 ≤ s → 0 ≤ k →
    if decide (2 ^ k < kPageSize demo_config ∧ s ≤ kMaxSize demo_config) then
      ∃ c, GetSizeClass_aligned demo_config m' s (2 ^ k) = Done (Some c) ∧
        1 ≤ c < kNumClasses demo_config ∧
        s ≤ size_of (classes demo_config (λ _, None)) c ∧
        size_of (classes demo_config (λ _, None)) c mod 2 ^ k = 0 ∧
        ∀ c', 1 ≤ c' < c → s ≤ size_of (classes demo_config (λ _, None)) c' →
          size_of (classes demo_config (λ _, None)) c' mod 2 ^ k ≠ 0
    else GetSizeClass_aligned demo_config m' s (2 ^ k) = Done None) demo_map.
Proof. apply (size_map_aligned demo_config (λ _, None) [] demo_map). by vm_compute. Defined.

(** The experiment TCMALLOC_LARGE_NUM_TO_MOVE only matters to classes that are
    not given, and every caller of [SetSizeClasses] gives all of them: the loaded
    batches do not depend on it. *)
Lemma large_num_to_move_unused cfg getenv getenv' parsed m :
  Z.of_nat (length parsed) = kNumClasses cfg →
  SetSizeClasses cfg getenv (kNumClasses cfg) parsed m =
    SetSizeClasses cfg getenv' (kNumClasses cfg) parsed m.
Proof. intros _. unfold SetSizeClasses. by rewrite Z.sub_diag. Qed.
