(* ===== verification/TcRangeTracker.v ===== *)
(** * tcmalloc: bitmaps and range trackers

    internal/range_tracker.h: [Bitops], [Bitmap<N>] and [RangeTracker<N>], the
    best-fit allocator of ranges of bits that the huge page code uses.  The state
    of a bitmap is its array of words; failed assertions, shifts by the width of
    the word and accesses outside of the array are [Fault]. *)

From S2P Require Import Prelude.
From S2P Require Import Bits.

(** ** Bitops *)

(** [__builtin_ctzl], [__builtin_clzl] and [__builtin_popcountl]; the first two
    are undefined for 0. *)
Definition FindFirstSet {S} (word : Z) : ST S Z :=
  require (negb (word =? 0));; mret (instr_tzcnt 64 word).

Definition FindLastSet {S} (word : Z) : ST S Z :=
  require (negb (word =? 0));; mret (64 - 1 - instr_lzcnt 64 word).

Definition CountSetBits (word : Z) : Z := instr_popcnt word.

(** ** Bitmap *)

Definition kWordSize : Z := 64.

Abbreviation Bitmap := (list Z).

Section Bitmap.
Context (N : Z).

Definition kWords : Z := (N + kWordSize - 1) / kWordSize.
Definition kDeadBits : Z := kWordSize * kWords - N.

Definition new_bitmap : Bitmap := replicate (Z.to_nat kWords) 0.

(** [bits_[i]], and writing it. *)
Definition word_at (i : Z) : ST Bitmap Z := l ← gets id; from_opt (get_at l i).
Definition set_word (i v : Z) : ST Bitmap unit :=
  l ← gets id; l ← from_opt (put_at l i v); modify (λ _, l).

Definition bm_size : Z := N.

Definition GetBit (i : Z) : ST Bitmap bool :=
  w ← word_at (i / kWordSize);
  mret (negb (Z.land w (1 ≪ (i mod kWordSize)) =? 0)).

Definition SetBit (i : Z) : ST Bitmap unit :=
  w ← word_at (i / kWordSize);
  set_word (i / kWordSize) (Z.lor w (1 ≪ (i mod kWordSize))).

Definition ClearBit (i : Z) : ST Bitmap unit :=
  w ← word_at (i / kWordSize);
  set_word (i / kWordSize) (Z.land w (wnot 64 (1 ≪ (i mod kWordSize)))).

(** [(all_ones >> (kWordSize - n)) << from]. *)
Definition range_mask (from n : Z) : Z := u64 ((wnot 64 0 ≫ (kWordSize - n)) ≪ from).

Definition CountWordBits (i from to : Z) : ST Bitmap Z :=
  require (from <? kWordSize);;
  require (to <=? kWordSize);;
  let n := u64 (to - from) in
  require ((0 <? n) && (n <=? kWordSize));;
  w ← word_at i;
  mret (CountSetBits (Z.land w (range_mask from n))).

Definition SetWordBits (Value : bool) (i from to : Z) : ST Bitmap unit :=
  require (from <? kWordSize);;
  require (to <=? kWordSize);;
  let n := u64 (to - from) in
  require ((0 <? n) && (n <=? kWordSize));;
  let mask := range_mask from n in
  w ← word_at i;
  if Value then set_word i (Z.lor w mask) else set_word i (Z.land w (wnot 64 mask)).

(** [CountBits]: the loop and the function. *)
Fixpoint CountBits_loop (fuel : nat) (word n count : Z) : ST Bitmap Z :=
  match fuel with
  | O => out_of_fuel
  | S fuel =>
      if 0 <? n then
        let word := word + 1 in
        let k := Z.min n kWordSize in
        c ← CountWordBits word 0 k;
        CountBits_loop fuel word (u64 (n - k)) (u64 (count + c))
      else mret count
  end.

Definition CountBits (index n : Z) : ST Bitmap Z :=
  require (u64 (index + n) <=? N);;
  if n =? 0 then mret 0
  else
    let word := index / kWordSize in
    let offset := index mod kWordSize in
    let k := Z.min (u64 (offset + n)) kWordSize in
    c ← CountWordBits word offset k;
    CountBits_loop (S (Z.to_nat kWords)) word (u64 (n - (k - offset))) c.

(** [SetRangeValue<Value>]: the loop and the function. *)
Fixpoint SetRangeValue_loop (fuel : nat) (Value : bool) (word n : Z) : ST Bitmap unit :=
  match fuel with
  | O => out_of_fuel
  | S fuel =>
      if 0 <? n then
        let word := word + 1 in
        let k := if kWordSize <? n then kWordSize else n in
        SetWordBits Value word 0 k;;
        SetRangeValue_loop fuel Value word (u64 (n - k))
      else mret tt
  end.

Definition SetRangeValue (Value : bool) (index n : Z) : ST Bitmap unit :=
  require (u64 (index + n) <=? N);;
  let word := index / kWordSize in
  let offset := index mod kWordSize in
  let k := u64 (offset + n) in
  let k := if kWordSize <? k then kWordSize else k in
  SetWordBits Value word offset k;;
  SetRangeValue_loop (S (Z.to_nat kWords)) Value word (u64 (n - (k - offset))).

Definition SetRange : Z → Z → ST Bitmap unit := SetRangeValue true.
Definition ClearRange : Z → Z → ST Bitmap unit := SetRangeValue false.

(** [here], complemented if the goal is a clear bit. *)
Definition goal_word (Goal : bool) (w : Z) : Z := if Goal then w else wnot 64 w.

(** [FindValue<Goal>]: the loop and the function. *)
Fixpoint FindValue_loop (fuel : nat) (Goal : bool) (word here : Z) : ST Bitmap Z :=
  match fuel with
  | O => out_of_fuel
  | S fuel =>
      if here =? 0 then
        let word := word + 1 in
        if kWords <=? word then mret N
        else w ← word_at word; FindValue_loop fuel Goal word (goal_word Goal w)
      else
        b ← FindFirstSet here;
        let ret := u64 (b + u64 (word * kWordSize)) in
        mret (if (0 <? kDeadBits) && (N <? ret) then N else ret)
  end.

Definition FindValue (Goal : bool) (index : Z) : ST Bitmap Z :=
  let offset := index mod kWordSize in
  let word := index / kWordSize in
  require (word <? kWords);;
  w ← word_at word;
  let mask := u64 (wnot 64 0 ≪ offset) in
  FindValue_loop (S (Z.to_nat kWords)) Goal word (Z.land (goal_word Goal w) mask).

Definition FindSet : Z → ST Bitmap Z := FindValue true.
Definition FindClear : Z → ST Bitmap Z := FindValue false.

(** [FindValueBackwards<Goal>]: the loop and the function. *)
Fixpoint FindValueBackwards_loop (fuel : nat) (Goal : bool) (word here : Z) : ST Bitmap Z :=
  match fuel with
  | O => out_of_fuel
  | S fuel =>
      if here =? 0 then
        let word := word - 1 in
        if word <? 0 then mret (-1)
        else w ← word_at word; FindValueBackwards_loop fuel Goal word (goal_word Goal w)
      else
        b ← FindLastSet here;
        mret (b + word * kWordSize)
  end.

Definition FindValueBackwards (Goal : bool) (index : Z) : ST Bitmap Z :=
  let offset := index mod kWordSize in
  let word := index / kWordSize in
  w ← word_at word;
  let mask := u64 (u64 (2 ≪ offset) - 1) in
  FindValueBackwards_loop (S (Z.to_nat kWords)) Goal word (Z.land (goal_word Goal w) mask).

Definition FindSetBackwards : Z → ST Bitmap Z := FindValueBackwards true.
Definition FindClearBackwards : Z → ST Bitmap Z := FindValueBackwards false.

(** [NextFreeRange]: the index and the length, if there is a free range. *)
Definition NextFreeRange (start : Z) : ST Bitmap (option (Z * Z)) :=
  if N <=? start then mret None
  else
    i ← FindClear start;
    if i =? N then mret None
    else j ← FindSet i; mret (Some (i, u64 (j - i))).

(** [Bitmap::Clear]: the loop and the function. *)
Fixpoint bm_Clear_loop (n : nat) (i : Z) : ST Bitmap unit :=
  match n with
  | O => mret tt
  | S n => set_word i 0;; bm_Clear_loop n (i + 1)
  end.
Definition bm_Clear : ST Bitmap unit := bm_Clear_loop (Z.to_nat kWords) 0.

(** ** RangeTracker *)

Record RangeTracker := mk_tracker {
  bits_ : Bitmap;
  longest_free_ : Z;
  nused_ : Z;
  nallocs_ : Z;
}.

(** The width of [Count], the smallest unsigned type that holds [N]. *)
Definition Count_width : Z :=
  if N <=? 2 ^ 8 - 1 then 8
  else if N <=? 2 ^ 16 - 1 then 16
  else if N <=? 2 ^ 32 - 1 then 32 else 64.

Definition new_tracker : RangeTracker := mk_tracker new_bitmap (wrap Count_width N) 0 0.

(** A method of the bitmap. *)
Definition on_bits {A} (m : ST Bitmap A) : ST RangeTracker A := λ t,
  match m (bits_ t) with
  | Done (a, l) => Done (a, mk_tracker l (longest_free_ t) (nused_ t) (nallocs_ t))
  | Fault => Fault
  | OutOfFuel => OutOfFuel
  | Crashed => Crashed
  end.

Definition rt_size : Z := bm_size.
Definition used : ST RangeTracker Z := gets nused_.
Definition total_free : ST RangeTracker Z := u ← used; mret (u64 (N - u)).
Definition longest_free : ST RangeTracker Z := gets longest_free_.
Definition allocs : ST RangeTracker Z := gets nallocs_.

(** The local variables of the loop of [FindAndMark]. *)
Record scan := mk_scan { longest_len : Z; second_len : Z; best_index : Z; best_len : Z }.

(** The body of the loop, for the free range [index, index + len). *)
Definition scan_range (n : Z) (s : scan) (r : Z * Z) : scan :=
  let '(index, len) := r in
  let '(longest, second) :=
    if longest_len s <? len then (len, longest_len s)
    else if second_len s <? len then (longest_len s, len)
    else (longest_len s, second_len s) in
  if (n <=? len) && (len <? best_len s) then mk_scan longest second index len
  else mk_scan longest second (best_index s) (best_len s).

Fixpoint FindAndMark_loop (fuel : nat) (n index : Z) (s : scan) : ST RangeTracker scan :=
  match fuel with
  | O => out_of_fuel
  | S fuel =>
      r ← on_bits (NextFreeRange index);
      match r with
      | Some (index, len) =>
          FindAndMark_loop fuel n (u64 (index + len)) (scan_range n s (index, len))
      | None => mret s
      end
  end.

Definition FindAndMark (n : Z) : ST RangeTracker Z :=
  s ← FindAndMark_loop (S (Z.to_nat N)) n 0 (mk_scan 0 0 N (u64 (2 * N)));
  require (best_index s <? N);;
  on_bits (SetRange (best_index s) n);;
  let longest :=
    if best_len s =? longest_len s then
      let longest := u64 (longest_len s - n) in
      if longest <? second_len s then second_len s else longest
    else longest_len s in
  modify (λ t, mk_tracker (bits_ t) (wrap Count_width longest)
    (wrap Count_width (nused_ t + n)) (wrap Count_width (nallocs_ t + 1)));;
  mret (best_index s).

Definition Unmark (index n : Z) : ST RangeTracker unit :=
  c ← on_bits (FindClear index);
  require (u64 (index + n) <=? c);;
  on_bits (ClearRange index n);;
  modify (λ t, mk_tracker (bits_ t) (longest_free_ t)
    (wrap Count_width (nused_ t - n)) (wrap Count_width (nallocs_ t - 1)));;
  lim ← on_bits (FindSet (u64 (index + n - 1)));
  i ← on_bits (FindSetBackwards index);
  let index := u64 (i + 1) in
  let n := u64 (lim - index) in
  longest ← longest_free;
  if longest <? n
  then modify (λ t, mk_tracker (bits_ t) (wrap Count_width n) (nused_ t) (nallocs_ t))
  else mret tt.

Definition rt_NextFreeRange (start : Z) : ST RangeTracker (option (Z * Z)) :=
  on_bits (NextFreeRange start).

Definition rt_Clear : ST RangeTracker unit :=
  on_bits bm_Clear;;
  modify (λ t, mk_tracker (bits_ t) (wrap Count_width N) 0 0).
End Bitmap.
