(* ===== verification/TcRangeTrackerCorrect.v ===== *)
(** * tcmalloc: correctness of bitmaps and range trackers

    The operations of the bitmap are described by the function from positions to
    bits; the tracker by the list of live ranges. *)

From S2P Require Import Prelude.
From S2P Require Import Bits.
From S2P Require Import TcRangeTracker.

(** ** Positions and words *)

(** Bits of the words of an array of any length. *)
Lemma bit_at_get l i w j :
  get_at l i = Some w → 0 ≤ j < 64 → bit_at l (64 * i + j) = Z.testbit w j.
Proof.
  intros H Hj. unfold get_at in H. destruct (0 <=? i); [|done]. by apply bit_at_lookup.
Qed.

Lemma bit_at_put l i x p :
  0 ≤ i < Z.of_nat (length l) → 0 ≤ p →
  bit_at (<[Z.to_nat i := x]> l) p =
    if p / 64 =? i then Z.testbit x (p mod 64) else bit_at l p.
Proof.
  intros Hi Hp. unfold bit_at. assert (0 ≤ p / 64) by (apply Z.div_pos; lia).
  destruct (Z.eqb_spec (p / 64) i) as [->|Hne].
  - by rewrite list_lookup_insert_eq by lia.
  - by rewrite list_lookup_insert_ne by lia.
Qed.

(** A range of one word. *)
Lemma in_word i a b p :
  0 ≤ a → b ≤ 64 → (64 * i + a ≤ p < 64 * i + b) ↔ p / 64 = i ∧ a ≤ p mod 64 < b.
Proof.
  intros Ha Hb. pose proof (Z.div_mod p 64). pose proof (Z.mod_pos_bound p 64).
  split; [|lia]. intros Hp. assert (p / 64 = i) by (symmetry; apply Z.div_unique with (p - 64 * i); lia).
  lia.
Qed.

Lemma div64 p : 0 ≤ p → p = 64 * (p / 64) + p mod 64 ∧ 0 ≤ p mod 64 < 64 ∧ 0 ≤ p / 64.
Proof.
  intros Hp. pose proof (Z.div_mod p 64). pose proof (Z.mod_pos_bound p 64).
  pose proof (Z.div_pos p 64). lia.
Qed.

Lemma range_mask_testbit from n j :
  0 ≤ from → 0 < n → from + n ≤ 64 → 0 ≤ j →
  Z.testbit (range_mask from n) j = (from <=? j) && (j <? from + n).
Proof.
  intros Hf Hn Hle Hj. unfold range_mask, kWordSize.
  rewrite wrap_testbit, Z.shiftl_spec by lia.
  destruct (Z.leb_spec from j) as [Hfj|Hfj]; simpl.
  - rewrite Z.shiftr_spec, wnot_testbit, Z.bits_0 by lia. simpl.
    destruct (Z.ltb_spec j (from + n)); lia.
  - rewrite Z.testbit_neg_r by lia. lia.
Qed.

Lemma range_mask_word from n : is_word 64 (range_mask from n).
Proof. apply wrap_word. lia. Qed.

(** ** Counting *)

(** The number of positions of [a, a + n) at which [f] holds. *)
Definition count (f : Z → bool) (a n : Z) : Z :=
  Z.of_nat (length (filter (λ p, f p = true) (seqZ a n))).

Lemma count_nil f a n : n ≤ 0 → count f a n = 0.
Proof. intros Hn. unfold count. by rewrite seqZ_nil by done. Qed.

Lemma count_split f a n m : 0 ≤ n → 0 ≤ m → count f a (n + m) = count f a n + count f (a + n) m.
Proof. intros Hn Hm. unfold count. rewrite seqZ_app, filter_app, length_app by lia. lia. Qed.

Lemma count_ext f g a n : (∀ p, a ≤ p < a + n → f p = g p) → count f a n = count g a n.
Proof.
  intros H. unfold count. do 2 f_equal. apply filter_iff. intros p Hp%elem_of_seqZ.
  by rewrite H.
Qed.

Lemma count_true f a n : 0 ≤ n → (∀ p, a ≤ p < a + n → f p = true) → count f a n = n.
Proof.
  intros Hn H. unfold count. assert (filter (λ p, f p = true) (seqZ a n) = seqZ a n) as ->.
  { assert (∀ p, p ∈ seqZ a n → f p = true) as Hf by (intros p Hp%elem_of_seqZ; by apply H).
    revert Hf. generalize (seqZ a n). induction l as [|x l IH]; intros Hl; [done|].
    rewrite filter_cons_True by (apply Hl; set_solver). f_equal. apply IH. set_solver. }
  rewrite length_seqZ. lia.
Qed.

Lemma count_false f a n : (∀ p, a ≤ p < a + n → f p = false) → count f a n = 0.
Proof.
  intros H. unfold count. rewrite filter_none; [done|]. intros p Hp%elem_of_seqZ.
  by rewrite H.
Qed.

Lemma count_one f a : count f a 1 = Z.b2z (f a).
Proof.
  destruct (f a) eqn:E; simpl; [apply count_true; [lia|]|apply count_false];
    intros p Hp; assert (p = a) as -> by lia; done.
Qed.

Lemma count_shift f a k n : count f (a + k) n = count (λ p, f (p + k)) a n.
Proof.
  destruct (Z.le_gt_cases n 0); [by rewrite !count_nil|].
  assert (∀ m : nat, ∀ a, count f (a + k) (Z.of_nat m) = count (λ p, f (p + k)) a (Z.of_nat m)) as Hm.
  { induction m as [|m IH]; intros b; [by rewrite !count_nil|].
    replace (Z.of_nat (S m)) with (1 + Z.of_nat m) by lia.
    rewrite !(count_split _ _ 1), !count_one by lia.
    replace (b + k + 1) with (b + 1 + k) by lia. by rewrite IH. }
  specialize (Hm (Z.to_nat n) a). by rewrite Z2Nat.id in Hm by lia.
Qed.

(** The population count. *)
Lemma popcnt_count v n : 0 ≤ n → 0 ≤ v < 2 ^ n → instr_popcnt v = count (Z.testbit v) 0 n.
Proof.
  intros Hn Hv. destruct v as [|p|p]; [|simpl|lia].
  { rewrite count_false; [done|]. intros. apply Z.bits_0. }
  assert (∀ p n, 0 ≤ n → Zpos p < 2 ^ n → pos_popcnt p = count (Z.testbit (Zpos p)) 0 n) as H;
    [|apply H; lia].
  clear. intros p. induction p as [p IH|p IH|]; intros n Hn Hp.
  all: assert (0 < n) by (destruct (decide (n = 0)) as [->|]; simpl in *; lia).
  all: replace n with (1 + (n - 1)) in * by lia.
  all: rewrite Z.pow_add_r in Hp by lia; rewrite count_split, count_one by lia.
  all: rewrite (count_shift _ 0 1).
  - rewrite (count_ext _ (Z.testbit (Zpos p))).
    + rewrite <-IH by lia. done.
    + intros i Hi. rewrite Pos2Z.inj_xI. rewrite Z.add_1_r. apply Z.testbit_odd_succ. lia.
  - rewrite (count_ext _ (Z.testbit (Zpos p))).
    + rewrite <-IH by lia. done.
    + intros i Hi. rewrite Pos2Z.inj_xO. rewrite Z.add_1_r. apply Z.testbit_even_succ. lia.
  - rewrite count_false; [done|]. intros i Hi. rewrite Z.add_1_r.
    change 1 with (2 * 0 + 1). rewrite Z.testbit_odd_succ by lia. apply Z.bits_0.
Qed.

(** ** Bitmaps *)

Section Bitmap.
Context (N : Z) (HN : 0 < N ≤ 2 ^ 61).

Lemma kWords_bounds : N ≤ 64 * kWords N < N + 64 ∧ 0 < kWords N.
Proof.
  unfold kWords, kWordSize. pose proof (Z.div_mod (N + 64 - 1) 64).
  pose proof (Z.mod_pos_bound (N + 64 - 1) 64). lia.
Qed.

(** The array has its length, and holds 64-bit words. *)
Definition shape (l : Bitmap) : Prop := Z.of_nat (length l) = kWords N ∧ Forall (is_word 64) l.

(** The dead bits at the end are clear. *)
Definition bitmap_ok (l : Bitmap) : Prop := shape l ∧ ∀ p, N ≤ p → bit_at l p = false.

(** [l'] is [l] with the bits from [a] to [b] set to [V]. *)
Definition updated (V : bool) (a b : Z) (l l' : Bitmap) : Prop :=
  ∀ p, 0 ≤ p → bit_at l' p = if decide (a ≤ p < b) then V else bit_at l p.

Lemma updated_trans V a b c l l1 l2 :
  a ≤ b ≤ c → updated V a b l l1 → updated V b c l1 l2 → updated V a c l l2.
Proof.
  intros Hab H1 H2 p Hp. rewrite H2, H1 by done.
  destruct (decide (a ≤ p < b)), (decide (b ≤ p < c)), (decide (a ≤ p < c)); done || lia.
Qed.

Lemma updated_empty V a l : updated V a a l l.
Proof. intros p Hp. by rewrite decide_False by lia. Qed.

Lemma wp_word_at i (Q : Z → Bitmap → Prop) l :
  shape l → 0 ≤ i < kWords N →
  (∀ w, get_at l i = Some w → is_word 64 w → Q w l) → wp true (word_at i) Q l.
Proof.
  intros [Hl Hw] Hi HQ. unfold word_at. destruct (get_at_is_Some l i) as [w Hget]; [lia|].
  wp_step. wp_step. simpl. wp_step; [done|]. apply HQ; [done|].
  unfold get_at in Hget. destruct (0 <=? i); [|done]. by apply (Forall_lookup_1 _ _ _ _ Hw Hget).
Qed.

Lemma wp_set_word i v (Q : unit → Bitmap → Prop) l :
  shape l → 0 ≤ i < kWords N → is_word 64 v →
  (∀ l', shape l' → (∀ p, 0 ≤ p → bit_at l' p =
      if p / 64 =? i then Z.testbit v (p mod 64) else bit_at l p) → Q tt l') →
  wp true (set_word i v) Q l.
Proof.
  intros [Hl Hw] Hi Hv HQ. unfold set_word. wp_step. wp_step. simpl. wp_step.
  wp_step; [apply put_at_Some; lia|]. wp_step. apply HQ.
  - split; [by rewrite length_insert|]. by apply Forall_insert.
  - intros p Hp. apply bit_at_put; lia.
Qed.

(** Setting or clearing bits of one word. *)
Lemma SetWordBits_spec V i from to l :
  shape l → 0 ≤ i < kWords N → 0 ≤ from < to → to ≤ 64 →
  wp true (SetWordBits V i from to)
    (λ _ l', shape l' ∧ updated V (64 * i + from) (64 * i + to) l l') l.
Proof.
  intros Hl Hi Hft Hto. unfold SetWordBits, kWordSize.
  rewrite (wrap_small 64 (to - from)) by (unfold is_word; lia).
  repeat (wp_step; [lia|]). wp_step. wp_step; [lia|]. wp_step. wp_step; [lia|].
  wp_step. wp_step; [lia|]. wp_step. apply wp_word_at; [done|done|]. intros w Hw Hww.
  pose proof (range_mask_word from (to - from)) as Hmw.
  assert (∀ x, is_word 64 x →
    (∀ j, 0 ≤ j < 64 → Z.testbit x j = if decide (from ≤ j < to) then V else Z.testbit w j) →
    wp true (set_word i x)
      (λ _ l', shape l' ∧ updated V (64 * i + from) (64 * i + to) l l') l) as Hset.
  { intros x Hx Hbits. apply wp_set_word; [done..|]. intros l' Hl' Hb. split; [done|].
    intros p Hp. rewrite Hb by done. pose proof (div64 p Hp) as (Ep & Hm & _).
    pose proof (in_word i from to p ltac:(lia) ltac:(lia)) as Hin.
    destruct (Z.eqb_spec (p / 64) i) as [E|E]; [|by rewrite decide_False by tauto].
    rewrite Hbits by done.
    destruct (decide (from ≤ p mod 64 < to)), (decide (64 * i + from ≤ p < 64 * i + to)); try done; try tauto.
    rewrite <-(bit_at_get l i w) by done. by rewrite <-E, <-Ep. }
  destruct V; apply Hset.
  - auto with word.
  - intros j Hj. rewrite Z.lor_spec, range_mask_testbit by lia.
    destruct (decide (from ≤ j < to)).
    + replace ((from <=? j) && (j <? from + (to - from))) with true by lia. apply orb_true_r.
    + replace ((from <=? j) && (j <? from + (to - from))) with false by lia. apply orb_false_r.
  - apply word_land; [lia|done|]. apply wnot_word. lia.
  - intros j Hj. rewrite Z.land_spec, wnot_testbit, range_mask_testbit by lia.
    replace (j <? 64) with true by lia. destruct (decide (from ≤ j < to)).
    + replace ((from <=? j) && (j <? from + (to - from))) with true by lia. apply andb_false_r.
    + replace ((from <=? j) && (j <? from + (to - from))) with false by lia. apply andb_true_r.
Qed.

Lemma SetRangeValue_loop_spec fuel V word n l :
  shape l → 0 ≤ word → 0 ≤ n ≤ 64 * (kWords N - word - 1) → n + 64 ≤ 64 * Z.of_nat fuel →
  wp true (SetRangeValue_loop fuel V word n)
    (λ _ l', shape l' ∧ updated V (64 * (word + 1)) (64 * (word + 1) + n) l l') l.
Proof.
  pose proof kWords_bounds as HK.
  revert word n l. induction fuel as [|fuel IH]; intros word n l Hl Hw Hn Hf; [lia|]. simpl.
  unfold kWordSize. destruct (Z.ltb_spec 0 n) as [Hpos|Hz].
  - set (k := if 64 <? n then 64 else n). assert (0 < k ≤ 64 ∧ k ≤ n ∧ (k < 64 → k = n)).
    { unfold k. destruct (Z.ltb_spec 64 n); lia. }
    wp_step. eapply wp_mono; [apply SetWordBits_spec; [done|lia|lia|lia]|].
    intros _ l1 (Hl1 & Hu1). simpl. rewrite Z.add_0_r in Hu1.
    rewrite (wrap_small 64) by (unfold is_word; lia).
    destruct (decide (k = n)) as [E|E].
    + rewrite E, Z.sub_diag. destruct fuel as [|fuel]; [lia|]. simpl. wp_step. split; [done|].
      by rewrite E in Hu1.
    + assert (k = 64) as Ek by lia. rewrite Ek in *.
      eapply wp_mono; [apply IH; [done|lia..]|]. intros _ l2 (Hl2 & Hu2). split; [done|].
      eapply updated_trans; [|exact Hu1|]; [lia|].
      replace (64 * (word + 1) + 64) with (64 * (word + 1 + 1)) by lia.
      by replace (64 * (word + 1) + n) with (64 * (word + 1 + 1) + (n - 64)) by lia.
  - wp_step. split; [done|]. replace n with 0 by lia. rewrite Z.add_0_r. apply updated_empty.
Qed.

Lemma SetRangeValue_spec V index n l :
  shape l → 0 ≤ index → 0 < n → index + n ≤ N →
  wp true (SetRangeValue N V index n)
    (λ _ l', shape l' ∧ updated V index (index + n) l l') l.
Proof.
  intros Hl Hi Hn Hle. pose proof kWords_bounds as HK. unfold SetRangeValue, kWordSize.
  pose proof (div64 index Hi) as (Ei & Hm & Hd).
  rewrite (wrap_small 64 (index + n)) by (unfold is_word; lia).
  rewrite (wrap_small 64 (index mod 64 + n)) by (unfold is_word; lia).
  set (o := index mod 64) in *. set (w := index / 64) in *.
  wp_step. wp_step; [lia|]. set (k := if 64 <? o + n then 64 else o + n).
  assert (o < k ≤ 64 ∧ k ≤ o + n ∧ (k < 64 → k = o + n)).
  { unfold k. destruct (Z.ltb_spec 64 (o + n)); lia. }
  wp_step. eapply wp_mono; [apply SetWordBits_spec; [done|lia|lia|lia]|].
  intros _ l1 (Hl1 & Hu1). rewrite (wrap_small 64) by (unfold is_word; lia).
  assert (0 ≤ n - (k - o) ≤ 64 * (kWords N - w - 1)).
  { destruct (decide (k = 64)); lia. }
  eapply wp_mono; [apply SetRangeValue_loop_spec; [done|lia|lia|lia]|].
  intros _ l2 (Hl2 & Hu2). split; [done|]. rewrite <-Ei in Hu1.
  destruct (decide (k = 64)) as [E|E].
  - rewrite E in *. eapply updated_trans; [|exact Hu1|]; [lia|].
    replace (64 * w + 64) with (64 * (w + 1)) by lia.
    by replace (index + n) with (64 * (w + 1) + (n - (64 - o))) by lia.
  - assert (k = o + n) as -> by lia. replace (n - (o + n - o)) with 0 in Hu2 by lia.
    rewrite Z.add_0_r in Hu2. intros p Hp. rewrite Hu2, decide_False by lia.
    by rewrite Hu1 by lia; replace (64 * w + (o + n)) with (index + n) by lia.
Qed.

(** ** Searching *)

Lemma goal_word_testbit Goal w j :
  is_word 64 w → 0 ≤ j < 64 → Z.testbit (goal_word Goal w) j = eqb (Z.testbit w j) Goal.
Proof.
  intros Hw Hj. destruct Goal; simpl; [by destruct (Z.testbit w j)|].
  rewrite wnot_testbit by lia. replace (j <? 64) with true by lia. by destruct (Z.testbit w j).
Qed.

Lemma goal_word_word Goal w : is_word 64 w → is_word 64 (goal_word Goal w).
Proof. intros Hw. destruct Goal; [done|]. apply wnot_word. lia. Qed.

(** [r] is the first position from [index] on with the value [Goal], or [N]. *)
Definition first_value (l : Bitmap) (Goal : bool) (index r : Z) : Prop :=
  index ≤ r ≤ N ∧ (r < N → bit_at l r = Goal) ∧ ∀ p, index ≤ p < r → bit_at l p = negb Goal.

(** The bits of [here] are the positions of word [word], from [lo] to [hi], that
    have the value [Goal]. *)
Definition here_ok (l : Bitmap) (Goal : bool) (lo hi word here : Z) : Prop :=
  is_word 64 here ∧
  ∀ j, 0 ≤ j < 64 → Z.testbit here j =
    (lo <=? 64 * word + j) && (64 * word + j <=? hi) && eqb (bit_at l (64 * word + j)) Goal.

Lemma here_ok_word l Goal lo hi word w :
  get_at l word = Some w → is_word 64 w → lo ≤ 64 * word → 64 * word + 63 ≤ hi →
  here_ok l Goal lo hi word (goal_word Goal w).
Proof.
  intros Hget Hw Hlo Hhi. split; [by apply goal_word_word|]. intros j Hj.
  rewrite goal_word_testbit, (bit_at_get l word w j) by done.
  by replace ((lo <=? 64 * word + j) && (64 * word + j <=? hi)) with true by lia.
Qed.

Lemma here_ok_zero l Goal lo hi word :
  here_ok l Goal lo hi word 0 →
  ∀ p, 64 * word ≤ p < 64 * word + 64 → lo ≤ p ≤ hi → bit_at l p = negb Goal.
Proof.
  intros [_ H] p Hp Hlo. specialize (H (p - 64 * word) ltac:(lia)).
  replace (64 * word + (p - 64 * word)) with p in H by lia. rewrite Z.bits_0 in H.
  replace ((lo <=? p) && (p <=? hi)) with true in H by lia. by destruct (bit_at l p), Goal.
Qed.

Lemma FindValue_loop_spec fuel Goal index word here l :
  bitmap_ok l → 0 ≤ index < N → index / 64 ≤ word < kWords N →
  here_ok l Goal index (64 * word + 63) word here →
  (∀ p, index ≤ p < 64 * word → bit_at l p = negb Goal) →
  kWords N - word ≤ Z.of_nat fuel →
  wp true (FindValue_loop N fuel Goal word here)
    (λ r l', l' = l ∧ first_value l Goal index r) l.
Proof.
  intros [Hl Hdead] Hi. pose proof kWords_bounds as HK. pose proof (div64 index ltac:(lia)) as Hd.
  revert word here. induction fuel as [|fuel IH]; intros word here Hw Hh Hlow Hf; [lia|].
  simpl. destruct (Z.eqb_spec here 0) as [->|Hne].
  - assert (∀ p, index ≤ p < 64 * (word + 1) → bit_at l p = negb Goal) as Hlow'.
    { intros p Hp. destruct (Z.lt_ge_cases p (64 * word)); [apply Hlow; lia|].
      apply (here_ok_zero _ _ _ _ _ Hh); lia. }
    destruct (Z.leb_spec (kWords N) (word + 1)).
    + wp_step. split; [done|]. split_and!; [lia|lia|lia|]. intros p Hp. apply Hlow'. lia.
    + wp_step. apply wp_word_at; [done|lia|]. intros w Hget Hw64.
      apply IH; [lia| |done|lia]. apply here_ok_word; [done|done|lia|lia].
  - destruct Hh as [Hhw Hbits]. unfold FindFirstSet. unfold is_word in Hhw.
    wp_step. wp_step. wp_step; [lia|]. wp_step.
    pose proof (tzcnt_lt 64 here ltac:(lia) ltac:(lia)) as Hb.
    pose proof (tzcnt_bit 64 here ltac:(lia)) as Hset.
    pose proof (λ i, tzcnt_low 64 here i ltac:(lia)) as Hlo.
    set (b := instr_tzcnt 64 here) in *. unfold kWordSize.
    rewrite (wrap_small 64 (word * 64)) by (unfold is_word; lia).
    rewrite (wrap_small 64 (b + word * 64)) by (unfold is_word; lia).
    rewrite Hbits in Hset by lia. apply andb_prop in Hset as [Hpos Hval].
    assert (bit_at l (64 * word + b) = Goal) as Hgoal by (by destruct (bit_at l _), Goal).
    assert (∀ p, index ≤ p < 64 * word + b → bit_at l p = negb Goal) as Hlow'.
    { intros p Hp. destruct (Z.lt_ge_cases p (64 * word)); [apply Hlow; lia|].
      specialize (Hlo (p - 64 * word) ltac:(lia)). rewrite Hbits in Hlo by lia.
      replace (64 * word + (p - 64 * word)) with p in Hlo by lia.
      replace ((index <=? p) && (p <=? 64 * word + 63)) with true in Hlo by lia.
      by destruct (bit_at l p), Goal. }
    unfold kDeadBits, kWordSize. wp_step. split; [done|].
    destruct (Z.ltb_spec 0 (64 * kWords N - N)), (Z.ltb_spec N (b + word * 64)); simpl.
    2-4: split_and!; [lia|lia|intros _; by replace (b + word * 64) with (64 * word + b) by lia
                     |intros p Hp; apply Hlow'; lia].
    split_and!; [lia|lia|lia|intros p Hp; apply Hlow'; lia].
Qed.

Lemma shifted_ones_testbit o j :
  0 ≤ o → 0 ≤ j < 64 → Z.testbit (u64 (wnot 64 0 ≪ o)) j = (o <=? j).
Proof.
  intros Ho Hj. rewrite wrap_testbit, Z.shiftl_spec by lia.
  replace (j <? 64) with true by lia. destruct (Z.leb_spec o j); simpl.
  - rewrite wnot_testbit, Z.bits_0 by lia. lia.
  - apply Z.testbit_neg_r. lia.
Qed.

Lemma FindValue_spec Goal index l :
  bitmap_ok l → 0 ≤ index < N →
  wp true (FindValue N Goal index) (λ r l', l' = l ∧ first_value l Goal index r) l.
Proof.
  intros Hok Hi. pose proof kWords_bounds as HK. unfold FindValue, kWordSize.
  pose proof (div64 index ltac:(lia)) as (Ei & Hm & Hd).
  wp_step. wp_step; [lia|]. wp_step. apply wp_word_at; [apply Hok|lia|]. intros w Hget Hw.
  apply FindValue_loop_spec; [done|done|lia| |lia|lia].
  split.
  { apply word_land; [lia|by apply goal_word_word|]. apply wrap_word. lia. }
  intros j Hj. rewrite Z.land_spec, goal_word_testbit, shifted_ones_testbit by (done || lia).
  rewrite (bit_at_get l _ w j) by done.
  replace (64 * (index / 64) + j <=? 64 * (index / 64) + 63) with true by lia.
  replace (index <=? 64 * (index / 64) + j) with (index mod 64 <=? j) by lia.
  rewrite andb_true_r. apply andb_comm.
Qed.

(** [r] is the last position up to [index] with the value [Goal], or -1. *)
Definition last_value (l : Bitmap) (Goal : bool) (index r : Z) : Prop :=
  -1 ≤ r ≤ index ∧ (0 ≤ r → bit_at l r = Goal) ∧ ∀ p, r < p ≤ index → 0 ≤ p → bit_at l p = negb Goal.

Lemma FindValueBackwards_loop_spec fuel Goal index word here l :
  bitmap_ok l → 0 ≤ index < N → 0 ≤ word ≤ index / 64 →
  here_ok l Goal (64 * word) index word here →
  (∀ p, 64 * (word + 1) ≤ p ≤ index → bit_at l p = negb Goal) →
  word < Z.of_nat fuel →
  wp true (FindValueBackwards_loop fuel Goal word here)
    (λ r l', l' = l ∧ last_value l Goal index r) l.
Proof.
  intros [Hl Hdead] Hi. pose proof kWords_bounds as HK. pose proof (div64 index ltac:(lia)) as Hd.
  revert word here. induction fuel as [|fuel IH]; intros word here Hw Hh Hhigh Hf; [lia|].
  simpl. destruct (Z.eqb_spec here 0) as [->|Hne].
  - assert (∀ p, 64 * word ≤ p ≤ index → bit_at l p = negb Goal) as Hhigh'.
    { intros p Hp. destruct (Z.le_gt_cases (64 * (word + 1)) p); [apply Hhigh; lia|].
      apply (here_ok_zero _ _ _ _ _ Hh); lia. }
    destruct (Z.ltb_spec (word - 1) 0).
    + wp_step. split; [done|]. split_and!; [lia|lia|lia|]. intros p Hp Hp0. apply Hhigh'. lia.
    + wp_step. apply wp_word_at; [done|lia|]. intros w Hget Hw64.
      apply IH; [lia| | |lia].
      * apply here_ok_word; [done|done|lia|lia].
      * replace (word - 1 + 1) with word by lia. done.
  - destruct Hh as [Hhw Hbits]. unfold FindLastSet, instr_lzcnt. unfold is_word in Hhw.
    replace (here =? 0) with false by lia. simpl.
    wp_step. wp_step. wp_step; [done|]. wp_step.
    replace (64 - 1 - (64 - 1 - Z.log2 here)) with (Z.log2 here) by lia.
    pose proof (Z.log2_nonneg here).
    assert (Z.log2 here < 64) by (apply Z.log2_lt_pow2; lia).
    pose proof (Z.bit_log2 here ltac:(lia)) as Hset.
    pose proof (λ i, Z.bits_above_log2 here i ltac:(lia)) as Hhi.
    set (b := Z.log2 here) in *. unfold kWordSize. wp_step. split; [done|].
    rewrite Hbits in Hset by lia. apply andb_prop in Hset as [Hpos Hval].
    replace (b + word * 64) with (64 * word + b) by lia.
    split_and!; [lia|lia|intros _; by destruct (bit_at l _), Goal|].
    intros p Hp Hp0. destruct (Z.le_gt_cases (64 * (word + 1)) p); [apply Hhigh; lia|].
    specialize (Hhi (p - 64 * word) ltac:(lia)). rewrite Hbits in Hhi by lia.
    replace (64 * word + (p - 64 * word)) with p in Hhi by lia.
    replace ((64 * word <=? p) && (p <=? index)) with true in Hhi by lia.
    by destruct (bit_at l p), Goal.
Qed.

Lemma low_ones_testbit o j :
  0 ≤ o < 64 → 0 ≤ j < 64 → Z.testbit (u64 (u64 (2 ≪ o) - 1)) j = (j <=? o).
Proof.
  intros Ho Hj. replace (2 ≪ o) with (2 ^ (o + 1))
    by (rewrite Z.shiftl_mul_pow2, Z.pow_add_r by lia; lia).
  assert (Z.testbit (u64 (u64 (2 ^ (o + 1)) - 1)) j = Z.testbit (Z.ones (o + 1)) j) as ->.
  { destruct (decide (o = 63)) as [->|].
    - change (u64 (u64 (2 ^ (63 + 1)) - 1)) with (Z.ones 64). by change (63 + 1) with 64.
    - assert (2 ^ (o + 1) < 2 ^ 64) by (apply Z.pow_lt_mono_r; lia).
      rewrite (wrap_small 64 (2 ^ (o + 1))) by (unfold is_word; lia).
      rewrite wrap_small by (unfold is_word; lia). by rewrite Z.ones_equiv, Z.sub_1_r. }
  destruct (Z.leb_spec j o); [apply Z.ones_spec_low; lia|apply Z.ones_spec_high; lia].
Qed.

Lemma FindValueBackwards_spec Goal index l :
  bitmap_ok l → 0 ≤ index < N →
  wp true (FindValueBackwards N Goal index) (λ r l', l' = l ∧ last_value l Goal index r) l.
Proof.
  intros Hok Hi. pose proof kWords_bounds as HK. unfold FindValueBackwards, kWordSize.
  pose proof (div64 index ltac:(lia)) as (Ei & Hm & Hd).
  wp_step. apply wp_word_at; [apply Hok|lia|]. intros w Hget Hw.
  apply FindValueBackwards_loop_spec; [done|done|lia| |lia|lia].
  split.
  { apply word_land; [lia|by apply goal_word_word|]. apply wrap_word. lia. }
  intros j Hj. rewrite Z.land_spec, goal_word_testbit, low_ones_testbit by (done || lia).
  rewrite (bit_at_get l _ w j) by done.
  replace (64 * (index / 64) <=? 64 * (index / 64) + j) with true by lia.
  replace (64 * (index / 64) + j <=? index) with (j <=? index mod 64) by lia.
  simpl. apply andb_comm.
Qed.

(** The next free range: maximal to the right, with only set bits before it. *)
Lemma NextFreeRange_spec start l :
  bitmap_ok l → 0 ≤ start ≤ N →
  wp true (NextFreeRange N start) (λ r l', l' = l ∧
    match r with
    | None => ∀ p, start ≤ p < N → bit_at l p = true
    | Some (i, len) => start ≤ i ∧ 0 < len ∧ i + len ≤ N ∧
        (∀ p, start ≤ p < i → bit_at l p = true) ∧
        (∀ p, i ≤ p < i + len → bit_at l p = false) ∧
        (i + len = N ∨ bit_at l (i + len) = true)
    end) l.
Proof.
  intros Hok Hs. unfold NextFreeRange. destruct (Z.leb_spec N start).
  { wp_step. split; [done|]. lia. }
  wp_step. eapply wp_mono; [apply FindValue_spec; [done|lia]|]. intros i l' (-> & Hi & Hv & Hb).
  simpl in *. destruct (Z.eqb_spec i N) as [->|Hne].
  { wp_step. split; [done|]. apply Hb. }
  wp_step. eapply wp_mono; [apply FindValue_spec; [done|lia]|]. intros j l' (-> & Hj & Hv' & Hb').
  simpl in *. wp_step. split; [done|]. rewrite wrap_small by (unfold is_word; lia).
  replace (i + (j - i)) with j by lia.
  assert (i ≠ j).
  { intros <-. rewrite Hv in Hv' by lia. specialize (Hv' ltac:(lia)). done. }
  split_and!; [lia|lia|lia|done|done|].
  destruct (decide (j = N)); [by left|right; apply Hv'; lia].
Qed.

(** ** Counting, single bits, clearing *)

Lemma CountWordBits_spec i from to l :
  shape l → 0 ≤ i < kWords N → 0 ≤ from < to → to ≤ 64 →
  wp true (CountWordBits i from to)
    (λ c l', l' = l ∧ c = count (bit_at l) (64 * i + from) (to - from)) l.
Proof.
  intros Hl Hi Hft Hto. unfold CountWordBits, kWordSize, CountSetBits.
  rewrite (wrap_small 64 (to - from)) by (unfold is_word; lia).
  do 3 (wp_step; wp_step; [lia|]). wp_step. apply wp_word_at; [done|done|]. intros w Hw Hww.
  wp_step. split; [done|].
  assert (is_word 64 (Z.land w (range_mask from (to - from)))) as Hm.
  { apply word_land; [lia|done|]. apply range_mask_word. }
  rewrite (popcnt_count _ 64) by (done || lia).
  replace 64 with (from + ((to - from) + (64 - to))) at 1 by lia.
  rewrite !count_split, (count_false _ 0), (count_false _ (0 + from + (to - from))) by
    (lia || (intros p Hp; rewrite Z.land_spec, range_mask_testbit by lia;
      apply andb_false_iff; right; lia)).
  rewrite Z.add_0_r. replace (64 * i + from) with (0 + from + 64 * i) by lia.
  rewrite (count_shift (bit_at l) (0 + from) (64 * i)).
  apply count_ext. intros p Hp. rewrite Z.land_spec, range_mask_testbit by lia.
  replace ((from <=? p) && (p <? from + (to - from))) with true by lia. rewrite andb_true_r.
  rewrite Z.add_comm. symmetry. apply bit_at_get; [done|lia].
Qed.

Lemma count_bounds f a n : 0 ≤ n → 0 ≤ count f a n ≤ n.
Proof using Type.
  intros Hn. unfold count. pose proof (length_filter (λ p, f p = true) (seqZ a n)) as H.
  rewrite length_seqZ in H. lia.
Qed.

Lemma CountBits_loop_spec fuel word n c l :
  shape l → 0 ≤ word → 0 ≤ n ≤ 64 * (kWords N - word - 1) → n + 64 ≤ 64 * Z.of_nat fuel →
  0 ≤ c → c + n < 2 ^ 63 →
  wp true (CountBits_loop fuel word n c)
    (λ r l', l' = l ∧ r = c + count (bit_at l) (64 * (word + 1)) n) l.
Proof.
  pose proof kWords_bounds as HK. intros Hl.
  revert word n c. induction fuel as [|fuel IH]; intros word n c Hw Hn Hf Hc Hcn; [lia|]. simpl.
  unfold kWordSize. destruct (Z.ltb_spec 0 n) as [Hpos|Hz].
  - set (k := Z.min n 64). assert (0 < k ≤ 64 ∧ k ≤ n ∧ (k < 64 → k = n)) by lia.
    wp_step. eapply wp_mono; [apply CountWordBits_spec; [done|lia|lia|lia]|].
    intros x l' (-> & ->). simpl. rewrite Z.add_0_r, Z.sub_0_r.
    pose proof (count_bounds (bit_at l) (64 * (word + 1)) k ltac:(lia)).
    rewrite !(wrap_small 64) by (unfold is_word; lia).
    destruct (decide (k = n)) as [E|E].
    + rewrite E, Z.sub_diag. destruct fuel as [|fuel]; [lia|]. simpl. wp_step. done.
    + assert (k = 64) as Ek by lia. rewrite Ek in *.
      eapply wp_mono; [apply IH; lia|]. intros r l' (-> & ->). split; [done|].
      replace n with (64 + (n - 64)) at 2 by lia. rewrite count_split by lia.
      replace (64 * (word + 1) + 64) with (64 * (word + 1 + 1)) by lia. lia.
  - wp_step. split; [done|]. rewrite count_nil by lia. lia.
Qed.

Lemma CountBits_spec index n l :
  shape l → 0 ≤ index → 0 ≤ n → index + n ≤ N →
  wp true (CountBits N index n) (λ r l', l' = l ∧ r = count (bit_at l) index n) l.
Proof.
  intros Hl Hi Hn Hle. pose proof kWords_bounds as HK. unfold CountBits, kWordSize.
  pose proof (div64 index Hi) as (Ei & Hm & Hd).
  rewrite (wrap_small 64 (index + n)) by (unfold is_word; lia).
  rewrite (wrap_small 64 (index mod 64 + n)) by (unfold is_word; lia).
  set (o := index mod 64) in *. set (w := index / 64) in *.
  wp_step. wp_step; [lia|]. destruct (Z.eqb_spec n 0) as [->|Hn0].
  { wp_step. split; [done|]. by rewrite count_nil. }
  set (k := Z.min (o + n) 64). assert (o < k ≤ 64 ∧ k ≤ o + n ∧ (k < 64 → k = o + n)) by lia.
  wp_step. eapply wp_mono; [apply CountWordBits_spec; [done|lia|lia|lia]|].
  intros c l' (-> & ->). rewrite <-Ei. rewrite (wrap_small 64) by (unfold is_word; lia).
  pose proof (count_bounds (bit_at l) index (k - o) ltac:(lia)).
  assert (0 ≤ n - (k - o) ≤ 64 * (kWords N - w - 1)) by (destruct (decide (k = 64)); lia).
  eapply wp_mono; [apply CountBits_loop_spec; [done|lia..]|].
  intros r l' (-> & ->). split; [done|].
  replace n with ((k - o) + (n - (k - o))) at 2 by lia. rewrite count_split by lia.
  destruct (decide (k = 64)).
  - by replace (index + (k - o)) with (64 * (w + 1)) by lia.
  - by rewrite !(count_nil _ _ (n - (k - o))) by lia.
Qed.

(** Single bits. *)
Lemma bit_splits p i : 0 ≤ p → 0 ≤ i → (p / 64 = i / 64 ∧ p mod 64 = i mod 64) ↔ p = i.
Proof using Type.
  intros Hp Hi. pose proof (div64 p Hp) as (? & _). pose proof (div64 i Hi) as (? & _).
  split; [intros [E1 E2]; congruence|by intros ->].
Qed.

Lemma GetBit_spec i l :
  shape l → 0 ≤ i < N → wp true (GetBit i) (λ b l', l' = l ∧ b = bit_at l i) l.
Proof.
  intros Hl Hi. pose proof kWords_bounds as HK. pose proof (div64 i ltac:(lia)) as (Ei & Hm & Hd).
  unfold GetBit, kWordSize. wp_step. apply wp_word_at; [done|lia|]. intros w Hw Hww. wp_step.
  split; [done|]. rewrite Ei at 2. rewrite (bit_at_get l _ w) by done.
  destruct (Z.testbit w (i mod 64)) eqn:E.
  - destruct (Z.eqb_spec (Z.land w (1 ≪ (i mod 64))) 0) as [E0|]; [|done].
    apply (f_equal (λ x, Z.testbit x (i mod 64))) in E0.
    rewrite Z.land_spec, E, testbit_bit, Z.eqb_refl, Z.bits_0 in E0 by lia. done.
  - destruct (Z.eqb_spec (Z.land w (1 ≪ (i mod 64))) 0) as [|E0]; [done|]. exfalso. apply E0.
    apply Z.bits_inj'. intros j Hj. rewrite Z.land_spec, testbit_bit, Z.bits_0 by lia.
    destruct (Z.eqb_spec (i mod 64) j) as [<-|]; [by rewrite E|apply andb_false_r].
Qed.

Lemma SetBit_spec i l :
  shape l → 0 ≤ i < N → wp true (SetBit i) (λ _ l', shape l' ∧ updated true i (i + 1) l l') l.
Proof.
  intros Hl Hi. pose proof kWords_bounds as HK. pose proof (div64 i ltac:(lia)) as (Ei & Hm & Hd).
  unfold SetBit, kWordSize. wp_step. apply wp_word_at; [done|lia|]. intros w Hw Hww.
  apply wp_set_word; [done|lia|auto with word|]. intros l' Hl' Hb. split; [done|].
  intros p Hp. rewrite Hb by done. pose proof (bit_splits p i Hp ltac:(lia)).
  pose proof (div64 p Hp) as (Ep & Hpm & _).
  destruct (Z.eqb_spec (p / 64) (i / 64)) as [E|E]; [|by rewrite decide_False by (intros ?; apply E; f_equal; lia)].
  rewrite Z.lor_spec, testbit_bit by lia. destruct (Z.eqb_spec (i mod 64) (p mod 64)).
  - rewrite decide_True by lia. apply orb_true_r.
  - rewrite decide_False, orb_false_r by lia. rewrite Ep at 2. rewrite E. symmetry.
    by apply bit_at_get.
Qed.

Lemma ClearBit_spec i l :
  shape l → 0 ≤ i < N → wp true (ClearBit i) (λ _ l', shape l' ∧ updated false i (i + 1) l l') l.
Proof.
  intros Hl Hi. pose proof kWords_bounds as HK. pose proof (div64 i ltac:(lia)) as (Ei & Hm & Hd).
  unfold ClearBit, kWordSize. wp_step. apply wp_word_at; [done|lia|]. intros w Hw Hww.
  apply wp_set_word; [done|lia|apply word_land; [lia|done|apply wnot_word; lia]|].
  intros l' Hl' Hb. split; [done|].
  intros p Hp. rewrite Hb by done. pose proof (bit_splits p i Hp ltac:(lia)).
  pose proof (div64 p Hp) as (Ep & Hpm & _).
  destruct (Z.eqb_spec (p / 64) (i / 64)) as [E|E]; [|by rewrite decide_False by (intros ?; apply E; f_equal; lia)].
  rewrite Z.land_spec, wnot_testbit, testbit_bit by lia. replace (p mod 64 <? 64) with true by lia.
  destruct (Z.eqb_spec (i mod 64) (p mod 64)).
  - rewrite decide_True by lia. apply andb_false_r.
  - rewrite decide_False, andb_true_r by lia. rewrite Ep at 2. rewrite E. symmetry.
    by apply bit_at_get.
Qed.

Lemma bm_Clear_loop_spec n i l :
  shape l → 0 ≤ i → i + Z.of_nat n ≤ kWords N →
  wp true (bm_Clear_loop n i)
    (λ _ l', shape l' ∧ updated false (64 * i) (64 * (i + Z.of_nat n)) l l') l.
Proof.
  revert i l. induction n as [|n IH]; intros i l Hl Hi Hn; simpl.
  { wp_step. split; [done|]. rewrite Z.add_0_r. apply updated_empty. }
  wp_step. apply wp_set_word; [done|lia|apply word_0; lia|]. intros l1 Hl1 Hb.
  eapply wp_mono; [apply IH; [done|lia|lia]|]. intros _ l2 (Hl2 & Hu). split; [done|].
  replace (64 * (i + Z.of_nat (S n))) with (64 * (i + 1 + Z.of_nat n)) by lia.
  eapply updated_trans; [|intros p Hp; rewrite Hb by done|exact Hu]; [lia|].
  pose proof (in_word i 0 64 p ltac:(lia) ltac:(lia)). pose proof (div64 p Hp).
  destruct (Z.eqb_spec (p / 64) i); [rewrite decide_True by lia; apply Z.bits_0|].
  by rewrite decide_False by lia.
Qed.

Lemma updated_ok V a b l l' :
  bitmap_ok l → shape l' → 0 ≤ a → b ≤ N → updated V a b l l' → bitmap_ok l'.
Proof.
  intros [_ Hd] Hl' Ha Hb Hu. split; [done|]. intros p Hp. rewrite Hu, decide_False by lia.
  by apply Hd.
Qed.

(** Bits past the array are clear. *)
Lemma bit_at_past l p : shape l → 64 * kWords N ≤ p → bit_at l p = false.
Proof.
  intros [Hl _] Hp. pose proof (div64 p ltac:(pose proof kWords_bounds; lia)).
  unfold bit_at. rewrite lookup_ge_None_2; [done|]. lia.
Qed.

Lemma bm_Clear_spec l :
  shape l → wp true (bm_Clear N) (λ _ l', bitmap_ok l' ∧ ∀ p, 0 ≤ p → bit_at l' p = false) l.
Proof.
  intros Hl. pose proof kWords_bounds as HK. unfold bm_Clear.
  eapply wp_mono; [apply bm_Clear_loop_spec; [done|lia|lia]|]. intros _ l' (Hl' & Hu).
  assert (∀ p, 0 ≤ p → bit_at l' p = false) as H.
  { intros p Hp. destruct (Z.lt_ge_cases p (64 * kWords N)); [|by apply bit_at_past].
    rewrite Hu by done. by rewrite decide_True by lia. }
  split; [|done]. split; [done|]. intros p Hp. apply H. lia.
Qed.

Lemma new_bitmap_ok : bitmap_ok (new_bitmap N) ∧ ∀ p, bit_at (new_bitmap N) p = false.
Proof.
  pose proof kWords_bounds as HK. assert (∀ p, bit_at (new_bitmap N) p = false) as H.
  { intros p. unfold bit_at, new_bitmap. destruct (replicate _ _ !! _) as [x|] eqn:E; [|done].
    apply lookup_replicate in E as [-> _]. apply Z.bits_0. }
  split; [|done]. split; [|intros p _; apply H]. split.
  - unfold new_bitmap. rewrite length_replicate. lia.
  - apply Forall_replicate. apply word_0. lia.
Qed.
End Bitmap.
