(* ===== verification/TcRangeTrackerTheorems.v ===== *)
(** * tcmalloc: theorems about bitmaps and range trackers

    The tracker implements an allocator of disjoint ranges with best fit, and
    knows the length of its longest free range. *)

From S2P Require Import Prelude.
From S2P Require Import Bits.
From S2P Require Import TcRangeTracker.
From S2P Require Import TcRangeTrackerCorrect.

(** The largest of a list of nonnegative numbers. *)
Definition maxl (l : list Z) : Z := foldr Z.max 0 l.

Lemma maxl_app l k : maxl (l ++ k) = Z.max (maxl l) (maxl k).
Proof. unfold maxl. induction l as [|x l IH]; simpl; [|rewrite IH; lia].
  induction k as [|y k IHk]; simpl; lia.
Qed.

Lemma maxl_nonneg l : 0 ≤ maxl l.
Proof. induction l; simpl; lia. Qed.

Lemma maxl_ge l x : x ∈ l → x ≤ maxl l.
Proof. induction 1; simpl; lia. Qed.

Lemma maxl_attained l : maxl l = 0 ∨ maxl l ∈ l.
Proof.
  induction l as [|x l IH]; simpl; [by left|]. pose proof (maxl_nonneg l).
  destruct (Z.max_spec x (maxl l)) as [[? ->]|[? ->]].
  - destruct IH as [->|IH]; [by left|right; set_solver].
  - right. set_solver.
Qed.

#[export] Instance maxl_perm : Proper ((≡ₚ) ==> (=)) maxl.
Proof. induction 1; simpl; lia. Qed.

Section Tracker.
Context (N : Z) (HN : 0 < N ≤ 2 ^ 61).
Implicit Types (f : Z → bool) (rs A : list (Z * Z)).

(** ** Free ranges in order *)

Definition clear_in f (a n : Z) : Prop := ∀ p, a ≤ p < a + n → f p = false.

(** The free ranges from [pos] on: start and length. *)
Inductive runs f : Z → list (Z * Z) → Prop :=
  | runs_nil pos : (∀ p, pos ≤ p < N → f p = true) → runs f pos []
  | runs_cons pos i len rs :
      pos ≤ i → 0 < len → i + len ≤ N →
      (∀ p, pos ≤ p < i → f p = true) → clear_in f i len →
      (i + len = N ∨ f (i + len) = true) →
      runs f (i + len) rs → runs f pos ((i, len) :: rs).

Lemma runs_elem f pos rs i len :
  runs f pos rs → (i, len) ∈ rs → pos ≤ i ∧ 0 < len ∧ i + len ≤ N ∧ clear_in f i len.
Proof.
  induction 1 as [|pos i' len' rs H1 H2 H3 H4 H5 H6 H7 IH]; intros Hin; [set_solver|].
  apply elem_of_cons in Hin as [[= -> ->]|Hin]; [done|].
  destruct (IH Hin) as (? & ? & ? & ?). split_and!; [lia|done..].
Qed.

(** Every free interval is inside of one of them. *)
Lemma runs_cover f pos rs a n :
  runs f pos rs → pos ≤ a → 0 < n → a + n ≤ N → clear_in f a n →
  ∃ i len, (i, len) ∈ rs ∧ i ≤ a ∧ a + n ≤ i + len.
Proof.
  induction 1 as [pos H|pos i len rs H1 H2 H3 H4 H5 H6 H7 IH]; intros Ha Hn HaN Hc.
  { specialize (H a ltac:(lia)). rewrite Hc in H by lia. done. }
  destruct (Z.lt_ge_cases a i) as [Hlt|Hge].
  { specialize (H4 a ltac:(lia)). rewrite Hc in H4 by lia. done. }
  destruct (Z.lt_ge_cases a (i + len)) as [Hin|Hout].
  - exists i, len. split; [set_solver|]. split; [done|].
    destruct (Z.le_gt_cases (a + n) (i + len)); [done|].
    destruct H6 as [?|H6]; [lia|]. rewrite Hc in H6 by lia. done.
  - destruct (IH Hout Hn HaN Hc) as (i' & len' & ? & ?). exists i', len'. set_solver.
Qed.

Lemma runs_tail f pos i len rs : runs f pos ((i, len) :: rs) → runs f (i + len) rs.
Proof. by inversion 1. Qed.

(** They are in order. *)
Lemma runs_order f pos pre i len post :
  runs f pos (pre ++ (i, len) :: post) →
  (∀ r, r ∈ pre → r.1 + r.2 ≤ i) ∧ (∀ r, r ∈ post → i + len ≤ r.1).
Proof.
  revert pos. induction pre as [|[i0 l0] pre IH]; intros pos H; simpl in H.
  - apply runs_tail in H. split; [set_solver|]. intros [i' l'] Hin.
    by destruct (runs_elem f _ _ _ _ H Hin) as (? & _).
  - apply runs_tail in H. destruct (IH _ H) as [Hpre Hpost]. split; [|done].
    intros r Hr. apply elem_of_cons in Hr as [->|Hr]; [|by apply Hpre]. simpl.
    destruct (runs_elem f _ _ i len H) as (? & _); [set_solver|done].
Qed.

(** A free range that cannot be extended. *)
Definition maximal f (i len : Z) : Prop :=
  0 ≤ i ∧ 0 < len ∧ i + len ≤ N ∧ clear_in f i len ∧
  (i = 0 ∨ f (i - 1) = true) ∧ (i + len = N ∨ f (i + len) = true).

Lemma runs_maximal f pos rs i len :
  runs f pos rs → 0 ≤ pos → (pos = 0 ∨ pos = N ∨ f pos = true) → (i, len) ∈ rs → maximal f i len.
Proof.
  induction 1 as [|pos i' len' rs H1 H2 H3 H4 H5 H6 H7 IH]; intros Hp Hpos Hin; [set_solver|].
  apply elem_of_cons in Hin as [[= -> ->]|Hin]; [|apply IH; [lia|tauto|done]].
  split_and!; [lia|done|done|done| |done].
  destruct (decide (i' = pos)) as [->|].
  - destruct Hpos as [?|[?|Hpos]]; [by left|lia|]. rewrite H5 in Hpos by lia. done.
  - right. apply H4. lia.
Qed.

Lemma maximal_in_runs f rs i len : runs f 0 rs → maximal f i len → (i, len) ∈ rs.
Proof.
  intros Hr (Hi & Hl & HiN & Hc & Hleft & Hright).
  destruct (runs_cover f 0 rs i len Hr) as (i' & len' & Hin & H1 & H2); [done..|].
  destruct (runs_elem f 0 rs i' len' Hr Hin) as (? & ? & ? & Hc').
  assert (i' = i) as ->.
  { destruct (Z.eq_dec i' i) as [|]; [done|]. destruct Hleft as [?|Hleft]; [lia|].
    rewrite Hc' in Hleft by lia. done. }
  assert (len' = len) as ->; [|done].
  destruct (Z.eq_dec len' len) as [|]; [done|]. destruct Hright as [?|Hright]; [lia|].
  rewrite Hc' in Hright by lia. done.
Qed.

(** ** The scan of FindAndMark *)

Definition lens rs : list Z := rs.*2.

(** After the ranges [rs]: the two largest lengths, and the best range. *)
Definition scan_ok (n : Z) rs (s : scan) : Prop :=
  (rs = [] ∧ longest_len s = 0 ∧ second_len s = 0 ∨
   ∃ rest, lens rs ≡ₚ longest_len s :: rest ∧ maxl rest = second_len s ∧
     second_len s ≤ longest_len s) ∧
  (best_index s = N ∧ best_len s = 2 * N ∧ (∀ r, r ∈ rs → r.2 < n) ∨
   ∃ pre post, rs = pre ++ (best_index s, best_len s) :: post ∧ n ≤ best_len s ∧
     (∀ r, r ∈ pre → n ≤ r.2 → best_len s < r.2) ∧
     (∀ r, r ∈ post → n ≤ r.2 → best_len s ≤ r.2)).

Lemma scan_range_ok n rs s i len :
  scan_ok n rs s → 0 < len ≤ N → scan_ok n (rs ++ [(i, len)]) (scan_range n s (i, len)).
Proof.
  intros [Htop Hbest] Hlen. unfold scan_range.
  set (ls := if longest_len s <? len then (len, longest_len s)
    else if second_len s <? len then (longest_len s, len) else (longest_len s, second_len s)).
  assert (∃ rest, lens (rs ++ [(i, len)]) ≡ₚ ls.1 :: rest ∧ maxl rest = ls.2 ∧ ls.2 ≤ ls.1) as Htop'.
  { unfold lens. rewrite fmap_app. simpl. unfold ls.
    destruct Htop as [(-> & E1 & E2)|(rest & Hp & Hm & Hle)].
    - rewrite E1, E2. replace (0 <? len) with true by lia. exists []. simpl. split_and!; [done|done|lia].
    - pose proof (maxl_nonneg rest). unfold lens in Hp.
      destruct (Z.ltb_spec (longest_len s) len); [|destruct (Z.ltb_spec (second_len s) len)]; simpl.
      + exists (longest_len s :: rest). split_and!; [|simpl; lia|lia].
        rewrite Hp. by rewrite (comm (++)).
      + exists (rest ++ [len]). split_and!; [by rewrite Hp| |lia]. rewrite maxl_app. simpl. lia.
      + exists (rest ++ [len]). split_and!; [by rewrite Hp| |lia]. rewrite maxl_app. simpl. lia. }
  destruct ls as [L S']; simpl in Htop'.
  destruct (Z.leb_spec n len); [destruct (Z.ltb_spec len (best_len s))|]; simpl.
  - split; [by right|]. right. exists rs, []. simpl. split_and!; [done|done| |set_solver].
    intros r Hr Hn. destruct Hbest as [(_ & E & Hno)|(pre & post & -> & Hb & Hpre & Hpost)].
    + specialize (Hno r Hr). lia.
    + rewrite elem_of_app, elem_of_cons in Hr. destruct Hr as [Hr|[->|Hr]].
      * specialize (Hpre r Hr). lia.
      * done.
      * specialize (Hpost r Hr). lia.
  - split; [by right|]. right.
    destruct Hbest as [(_ & E & Hno)|(pre & post & -> & Hb & Hpre & Hpost)]; [lia|].
    exists pre, (post ++ [(i, len)]). split_and!; [by rewrite <-(assoc_L (++))|done|done|].
    intros r Hr Hn. rewrite elem_of_app, list_elem_of_singleton in Hr.
    destruct Hr as [Hr| ->]; [by apply Hpost|done].
  - split; [by right|]. destruct Hbest as [(E1 & E & Hno)|(pre & post & -> & Hb & Hpre & Hpost)].
    + left. split_and!; [done|done|]. intros r Hr. rewrite elem_of_app, list_elem_of_singleton in Hr.
      destruct Hr as [Hr| ->]; [by apply Hno|simpl; lia].
    + right. exists pre, (post ++ [(i, len)]). split_and!; [by rewrite <-(assoc_L (++))|done|done|].
      intros r Hr Hn. rewrite elem_of_app, list_elem_of_singleton in Hr.
      destruct Hr as [Hr| ->]; [by apply Hpost|simpl in Hn; lia].
Qed.

(** A method that leaves the bitmap alone. *)
Lemma wp_on_bits {B} (m : ST Bitmap B) (Q : B → RangeTracker → Prop) t :
  wp true m (λ b l, Q b (mk_tracker l (longest_free_ t) (nused_ t) (nallocs_ t))) (bits_ t) →
  wp true (on_bits m) Q t.
Proof using Type. unfold wp, on_bits. by destruct (m (bits_ t)) as [[]| | |]. Qed.

Lemma tracker_eta t : mk_tracker (bits_ t) (longest_free_ t) (nused_ t) (nallocs_ t) = t.
Proof using Type. by destruct t. Qed.

Lemma FindAndMark_loop_spec fuel n index rs0 s t :
  bitmap_ok N (bits_ t) → 0 ≤ index ≤ N → scan_ok n rs0 s → N - index < Z.of_nat fuel →
  wp true (FindAndMark_loop N fuel n index s) (λ s' t', t' = t ∧
    ∃ rs, runs (bit_at (bits_ t)) index rs ∧ scan_ok n (rs0 ++ rs) s') t.
Proof.
  intros Hok. revert index rs0 s. induction fuel as [|fuel IH]; intros index rs0 s Hi Hs Hf; [lia|].
  simpl. wp_step. apply wp_on_bits. eapply wp_mono; [by apply NextFreeRange_spec|].
  intros r l (-> & Hr). rewrite tracker_eta. destruct r as [[i len]|].
  - destruct Hr as (H1 & H2 & H3 & H4 & H5 & H6).
    rewrite wrap_small by (unfold is_word; lia).
    eapply wp_mono.
    { apply (IH (i + len) (rs0 ++ [(i, len)])); [lia| |lia]. apply scan_range_ok; [done|lia]. }
    intros s' t' (-> & rs & Hrs & Hs'). split; [done|]. exists ((i, len) :: rs).
    split; [by constructor|]. by rewrite <-(assoc_L (++)) in Hs'.
  - wp_step. split; [done|]. exists []. split; [by constructor|]. by rewrite app_nil_r.
Qed.

(** ** What a tracker stands for *)

(** [L] is the length of the longest free interval. *)
Definition is_longest f (L : Z) : Prop :=
  0 ≤ L ∧ (∃ a, 0 ≤ a ∧ a + L ≤ N ∧ clear_in f a L) ∧
  ∀ a n, 0 ≤ a → 0 ≤ n → a + n ≤ N → clear_in f a n → n ≤ L.

Definition in_range (p : Z) (r : Z * Z) : bool := (r.1 <=? p) && (p <? r.1 + r.2).
Definition marked A (p : Z) : bool := existsb (in_range p) A.

(** The ranges do not overlap. *)
Fixpoint apart A : Prop :=
  match A with
  | [] => True
  | r :: A => (∀ p, in_range p r = true → marked A p = false) ∧ apart A
  end.

(** [t] tracks the live ranges [A]. *)
Record tracks A (t : RangeTracker) : Prop := {
  tr_bitmap : bitmap_ok N (bits_ t);
  tr_ranges : ∀ r, r ∈ A → 0 ≤ r.1 ∧ 0 < r.2 ∧ r.1 + r.2 ≤ N;
  tr_apart : apart A;
  tr_bits : ∀ p, 0 ≤ p < N → bit_at (bits_ t) p = marked A p;
  tr_used : nused_ t = count (bit_at (bits_ t)) 0 N;
  tr_sum : nused_ t = foldr Z.add 0 (lens A);
  tr_allocs : nallocs_ t = Z.of_nat (length A);
  tr_longest : is_longest (bit_at (bits_ t)) (longest_free_ t);
}.

Lemma marked_app A A' p : marked (A ++ A') p = marked A p || marked A' p.
Proof using Type. apply existsb_app. Qed.

Lemma marked_cons r A p : marked (r :: A) p = in_range p r || marked A p.
Proof using Type. done. Qed.

(** Dropping a range. *)
Lemma apart_middle A1 r A2 :
  apart (A1 ++ r :: A2) →
  apart (A1 ++ A2) ∧ ∀ p, in_range p r = true → marked (A1 ++ A2) p = false.
Proof.
  induction A1 as [|r0 A1 IH]; cbn [app apart]; [tauto|]. intros [H0 H].
  destruct (IH H) as [Hap Hr]. split; [split; [|done]|].
  - intros p Hp. specialize (H0 p Hp). rewrite marked_app, marked_cons in H0.
    rewrite marked_app. by destruct (marked A1 p), (marked A2 p), (in_range p r).
  - intros p Hp. rewrite marked_cons, Hr by done. destruct (in_range p r0) eqn:E; [|done].
    specialize (H0 p E). rewrite marked_app, marked_cons, Hp, orb_true_r in H0. done.
Qed.

Lemma wrap_count x : 0 ≤ x ≤ N → wrap (Count_width N) x = x.
Proof.
  intros Hx. apply wrap_small. unfold is_word, Count_width.
  repeat case_match; try lia.
Qed.

(** The bits of a range are changed. *)
Lemma count_updated V a n l l' :
  0 ≤ a → 0 ≤ n → a + n ≤ N → updated V a (a + n) l l' →
  count (bit_at l') 0 N = count (bit_at l) 0 N - count (bit_at l) a n + (if V then n else 0).
Proof.
  intros Ha Hn HaN Hu. replace N with (a + (n + (N - a - n))) by lia.
  rewrite !(count_split _ 0 a), !(count_split _ (0 + a) n) by lia.
  rewrite (count_ext (bit_at l') (bit_at l) 0 a).
  2: { intros p Hp. rewrite Hu, decide_False by lia. done. }
  rewrite (count_ext (bit_at l') (bit_at l) (0 + a + n)).
  2: { intros p Hp. rewrite Hu, decide_False by lia. done. }
  assert (count (bit_at l') (0 + a) n = if V then n else 0) as ->.
  { destruct V; [apply count_true; [lia|]|apply count_false];
      intros p Hp; rewrite Hu, decide_True by lia; done. }
  replace (0 + a) with a by lia. lia.
Qed.

(** Marking the start of a range leaves its rest and the other ranges. *)
Lemma mark_longest f f' pre i len post n :
  runs f 0 (pre ++ (i, len) :: post) → 0 < n ≤ len →
  (∀ p, 0 ≤ p → f' p = if decide (i ≤ p < i + n) then true else f p) →
  is_longest f' (Z.max (len - n) (maxl (lens (pre ++ post)))).
Proof.
  intros Hr Hn Hf'. destruct (runs_order f 0 pre i len post Hr) as [Hpre Hpost].
  destruct (runs_elem f 0 _ i len Hr) as (Hi & Hlen & HiN & Hc); [set_solver|].
  pose proof (maxl_nonneg (lens (pre ++ post))) as Hmx.
  assert (∀ r, r ∈ pre ++ post → 0 ≤ r.1 ∧ r.1 + r.2 ≤ N ∧ clear_in f' r.1 r.2) as Hother.
  { intros [i' l'] Hin. simpl.
    destruct (runs_elem f 0 _ i' l' Hr) as (? & ? & ? & Hc'); [set_solver|].
    split_and!; [lia|lia|]. intros p Hp. rewrite Hf' by lia. rewrite decide_False; [by apply Hc'|].
    apply elem_of_app in Hin as [Hin|Hin]; [specialize (Hpre _ Hin)|specialize (Hpost _ Hin)];
      simpl in *; lia. }
  split_and!; [lia| |].
  - destruct (Z.max_spec (len - n) (maxl (lens (pre ++ post)))) as [[Hle ->]|[Hle ->]].
    + destruct (maxl_attained (lens (pre ++ post))) as [E|Hin]; [lia|].
      unfold lens in Hin at 2. apply list_elem_of_fmap in Hin as (r & -> & Hin).
      exists r.1. by apply Hother.
    + exists (i + n). split_and!; [lia|lia|]. intros p Hp.
      rewrite Hf', decide_False by lia. apply Hc. lia.
  - intros a m Ha Hm HaN Hclear. destruct (Z.eq_dec m 0) as [->|Hm0]; [lia|].
    destruct (runs_cover f 0 _ a m Hr) as (i' & l' & Hin & H1 & H2); [lia|lia|lia| |].
    { intros p Hp. specialize (Hclear p Hp). rewrite Hf' in Hclear by lia.
      by case_decide. }
    rewrite elem_of_app, elem_of_cons in Hin.
    destruct Hin as [Hin|[[= -> ->]|Hin]].
    + assert (l' ≤ maxl (lens (pre ++ post))); [|lia]. apply maxl_ge.
      apply list_elem_of_fmap. exists (i', l'). set_solver.
    + destruct (Z.lt_ge_cases a (i + n)); [|lia].
      specialize (Hclear a ltac:(lia)). rewrite Hf', decide_True in Hclear by lia. done.
    + assert (l' ≤ maxl (lens (pre ++ post))); [|lia]. apply maxl_ge.
      apply list_elem_of_fmap. exists (i', l'). set_solver.
Qed.

(** What [FindAndMark] computes from its two lengths. *)
Lemma scan_longest n rs s pre post :
  scan_ok n rs s → rs = pre ++ (best_index s, best_len s) :: post → 0 < n ≤ best_len s →
  (if best_len s =? longest_len s
   then if longest_len s - n <? second_len s then second_len s else longest_len s - n
   else longest_len s) = Z.max (best_len s - n) (maxl (lens (pre ++ post))) ∧
  best_len s ≤ longest_len s.
Proof.
  intros [Htop _] Hrs Hn.
  destruct Htop as [(-> & _ & _)|(rest & Hp & Hm & Hle)]; [by destruct pre|].
  assert (lens rs ≡ₚ best_len s :: lens (pre ++ post)) as Hp'.
  { rewrite Hrs. unfold lens. rewrite !fmap_app, fmap_cons. simpl. by rewrite Permutation_middle. }
  assert (maxl (lens rs) = longest_len s) as HL.
  { rewrite Hp. simpl. lia. }
  rewrite Hp' in HL. simpl in HL.
  destruct (Z.eqb_spec (best_len s) (longest_len s)) as [E|E].
  - rewrite Hp', E in Hp. apply Permutation_cons_inv in Hp. rewrite Hp, Hm.
    split; [|lia]. destruct (Z.ltb_spec (longest_len s - n) (second_len s)); lia.
  - split; lia.
Qed.

(** There are not more ranges than bits in them. *)
Lemma length_le_sum A :
  (∀ r, r ∈ A → 0 < r.2) → Z.of_nat (length A) ≤ foldr Z.add 0 (lens A).
Proof.
  clear HN. induction A as [|r A IH]; intros Hr; simpl; [lia|].
  pose proof (Hr r ltac:(set_solver)). specialize (IH ltac:(set_solver)). lia.
Qed.

Lemma lens_sum A1 i n A2 :
  foldr Z.add 0 (lens (A1 ++ (i, n) :: A2)) = n + foldr Z.add 0 (lens (A1 ++ A2)).
Proof.
  clear HN. induction A1 as [|r A1 IH]; simpl in *; [done|]. unfold lens in *. simpl. lia.
Qed.

(** Marking [n] clear bits. *)
Lemma tracks_mark A t i n l' L :
  tracks A t → shape N l' → 0 ≤ i → 0 < n → i + n ≤ N → clear_in (bit_at (bits_ t)) i n →
  updated true i (i + n) (bits_ t) l' → is_longest (bit_at l') L →
  tracks ((i, n) :: A) (mk_tracker l' (wrap (Count_width N) L)
    (wrap (Count_width N) (nused_ t + n)) (wrap (Count_width N) (nallocs_ t + 1))).
Proof.
  intros [Hbm Hran Hap Hbits Hused Hsum Hall Hlong] Hl' Hi Hn HiN Hc Hu HL.
  pose proof (count_updated true i n _ _ Hi ltac:(lia) HiN Hu) as Hcnt.
  rewrite (count_false _ i n Hc) in Hcnt. simpl in Hcnt.
  pose proof (count_bounds (bit_at l') 0 N ltac:(lia)) as Hb.
  pose proof (count_bounds (bit_at (bits_ t)) 0 N ltac:(lia)) as Hb0.
  assert (Z.of_nat (length A) ≤ foldr Z.add 0 (lens A)) as Hlen.
  { apply length_le_sum. intros r Hr. by apply Hran. }
  assert (L ≤ N). { destruct HL as (? & (a & ? & ? & _) & _). lia. }
  assert (0 ≤ L) by apply HL.
  rewrite !wrap_count by lia. split; simpl.
  - apply (updated_ok N HN true i (i + n) (bits_ t)); done || lia.
  - intros r Hr. apply elem_of_cons in Hr as [->|Hr]; [done|by apply Hran].
  - split; [|done]. intros p Hp. unfold in_range in Hp. simpl in Hp.
    rewrite <-Hbits by lia. apply Hc. lia.
  - intros p Hp. rewrite Hu by lia. unfold in_range. simpl.
    destruct (decide (i ≤ p < i + n)).
    + by replace ((i <=? p) && (p <? i + n)) with true by lia.
    + replace ((i <=? p) && (p <? i + n)) with false by lia. by apply Hbits.
  - lia.
  - lia.
  - lia.
  - done.
Qed.

(** Clearing the bits of a live range. *)
Lemma tracks_unmark A1 i n A2 t l1 L :
  tracks (A1 ++ (i, n) :: A2) t → shape N l1 → updated false i (i + n) (bits_ t) l1 →
  is_longest (bit_at l1) L →
  tracks (A1 ++ A2) (mk_tracker l1 L (wrap (Count_width N) (nused_ t - n))
    (wrap (Count_width N) (nallocs_ t - 1))).
Proof.
  intros [Hbm Hran Hap Hbits Hused Hsum Hall Hlong] Hl1 Hu HL.
  destruct (Hran (i, n)) as (Hi & Hn & HiN); [set_solver|]. simpl in Hi, Hn, HiN.
  destruct (apart_middle A1 (i, n) A2 Hap) as [Hap' Hfree].
  pose proof (count_updated false i n _ _ Hi ltac:(lia) HiN Hu) as Hcnt.
  rewrite (count_true _ i n) in Hcnt; [|lia|].
  2: { intros p Hp. rewrite Hbits by lia. rewrite marked_app, marked_cons. unfold in_range. simpl.
       replace ((i <=? p) && (p <? i + n)) with true by lia. apply orb_true_r. }
  pose proof (count_bounds (bit_at l1) 0 N ltac:(lia)) as Hb1.
  rewrite lens_sum in Hsum. rewrite length_app in Hall. simpl in Hall, Hcnt.
  assert (Z.of_nat (length (A1 ++ A2)) ≤ foldr Z.add 0 (lens (A1 ++ A2))) as Hlen.
  { apply length_le_sum. intros r Hr. apply (Hran r). set_solver. }
  rewrite length_app in Hlen. pose proof (count_bounds (bit_at (bits_ t)) 0 N ltac:(lia)).
  rewrite !wrap_count by lia. split; simpl; try done.
  - apply (updated_ok N HN false i (i + n) (bits_ t)); done || lia.
  - intros r Hr. apply (Hran r). set_solver.
  - intros p Hp. rewrite Hu by lia. destruct (decide (i ≤ p < i + n)) as [Hin|Hout].
    + symmetry. apply Hfree. unfold in_range. simpl. lia.
    + rewrite Hbits by lia. rewrite !marked_app, marked_cons. unfold in_range. simpl.
      by replace ((i <=? p) && (p <? i + n)) with false by lia.
  - lia.
  - lia.
  - rewrite length_app. lia.
Qed.

(** The longest range after that. *)
Lemma unmark_longest f f' L i n b lim :
  is_longest f L → 0 ≤ i → 0 < n → i + n ≤ N →
  (∀ p, 0 ≤ p → f' p = if decide (i ≤ p < i + n) then false else f p) →
  -1 ≤ b < i → i + n ≤ lim ≤ N → clear_in f' (b + 1) (lim - (b + 1)) →
  (0 ≤ b → f' b = true) → (lim < N → f' lim = true) →
  is_longest f' (Z.max L (lim - (b + 1))).
Proof.
  intros (HL & (a0 & Ha0 & Ha0N & Hc0) & Hmax) Hi Hn HiN Hf' Hb Hlim Hc Hb1 Hlim1.
  split_and!; [lia| |].
  - destruct (Z.max_spec L (lim - (b + 1))) as [[? ->]|[? ->]].
    + exists (b + 1). split_and!; [lia|lia|done].
    + exists a0. split_and!; [done|done|]. intros p Hp. rewrite Hf' by lia.
      destruct (decide _); [done|by apply Hc0].
  - intros a m Ha Hm HaN Hclear.
    destruct (decide (a + m ≤ i ∨ i + n ≤ a ∨ m = 0)) as [Hout|Hin].
    + assert (m ≤ L); [|lia]. apply (Hmax a); [lia..|]. intros p Hp. specialize (Hclear p Hp).
      rewrite Hf', decide_False in Hclear by lia. done.
    + assert (b < a).
      { destruct (Z.lt_ge_cases b a); [done|]. rewrite Hclear in Hb1 by lia.
        specialize (Hb1 ltac:(lia)). done. }
      assert (a + m ≤ lim); [|lia].
      destruct (Z.le_gt_cases (a + m) lim); [done|]. rewrite Hclear in Hlim1 by lia.
      specialize (Hlim1 ltac:(lia)). done.
Qed.
End Tracker.

(** ** Theorems *)

(** [i] starts the shortest free range of at least [n] bits, the first of them. *)
Definition best_fit (N : Z) (f : Z → bool) (n i : Z) : Prop :=
  ∃ len, maximal N f i len ∧ n ≤ len ∧
    ∀ i' len', maximal N f i' len' → n ≤ len' → len < len' ∨ len = len' ∧ i ≤ i'.

Lemma scan_init N n : scan_ok N n [] (mk_scan 0 0 N (2 * N)).
Proof. split; [by left|]. left. simpl. split_and!; [done|done|set_solver]. Qed.

(** The ranges before a range start before it. *)
Lemma best_fit_runs N f n rs pre i len post :
  runs N f 0 rs → rs = pre ++ (i, len) :: post → n ≤ len →
  (∀ r, r ∈ pre → n ≤ r.2 → len < r.2) → (∀ r, r ∈ post → n ≤ r.2 → len ≤ r.2) →
  0 < N ≤ 2 ^ 61 → best_fit N f n i.
Proof.
  intros Hr -> Hn Hpre Hpost HN. exists len. split; [|split; [done|]].
  - apply (runs_maximal N HN f 0 (pre ++ (i, len) :: post)); [done|lia|by left|set_solver].
  - intros i' len' Hmax Hn'.
    pose proof (maximal_in_runs N HN f _ i' len' Hr Hmax) as Hin.
    destruct (runs_order N HN f 0 pre i len post Hr) as [_ Ho].
    destruct (runs_elem N HN f 0 _ i len Hr) as (_ & Hlen & _); [set_solver|].
    rewrite elem_of_app, elem_of_cons in Hin. destruct Hin as [Hin|[[= -> ->]|Hin]].
    + left. by apply (Hpre _ Hin).
    + right. lia.
    + specialize (Hpost _ Hin Hn'). specialize (Ho _ Hin). simpl in *. lia.
Qed.

(** The loop finds the free ranges in order. *)
Lemma FindAndMark_scan N A t n :
  0 < N ≤ 2 ^ 61 → tracks N A t →
  ∃ s rs, FindAndMark_loop N (S (Z.to_nat N)) n 0 (mk_scan 0 0 N (u64 (2 * N))) t = Done (s, t) ∧
    runs N (bit_at (bits_ t)) 0 rs ∧ scan_ok N n rs s.
Proof.
  intros HN Ht. pose proof (tr_bitmap N A t Ht) as Hok.
  rewrite (wrap_small 64 (2 * N)) by (unfold is_word; lia).
  pose proof (FindAndMark_loop_spec N HN (S (Z.to_nat N)) n 0 [] (mk_scan 0 0 N (2 * N)) t Hok
    ltac:(lia) (scan_init N n) ltac:(lia)) as Hloop.
  apply wp_total_done in Hloop as (s & t0 & Eloop & -> & rs & Hrs & Hs). eauto.
Qed.

Lemma FindAndMark_spec N A t n :
  0 < N ≤ 2 ^ 61 → tracks N A t → 0 < n → n ≤ longest_free_ t →
  wp true (FindAndMark N n) (λ i t', tracks N ((i, n) :: A) t' ∧
    best_fit N (bit_at (bits_ t)) n i) t.
Proof.
  intros HN Ht Hn HnL. pose proof (tr_bitmap N A t Ht) as Hok.
  destruct (FindAndMark_scan N A t n HN Ht) as (s & rs & Eloop & Hrs & Hs).
  destruct (tr_longest N A t Ht) as (HL0 & (a & Ha & HaN & Hac) & HLmax).
  unfold FindAndMark. wp_step. unfold wp at 1. rewrite Eloop. pose proof Hs as [_ Hbest].
  destruct Hbest as [(_ & _ & Hno)|(pre & post & Hsplit & Hb & Hpre & Hpost)].
  { destruct (runs_cover N HN _ 0 rs a (longest_free_ t) Hrs) as (i & len & Hin & H1 & H2); [lia..|done|].
    specialize (Hno _ Hin). simpl in Hno. lia. }
  destruct (runs_elem N HN _ 0 rs (best_index s) (best_len s) Hrs) as (Hi & Hlen & HiN & Hc).
  { rewrite Hsplit. set_solver. }
  destruct (scan_longest N n rs s pre post Hs Hsplit ltac:(lia)) as [Elong Hle].
  wp_step. wp_step; [lia|]. wp_step. apply wp_on_bits.
  eapply wp_mono; [apply (SetRangeValue_spec N HN); [apply Hok|lia..]|].
  intros _ l' (Hl' & Hu). wp_step. wp_step. wp_step.
  assert (longest_len s ≤ N).
  { destruct Hs as [Htop _]. destruct Htop as [(_ & -> & _)|(rest & Hp & _)]; [lia|].
    assert (longest_len s ∈ lens rs) as Hin by (rewrite Hp; set_solver).
    apply list_elem_of_fmap in Hin as ([i len] & -> & Hin). simpl.
    by destruct (runs_elem N HN _ 0 rs i len Hrs Hin) as (? & ? & ? & _); lia. }
  rewrite (wrap_small 64 (longest_len s - n)) by (unfold is_word; lia). rewrite Elong. simpl.
  split; [|by apply (best_fit_runs N _ n rs pre _ (best_len s) post)].
  apply tracks_mark; [done|done|done|lia|lia|lia| |done|].
  - intros p Hp. apply Hc. lia.
  - apply (mark_longest N HN (bit_at (bits_ t)) _ pre (best_index s)); [by rewrite <-Hsplit|lia|].
    exact Hu.
Qed.

(** C17: FindAndMark of a range tracker, in every state that tracks disjoint live
    ranges: if n is positive and at most longest_free, it returns, marks n bits
    that were free and so extends the live ranges by one that is disjoint from all
    others, chooses the shortest free range that is long enough (the first of
    them), and keeps the number of used bits, the number of allocations and the
    longest free length exact.  If n is larger it stops with the failed check. *)
Theorem find_and_mark_best_fit N A t n :
  0 < N ≤ 2 ^ 61 → tracks N A t → 0 < n →
  (n ≤ longest_free_ t →
    wp true (FindAndMark N n) (λ i t', tracks N ((i, n) :: A) t' ∧
      best_fit N (bit_at (bits_ t)) n i) t) ∧
  (longest_free_ t < n → FindAndMark N n t = Fault).
Proof.
  intros HN Ht Hn. split; [by apply FindAndMark_spec|]. intros HnL.
  destruct (FindAndMark_scan N A t n HN Ht) as (s & rs & Eloop & Hrs & Hs).
  destruct (tr_longest N A t Ht) as (_ & _ & HLmax).
  unfold FindAndMark, mbind, ST_bind. rewrite Eloop. unfold require.
  destruct Hs as [_ [(-> & _ & _)|(pre & post & Hsplit & Hb & _ & _)]].
  { by replace (N <? N) with false by lia. }
  destruct (runs_elem N HN _ 0 rs (best_index s) (best_len s) Hrs) as (Hi & Hlen & HiN & Hc).
  { rewrite Hsplit. set_solver. }
  specialize (HLmax (best_index s) (best_len s) ltac:(lia) ltac:(lia) HiN Hc). lia.
Qed.

(** An empty tracker. *)
Lemma tracks_empty N l :
  0 < N ≤ 2 ^ 61 → bitmap_ok N l → (∀ p, 0 ≤ p → bit_at l p = false) →
  tracks N [] (mk_tracker l (wrap (Count_width N) N) 0 0).
Proof.
  intros HN Hok Hz. rewrite wrap_count by lia. split; simpl; try done.
  - set_solver.
  - intros p Hp. apply Hz. lia.
  - rewrite count_false; [done|]. intros p Hp. apply Hz. lia.
  - split_and!; [lia| |].
    + exists 0. split_and!; [lia|lia|]. intros p Hp. apply Hz. lia.
    + intros. lia.
Qed.

Lemma new_tracks N : 0 < N ≤ 2 ^ 61 → tracks N [] (new_tracker N).
Proof.
  intros HN. destruct (new_bitmap_ok N HN) as [Hok Hz].
  apply tracks_empty; [done|done|]. intros p _. apply Hz.
Qed.

Lemma Unmark_spec N A1 A2 i n t :
  0 < N ≤ 2 ^ 61 → tracks N (A1 ++ (i, n) :: A2) t →
  wp true (Unmark N i n) (λ _ t', tracks N (A1 ++ A2) t') t.
Proof.
  intros HN Ht. pose proof Ht as [Hbm Hran _ Hbits _ _ _ Hlong].
  destruct (Hran (i, n)) as (Hi & Hn & HiN); [set_solver|]. simpl in *.
  unfold Unmark. wp_step. apply wp_on_bits.
  eapply wp_mono; [apply (FindValue_spec N HN); [done|lia]|]. intros c l' (-> & Hc1 & Hc2 & Hc3).
  wp_step. wp_step.
  { rewrite wrap_small by (unfold is_word; lia).
    destruct (Z.leb_spec (i + n) c); [done|]. specialize (Hc2 ltac:(lia)).
    rewrite Hbits, marked_app, marked_cons in Hc2 by lia. unfold in_range in Hc2. simpl in Hc2.
    replace ((i <=? c) && (c <? i + n)) with true in Hc2 by lia.
    by rewrite orb_true_r in Hc2. }
  wp_step. apply wp_on_bits. simpl.
  eapply wp_mono; [apply (SetRangeValue_spec N HN); [apply Hbm|lia..]|]. intros _ l1 (Hl1 & Hu).
  assert (bitmap_ok N l1) as Hok1.
  { apply (updated_ok N HN false i (i + n) (bits_ t)); done || lia. }
  wp_step. wp_step. simpl. wp_step. apply wp_on_bits. simpl.
  rewrite (wrap_small 64 (i + n - 1)) by (unfold is_word; lia).
  eapply wp_mono; [apply (FindValue_spec N HN); [done|lia]|]. intros lim l' (-> & Hm1 & Hm2 & Hm3).
  wp_step. apply wp_on_bits. simpl.
  eapply wp_mono; [apply (FindValueBackwards_spec N HN); [done|lia]|].
  intros b l' (-> & Hk1 & Hk2 & Hk3). simpl in *.
  assert (b ≠ i).
  { intros ->. specialize (Hk2 ltac:(lia)). rewrite Hu, decide_True in Hk2 by lia. done. }
  assert (lim ≠ i + n - 1).
  { intros ->. specialize (Hm2 ltac:(lia)). rewrite Hu, decide_True in Hm2 by lia. done. }
  assert (is_longest N (bit_at l1) (Z.max (longest_free_ t) (lim - (b + 1)))) as HL.
  { apply (unmark_longest N (bit_at (bits_ t)) _ _ i n); try done; try lia.
    intros p Hp. destruct (Z.le_gt_cases p i); [apply Hk3; lia|].
    destruct (Z.lt_ge_cases p (i + n)); [rewrite Hu, decide_True by lia; done|apply Hm3; lia]. }
  rewrite !(wrap_small 64) by (unfold is_word; rewrite ?(wrap_small 64) by (unfold is_word; lia); lia).
  unfold longest_free. wp_step. wp_step. simpl.
  destruct (Z.ltb_spec (longest_free_ t) (lim - (b + 1))).
  - wp_step. simpl. rewrite (wrap_count N HN (lim - (b + 1))) by lia.
    apply (tracks_unmark N HN A1 i n A2); [done..|].
    by replace (Z.max (longest_free_ t) (lim - (b + 1))) with (lim - (b + 1)) in HL by lia.
  - wp_step. apply (tracks_unmark N HN A1 i n A2); [done..|].
    by replace (Z.max (longest_free_ t) (lim - (b + 1))) with (longest_free_ t) in HL by lia.
Qed.

(** A new and a cleared range tracker track no live range; Unmark of a live
    range returns, removes exactly this range, and again leaves the number of used
    bits, the number of allocations and the longest free length exact.  So Unmark
    after FindAndMark gives back a tracker of the same live ranges. *)
Theorem unmark_releases N A1 A2 i n t :
  0 < N ≤ 2 ^ 61 →
  tracks N [] (new_tracker N) ∧
  (shape N (bits_ t) → wp true (rt_Clear N) (λ _ t', tracks N [] t') t) ∧
  (tracks N (A1 ++ (i, n) :: A2) t →
    wp true (Unmark N i n) (λ _ t', tracks N (A1 ++ A2) t') t).
Proof.
  intros HN. split_and!; [by apply new_tracks| |by apply Unmark_spec].
  intros Hsh. unfold rt_Clear. wp_step. apply wp_on_bits.
    eapply wp_mono; [by apply (bm_Clear_spec N HN)|]. intros _ l (Hok & Hz). wp_step.
    by apply tracks_empty.
Qed.

(** C37: The word-at-a-time operations of a bitmap are the bitwise ones: SetRange
    and ClearRange change exactly the bits of the range, CountBits is their number,
    FindSet and FindClear return the first set or clear position from an index on
    (or N), and the backward searches the last one up to it (or -1), for all bitmap
    sizes and positions; none of them reads or writes outside of the array. *)
Theorem bitmap_bitwise N l index n V :
  0 < N ≤ 2 ^ 61 → bitmap_ok N l → 0 ≤ index → 0 < n → index + n ≤ N →
  wp true (SetRangeValue N V index n)
    (λ _ l', bitmap_ok N l' ∧ updated V index (index + n) l l') l ∧
  wp true (CountBits N index n) (λ r l', l' = l ∧ r = count (bit_at l) index n) l ∧
  wp true (FindValue N V index) (λ r l', l' = l ∧ first_value N l V index r) l ∧
  wp true (FindValueBackwards N V index) (λ r l', l' = l ∧ last_value l V index r) l ∧
  wp true (GetBit index) (λ b l', l' = l ∧ b = bit_at l index) l ∧
  wp true (SetBit index) (λ _ l', bitmap_ok N l' ∧ updated true index (index + 1) l l') l ∧
  wp true (ClearBit index) (λ _ l', bitmap_ok N l' ∧ updated false index (index + 1) l l') l.
Proof.
  intros HN Hok Hi Hn HiN. pose proof Hok as [Hsh _].
  assert (∀ W b l', shape N l' → b ≤ N → updated W index b l l' → bitmap_ok N l') as Hkeep.
  { intros W b l' Hl' Hb Hu. by apply (updated_ok N HN W index b l). }
  split_and!.
  - eapply wp_mono; [by apply (SetRangeValue_spec N HN)|]. intros _ l' [Hl' Hu]. split; [|done].
    by apply (Hkeep V (index + n)).
  - apply (CountBits_spec N HN); [done|lia..].
  - apply (FindValue_spec N HN); [done|lia].
  - apply (FindValueBackwards_spec N HN); [done|lia].
  - apply (GetBit_spec N HN); [done|lia].
  - eapply wp_mono; [apply (SetBit_spec N HN); [done|lia]|]. intros _ l' [Hl' Hu]. split; [|done].
    apply (Hkeep true (index + 1)); [done|lia|done].
  - eapply wp_mono; [apply (ClearBit_spec N HN); [done|lia]|]. intros _ l' [Hl' Hu]. split; [|done].
    apply (Hkeep false (index + 1)); [done|lia|done].
Qed.

(** ** Witnesses *)

Lemma find_and_mark_best_fit_witness :
  wp true (FindAndMark 300 5) (λ i t', tracks 300 [(i, 5)] t' ∧
    best_fit 300 (bit_at (bits_ (new_tracker 300))) 5 i) (new_tracker 300) ∧
  FindAndMark 300 301 (new_tracker 300) = Fault.
Proof.
  pose proof (new_tracks 300 ltac:(lia)) as Ht. split.
  - apply (proj1 (find_and_mark_best_fit 300 [] (new_tracker 300) 5 ltac:(lia) Ht ltac:(lia))).
    apply Z.leb_le. by vm_compute.
  - apply (proj2 (find_and_mark_best_fit 300 [] (new_tracker 300) 301 ltac:(lia) Ht ltac:(lia))).
    apply Z.ltb_lt. by vm_compute.
Defined.

Lemma unmark_releases_witness :
  tracks 130 [] (new_tracker 130) ∧
  (∃ i t, tracks 130 [(i, 70)] t ∧ wp true (Unmark 130 i 70) (λ _ t', tracks 130 [] t') t).
Proof.
  pose proof (new_tracks 130 ltac:(lia)) as Ht.
  assert (wp true (FindAndMark 130 70) (λ i t', tracks 130 [(i, 70)] t' ∧
    best_fit 130 (bit_at (bits_ (new_tracker 130))) 70 i) (new_tracker 130)) as H.
  { apply FindAndMark_spec; [lia|exact Ht|lia|]. apply Z.leb_le. by vm_compute. }
  apply wp_total_done in H as (i & t & _ & H & _).
  destruct (unmark_releases 130 [] [] i 70 t ltac:(lia)) as (H1 & _ & H3).
  split; [exact H1|]. exists i, t. split; [exact H|]. apply H3. exact H.
Defined.

Lemma bitmap_bitwise_witness :
  wp true (SetRangeValue 130 true 60 10)
    (λ _ l', bitmap_ok 130 l' ∧ updated true 60 (60 + 10) (new_bitmap 130) l') (new_bitmap 130).
Proof.
  pose proof (proj1 (new_bitmap_ok 130 ltac:(lia))) as Hok.
  exact (proj1 (bitmap_bitwise 130 (new_bitmap 130) 60 10 true
    ltac:(lia) Hok ltac:(lia) ltac:(lia) ltac:(lia))).
Defined.
