(* ===== verification/TcSpan.v ===== *)
(** * tcmalloc: spans and their free lists

    [Span] of span.h and span.cc: the page range, the location, and the list of
    free objects of a small-object span.  The list is an array of up to four
    indices in the span itself and a chain of free objects that are used as
    arrays of 16-bit indices.  The state is the span and the memory of its pages
    as 16-bit cells; failed assertions are [Fault]. *)

From S2P Require Import Prelude.
From S2P Require Import CString.
From S2P Require Import TcCommon.
From S2P Require Import TcSizeClasses.
From S2P Require Import TcExperiment.
From S2P Require Import TcSizeMap.

Inductive Location := IN_USE | ON_NORMAL_FREELIST | ON_RETURNED_FREELIST.

#[export] Instance Location_eq : EqDecision Location.
Proof. solve_decision. Defined.

Definition kCacheSize : Z := 4.
Definition kListEnd : Z := 65535.
Definition sizeof_ObjIdx : Z := 2.

(** The anonymous union, by its active member. *)
Inductive span_union :=
  | UCache (cache_ : list Z)
  | UStack (sampled_stack_ : Z)
  | UTime (freelist_added_time_ : Z).

Record Span := mk_span {
  allocated_ : Z;
  embed_count_ : Z;
  freelist_ : Z;
  cache_size_ : Z;
  location_ : Location;
  sampled_ : bool;
  union_ : span_union;
  first_page_ : Z;
  num_pages_ : Z;
}.

Definition with_allocated v s := mk_span v (embed_count_ s) (freelist_ s) (cache_size_ s)
  (location_ s) (sampled_ s) (union_ s) (first_page_ s) (num_pages_ s).
Definition with_embed v s := mk_span (allocated_ s) v (freelist_ s) (cache_size_ s)
  (location_ s) (sampled_ s) (union_ s) (first_page_ s) (num_pages_ s).
Definition with_freelist v s := mk_span (allocated_ s) (embed_count_ s) v (cache_size_ s)
  (location_ s) (sampled_ s) (union_ s) (first_page_ s) (num_pages_ s).
Definition with_cache_size v s := mk_span (allocated_ s) (embed_count_ s) (freelist_ s) v
  (location_ s) (sampled_ s) (union_ s) (first_page_ s) (num_pages_ s).
Definition with_union v s := mk_span (allocated_ s) (embed_count_ s) (freelist_ s) (cache_size_ s)
  (location_ s) (sampled_ s) v (first_page_ s) (num_pages_ s).

(** ** The page range and the location *)

(** [Init] (the list pointers are not part of this record). *)
Definition Span_Init (p n : Z) (s : Span) : Span :=
  mk_span (allocated_ s) (embed_count_ s) (freelist_ s) (cache_size_ s) IN_USE false (union_ s) p n.

Definition location (s : Span) : Location := location_ s.
Definition set_location (loc : Location) (s : Span) : Span :=
  mk_span (allocated_ s) (embed_count_ s) (freelist_ s) (cache_size_ s) loc (sampled_ s) (union_ s)
    (first_page_ s) (num_pages_ s).
Definition sampled (s : Span) : bool := sampled_ s.
Definition sampled_stack (s : Span) : option Z :=
  if sampled_ s then match union_ s with UStack x => Some x | _ => None end else None.
Definition first_page (s : Span) : Z := first_page_ s.
Definition last_page (s : Span) : Z := u64 (u64 (first_page_ s + num_pages_ s) - 1).
Definition set_first_page (p : Z) (s : Span) : Span :=
  mk_span (allocated_ s) (embed_count_ s) (freelist_ s) (cache_size_ s) (location_ s) (sampled_ s)
    (union_ s) p (num_pages_ s).
Definition num_pages (s : Span) : Z := num_pages_ s.
Definition set_num_pages (len : Z) (s : Span) : Span :=
  mk_span (allocated_ s) (embed_count_ s) (freelist_ s) (cache_size_ s) (location_ s) (sampled_ s)
    (union_ s) (first_page_ s) len.
Definition set_freelist_added_time (t : Z) (s : Span) : Span := with_union (UTime t) s.
Definition freelist_added_time (s : Span) : option Z :=
  match union_ s with UTime t => Some t | _ => None end.

Section Span.
Context (cfg : config).

Definition start_address (s : Span) : Z := u64 (first_page_ s * kPageSize cfg).
Definition bytes_in_span (s : Span) : Z := u64 (num_pages_ s ≪ kPageShift cfg).

(** ** The state of the free-list operations *)

(** [cells]: the 16-bit cells of the pages, by address. *)
Record span_state := mk_ss { span : Span; cells : gmap Z Z }.

Definition field {A} (f : Span → A) : ST span_state A := gets (λ s, f (span s)).
Definition update (f : Span → Span) : ST span_state unit :=
  modify (λ s, mk_ss (f (span s)) (cells s)).
Definition load (a : Z) : ST span_state Z := gets (λ s, default 0 (cells s !! a)).
Definition store_cell (a v : Z) : ST span_state unit :=
  modify (λ s, mk_ss (span s) (<[a := wrap 16 v]> (cells s))).

(** [cache_[i]], and writing it. *)
Definition cache_get (i : Z) : ST span_state Z :=
  u ← field union_;
  match u with UCache l => from_opt (get_at l i) | _ => fault end.
Definition cache_set (i v : Z) : ST span_state unit :=
  u ← field union_;
  let l := match u with UCache l => l | _ => replicate 4 0 end in
  l ← from_opt (put_at l i (wrap 16 v));
  update (with_union (UCache l)).

(** ** Objects and indices *)

Definition PtrToIdx (ptr size : Z) : ST span_state Z :=
  first ← field first_page_;
  let base := u64 (first * kPageSize cfg) in
  off ← (if size <=? kMultiPageSize then
           require (u64 (ptr - base) <? kPageSize cfg);;
           mret (Z.land ptr (kPageSize cfg - 1) / kAlignment)
         else mret (u64 (ptr - base) / kMultiPageAlignment));
  let idx := wrap 16 off in
  require (negb (idx =? kListEnd));;
  require (idx =? off);;
  mret idx.

(** The number of bits an index is shifted by. *)
Definition align_shift (small : bool) : Z :=
  if small then kAlignmentShift else kMultiPageAlignmentShift.

(** [IdxToPtrSized<align>]. *)
Definition IdxToPtrSized (small : bool) (idx size : Z) : ST span_state Z :=
  require (negb (idx =? kListEnd));;
  first ← field first_page_;
  let off := u64 (first * kPageSize cfg + u64 (idx ≪ align_shift small)) in
  i ← PtrToIdx off size;
  require (i =? idx);;
  mret off.

Definition IdxToPtr (idx size : Z) : ST span_state Z :=
  IdxToPtrSized (size <=? kMultiPageSize) idx size.

Definition FreelistEmpty : ST span_state bool :=
  c ← field cache_size_;
  f ← field freelist_;
  mret ((c =? 0) && (f =? kListEnd)).

(** [FreelistPush]: the three places an index can go to, and the function. *)
Definition push_cache (idx : Z) : ST span_state unit :=
  c ← field cache_size_;
  cache_set c idx;;
  update (with_cache_size (wrap 8 (c + 1))).

Definition push_host (ptr size idx : Z) : ST span_state unit :=
  f ← field freelist_;
  host ← (if size <=? kMultiPageSize then
            n ← field num_pages_;
            require (n =? 1);;
            let host := u64 (Z.land ptr (wnot 64 (kPageSize cfg - 1)) + f * kAlignment) in
            i ← PtrToIdx host size;
            require (i =? f);;
            mret host
          else IdxToPtr f size);
  e ← field embed_count_;
  let e := wrap 16 (e + 1) in
  update (with_embed e);;
  store_cell (host + sizeof_ObjIdx * e) idx.

Definition push_new_host (ptr idx : Z) : ST span_state unit :=
  f ← field freelist_;
  store_cell ptr f;;
  update (with_freelist idx);;
  update (with_embed 0).

Definition FreelistPush (ptr size : Z) : ST span_state bool :=
  a ← field allocated_;
  require (0 <? a);;
  if a =? 1 then mret false
  else
    update (with_allocated (a - 1));;
    idx ← PtrToIdx ptr size;
    c ← field cache_size_;
    f ← field freelist_;
    e ← field embed_count_;
    (if negb (c =? kCacheSize) then push_cache idx
     else if negb (f =? kListEnd) && negb (e =? u64 (size / sizeof_ObjIdx - 1))
     then push_host ptr size idx
     else push_new_host ptr idx);;
    mret true.

(** [FreelistPopBatchSized]: the loop over the cache, the loop over one host, the
    loop over the hosts, and the function.  The batch is returned as a list. *)
Fixpoint pop_cache (n : nat) (small : bool) (csize result size : Z) : ST span_state (list Z) :=
  match n with
  | O => mret []
  | S n =>
      idx ← cache_get (csize - result - 1);
      p ← IdxToPtrSized small idx size;
      rest ← pop_cache n small csize (result + 1) size;
      mret (p :: rest)
  end.

Fixpoint pop_host (n : nat) (small : bool) (host embed_count i size : Z) : ST span_state (list Z) :=
  match n with
  | O => mret []
  | S n =>
      idx ← load (host + sizeof_ObjIdx * (embed_count - i));
      p ← IdxToPtrSized small idx size;
      rest ← pop_host n small host embed_count (i + 1) size;
      mret (p :: rest)
  end.

Fixpoint pop_hosts (fuel : nat) (small : bool) (N result size : Z) : ST span_state (list Z) :=
  match fuel with
  | O => out_of_fuel
  | S fuel =>
      if result <? N then
        f ← field freelist_;
        if f =? kListEnd then mret []
        else
          host ← IdxToPtrSized small f size;
          embed_count ← field embed_count_;
          let iter := if N <? result + embed_count then N - result else embed_count in
          ps ← pop_host (Z.to_nat iter) small host embed_count 0 size;
          let embed_count := wrap 16 (embed_count - iter) in
          let result := result + iter in
          current ← load (host + sizeof_ObjIdx * embed_count);
          if result =? N then
            update (with_embed embed_count);;
            mret ps
          else
            require (embed_count =? 0);;
            update (with_freelist current);;
            update (with_embed (wrap 16 (u64 (size / sizeof_ObjIdx - 1))));;
            rest ← pop_hosts fuel small N (result + 1) size;
            mret (ps ++ host :: rest)
      else mret []
  end.

Definition FreelistPopBatchSized (small : bool) (N size : Z) : ST span_state (list Z) :=
  csize ← field cache_size_;
  let cache_reads := if csize <? N then csize else N in
  ps ← pop_cache (Z.to_nat cache_reads) small csize 0 size;
  update (with_cache_size (wrap 8 (csize - cache_reads)));;
  qs ← pop_hosts (S (Z.to_nat N)) small N cache_reads size;
  a ← field allocated_;
  update (with_allocated (wrap 16 (a + Z.of_nat (length (ps ++ qs)))));;
  mret (ps ++ qs).

Definition FreelistPopBatch (N size : Z) : ST span_state (list Z) :=
  FreelistPopBatchSized (size <=? kMultiPageSize) N size.

(** [BuildFreelist]: the loop that fills the cache, the loop that builds the
    chain, and the function.  [host] is 0 for the null pointer. *)
Fixpoint build_cache (fuel : nat) (idx idxEnd idxStep : Z) : ST span_state Z :=
  match fuel with
  | O => out_of_fuel
  | S fuel =>
      c ← field cache_size_;
      if (idx <? idxEnd) && (c <? kCacheSize) then
        cache_set c idx;;
        update (with_cache_size (wrap 8 (c + 1)));;
        build_cache fuel (wrap 16 (idx + idxStep)) idxEnd idxStep
      else mret idx
  end.

Fixpoint build_hosts (fuel : nat) (idx idxEnd idxStep host size : Z) : ST span_state unit :=
  match fuel with
  | O => out_of_fuel
  | S fuel =>
      if idx <? idxEnd then
        require (negb (idx =? kListEnd));;
        e ← field embed_count_;
        if negb (host =? 0) && negb (e =? u64 (size / sizeof_ObjIdx - 1)) then
          update (with_embed (wrap 16 (e + 1)));;
          let idxEnd := wrap 16 (idxEnd - idxStep) in
          store_cell (host + sizeof_ObjIdx * wrap 16 (e + 1)) idxEnd;;
          build_hosts fuel idx idxEnd idxStep host size
        else
          host ← IdxToPtr idx size;
          f ← field freelist_;
          store_cell host f;;
          update (with_freelist idx);;
          update (with_embed 0);;
          build_hosts fuel (wrap 16 (idx + idxStep)) idxEnd idxStep host size
      else mret tt
  end.

Definition BuildFreelist (size count : Z) : ST span_state unit :=
  update (with_allocated 0);;
  update (with_cache_size 0);;
  update (with_embed 0);;
  update (with_freelist kListEnd);;
  let idxStep :=
    if kMultiPageSize <? size then wrap 16 (size / kMultiPageAlignment)
    else wrap 16 (size / kAlignment) in
  require (u64 (count * idxStep) <? kListEnd);;
  let idxEnd := wrap 16 (u64 (count * idxStep)) in
  idx ← build_cache (S (Z.to_nat kCacheSize)) 0 idxEnd idxStep;
  build_hosts (S (Z.to_nat count)) idx idxEnd idxStep 0 size.
End Span.
