(* ===== verification/TcSpanCorrect.v ===== *)
(** * tcmalloc: correctness of the free list of a span

    The free list is described by the list of the indices of the free objects, in
    the order in which they are popped. *)

From S2P Require Import Prelude.
From S2P Require Import CString.
From S2P Require Import TcCommon.
From S2P Require Import TcSizeClasses.
From S2P Require Import TcExperiment.
From S2P Require Import TcSizeMap.
From S2P Require Import TcSizeMapCorrect.
From S2P Require Import TcSpan.

(** The unit of indices: 8 bytes up to 512 bytes, 64 above. *)
Definition obj_unit (size : Z) : Z := if size <=? 512 then 8 else 64.

(** The objects of a span: [count] objects of [size] bytes from page [first] on. *)
Record geometry (cfg : config) (size count first num : Z) : Prop := {
  g_size : 8 ≤ size ≤ 262144;
  g_unit : size mod obj_unit size = 0;
  g_one : size ≤ 512 → num = 1;
  g_count : 0 < count;
  g_fits : count * size ≤ num * kPageSize cfg;
  g_index : count * (size / obj_unit size) < 65535;
  g_first : 0 < first;
  g_end : first * kPageSize cfg + num * kPageSize cfg ≤ 2 ^ 64;
}.

Lemma page_pow2 cfg : kPageSize cfg = 2 ^ kPageShift cfg ∧ 12 ≤ kPageShift cfg ≤ 18.
Proof. on_config cfg; by vm_compute. Qed.

Section FreeList.
Context (cfg : config) (size count first num : Z).
Context (Hg : geometry cfg size count first num).
Local Abbreviation unit_ := (obj_unit size).

Definition step : Z := size / unit_.
Definition base : Z := first * kPageSize cfg.
Definition addr (idx : Z) : Z := base + unit_ * idx.
Definition max_embed : Z := size / 2 - 1.

(** The indices of the objects. *)
Definition valid (idx : Z) : Prop := ∃ k, 0 ≤ k < count ∧ idx = k * step.

Lemma unit_cases : (size ≤ 512 ∧ unit_ = 8) ∨ (512 < size ∧ unit_ = 64).
Proof. unfold obj_unit. destruct (Z.leb_spec size 512); [left|right]; lia. Qed.

Lemma step_size : unit_ * step = size ∧ 1 ≤ step.
Proof.
  pose proof (g_unit _ _ _ _ _ Hg) as H. pose proof (g_size _ _ _ _ _ Hg). unfold step.
  pose proof unit_cases as Hu. apply Z.div_exact in H; lia.
Qed.

Lemma max_embed_size : 2 * max_embed + 2 ≤ size ∧ 3 ≤ max_embed.
Proof.
  unfold max_embed. pose proof (g_size _ _ _ _ _ Hg).
  pose proof (Z.div_mod size 2). pose proof (Z.mod_pos_bound size 2). lia.
Qed.

Lemma valid_bounds idx :
  valid idx → 0 ≤ idx < 65535 ∧ unit_ * idx + size ≤ num * kPageSize cfg.
Proof.
  intros (k & Hk & ->). pose proof step_size as [E Hs]. pose proof (g_fits _ _ _ _ _ Hg).
  pose proof (g_index _ _ _ _ _ Hg) as Hi. fold step in Hi.
  assert (unit_ * (k * step) = k * size) as -> by nia.
  split; [nia|]. pose proof (g_size _ _ _ _ _ Hg). nia.
Qed.

Lemma base_bounds : 0 < base ∧ base + num * kPageSize cfg ≤ 2 ^ 64.
Proof.
  pose proof (g_first _ _ _ _ _ Hg). pose proof (g_end _ _ _ _ _ Hg). unfold base.
  pose proof (page_pow2 cfg) as [E ?]. assert (0 < kPageSize cfg) by (rewrite E; lia). nia.
Qed.

Lemma addr_bounds idx : valid idx → base ≤ addr idx ∧ addr idx + size ≤ 2 ^ 64 ∧ 0 < addr idx.
Proof.
  intros Hv. pose proof (valid_bounds idx Hv). pose proof base_bounds. unfold addr.
  pose proof unit_cases. lia.
Qed.

(** Different objects do not overlap. *)
Lemma objects_apart i j : valid i → valid j → i ≠ j → addr i + size ≤ addr j ∨ addr j + size ≤ addr i.
Proof.
  intros (k & Hk & ->) (k' & Hk' & ->) Hne. pose proof step_size as [E Hs]. unfold addr.
  assert (unit_ * (k * step) = k * size) as -> by nia.
  assert (unit_ * (k' * step) = k' * size) as -> by nia.
  pose proof (g_size _ _ _ _ _ Hg).
  destruct (Z.lt_trichotomy k k') as [Hlt|[->|Hlt]]; [left; nia|done|right; nia].
Qed.

(** ** Objects and indices *)

Lemma PtrToIdx_spec idx (s : span_state) (Q : Z → span_state → Prop) :
  first_page_ (span s) = first → valid idx → Q idx s →
  wp true (PtrToIdx cfg (addr idx) size) Q s.
Proof.
  intros Hf Hv HQ. pose proof (valid_bounds idx Hv) as [Hi Hfit].
  pose proof base_bounds as Hb. pose proof (addr_bounds idx Hv) as Ha.
  pose proof (page_pow2 cfg) as [Ep Hsh]. pose proof (g_size _ _ _ _ _ Hg) as Hsz.
  unfold PtrToIdx, field. wp_step. wp_step. simpl. rewrite Hf. fold base. wp_step.
  rewrite (wrap_small 64 base) by (unfold is_word; lia).
  replace (addr idx - base) with (unit_ * idx) by (unfold addr; lia).
  pose proof unit_cases as Hu.
  rewrite (wrap_small 64 (unit_ * idx)) by (unfold is_word; lia).
  unfold kMultiPageSize, kAlignment, kMultiPageAlignment.
  destruct Hu as [[Hs Hu]|[Hs Hu]].
  - replace (size <=? 512) with true by lia. pose proof (g_one _ _ _ _ _ Hg Hs) as Hone.
    wp_step. wp_step; [rewrite Hone in *; lia|]. wp_step.
    assert (Z.land (addr idx) (kPageSize cfg - 1) = 8 * idx) as ->.
    { rewrite Ep, land_mask by lia. unfold addr, base. rewrite Hu, Ep, Z.add_comm, Z.mod_add by lia.
      apply Z.mod_small. rewrite Hone, Hu in *. rewrite Ep in *. lia. }
    rewrite Z.mul_comm, Z.div_mul by lia. rewrite (wrap_small 16) by (unfold is_word; lia).
    unfold kListEnd. wp_step. wp_step; [lia|]. wp_step. wp_step; [lia|]. by wp_step.
  - replace (size <=? 512) with false by lia. wp_step. rewrite Hu.
    rewrite Z.mul_comm, Z.div_mul by lia. rewrite (wrap_small 16) by (unfold is_word; lia).
    unfold kListEnd. wp_step. wp_step; [lia|]. wp_step. wp_step; [lia|]. by wp_step.
Qed.

Lemma align_shift_unit : 2 ^ align_shift (size <=? 512) = unit_.
Proof.
  unfold align_shift. pose proof unit_cases as Hu.
  destruct Hu as [[Hs ->]|[Hs ->]].
  - by replace (size <=? 512) with true by lia.
  - by replace (size <=? 512) with false by lia.
Qed.

Lemma IdxToPtrSized_spec idx (s : span_state) (Q : Z → span_state → Prop) :
  first_page_ (span s) = first → valid idx → Q (addr idx) s →
  wp true (IdxToPtrSized cfg (size <=? 512) idx size) Q s.
Proof.
  intros Hf Hv HQ. pose proof (valid_bounds idx Hv) as [Hi Hfit].
  pose proof base_bounds as Hb. pose proof (addr_bounds idx Hv) as Ha. pose proof unit_cases as Hu.
  pose proof (g_size _ _ _ _ _ Hg).
  unfold IdxToPtrSized, kListEnd, field. wp_step. wp_step; [lia|]. wp_step. wp_step. simpl. wp_step.
  rewrite Hf. fold base.
  assert (0 ≤ align_shift (size <=? 512)) by (by destruct (size <=? 512)).
  rewrite Z.shiftl_mul_pow2, align_shift_unit by lia.
  rewrite (wrap_small 64 (idx * unit_)) by (unfold is_word; lia).
  replace (base + idx * unit_) with (addr idx) by (unfold addr; lia).
  rewrite (wrap_small 64 (addr idx)) by (unfold is_word; lia).
  apply PtrToIdx_spec; [done|done|]. wp_step. wp_step; [lia|]. by wp_step.
Qed.

Lemma IdxToPtr_spec idx (s : span_state) (Q : Z → span_state → Prop) :
  first_page_ (span s) = first → valid idx → Q (addr idx) s →
  wp true (IdxToPtr cfg idx size) Q s.
Proof. apply IdxToPtrSized_spec. Qed.

(** ** The chain of free objects *)

Definition cell (c : gmap Z Z) (a : Z) : Z := default 0 (c !! a).

(** [chain c e h G]: from the object [h] on, whose array holds [e] indices, the
    chain holds the free objects [G]; the arrays of the objects after it are
    full. *)
Inductive chain (c : gmap Z Z) : Z → Z → list Z → Prop :=
  | chain_nil e : chain c e kListEnd []
  | chain_cons e h es rest :
      valid h → Forall valid es → Z.of_nat (length es) = e → e ≤ max_embed →
      (∀ j x, es !! j = Some x → cell c (addr h + 2 * (Z.of_nat j + 1)) = x) →
      chain c max_embed (cell c (addr h)) rest →
      chain c e h (reverse es ++ h :: rest).

Lemma chain_valid c e h G : chain c e h G → Forall valid G.
Proof.
  induction 1 as [|e h es rest Hh Hes _ _ _ _ IH]; [done|].
  apply Forall_app. split; [by apply Forall_reverse|]. by apply Forall_cons.
Qed.

(** An address inside of object [i]. *)
Definition inside (i a : Z) : Prop := addr i ≤ a < addr i + size.

(** Writes outside of the free objects do not matter. *)
Lemma chain_frame c e h G a v :
  chain c e h G → (∀ i, i ∈ G → ¬ inside i a) → chain (<[a := v]> c) e h G.
Proof.
  pose proof max_embed_size as [Hm _].
  induction 1 as [|e h es rest Hh Hes He Hle Hsl Hc IH]; intros Ha; [constructor|].
  assert (¬ inside h a) as Hha by (apply Ha; set_solver).
  assert (∀ o, 0 ≤ o < size → cell (<[a := v]> c) (addr h + o) = cell c (addr h + o)) as Hcell.
  { intros o Ho. unfold cell. rewrite lookup_insert_ne; [done|]. intros ->. apply Hha.
    unfold inside. lia. }
  constructor; try done.
  - intros j x Hj. rewrite Hcell; [by apply Hsl|]. apply lookup_lt_Some in Hj. lia.
  - pose proof (g_size _ _ _ _ _ Hg). replace (addr h) with (addr h + 0) by lia.
    rewrite Hcell, Z.add_0_r by lia. apply IH. intros i Hi. apply Ha. set_solver.
Qed.

(** An empty chain. *)
Lemma chain_end c e G : chain c e kListEnd G → G = [].
Proof.
  inversion 1 as [|? ? ? ? Hh]; [done|]. pose proof (valid_bounds _ Hh) as [? _].
  unfold kListEnd in *. lia.
Qed.

(** ** What a span stands for *)

(** The free list holds the objects [F], in the order of popping. *)
Record holds (F : list Z) (s : span_state) : Prop := {
  h_first : first_page_ (span s) = first;
  h_num : num_pages_ (span s) = num;
  h_embed : is_word 16 (embed_count_ (span s));
  h_nodup : NoDup F;
  h_valid : Forall valid F;
  h_rep : ∃ l G, union_ (span s) = UCache l ∧ length l = 4%nat ∧
    0 ≤ cache_size_ (span s) ≤ 4 ∧
    F = reverse (take (Z.to_nat (cache_size_ (span s))) l) ++ G ∧
    chain (cells s) (embed_count_ (span s)) (freelist_ (span s)) G;
}.

(** The free objects of the span are [F]; the other ones are allocated. *)
Definition free_list (F : list Z) (s : span_state) : Prop :=
  holds F s ∧ 0 ≤ allocated_ (span s) ∧ allocated_ (span s) + Z.of_nat (length F) = count.

Lemma holds_allocated F s v : holds F s → holds F (mk_ss (with_allocated v (span s)) (cells s)).
Proof. by intros [H1 H2 H3 H4 H5 H6]. Qed.

(** There are no more free objects than objects. *)
Lemma valid_length F : NoDup F → Forall valid F → Z.of_nat (length F) ≤ count.
Proof.
  intros Hnd Hv. pose proof (g_count _ _ _ _ _ Hg).
  assert (length F ≤ length ((λ k : Z, (k * step)%Z) <$> seqZ 0 count))%nat as Hle.
  { apply submseteq_length, NoDup_submseteq; [done|]. intros x Hx.
    rewrite Forall_forall in Hv. destruct (Hv x Hx) as (k & Hk & ->).
    apply list_elem_of_fmap. exists k. split; [done|]. by apply elem_of_seqZ. }
  rewrite length_fmap, length_seqZ in Hle. lia.
Qed.

(** ** FreelistPush *)

(** A cell of object [h] is not a cell of another object. *)
Lemma inside_other h i o : valid h → valid i → h ≠ i → 0 ≤ o < size → ¬ inside i (addr h + o).
Proof.
  intros Hh Hi Hne Ho Hin. unfold inside in Hin.
  pose proof (objects_apart h i Hh Hi Hne). lia.
Qed.

(** Storing one more index in the first object. *)
Lemma chain_push_host c e h G idx :
  chain c e h G → h ≠ kListEnd → e < max_embed → valid idx → NoDup G → 0 ≤ e →
  chain (<[addr h + 2 * (e + 1) := idx]> c) (e + 1) h (idx :: G).
Proof.
  pose proof max_embed_size as [Hm _]. intros Hc Hh He Hv Hnd He0.
  destruct Hc as [|e h es rest Hvh Hes Hlen Hle Hsl Hrest]; [done|].
  change (idx :: reverse es ++ h :: rest) with ((idx :: reverse es) ++ h :: rest).
  assert (idx :: reverse es = reverse (es ++ [idx])) as -> by (by rewrite reverse_snoc).
  assert (∀ o, 0 ≤ o < size → o ≠ 2 * (e + 1) →
    cell (<[addr h + 2 * (e + 1) := idx]> c) (addr h + o) = cell c (addr h + o)) as Hcell.
  { intros o Ho Hne. unfold cell. rewrite lookup_insert_ne by lia. done. }
  pose proof (g_size _ _ _ _ _ Hg).
  constructor; [done| | |lia| |].
  - apply Forall_app. split; [done|by apply Forall_singleton].
  - rewrite length_app. simpl. lia.
  - intros j x Hj. apply lookup_snoc_Some in Hj as [[Hj Hx]|[-> ->]].
    + rewrite Hcell by lia. by apply Hsl.
    + unfold cell. rewrite <-Hlen, lookup_insert_eq. done.
  - pose proof (Hcell 0 ltac:(lia) ltac:(lia)) as H0. rewrite !Z.add_0_r in H0. rewrite H0.
    apply chain_frame; [done|]. intros i Hi.
    apply NoDup_app in Hnd as (_ & _ & Hnd). apply NoDup_cons in Hnd as [Hnh _].
    pose proof (chain_valid _ _ _ _ Hrest) as Hvr. rewrite Forall_forall in Hvr.
    apply inside_other; [done|by apply Hvr|set_solver|lia].
Qed.

(** Making an object the first of the chain. *)
Lemma chain_push_new c e h G idx :
  chain c e h G → (h = kListEnd ∨ e = max_embed) → valid idx → idx ∉ G →
  chain (<[addr idx := h]> c) 0 idx (idx :: G).
Proof.
  intros Hc He Hv Hni. pose proof max_embed_size as [_ Hm3]. pose proof (g_size _ _ _ _ _ Hg).
  apply (chain_cons _ 0 idx [] G); [done|done|done|lia|by intros j x|].
  unfold cell. rewrite lookup_insert_eq. simpl.
  apply chain_frame.
  - destruct He as [->| <-]; [|done]. pose proof (chain_end _ _ _ Hc) as ->. constructor.
  - intros i Hi. pose proof (chain_valid _ _ _ _ Hc) as Hvr. rewrite Forall_forall in Hvr.
    replace (addr idx) with (addr idx + 0) by lia.
    apply inside_other; [done|by apply Hvr|set_solver|lia].
Qed.

(** The page of an object of a one-page span. *)
Lemma page_start idx :
  size ≤ 512 → valid idx → Z.land (addr idx) (wnot 64 (kPageSize cfg - 1)) = base.
Proof.
  intros Hs Hv. pose proof (page_pow2 cfg) as [Ep Hsh]. pose proof (valid_bounds idx Hv) as [Hi Hfit].
  pose proof (addr_bounds idx Hv) as Ha. pose proof (g_size _ _ _ _ _ Hg).
  pose proof (g_one _ _ _ _ _ Hg Hs) as Hone. pose proof unit_cases as Hu.
  set (sh := kPageShift cfg) in *. rewrite Ep.
  assert (addr idx = first * 2 ^ sh + unit_ * idx) as E.
  { unfold addr, base. by rewrite Ep. }
  assert (0 ≤ unit_ * idx < 2 ^ sh) by (rewrite Hone, Ep in Hfit; lia).
  assert (addr idx / 2 ^ sh = first) as Ediv.
  { rewrite E, Z.add_comm, Z.div_add by lia. rewrite Z.div_small; lia. }
  rewrite land_wnot_mask by (unfold is_word; lia). unfold base. rewrite Ep.
  pose proof (Z.div_mod (addr idx) (2 ^ sh)). lia.
Qed.

Lemma count_bound : count < 65535.
Proof.
  pose proof (g_index _ _ _ _ _ Hg) as Hi. pose proof step_size as [_ Hs]. fold step in Hi.
  pose proof (g_count _ _ _ _ _ Hg). nia.
Qed.

Lemma push_cache_spec idx F s :
  holds F s → valid idx → idx ∉ F → cache_size_ (span s) ≠ kCacheSize →
  wp true (push_cache idx) (λ _ s', holds (idx :: F) s' ∧
    allocated_ (span s') = allocated_ (span s)) s.
Proof.
  intros [Hf Hn Hemb Hnd Hval (l & G & Hu & Hl & Hcs & HF & Hch)] Hv Hni Hc.
  unfold kCacheSize in Hc. pose proof (valid_bounds idx Hv) as [Hi _].
  unfold push_cache, cache_set, field, update. do 4 wp_step. simpl. wp_step. wp_step.
  rewrite Hu. wp_step; [apply put_at_Some; lia|]. wp_step. wp_step.
  rewrite !(wrap_small 8), (wrap_small 16) by (unfold is_word; lia).
  simpl. split; [|done]. split; simpl; [done|done|done|by apply NoDup_cons|by apply Forall_cons|].
  eexists _, G. split; [done|]. rewrite length_insert. split; [done|]. split; [lia|].
  split; [|done]. rewrite HF.
  replace (Z.to_nat (cache_size_ (span s) + 1)) with (S (Z.to_nat (cache_size_ (span s)))) by lia.
  rewrite (take_S_r _ _ idx) by (apply list_lookup_insert_eq; lia).
  by rewrite take_insert_ge, reverse_snoc by lia.
Qed.

Lemma push_host_spec idx F s :
  holds F s → valid idx → idx ∉ F → freelist_ (span s) ≠ kListEnd →
  embed_count_ (span s) ≠ max_embed →
  wp true (push_host cfg (addr idx) size idx) (λ _ s', (∃ F', F' ≡ₚ idx :: F ∧ holds F' s') ∧
    allocated_ (span s') = allocated_ (span s)) s.
Proof.
  intros [Hf Hn Hemb Hnd Hval (l & G & Hu & Hl & Hcs & HF & Hch)] Hv Hni Hfl He.
  pose proof (valid_bounds idx Hv) as [Hi _]. pose proof count_bound as Hcb.
  assert (valid (freelist_ (span s)) ∧ 0 ≤ embed_count_ (span s) < max_embed ∧
    embed_count_ (span s) < count) as (Hvf & Hlt & Hec).
  { inversion Hch as [e E1 E2 E3|e h es rest Hh Hes Hlen Hle _ _ E1 E2 E3]; [by rewrite E2 in Hfl|].
    split; [done|]. split; [lia|].
    assert (NoDup es ∧ Forall valid es) as [Hnd1 Hv1].
    { split; [|done]. rewrite HF, <-E3 in Hnd. apply NoDup_app in Hnd as (_ & _ & Hnd).
      apply NoDup_app in Hnd as (Hnd & _). by rewrite reverse_Permutation in Hnd. }
    pose proof (valid_length (h :: es)) as Hvl. simpl in Hvl. rewrite <-Hlen.
    assert (h ∉ es).
    { rewrite HF, <-E3 in Hnd. apply NoDup_app in Hnd as (_ & _ & Hnd).
      apply NoDup_app in Hnd as (_ & Hd & _). intros Hin. apply (Hd h); [by apply elem_of_reverse|set_solver]. }
    assert (Z.of_nat (S (length es)) ≤ count); [|lia].
    apply Hvl; [by apply NoDup_cons|apply Forall_cons; split; [by rewrite E2|done]]. }
  pose proof (addr_bounds (freelist_ (span s)) Hvf) as Haf.
  unfold push_host, field. wp_step. wp_step. simpl. wp_step.
  apply (wp_mono _ _ (λ h s', s' = s ∧ h = addr (freelist_ (span s)))).
  { unfold kMultiPageSize. destruct (Z.leb_spec size 512) as [Hs|Hs].
    - pose proof (g_one _ _ _ _ _ Hg Hs) as Hone. unfold field. do 3 wp_step. simpl.
      wp_step; [lia|]. rewrite page_start by done.
      assert (u64 (base + freelist_ (span s) * kAlignment) = addr (freelist_ (span s))) as ->.
      { pose proof unit_cases as Huc. unfold kAlignment. unfold addr in *.
        replace (base + freelist_ (span s) * 8) with (base + unit_ * freelist_ (span s)) by lia.
        apply wrap_small. pose proof base_bounds. unfold is_word.
        pose proof (g_size _ _ _ _ _ Hg). lia. }
      wp_step. apply PtrToIdx_spec; [done|done|]. wp_step. wp_step; [lia|]. by wp_step.
    - by apply IdxToPtr_spec. }
  intros h s' [-> ->]. unfold field, update, store_cell. do 4 wp_step. simpl. wp_step. simpl.
  rewrite !(wrap_small 16) by (unfold is_word; lia). split; [|done].
  assert (F ≡ₚ reverse (take (Z.to_nat (cache_size_ (span s))) l) ++ G) as HFp by by rewrite HF.
  exists (reverse (take (Z.to_nat (cache_size_ (span s))) l) ++ idx :: G).
  assert (reverse (take (Z.to_nat (cache_size_ (span s))) l) ++ idx :: G ≡ₚ idx :: F) as Hp.
  { rewrite HF. by rewrite Permutation_middle. }
  split; [done|]. split; simpl; [done|done|unfold is_word; lia| | |].
  - rewrite Hp. by apply NoDup_cons.
  - rewrite Hp. by apply Forall_cons.
  - exists l, (idx :: G). split_and!; [done|done|lia|lia|done|].
    unfold sizeof_ObjIdx. apply chain_push_host; [done|done|lia|done| |lia].
    rewrite HF in Hnd. by apply NoDup_app in Hnd as (_ & _ & Hnd).
Qed.

Lemma push_new_host_spec idx F s :
  holds F s → valid idx → idx ∉ F →
  freelist_ (span s) = kListEnd ∨ embed_count_ (span s) = max_embed →
  wp true (push_new_host (addr idx) idx) (λ _ s', (∃ F', F' ≡ₚ idx :: F ∧ holds F' s') ∧
    allocated_ (span s') = allocated_ (span s)) s.
Proof.
  intros [Hf Hn Hemb Hnd Hval (l & G & Hu & Hl & Hcs & HF & Hch)] Hv Hni Hor.
  assert (0 ≤ freelist_ (span s) < 65536) as Hfb.
  { inversion Hch as [e E1 E2 E3|e h es rest Hh]; [by unfold kListEnd|].
    pose proof (valid_bounds _ Hh) as [? _]. lia. }
  unfold push_new_host, field, update, store_cell. repeat wp_step. simpl.
  rewrite (wrap_small 16) by (unfold is_word; lia). split; [|done].
  exists (reverse (take (Z.to_nat (cache_size_ (span s))) l) ++ idx :: G).
  assert (reverse (take (Z.to_nat (cache_size_ (span s))) l) ++ idx :: G ≡ₚ idx :: F) as Hp.
  { rewrite HF. by rewrite Permutation_middle. }
  split; [done|]. split; simpl; [done|done|by apply word_0| | |].
  - rewrite Hp. by apply NoDup_cons.
  - rewrite Hp. by apply Forall_cons.
  - exists l, (idx :: G). split_and!; [done|done|lia|lia|done|].
    eapply chain_push_new; [done|done|done|]. rewrite HF in Hni. set_solver.
Qed.

Lemma push_spec idx F s :
  free_list F s → valid idx → idx ∉ F →
  (allocated_ (span s) = 1 → FreelistPush cfg (addr idx) size s = Done (false, s)) ∧
  (1 < allocated_ (span s) →
    wp true (FreelistPush cfg (addr idx) size)
      (λ b s', b = true ∧ ∃ F', F' ≡ₚ idx :: F ∧ free_list F' s') s).
Proof.
  intros (Hh & Ha & Hcnt) Hv Hni. split.
  { intros E. unfold FreelistPush, field, mbind, ST_bind, gets, require. rewrite E. simpl. done. }
  intros Hgt. unfold FreelistPush, field. wp_step. wp_step. wp_step.
  wp_step; [lia|]. replace (allocated_ (span s) =? 1) with false by lia.
  unfold update at 1. do 2 wp_step. wp_step. pose proof (h_first _ _ Hh) as Hf.
  apply PtrToIdx_spec; [done|done|]. do 6 wp_step. simpl. wp_step.
  set (s1 := mk_ss _ _).
  apply (wp_mono _ _ (λ _ s', (∃ F', F' ≡ₚ idx :: F ∧ holds F' s') ∧
    allocated_ (span s') = allocated_ (span s1))).
  - assert (holds F s1) as Hh1 by by apply holds_allocated.
    destruct (Z.eqb_spec (cache_size_ (span s)) kCacheSize) as [Ec|Ec]; simpl negb; cbv iota.
    + rewrite (wrap_small 64 (size / sizeof_ObjIdx - 1)).
      2: { pose proof max_embed_size. unfold max_embed in *. unfold is_word, sizeof_ObjIdx.
           pose proof (g_size _ _ _ _ _ Hg). lia. }
      change (size / sizeof_ObjIdx - 1) with max_embed.
      destruct (Z.eqb_spec (freelist_ (span s)) kListEnd) as [Ef|Ef]; simpl negb; cbv iota.
      * simpl. apply push_new_host_spec; [done..|by left].
      * destruct (Z.eqb_spec (embed_count_ (span s)) max_embed) as [Ee|Ee]; simpl.
        -- apply push_new_host_spec; [done..|by right].
        -- by apply push_host_spec.
    + eapply wp_mono; [by apply push_cache_spec|]. simpl. intros _ s' [Hh' Ha'].
      split; [|done]. eauto.
  - intros _ s' [(F' & Hp & Hh') Ha']. wp_step. split; [done|]. exists F'. split; [done|].
    unfold free_list. rewrite Ha'. simpl. split; [done|].
    rewrite Hp. simpl. lia.
Qed.

(** ** FreelistPopBatch *)

Lemma take_drop_cons {A} (l : list A) i n x :
  l !! i = Some x → take (S n) (drop i l) = x :: take n (drop (S i) l).
Proof using Type. intros H. by rewrite (drop_S l x i H). Qed.

Lemma pop_cache_spec n csize result l (s : span_state) :
  first_page_ (span s) = first → union_ (span s) = UCache l → length l = 4%nat →
  0 ≤ result → result + Z.of_nat n ≤ csize ≤ 4 → Forall valid (take (Z.to_nat csize) l) →
  wp true (pop_cache cfg n (size <=? 512) csize result size) (λ ps s', s' = s ∧
    ps = addr <$> take n (drop (Z.to_nat result) (reverse (take (Z.to_nat csize) l)))) s.
Proof.
  intros Hf Hu Hl. revert result. induction n as [|n IH]; intros result Hr Hn Hv; simpl.
  { by wp_step. }
  set (cl := take (Z.to_nat csize) l) in *.
  assert (length cl = Z.to_nat csize) as Hcl by (unfold cl; rewrite length_take; lia).
  destruct (lookup_lt_is_Some_2 cl (Z.to_nat (csize - result - 1))) as [x Hx]; [lia|].
  assert (valid x) as Hvx by (by apply (Forall_lookup_1 _ _ _ _ Hv Hx)).
  unfold cache_get, field. do 3 wp_step. simpl. rewrite Hu.
  wp_step.
  { unfold get_at. replace (0 <=? csize - result - 1) with true by lia.
    unfold cl in Hx. rewrite lookup_take_Some in Hx. by destruct Hx as [Hx _]. }
  wp_step. apply IdxToPtrSized_spec; [done|done|]. wp_step.
  eapply wp_mono; [apply IH; [lia|lia|done]|]. intros ps s' (-> & ->). wp_step. split; [done|].
  rewrite (take_drop_cons _ _ _ x).
  - simpl. by replace (Z.to_nat (result + 1)) with (S (Z.to_nat result)) by lia.
  - apply reverse_lookup_Some. rewrite Hcl. split; [|lia]. rewrite <-Hx. f_equal. lia.
Qed.

Lemma pop_host_spec n h es i (s : span_state) :
  first_page_ (span s) = first → valid h → Forall valid es →
  (∀ j x, es !! j = Some x → cell (cells s) (addr h + 2 * (Z.of_nat j + 1)) = x) →
  0 ≤ i → i + Z.of_nat n ≤ Z.of_nat (length es) →
  wp true (pop_host cfg n (size <=? 512) (addr h) (Z.of_nat (length es)) i size) (λ ps s', s' = s ∧
    ps = addr <$> take n (drop (Z.to_nat i) (reverse es))) s.
Proof.
  intros Hf Hh Hes Hsl. revert i. induction n as [|n IH]; intros i Hi Hn; simpl.
  { by wp_step. }
  destruct (lookup_lt_is_Some_2 es (Z.to_nat (Z.of_nat (length es) - i - 1))) as [x Hx]; [lia|].
  assert (valid x) as Hvx by (by apply (Forall_lookup_1 _ _ _ _ Hes Hx)).
  unfold load, sizeof_ObjIdx. do 2 wp_step.
  pose proof (Hsl _ _ Hx) as Hcell. unfold cell in Hcell.
  replace (2 * (Z.of_nat (length es) - i)) with
    (2 * (Z.of_nat (Z.to_nat (Z.of_nat (length es) - i - 1)) + 1)) by lia.
  rewrite Hcell. wp_step. apply IdxToPtrSized_spec; [done|done|]. wp_step.
  eapply wp_mono; [apply IH; lia|]. intros ps s' (-> & ->). wp_step. split; [done|].
  rewrite (take_drop_cons _ _ _ x).
  - simpl. by replace (Z.to_nat (i + 1)) with (S (Z.to_nat i)) by lia.
  - apply reverse_lookup_Some. split; [|lia]. rewrite <-Hx. f_equal. lia.
Qed.

(** A full array has as many indices as the 16-bit count says. *)
Lemma chain_full c h G :
  chain c max_embed h G → NoDup G → chain c (wrap 16 max_embed) h G.
Proof.
  intros Hc Hnd. pose proof (chain_valid _ _ _ _ Hc) as Hv. pose proof (valid_length G Hnd Hv) as Hl.
  pose proof count_bound. remember max_embed as e eqn:Ee. destruct Hc as [|e h es rest Hvh Hes Hlen Hle Hsl Hrest].
  - constructor.
  - rewrite length_app, length_reverse in Hl. simpl in Hl.
    rewrite (wrap_small 16) by (unfold is_word; lia). subst e. by constructor.
Qed.

(** The state after the loop over the hosts. *)
Definition popped (s : span_state) (G : list Z) (s' : span_state) : Prop :=
  ∃ e f, s' = mk_ss (with_embed e (with_freelist f (span s))) (cells s) ∧ is_word 16 e ∧
    chain (cells s) e f G.

Lemma pop_hosts_spec fuel N result G (s : span_state) :
  first_page_ (span s) = first → is_word 16 (embed_count_ (span s)) → NoDup G →
  chain (cells s) (embed_count_ (span s)) (freelist_ (span s)) G →
  0 ≤ result ≤ N → N - result < Z.of_nat fuel →
  wp true (pop_hosts cfg fuel (size <=? 512) N result size) (λ ps s',
    ps = addr <$> take (Z.to_nat (N - result)) G ∧
    popped s (drop (Z.to_nat (N - result)) G) s') s.
Proof.
  revert result G s. induction fuel as [|fuel IH]; intros result G s Hf He Hnd Hc Hr Hfu; [lia|].
  assert (mk_ss (with_embed (embed_count_ (span s)) (with_freelist (freelist_ (span s)) (span s)))
    (cells s) = s) as Eta by (by destruct s as [[] ?]).
  simpl. destruct (Z.ltb_spec result N) as [Hlt|Hge].
  2: { wp_step. replace (Z.to_nat (N - result)) with 0%nat by lia. split; [done|].
       eexists _, _. by rewrite Eta. }
  unfold field. do 2 wp_step.
  destruct (Z.eqb_spec (freelist_ (span s)) kListEnd) as [Ef|Ef].
  { wp_step. rewrite Ef in Hc. pose proof (chain_end _ _ _ Hc) as ->.
    rewrite take_nil, drop_nil. split; [done|]. eexists _, _. rewrite <-Ef in Hc. by rewrite Eta. }
  inversion Hc as [|e h es rest Hh Hes Hlen Hle Hsl Hrest E1 E2 E3]; [by destruct Ef|].
  wp_step. apply IdxToPtrSized_spec; [done|done|]. do 2 wp_step. simpl. rewrite <-Hlen.
  set (iter := if N <? result + Z.of_nat (length es) then N - result else Z.of_nat (length es)).
  assert (0 ≤ iter ≤ Z.of_nat (length es) ∧ iter ≤ Z.max iter (N - result) ∧
    (iter = N - result ∨ iter = Z.of_nat (length es) ∧ iter < N - result)) as (Hit & _ & Hcase).
  { unfold iter. destruct (Z.ltb_spec N (result + Z.of_nat (length es))); lia. }
  clearbody iter. wp_step.
  eapply wp_mono; [apply pop_host_spec; [done|done|done|done|lia|lia]|].
  intros ps s' (-> & ->). cbv beta iota. unfold load, update, sizeof_ObjIdx. do 2 wp_step.
  rewrite drop_0. destruct Hcase as [Hk|[Hk Hlt']].
  - replace (result + iter =? N) with true by lia. do 3 wp_step. rewrite <-Hk.
    split; [by rewrite take_app_le by (rewrite length_reverse; lia)|].
    eexists _, _. split; [done|]. split; [by apply wrap_word|].
    rewrite (wrap_small 16) by (unfold is_word in *; lia).
    rewrite drop_app_le, drop_reverse by (rewrite length_reverse; lia).
    apply chain_cons; [done|by apply Forall_take|rewrite length_take; lia|lia| |done].
    intros j x [Hx _]%lookup_take_Some. by apply Hsl.
  - replace (result + iter =? N) with false by lia.
    replace (Z.of_nat (length es) - iter) with 0 by lia. rewrite (wrap_small 16 0) by done.
    wp_step. wp_step; [done|]. do 2 wp_step. wp_step. rewrite Z.mul_0_r, Z.add_0_r.
    fold (cell (cells s) (addr (freelist_ (span s)))). fold max_embed.
    rewrite (wrap_small 64 max_embed) by (pose proof max_embed_size; pose proof (g_size _ _ _ _ _ Hg);
      unfold is_word; lia).
    rewrite <-E3 in Hnd. apply NoDup_app in Hnd as (_ & _ & Hnd). apply NoDup_cons in Hnd as [_ Hnd].
    wp_step. wp_step. eapply wp_mono; [apply (IH _ rest); [done|by apply wrap_word|done|by apply chain_full|lia|lia]|].
    intros qs s' (-> & e' & f' & -> & He' & Hc'). wp_step. simpl in Hc'.
    replace (Z.to_nat (N - result)) with (length (reverse es) + S (Z.to_nat (N - (result + iter + 1))))%nat
      by (rewrite length_reverse; lia).
    rewrite take_app_add, drop_app_add. simpl. split.
    + rewrite fmap_app, take_ge by (rewrite length_reverse; lia). done.
    + by exists e', f'.
Qed.

(** A batch is the first objects of the list, and they leave it. *)
Lemma pop_spec N F s :
  free_list F s → 0 ≤ N →
  wp true (FreelistPopBatch cfg N size) (λ ps s',
    ps = addr <$> take (Z.to_nat N) F ∧ free_list (drop (Z.to_nat N) F) s') s.
Proof.
  intros ([Hf Hn Hemb Hnd Hval (l & G & Hu & Hl & Hcs & HF & Hch)] & Ha & Hcnt) HN.
  unfold FreelistPopBatch, FreelistPopBatchSized, kMultiPageSize, field, update. do 3 wp_step.
  set (cs := cache_size_ (span s)) in *. set (C := take (Z.to_nat cs) l) in *.
  set (r := if cs <? N then cs else N).
  assert (length C = Z.to_nat cs) as HC by (unfold C; rewrite length_take; lia).
  assert (0 ≤ r ≤ cs ∧ r ≤ N ∧ (r = N ∨ r = cs)) as (Hr & HrN & Hcase).
  { unfold r. destruct (Z.ltb_spec cs N); lia. }
  clearbody r. rewrite HF in Hnd, Hval. apply Forall_app in Hval as [HvC HvG].
  rewrite Forall_reverse in HvC.
  eapply wp_mono; [eapply (pop_cache_spec _ _ _ l); [done|done|done|lia|lia|done]|].
  fold C. intros ps s' (-> & ->). cbv beta iota. do 3 wp_step.
  pose proof (proj2 (proj2 (proj1 (NoDup_app _ _) Hnd))) as HndG.
  eapply wp_mono; [apply (pop_hosts_spec _ _ _ G); [done|done|done|done|lia|lia]|].
  intros qs s' (-> & e' & f' & -> & He' & Hc'). cbv beta iota. do 4 wp_step. wp_step. simpl.
  rewrite drop_0.
  assert (take (Z.to_nat r) (reverse C) ++ take (Z.to_nat (N - r)) G = take (Z.to_nat N) F) as HT.
  { rewrite HF, take_app, length_reverse, HC. destruct Hcase as [->| ->].
    - replace (Z.to_nat (N - N)) with (Z.to_nat N - Z.to_nat cs)%nat by lia. done.
    - rewrite (take_ge _ (Z.to_nat cs)), (take_ge _ (Z.to_nat N)) by (rewrite length_reverse; lia).
      by replace (Z.to_nat (N - cs)) with (Z.to_nat N - Z.to_nat cs)%nat by lia. }
  assert (drop (Z.to_nat r) (reverse C) ++ drop (Z.to_nat (N - r)) G = drop (Z.to_nat N) F) as HD.
  { rewrite HF, drop_app, length_reverse, HC. destruct Hcase as [->| ->].
    - replace (Z.to_nat (N - N)) with (Z.to_nat N - Z.to_nat cs)%nat by lia. done.
    - rewrite (drop_ge _ (Z.to_nat cs)), (drop_ge _ (Z.to_nat N)) by (rewrite length_reverse; lia).
      by replace (Z.to_nat (N - cs)) with (Z.to_nat N - Z.to_nat cs)%nat by lia. }
  split; [by rewrite <-HT, fmap_app|].
  assert (Z.of_nat (length (take (Z.to_nat N) F)) + Z.of_nat (length (drop (Z.to_nat N) F)) =
    Z.of_nat (length F)) as Hlen by (rewrite length_take, length_drop; lia).
  pose proof count_bound. unfold free_list. simpl.
  rewrite <-fmap_app, HT, length_fmap, (wrap_small 16) by (unfold is_word; lia).
  split; [|lia]. split; simpl; [done|done|done| | |].
  - rewrite HF. eapply sublist_NoDup; [exact Hnd|apply sublist_drop].
  - rewrite HF. apply Forall_drop, Forall_app. split; [by apply Forall_reverse|done].
  - exists l, (drop (Z.to_nat (N - r)) G). rewrite (wrap_small 8) by (unfold is_word; lia).
    split_and!; [done|done|lia|lia| |done].
    rewrite <-HD, drop_reverse, HC. f_equal. f_equal. unfold C. rewrite take_take. f_equal. lia.
Qed.

(** ** BuildFreelist *)

(** The objects from the [a]-th up to, not including, the [b]-th. *)
Definition objects (a b : Z) : list Z := (λ k, k * step) <$> seqZ a (b - a).

Definition union_cells (u : span_union) : list Z :=
  match u with UCache l => l | _ => replicate 4 0 end.

Lemma objects_first a b : a < b → objects a b = a * step :: objects (a + 1) b.
Proof.
  intros H. unfold objects. rewrite seqZ_cons by lia. simpl. f_equal. f_equal. f_equal; lia.
Qed.

Lemma objects_last a b : a ≤ b → objects a (b + 1) = objects a b ++ [b * step].
Proof.
  intros H. unfold objects. rewrite <-(Z2Nat.id (b - a)) by lia.
  replace (b + 1 - a) with (Z.of_nat (S (Z.to_nat (b - a)))) by lia.
  rewrite seqZ_S, fmap_app. simpl. do 3 f_equal. lia.
Qed.

Lemma build_cache_spec fuel a b l (s : span_state) :
  0 ≤ a ≤ b → a ≤ 4 → 1 ≤ b → b * step < 65535 → 4 - a < Z.of_nat fuel →
  cache_size_ (span s) = a → union_cells (union_ (span s)) = l → length l = 4%nat →
  take (Z.to_nat a) l = objects 0 a → (a = 0 ∨ union_ (span s) = UCache l) →
  wp true (build_cache fuel (a * step) (b * step) step) (λ idx s', ∃ a' l',
    a' = Z.min b 4 ∧ idx = a' * step ∧ length l' = 4%nat ∧ take (Z.to_nat a') l' = objects 0 a' ∧
    s' = mk_ss (with_cache_size a' (with_union (UCache l') (span s))) (cells s)) s.
Proof.
  revert a l s. induction fuel as [|fuel IH]; intros a l s Ha Ha4 Hb Hi Hfu Hc Hu Hl Ht Hor; [lia|].
  assert (mk_ss (with_cache_size (cache_size_ (span s)) (with_union (union_ (span s)) (span s)))
    (cells s) = s) as Eta by (by destruct s as [[] ?]).
  pose proof step_size as [_ Hs]. simpl. unfold field. do 2 wp_step. rewrite Hc. unfold kCacheSize.
  destruct (Z.ltb_spec (a * step) (b * step)) as [Hlt|Hge]; simpl.
  2: { assert (a = b) as -> by nia. destruct Hor as [->|Hor]; [lia|]. wp_step.
       exists b, l. split_and!; [lia|done..|]. by rewrite <-Hc, <-Hor, Eta. }
  assert (a < b) by nia.
  destruct (Z.ltb_spec a 4) as [Hlt4|Hge4]; simpl.
  2: { destruct Hor as [->|Hor]; [lia|]. wp_step.
       exists a, l. split_and!; [lia|done..|]. by rewrite <-Hc, <-Hor, Eta. }
  unfold cache_set, field, update. do 3 wp_step.
  change (match union_ (span s) with UCache l0 => l0 | _ => replicate 4 0 end)
    with (union_cells (union_ (span s))). rewrite Hu.
  rewrite (wrap_small 16) by (unfold is_word; nia).
  wp_step. wp_step; [apply put_at_Some; lia|].
  do 3 wp_step. rewrite (wrap_small 8) by (unfold is_word; lia).
  replace (a * step + step) with ((a + 1) * step) by lia.
  rewrite (wrap_small 16) by (unfold is_word; nia).
  eapply wp_mono; [apply (IH (a + 1) (<[Z.to_nat a := a * step]> l)); simpl|].
  1-7: try done; lia.
  - by rewrite length_insert.
  - rewrite objects_last, <-Ht by lia. replace (Z.to_nat (a + 1)) with (S (Z.to_nat a)) by lia.
    rewrite (take_S_r _ _ (a * step)) by (apply list_lookup_insert_eq; lia).
    by rewrite take_insert_ge by lia.
  - by right.
  - intros idx s' (a' & l' & ? & ? & ? & ? & ->). exists a', l'. done.
Qed.

Lemma elem_of_objects a b x : x ∈ objects a b ↔ ∃ k, a ≤ k < b ∧ x = k * step.
Proof.
  unfold objects. rewrite list_elem_of_fmap. split.
  - intros (k & -> & Hk%elem_of_seqZ). exists k. split; [lia|done].
  - intros (k & Hk & ->). exists k. split; [done|]. apply elem_of_seqZ. lia.
Qed.

Lemma objects_valid a b : 0 ≤ a → b ≤ count → Forall valid (objects a b).
Proof.
  intros Ha Hb. apply Forall_forall. intros x (k & Hk & ->)%elem_of_objects. exists k. split; [lia|done].
Qed.

Lemma NoDup_objects a b : NoDup (objects a b).
Proof.
  pose proof step_size as [_ Hs]. unfold objects. apply NoDup_fmap_2; [|apply NoDup_seqZ].
  intros x y H. nia.
Qed.

Lemma length_objects a b : a ≤ b → Z.of_nat (length (objects a b)) = b - a.
Proof. intros H. unfold objects. rewrite length_fmap, length_seqZ. lia. Qed.

(** The first array of a chain is within its bounds. *)
Lemma chain_count c e h G :
  chain c e h G → h ≠ kListEnd → 0 ≤ e ≤ max_embed ∧ e < Z.of_nat (length G) ∧ valid h.
Proof.
  intros Hc Hh. destruct Hc as [|e h es rest Hvh _ Hlen Hle]; [done|].
  rewrite length_app, length_reverse. simpl. split_and!; [lia|lia|lia|done].
Qed.

(** The state after the loop that builds the chain. *)
Definition chained (s : span_state) (G : list Z) (s' : span_state) : Prop :=
  ∃ e f c G', s' = mk_ss (with_embed e (with_freelist f (span s))) c ∧ is_word 16 e ∧
    chain c e f G' ∧ G' ≡ₚ G.

Lemma build_hosts_spec fuel a b host G (s : span_state) :
  0 ≤ a ≤ b → b ≤ count → b - a < Z.of_nat fuel → first_page_ (span s) = first →
  is_word 16 (embed_count_ (span s)) → NoDup (G ++ objects a b) →
  chain (cells s) (embed_count_ (span s)) (freelist_ (span s)) G →
  (host = 0 ∧ freelist_ (span s) = kListEnd ∨
    host = addr (freelist_ (span s)) ∧ freelist_ (span s) ≠ kListEnd) →
  wp true (build_hosts cfg fuel (a * step) (b * step) step host size)
    (λ _ s', chained s (G ++ objects a b) s') s.
Proof.
  revert a b host G s. induction fuel as [|fuel IH];
    intros a b host G s Ha Hb Hfu Hf He Hnd Hc Hor; [lia|].
  pose proof step_size as [_ Hs]. pose proof (g_index _ _ _ _ _ Hg) as Hi. fold step in Hi.
  simpl. destruct (Z.ltb_spec (a * step) (b * step)) as [Hlt|Hge].
  2: { wp_step. assert (objects a b = []) as ->.
       { apply elem_of_nil_inv. intros x (k & Hk & _)%elem_of_objects. nia. }
       exists (embed_count_ (span s)), (freelist_ (span s)), (cells s), G. rewrite app_nil_r.
       split; [by destruct s as [[] ?]|]. done. }
  assert (a < b) by nia. assert (b * step < 65535) as Hbs
    by (pose proof (Z.mul_le_mono_nonneg_r b count step ltac:(lia) Hb); lia).
  unfold kListEnd in *. wp_step. wp_step; [lia|]. unfold field, update, store_cell.
  do 2 wp_step.
  assert (u64 (size / sizeof_ObjIdx - 1) = max_embed) as ->.
  { apply wrap_small. pose proof max_embed_size. pose proof (g_size _ _ _ _ _ Hg).
    change (size / sizeof_ObjIdx - 1) with max_embed. unfold is_word. lia. }
  assert (Z.of_nat (length G) < count) as HG.
  { assert (Forall valid (G ++ objects a b)) as Hva.
    { apply Forall_app. split; [by eapply chain_valid|apply objects_valid; lia]. }
    pose proof (valid_length _ Hnd Hva) as HL. rewrite length_app in HL.
    pose proof (length_objects a b ltac:(lia)). lia. }
  pose proof count_bound as Hcb.
  destruct (negb (host =? 0) && negb (embed_count_ (span s) =? max_embed)) eqn:Eb.
  - assert (host = addr (freelist_ (span s)) ∧ freelist_ (span s) ≠ 65535) as [-> Hfe].
    { destruct Hor as [[-> _]|Hor]; [done|done]. }
    assert (valid ((b - 1) * step)) as Hv by (exists (b - 1); split; [lia|done]).
    replace b with (b - 1 + 1) in Hnd by lia.
    rewrite objects_last, (assoc_L (++)) in Hnd by lia.
    pose proof (chain_count _ _ _ _ Hc Hfe).
    do 4 wp_step.
    rewrite (wrap_small 16 (embed_count_ (span s) + 1)) by (unfold is_word; lia).
    replace (b * step - step) with ((b - 1) * step) by lia.
    rewrite !(wrap_small 16 ((b - 1) * step)) by (unfold is_word; nia).
    eapply wp_mono; [apply (IH a (b - 1) _ ((b - 1) * step :: G)); simpl|].
    1-4: try done; lia.
    + unfold is_word. lia.
    + rewrite (comm (++)) in Hnd. done.
    + apply chain_push_host; [done|done|lia|done| |lia]. by apply NoDup_app in Hnd as [[? _]%NoDup_app _].
    + by right.
    + intros _ s' (e & f & c & G' & -> & He' & Hc' & HG'). exists e, f, c, G'. split_and!; [done..|].
      rewrite HG'. replace b with (b - 1 + 1) at 3 by lia. rewrite objects_last by lia.
      rewrite (assoc_L (++)), (comm (++) _ [_]). done.
  - assert (valid (a * step)) as Hv by (exists a; split; [lia|done]).
    rewrite objects_first in * by lia.
    assert (a * step ∉ G) as Hni. { apply NoDup_app in Hnd as (_ & Hnd & _). set_solver. }
    wp_step. apply IdxToPtr_spec; [done|done|]. do 8 wp_step.
    replace (a * step + step) with ((a + 1) * step) by lia.
    rewrite !(wrap_small 16 ((a + 1) * step)) by (unfold is_word; nia).
    eapply wp_mono; [apply (IH (a + 1) b _ (a * step :: G)); simpl|].
    1-4: try done; lia.
    + by apply word_0.
    + rewrite <-Permutation_middle in Hnd. done.
    + rewrite (wrap_small 16).
      * eapply chain_push_new; [done| |done|done]. unfold kListEnd.
        destruct Hor as [[-> Hfe]|[-> Hfe]]; [by left|right].
        pose proof (chain_count _ _ _ _ Hc Hfe) as (_ & _ & Hvf). pose proof (addr_bounds _ Hvf). lia.
      * destruct Hor as [[_ ->]|[_ Hfe]]; [done|].
        pose proof (chain_count _ _ _ _ Hc Hfe) as (_ & _ & Hvf). pose proof (valid_bounds _ Hvf).
        unfold is_word. lia.
    + right. split; [done|nia].
    + intros _ s' (e & f & c & G' & -> & He' & Hc' & HG'). exists e, f, c, G'. split_and!; [done..|].
      rewrite HG'. by rewrite <-Permutation_middle.
Qed.

(** After [BuildFreelist] all the objects are free. *)
Lemma build_spec s :
  first_page_ (span s) = first → num_pages_ (span s) = num →
  length (union_cells (union_ (span s))) = 4%nat →
  wp true (BuildFreelist cfg size count) (λ _ s', ∃ F,
    F ≡ₚ objects 0 count ∧ free_list F s' ∧ allocated_ (span s') = 0) s.
Proof.
  intros Hf Hn Hu. pose proof step_size as [_ Hs]. pose proof (g_index _ _ _ _ _ Hg) as Hi. fold step in Hi.
  pose proof (g_count _ _ _ _ _ Hg) as Hcp.
  unfold BuildFreelist, update. do 9 wp_step.
  assert ((if kMultiPageSize <? size then wrap 16 (size / kMultiPageAlignment)
    else wrap 16 (size / kAlignment)) = step) as ->.
  { assert (step < 65535) as Hst by nia. unfold step, kMultiPageSize, kMultiPageAlignment, kAlignment in *.
    pose proof unit_cases as [[Hsz Eu]|[Hsz Eu]]; rewrite Eu in *.
    - replace (512 <? size) with false by lia. apply wrap_small. unfold is_word. lia.
    - replace (512 <? size) with true by lia. apply wrap_small. unfold is_word. lia. }
  assert (u64 (count * step) = count * step) as -> by (apply wrap_small; unfold is_word; lia).
  unfold kListEnd at 1. wp_step; [lia|]. rewrite (wrap_small 16 (count * step)) by (unfold is_word; lia).
  set (s0 := mk_ss _ _). do 1 wp_step.
  eapply wp_mono; [apply (build_cache_spec _ 0 count (union_cells (union_ (span s))) s0); simpl|].
  1-10: first [lia|done|by left|idtac].
  intros idx s' (a & l & Ea & -> & Hl & Ht & ->). cbv beta iota.
  assert (a ≤ count ∧ 0 ≤ a ≤ 4) as Hab by lia.
  assert (objects 0 count = objects 0 a ++ objects a count) as Hsplit.
  { unfold objects. rewrite <-fmap_app. f_equal. replace (count - 0) with ((a - 0) + (count - a)) by lia.
    rewrite seqZ_app by lia. f_equal. f_equal. lia. }
  eapply wp_mono; [apply (build_hosts_spec _ a count 0 []); simpl|].
  1-8: first [lia|done|by apply word_0|apply NoDup_objects|constructor|by left|idtac].
  simpl. intros _ s' (e & f & c & G & -> & He & Hc & HG). simpl in *.
  assert (reverse (objects 0 a) ++ G ≡ₚ objects 0 count) as Hp.
  { rewrite HG, Hsplit. by rewrite reverse_Permutation. }
  exists (reverse (objects 0 a) ++ G). split; [done|]. split; [|done]. split; simpl.
  - split; simpl; [done|done|done| | |].
    + rewrite Hp. apply NoDup_objects.
    + rewrite Hp. apply objects_valid; lia.
    + exists l, G. split_and!; [done|done|lia|lia| |done]. by rewrite Ht.
  - rewrite Hp, length_objects by lia. lia.
Qed.
End FreeList.
