(* ===== verification/TcSpanTheorems.v ===== *)
(** * tcmalloc: theorems about spans

    For every size class of the tables, the free list of a span hands out every
    object of the span at most once, and takes the objects back. *)

From S2P Require Import Prelude.
From S2P Require Import CString.
From S2P Require Import TcCommon.
From S2P Require Import TcSizeClasses.
From S2P Require Import TcExperiment.
From S2P Require Import TcSizeMap.
From S2P Require Import TcSizeMapCorrect.
From S2P Require Import TcSizeMapTheorems.
From S2P Require Import TcSpan.
From S2P Require Import TcSpanCorrect.

(** ** The size classes of the tables *)

(** The objects in a span of a class, as [CentralFreeList::Init] computes it. *)
Definition span_objects (cfg : config) (sc : SizeClassInfo) : Z :=
  sc_pages sc * kPageSize cfg / sc_size sc.

Definition span_fits (cfg : config) (sc : SizeClassInfo) : bool :=
  let size := sc_size sc in
  let unit_ := obj_unit size in
  (8 <=? size) && (size <=? 262144) && (size mod unit_ =? 0) &&
  ((512 <? size) || (sc_pages sc =? 1)) && (0 <? span_objects cfg sc) &&
  (span_objects cfg sc * (size / unit_) <? 65535).

Lemma tables_span_fit cfg infos : infos ∈ tables cfg → forallb (span_fits cfg) (drop 1 infos) = true.
Proof.
  revert cfg infos. apply (tables_forallb (λ cfg infos, forallb (span_fits cfg) (drop 1 infos))).
  by intros [] [] r; vm_compute.
Qed.

Lemma fits_geometry cfg sc first :
  span_fits cfg sc = true → 0 < first →
  first * kPageSize cfg + sc_pages sc * kPageSize cfg ≤ 2 ^ 64 →
  geometry cfg (sc_size sc) (span_objects cfg sc) first (sc_pages sc).
Proof.
  unfold span_fits. cbv zeta. intros H Hf He.
  split; [lia|lia|lia|lia| |lia|done|done]. unfold span_objects.
  rewrite Z.mul_comm. apply Z.mul_div_le. lia.
Qed.

(** ** A span and its clients *)

Section Clients.
Context (cfg : config) (size count first num : Z).
Context (Hg : geometry cfg size count first num).

(** The histories of a span: [out] are the objects that the clients hold. *)
Inductive history : list Z → span_state → Prop :=
  | history_build sp c s' :
      length (union_cells (union_ sp)) = 4%nat →
      BuildFreelist cfg size count (mk_ss (Span_Init first num sp) c) = Done (tt, s') →
      history [] s'
  | history_pop out s N ps s' :
      history out s → 0 ≤ N → FreelistPopBatch cfg N size s = Done (ps, s') →
      history (ps ++ out) s'
  | history_push out1 p out2 s s' :
      history (out1 ++ p :: out2) s → FreelistPush cfg p size s = Done (true, s') →
      history (out1 ++ out2) s'.

(** The addresses of the objects. *)
Definition object (p : Z) : Prop := ∃ k, 0 ≤ k < count ∧ p = first * kPageSize cfg + k * size.

Lemma object_valid p : object p ↔ ∃ idx, valid size count idx ∧ p = addr cfg size first idx.
Proof.
  pose proof (step_size _ _ _ _ _ Hg) as [E _]. split.
  - intros (k & Hk & ->). exists (k * step size). split; [by exists k|]. unfold addr, base. nia.
  - intros (idx & (k & Hk & ->) & ->). exists k. split; [done|]. unfold addr, base. nia.
Qed.

Lemma addr_inj i j : addr cfg size first i = addr cfg size first j → i = j.
Proof. pose proof (unit_cases size). unfold addr. nia. Qed.

(** The clients' objects are the ones that are not free. *)
Definition balanced (out : list Z) (s : span_state) : Prop :=
  ∃ O F, out = addr cfg size first <$> O ∧ free_list cfg size count first num F s ∧
    O ++ F ≡ₚ objects size 0 count.

(** What balance says of the objects. *)
Lemma balanced_facts O F s :
  free_list cfg size count first num F s → O ++ F ≡ₚ objects size 0 count →
  NoDup (O ++ F) ∧ Forall (valid size count) (O ++ F) ∧
  allocated_ (span s) = Z.of_nat (length O) ∧ Z.of_nat (length O) + Z.of_nat (length F) = count.
Proof.
  intros (Hh & Ha & Hcnt) Hp. pose proof (g_count _ _ _ _ _ Hg).
  pose proof (length_objects size 0 count ltac:(lia)) as HL. rewrite <-Hp, length_app in HL.
  split_and!; [|by rewrite Hp; apply objects_valid|lia|lia].
  rewrite Hp. by eapply NoDup_objects.
Qed.

Lemma objects_disjoint i j :
  valid size count i → valid size count j → i ≠ j →
  addr cfg size first i + size ≤ addr cfg size first j ∨ addr cfg size first j + size ≤ addr cfg size first i.
Proof. by eapply objects_apart. Qed.

Lemma empty_spec F s :
  holds cfg size count first num F s → FreelistEmpty s = Done (bool_decide (F = []), s).
Proof.
  intros [_ _ _ _ _ (l & G & _ & Hl & Hcs & HF & Hc)].
  unfold FreelistEmpty, field, mbind, ST_bind, gets, mret, ST_ret. do 3 f_equal.
  destruct (Z.eqb_spec (cache_size_ (span s)) 0) as [E0|E0]; simpl.
  - rewrite E0 in HF. change (Z.to_nat 0) with 0%nat in HF. rewrite take_0 in HF. simpl in HF. subst F.
    inversion Hc as [e E1 E2 E3|e h es rest Hh Hes Hlen Hle Hsl Hrest E1 E2 E3].
    + rewrite bool_decide_eq_true_2 by done. done.
    + pose proof (valid_bounds _ _ _ _ _ Hg _ Hh) as [Hb _]. rewrite bool_decide_eq_false_2.
      * unfold kListEnd. lia.
      * by destruct (reverse es).
  - rewrite bool_decide_eq_false_2; [done|]. rewrite HF. intros [H _]%app_nil.
    apply (f_equal length) in H. rewrite length_reverse, length_take in H. simpl in H. lia.
Qed.

Lemma push_balanced O1 O2 idx F s :
  free_list cfg size count first num F s → (O1 ++ idx :: O2) ++ F ≡ₚ objects size 0 count →
  valid size count idx ∧ idx ∉ F ∧ allocated_ (span s) = Z.of_nat (length (O1 ++ idx :: O2)).
Proof.
  intros (Hh & Ha & Hcnt) Hp. split_and!.
  - pose proof (objects_valid size count 0 count ltac:(done) ltac:(done)) as Hv.
    rewrite <-Hp in Hv. rewrite Forall_forall in Hv. apply Hv. set_solver.
  - pose proof (NoDup_objects _ _ _ _ _ Hg 0 count) as Hnd. rewrite <-Hp in Hnd.
    apply NoDup_app in Hnd as (_ & Hnd & _). apply Hnd. set_solver.
  - pose proof (g_count _ _ _ _ _ Hg). pose proof (length_objects size 0 count ltac:(lia)) as HL.
    rewrite <-Hp, length_app in HL. lia.
Qed.

Lemma history_balanced out s : history out s → balanced out s.
Proof.
  induction 1 as [sp c s' Hu E|out s N ps s' Hh IH HN E|out1 p out2 s s' Hh IH E].
  - pose proof (build_spec _ _ _ _ _ Hg (mk_ss (Span_Init first num sp) c) eq_refl eq_refl Hu) as H.
    unfold wp in H. rewrite E in H. destruct H as (F & Hp & Hfl & _).
    by exists [], F.
  - destruct IH as (O & F & -> & Hfl & Hp).
    pose proof (pop_spec _ _ _ _ _ Hg N F s Hfl HN) as H. unfold wp in H. rewrite E in H.
    destruct H as (-> & Hfl'). exists (take (Z.to_nat N) F ++ O), (drop (Z.to_nat N) F).
    split; [by rewrite fmap_app|]. split; [done|].
    rewrite <-Hp, (comm (++) _ O), <-(assoc_L (++)), take_drop. done.
  - destruct IH as (O & F & Heq & Hfl & Hp).
    symmetry in Heq. apply fmap_app_inv in Heq as (O1 & O2' & -> & Heq & ->).
    symmetry in Heq. apply fmap_cons_inv in Heq as (idx & O2 & -> & -> & ->).
    destruct (push_balanced _ _ _ _ _ Hfl Hp) as (Hv & Hni & Ha).
    rewrite length_app in Ha. simpl in Ha.
    pose proof (push_spec _ _ _ _ _ Hg idx F s Hfl Hv Hni) as [H1 H2].
    destruct (decide (allocated_ (span s) = 1)) as [E1|E1]; [by rewrite H1 in E|].
    specialize (H2 ltac:(lia)). unfold wp in H2. rewrite E in H2.
    destruct H2 as (_ & F' & HF' & Hfl'). exists (O1 ++ O2), F'. split; [by rewrite fmap_app|].
    split; [done|]. rewrite HF', <-Hp, <-Permutation_middle, <-!(assoc_L (++)). simpl.
    by rewrite <-Permutation_middle.
Qed.

(** C13: Whatever sequence of pops and pushes its clients make, a span hands out
    each of its objects to at most one client.  The objects the clients hold are
    different, do not overlap and lie inside of the span; the count of allocated
    objects is their number, and the list is empty exactly if they are all the
    objects.  Popping a batch never fails: it returns as many objects as asked
    for if there are enough, else all the free ones.  Pushing an object that a
    client holds succeeds, except that the last one is not put on the list: the
    call returns false and leaves the span to be released. *)
Theorem span_hands_out_objects out s :
  history out s →
  NoDup out ∧ Forall object out ∧
  (∀ p q, p ∈ out → q ∈ out → p ≠ q → p + size ≤ q ∨ q + size ≤ p) ∧
  (∀ p, p ∈ out → first * kPageSize cfg ≤ p ∧ p + size ≤ (first + num) * kPageSize cfg) ∧
  allocated_ (span s) = Z.of_nat (length out) ∧
  FreelistEmpty s = Done (bool_decide (Z.of_nat (length out) = count), s) ∧
  (∀ N, 0 ≤ N → ∃ ps s', FreelistPopBatch cfg N size s = Done (ps, s') ∧
    Z.of_nat (length ps) = Z.min N (count - Z.of_nat (length out)) ∧
    NoDup (ps ++ out) ∧ Forall object ps) ∧
  (∀ p, out = [p] → FreelistPush cfg p size s = Done (false, s)) ∧
  (∀ p, p ∈ out → (1 < length out)%nat → ∃ s', FreelistPush cfg p size s = Done (true, s')).
Proof.
  intros Hh. destruct (history_balanced _ _ Hh) as (O & F & -> & Hfl & Hp).
  destruct (balanced_facts _ _ _ Hfl Hp) as (Hnd & Hva & Hal & Hlen).
  apply Forall_app in Hva as [HvO HvF]. pose proof HvO as HvO'. rewrite Forall_forall in HvO'.
  pose proof (NoDup_app O F) as HndO. apply HndO in Hnd as (HnO & Hdis & HnF). clear HndO.
  split_and!.
  - apply NoDup_fmap_2; [|done]. intros i j. apply addr_inj.
  - apply Forall_fmap. eapply Forall_impl; [done|]. intros i Hi. apply object_valid. by exists i.
  - intros p q (i & -> & Hi)%list_elem_of_fmap (j & -> & Hj)%list_elem_of_fmap Hne.
    apply objects_disjoint; [by apply HvO'|by apply HvO'|]. by intros ->.
  - intros p (i & -> & Hi)%list_elem_of_fmap.
    pose proof (valid_bounds _ _ _ _ _ Hg i (HvO' i Hi)) as [_ Hb].
    pose proof (addr_bounds _ _ _ _ _ Hg i (HvO' i Hi)). unfold addr, base in *. lia.
  - by rewrite length_fmap.
  - rewrite (empty_spec F) by apply Hfl. rewrite length_fmap. do 2 f_equal. apply bool_decide_ext.
    destruct F; simpl in *; [split; [lia|done]|split; [done|lia]].
  - intros N HN. pose proof (pop_spec _ _ _ _ _ Hg N F s Hfl HN) as H.
    apply wp_total_done in H as (ps & s' & E & -> & _). eexists _, s'. split; [done|].
    rewrite !length_fmap, length_take. split; [lia|]. rewrite <-fmap_app. split.
    + apply NoDup_fmap_2; [intros i j; apply addr_inj|]. rewrite (comm (++)).
      apply (sublist_NoDup _ (O ++ F)); [by apply NoDup_app|].
      apply sublist_app; [done|apply sublist_take].
    + apply Forall_fmap. eapply Forall_impl; [by apply Forall_take|]. intros i Hi. apply object_valid.
      by exists i.
  - intros p Hout. destruct O as [|idx [|]]; [done| |done]. injection Hout as <-.
    destruct (push_balanced [] [] idx F s Hfl Hp) as (Hv & Hni & _).
    by apply (push_spec _ _ _ _ _ Hg idx F s Hfl Hv Hni).
  - intros p (idx & -> & (O1 & O2 & ->)%list_elem_of_split)%list_elem_of_fmap Hgt.
    rewrite length_fmap in Hgt. destruct (push_balanced _ _ _ _ _ Hfl Hp) as (Hv & Hni & _).
    pose proof (push_spec _ _ _ _ _ Hg idx F s Hfl Hv Hni) as [_ H2].
    specialize (H2 ltac:(lia)). apply wp_total_done in H2 as (b & s' & E & -> & _). by exists s'.
Qed.
End Clients.

(** A span of page 16 with eight objects of 1024 bytes. *)
Definition example_config : config := mk_config Shift13 true true.
Definition example_span : Span := mk_span 7 7 7 7 ON_NORMAL_FREELIST true (UTime 5) 0 0.

Lemma example_geometry : geometry example_config 1024 8 16 1.
Proof. split; vm_compute; (done || intros; congruence). Qed.

Lemma span_hands_out_objects_witness :
  ∃ s1 ps s2, BuildFreelist example_config 1024 8 (mk_ss (Span_Init 16 1 example_span) ∅) = Done (tt, s1) ∧
    FreelistPopBatch example_config 6 1024 s1 = Done (ps, s2) ∧
    ps = [134144; 133120; 132096; 131072; 136192; 137216] ∧
    allocated_ (span s2) = 6.
Proof.
  assert (∃ s1 ps s2,
    BuildFreelist example_config 1024 8 (mk_ss (Span_Init 16 1 example_span) ∅) = Done (tt, s1) ∧
    FreelistPopBatch example_config 6 1024 s1 = Done (ps, s2) ∧
    ps = [134144; 133120; 132096; 131072; 136192; 137216]) as (s1 & ps & s2 & E1 & E2 & E3).
  { eexists _, _, _. split; [vm_compute; reflexivity|]. split; [vm_compute; reflexivity|done]. }
  assert (history example_config 1024 8 16 1 (ps ++ []) s2) as Hh.
  { apply (history_pop _ _ _ _ _ _ s1 6); [|done|done]. exact (history_build _ _ _ _ _ example_span ∅ s1 eq_refl E1). }
  exists s1, ps, s2. split_and!; [done|done|done|].
  destruct (span_hands_out_objects example_config 1024 8 16 1 example_geometry _ _ Hh)
    as (_ & _ & _ & _ & Ha & _).
  by rewrite Ha, E3.
Defined.

(** ** Every size class *)

(** For every size class of every table and every place in the address
    space, the index arithmetic of spans has no overflow, and BuildFreelist
    succeeds from any contents of the span and its pages.  The list then holds
    all the objects: the first batch of that many objects is a permutation of
    the objects of the span, after which the list is empty. *)
Theorem span_build_complete cfg infos sc first sp c :
  infos ∈ tables cfg → sc ∈ drop 1 infos → 0 < first →
  (first + sc_pages sc) * kPageSize cfg ≤ 2 ^ 64 → length (union_cells (union_ sp)) = 4%nat →
  let count := span_objects cfg sc in
  geometry cfg (sc_size sc) count first (sc_pages sc) ∧
  ∃ s ps s', BuildFreelist cfg (sc_size sc) count (mk_ss (Span_Init first (sc_pages sc) sp) c) = Done (tt, s) ∧
    allocated_ (span s) = 0 ∧
    FreelistPopBatch cfg count (sc_size sc) s = Done (ps, s') ∧
    ps ≡ₚ (λ k, first * kPageSize cfg + k * sc_size sc) <$> seqZ 0 count ∧
    FreelistEmpty s' = Done (true, s').
Proof.
  intros Hin Hsc Hf He Hu count.
  pose proof (tables_span_fit cfg infos Hin) as Hfit. rewrite forallb_forall in Hfit.
  specialize (Hfit sc ltac:(by apply list_elem_of_In)).
  assert (geometry cfg (sc_size sc) count first (sc_pages sc)) as Hg by (apply fits_geometry; [done|done|lia]).
  split; [done|].
  pose proof (build_spec _ _ _ _ _ Hg (mk_ss (Span_Init first (sc_pages sc) sp) c) eq_refl eq_refl Hu) as Hb.
  apply wp_total_done in Hb as ([] & s & E & F & HF & Hfl & Ha). pose proof (g_count _ _ _ _ _ Hg) as Hc.
  pose proof (pop_spec _ _ _ _ _ Hg count F s Hfl ltac:(lia)) as Hp.
  apply wp_total_done in Hp as (ps & s' & E' & -> & Hfl').
  assert (length F = Z.to_nat count) as HL by (destruct Hfl as (_ & _ & ?); lia).
  rewrite drop_ge in Hfl' by lia. rewrite take_ge in E' by lia.
  eexists s, _, s'. split; [done|]. split; [done|]. split; [done|]. split.
  - rewrite HF. unfold objects. rewrite <-list_fmap_compose, Z.sub_0_r.
    pose proof (step_size _ _ _ _ _ Hg) as [Es _].
    erewrite list_fmap_ext; [done|]. intros i k _. unfold addr, base. simpl. nia.
  - destruct Hfl' as [Hh _]. by rewrite (empty_spec _ _ _ _ _ Hg []).
Qed.

Lemma span_build_complete_witness :
  ∃ s ps s', BuildFreelist example_config 1024 8 (mk_ss (Span_Init 16 1 example_span) ∅) = Done (tt, s) ∧
    FreelistPopBatch example_config 8 1024 s = Done (ps, s') ∧
    ps ≡ₚ [131072; 132096; 133120; 134144; 135168; 136192; 137216; 138240].
Proof.
  destruct (span_build_complete example_config (kSizeClasses example_config) (info 1024 1 32) 16
    example_span ∅) as (_ & s & ps & s' & E & _ & E' & Hp & _).
  - left.
  - apply list_elem_of_In. vm_compute. tauto.
  - done.
  - by apply Z.leb_le.
  - done.
  - exists s, ps, s'. split; [exact E|]. split; [exact E'|]. exact Hp.
Defined.
