(* ===== verification/TcPageMap.v ===== *)
(** * tcmalloc: the map from pages to spans

    The two- and three-level radix trees of pagemap.h, the interface they share,
    and the class [PageMap] that is built on either of them.  The state of a tree
    contains the state of the metadata allocator that the tree takes its nodes
    from; the allocator itself is a parameter, as it is in the code.  A null
    pointer that is used, an index outside of an array and a failed assertion are
    [Fault]. *)

From S2P Require Import Prelude.
From S2P Require Import TcCommon.
From S2P Require Import TcSpan.

(** ** Leaves *)

(** The arrays of a leaf; entries that are absent are zero. *)
Record Leaf := mk_leaf {
  lf_sizeclass : gmap Z Z;
  lf_span : gmap Z Z;
  lf_hugepage : gmap Z Z;
}.

(** A leaf after its [memset]. *)
Definition zero_leaf : Leaf := mk_leaf ∅ ∅ ∅.

Definition sizeof_Leaf (length hugepages : Z) : Z := length + 8 * length + 8 * hugepages.

Section Arrays.
Context {S : Type}.

(** Access to an array of [len] entries. *)
Definition in_array (len i : Z) : bool := (0 <=? i) && (i <? len).
Definition entry (len : Z) (a : gmap Z Z) (i : Z) : ST S Z :=
  require (in_array len i);; mret (default 0 (a !! i)).
Definition set_entry (len : Z) (a : gmap Z Z) (i v : Z) : ST S (gmap Z Z) :=
  require (in_array len i);; mret (<[i := v]> a).
End Arrays.

(** The state of the metadata allocator, and a call of it: the first component
    of the result says whether the pointer is not null. *)
Definition PagemapAllocator (A : Type) : Type := Z → A → bool * A.

(** ** The two-level tree *)

Section PageMap2.
Context (cfg : config) (BITS : Z) {A : Type} (Allocator : PagemapAllocator A).

Definition kLeafBits2 : Z := 15.
Definition kLeafLength2 : Z := 1 ≪ kLeafBits2.
Definition kRootBits2 : Z := if kLeafBits2 <=? BITS then BITS - kLeafBits2 else 0.
Definition kRootLength2 : Z := 1 ≪ kRootBits2.
Definition kLeafCoveredBytes2 : Z := 1 ≪ (kLeafBits2 + kPageShift cfg).
Definition kLeafHugeBits2 : Z := kLeafBits2 + kPageShift cfg - kHugePageShift.
Definition kLeafHugepages2 : Z := kLeafCoveredBytes2 / kHugePageSize.

(** The [static_assert]s. *)
Definition asserts2 : bool :=
  (kRootBits2 <? 31) && (kHugePageSize <=? kLeafCoveredBytes2) &&
  (kLeafHugepages2 =? 1 ≪ kLeafHugeBits2).

Record PageMap2 := mk_map2 {
  root2_ : gmap Z Leaf;
  bytes_used2_ : Z;
  metadata2 : A;
}.

Definition new_PageMap2 (a : A) : PageMap2 := mk_map2 ∅ 0 a.

(** [root_[i1]], the node it points to, and storing in the node. *)
Definition root2 (i1 : Z) : ST PageMap2 (option Leaf) :=
  require (in_array kRootLength2 i1);; gets (λ m, root2_ m !! i1).
Definition leaf2 (i1 : Z) : ST PageMap2 Leaf := l ← root2 i1; from_opt l.
Definition put_leaf2 (i1 : Z) (l : Leaf) : ST PageMap2 unit :=
  modify (λ m, mk_map2 (<[i1 := l]> (root2_ m)) (bytes_used2_ m) (metadata2 m)).

Definition get2 (k : Z) : ST PageMap2 Z :=
  let i1 := k ≫ kLeafBits2 in
  let i2 := Z.land k (kLeafLength2 - 1) in
  if 0 <? k ≫ BITS then mret 0
  else
    l ← root2 i1;
    match l with
    | None => mret 0
    | Some l => entry kLeafLength2 (lf_span l) i2
    end.

Definition get_existing2 (k : Z) : ST PageMap2 Z :=
  let i1 := k ≫ kLeafBits2 in
  let i2 := Z.land k (kLeafLength2 - 1) in
  require (k ≫ BITS =? 0);;
  l ← leaf2 i1;
  entry kLeafLength2 (lf_span l) i2.

Definition sizeclass2 (k : Z) : ST PageMap2 Z :=
  let i1 := k ≫ kLeafBits2 in
  let i2 := Z.land k (kLeafLength2 - 1) in
  require (k ≫ BITS =? 0);;
  l ← leaf2 i1;
  entry kLeafLength2 (lf_sizeclass l) i2.

Definition set2 (k v : Z) : ST PageMap2 unit :=
  require (k ≫ BITS =? 0);;
  let i1 := k ≫ kLeafBits2 in
  let i2 := Z.land k (kLeafLength2 - 1) in
  l ← leaf2 i1;
  a ← set_entry kLeafLength2 (lf_span l) i2 v;
  put_leaf2 i1 (mk_leaf (lf_sizeclass l) a (lf_hugepage l)).

Definition set_with_sizeclass2 (k v sc : Z) : ST PageMap2 unit :=
  require (k ≫ BITS =? 0);;
  let i1 := k ≫ kLeafBits2 in
  let i2 := Z.land k (kLeafLength2 - 1) in
  l ← leaf2 i1;
  a ← set_entry kLeafLength2 (lf_span l) i2 v;
  c ← set_entry kLeafLength2 (lf_sizeclass l) i2 sc;
  put_leaf2 i1 (mk_leaf c a (lf_hugepage l)).

Definition clear_sizeclass2 (k : Z) : ST PageMap2 unit :=
  require (k ≫ BITS =? 0);;
  let i1 := k ≫ kLeafBits2 in
  let i2 := Z.land k (kLeafLength2 - 1) in
  l ← leaf2 i1;
  c ← set_entry kLeafLength2 (lf_sizeclass l) i2 0;
  put_leaf2 i1 (mk_leaf c (lf_span l) (lf_hugepage l)).

Definition get_hugepage2 (k : Z) : ST PageMap2 Z :=
  require (k ≫ BITS =? 0);;
  let i1 := k ≫ kLeafBits2 in
  let i2 := Z.land k (kLeafLength2 - 1) in
  if 0 <? k ≫ BITS then mret 0
  else
    l ← root2 i1;
    match l with
    | None => mret 0
    | Some l => entry kLeafHugepages2 (lf_hugepage l) (i2 ≫ (kLeafBits2 - kLeafHugeBits2))
    end.

Definition set_hugepage2 (k v : Z) : ST PageMap2 unit :=
  require (k ≫ BITS =? 0);;
  let i1 := k ≫ kLeafBits2 in
  let i2 := Z.land k (kLeafLength2 - 1) in
  l ← leaf2 i1;
  h ← set_entry kLeafHugepages2 (lf_hugepage l) (i2 ≫ (kLeafBits2 - kLeafHugeBits2)) v;
  put_leaf2 i1 (mk_leaf (lf_sizeclass l) (lf_span l) h).

(** The second-level node for [root_[i1]], if the allocator has one. *)
Definition add_leaf2 (i1 : Z) : ST PageMap2 bool :=
  λ m,
    let bytes := sizeof_Leaf kLeafLength2 kLeafHugepages2 in
    let '(ok, a) := Allocator bytes (metadata2 m) in
    if ok then
      Done (true, mk_map2 (<[i1 := zero_leaf]> (root2_ m)) (u64 (bytes_used2_ m + bytes)) a)
    else Done (false, mk_map2 (root2_ m) (bytes_used2_ m) a).

Fixpoint Ensure2_loop (fuel : nat) (key last : Z) : ST PageMap2 bool :=
  match fuel with
  | O => out_of_fuel
  | S fuel =>
      if key <=? last then
        let i1 := key ≫ kLeafBits2 in
        if kRootLength2 <=? i1 then mret false
        else
          l ← root2 i1;
          ok ← (match l with None => add_leaf2 i1 | Some _ => mret true end);
          if ok : bool then Ensure2_loop fuel (u64 (((key ≫ kLeafBits2) + 1) ≪ kLeafBits2)) last
          else mret false
      else mret true
  end.

Definition Ensure2 (start n : Z) : ST PageMap2 bool :=
  require (0 <? n);;
  Ensure2_loop (3 + Z.to_nat (n ≫ kLeafBits2)) start (u64 (start + n - 1)).

Definition RootSize2 : Z := 8 * kRootLength2.
Definition bytes_used2 : ST PageMap2 Z := gets (λ m, u64 (bytes_used2_ m + (RootSize2 + 8))).
End PageMap2.

(** ** The three-level tree *)

Section PageMap3.
Context (cfg : config) (BITS : Z) {A : Type} (Allocator : PagemapAllocator A).

Definition kLeafBits3 : Z := (BITS + 2) / 3.
Definition kLeafLength3 : Z := 1 ≪ kLeafBits3.
Definition kMidBits3 : Z := (BITS + 2) / 3.
Definition kMidLength3 : Z := 1 ≪ kMidBits3.
Definition kRootBits3 : Z := BITS - kLeafBits3 - kMidBits3.
Definition kRootLength3 : Z := 1 ≪ kRootBits3.
Definition kLeafCoveredBytes3 : Z := 1 ≪ (kLeafBits3 + kPageShift cfg).
Definition kLeafHugeBits3 : Z := kLeafBits3 + kPageShift cfg - kHugePageShift.
Definition kLeafHugepages3 : Z := kLeafCoveredBytes3 / kHugePageSize.

(** The [static_assert]s. *)
Definition asserts3 : bool :=
  (0 <? kRootBits3) && (kRootBits3 <? 31) && (kHugePageSize <=? kLeafCoveredBytes3) &&
  (kLeafHugepages3 =? 1 ≪ kLeafHugeBits3).

(** A node is its array of leaves. *)
Record PageMap3 := mk_map3 {
  root3_ : gmap Z (gmap Z Leaf);
  bytes_used3_ : Z;
  metadata3 : A;
}.

Definition new_PageMap3 (a : A) : PageMap3 := mk_map3 ∅ 0 a.

(** [root_[i1]], [root_[i1]->leafs[i2]], the leaf it points to, and storing in
    the leaf. *)
Definition root3 (i1 : Z) : ST PageMap3 (option (gmap Z Leaf)) :=
  require (in_array kRootLength3 i1);; gets (λ m, root3_ m !! i1).
Definition leafs3 (i1 i2 : Z) : ST PageMap3 (option Leaf) :=
  n ← root3 i1;
  n ← from_opt n;
  require (in_array kMidLength3 i2);; mret (n !! i2).
Definition leaf3 (i1 i2 : Z) : ST PageMap3 Leaf := l ← leafs3 i1 i2; from_opt l.
Definition put_leaf3 (i1 i2 : Z) (l : Leaf) : ST PageMap3 unit :=
  modify (λ m, mk_map3 (alter (λ n : gmap Z Leaf, <[i2 := l]> n) i1 (root3_ m))
    (bytes_used3_ m) (metadata3 m)).

Definition get3 (k : Z) : ST PageMap3 Z :=
  let i1 := k ≫ (kLeafBits3 + kMidBits3) in
  let i2 := Z.land (k ≫ kLeafBits3) (kMidLength3 - 1) in
  let i3 := Z.land k (kLeafLength3 - 1) in
  if 0 <? k ≫ BITS then mret 0
  else
    n ← root3 i1;
    match n with
    | None => mret 0
    | Some _ =>
        l ← leafs3 i1 i2;
        match l with
        | None => mret 0
        | Some l => entry kLeafLength3 (lf_span l) i3
        end
    end.

Definition get_existing3 (k : Z) : ST PageMap3 Z :=
  let i1 := k ≫ (kLeafBits3 + kMidBits3) in
  let i2 := Z.land (k ≫ kLeafBits3) (kMidLength3 - 1) in
  let i3 := Z.land k (kLeafLength3 - 1) in
  require (k ≫ BITS =? 0);;
  l ← leaf3 i1 i2;
  entry kLeafLength3 (lf_span l) i3.

Definition sizeclass3 (k : Z) : ST PageMap3 Z :=
  let i1 := k ≫ (kLeafBits3 + kMidBits3) in
  let i2 := Z.land (k ≫ kLeafBits3) (kMidLength3 - 1) in
  let i3 := Z.land k (kLeafLength3 - 1) in
  require (k ≫ BITS =? 0);;
  l ← leaf3 i1 i2;
  entry kLeafLength3 (lf_sizeclass l) i3.

Definition set3 (k v : Z) : ST PageMap3 unit :=
  require (k ≫ BITS =? 0);;
  let i1 := k ≫ (kLeafBits3 + kMidBits3) in
  let i2 := Z.land (k ≫ kLeafBits3) (kMidLength3 - 1) in
  let i3 := Z.land k (kLeafLength3 - 1) in
  l ← leaf3 i1 i2;
  a ← set_entry kLeafLength3 (lf_span l) i3 v;
  put_leaf3 i1 i2 (mk_leaf (lf_sizeclass l) a (lf_hugepage l)).

Definition set_with_sizeclass3 (k v sc : Z) : ST PageMap3 unit :=
  require (k ≫ BITS =? 0);;
  let i1 := k ≫ (kLeafBits3 + kMidBits3) in
  let i2 := Z.land (k ≫ kLeafBits3) (kMidLength3 - 1) in
  let i3 := Z.land k (kLeafLength3 - 1) in
  l ← leaf3 i1 i2;
  a ← set_entry kLeafLength3 (lf_span l) i3 v;
  c ← set_entry kLeafLength3 (lf_sizeclass l) i3 sc;
  put_leaf3 i1 i2 (mk_leaf c a (lf_hugepage l)).

Definition clear_sizeclass3 (k : Z) : ST PageMap3 unit :=
  require (k ≫ BITS =? 0);;
  let i1 := k ≫ (kLeafBits3 + kMidBits3) in
  let i2 := Z.land (k ≫ kLeafBits3) (kMidLength3 - 1) in
  let i3 := Z.land k (kLeafLength3 - 1) in
  l ← leaf3 i1 i2;
  c ← set_entry kLeafLength3 (lf_sizeclass l) i3 0;
  put_leaf3 i1 i2 (mk_leaf c (lf_span l) (lf_hugepage l)).

Definition get_hugepage3 (k : Z) : ST PageMap3 Z :=
  require (k ≫ BITS =? 0);;
  let i1 := k ≫ (kLeafBits3 + kMidBits3) in
  let i2 := Z.land (k ≫ kLeafBits3) (kMidLength3 - 1) in
  let i3 := Z.land k (kLeafLength3 - 1) in
  if 0 <? k ≫ BITS then mret 0
  else
    n ← root3 i1;
    match n with
    | None => mret 0
    | Some _ =>
        l ← leafs3 i1 i2;
        match l with
        | None => mret 0
        | Some l => entry kLeafHugepages3 (lf_hugepage l) (i3 ≫ (kLeafBits3 - kLeafHugeBits3))
        end
    end.

Definition set_hugepage3 (k v : Z) : ST PageMap3 unit :=
  require (k ≫ BITS =? 0);;
  let i1 := k ≫ (kLeafBits3 + kMidBits3) in
  let i2 := Z.land (k ≫ kLeafBits3) (kMidLength3 - 1) in
  let i3 := Z.land k (kLeafLength3 - 1) in
  l ← leaf3 i1 i2;
  h ← set_entry kLeafHugepages3 (lf_hugepage l) (i3 ≫ (kLeafBits3 - kLeafHugeBits3)) v;
  put_leaf3 i1 i2 (mk_leaf (lf_sizeclass l) (lf_span l) h).

(** The node for [root_[i1]], and the leaf for [root_[i1]->leafs[i2]], if the
    allocator has them. *)
Definition add_node3 (i1 : Z) : ST PageMap3 bool :=
  λ m,
    let bytes := 8 * kMidLength3 in
    let '(ok, a) := Allocator bytes (metadata3 m) in
    if ok then Done (true, mk_map3 (<[i1 := ∅]> (root3_ m)) (u64 (bytes_used3_ m + bytes)) a)
    else Done (false, mk_map3 (root3_ m) (bytes_used3_ m) a).

Definition add_leaf3 (i1 i2 : Z) : ST PageMap3 bool :=
  λ m,
    let bytes := sizeof_Leaf kLeafLength3 kLeafHugepages3 in
    let '(ok, a) := Allocator bytes (metadata3 m) in
    if ok then
      Done (true, mk_map3 (alter (λ n : gmap Z Leaf, <[i2 := zero_leaf]> n) i1 (root3_ m))
        (u64 (bytes_used3_ m + bytes)) a)
    else Done (false, mk_map3 (root3_ m) (bytes_used3_ m) a).

Fixpoint Ensure3_loop (fuel : nat) (key last : Z) : ST PageMap3 bool :=
  match fuel with
  | O => out_of_fuel
  | S fuel =>
      if key <=? last then
        let i1 := key ≫ (kLeafBits3 + kMidBits3) in
        let i2 := Z.land (key ≫ kLeafBits3) (kMidLength3 - 1) in
        if kRootLength3 <=? i1 then mret false
        else
          n ← root3 i1;
          ok ← (match n with None => add_node3 i1 | Some _ => mret true end);
          if ok : bool then
            l ← leafs3 i1 i2;
            ok ← (match l with None => add_leaf3 i1 i2 | Some _ => mret true end);
            if ok : bool then Ensure3_loop fuel (u64 (((key ≫ kLeafBits3) + 1) ≪ kLeafBits3)) last
            else mret false
          else mret false
      else mret true
  end.

Definition Ensure3 (start n : Z) : ST PageMap3 bool :=
  Ensure3_loop (3 + Z.to_nat (n ≫ kLeafBits3)) start (u64 (start + n - 1)).

Definition RootSize3 : Z := 8 * kRootLength3.
Definition bytes_used3 : ST PageMap3 Z := gets (λ m, u64 (bytes_used3_ m + (RootSize3 + 8))).
End PageMap3.

(** ** The interface of the trees *)

Class PageMapImpl (M : Type) := {
  map_get : Z → ST M Z;
  map_get_existing : Z → ST M Z;
  map_sizeclass : Z → ST M Z;
  map_set : Z → Z → ST M unit;
  map_set_with_sizeclass : Z → Z → Z → ST M unit;
  map_clear_sizeclass : Z → ST M unit;
  map_get_hugepage : Z → ST M Z;
  map_set_hugepage : Z → Z → ST M unit;
  map_Ensure : Z → Z → ST M bool;
  map_bytes_used : ST M Z;
  map_RootSize : Z;
}.

(** ** PageMap *)

Section PageMap.
Context {M : Type} `{!PageMapImpl M}.

Definition PageMap_sizeclass (p : Z) : ST M Z := map_sizeclass p.
Definition PageMap_Set (p span : Z) : ST M unit := map_set p span.
Definition PageMap_Ensure (p n : Z) : ST M bool := map_Ensure p n.
Definition GetDescriptor (p : Z) : ST M Z := map_get p.
Definition GetExistingDescriptor (p : Z) : ST M Z :=
  span ← map_get_existing p;
  require (negb (span =? 0));;
  mret span.
Definition PageMap_bytes : ST M Z := map_bytes_used.
Definition GetHugepage (p : Z) : ST M Z := map_get_hugepage p.
Definition SetHugepage (p v : Z) : ST M unit := map_set_hugepage p v.

(** [for (PageID p = first; p <= last; ++p)]. *)
Fixpoint for_pages (fuel : nat) (p last : Z) (body : Z → ST M unit) : ST M unit :=
  match fuel with
  | O => out_of_fuel
  | S fuel => if p <=? last then body p;; for_pages fuel (u64 (p + 1)) last body else mret tt
  end.

(** The span is given by its address and its contents. *)
Definition RegisterSizeClass (span : Z) (sp : Span) (sc : Z) : ST M unit :=
  require (bool_decide (location sp = IN_USE));;
  let first := first_page sp in
  let last := last_page sp in
  d ← GetDescriptor first;
  require (d =? span);;
  for_pages (S (Z.to_nat (num_pages sp))) first last (λ p, map_set_with_sizeclass p span (wrap 8 sc)).

Definition UnregisterSizeClass (span : Z) (sp : Span) : ST M unit :=
  require (bool_decide (location sp = IN_USE));;
  let first := first_page sp in
  let last := last_page sp in
  d ← GetDescriptor first;
  require (d =? span);;
  for_pages (S (Z.to_nat (num_pages sp))) first last (λ p, map_clear_sizeclass p).

(** [MapRootWithSmallPages]: the range for [madvise], given the address of the
    root, if there is a range. *)
Definition MapRootWithSmallPages (begin_ : Z) : option (Z * Z) :=
  let kHugePageMask := wnot 64 (kHugePageSize - 1) in
  let rbegin := Z.land (u64 (begin_ + kHugePageSize)) kHugePageMask in
  let length := map_RootSize in
  let rend := Z.land (u64 (begin_ + length)) kHugePageMask in
  if rbegin <? rend then Some (rbegin, rend - rbegin) else None.
End PageMap.
