(* ===== verification/TcPageMapCorrect.v ===== *)
(** * tcmalloc: the trees implement page maps

    What a tree promises to [PageMap] is the class [PageMapLaws]; both trees are
    instances of it. *)

From S2P Require Import Prelude.
From S2P Require Import TcCommon.
From S2P Require Import TcSpan.
From S2P Require Import TcPageMap.

(** ** What a tree promises *)

Section Laws.
Context {M : Type} (covered : M → Z → Prop) (span_at class_at huge_at : M → Z → Z).

(** From [m] to [m'] the entries become [fs], [fc] and [fh]. *)
Definition becomes (m m' : M) (fs fc fh : Z → Z) : Prop :=
  (∀ j, covered m' j ↔ covered m j) ∧
  (∀ j, span_at m' j = fs j) ∧ (∀ j, class_at m' j = fc j) ∧ (∀ j, huge_at m' j = fh j).
End Laws.

(** [set_at f k v] is [f] except that it is [v] at [k]; [set_block] is [v] on the
    whole aligned block of [2^hb] pages of [k]. *)
Definition set_at (f : Z → Z) (k v : Z) : Z → Z := λ j, if j =? k then v else f j.
Definition set_block (hb : Z) (f : Z → Z) (k v : Z) : Z → Z :=
  λ j, if j / 2 ^ hb =? k / 2 ^ hb then v else f j.

(** Pages are numbers below [2^bits]; [2^hb] pages make a huge page; [reliable]
    says that the metadata allocator does not fail. *)
Class PageMapLaws (M : Type) `{!PageMapImpl M} (bits hb : Z) (reliable : Prop) := {
  covered : M → Z → Prop;
  span_at : M → Z → Z;
  class_at : M → Z → Z;
  huge_at : M → Z → Z;
  empty_map : M → Prop;
  covered_page m k : covered m k → 0 ≤ k < 2 ^ bits;
  uncovered_zero m k : ¬ covered m k → span_at m k = 0 ∧ class_at m k = 0 ∧ huge_at m k = 0;
  empty_zero m k : empty_map m → ¬ covered m k;
  get_law m k : is_word 64 k → map_get k m = Done (span_at m k, m);
  get_existing_law m k : covered m k → map_get_existing k m = Done (span_at m k, m);
  sizeclass_law m k : covered m k → map_sizeclass k m = Done (class_at m k, m);
  get_hugepage_law m k : 0 ≤ k < 2 ^ bits → map_get_hugepage k m = Done (huge_at m k, m);
  uncovered_law m k : is_word 64 k → ¬ covered m k →
    map_get_existing k m = Fault ∧ map_sizeclass k m = Fault;
  set_law m k v : covered m k → wp true (map_set k v) (λ _ m',
    becomes covered span_at class_at huge_at m m'
      (set_at (span_at m) k v) (class_at m) (huge_at m)) m;
  set_with_sizeclass_law m k v sc : covered m k → wp true (map_set_with_sizeclass k v sc) (λ _ m',
    becomes covered span_at class_at huge_at m m'
      (set_at (span_at m) k v) (set_at (class_at m) k sc) (huge_at m)) m;
  clear_sizeclass_law m k : covered m k → wp true (map_clear_sizeclass k) (λ _ m',
    becomes covered span_at class_at huge_at m m'
      (span_at m) (set_at (class_at m) k 0) (huge_at m)) m;
  set_hugepage_law m k v : covered m k → wp true (map_set_hugepage k v) (λ _ m',
    becomes covered span_at class_at huge_at m m'
      (span_at m) (class_at m) (set_block hb (huge_at m) k v)) m;
  ensure_law m start n : 0 ≤ start → 0 < n → start + n ≤ 2 ^ 64 →
    wp true (map_Ensure start n) (λ b m',
      (∀ j, covered m j → covered m' j) ∧
      (∀ j, span_at m' j = span_at m j) ∧ (∀ j, class_at m' j = class_at m j) ∧
      (∀ j, huge_at m' j = huge_at m j) ∧
      (b = true → ∀ j, start ≤ j < start + n → covered m' j) ∧
      (b = false → 2 ^ bits < start + n ∨ ¬ reliable)) m;
}.

(** ** Maps from blocks of pages to leaves *)

Section Leaves.
Context (L : Z) (HL : 0 ≤ L) (hb : Z) (Hb : 0 ≤ hb ≤ L).

Lemma same_page j k : j / 2 ^ L = k / 2 ^ L → j mod 2 ^ L = k mod 2 ^ L → j = k.
Proof.
  clear Hb. intros H1 H2. rewrite (Z.div_mod j (2 ^ L)), (Z.div_mod k (2 ^ L)) by lia. congruence.
Qed.

Lemma huge_index k : 0 ≤ (k mod 2 ^ L) / 2 ^ hb < 2 ^ (L - hb) ∧
  k / 2 ^ hb = (k / 2 ^ L) * 2 ^ (L - hb) + (k mod 2 ^ L) / 2 ^ hb.
Proof.
  assert (2 ^ L = 2 ^ hb * 2 ^ (L - hb)) as E by (rewrite <-Z.pow_add_r by lia; f_equal; lia).
  assert (0 < 2 ^ hb ∧ 0 < 2 ^ (L - hb)) as [? ?] by lia.
  pose proof (Z.mod_pos_bound k (2 ^ L) ltac:(lia)) as Hm. split.
  - split; [apply Z.div_pos; lia|]. apply Z.div_lt_upper_bound; lia.
  - rewrite (Z.div_mod k (2 ^ L)) at 1 by lia. rewrite E at 1.
    rewrite (Z.mul_comm (2 ^ hb)), <-Z.mul_assoc, (Z.mul_comm (2 ^ (L - hb))).
    replace (2 ^ hb * (k / 2 ^ L) * 2 ^ (L - hb)) with ((k / 2 ^ L) * 2 ^ (L - hb) * 2 ^ hb) by lia.
    rewrite Z.div_add_l by lia. done.
Qed.

Lemma same_hugepage j k :
  j / 2 ^ hb = k / 2 ^ hb ↔
  j / 2 ^ L = k / 2 ^ L ∧ (j mod 2 ^ L) / 2 ^ hb = (k mod 2 ^ L) / 2 ^ hb.
Proof.
  pose proof (huge_index j) as [Hj Ej]. pose proof (huge_index k) as [Hk Ek].
  split; [|intros [H1 H2]; congruence]. intros E. rewrite Ej, Ek in E.
  set (w := 2 ^ (L - hb)) in *.
  destruct (Z.lt_trichotomy (j / 2 ^ L) (k / 2 ^ L)) as [?|[E1|?]]; [nia|split; [done|nia]|nia].
Qed.

Definition blocks : Type := Z → option Leaf.
Implicit Types lo : blocks.

Definition leaf_entry lo (f : Leaf → gmap Z Z) (i : Z → Z) (k : Z) : Z :=
  match lo (k / 2 ^ L) with Some l => default 0 (f l !! i (k mod 2 ^ L)) | None => 0 end.
Definition block_span lo : Z → Z := leaf_entry lo lf_span id.
Definition block_class lo : Z → Z := leaf_entry lo lf_sizeclass id.
Definition block_huge lo : Z → Z := leaf_entry lo lf_hugepage (λ i, i / 2 ^ hb).

(** Storing leaf [l] as the leaf of the page [k]. *)
Definition stores lo lo' (k : Z) (l : Leaf) : Prop :=
  ∀ b, lo' b = if decide (b = k / 2 ^ L) then Some l else lo b.

Lemma stored_entry lo lo' k l l' f i v :
  lo (k / 2 ^ L) = Some l → stores lo lo' k l' → f l' = <[i (k mod 2 ^ L) := v]> (f l) →
  ∀ j, leaf_entry lo' f i j =
    if decide (j / 2 ^ L = k / 2 ^ L ∧ i (j mod 2 ^ L) = i (k mod 2 ^ L)) then v
    else leaf_entry lo f i j.
Proof.
  clear HL Hb. intros Hl Hst Hf j. unfold leaf_entry. rewrite Hst.
  destruct (decide (j / 2 ^ L = k / 2 ^ L)) as [E|E].
  - rewrite E, Hl, Hf. destruct (decide (i (j mod 2 ^ L) = i (k mod 2 ^ L))) as [Ei|Ei].
    + rewrite decide_True by done. by rewrite Ei, lookup_insert_eq.
    + rewrite decide_False by naive_solver. by rewrite lookup_insert_ne.
  - by rewrite decide_False by naive_solver.
Qed.

Lemma kept_entry lo lo' k l l' f i :
  lo (k / 2 ^ L) = Some l → stores lo lo' k l' → f l' = f l →
  ∀ j, leaf_entry lo' f i j = leaf_entry lo f i j.
Proof.
  intros Hl Hst Hf j. unfold leaf_entry. rewrite Hst.
  destruct (decide (j / 2 ^ L = k / 2 ^ L)) as [E|E]; [|done]. by rewrite E, Hl, Hf.
Qed.

Lemma stored_page lo lo' k l l' f v :
  lo (k / 2 ^ L) = Some l → stores lo lo' k l' → f l' = <[k mod 2 ^ L := v]> (f l) →
  ∀ j, leaf_entry lo' f id j = set_at (leaf_entry lo f id) k v j.
Proof.
  clear Hb. intros Hl Hst Hf j. rewrite (stored_entry lo lo' k l l' f id v Hl Hst Hf).
  unfold set_at, id. destruct (Z.eqb_spec j k) as [->|Hne].
  - by rewrite decide_True by done.
  - rewrite decide_False; [done|]. intros [? ?]. by apply Hne, same_page.
Qed.

Lemma stored_huge lo lo' k l l' v :
  lo (k / 2 ^ L) = Some l → stores lo lo' k l' →
  lf_hugepage l' = <[(k mod 2 ^ L) / 2 ^ hb := v]> (lf_hugepage l) →
  ∀ j, block_huge lo' j = set_block hb (block_huge lo) k v j.
Proof.
  intros Hl Hst Hf j. unfold block_huge.
  rewrite (stored_entry lo lo' k l l' lf_hugepage (λ i, i / 2 ^ hb) v Hl Hst Hf).
  unfold set_block. pose proof (same_hugepage j k) as Hs.
  destruct (Z.eqb_spec (j / 2 ^ hb) (k / 2 ^ hb)) as [E|E].
  - by rewrite decide_True by (by apply Hs).
  - rewrite decide_False; [done|]. intros H. by apply E, Hs.
Qed.

(** A new leaf is zero, as the entries were before. *)
Lemma new_entry lo lo' k f i :
  lo (k / 2 ^ L) = None → stores lo lo' k zero_leaf → f zero_leaf = ∅ →
  ∀ j, leaf_entry lo' f i j = leaf_entry lo f i j.
Proof.
  intros Hl Hst Hf j. unfold leaf_entry. rewrite Hst.
  destruct (decide (j / 2 ^ L = k / 2 ^ L)) as [E|E]; [|done]. by rewrite E, Hl, Hf, lookup_empty.
Qed.
End Leaves.

(** Shifts and masks of page numbers. *)
Lemma page_shift_div k n : 0 ≤ n → k ≫ n = k / 2 ^ n.
Proof. intros. by apply Z.shiftr_div_pow2. Qed.

Lemma page_mask k n : 0 ≤ n → Z.land k ((1 ≪ n) - 1) = k mod 2 ^ n.
Proof. intros. by rewrite Z.shiftl_1_l, land_mask. Qed.

Lemma page_in_range k bits : 0 ≤ bits → 0 ≤ k → k / 2 ^ bits = 0 ↔ k < 2 ^ bits.
Proof. intros. rewrite Z.div_small_iff by lia. lia. Qed.

Lemma in_array_true len i : in_array len i = true ↔ 0 ≤ i < len.
Proof. unfold in_array. lia. Qed.

Lemma entry_spec {S} len a i (Q : Z → S → Prop) s :
  0 ≤ i < len → Q (default 0 (a !! i)) s → wp true (entry len a i) Q s.
Proof. intros Hi HQ. unfold entry. wp_step. wp_step; [by apply in_array_true|]. by wp_step. Qed.

Lemma set_entry_spec {S} len (a : gmap Z Z) i v (Q : gmap Z Z → S → Prop) s :
  0 ≤ i < len → Q (<[i := v]> a) s → wp true (set_entry len a i v) Q s.
Proof. intros Hi HQ. unfold set_entry. wp_step. wp_step; [by apply in_array_true|]. by wp_step. Qed.

(** A call that does not fault and keeps the state. *)
Lemma wp_value {S A} (m : ST S A) v s : wp true m (λ a s', a = v ∧ s' = s) s → m s = Done (v, s).
Proof. intros H. by apply wp_total_done in H as (a & s' & E & -> & ->). Qed.

Lemma huge_shift_bounds cfg : 0 ≤ kHugePageShift - kPageShift cfg ≤ 9.
Proof. on_config cfg; by vm_compute. Qed.

(** The number of blocks of [2^L] pages that a range of pages meets. *)
Lemma leaf_count start n L :
  0 ≤ L → 0 ≤ start → 0 < n →
  start / 2 ^ L ≤ (start + n - 1) / 2 ^ L ∧
  (start + n - 1) / 2 ^ L - start / 2 ^ L ≤ n / 2 ^ L + 1.
Proof.
  intros HL Hs Hn. assert (0 < 2 ^ L) by lia. split; [apply Z.div_le_mono; lia|].
  pose proof (Z.div_mod start (2 ^ L)). pose proof (Z.mod_pos_bound start (2 ^ L)).
  pose proof (Z.div_mod n (2 ^ L)). pose proof (Z.mod_pos_bound n (2 ^ L)).
  pose proof (Z.div_lt_upper_bound (start + n - 1) (2 ^ L) (start / 2 ^ L + n / 2 ^ L + 2)). nia.
Qed.

(** ** The two-level tree *)

Section Tree2.
Context (cfg : config) (BITS : Z) {A : Type} (Allocator : PagemapAllocator A).
Context (HB : 15 ≤ BITS ≤ 45).
Local Abbreviation hb := (kHugePageShift - kPageShift cfg).
Local Abbreviation PM := (PageMap2 (A := A)).

Definition blocks2 (m : PM) : blocks := λ b,
  if decide (0 ≤ b < 2 ^ (BITS - 15)) then root2_ m !! b else None.
Definition covered2 (m : PM) (k : Z) : Prop := is_Some (blocks2 m (k / 2 ^ 15)).

Lemma block_range k : 0 ≤ k / 2 ^ 15 < 2 ^ (BITS - 15) ↔ 0 ≤ k < 2 ^ BITS.
Proof.
  assert (2 ^ BITS = 2 ^ 15 * 2 ^ (BITS - 15)) as E by (rewrite <-Z.pow_add_r by lia; f_equal; lia).
  pose proof (Z.div_mod k (2 ^ 15) ltac:(lia)). pose proof (Z.mod_pos_bound k (2 ^ 15) ltac:(lia)).
  split; intros ?; nia.
Qed.

Lemma kRootLength2_eq : kRootLength2 BITS = 2 ^ (BITS - 15).
Proof.
  unfold kRootLength2, kRootBits2, kLeafBits2. replace (15 <=? BITS) with true by lia.
  by rewrite Z.shiftl_1_l.
Qed.

Lemma kLeafHugepages2_eq : kLeafHugepages2 cfg = 2 ^ (15 - hb).
Proof. on_config cfg; by vm_compute. Qed.

Lemma covered2_page m k : covered2 m k → 0 ≤ k < 2 ^ BITS.
Proof.
  unfold covered2, blocks2. intros H. apply block_range.
  destruct (decide (0 ≤ k / 2 ^ 15 < 2 ^ (BITS - 15))) as [|_]; [done|by destruct H].
Qed.

Lemma root2_spec k m (Q : option Leaf → PM → Prop) :
  0 ≤ k < 2 ^ BITS → Q (blocks2 m (k / 2 ^ 15)) m → wp true (root2 BITS (k ≫ kLeafBits2)) Q m.
Proof.
  intros Hk HQ. pose proof (proj2 (block_range k) Hk) as Hr. unfold root2, kLeafBits2.
  rewrite page_shift_div by lia. wp_step. wp_step; [apply in_array_true; by rewrite kRootLength2_eq|].
  wp_step. unfold blocks2 in HQ. by rewrite decide_True in HQ.
Qed.

Lemma leaf2_spec k l m (Q : Leaf → PM → Prop) :
  blocks2 m (k / 2 ^ 15) = Some l → Q l m → wp true (leaf2 BITS (k ≫ kLeafBits2)) Q m.
Proof.
  intros Hl HQ. unfold leaf2. wp_step. apply root2_spec; [eapply covered2_page; by exists l|].
  rewrite Hl. by eapply wp_from_opt.
Qed.

Lemma put_leaf2_stores m k l :
  0 ≤ k < 2 ^ BITS →
  stores 15 (blocks2 m) (blocks2 (mk_map2 (<[k ≫ kLeafBits2 := l]> (root2_ m)) (bytes_used2_ m) (metadata2 m))) k l.
Proof.
  intros Hk b. unfold blocks2, kLeafBits2. simpl. rewrite page_shift_div by lia.
  apply block_range in Hk. destruct (decide (b = k / 2 ^ 15)) as [->|Hne].
  - by rewrite decide_True, lookup_insert_eq by done.
  - by rewrite lookup_insert_ne by done.
Qed.

Definition span_at2 (m : PM) : Z → Z := block_span 15 (blocks2 m).
Definition class_at2 (m : PM) : Z → Z := block_class 15 (blocks2 m).
Definition huge_at2 (m : PM) : Z → Z := block_huge 15 hb (blocks2 m).

Lemma low_bits k : Z.land k (kLeafLength2 - 1) = k mod 2 ^ 15 ∧ 0 ≤ k mod 2 ^ 15 < kLeafLength2.
Proof.
  unfold kLeafLength2, kLeafBits2. rewrite page_mask by lia. split; [done|].
  by apply Z.mod_pos_bound.
Qed.

Lemma huge_bits k :
  Z.land k (kLeafLength2 - 1) ≫ (kLeafBits2 - kLeafHugeBits2 cfg) = (k mod 2 ^ 15) / 2 ^ hb ∧
  0 ≤ (k mod 2 ^ 15) / 2 ^ hb < kLeafHugepages2 cfg.
Proof.
  pose proof (huge_shift_bounds cfg) as Hh. destruct (low_bits k) as [-> _].
  unfold kLeafBits2, kLeafHugeBits2, kLeafBits2. rewrite kLeafHugepages2_eq.
  replace (15 - (15 + kPageShift cfg - kHugePageShift)) with hb by lia.
  rewrite page_shift_div by lia. split; [done|]. apply huge_index; lia.
Qed.

Lemma in_bits k : 0 ≤ k < 2 ^ BITS → k ≫ BITS = 0.
Proof. intros Hk. rewrite page_shift_div by lia. apply page_in_range; lia. Qed.

Lemma not_in_bits k : 2 ^ BITS ≤ k → 0 < k ≫ BITS.
Proof.
  intros Hk. rewrite page_shift_div by lia. pose proof (Z.div_pos k (2 ^ BITS)).
  pose proof (page_in_range k BITS). lia.
Qed.

Lemma get2_law m k : is_word 64 k → get2 BITS k m = Done (span_at2 m k, m).
Proof.
  intros Hk. unfold is_word in Hk. apply wp_value. unfold get2.
  destruct (Z.lt_ge_cases k (2 ^ BITS)) as [Hlt|Hge].
  - rewrite in_bits by lia. simpl. wp_step. apply root2_spec; [lia|].
    unfold span_at2, block_span, leaf_entry. destruct (blocks2 m (k / 2 ^ 15)) as [l|]; [|by wp_step].
    destruct (low_bits k) as [-> Hl]. by apply entry_spec.
  - pose proof (not_in_bits k Hge). replace (0 <? k ≫ BITS) with true by lia. wp_step. split; [|done].
    unfold span_at2, block_span, leaf_entry, blocks2. rewrite decide_False; [done|].
    rewrite block_range. lia.
Qed.

Lemma get_existing2_law m k : covered2 m k → get_existing2 BITS k m = Done (span_at2 m k, m).
Proof.
  intros Hc. pose proof (covered2_page m k Hc) as Hk. destruct Hc as [l Hl]. apply wp_value.
  unfold get_existing2. rewrite in_bits by lia. wp_step. wp_step; [done|]. wp_step.
  eapply leaf2_spec; [done|]. destruct (low_bits k) as [-> Hb]. apply entry_spec; [done|].
  unfold span_at2, block_span, leaf_entry. by rewrite Hl.
Qed.

Lemma sizeclass2_law m k : covered2 m k → sizeclass2 BITS k m = Done (class_at2 m k, m).
Proof.
  intros Hc. pose proof (covered2_page m k Hc) as Hk. destruct Hc as [l Hl]. apply wp_value.
  unfold sizeclass2. rewrite in_bits by lia. wp_step. wp_step; [done|]. wp_step.
  eapply leaf2_spec; [done|]. destruct (low_bits k) as [-> Hb]. apply entry_spec; [done|].
  unfold class_at2, block_class, leaf_entry. by rewrite Hl.
Qed.

Lemma get_hugepage2_law m k :
  0 ≤ k < 2 ^ BITS → get_hugepage2 cfg BITS k m = Done (huge_at2 m k, m).
Proof.
  intros Hk. apply wp_value. unfold get_hugepage2. rewrite in_bits by lia. simpl.
  wp_step. wp_step; [done|]. wp_step. apply root2_spec; [lia|].
  unfold huge_at2, block_huge, leaf_entry. destruct (blocks2 m (k / 2 ^ 15)) as [l|]; [|by wp_step].
  destruct (huge_bits k) as [-> Hl]. by apply entry_spec.
Qed.

Lemma uncovered2_law m k : is_word 64 k → ¬ covered2 m k →
  get_existing2 BITS k m = Fault ∧ sizeclass2 BITS k m = Fault.
Proof.
  intros Hw Hn. unfold is_word in Hw. unfold get_existing2, sizeclass2.
  destruct (Z.lt_ge_cases k (2 ^ BITS)) as [Hlt|Hge].
  - assert (leaf2 BITS (k ≫ kLeafBits2) m = Fault) as E.
    { unfold leaf2, root2, mbind, ST_bind, require, gets.
      destruct (in_array _ _); [|done]. unfold covered2, blocks2 in Hn.
      rewrite decide_True in Hn by (apply block_range; lia). unfold kLeafBits2.
      rewrite page_shift_div by lia. destruct (root2_ m !! (k / 2 ^ 15)); [by destruct Hn|done]. }
    unfold mbind, ST_bind, require. rewrite in_bits by lia. simpl. by rewrite E.
  - pose proof (not_in_bits k Hge). unfold mbind, ST_bind, require.
    by replace (k ≫ BITS =? 0) with false by lia.
Qed.

(** Covering is not changed by a store. *)
Lemma stored_covered2 m m' k l l' :
  blocks2 m (k / 2 ^ 15) = Some l → stores 15 (blocks2 m) (blocks2 m') k l' →
  ∀ j, covered2 m' j ↔ covered2 m j.
Proof.
  intros Hl Hst j. unfold covered2. rewrite Hst.
  destruct (decide (j / 2 ^ 15 = k / 2 ^ 15)) as [E|E]; [|done].
  rewrite E, Hl. split; intros _; by eexists.
Qed.

Local Abbreviation becomes2 := (becomes covered2 span_at2 class_at2 huge_at2).

(** The start of an operation on a covered page: the assertion and the leaf. *)
Local Ltac start_op Hc l Hl Hk :=
  pose proof (covered2_page _ _ Hc) as Hk; destruct Hc as [l Hl];
  rewrite in_bits by lia; wp_step; wp_step; [done|]; wp_step; eapply leaf2_spec; [done|].

Lemma set2_law m k v : covered2 m k → wp true (set2 BITS k v) (λ _ m',
  becomes2 m m' (set_at (span_at2 m) k v) (class_at2 m) (huge_at2 m)) m.
Proof.
  intros Hc. unfold set2. start_op Hc l Hl Hk. destruct (low_bits k) as [-> Hb].
  wp_step. apply set_entry_spec; [done|]. unfold put_leaf2. wp_step.
  pose proof (put_leaf2_stores m k
    (mk_leaf (lf_sizeclass l) (<[k mod 2 ^ 15 := v]> (lf_span l)) (lf_hugepage l)) Hk) as Hst.
  split_and!; [by eapply stored_covered2|by eapply stored_page|by eapply kept_entry..].
Qed.

Lemma set_with_sizeclass2_law m k v sc : covered2 m k → wp true (set_with_sizeclass2 BITS k v sc) (λ _ m',
  becomes2 m m' (set_at (span_at2 m) k v) (set_at (class_at2 m) k sc) (huge_at2 m)) m.
Proof.
  intros Hc. unfold set_with_sizeclass2. start_op Hc l Hl Hk. destruct (low_bits k) as [-> Hb].
  wp_step. apply set_entry_spec; [done|]. wp_step. apply set_entry_spec; [done|]. unfold put_leaf2. wp_step.
  pose proof (put_leaf2_stores m k (mk_leaf (<[k mod 2 ^ 15 := sc]> (lf_sizeclass l))
    (<[k mod 2 ^ 15 := v]> (lf_span l)) (lf_hugepage l)) Hk) as Hst.
  split_and!; [by eapply stored_covered2|by eapply stored_page|by eapply stored_page|by eapply kept_entry].
Qed.

Lemma clear_sizeclass2_law m k : covered2 m k → wp true (clear_sizeclass2 BITS k) (λ _ m',
  becomes2 m m' (span_at2 m) (set_at (class_at2 m) k 0) (huge_at2 m)) m.
Proof.
  intros Hc. unfold clear_sizeclass2. start_op Hc l Hl Hk. destruct (low_bits k) as [-> Hb].
  wp_step. apply set_entry_spec; [done|]. unfold put_leaf2. wp_step.
  pose proof (put_leaf2_stores m k (mk_leaf (<[k mod 2 ^ 15 := 0]> (lf_sizeclass l))
    (lf_span l) (lf_hugepage l)) Hk) as Hst.
  split_and!; [by eapply stored_covered2|by eapply kept_entry|by eapply stored_page|by eapply kept_entry].
Qed.

Lemma set_hugepage2_law m k v : covered2 m k → wp true (set_hugepage2 cfg BITS k v) (λ _ m',
  becomes2 m m' (span_at2 m) (class_at2 m) (set_block hb (huge_at2 m) k v)) m.
Proof.
  intros Hc. unfold set_hugepage2. start_op Hc l Hl Hk. destruct (huge_bits k) as [-> Hb].
  wp_step. apply set_entry_spec; [done|]. unfold put_leaf2. wp_step.
  pose proof (put_leaf2_stores m k (mk_leaf (lf_sizeclass l) (lf_span l)
    (<[(k mod 2 ^ 15) / 2 ^ hb := v]> (lf_hugepage l))) Hk) as Hst.
  pose proof (huge_shift_bounds cfg).
  split_and!; [by eapply stored_covered2|by eapply kept_entry|by eapply kept_entry|].
  eapply stored_huge; [lia|lia|done|done|done].
Qed.

(** What [Ensure] keeps. *)
Definition extends2 (m m' : PM) : Prop :=
  (∀ j, covered2 m j → covered2 m' j) ∧
  (∀ j, span_at2 m' j = span_at2 m j) ∧ (∀ j, class_at2 m' j = class_at2 m j) ∧
  (∀ j, huge_at2 m' j = huge_at2 m j).

Lemma extends2_refl m : extends2 m m.
Proof. done. Qed.

Lemma extends2_trans m1 m2 m3 : extends2 m1 m2 → extends2 m2 m3 → extends2 m1 m3.
Proof.
  intros (H1 & H2 & H3 & H4) (G1 & G2 & G3 & G4). split_and!; [naive_solver|congruence..].
Qed.

(** The allocator does not fail. *)
Definition reliable : Prop := ∀ bytes a, fst (Allocator bytes a) = true.

Lemma add_leaf2_spec k m :
  0 ≤ k < 2 ^ BITS → blocks2 m (k / 2 ^ 15) = None →
  wp true (add_leaf2 cfg Allocator (k ≫ kLeafBits2)) (λ ok m', extends2 m m' ∧
    (ok = true → covered2 m' k) ∧ (ok = false → ¬ reliable)) m.
Proof.
  intros Hk Hn. unfold wp, add_leaf2.
  destruct (Allocator _ (metadata2 m)) as [[] a] eqn:Ea.
  - assert (stores 15 (blocks2 m) (blocks2 (mk_map2 (<[k ≫ kLeafBits2 := zero_leaf]> (root2_ m))
      (u64 (bytes_used2_ m + sizeof_Leaf kLeafLength2 (kLeafHugepages2 cfg))) a)) k zero_leaf) as Hst
      by (apply (put_leaf2_stores m k zero_leaf Hk)).
    split; [|split; [|done]].
    + split_and!; [|by eapply new_entry..]. intros j. unfold covered2. rewrite Hst.
      destruct (decide (j / 2 ^ 15 = k / 2 ^ 15)); [by intros _; eexists|done].
    + intros _. unfold covered2. rewrite Hst, decide_True by done. by eexists.
  - split; [done|]. split; [done|]. intros _ Hr. specialize (Hr (sizeof_Leaf kLeafLength2 (kLeafHugepages2 cfg)) (metadata2 m)). by rewrite Ea in Hr.
Qed.

Lemma covered2_block m j k : covered2 m k → j / 2 ^ 15 = k / 2 ^ 15 → covered2 m j.
Proof. unfold covered2. by intros H ->. Qed.

Lemma Ensure2_loop_spec fuel key last m :
  0 ≤ key → key / 2 ^ 15 ≤ last / 2 ^ 15 + 1 →
  last / 2 ^ 15 - key / 2 ^ 15 + 1 < Z.of_nat fuel →
  wp true (Ensure2_loop cfg BITS Allocator fuel key last) (λ b m', extends2 m m' ∧
    (b = true → ∀ j, key ≤ j ≤ last → covered2 m' j) ∧
    (b = false → 2 ^ BITS ≤ last ∨ ¬ reliable)) m.
Proof.
  revert key m. induction fuel as [|fuel IH]; intros key m Hk Hl Hf; [lia|]. simpl.
  destruct (Z.leb_spec key last) as [Hle|Hgt].
  2: { wp_step. split; [apply extends2_refl|]. split; [lia|done]. }
  rewrite kRootLength2_eq. unfold kLeafBits2 at 1. rewrite page_shift_div by lia.
  destruct (Z.leb_spec (2 ^ (BITS - 15)) (key / 2 ^ 15)) as [Hout|Hin].
  { wp_step. split; [apply extends2_refl|]. split; [done|]. intros _. left.
    pose proof (block_range key). lia. }
  assert (0 ≤ key < 2 ^ BITS) as Hkr by (apply block_range; pose proof (Z.div_pos key (2 ^ 15)); lia).
  wp_step. apply root2_spec; [done|]. wp_step.
  apply (wp_mono _ _ (λ ok m', extends2 m m' ∧ (ok = true → covered2 m' key) ∧ (ok = false → ¬ reliable))).
  { destruct (blocks2 m (key / 2 ^ 15)) as [l|] eqn:El.
    - wp_step. split; [apply extends2_refl|]. split; [|done]. intros _. by exists l.
    - by apply add_leaf2_spec. }
  intros [] m' (He & Ht & Hfalse).
  2: { wp_step. split; [done|]. split; [done|]. intros _. right. by apply Hfalse. }
  rewrite Z.shiftl_mul_pow2 by (by unfold kLeafBits2). unfold kLeafBits2 at 1 2.
  pose proof (Z.div_pos key (2 ^ 15) Hk ltac:(lia)) as Hb0.
  rewrite page_shift_div by lia. set (b := key / 2 ^ 15) in *.
  assert ((b + 1) * 2 ^ 15 ≤ 2 ^ BITS) as Hnext.
  { replace BITS with (BITS - 15 + 15) by lia. rewrite Z.pow_add_r by lia. nia. }
  assert (2 ^ BITS ≤ 2 ^ 45) by (apply Z.pow_le_mono_r; lia).
  rewrite (wrap_small 64) by (unfold is_word; lia).
  assert (b ≤ last / 2 ^ 15) as Hbl by (apply Z.div_le_mono; lia).
  eapply wp_mono; [apply IH; rewrite ?Z.div_mul by lia; lia|].
  intros r m'' (He' & Ht' & Hf'). split; [by eapply extends2_trans|]. split; [|done].
  intros Hr j Hj. destruct (Z.lt_ge_cases j ((b + 1) * 2 ^ 15)) as [Hlt|Hge]; [|apply Ht'; [done|lia]].
  apply (covered2_block _ _ key); [by apply He', Ht|]. fold b.
  pose proof (Z.div_le_mono key j (2 ^ 15) ltac:(lia) ltac:(lia)).
  pose proof (Z.div_lt_upper_bound j (2 ^ 15) (b + 1)). lia.
Qed.

Lemma Ensure2_law m start n :
  0 ≤ start → 0 < n → start + n ≤ 2 ^ 64 →
  wp true (Ensure2 cfg BITS Allocator start n) (λ b m', extends2 m m' ∧
    (b = true → ∀ j, start ≤ j < start + n → covered2 m' j) ∧
    (b = false → 2 ^ BITS < start + n ∨ ¬ reliable)) m.
Proof.
  intros Hs Hn Hw. unfold Ensure2. wp_step. wp_step; [lia|].
  rewrite (wrap_small 64) by (unfold is_word; lia).
  destruct (leaf_count start n 15) as [H1 H2]; [lia..|].
  eapply wp_mono; [apply Ensure2_loop_spec; [done| |]|].
  - lia.
  - unfold kLeafBits2. rewrite page_shift_div by lia. pose proof (Z.div_pos n (2 ^ 15)). lia.
  - intros b m' (He & Ht & Hf). split; [done|]. split; [intros Hb j Hj; apply Ht; [done|lia]|].
    intros Hb. destruct (Hf Hb) as [|]; [left; lia|by right].
Qed.
End Tree2.

#[export] Instance PageMap2_impl (cfg : config) (BITS : Z) {A} (Allocator : PagemapAllocator A) :
  PageMapImpl (PageMap2 (A := A)) := {
  map_get := get2 BITS;
  map_get_existing := get_existing2 BITS;
  map_sizeclass := sizeclass2 BITS;
  map_set := set2 BITS;
  map_set_with_sizeclass := set_with_sizeclass2 BITS;
  map_clear_sizeclass := clear_sizeclass2 BITS;
  map_get_hugepage := get_hugepage2 cfg BITS;
  map_set_hugepage := set_hugepage2 cfg BITS;
  map_Ensure := Ensure2 cfg BITS Allocator;
  map_bytes_used := bytes_used2 BITS;
  map_RootSize := RootSize2 BITS;
}.

Definition PageMap2_laws (cfg : config) (BITS : Z) {A} (Allocator : PagemapAllocator A)
    (HB : 15 ≤ BITS ≤ 45) :
  PageMapLaws (PageMap2 (A := A)) (PageMapImpl0 := PageMap2_impl cfg BITS Allocator)
    BITS (kHugePageShift - kPageShift cfg) (reliable Allocator).
Proof.
  refine {| covered := covered2 BITS; span_at := span_at2 BITS; class_at := class_at2 BITS;
    huge_at := huge_at2 cfg BITS; empty_map m := root2_ m = ∅ |}.
  - by apply covered2_page.
  - intros m k Hn. unfold covered2 in Hn.
    unfold span_at2, class_at2, huge_at2, block_span, block_class, block_huge, leaf_entry.
    by destruct (blocks2 BITS m (k / 2 ^ 15)); [destruct Hn|].
  - intros m k Hm [l Hl]. unfold blocks2 in Hl. rewrite Hm in Hl.
    by destruct (decide _); rewrite ?lookup_empty in Hl.
  - by apply get2_law.
  - by apply get_existing2_law.
  - by apply sizeclass2_law.
  - by apply get_hugepage2_law.
  - by apply uncovered2_law.
  - by apply set2_law.
  - by apply set_with_sizeclass2_law.
  - by apply clear_sizeclass2_law.
  - by apply set_hugepage2_law.
  - intros m start n Hs Hn Hw. eapply wp_mono; [by apply Ensure2_law|].
    intros b m' ((? & ? & ? & ?) & ? & ?). done.
Defined.
