(* ===== verification/TcPageMap3Correct.v ===== *)
(** * tcmalloc: the three-level tree implements a page map *)

From S2P Require Import Prelude.
From S2P Require Import TcCommon.
From S2P Require Import TcSpan.
From S2P Require Import TcPageMap.
From S2P Require Import TcPageMapCorrect.

Section Tree3.
Context (cfg : config) (BITS : Z) {A : Type} (Allocator : PagemapAllocator A).
Context (HB : 4 ≤ BITS ≤ 60) (Hhuge : kHugePageShift - kPageShift cfg ≤ kLeafBits3 BITS).
Local Abbreviation hb := (kHugePageShift - kPageShift cfg).
Local Abbreviation L := (kLeafBits3 BITS).
Local Abbreviation PM := (PageMap3 (A := A)).

Lemma bits3 : 2 ≤ L ∧ kMidBits3 BITS = L ∧ 0 ≤ BITS - L - L ∧ kRootBits3 BITS = BITS - L - L.
Proof.
  unfold kRootBits3, kMidBits3. fold L. pose proof (Z.div_mod (BITS + 2) 3).
  pose proof (Z.mod_pos_bound (BITS + 2) 3). unfold kLeafBits3 in *. lia.
Qed.

Lemma leaf_bits3 : 0 ≤ L.
Proof. pose proof bits3. lia. Qed.

Definition blocks3 (m : PM) : blocks := λ b,
  if decide (0 ≤ b < 2 ^ (BITS - L)) then root3_ m !! (b / 2 ^ L) ≫= (λ n, n !! (b mod 2 ^ L)) else None.
Definition covered3 (m : PM) (k : Z) : Prop := is_Some (blocks3 m (k / 2 ^ L)).

Lemma block_range3 k : 0 ≤ k / 2 ^ L < 2 ^ (BITS - L) ↔ 0 ≤ k < 2 ^ BITS.
Proof.
  pose proof bits3.
  assert (2 ^ BITS = 2 ^ L * 2 ^ (BITS - L)) as E by (rewrite <-Z.pow_add_r by lia; f_equal; lia).
  pose proof (Z.div_mod k (2 ^ L) ltac:(lia)). pose proof (Z.mod_pos_bound k (2 ^ L) ltac:(lia)).
  split; intros ?; nia.
Qed.

(** The index of the root entry of a block. *)
Lemma root_range3 b : 0 ≤ b < 2 ^ (BITS - L) → 0 ≤ b / 2 ^ L < kRootLength3 BITS.
Proof.
  intros Hb. pose proof bits3 as (? & _ & ? & E). unfold kRootLength3. rewrite E, Z.shiftl_1_l.
  assert (2 ^ (BITS - L) = 2 ^ L * 2 ^ (BITS - L - L)) as E' by (rewrite <-Z.pow_add_r by lia; f_equal; lia).
  split; [apply Z.div_pos; lia|]. apply Z.div_lt_upper_bound; lia.
Qed.

Lemma kLeafHugepages3_eq : kLeafHugepages3 cfg BITS = 2 ^ (L - hb).
Proof.
  pose proof bits3. unfold kLeafHugepages3, kLeafCoveredBytes3, kHugePageSize.
  assert (0 ≤ kPageShift cfg) by (on_config cfg; by vm_compute).
  rewrite !Z.shiftl_1_l, <-Z.pow_sub_r by (unfold kHugePageShift in *; lia). f_equal. lia.
Qed.

Lemma covered3_page m k : covered3 m k → 0 ≤ k < 2 ^ BITS.
Proof.
  unfold covered3, blocks3. intros H. apply block_range3.
  destruct (decide (0 ≤ k / 2 ^ L < 2 ^ (BITS - L))) as [|_]; [done|by destruct H].
Qed.

(** The indices that the code computes of a page. *)
Lemma index3 k : k ≫ (L + kMidBits3 BITS) = k / 2 ^ L / 2 ^ L ∧
  Z.land (k ≫ L) (kMidLength3 BITS - 1) = (k / 2 ^ L) mod 2 ^ L.
Proof.
  pose proof bits3 as (? & E & _). unfold kMidLength3. rewrite E, !page_shift_div, page_mask by lia.
  split; [|done]. by rewrite Z.pow_add_r, Z.div_div by lia.
Qed.

Lemma blocks3_root m k : 0 ≤ k < 2 ^ BITS →
  blocks3 m (k / 2 ^ L) = root3_ m !! (k / 2 ^ L / 2 ^ L) ≫= (λ n, n !! ((k / 2 ^ L) mod 2 ^ L)).
Proof. intros Hk%block_range3. unfold blocks3. by rewrite decide_True. Qed.

Lemma root3_spec k m (Q : option (gmap Z Leaf) → PM → Prop) :
  0 ≤ k < 2 ^ BITS → Q (root3_ m !! (k / 2 ^ L / 2 ^ L)) m →
  wp true (root3 BITS (k ≫ (L + kMidBits3 BITS))) Q m.
Proof.
  intros Hk%block_range3 HQ. pose proof (root_range3 _ Hk). unfold root3.
  destruct (index3 k) as [-> _]. wp_step. wp_step; [by apply in_array_true|]. by wp_step.
Qed.

Lemma leafs3_spec k n m (Q : option Leaf → PM → Prop) :
  0 ≤ k < 2 ^ BITS → root3_ m !! (k / 2 ^ L / 2 ^ L) = Some n → Q (blocks3 m (k / 2 ^ L)) m →
  wp true (leafs3 BITS (k ≫ (L + kMidBits3 BITS)) (Z.land (k ≫ L) (kMidLength3 BITS - 1))) Q m.
Proof.
  intros Hk Hn HQ. unfold leafs3. wp_step. apply root3_spec; [done|]. rewrite Hn. wp_step.
  wp_step; [done|]. destruct (index3 k) as [_ ->]. pose proof bits3 as (? & E & _).
  wp_step. wp_step.
  { apply in_array_true. unfold kMidLength3. rewrite E, Z.shiftl_1_l. apply Z.mod_pos_bound. lia. }
  wp_step. unfold blocks3 in HQ. rewrite decide_True in HQ by (by apply block_range3).
  by rewrite Hn in HQ.
Qed.

Lemma leaf3_spec k l m (Q : Leaf → PM → Prop) :
  blocks3 m (k / 2 ^ L) = Some l → Q l m →
  wp true (leaf3 BITS (k ≫ (L + kMidBits3 BITS)) (Z.land (k ≫ L) (kMidLength3 BITS - 1))) Q m.
Proof.
  intros Hl HQ. assert (0 ≤ k < 2 ^ BITS) as Hk by (eapply covered3_page; by exists l).
  unfold leaf3. wp_step. pose proof Hl as Hl'. unfold blocks3 in Hl'.
  rewrite decide_True in Hl' by (by apply block_range3).
  apply bind_Some in Hl' as (n & Hn & _). eapply leafs3_spec; [done|done|].
  rewrite Hl. by eapply wp_from_opt.
Qed.

(** Storing a leaf where there is a node. *)
Lemma stores3 m k l b a :
  0 ≤ k < 2 ^ BITS → is_Some (root3_ m !! (k / 2 ^ L / 2 ^ L)) →
  stores L (blocks3 m) (blocks3 (mk_map3 (alter (λ n : gmap Z Leaf,
    <[Z.land (k ≫ L) (kMidLength3 BITS - 1) := l]> n) (k ≫ (L + kMidBits3 BITS)) (root3_ m)) b a)) k l.
Proof.
  intros Hk [n Hn] b'. unfold blocks3. simpl. destruct (index3 k) as [-> ->].
  apply block_range3 in Hk. destruct (decide (b' = k / 2 ^ L)) as [->|Hne].
  - rewrite decide_True by done. by rewrite lookup_alter_eq, Hn; simpl; rewrite lookup_insert_eq.
  - destruct (decide _); [|done]. destruct (decide (b' / 2 ^ L = k / 2 ^ L / 2 ^ L)) as [E|E].
    + rewrite E, lookup_alter_eq, Hn. simpl. rewrite lookup_insert_ne; [done|].
      intros E'. apply Hne. symmetry. eapply (same_page L); [pose proof bits3; lia|done|done].
    + by rewrite lookup_alter_ne by done.
Qed.

Lemma put_leaf3_stores m k l :
  covered3 m k →
  stores L (blocks3 m) (blocks3 (mk_map3 (alter (λ n : gmap Z Leaf,
    <[Z.land (k ≫ L) (kMidLength3 BITS - 1) := l]> n) (k ≫ (L + kMidBits3 BITS)) (root3_ m))
    (bytes_used3_ m) (metadata3 m))) k l.
Proof.
  intros Hc. pose proof (covered3_page _ _ Hc) as Hk. apply stores3; [done|].
  destruct Hc as [l' Hl]. unfold blocks3 in Hl. rewrite decide_True in Hl by (by apply block_range3).
  apply bind_Some in Hl as (n & Hn & _). by exists n.
Qed.

Definition span_at3 (m : PM) : Z → Z := block_span L (blocks3 m).
Definition class_at3 (m : PM) : Z → Z := block_class L (blocks3 m).
Definition huge_at3 (m : PM) : Z → Z := block_huge L hb (blocks3 m).

Lemma low_bits3 k : Z.land k (kLeafLength3 BITS - 1) = k mod 2 ^ L ∧ 0 ≤ k mod 2 ^ L < kLeafLength3 BITS.
Proof.
  unfold kLeafLength3. pose proof bits3. rewrite page_mask by lia. split; [done|].
  rewrite Z.shiftl_1_l. apply Z.mod_pos_bound. lia.
Qed.

Lemma huge_bits3 k :
  Z.land k (kLeafLength3 BITS - 1) ≫ (L - kLeafHugeBits3 cfg BITS) = (k mod 2 ^ L) / 2 ^ hb ∧
  0 ≤ (k mod 2 ^ L) / 2 ^ hb < kLeafHugepages3 cfg BITS.
Proof.
  pose proof (huge_shift_bounds cfg) as Hh. destruct (low_bits3 k) as [-> _].
  pose proof bits3. unfold kLeafHugeBits3. rewrite kLeafHugepages3_eq.
  replace (L - (L + kPageShift cfg - kHugePageShift)) with hb by lia.
  rewrite page_shift_div by lia. split; [done|]. apply huge_index; lia.
Qed.

Lemma in_bits3 k : 0 ≤ k < 2 ^ BITS → k ≫ BITS = 0.
Proof. intros Hk. rewrite page_shift_div by lia. apply page_in_range; lia. Qed.

Lemma not_in_bits3 k : 2 ^ BITS ≤ k → 0 < k ≫ BITS.
Proof.
  intros Hk. rewrite page_shift_div by lia. pose proof (Z.div_pos k (2 ^ BITS)).
  pose proof (page_in_range k BITS). lia.
Qed.

Lemma get3_law m k : is_word 64 k → get3 BITS k m = Done (span_at3 m k, m).
Proof.
  intros Hk. unfold is_word in Hk. apply wp_value. unfold get3.
  destruct (Z.lt_ge_cases k (2 ^ BITS)) as [Hlt|Hge].
  - rewrite in_bits3 by lia. simpl. wp_step. apply root3_spec; [lia|].
    pose proof (blocks3_root m k ltac:(lia)) as Hr. unfold span_at3, block_span, leaf_entry.
    destruct (root3_ m !! (k / 2 ^ L / 2 ^ L)) as [n|] eqn:En; [|wp_step; by rewrite Hr].
    wp_step. eapply leafs3_spec; [lia|done|]. destruct (blocks3 m (k / 2 ^ L)) as [l|]; [|by wp_step].
    destruct (low_bits3 k) as [-> Hl]. by apply entry_spec.
  - pose proof (not_in_bits3 k Hge). replace (0 <? k ≫ BITS) with true by lia. wp_step. split; [|done].
    unfold span_at3, block_span, leaf_entry, blocks3. rewrite decide_False; [done|].
    rewrite block_range3. lia.
Qed.

Lemma get_existing3_law m k : covered3 m k → get_existing3 BITS k m = Done (span_at3 m k, m).
Proof.
  intros Hc. pose proof (covered3_page m k Hc) as Hk. destruct Hc as [l Hl]. apply wp_value.
  unfold get_existing3. rewrite in_bits3 by lia. wp_step. wp_step; [done|]. wp_step.
  eapply leaf3_spec; [done|]. destruct (low_bits3 k) as [-> Hb]. apply entry_spec; [done|].
  unfold span_at3, block_span, leaf_entry. by rewrite Hl.
Qed.

Lemma sizeclass3_law m k : covered3 m k → sizeclass3 BITS k m = Done (class_at3 m k, m).
Proof.
  intros Hc. pose proof (covered3_page m k Hc) as Hk. destruct Hc as [l Hl]. apply wp_value.
  unfold sizeclass3. rewrite in_bits3 by lia. wp_step. wp_step; [done|]. wp_step.
  eapply leaf3_spec; [done|]. destruct (low_bits3 k) as [-> Hb]. apply entry_spec; [done|].
  unfold class_at3, block_class, leaf_entry. by rewrite Hl.
Qed.

Lemma get_hugepage3_law m k :
  0 ≤ k < 2 ^ BITS → get_hugepage3 cfg BITS k m = Done (huge_at3 m k, m).
Proof.
  intros Hk. apply wp_value. unfold get_hugepage3. rewrite in_bits3 by lia. simpl.
  wp_step. wp_step; [done|]. wp_step. apply root3_spec; [lia|].
  pose proof (blocks3_root m k ltac:(lia)) as Hr. unfold huge_at3, block_huge, leaf_entry.
  destruct (root3_ m !! (k / 2 ^ L / 2 ^ L)) as [n|] eqn:En; [|wp_step; by rewrite Hr].
  wp_step. eapply leafs3_spec; [lia|done|]. destruct (blocks3 m (k / 2 ^ L)) as [l|]; [|by wp_step].
  destruct (huge_bits3 k) as [-> Hl]. by apply entry_spec.
Qed.

Lemma uncovered3_law m k : is_word 64 k → ¬ covered3 m k →
  get_existing3 BITS k m = Fault ∧ sizeclass3 BITS k m = Fault.
Proof.
  intros Hw Hn. unfold is_word in Hw. unfold get_existing3, sizeclass3.
  destruct (Z.lt_ge_cases k (2 ^ BITS)) as [Hlt|Hge].
  - assert (leaf3 BITS (k ≫ (L + kMidBits3 BITS)) (Z.land (k ≫ L) (kMidLength3 BITS - 1)) m = Fault) as E.
    { unfold covered3 in Hn. rewrite blocks3_root in Hn by lia.
      unfold leaf3, leafs3, root3, mbind, ST_bind, require, gets, from_opt, mret, ST_ret.
      destruct (index3 k) as [-> ->]. destruct (in_array _ _); [|done].
      destruct (root3_ m !! _) as [n|]; [|done]. destruct (in_array _ _); [|done]. simpl in Hn.
      destruct (n !! _); [by destruct Hn|done]. }
    unfold mbind, ST_bind, require. rewrite in_bits3 by lia. simpl. by rewrite E.
  - pose proof (not_in_bits3 k Hge). unfold mbind, ST_bind, require.
    by replace (k ≫ BITS =? 0) with false by lia.
Qed.

(** Covering is not changed by a store. *)
Lemma stored_covered3 m m' k l l' :
  blocks3 m (k / 2 ^ L) = Some l → stores L (blocks3 m) (blocks3 m') k l' →
  ∀ j, covered3 m' j ↔ covered3 m j.
Proof.
  intros Hl Hst j. unfold covered3. rewrite Hst.
  destruct (decide (j / 2 ^ L = k / 2 ^ L)) as [E|E]; [|done].
  rewrite E, Hl. split; intros _; by eexists.
Qed.

Local Abbreviation becomes3 := (becomes covered3 span_at3 class_at3 huge_at3).

(** The start of an operation on a covered page: the assertion and the leaf. *)
Local Ltac start_op Hc l Hl Hk :=
  pose proof (covered3_page _ _ Hc) as Hk; pose proof Hc as [l Hl];
  rewrite in_bits3 by lia; wp_step; wp_step; [done|]; wp_step; eapply leaf3_spec; [done|].

Lemma set3_law m k v : covered3 m k → wp true (set3 BITS k v) (λ _ m',
  becomes3 m m' (set_at (span_at3 m) k v) (class_at3 m) (huge_at3 m)) m.
Proof.
  intros Hc. unfold set3. start_op Hc l Hl Hk. destruct (low_bits3 k) as [-> Hb].
  wp_step. apply set_entry_spec; [done|]. unfold put_leaf3. wp_step.
  pose proof (put_leaf3_stores m k
    (mk_leaf (lf_sizeclass l) (<[k mod 2 ^ L := v]> (lf_span l)) (lf_hugepage l)) Hc) as Hst.
  split_and!; [by eapply stored_covered3|by eapply (stored_page L leaf_bits3)|by eapply kept_entry..].
Qed.

Lemma set_with_sizeclass3_law m k v sc : covered3 m k → wp true (set_with_sizeclass3 BITS k v sc) (λ _ m',
  becomes3 m m' (set_at (span_at3 m) k v) (set_at (class_at3 m) k sc) (huge_at3 m)) m.
Proof.
  intros Hc. unfold set_with_sizeclass3. start_op Hc l Hl Hk. destruct (low_bits3 k) as [-> Hb].
  wp_step. apply set_entry_spec; [done|]. wp_step. apply set_entry_spec; [done|]. unfold put_leaf3. wp_step.
  pose proof (put_leaf3_stores m k (mk_leaf (<[k mod 2 ^ L := sc]> (lf_sizeclass l))
    (<[k mod 2 ^ L := v]> (lf_span l)) (lf_hugepage l)) Hc) as Hst.
  split_and!; [by eapply stored_covered3|by eapply (stored_page L leaf_bits3)|by eapply (stored_page L leaf_bits3)|by eapply kept_entry].
Qed.

Lemma clear_sizeclass3_law m k : covered3 m k → wp true (clear_sizeclass3 BITS k) (λ _ m',
  becomes3 m m' (span_at3 m) (set_at (class_at3 m) k 0) (huge_at3 m)) m.
Proof.
  intros Hc. unfold clear_sizeclass3. start_op Hc l Hl Hk. destruct (low_bits3 k) as [-> Hb].
  wp_step. apply set_entry_spec; [done|]. unfold put_leaf3. wp_step.
  pose proof (put_leaf3_stores m k (mk_leaf (<[k mod 2 ^ L := 0]> (lf_sizeclass l))
    (lf_span l) (lf_hugepage l)) Hc) as Hst.
  split_and!; [by eapply stored_covered3|by eapply kept_entry|by eapply (stored_page L leaf_bits3)|by eapply kept_entry].
Qed.

Lemma set_hugepage3_law m k v : covered3 m k → wp true (set_hugepage3 cfg BITS k v) (λ _ m',
  becomes3 m m' (span_at3 m) (class_at3 m) (set_block hb (huge_at3 m) k v)) m.
Proof.
  intros Hc. unfold set_hugepage3. start_op Hc l Hl Hk. destruct (huge_bits3 k) as [-> Hb].
  wp_step. apply set_entry_spec; [done|]. unfold put_leaf3. wp_step.
  pose proof (put_leaf3_stores m k (mk_leaf (lf_sizeclass l) (lf_span l)
    (<[(k mod 2 ^ L) / 2 ^ hb := v]> (lf_hugepage l))) Hc) as Hst.
  pose proof (huge_shift_bounds cfg).
  split_and!; [by eapply stored_covered3|by eapply kept_entry|by eapply kept_entry|].
  eapply (stored_huge L leaf_bits3); [lia|done|done|done].
Qed.

(** What [Ensure] keeps. *)
Definition extends3 (m m' : PM) : Prop :=
  (∀ j, covered3 m j → covered3 m' j) ∧
  (∀ j, span_at3 m' j = span_at3 m j) ∧ (∀ j, class_at3 m' j = class_at3 m j) ∧
  (∀ j, huge_at3 m' j = huge_at3 m j).

Lemma extends3_refl m : extends3 m m.
Proof. done. Qed.

Lemma extends3_trans m1 m2 m3 : extends3 m1 m2 → extends3 m2 m3 → extends3 m1 m3.
Proof.
  intros (H1 & H2 & H3 & H4) (G1 & G2 & G3 & G4). split_and!; [naive_solver|congruence..].
Qed.

(** A new node has no leaves. *)
Lemma add_node3_spec k m :
  0 ≤ k < 2 ^ BITS → root3_ m !! (k / 2 ^ L / 2 ^ L) = None →
  wp true (add_node3 BITS Allocator (k ≫ (L + kMidBits3 BITS))) (λ ok m',
    (∀ b, blocks3 m' b = blocks3 m b) ∧
    (ok = true → is_Some (root3_ m' !! (k / 2 ^ L / 2 ^ L))) ∧ (ok = false → ¬ reliable Allocator)) m.
Proof.
  intros Hk Hn. unfold wp, add_node3. destruct (index3 k) as [-> _].
  destruct (Allocator _ (metadata3 m)) as [[] a] eqn:Ea.
  - split; [|split; [|done]]; simpl.
    + intros b. unfold blocks3. simpl. destruct (decide (0 ≤ b < 2 ^ (BITS - L))); [|done].
      destruct (decide (b / 2 ^ L = k / 2 ^ L / 2 ^ L)) as [E|E].
      * rewrite E, lookup_insert_eq, Hn. simpl. by rewrite lookup_empty.
      * by rewrite lookup_insert_ne by done.
    + intros _. rewrite lookup_insert_eq. by eexists.
  - split; [done|]. split; [done|]. intros _ Hr. specialize (Hr (8 * kMidLength3 BITS) (metadata3 m)).
    by rewrite Ea in Hr.
Qed.

(** The abstract view only depends on the blocks. *)
Lemma same_blocks3 m m' : (∀ b, blocks3 m' b = blocks3 m b) → extends3 m m'.
Proof.
  intros H. unfold extends3, covered3, span_at3, class_at3, huge_at3, block_span, block_class, block_huge,
    leaf_entry. split_and!; intros j; by rewrite H.
Qed.

Lemma add_leaf3_spec k m :
  0 ≤ k < 2 ^ BITS → is_Some (root3_ m !! (k / 2 ^ L / 2 ^ L)) → blocks3 m (k / 2 ^ L) = None →
  wp true (add_leaf3 cfg BITS Allocator (k ≫ (L + kMidBits3 BITS)) (Z.land (k ≫ L) (kMidLength3 BITS - 1)))
    (λ ok m', extends3 m m' ∧ (ok = true → covered3 m' k) ∧ (ok = false → ¬ reliable Allocator)) m.
Proof.
  intros Hk Hr Hn. unfold wp, add_leaf3.
  destruct (Allocator _ (metadata3 m)) as [[] a] eqn:Ea.
  - pose proof (stores3 m k zero_leaf
      (u64 (bytes_used3_ m + sizeof_Leaf (kLeafLength3 BITS) (kLeafHugepages3 cfg BITS))) a Hk Hr) as Hst.
    split; [|split; [|done]].
    + split_and!; [|by eapply new_entry..]. intros j. unfold covered3. rewrite Hst.
      destruct (decide (j / 2 ^ L = k / 2 ^ L)); [by intros _; eexists|done].
    + intros _. unfold covered3. rewrite Hst, decide_True by done. by eexists.
  - split; [done|]. split; [done|]. intros _ Hrel.
    specialize (Hrel (sizeof_Leaf (kLeafLength3 BITS) (kLeafHugepages3 cfg BITS)) (metadata3 m)).
    by rewrite Ea in Hrel.
Qed.

Lemma covered3_block m j k : covered3 m k → j / 2 ^ L = k / 2 ^ L → covered3 m j.
Proof. unfold covered3. by intros H ->. Qed.

Lemma key_in_root3 k : 0 ≤ k → k / 2 ^ L / 2 ^ L < 2 ^ (BITS - L - L) → 0 ≤ k < 2 ^ BITS.
Proof.
  intros Hk Hlt. split; [done|]. pose proof bits3 as (? & _ & ? & _).
  rewrite Z.div_div in Hlt by lia. rewrite <-Z.pow_add_r in Hlt by lia.
  destruct (Z.lt_ge_cases k (2 ^ BITS)) as [|Hge]; [done|exfalso].
  assert (2 ^ (BITS - L - L) ≤ k / 2 ^ (L + L)); [|lia].
  apply Z.div_le_lower_bound; [lia|]. rewrite <-Z.pow_add_r by lia.
  by replace (L + L + (BITS - L - L)) with BITS by lia.
Qed.

Lemma Ensure3_loop_spec fuel key last m :
  0 ≤ key → key / 2 ^ L ≤ last / 2 ^ L + 1 →
  last / 2 ^ L - key / 2 ^ L + 1 < Z.of_nat fuel →
  wp true (Ensure3_loop cfg BITS Allocator fuel key last) (λ b m', extends3 m m' ∧
    (b = true → ∀ j, key ≤ j ≤ last → covered3 m' j) ∧
    (b = false → 2 ^ BITS ≤ last ∨ ¬ reliable Allocator)) m.
Proof.
  revert key m. induction fuel as [|fuel IH]; intros key m Hk Hl Hf; [lia|]. simpl.
  destruct (Z.leb_spec key last) as [Hle|Hgt].
  2: { wp_step. split; [apply extends3_refl|]. split; [lia|done]. }
  destruct (index3 key) as [Ei _]. rewrite Ei.
  pose proof bits3 as (Hl2 & HM & Hr0 & HR). unfold kRootLength3. rewrite HR, Z.shiftl_1_l.
  destruct (Z.leb_spec (2 ^ (BITS - L - L)) (key / 2 ^ L / 2 ^ L)) as [Hout|Hin].
  { wp_step. split; [apply extends3_refl|]. split; [done|]. intros _. left.
    destruct (Z.lt_ge_cases last (2 ^ BITS)) as [Hlt|]; [exfalso|done].
    pose proof (proj2 (block_range3 key) ltac:(lia)) as Hb. pose proof (root_range3 _ Hb) as Hroot.
    unfold kRootLength3 in Hroot. rewrite HR, Z.shiftl_1_l in Hroot. lia. }
  assert (0 ≤ key < 2 ^ BITS) as Hkr by (by apply key_in_root3).
  rewrite <-Ei. wp_step. apply root3_spec; [done|]. wp_step.
  apply (wp_mono _ _ (λ ok m', (∀ b, blocks3 m' b = blocks3 m b) ∧
    (ok = true → is_Some (root3_ m' !! (key / 2 ^ L / 2 ^ L))) ∧ (ok = false → ¬ reliable Allocator))).
  { destruct (root3_ m !! (key / 2 ^ L / 2 ^ L)) as [n|] eqn:En.
    - wp_step. split; [done|]. split; [by eexists|done].
    - by apply add_node3_spec. }
  intros [] m1 (Hsame & Hnode & Hno).
  2: { wp_step. split; [by apply same_blocks3|]. split; [done|]. intros _. right. by apply Hno. }
  destruct (Hnode eq_refl) as [n Hn]. wp_step. eapply leafs3_spec; [done|done|]. wp_step.
  apply (wp_mono _ _ (λ ok m', extends3 m m' ∧ (ok = true → covered3 m' key) ∧ (ok = false → ¬ reliable Allocator))).
  { destruct (blocks3 m1 (key / 2 ^ L)) as [l|] eqn:El.
    - wp_step. split; [by apply same_blocks3|]. split; [|done]. intros _. by exists l.
    - eapply wp_mono; [by apply add_leaf3_spec|]. intros ok m2 (He & ? & ?).
      split; [|done]. eapply extends3_trans; [by apply same_blocks3|done]. }
  intros [] m' (He & Ht & Hfalse).
  2: { wp_step. split; [done|]. split; [done|]. intros _. right. by apply Hfalse. }
  rewrite Z.shiftl_mul_pow2 by lia.
  pose proof (Z.div_pos key (2 ^ L) Hk ltac:(lia)) as Hb0.
  rewrite page_shift_div by lia. set (b := key / 2 ^ L) in *.
  assert ((b + 1) * 2 ^ L ≤ 2 ^ BITS) as Hnext.
  { assert (2 ^ BITS = 2 ^ L * 2 ^ (BITS - L)) as E by (rewrite <-Z.pow_add_r by lia; f_equal; lia).
    pose proof (proj2 (block_range3 key) Hkr) as Hbr. fold b in Hbr. nia. }
  assert (2 ^ BITS ≤ 2 ^ 60) by (apply Z.pow_le_mono_r; lia).
  rewrite (wrap_small 64) by (unfold is_word; lia).
  assert (b ≤ last / 2 ^ L) as Hbl by (apply Z.div_le_mono; lia).
  eapply wp_mono; [apply IH; rewrite ?Z.div_mul by lia; lia|].
  intros r m'' (He' & Ht' & Hf'). split; [by eapply extends3_trans|]. split; [|done].
  intros Hr j Hj. destruct (Z.lt_ge_cases j ((b + 1) * 2 ^ L)) as [Hlt|Hge]; [|apply Ht'; [done|lia]].
  apply (covered3_block _ _ key); [by apply He', Ht|]. fold b.
  pose proof (Z.div_le_mono key j (2 ^ L) ltac:(lia) ltac:(lia)).
  pose proof (Z.div_lt_upper_bound j (2 ^ L) (b + 1)). lia.
Qed.

Lemma Ensure3_law m start n :
  0 ≤ start → 0 < n → start + n ≤ 2 ^ 64 →
  wp true (Ensure3 cfg BITS Allocator start n) (λ b m', extends3 m m' ∧
    (b = true → ∀ j, start ≤ j < start + n → covered3 m' j) ∧
    (b = false → 2 ^ BITS < start + n ∨ ¬ reliable Allocator)) m.
Proof.
  intros Hs Hn Hw. unfold Ensure3. pose proof leaf_bits3.
  rewrite (wrap_small 64) by (unfold is_word; lia).
  destruct (leaf_count start n L) as [H1 H2]; [lia..|].
  eapply wp_mono; [apply Ensure3_loop_spec; [done| |]|].
  - lia.
  - rewrite page_shift_div by lia. pose proof (Z.div_pos n (2 ^ L)). lia.
  - intros b m' (He & Ht & Hf). split; [done|]. split; [intros Hb j Hj; apply Ht; [done|lia]|].
    intros Hb. destruct (Hf Hb) as [|]; [left; lia|by right].
Qed.
End Tree3.

#[export] Instance PageMap3_impl (cfg : config) (BITS : Z) {A} (Allocator : PagemapAllocator A) :
  PageMapImpl (PageMap3 (A := A)) := {
  map_get := get3 BITS;
  map_get_existing := get_existing3 BITS;
  map_sizeclass := sizeclass3 BITS;
  map_set := set3 BITS;
  map_set_with_sizeclass := set_with_sizeclass3 BITS;
  map_clear_sizeclass := clear_sizeclass3 BITS;
  map_get_hugepage := get_hugepage3 cfg BITS;
  map_set_hugepage := set_hugepage3 cfg BITS;
  map_Ensure := Ensure3 cfg BITS Allocator;
  map_bytes_used := bytes_used3 BITS;
  map_RootSize := RootSize3 BITS;
}.

Definition PageMap3_laws (cfg : config) (BITS : Z) {A} (Allocator : PagemapAllocator A)
    (HB : 4 ≤ BITS ≤ 60)
    (Hhuge : kHugePageShift - kPageShift cfg ≤ kLeafBits3 BITS) :
  PageMapLaws (PageMap3 (A := A)) (PageMapImpl0 := PageMap3_impl cfg BITS Allocator)
    BITS (kHugePageShift - kPageShift cfg) (reliable Allocator).
Proof.
  refine {| covered := covered3 BITS; span_at := span_at3 BITS; class_at := class_at3 BITS;
    huge_at := huge_at3 cfg BITS; empty_map m := root3_ m = ∅ |}.
  - by apply covered3_page.
  - intros m k Hn. unfold covered3 in Hn.
    unfold span_at3, class_at3, huge_at3, block_span, block_class, block_huge, leaf_entry.
    by destruct (blocks3 BITS m (k / 2 ^ kLeafBits3 BITS)); [destruct Hn|].
  - intros m k Hm [l Hl]. unfold blocks3 in Hl. rewrite Hm in Hl.
    by destruct (decide _); rewrite ?lookup_empty in Hl.
  - by apply get3_law.
  - by apply get_existing3_law.
  - by apply sizeclass3_law.
  - by apply get_hugepage3_law.
  - by apply uncovered3_law.
  - by apply set3_law.
  - by apply set_with_sizeclass3_law.
  - by apply clear_sizeclass3_law.
  - by apply set_hugepage3_law.
  - intros m start n Hs Hn Hw. eapply wp_mono; [by apply Ensure3_law|].
    intros b m' ((? & ? & ? & ?) & ? & ?). done.
Defined.
