(* ===== verification/TcPageMapTheorems.v ===== *)
(** * tcmalloc: theorems about page maps

    Both trees are maps from pages, for every sequence of operations, and
    registering a span for a size class changes the entries of its pages only. *)

From S2P Require Import Prelude.
From S2P Require Import TcCommon.
From S2P Require Import TcSpan.
From S2P Require Import TcPageMap.
From S2P Require Import TcPageMapCorrect.
From S2P Require Import TcPageMap3Correct.

(** ** Page maps as functions *)

(** The pages that were ensured, and the three entries of every page. *)
Record view := mk_view {
  v_pages : Z → bool;
  v_span : Z → Z;
  v_class : Z → Z;
  v_huge : Z → Z;
}.

Definition empty_view : view := mk_view (λ _, false) (λ _, 0) (λ _, 0) (λ _, 0).

Inductive map_op :=
  | OpEnsure (start n : Z)
  | OpSet (k v : Z)
  | OpSetClass (k v sc : Z)
  | OpClear (k : Z)
  | OpSetHuge (k v : Z).

Section Spec.
Context (bits hb : Z).

(** One operation on the functions, if it is allowed. *)
Definition view_step (w : view) (op : map_op) : option view :=
  match op with
  | OpEnsure start n =>
      if (0 <=? start) && (0 <? n) && (start + n <=? 2 ^ bits) then
        Some (mk_view (λ j, v_pages w j || (start <=? j) && (j <? start + n))
          (v_span w) (v_class w) (v_huge w))
      else None
  | OpSet k v =>
      if v_pages w k then Some (mk_view (v_pages w) (set_at (v_span w) k v) (v_class w) (v_huge w))
      else None
  | OpSetClass k v sc =>
      if v_pages w k then
        Some (mk_view (v_pages w) (set_at (v_span w) k v) (set_at (v_class w) k sc) (v_huge w))
      else None
  | OpClear k =>
      if v_pages w k then Some (mk_view (v_pages w) (v_span w) (set_at (v_class w) k 0) (v_huge w))
      else None
  | OpSetHuge k v =>
      if v_pages w k then Some (mk_view (v_pages w) (v_span w) (v_class w) (set_block hb (v_huge w) k v))
      else None
  end.

Fixpoint view_run (w : view) (ops : list map_op) : option view :=
  match ops with
  | [] => Some w
  | op :: ops => w' ← view_step w op; view_run w' ops
  end.
End Spec.

Section Run.
Context {M : Type} `{!PageMapImpl M}.

Definition map_step (op : map_op) : ST M bool :=
  match op with
  | OpEnsure start n => map_Ensure start n
  | OpSet k v => map_set k v;; mret true
  | OpSetClass k v sc => map_set_with_sizeclass k v sc;; mret true
  | OpClear k => map_clear_sizeclass k;; mret true
  | OpSetHuge k v => map_set_hugepage k v;; mret true
  end.

Fixpoint map_run (ops : list map_op) : ST M bool :=
  match ops with
  | [] => mret true
  | op :: ops => ok ← map_step op; if ok : bool then map_run ops else mret false
  end.

(** The reads of [m] are the functions [w]. *)
Definition reads_as (w : view) (m : M) : Prop :=
  (∀ k, is_word 64 k → GetDescriptor k m = Done (v_span w k, m)) ∧
  (∀ k, v_pages w k = true →
    map_get_existing k m = Done (v_span w k, m) ∧
    PageMap_sizeclass k m = Done (v_class w k, m) ∧
    GetHugepage k m = Done (v_huge w k, m)).

Context {bits hb : Z} {ok : Prop} {HL : PageMapLaws M bits hb ok}.

Definition agrees (w : view) (m : M) : Prop :=
  (∀ k, v_pages w k = true → covered m k) ∧ (∀ k, span_at m k = v_span w k) ∧
  (∀ k, class_at m k = v_class w k) ∧ (∀ k, huge_at m k = v_huge w k).

Lemma agrees_reads w m : agrees w m → reads_as w m.
Proof.
  intros (Hp & Hs & Hc & Hh). split.
  - intros k Hk. unfold GetDescriptor. by rewrite get_law, Hs.
  - intros k Hk%Hp. unfold PageMap_sizeclass, GetHugepage.
    rewrite get_existing_law, sizeclass_law, get_hugepage_law, Hs, Hc, Hh; [done|by eapply covered_page|done..].
Qed.

(** The entries after a store. *)
Lemma becomes_agrees w m m' fs fc fh :
  agrees w m → becomes covered span_at class_at huge_at m m' fs fc fh →
  ∀ fs' fc' fh', (∀ k, fs k = fs' k) → (∀ k, fc k = fc' k) → (∀ k, fh k = fh' k) →
  agrees (mk_view (v_pages w) fs' fc' fh') m'.
Proof.
  intros (Hp & _) (Bp & Bs & Bc & Bh) fs' fc' fh' Es Ec Eh.
  split_and!; simpl; [|congruence..]. intros k Hk. by apply Bp, Hp.
Qed.

Lemma set_at_ext f g k v : (∀ j, f j = g j) → ∀ j, set_at f k v j = set_at g k v j.
Proof. intros H j. unfold set_at. by rewrite H. Qed.

Lemma set_block_ext f g k v : (∀ j, f j = g j) → ∀ j, set_block hb f k v j = set_block hb g k v j.
Proof. intros H j. unfold set_block. by rewrite H. Qed.

Hypothesis Hok : ok.

Lemma step_agrees w op w' m :
  bits ≤ 63 → agrees w m → view_step bits hb w op = Some w' →
  wp true (map_step op) (λ b m', b = true ∧ agrees w' m') m.
Proof.
  intros Hbits Ha E. pose proof Ha as (Hp & Hs & Hc & Hh). destruct op as [start n|k v|k v sc|k|k v]; simpl in *.
  - destruct ((0 <=? start) && (0 <? n) && (start + n <=? 2 ^ bits)) eqn:Eb; [|done]. injection E as <-.
    assert (2 ^ bits ≤ 2 ^ 63) by (apply Z.pow_le_mono_r; lia).
    eapply wp_mono; [apply ensure_law; lia|]. intros b m' (E1 & E2 & E3 & E4 & E5 & E6).
    assert (b = true) as -> by (destruct b; [done|]; destruct (E6 eq_refl) as [?|Hno]; [lia|by destruct Hno]).
    split; [done|]. split_and!; simpl; [|congruence..]. intros k [Hk|Hk]%orb_prop; [by apply E1, Hp|].
    apply E5; [done|]. lia.
  - destruct (v_pages w k) eqn:Ek; [|done]. injection E as <-. wp_step.
    eapply wp_mono; [by apply set_law, Hp|]. intros [] m' Hb. wp_step. split; [done|].
    eapply becomes_agrees; [done|done|by apply set_at_ext|done|done].
  - destruct (v_pages w k) eqn:Ek; [|done]. injection E as <-. wp_step.
    eapply wp_mono; [by apply set_with_sizeclass_law, Hp|]. intros [] m' Hb. wp_step. split; [done|].
    eapply becomes_agrees; [done|done|by apply set_at_ext|by apply set_at_ext|done].
  - destruct (v_pages w k) eqn:Ek; [|done]. injection E as <-. wp_step.
    eapply wp_mono; [by apply clear_sizeclass_law, Hp|]. intros [] m' Hb. wp_step. split; [done|].
    eapply becomes_agrees; [done|done|done|by apply set_at_ext|done].
  - destruct (v_pages w k) eqn:Ek; [|done]. injection E as <-. wp_step.
    eapply wp_mono; [by apply set_hugepage_law, Hp|]. intros [] m' Hb. wp_step. split; [done|].
    eapply becomes_agrees; [done|done|done|done|by apply set_block_ext].
Qed.

Lemma run_agrees ops w w' m :
  bits ≤ 63 → agrees w m → view_run bits hb w ops = Some w' →
  wp true (map_run ops) (λ b m', b = true ∧ agrees w' m') m.
Proof.
  intros Hbits. revert w m. induction ops as [|op ops IH]; intros w m Ha E; simpl in *.
  - injection E as <-. by wp_step.
  - destruct (view_step bits hb w op) as [w1|] eqn:E1; [|done]. simpl in E. wp_step.
    eapply wp_mono; [by eapply step_agrees|]. intros b m1 (-> & Ha1). by eapply IH.
Qed.

Lemma empty_agrees m : empty_map m → agrees empty_view m.
Proof.
  intros Hm. split_and!; simpl; [done|..]; intros k; apply uncovered_zero, (empty_zero m k Hm).
Qed.
End Run.

(** ** Both trees *)

Lemma address_bits cfg :
  15 ≤ kAddressBits - kPageShift cfg ≤ 45 ∧ 4 ≤ kAddressBits - kPageShift cfg ≤ 60 ∧
  kHugePageShift - kPageShift cfg ≤ kLeafBits3 (kAddressBits - kPageShift cfg) ∧
  asserts2 cfg (kAddressBits - kPageShift cfg) = true ∧
  asserts3 cfg (kAddressBits - kPageShift cfg) = true.
Proof. on_config cfg; by vm_compute. Qed.

(** C15: The two- and the three-level tree are page maps, in every configuration:
    they satisfy their static assertions, and after any sequence of Ensure, set,
    set_with_sizeclass, clear_sizeclass and set_hugepage calls in which pages are
    ensured before they are stored to, no call has failed, and each of the
    lookups returns the value stored last for its page, or for its huge page,
    and 0 if there is none.  A descriptor can be looked up for any 64-bit page
    number. *)
Theorem page_maps_correct cfg {A} (Allocator : PagemapAllocator A) (a : A) ops w :
  let bits := kAddressBits - kPageShift cfg in
  reliable Allocator →
  view_run bits (kHugePageShift - kPageShift cfg) empty_view ops = Some w →
  asserts2 cfg bits = true ∧ asserts3 cfg bits = true ∧
  (∃ m, map_run (PageMapImpl0 := PageMap2_impl cfg bits Allocator) ops (new_PageMap2 a) = Done (true, m) ∧
    reads_as (PageMapImpl0 := PageMap2_impl cfg bits Allocator) w m) ∧
  (∃ m, map_run (PageMapImpl0 := PageMap3_impl cfg bits Allocator) ops (new_PageMap3 a) = Done (true, m) ∧
    reads_as (PageMapImpl0 := PageMap3_impl cfg bits Allocator) w m).
Proof.
  intros bits Hr E. destruct (address_bits cfg) as (H2 & H3 & Hh & A2 & A3).
  split; [done|]. split; [done|]. split.
  - pose proof (PageMap2_laws cfg bits Allocator H2) as Laws.
    assert (wp true (map_run (PageMapImpl0 := PageMap2_impl cfg bits Allocator) ops)
      (λ b m', b = true ∧ agrees (HL := PageMap2_laws cfg bits Allocator H2) w m') (new_PageMap2 a)) as H.
    { eapply run_agrees; [done|unfold bits in *; lia| |done]. by apply empty_agrees. }
    apply wp_total_done in H as (b & m & Em & -> & Ha). exists m. split; [done|].
    by apply (agrees_reads (HL := PageMap2_laws cfg bits Allocator H2)).
  - assert (wp true (map_run (PageMapImpl0 := PageMap3_impl cfg bits Allocator) ops)
      (λ b m', b = true ∧ agrees (HL := PageMap3_laws cfg bits Allocator H3 Hh) w m') (new_PageMap3 a)) as H.
    { eapply run_agrees; [done|unfold bits in *; lia| |done]. by apply empty_agrees. }
    apply wp_total_done in H as (b & m & Em & -> & Ha). exists m. split; [done|].
    by apply (agrees_reads (HL := PageMap3_laws cfg bits Allocator H3 Hh)).
Qed.

(** An allocator that never fails and counts its bytes. *)
Definition counting (bytes used : Z) : bool * Z := (true, used + bytes).

Definition example_ops : list map_op :=
  [OpEnsure 1000 40000; OpSetClass 1000 77 5; OpSet 32768 88; OpSetHuge 1001 99; OpClear 1000; OpSet 1000 78].

Lemma page_maps_correct_witness :
  let cfg := mk_config Shift13 true true in
  ∃ m, map_run (PageMapImpl0 := PageMap2_impl cfg 35 counting) example_ops (new_PageMap2 0) = Done (true, m) ∧
    GetDescriptor (PageMapImpl0 := PageMap2_impl cfg 35 counting) 1000 m = Done (78, m).
Proof.
  intros cfg.
  assert (∃ w, view_run 35 8 empty_view example_ops = Some w ∧ v_span w 1000 = 78) as (w & E & Ev)
    by (eexists; split; reflexivity).
  destruct (page_maps_correct cfg counting 0 example_ops w (λ bytes a, eq_refl) E) as (_ & _ & (m & Em & Hm & _) & _).
  exists m. split; [exact Em|]. rewrite <-Ev. apply Hm. done.
Defined.

(** ** Registering spans *)

Section Register.
Context {M : Type} `{!PageMapImpl M} {bits hb : Z} {ok : Prop} {HL : PageMapLaws M bits hb ok}.

(** From [m] to [m'] the entries of the pages [first .. last] change: the span
    becomes [vs], if it is given, and the class [c]. *)
Definition range_set (m m' : M) (first last : Z) (vs : option Z) (c : Z) : Prop :=
  (∀ k, covered m' k ↔ covered m k) ∧ (∀ k, huge_at m' k = huge_at m k) ∧
  (∀ k, first ≤ k ≤ last → span_at m' k = default (span_at m k) vs ∧ class_at m' k = c) ∧
  (∀ k, ¬ (first ≤ k ≤ last) → span_at m' k = span_at m k ∧ class_at m' k = class_at m k).

Lemma for_pages_spec (body : Z → ST M unit) vs c fuel p last m :
  (∀ m k, covered m k → wp true (body k) (λ _ m', becomes covered span_at class_at huge_at m m'
    (match vs with Some v => set_at (span_at m) k v | None => span_at m end)
    (set_at (class_at m) k c) (huge_at m)) m) →
  bits ≤ 63 → 0 ≤ p ≤ last + 1 → last - p + 1 < Z.of_nat fuel →
  (∀ k, p ≤ k ≤ last → covered m k) →
  wp true (for_pages fuel p last body) (λ _ m', range_set m m' p last vs c) m.
Proof.
  intros Hbody Hbits. revert p m. induction fuel as [|fuel IH]; intros p m Hp Hf Hc; [lia|]. simpl.
  destruct (Z.leb_spec p last) as [Hle|Hgt].
  2: { wp_step. split_and!; [done|done|lia|done]. }
  wp_step. eapply wp_mono; [apply Hbody, Hc; lia|]. intros [] m1 (Bp & Bs & Bc & Bh).
  pose proof (covered_page m p (Hc p ltac:(lia))) as Hpb.
  assert (2 ^ bits ≤ 2 ^ 63) by (apply Z.pow_le_mono_r; lia).
  rewrite (wrap_small 64) by (unfold is_word; lia).
  eapply wp_mono; [apply IH; [lia|lia|]|].
  { intros k Hk. apply Bp, Hc. lia. }
  intros [] m2 (Rp & Rh & Rin & Rout). split_and!.
  - intros k. by rewrite Rp, Bp.
  - intros k. by rewrite Rh, Bh.
  - intros k Hk. destruct (decide (k = p)) as [->|Hne].
    + destruct (Rout p ltac:(lia)) as [-> ->]. rewrite Bs, Bc.
      destruct vs; unfold set_at; by rewrite Z.eqb_refl.
    + destruct (Rin k ltac:(lia)) as [-> ->]. rewrite Bs. split; [|done].
      destruct vs; [done|]. done.
  - intros k Hk. destruct (Rout k ltac:(lia)) as [-> ->]. rewrite Bs, Bc.
    assert (k ≠ p) by lia. destruct vs; unfold set_at; by replace (k =? p) with false by lia.
Qed.

(** Registering a span for a size class makes every page of the span map to
    the span and to the class, and unregistering it makes the class 0 again; no
    entry of any other page changes, nor any huge-page entry.  Both calls
    succeed for spans in use whose first page maps to them and whose pages are
    covered. *)
Theorem register_size_class_correct span sp sc (m : M) :
  bits ≤ 63 → location_ sp = IN_USE → 0 ≤ first_page_ sp → 0 < num_pages_ sp →
  (∀ k, first_page_ sp ≤ k < first_page_ sp + num_pages_ sp → covered m k) →
  span_at m (first_page_ sp) = span →
  let first := first_page_ sp in
  let last := first_page_ sp + num_pages_ sp - 1 in
  ∃ m' m'', RegisterSizeClass span sp sc m = Done (tt, m') ∧
    range_set m m' first last (Some span) (wrap 8 sc) ∧
    UnregisterSizeClass span sp m' = Done (tt, m'') ∧
    range_set m' m'' first last None 0.
Proof.
  intros Hbits Hloc Hf Hn Hc Hsp first last.
  pose proof (covered_page m _ (Hc first ltac:(unfold first; lia))) as Hfb.
  pose proof (covered_page m _ (Hc last ltac:(unfold last; lia))) as Hlb.
  assert (2 ^ bits ≤ 2 ^ 63) by (apply Z.pow_le_mono_r; lia).
  assert (last_page sp = last) as El.
  { unfold last_page. rewrite (wrap_small 64 (first_page_ sp + num_pages_ sp)), (wrap_small 64);
      unfold is_word, first, last in *; lia. }
  assert (wp true (RegisterSizeClass span sp sc)
    (λ _ m', range_set m m' first last (Some span) (wrap 8 sc)) m) as Hreg.
  { unfold RegisterSizeClass, location, GetDescriptor, first_page, num_pages. rewrite Hloc, El.
    wp_step. wp_step; [done|]. wp_step. unfold wp at 1. rewrite get_law by (unfold is_word, first in *; lia).
    wp_step. wp_step; [lia|]. apply for_pages_spec; [|lia|unfold first, last; lia|unfold last; lia|].
    - intros m0 k Hk. by apply set_with_sizeclass_law.
    - intros k Hk. apply Hc. unfold last in *. lia. }
  apply wp_total_done in Hreg as ([] & m' & Ereg & Hrs). pose proof Hrs as (Rp & Rh & Rin & Rout).
  assert (wp true (UnregisterSizeClass span sp) (λ _ m'', range_set m' m'' first last None 0) m') as Hun.
  { unfold UnregisterSizeClass, location, GetDescriptor, first_page, num_pages. rewrite Hloc, El.
    wp_step. wp_step; [done|]. wp_step. unfold wp at 1. rewrite get_law by (unfold is_word, first in *; lia).
    wp_step. wp_step.
    { destruct (Rin first) as [E1 _]; [unfold first, last in *; lia|]. unfold first in E1.
      rewrite E1. simpl. lia. }
    apply for_pages_spec; [|lia|unfold first, last; lia|unfold last; lia|].
    - intros m0 k Hk. by apply clear_sizeclass_law.
    - intros k Hk. apply Rp, Hc. unfold last in *. lia. }
  apply wp_total_done in Hun as ([] & m'' & Eun & Hrs').
  exists m', m''. done.
Qed.
End Register.

(** A span of three pages, in a map of one leaf. *)
Definition example_map : PageMap2 (A := Z) := mk_map2 {[0 := mk_leaf ∅ {[5 := 77]} ∅]} 0 0.
Definition example_span3 : Span := mk_span 0 0 0 0 IN_USE false (UStack 0) 5 3.

Lemma register_size_class_correct_witness :
  let impl := PageMap2_impl (mk_config Shift13 true true) 35 counting in
  ∃ m' m'', RegisterSizeClass 77 example_span3 9 example_map = Done (tt, m') ∧
    UnregisterSizeClass 77 example_span3 m' = Done (tt, m'').
Proof.
  intros impl. assert (15 ≤ 35 ≤ 45) as HB by lia.
  pose proof (register_size_class_correct (HL := PageMap2_laws (mk_config Shift13 true true) 35 counting HB)
    77 example_span3 9 example_map) as H.
  destruct H as (m' & m'' & E1 & _ & E2 & _).
  - done.
  - done.
  - done.
  - done.
  - intros k Hk. change (5 ≤ k < 8) in Hk.
    assert (k = 5 ∨ k = 6 ∨ k = 7) as [-> | [-> | ->]] by lia; eexists; reflexivity.
  - reflexivity.
  - exists m', m''. split; [exact E1|exact E2].
Defined.

(** ** The root of the page map *)

(** [MapRootWithSmallPages] advises whole huge pages inside of the root only.  It
    skips the first huge page even if the root starts on a huge page. *)
Theorem map_root_small_pages {M} `{!PageMapImpl M} begin_ r len :
  0 ≤ begin_ → begin_ + kHugePageSize < 2 ^ 64 → 0 ≤ map_RootSize (M := M) → begin_ + map_RootSize < 2 ^ 64 →
  MapRootWithSmallPages begin_ = Some (r, len) →
  r mod kHugePageSize = 0 ∧ len mod kHugePageSize = 0 ∧ 0 < len ∧
  begin_ < r ≤ begin_ + kHugePageSize ∧ r + len ≤ begin_ + map_RootSize ∧
  (begin_ mod kHugePageSize = 0 → r = begin_ + kHugePageSize).
Proof.
  intros Hb Hh Hs He. unfold MapRootWithSmallPages.
  assert (∀ x, is_word 64 x → Z.land x (wnot 64 (kHugePageSize - 1)) = x - x mod kHugePageSize) as Hmask.
  { intros x Hx. change kHugePageSize with (2 ^ 21). by apply land_wnot_mask. }
  rewrite !(wrap_small 64) by (unfold is_word; change kHugePageSize with 2097152 in *; lia).
  rewrite !Hmask by (unfold is_word; change kHugePageSize with 2097152 in *; lia).
  change kHugePageSize with 2097152 in *.
  set (e := begin_ + map_RootSize) in *. set (b := begin_ + 2097152) in *.
  destruct (Z.ltb_spec (b - b mod 2097152) (e - e mod 2097152)); [|done]. intros [= <- <-].
  pose proof (Z.div_mod b 2097152). pose proof (Z.mod_pos_bound b 2097152).
  pose proof (Z.div_mod e 2097152). pose proof (Z.mod_pos_bound e 2097152).
  split_and!.
  - replace (b - b mod 2097152) with ((b / 2097152) * 2097152) by lia. by apply Z.mod_mul.
  - replace (_ - _) with ((e / 2097152 - b / 2097152) * 2097152) by lia. by apply Z.mod_mul.
  - lia.
  - unfold b in *. lia.
  - unfold b in *. lia.
  - lia.
  - intros Hz. assert (b mod 2097152 = 0) as ->; [|lia].
    unfold b. rewrite <-Zplus_mod_idemp_l, Hz. done.
Qed.
