(* ===== verification/TcLinkedList.v ===== *)
(** * tcmalloc: linked lists

    internal/linked_list.h: the singly linked lists that run through free memory
    ([SLL_*] and [LinkedList]) and the doubly linked rings of [TList].  Using a
    null pointer and a failed assertion are [Fault]. *)

From S2P Require Import Prelude.

(** ** Singly linked lists *)

Section SLL.

(** The list and the memory: the word at the address of each element.  0 is the
    null pointer. *)
Record LinkedList := mk_ll { list_ : Z; length_ : Z; words : gmap Z Z }.

Definition ll_set_list (l : Z) : ST LinkedList unit :=
  modify (λ s, mk_ll l (length_ s) (words s)).
Definition ll_set_length (n : Z) : ST LinkedList unit :=
  modify (λ s, mk_ll (list_ s) (u32 n) (words s)).

Definition SLL_Next (t : Z) : ST LinkedList Z :=
  require (negb (t =? 0));;
  gets (λ s, default 0 (words s !! t)).

Definition SLL_SetNext (t n : Z) : ST LinkedList unit :=
  require (negb (t =? 0));;
  modify (λ s, mk_ll (list_ s) (length_ s) (<[t := n]> (words s))).

(** [SLL_Push] and [SLL_Pop] of [&list_]. *)
Definition SLL_Push (element : Z) : ST LinkedList unit :=
  l ← gets list_;
  SLL_SetNext element l;;
  ll_set_list element.

Definition SLL_Pop : ST LinkedList Z :=
  result ← gets list_;
  next ← SLL_Next result;
  ll_set_list next;;
  mret result.

Definition ll_Init : ST LinkedList unit := ll_set_list 0;; ll_set_length 0.
Definition ll_length : ST LinkedList Z := gets length_.
Definition ll_empty : ST LinkedList bool := gets (λ s, list_ s =? 0).

Definition ll_Push (ptr : Z) : ST LinkedList unit :=
  SLL_Push ptr;;
  n ← gets length_;
  ll_set_length (n + 1).

(** [TryPop]: the object, if there is one. *)
Definition TryPop : ST LinkedList (option Z) :=
  obj ← gets list_;
  if obj =? 0 then mret None
  else
    next ← SLL_Next obj;
    ll_set_list next;;
    n ← gets length_;
    ll_set_length (n - 1);;
    mret (Some obj).

(** The loop of [PushBatch]: element [i] is linked to element [i + 1]. *)
Fixpoint link_batch (batch : list Z) : ST LinkedList unit :=
  match batch with
  | x :: (y :: _) as rest => SLL_SetNext x y;; link_batch rest
  | _ => mret tt
  end.

(** [PushBatch(N, batch)]; [N] is the length of the list. *)
Definition PushBatch (batch : list Z) : ST LinkedList unit :=
  require (0 <? Z.of_nat (length batch));;
  link_batch batch;;
  l ← gets list_;
  SLL_SetNext (default 0 (last batch)) l;;
  ll_set_list (default 0 (head batch));;
  n ← gets length_;
  ll_set_length (n + Z.of_nat (length batch)).

Fixpoint pop_batch (n : nat) (p : Z) : ST LinkedList (list Z * Z) :=
  match n with
  | O => mret ([], p)
  | S n =>
      next ← SLL_Next p;
      r ← pop_batch n next;
      mret (p :: fst r, snd r)
  end.

Definition PopBatch (N : Z) : ST LinkedList (list Z) :=
  p ← gets list_;
  r ← pop_batch (Z.to_nat N) p;
  ll_set_list (snd r);;
  n ← gets length_;
  require (N <=? n);;
  ll_set_length (n - N);;
  mret (fst r).
End SLL.

(** ** Rings *)

(** [next_] and [prev_] of an element or a list head. *)
Record Elem (E : Type) := mk_elem { next_ : option E; prev_ : option E }.
Arguments mk_elem {_} _ _.
Arguments next_ {_} _.
Arguments prev_ {_} _.

Abbreviation links E := (gmap E (Elem E)).

Section TList.
Context {E : Type} `{Countable E}.

Definition get_next (e : E) : ST (links E) (option E) :=
  x ← gets (λ s, s !! e); x ← from_opt x; mret (next_ x).
Definition get_prev (e : E) : ST (links E) (option E) :=
  x ← gets (λ s, s !! e); x ← from_opt x; mret (prev_ x).
Definition set_next (e : E) (v : option E) : ST (links E) unit :=
  x ← gets (λ s, s !! e); x ← from_opt x; modify (λ s, <[e := mk_elem v (prev_ x)]> s).
Definition set_prev (e : E) (v : option E) : ST (links E) unit :=
  x ← gets (λ s, s !! e); x ← from_opt x; modify (λ s, <[e := mk_elem (next_ x) v]> s).

(** [Elem::remove], with the stores of debug builds. *)
Definition elem_remove (this : E) : ST (links E) bool :=
  next ← get_next this;
  prev ← get_prev this;
  p ← from_opt prev;
  pn ← get_next p;
  require (bool_decide (pn = Some this));;
  set_next p next;;
  n ← from_opt next;
  np ← get_prev n;
  require (bool_decide (np = Some this));;
  set_prev n prev;;
  set_prev this None;;
  set_next this None;;
  mret (bool_decide (next = prev)).

Definition elem_prepend (this item : E) : ST (links E) unit :=
  prev ← get_prev this;
  set_prev item prev;;
  set_next item (Some this);;
  p ← from_opt prev;
  set_next p (Some item);;
  set_prev this (Some item).

Definition elem_append (this item : E) : ST (links E) unit :=
  next ← get_next this;
  set_next item next;;
  set_prev item (Some this);;
  n ← from_opt next;
  set_prev n (Some item);;
  set_next this (Some item).

(** The operations of the list with head [h]. *)
Definition tl_Init (h : E) : ST (links E) unit :=
  modify (λ s, <[h := mk_elem (Some h) (Some h)]> s).

Definition tl_empty (h : E) : ST (links E) bool :=
  n ← get_next h; mret (bool_decide (n = Some h)).

Fixpoint tl_length_loop (fuel : nat) (h e : E) (result : Z) : ST (links E) Z :=
  match fuel with
  | O => out_of_fuel
  | S fuel =>
      if bool_decide (e = h) then mret result
      else
        next ← get_next e;
        e ← from_opt next;
        tl_length_loop fuel h e (u64 (result + 1))
  end.
Definition tl_length (fuel : nat) (h : E) : ST (links E) Z :=
  next ← get_next h;
  e ← from_opt next;
  tl_length_loop fuel h e 0.

Definition tl_first (h : E) : ST (links E) E :=
  e ← tl_empty h;
  require (negb e);;
  n ← get_next h;
  from_opt n.
Definition tl_last (h : E) : ST (links E) E :=
  e ← tl_empty h;
  require (negb e);;
  p ← get_prev h;
  from_opt p.

Definition tl_prepend (h item : E) : ST (links E) unit := elem_append h item.
Definition tl_append (h item : E) : ST (links E) unit := elem_prepend h item.
Definition tl_remove (item : E) : ST (links E) bool := elem_remove item.

(** Iteration from [begin()] to [end()]: the elements that are visited. *)
Fixpoint iterate (fuel : nat) (it end_ : E) : ST (links E) (list E) :=
  match fuel with
  | O => out_of_fuel
  | S fuel =>
      if bool_decide (it = end_) then mret []
      else
        next ← get_next it;
        n ← from_opt next;
        rest ← iterate fuel n end_;
        mret (it :: rest)
  end.
Definition tl_elements (fuel : nat) (h : E) : ST (links E) (list E) :=
  next ← get_next h;
  e ← from_opt next;
  iterate fuel e h.
End TList.
