(* ===== verification/TcLinkedListCorrect.v ===== *)
(** * tcmalloc: correctness of linked lists

    [LinkedList] is a stack of addresses.  The rings of [TList] are sequences:
    the operations on one list do not change the others, so that a client can
    treat the lists as a map from heads to sequences. *)

From S2P Require Import Prelude.
From S2P Require Import TcLinkedList.

(** ** Singly linked lists *)

Fixpoint sll (w : gmap Z Z) (l : list Z) (p : Z) : Prop :=
  match l with
  | [] => p = 0
  | x :: l => p = x ∧ x ≠ 0 ∧ sll w l (default 0 (w !! x))
  end.

(** The list holds [l], the next element to pop first. *)
Record stack (l : list Z) (s : LinkedList) : Prop := {
  st_sll : sll (words s) l (list_ s);
  st_length : length_ s = u32 (Z.of_nat (length l));
  st_nodup : NoDup l;
}.

Lemma sll_frame w l p x v : x ∉ l → sll w l p → sll (<[x := v]> w) l p.
Proof.
  revert p. induction l as [|y l IH]; intros p Hx; simpl; [done|].
  intros (-> & Hy & Hl). split_and!; [done|done|].
  rewrite lookup_insert_ne by set_solver. apply IH; [set_solver|done].
Qed.

Lemma sll_ext w w' l p : (∀ a, a ∈ l → w !! a = w' !! a) → sll w l p → sll w' l p.
Proof.
  revert p. induction l as [|y l IH]; intros p He; simpl; [done|].
  intros (-> & Hy & Hl). split_and!; [done|done|]. rewrite <-He by left.
  apply IH; [|done]. intros a Ha. apply He. by right.
Qed.

Lemma sll_null w l p : sll w l p → p = 0 ↔ l = [].
Proof. destruct l as [|x l]; simpl; [done|]. intros (-> & Hx & _). by split. Qed.

Lemma u32_succ n : u32 (u32 n + 1) = u32 (n + 1).
Proof. unfold wrap. by rewrite Zplus_mod_idemp_l. Qed.

Lemma SLL_Next_spec t (Q : Z → LinkedList → Prop) s :
  t ≠ 0 → Q (default 0 (words s !! t)) s → wp true (SLL_Next t) Q s.
Proof. intros Ht HQ. unfold SLL_Next. wp_step. wp_step; [lia|]. by wp_step. Qed.

Lemma SLL_SetNext_spec t n (Q : unit → LinkedList → Prop) s :
  t ≠ 0 → Q tt (mk_ll (list_ s) (length_ s) (<[t := n]> (words s))) → wp true (SLL_SetNext t n) Q s.
Proof. intros Ht HQ. unfold SLL_SetNext. wp_step. wp_step; [lia|]. by wp_step. Qed.

Lemma ll_Push_spec x l s :
  stack l s → x ≠ 0 → x ∉ l → wp true (ll_Push x) (λ _ s', stack (x :: l) s') s.
Proof.
  intros [Hs Hn Hnd] Hx Hl. unfold ll_Push, SLL_Push, ll_set_list, ll_set_length.
  do 4 wp_step. apply SLL_SetNext_spec; [done|]. do 4 wp_step. split; simpl.
  - split_and!; [done|done|]. rewrite lookup_insert_eq. by apply sll_frame.
  - rewrite Hn, u32_succ. f_equal. lia.
  - by apply NoDup_cons.
Qed.

Lemma TryPop_spec l s :
  stack l s → wp true TryPop (λ r s', r = head l ∧ stack (tail l) s') s.
Proof.
  intros [Hs Hn Hnd]. unfold TryPop, ll_set_list, ll_set_length. do 2 wp_step.
  destruct (Z.eqb_spec (list_ s) 0) as [E|E].
  - wp_step. apply (sll_null _ _ _ Hs) in E as ->. done.
  - destruct l as [|x l]; [done|]. destruct Hs as (Ex & Hx & Hs).
    apply NoDup_cons in Hnd as [_ Hnd]. rewrite Ex in *.
    wp_step. apply SLL_Next_spec; [done|]. do 6 wp_step. wp_step. split; [done|]. split; simpl; [done| |done].
    rewrite Hn. unfold wrap. rewrite Zminus_mod_idemp_l. f_equal. simpl. lia.
Qed.

(** After [link_batch], the elements are linked in order. *)
Lemma link_batch_spec batch s :
  NoDup batch → 0 ∉ batch → batch ≠ [] →
  wp true (link_batch batch) (λ _ s', list_ s' = list_ s ∧ length_ s' = length_ s ∧
    (∀ a, a ∉ batch → words s' !! a = words s !! a) ∧
    (∀ l p, last batch ≠ Some p → sll (<[default 0 (last batch) := p]> (words s')) l p →
      sll (<[default 0 (last batch) := p]> (words s')) (batch ++ l) (default 0 (head batch)))) s.
Proof.
  revert s. induction batch as [|x batch IH]; intros s Hnd Hz Hne; [done|].
  destruct batch as [|y batch].
  - simpl. wp_step. split_and!; [done|done|done|]. intros l p Hp Hs. split_and!; [done|set_solver|].
    by rewrite lookup_insert_eq.
  - change (link_batch (x :: y :: batch)) with (SLL_SetNext x y;; link_batch (y :: batch)).
    apply NoDup_cons in Hnd as [Hx Hnd]. apply not_elem_of_cons in Hz as [Hx0 Hz].
    wp_step. apply SLL_SetNext_spec; [done|]. eapply wp_mono; [by apply IH|].
    intros [] s' (H1 & H2 & H3 & H4). cbn [words list_ length_] in *. split_and!; [done|done| |].
    + intros a [Hax Ha]%not_elem_of_cons. rewrite H3 by done. by rewrite lookup_insert_ne.
    + intros l p Hp Hs. change (last (x :: y :: batch)) with (last (y :: batch)) in *.
      specialize (H4 l p Hp Hs). simpl app. simpl head. split_and!; [done|done|].
      assert (default 0 (last (y :: batch)) ≠ x) as Hlx.
      { destruct (last (y :: batch)) as [z|] eqn:Ez; simpl; [|done].
        apply last_Some_elem_of in Ez. by intros ->. }
      rewrite lookup_insert_ne by done. rewrite H3 by done. rewrite lookup_insert_eq. exact H4.
Qed.

Lemma PushBatch_spec batch l s :
  stack l s → batch ≠ [] → 0 ∉ batch → NoDup (batch ++ l) →
  wp true (PushBatch batch) (λ _ s', stack (batch ++ l) s') s.
Proof.
  intros [Hs Hn Hnl] Hne Hz Hnd. unfold PushBatch, ll_set_list, ll_set_length.
  apply NoDup_app in Hnd as Hnd'. destruct Hnd' as (Hb & Hdis & _).
  wp_step. wp_step; [by destruct batch|]. wp_step.
  eapply wp_mono; [by apply link_batch_spec|]. intros [] s' (H1 & H2 & H3 & H4).
  destruct (last batch) as [z|] eqn:Ez; [|by apply last_None in Ez].
  pose proof (last_Some_elem_of _ _ Ez) as Hz'. simpl default in *.
  do 3 wp_step. apply SLL_SetNext_spec; [by intros ->|]. do 4 wp_step. wp_step. split; simpl; [| |done].
  - rewrite H1. apply H4.
    + intros [= ->]. destruct l as [|x l]; simpl in Hs; [by rewrite Hs in Hz'|].
      destruct Hs as (Ex & _). rewrite Ex in Hz'. apply (Hdis x Hz'). left.
    + apply sll_frame; [by apply Hdis|]. eapply sll_ext; [|done]. intros a Ha. symmetry. apply H3.
      intros Hab. by apply (Hdis a).
  - rewrite H2, Hn, length_app. unfold wrap. rewrite Zplus_mod_idemp_l. f_equal. lia.
Qed.

Lemma pop_batch_spec n l p s :
  sll (words s) l p → (n ≤ length l)%nat →
  wp true (pop_batch n p) (λ r s', s' = s ∧ fst r = take n l ∧ sll (words s) (drop n l) (snd r)) s.
Proof.
  revert l p. induction n as [|n IH]; intros l p Hs Hl; simpl; [by wp_step|].
  destruct l as [|x l]; simpl in Hl; [lia|]. destruct Hs as (-> & Hx & Hs).
  wp_step. apply SLL_Next_spec; [done|]. wp_step. eapply wp_mono; [apply (IH l); [done|lia]|].
  intros [r q] s' (-> & E & Hq). wp_step. simpl in *. split_and!; [done|by rewrite E|done].
Qed.

Lemma PopBatch_spec N l s :
  stack l s → 0 ≤ N ≤ Z.of_nat (length l) → Z.of_nat (length l) < 2 ^ 32 →
  wp true (PopBatch N) (λ ps s', ps = take (Z.to_nat N) l ∧ stack (drop (Z.to_nat N) l) s') s.
Proof.
  intros [Hs Hn Hnd] HN Hl. rewrite wrap_small in Hn by (unfold is_word; lia).
  unfold PopBatch, ll_set_list, ll_set_length. do 3 wp_step.
  eapply wp_mono; [apply (pop_batch_spec _ l); [done|lia]|]. intros [ps q] s' (-> & E & Hq). simpl in *.
  do 4 wp_step. simpl. wp_step. wp_step; [lia|]. do 3 wp_step. split; [done|]. split; simpl; [done| |].
  - rewrite Hn, length_drop. f_equal. lia.
  - eapply sublist_NoDup; [done|apply sublist_drop].
Qed.

(** ** Rings *)

Section Rings.
Context {E : Type} `{Countable E}.
Implicit Types (s : links E) (a b h x z : E) (l : list E).

Definition nxt s a : option E := s !! a ≫= next_.
Definition prv s a : option E := s !! a ≫= prev_.
Definition linked s a b : Prop := nxt s a = Some b ∧ prv s b = Some a.

(** The elements [l] are linked in order between [a] and [z]. *)
Fixpoint path s a l z : Prop :=
  match l with
  | [] => linked s a z
  | x :: l => linked s a x ∧ path s x l z
  end.

(** The links are those of the lists [c]: the contents of the list of each head. *)
Record rings (c : gmap E (list E)) s : Prop := {
  r_path h l : c !! h = Some l → path s h l h;
  r_nodup h l : c !! h = Some l → NoDup l;
  r_item h l x : c !! h = Some l → x ∈ l → c !! x = None;
  r_apart h1 l1 h2 l2 x : c !! h1 = Some l1 → c !! h2 = Some l2 → x ∈ l1 → x ∈ l2 → h1 = h2;
}.

(** The elements that are on no list and are no list heads. *)
Definition off_lists (c : gmap E (list E)) x : Prop :=
  c !! x = None ∧ ∀ h l, c !! h = Some l → x ∉ l.

Lemma path_ext s s' a l z :
  (∀ x, x ∈ a :: l → nxt s' x = nxt s x) → (∀ x, x ∈ l ++ [z] → prv s' x = prv s x) →
  path s a l z → path s' a l z.
Proof.
  revert a. induction l as [|y l IH]; intros a Hn Hp; simpl.
  - intros [H1 H2]. split; [rewrite Hn by left; done|rewrite Hp by left; done].
  - intros [[H1 H2] Hl]. split; [split; [rewrite Hn by left; done|rewrite Hp by left; done]|].
    apply IH; [| |done].
    + intros x Hx. apply Hn. by right.
    + intros x Hx. apply Hp. by right.
Qed.

Lemma path_app s a l1 x l2 z : path s a (l1 ++ x :: l2) z ↔ path s a l1 x ∧ path s x l2 z.
Proof. revert a. induction l1 as [|y l1 IH]; intros a; simpl; [done|]. rewrite IH. tauto. Qed.

(** The first and the last link of a path. *)
Lemma path_first s a l z : path s a l z → linked s a (default z (head l)).
Proof. destruct l; simpl; [done|]. by intros [? _]. Qed.

Lemma path_last s a l z : path s a l z → linked s (default a (last l)) z.
Proof.
  destruct l as [|y l] using rev_ind; simpl; [done|]. rewrite last_snoc. simpl.
  rewrite path_app. by intros [_ ?].
Qed.

(** ** Single steps *)

Lemma get_next_spec a b (Q : option E → links E → Prop) s :
  nxt s a = Some b → Q (Some b) s → wp true (get_next a) Q s.
Proof.
  unfold nxt. intros (x & Hx & Hb)%bind_Some HQ. unfold get_next. do 2 wp_step. rewrite Hx.
  wp_step. wp_step; [done|]. wp_step. by rewrite Hb.
Qed.

Lemma get_prev_spec a b (Q : option E → links E → Prop) s :
  prv s a = Some b → Q (Some b) s → wp true (get_prev a) Q s.
Proof.
  unfold prv. intros (x & Hx & Hb)%bind_Some HQ. unfold get_prev. do 2 wp_step. rewrite Hx.
  wp_step. wp_step; [done|]. wp_step. by rewrite Hb.
Qed.

(** A store changes one link. *)
Definition with_next s s' a v : Prop :=
  dom s' = dom s ∧ (∀ x, nxt s' x = if decide (x = a) then v else nxt s x) ∧ (∀ x, prv s' x = prv s x).
Definition with_prev s s' a v : Prop :=
  dom s' = dom s ∧ (∀ x, prv s' x = if decide (x = a) then v else prv s x) ∧ (∀ x, nxt s' x = nxt s x).

Lemma set_next_spec a v (Q : unit → links E → Prop) s :
  a ∈ dom s → (∀ s', with_next s s' a v → Q tt s') → wp true (set_next a v) Q s.
Proof.
  intros [x Hx]%elem_of_dom HQ. unfold set_next. do 2 wp_step. rewrite Hx. wp_step. wp_step; [done|].
  wp_step. apply HQ. split_and!.
  - rewrite dom_insert_L. apply elem_of_dom_2 in Hx. set_solver.
  - intros y. unfold nxt. destruct (decide (y = a)) as [->|Hne].
    + by rewrite lookup_insert_eq.
    + by rewrite lookup_insert_ne.
  - intros y. unfold prv. destruct (decide (y = a)) as [->|Hne].
    + by rewrite lookup_insert_eq, Hx.
    + by rewrite lookup_insert_ne.
Qed.

Lemma set_prev_spec a v (Q : unit → links E → Prop) s :
  a ∈ dom s → (∀ s', with_prev s s' a v → Q tt s') → wp true (set_prev a v) Q s.
Proof.
  intros [x Hx]%elem_of_dom HQ. unfold set_prev. do 2 wp_step. rewrite Hx. wp_step. wp_step; [done|].
  wp_step. apply HQ. split_and!.
  - rewrite dom_insert_L. apply elem_of_dom_2 in Hx. set_solver.
  - intros y. unfold prv. destruct (decide (y = a)) as [->|Hne].
    + by rewrite lookup_insert_eq.
    + by rewrite lookup_insert_ne.
  - intros y. unfold nxt. destruct (decide (y = a)) as [->|Hne].
    + by rewrite lookup_insert_eq, Hx.
    + by rewrite lookup_insert_ne.
Qed.

Lemma nxt_dom s a b : nxt s a = Some b → a ∈ dom s.
Proof. unfold nxt. intros (x & Hx & _)%bind_Some. by apply elem_of_dom_2 in Hx. Qed.

Lemma prv_dom s a b : prv s a = Some b → a ∈ dom s.
Proof. unfold prv. intros (x & Hx & _)%bind_Some. by apply elem_of_dom_2 in Hx. Qed.

(** ** One list changes *)

Lemma rings_update c s s' h l l' :
  rings c s → c !! h = Some l → path s' h l' h → NoDup l' →
  (∀ y, y ∈ l' → y ∈ l ∨ off_lists c y) →
  (∀ y, y ≠ h → y ∉ l → ¬ off_lists c y → nxt s' y = nxt s y ∧ prv s' y = prv s y) →
  rings (<[h := l']> c) s'.
Proof.
  intros [Rp Rn Ri Ra] Hh Hp Hnd Hin Hfr.
  assert (∀ h2 l2 y, h2 ≠ h → c !! h2 = Some l2 → y ∈ h2 :: l2 → y ≠ h ∧ y ∉ l ∧ ¬ off_lists c y) as Hoth.
  { intros h2 l2 y Hne H2 [->|Hy]%elem_of_cons.
    - split_and!; [done| |intros [? _]; congruence]. intros Hl. pose proof (Ri _ _ _ Hh Hl). congruence.
    - split_and!.
      + intros ->. pose proof (Ri _ _ _ H2 Hy). congruence.
      + intros Hl. by apply Hne, (Ra h2 l2 h l y).
      + intros [_ Hoff]. by apply (Hoff h2 l2). }
  split.
  - intros h2 l2 [[<- <-]|[Hne H2]]%lookup_insert_Some; [done|].
    apply (path_ext s); [| |by apply Rp].
    + intros y Hy. destruct (Hoth h2 l2 y) as (? & ? & ?); [done..|]. by apply Hfr.
    + intros y Hy. destruct (Hoth h2 l2 y) as (? & ? & ?); [done|done|set_solver|]. by apply Hfr.
  - intros h2 l2 [[<- <-]|[Hne H2]]%lookup_insert_Some; [done|by eapply Rn].
  - intros h2 l2 x [[<- <-]|[Hne H2]]%lookup_insert_Some Hx.
    + apply Hin in Hx as [Hx|[Hx Hoff]].
      * pose proof (Ri _ _ _ Hh Hx). rewrite lookup_insert_ne by congruence. done.
      * rewrite lookup_insert_ne by congruence. done.
    + pose proof (Ri _ _ _ H2 Hx). rewrite lookup_insert_ne by congruence. done.
  - intros h1 l1 h2 l2 x. rewrite !lookup_insert_Some.
    intros [[<- <-]|[Hne1 H1]] [[<- <-]|[Hne2 H2]] Hx1 Hx2; [done| | |by eapply Ra].
    + apply Hin in Hx1 as [Hx1|[_ Hoff]]; [by eapply Ra|by apply Hoff in H2].
    + apply Hin in Hx2 as [Hx2|[_ Hoff]]; [by eapply Ra|by apply Hoff in H1].
Qed.

Lemma tl_Init_spec c h s (Q : unit → links E → Prop) :
  rings c s → off_lists c h →
  (∀ s', rings (<[h := []]> c) s' → dom s' = {[h]} ∪ dom s → Q tt s') → wp true (tl_Init h) Q s.
Proof.
  intros [Rp Rn Ri Ra] [Hh Hoff] HQ. unfold tl_Init. wp_step. apply HQ; [|apply dom_insert_L].
  assert (∀ y, y ≠ h → nxt (<[h := mk_elem (Some h) (Some h)]> s) y = nxt s y ∧
    prv (<[h := mk_elem (Some h) (Some h)]> s) y = prv s y) as Hfr.
  { intros y Hy. unfold nxt, prv. by rewrite lookup_insert_ne. }
  split.
  - intros h2 l2 [[<- <-]|[Hne H2]]%lookup_insert_Some.
    + simpl. unfold linked, nxt, prv. by rewrite lookup_insert_eq.
    + apply (path_ext s); [| |by apply Rp].
      * intros y [->|Hy]%elem_of_cons; [by apply Hfr|]. apply Hfr. intros ->. by apply (Hoff h2 l2).
      * intros y [Hy| ->%list_elem_of_singleton]%elem_of_app; [|by apply Hfr].
        apply Hfr. intros ->. by apply (Hoff h2 l2).
  - intros h2 l2 [[<- <-]|[Hne H2]]%lookup_insert_Some; [apply NoDup_nil_2|by eapply Rn].
  - intros h2 l2 x [[<- <-]|[Hne H2]]%lookup_insert_Some Hx; [by apply not_elem_of_nil in Hx|].
    rewrite lookup_insert_ne; [by eapply Ri|]. intros ->. by apply (Hoff h2 l2).
  - intros h1 l1 h2 l2 x. rewrite !lookup_insert_Some.
    intros [[<- <-]|[Hne1 H1]] [[<- <-]|[Hne2 H2]] Hx1 Hx2; [done| | |by eapply Ra].
    + by apply not_elem_of_nil in Hx1.
    + by apply not_elem_of_nil in Hx2.
Qed.

Section Lists.
Context (c : gmap E (list E)) (s : links E) (R : rings c s).

Lemma head_off h l x : c !! h = Some l → off_lists c x → x ≠ h ∧ x ∉ l.
Proof. intros Hh [Hn Ho]. split; [congruence|by eapply Ho]. Qed.

Lemma head_item h l : c !! h = Some l → h ∉ l.
Proof. intros Hh Hl. pose proof (r_item _ _ R _ _ _ Hh Hl). congruence. Qed.

(** The neighbours of the head. *)
Lemma ring_first h l : c !! h = Some l →
  linked s h (default h (head l)) ∧ default h (head l) ∈ h :: l.
Proof.
  intros Hh. split; [by apply path_first, R|]. destruct l; [left|right; left].
Qed.

Lemma ring_last h l : c !! h = Some l →
  linked s (default h (last l)) h ∧ default h (last l) ∈ h :: l.
Proof.
  intros Hh. split; [by apply path_last, R|].
  destruct (last l) as [y|] eqn:Ey; [right; by apply last_Some_elem_of|left].
Qed.

Lemma tl_prepend_spec h l x (Q : unit → links E → Prop) :
  c !! h = Some l → off_lists c x → x ∈ dom s →
  (∀ s', rings (<[h := x :: l]> c) s' → dom s' = dom s → Q tt s') → wp true (tl_prepend h x) Q s.
Proof.
  intros Hh Hx Hd HQ. destruct (head_off h l x Hh Hx) as [Hxh Hxl].
  pose proof (head_item h l Hh) as Hhl. pose proof (r_nodup _ _ R _ _ Hh) as Hnd.
  destruct (ring_first h l Hh) as [[Hn Hp] Hin]. pose proof (r_path _ _ R _ _ Hh) as Hpath.
  set (n := default h (head l)) in *.
  assert (x ≠ n) as Hxn by (intros ->; set_solver).
  unfold tl_prepend, elem_append. wp_step. eapply get_next_spec; [done|].
  wp_step. apply set_next_spec; [done|]. intros s1 (D1 & N1 & P1).
  wp_step. apply set_prev_spec; [by rewrite D1|]. intros s2 (D2 & P2 & N2).
  wp_step. wp_step; [done|]. wp_step.
  apply set_prev_spec; [rewrite D2, D1; by eapply prv_dom|]. intros s3 (D3 & P3 & N3).
  apply set_next_spec; [rewrite D3, D2, D1; by eapply nxt_dom|]. intros s4 (D4 & N4 & P4).
  assert (∀ y, nxt s4 y = if decide (y = h) then Some x else if decide (y = x) then Some n else nxt s y) as N.
  { intros y. by rewrite N4, N3, N2, N1. }
  assert (∀ y, prv s4 y = if decide (y = n) then Some x else if decide (y = x) then Some h else prv s y) as P.
  { intros y. by rewrite P4, P3, P2, P1. }
  apply HQ; [|congruence]. eapply rings_update; [done|done| | | |].
  - split; [split|].
    + by rewrite N, decide_True.
    + rewrite P, decide_False, decide_True by done. done.
    + destruct l as [|y l]; simpl in *.
      * unfold linked. subst n. rewrite N, P, decide_False, !decide_True by done. done.
      * subst n. apply NoDup_cons in Hnd as [Hyl Hnd]. destruct Hpath as [_ Hpath]. split.
        -- unfold linked. rewrite N, P, decide_False, !decide_True by done. done.
        -- apply (path_ext s); [| |done]; intros z Hz.
           ++ rewrite N, !decide_False by set_solver. done.
           ++ rewrite P, !decide_False by set_solver. done.
  - by apply NoDup_cons.
  - intros y [->|Hy]%elem_of_cons; [by right|by left].
  - intros y Hyh Hyl Hyo. assert (y ≠ x) by (by intros ->). assert (y ≠ n) by (intros ->; set_solver).
    by rewrite N, P, !decide_False by done.
Qed.

Lemma tl_append_spec h l x (Q : unit → links E → Prop) :
  c !! h = Some l → off_lists c x → x ∈ dom s →
  (∀ s', rings (<[h := l ++ [x]]> c) s' → dom s' = dom s → Q tt s') → wp true (tl_append h x) Q s.
Proof.
  intros Hh Hx Hd HQ. destruct (head_off h l x Hh Hx) as [Hxh Hxl].
  pose proof (head_item h l Hh) as Hhl. pose proof (r_nodup _ _ R _ _ Hh) as Hnd.
  destruct (ring_last h l Hh) as [[Hn Hp] Hin]. pose proof (r_path _ _ R _ _ Hh) as Hpath.
  set (q := default h (last l)) in *.
  assert (x ≠ q) as Hxq by (intros ->; set_solver).
  unfold tl_append, elem_prepend. wp_step. eapply get_prev_spec; [done|].
  wp_step. apply set_prev_spec; [done|]. intros s1 (D1 & P1 & N1).
  wp_step. apply set_next_spec; [by rewrite D1|]. intros s2 (D2 & N2 & P2).
  wp_step. wp_step; [done|]. wp_step.
  apply set_next_spec; [rewrite D2, D1; by eapply nxt_dom|]. intros s3 (D3 & N3 & P3).
  apply set_prev_spec; [rewrite D3, D2, D1; by eapply prv_dom|]. intros s4 (D4 & P4 & N4).
  assert (∀ y, nxt s4 y = if decide (y = q) then Some x else if decide (y = x) then Some h else nxt s y) as N.
  { intros y. by rewrite N4, N3, N2, N1. }
  assert (∀ y, prv s4 y = if decide (y = h) then Some x else if decide (y = x) then Some q else prv s y) as P.
  { intros y. by rewrite P4, P3, P2, P1. }
  apply HQ; [|congruence]. eapply rings_update; [done|done| | | |].
  - apply path_app. split.
    + destruct l as [|y l _] using rev_ind; simpl in *.
      * unfold linked. subst q. rewrite N, P, decide_True, decide_False, decide_True by done. done.
      * subst q. rewrite last_snoc in *. simpl in *. apply path_app in Hpath as [Hpath _].
        apply NoDup_app in Hnd as (_ & Hyl & _). apply path_app. split.
        -- apply (path_ext s); [| |done]; intros z Hz.
           ++ rewrite N, !decide_False by set_solver. done.
           ++ rewrite P, !decide_False by set_solver. done.
        -- unfold path, linked. rewrite N, P, decide_True, decide_False, decide_True by done. done.
    + unfold path, linked. rewrite N, P, decide_False, !decide_True by done. done.
  - apply NoDup_app. split_and!; [done|set_solver|apply NoDup_singleton].
  - intros y [Hy| ->%list_elem_of_singleton]%elem_of_app; [by left|by right].
  - intros y Hyh Hyl Hyo. assert (y ≠ x) by (by intros ->). assert (y ≠ q) by (intros ->; set_solver).
    by rewrite N, P, !decide_False by done.
Qed.

(** Taking [x] out of a path. *)
Lemma path_remove s' a l1 x l2 z :
  path s a l1 x → path s x l2 z →
  NoDup (l1 ++ x :: l2) → a ∉ l1 ++ x :: l2 → z ∉ l1 ++ x :: l2 →
  (∀ y, nxt s' y = if decide (y = x) then None else
    if decide (y = default a (last l1)) then Some (default z (head l2)) else nxt s y) →
  (∀ y, prv s' y = if decide (y = x) then None else
    if decide (y = default z (head l2)) then Some (default a (last l1)) else prv s y) →
  path s' a (l1 ++ l2) z.
Proof.
  intros H1 H2 Hnd Ha Hz N P.
  destruct l1 as [|p l1 _] using rev_ind; simpl in *.
  - destruct l2 as [|n l2]; simpl in *.
    + unfold linked. rewrite N, P. repeat case_decide; first [done|set_solver].
    + apply NoDup_cons in Hnd as [Hx [Hn Hnd]%NoDup_cons]. destruct H2 as [_ H2]. split.
      * unfold linked. rewrite N, P. repeat case_decide; first [done|set_solver].
      * apply (path_ext s); [| |done]; intros y Hy.
        -- rewrite N, !decide_False by set_solver. done.
        -- rewrite P, !decide_False by set_solver. done.
  - rewrite last_snoc in *. simpl in *. apply path_app in H1 as [H1 _].
    rewrite <-(assoc_L (++)) in *. simpl in *. apply NoDup_app in Hnd as (Hn1 & Hd & Hn2).
    apply NoDup_cons in Hn2 as [Hp Hn2]. apply NoDup_cons in Hn2 as [Hx Hn2].
    apply path_app. split.
    + apply (path_ext s); [| |done]; intros y Hy.
      * rewrite N, !decide_False by set_solver. done.
      * rewrite P, !decide_False; [done| |set_solver]. destruct l2; set_solver.
    + destruct l2 as [|n l2]; simpl in *.
      * unfold linked. rewrite N, P. repeat case_decide; first [done|set_solver].
      * apply NoDup_cons in Hn2 as [Hn Hn2]. destruct H2 as [_ H2]. split.
        -- unfold linked. rewrite N, P. repeat case_decide; first [done|set_solver].
        -- apply (path_ext s); [| |done]; intros y Hy.
           ++ rewrite N, !decide_False by set_solver. done.
           ++ rewrite P, !decide_False by set_solver. done.
Qed.

Lemma tl_remove_spec h l1 x l2 (Q : bool → links E → Prop) :
  c !! h = Some (l1 ++ x :: l2) →
  (∀ s', rings (<[h := l1 ++ l2]> c) s' → dom s' = dom s → Q (bool_decide (l1 ++ l2 = [])) s') →
  wp true (tl_remove x) Q s.
Proof.
  intros Hh HQ. pose proof (head_item _ _ Hh) as Hhl. pose proof (r_nodup _ _ R _ _ Hh) as Hnd.
  pose proof (r_path _ _ R _ _ Hh) as [H1 H2]%path_app.
  pose proof (path_last _ _ _ _ H1) as [Np Pp]. pose proof (path_first _ _ _ _ H2) as [Nn Pn].
  set (p := default h (last l1)) in *. set (n := default h (head l2)) in *.
  assert (p ∈ h :: l1 ∧ n ∈ h :: l2) as [Hp Hn].
  { split; [|unfold n; destruct l2; set_solver]. unfold p.
    destruct (last l1) as [y|] eqn:Ey; [right; by apply last_Some_elem_of|left]. }
  assert (p ≠ x ∧ n ≠ x) as [Hpx Hnx].
  { split; intros ->; [|]; apply NoDup_app in Hnd as (_ & Hd & [Hx2 _]%NoDup_cons); set_solver. }
  unfold tl_remove, elem_remove. wp_step. eapply get_next_spec; [done|].
  wp_step. eapply get_prev_spec; [done|]. wp_step. wp_step; [done|].
  wp_step. eapply get_next_spec; [done|]. wp_step. wp_step; [by apply bool_decide_eq_true|].
  wp_step. apply set_next_spec; [by eapply nxt_dom|]. intros s1 (D1 & N1 & P1).
  wp_step. wp_step; [done|]. wp_step. eapply get_prev_spec; [by rewrite P1|].
  wp_step. wp_step; [by apply bool_decide_eq_true|].
  wp_step. apply set_prev_spec; [rewrite D1; by eapply prv_dom|]. intros s2 (D2 & P2 & N2).
  assert (x ∈ dom s) as Hxd by (by eapply nxt_dom).
  wp_step. apply set_prev_spec; [by rewrite D2, D1|]. intros s3 (D3 & P3 & N3).
  wp_step. apply set_next_spec; [by rewrite D3, D2, D1|]. intros s4 (D4 & N4 & P4). wp_step.
  assert (bool_decide (Some n = Some p) = bool_decide (l1 ++ l2 = [])) as ->.
  { apply bool_decide_ext. subst p n. split.
    - intros [= E1]. destruct l2 as [|y l2].
      + destruct l1 as [|y l1 _] using rev_ind; [done|]. rewrite last_snoc in E1. simpl in E1. set_solver.
      + simpl in E1. apply NoDup_app in Hnd as (_ & Hd & _). exfalso.
        destruct (last l1) as [w|] eqn:Ew; simpl in E1; [|set_solver].
        apply last_Some_elem_of in Ew. set_solver.
    - intros [-> ->]%app_nil. done. }
  apply HQ; [|congruence]. eapply rings_update; [done|done| | | |].
  - eapply path_remove; [exact H1|exact H2|done|done|done| |]; intros y.
    + fold p n. by rewrite N4, N3, N2, N1.
    + fold p n. by rewrite P4, P3, P2, P1.
  - eapply sublist_NoDup; [exact Hnd|]. apply sublist_app; [done|]. by apply sublist_cons.
  - intros y Hy. left. set_solver.
  - intros y Hyh Hyl _. assert (y ≠ x ∧ y ≠ p ∧ y ≠ n) as (? & ? & ?).
    { split_and!; intros ->; set_solver. }
    rewrite N4, N3, N2, N1, P4, P3, P2, P1. by rewrite !decide_False by done.
Qed.

Lemma tl_empty_spec h l (Q : bool → links E → Prop) :
  c !! h = Some l → Q (bool_decide (l = [])) s → wp true (tl_empty h) Q s.
Proof.
  intros Hh HQ. destruct (ring_first h l Hh) as [[Hn _] _]. pose proof (head_item h l Hh) as Hhl.
  unfold tl_empty. wp_step. eapply get_next_spec; [done|]. wp_step.
  replace (bool_decide (Some (default h (head l)) = Some h)) with (bool_decide (l = [])); [done|].
  apply bool_decide_ext. destruct l as [|y l]; simpl; [done|]. split; [done|]. intros [= ->]. set_solver.
Qed.

Lemma tl_first_spec h x l (Q : E → links E → Prop) :
  c !! h = Some (x :: l) → Q x s → wp true (tl_first h) Q s.
Proof.
  intros Hh HQ. destruct (ring_first h _ Hh) as [[Hn _] _].
  unfold tl_first. wp_step. eapply tl_empty_spec; [done|]. rewrite bool_decide_eq_false_2 by done.
  wp_step. wp_step; [done|]. wp_step. eapply get_next_spec; [done|]. by eapply wp_from_opt.
Qed.

Lemma tl_last_spec h x l (Q : E → links E → Prop) :
  c !! h = Some (l ++ [x]) → Q x s → wp true (tl_last h) Q s.
Proof.
  intros Hh HQ. destruct (ring_last h _ Hh) as [[_ Hp] _]. rewrite last_snoc in Hp. simpl in Hp.
  unfold tl_last. wp_step. eapply tl_empty_spec; [done|]. rewrite bool_decide_eq_false_2 by (by destruct l).
  wp_step. wp_step; [done|]. wp_step. eapply get_prev_spec; [done|]. by eapply wp_from_opt.
Qed.

Lemma iterate_path h l2 a fuel (Q : list E → links E → Prop) :
  path s a l2 h → h ∉ l2 → (length l2 < fuel)%nat →
  Q l2 s → wp true (iterate fuel (default h (head l2)) h) Q s.
Proof.
  revert a fuel Q. induction l2 as [|y l2 IH]; intros a fuel Q Hp Hh Hf HQ; simpl in *.
  - destruct fuel as [|fuel]; [lia|]. simpl. rewrite bool_decide_eq_true_2 by done. by wp_step.
  - destruct fuel as [|fuel]; [lia|]. simpl. rewrite bool_decide_eq_false_2 by set_solver.
    destruct Hp as [_ Hp]. wp_step. eapply get_next_spec; [by apply path_first in Hp as [? _]|].
    wp_step. wp_step; [done|]. wp_step. eapply IH; [done|set_solver|lia|]. by wp_step.
Qed.

Lemma tl_elements_spec fuel h l (Q : list E → links E → Prop) :
  c !! h = Some l → (length l < fuel)%nat → Q l s → wp true (tl_elements fuel h) Q s.
Proof.
  intros Hh Hf HQ. destruct (ring_first h l Hh) as [[Hn _] _].
  unfold tl_elements. wp_step. eapply get_next_spec; [done|]. wp_step. wp_step; [done|].
  eapply (iterate_path h l h); [by eapply r_path|by apply head_item|done|done].
Qed.

Lemma tl_length_path h l2 a fuel r (Q : Z → links E → Prop) :
  path s a l2 h → h ∉ l2 → (length l2 < fuel)%nat → is_word 64 r →
  Q (u64 (r + Z.of_nat (length l2))) s → wp true (tl_length_loop fuel h (default h (head l2)) r) Q s.
Proof.
  revert a fuel r Q. induction l2 as [|y l2 IH]; intros a fuel r Q Hp Hh Hf Hr HQ; simpl in *.
  - destruct fuel as [|fuel]; [lia|]. simpl. rewrite bool_decide_eq_true_2 by done. wp_step.
    by rewrite Z.add_0_r, wrap_small in HQ.
  - destruct fuel as [|fuel]; [lia|]. simpl. rewrite bool_decide_eq_false_2 by set_solver.
    destruct Hp as [_ Hp]. wp_step. eapply get_next_spec; [by apply path_first in Hp as [? _]|].
    wp_step. wp_step; [done|]. eapply IH; [done|set_solver|lia|by apply wrap_word|].
    replace (r + Z.of_nat (S (length l2))) with (r + 1 + Z.of_nat (length l2)) in HQ by lia.
    unfold wrap in *. by rewrite Z.add_mod_idemp_l by lia.
Qed.

(** [length] counts modulo [2 ^ 64]. *)
Lemma tl_length_wraps fuel h l (Q : Z → links E → Prop) :
  c !! h = Some l → (length l < fuel)%nat →
  Q (u64 (Z.of_nat (length l))) s → wp true (tl_length fuel h) Q s.
Proof.
  intros Hh Hf HQ. destruct (ring_first h l Hh) as [[Hn _] _].
  unfold tl_length. wp_step. eapply get_next_spec; [done|]. wp_step. wp_step; [done|].
  eapply (tl_length_path h l h); [by eapply r_path|by apply head_item|done|by unfold is_word|done].
Qed.

Lemma tl_length_spec fuel h l (Q : Z → links E → Prop) :
  c !! h = Some l → (length l < fuel)%nat → Z.of_nat (length l) < 2 ^ 64 →
  Q (Z.of_nat (length l)) s → wp true (tl_length fuel h) Q s.
Proof.
  intros Hh Hf Hw HQ. apply (tl_length_wraps _ _ l); [done|done|].
  by rewrite wrap_small by (unfold is_word; lia).
Qed.

Lemma path_dom a l z x : path s a l z → x ∈ l → x ∈ dom s.
Proof.
  revert a. induction l as [|y l IH]; intros a Hp Hx; [by apply not_elem_of_nil in Hx|].
  destruct Hp as [[_ Hy] Hp]. apply elem_of_cons in Hx as [->|Hx]; [by eapply prv_dom|by eapply IH].
Qed.

(** A list has at most as many elements as there is memory. *)
Lemma ring_bounded h l : c !! h = Some l → (length l ≤ size s)%nat.
Proof.
  intros Hh. rewrite <-(size_list_to_set (C := gset E) l) by (by eapply r_nodup).
  rewrite <-size_dom. apply subseteq_size. intros x Hx%elem_of_list_to_set.
  by eapply path_dom; [eapply r_path|].
Qed.
End Lists.
End Rings.
