(* ===== verification/TcLinkedListTheorems.v ===== *)
(** * tcmalloc: theorems about linked lists *)

From S2P Require Import Prelude.
From S2P Require Import TcLinkedList.
From S2P Require Import TcLinkedListCorrect.

(** ** Stacks *)

Inductive stack_op := SPush (x : Z) | STryPop | SPushBatch (batch : list Z) | SPopBatch (N : Z).

(** The operations on the sequence of elements: the elements that are returned
    and the new sequence, if the operation is allowed. *)
Definition stack_spec (l : list Z) (op : stack_op) : option (list Z * list Z) :=
  match op with
  | SPush x => if bool_decide (x ≠ 0 ∧ x ∉ l) then Some ([], x :: l) else None
  | STryPop => Some (option_list (head l), tail l)
  | SPushBatch batch =>
      if bool_decide (batch ≠ [] ∧ 0 ∉ batch ∧ NoDup (batch ++ l)) then Some ([], batch ++ l) else None
  | SPopBatch N =>
      if bool_decide (0 ≤ N ≤ Z.of_nat (length l) ∧ Z.of_nat (length l) < 2 ^ 32)
      then Some (take (Z.to_nat N) l, drop (Z.to_nat N) l) else None
  end.

Definition stack_step (op : stack_op) : ST LinkedList (list Z) :=
  match op with
  | SPush x => ll_Push x;; mret []
  | STryPop => r ← TryPop; mret (option_list r)
  | SPushBatch batch => PushBatch batch;; mret []
  | SPopBatch N => PopBatch N
  end.

Fixpoint stack_run (ops : list stack_op) : ST LinkedList (list Z) :=
  match ops with
  | [] => mret []
  | op :: ops => out ← stack_step op; rest ← stack_run ops; mret (out ++ rest)
  end.

Fixpoint stack_specs (l : list Z) (ops : list stack_op) : option (list Z * list Z) :=
  match ops with
  | [] => Some ([], l)
  | op :: ops =>
      '(out, l) ← stack_spec l op;
      '(rest, l) ← stack_specs l ops;
      Some (out ++ rest, l)
  end.

Lemma stack_step_spec op l out l' s :
  stack l s → stack_spec l op = Some (out, l') →
  wp true (stack_step op) (λ r s', r = out ∧ stack l' s') s.
Proof.
  intros Hs E. destruct op as [x| |batch|N]; simpl in *.
  - case_bool_decide as Hx; [|done]. destruct Hx as [Hx Hl]. injection E as <- <-. wp_step.
    eapply wp_mono; [by apply ll_Push_spec|]. intros [] s' Hs'. by wp_step.
  - injection E as <- <-. wp_step. eapply wp_mono; [by apply TryPop_spec|].
    intros r s' (-> & Hs'). by wp_step.
  - case_bool_decide as Hx; [|done]. destruct Hx as (H1 & H2 & H3). injection E as <- <-. wp_step.
    eapply wp_mono; [by apply (PushBatch_spec batch l)|]. intros [] s' Hs'. by wp_step.
  - case_bool_decide as Hx; [|done]. destruct Hx as [H1 H2]. injection E as <- <-.
    eapply wp_mono; [by apply (PopBatch_spec N l)|]. done.
Qed.

Lemma stack_run_spec ops l out l' s :
  stack l s → stack_specs l ops = Some (out, l') →
  wp true (stack_run ops) (λ r s', r = out ∧ stack l' s') s.
Proof.
  revert l out s. induction ops as [|op ops IH]; intros l out s Hs E; simpl in *.
  - injection E as <- <-. by wp_step.
  - destruct (stack_spec l op) as [[o1 l1]|] eqn:E1; simpl in E; [|done].
    destruct (stack_specs l1 ops) as [[o2 l2]|] eqn:E2; simpl in E; [|done]. injection E as <- <-.
    wp_step. eapply wp_mono; [by eapply stack_step_spec|]. intros r s1 (-> & Hs1). wp_step.
    eapply wp_mono; [by eapply IH|]. intros r2 s2 (-> & Hs2). by wp_step.
Qed.

(** A LinkedList is a stack.  From an initialised list, any sequence of
    Push, TryPop, PushBatch and PopBatch calls that pushes only addresses that
    are not null and not already on the list, and pops no more than there is,
    never touches a null pointer, returns what the same operations on the
    sequence of elements return, and leaves the length exact. *)
Theorem linked_list_is_stack ops out l s :
  stack_specs [] ops = Some (out, l) →
  ∃ s0 s', ll_Init s = Done (tt, s0) ∧ stack_run ops s0 = Done (out, s') ∧
    length_ s' = u32 (Z.of_nat (length l)) ∧ list_ s' = default 0 (head l).
Proof.
  intros E. eexists _. pose proof (stack_run_spec ops [] out l (mk_ll 0 (u32 0) (words s))) as H.
  destruct (wp_total_done _ _ _ (H ltac:(by split; [|by vm_compute|apply NoDup_nil_2]) E))
    as (r & s' & Er & -> & [Hs Hn _]).
  exists s'. split_and!; [done|done|done|].
  destruct l as [|x l]; simpl in *; [done|]. by destruct Hs as [-> _].
Qed.

Lemma linked_list_is_stack_witness :
  ∃ s0 s', ll_Init (mk_ll 5 5 ∅) = Done (tt, s0) ∧
    stack_run [SPush 8; SPushBatch [16; 24; 32]; STryPop; SPopBatch 2] s0 = Done ([16; 24; 32], s') ∧
    length_ s' = 1.
Proof.
  destruct (linked_list_is_stack [SPush 8; SPushBatch [16; 24; 32]; STryPop; SPopBatch 2]
    [16; 24; 32] [8] (mk_ll 5 5 ∅)) as (s0 & s' & E0 & E1 & E2 & _).
  - vm_compute. reflexivity.
  - exists s0, s'. done.
Defined.

(** ** Sequences *)

Inductive list_op :=
  | LInit (h : Z) | LPrepend (h x : Z) | LAppend (h x : Z) | LRemove (x : Z)
  | LFirst (h : Z) | LLast (h : Z) | LEmpty (h : Z) | LLength (h : Z) | LElements (h : Z).

(** The list that an element is on, and the elements around it. *)
Definition on_list (c : gmap Z (list Z)) (x : Z) : option (Z * list Z) :=
  head (filter (λ hl, x ∈ hl.2) (map_to_list c)).

Definition is_off (c : gmap Z (list Z)) (x : Z) : bool :=
  bool_decide (c !! x = None) && bool_decide (on_list c x = None).

(** The operations on the sequences: the elements that are returned, the
    length (a [size_t]), and for [LRemove] whether the list became empty. *)
Definition list_spec (mem : gset Z) (c : gmap Z (list Z)) (op : list_op) : option (list Z * gmap Z (list Z)) :=
  match op with
  | LInit h => if is_off c h then Some ([], <[h := []]> c) else None
  | LPrepend h x =>
      l ← c !! h; if is_off c x && bool_decide (x ∈ mem) then Some ([], <[h := x :: l]> c) else None
  | LAppend h x =>
      l ← c !! h; if is_off c x && bool_decide (x ∈ mem) then Some ([], <[h := l ++ [x]]> c) else None
  | LRemove x =>
      '(h, l) ← on_list c x;
      let l' := filter (.≠ x) l in
      Some ([if bool_decide (l' = []) then 1 else 0], <[h := l']> c)
  | LFirst h => l ← c !! h; x ← head l; Some ([x], c)
  | LLast h => l ← c !! h; x ← last l; Some ([x], c)
  | LEmpty h => l ← c !! h; Some ([if bool_decide (l = []) then 1 else 0], c)
  | LLength h => l ← c !! h; Some ([u64 (Z.of_nat (length l))], c)
  | LElements h => l ← c !! h; Some (l, c)
  end.

(** The loops of [length] and of an iteration get as much fuel as there are
    elements and heads in memory, and one more for the last test. *)
Definition list_step (op : list_op) : ST (links Z) (list Z) :=
  match op with
  | LInit h => tl_Init h;; mret []
  | LPrepend h x => tl_prepend h x;; mret []
  | LAppend h x => tl_append h x;; mret []
  | LRemove x => b ← tl_remove x; mret [if b : bool then 1 else 0]
  | LFirst h => x ← tl_first h; mret [x]
  | LLast h => x ← tl_last h; mret [x]
  | LEmpty h => b ← tl_empty h; mret [if b : bool then 1 else 0]
  | LLength h => s ← gets id; n ← tl_length (S (size s)) h; mret [n]
  | LElements h => s ← gets id; tl_elements (S (size s)) h
  end.

Fixpoint list_run (ops : list list_op) : ST (links Z) (list Z) :=
  match ops with
  | [] => mret []
  | op :: ops => out ← list_step op; rest ← list_run ops; mret (out ++ rest)
  end.

Fixpoint list_specs (mem : gset Z) (c : gmap Z (list Z)) (ops : list list_op) :
    option (list Z * gmap Z (list Z)) :=
  match ops with
  | [] => Some ([], c)
  | op :: ops =>
      '(out, c) ← list_spec mem c op;
      '(rest, c) ← list_specs mem c ops;
      Some (out ++ rest, c)
  end.

Lemma on_list_Some c x h l : on_list c x = Some (h, l) → c !! h = Some l ∧ x ∈ l.
Proof.
  unfold on_list. intros E.
  assert ((h, l) ∈ filter (λ hl : Z * list Z, x ∈ hl.2) (map_to_list c)) as Hin.
  { destruct (filter _ _); [done|]. injection E as ->. left. }
  apply list_elem_of_filter in Hin as [Hx Hin]. by apply elem_of_map_to_list in Hin.
Qed.

Lemma is_off_off c x : is_off c x = true → off_lists c x.
Proof.
  unfold is_off. intros [Hn%bool_decide_eq_true Ho%bool_decide_eq_true]%andb_prop.
  split; [done|]. intros h l Hl Hx. unfold on_list in Ho.
  assert ((h, l) ∈ filter (λ hl : Z * list Z, x ∈ hl.2) (map_to_list c)) as Hin.
  { apply list_elem_of_filter. split; [done|]. by apply elem_of_map_to_list. }
  destruct (filter _ _); [by apply not_elem_of_nil in Hin|done].
Qed.

Lemma filter_ne_id (l : list Z) x : x ∉ l → filter (.≠ x) l = l.
Proof.
  induction l as [|y l IH]; [done|]. intros [Hy Hl]%not_elem_of_cons.
  rewrite filter_cons_True by done. by rewrite IH.
Qed.

Lemma filter_ne_split (l1 l2 : list Z) x :
  NoDup (l1 ++ x :: l2) → filter (.≠ x) (l1 ++ x :: l2) = l1 ++ l2.
Proof.
  intros Hnd. rewrite filter_app, filter_cons_False by tauto.
  apply NoDup_app in Hnd as (_ & Hd & [Hx _]%NoDup_cons).
  rewrite !filter_ne_id; [done|done|]. intros H1. apply (Hd x H1). left.
Qed.

Lemma list_step_spec mem op c out c' s :
  rings c s → mem ⊆ dom s → list_spec mem c op = Some (out, c') →
  wp true (list_step op) (λ r s', r = out ∧ rings c' s' ∧ mem ⊆ dom s') s.
Proof.
  intros R Hm Hspec. destruct op as [h|h x|h x|x|h|h|h|h|h]; simpl in *.
  - destruct (is_off c h) eqn:Eo; [|done]. injection Hspec as <- <-. wp_step.
    eapply tl_Init_spec; [done|by apply is_off_off|]. intros s' R' Hd. wp_step.
    split_and!; [done|done|set_solver].
  - apply bind_Some in Hspec as (l & Hl & Hspec).
    destruct (is_off c x && bool_decide (x ∈ mem)) eqn:Eo; [|done]. injection Hspec as <- <-.
    apply andb_prop in Eo as [Eo Ex%bool_decide_eq_true]. wp_step.
    eapply tl_prepend_spec; [done|done|by apply is_off_off|set_solver|].
    intros s' R' Hd. wp_step. split_and!; [done|done|by rewrite Hd].
  - apply bind_Some in Hspec as (l & Hl & Hspec).
    destruct (is_off c x && bool_decide (x ∈ mem)) eqn:Eo; [|done]. injection Hspec as <- <-.
    apply andb_prop in Eo as [Eo Ex%bool_decide_eq_true]. wp_step.
    eapply tl_append_spec; [done|done|by apply is_off_off|set_solver|].
    intros s' R' Hd. wp_step. split_and!; [done|done|by rewrite Hd].
  - apply bind_Some in Hspec as ([h l] & Hl & Hspec). apply on_list_Some in Hl as [Hl Hx].
    apply list_elem_of_split in Hx as (l1 & l2 & ->). pose proof (r_nodup _ _ R _ _ Hl) as Hnd.
    injection Hspec as <- <-. rewrite filter_ne_split by done. wp_step.
    eapply tl_remove_spec; [done|done|]. intros s' R' Hd. wp_step. split_and!; [done|done|by rewrite Hd].
  - apply bind_Some in Hspec as (l & Hl & Hspec). apply bind_Some in Hspec as (x & Hx & Hspec).
    injection Hspec as <- <-. destruct l as [|y l]; [done|]. injection Hx as ->.
    wp_step. eapply tl_first_spec; [done|done|]. by wp_step.
  - apply bind_Some in Hspec as (l & Hl & Hspec). apply bind_Some in Hspec as (x & Hx & Hspec).
    injection Hspec as <- <-. apply last_Some in Hx as [l' ->].
    wp_step. eapply tl_last_spec; [done|done|]. by wp_step.
  - apply bind_Some in Hspec as (l & Hl & [= <- <-]). wp_step. eapply tl_empty_spec; [done|done|].
    by wp_step.
  - apply bind_Some in Hspec as (l & Hl & [= <- <-]). wp_step. wp_step. wp_step.
    pose proof (ring_bounded _ _ R _ _ Hl). eapply tl_length_wraps; [done|done|simpl; lia|]. by wp_step.
  - apply bind_Some in Hspec as (l & Hl & [= <- <-]). wp_step. wp_step.
    pose proof (ring_bounded _ _ R _ _ Hl). eapply tl_elements_spec; [done|done|simpl; lia|done].
Qed.

Lemma list_run_spec mem ops c out c' s :
  rings c s → mem ⊆ dom s → list_specs mem c ops = Some (out, c') →
  wp true (list_run ops) (λ r s', r = out ∧ rings c' s') s.
Proof.
  revert c out s. induction ops as [|op ops IH]; intros c out s R Hm Hspec; simpl in *.
  - injection Hspec as <- <-. by wp_step.
  - destruct (list_spec mem c op) as [[o1 c1]|] eqn:E1; simpl in Hspec; [|done].
    destruct (list_specs mem c1 ops) as [[o2 c2]|] eqn:E2; simpl in Hspec; [|done].
    injection Hspec as <- <-.
    wp_step. eapply wp_mono; [by eapply list_step_spec|]. intros r s1 (-> & R1 & Hm1). wp_step.
    eapply wp_mono; [by eapply IH|]. intros r2 s2 (-> & R2). by wp_step.
Qed.

(** C20: The rings of TList are sequences.  Any number of lists can share the
    elements of a memory: after any sequence of Init, prepend, append, remove,
    first, last, empty, length and iterations, in which elements are added that
    are on no list and removed that are on one, and first and last are asked of
    lists that are not empty, no null pointer was used, no assertion failed,
    every loop ended, and every result is that of the same operations on the
    sequences.  In particular remove finds the list of an element by itself,
    length is the number of elements modulo [2 ^ 64], and operations on one list
    do not change the others. *)
Theorem tlists_are_sequences (s : links Z) ops out c :
  list_specs (dom s) ∅ ops = Some (out, c) →
  ∃ s', list_run ops s = Done (out, s') ∧
    ∀ h l fuel, c !! h = Some l → (length l < fuel)%nat → tl_elements fuel h s' = Done (l, s').
Proof.
  intros Hspec.
  assert (rings ∅ s) as R by (split; intros *; by rewrite lookup_empty).
  destruct (wp_total_done _ _ _ (list_run_spec (dom s) ops ∅ out c s R ltac:(done) Hspec))
    as (r & s' & Er & -> & R').
  exists s'. split; [done|]. intros h l fuel Hl Hlen.
  assert (wp true (tl_elements fuel h) (λ r s'', r = l ∧ s'' = s') s') as Hw
    by (by eapply tl_elements_spec).
  by apply wp_total_done in Hw as (? & ? & ? & -> & ->).
Qed.

Definition example_elems : links Z :=
  list_to_map ((λ a, (a, mk_elem None None)) <$> [10; 20; 30; 40]).

Definition example_ops : list list_op :=
  [LInit 1; LInit 2; LPrepend 1 10; LAppend 1 20; LPrepend 2 30; LPrepend 1 40; LLength 1; LRemove 10;
   LFirst 1; LLast 1; LEmpty 2; LRemove 30; LEmpty 2; LLength 2; LElements 1].

Lemma tlists_are_sequences_witness :
  ∃ s', list_run example_ops example_elems = Done ([3; 0; 40; 20; 0; 1; 1; 0; 40; 20], s') ∧
    tl_elements 7 2 s' = Done ([], s').
Proof.
  destruct (tlists_are_sequences example_elems example_ops [3; 0; 40; 20; 0; 1; 1; 0; 40; 20]
    {[1 := [40; 20]; 2 := []]}) as (s' & E & Hel).
  - vm_compute. reflexivity.
  - exists s'. split; [exact E|]. apply Hel; [by vm_compute|simpl; lia].
Defined.
