(* ===== verification/TcSystemAlloc.v ===== *)
(** * tcmalloc: memory from the system

    [SystemAlloc] and [SystemRelease] (system-alloc.h, system-alloc.cc): ranges of
    the address space are reserved with [mmap], at random aligned addresses
    whose tag bit tells sampled from other memory, and are handed out from their
    ends.  The kernel and the low-level allocator of Abseil are parameters, the
    class [Kernel]; what the clients of the component rely on is the class
    [SystemMemory].  The region factory is the default one,
    [MmapRegionFactory].  Failed assertions and [Log(kCrash, ...)] are [Fault]. *)

From S2P Require Import Prelude.
From S2P Require Import CString.
From S2P Require Import TcCommon.

(** ** The interface *)

(** [SystemAlloc(bytes, &actual_bytes, alignment, tagged)]: the pointer and the
    actual size, or nothing if it returns null. *)
Class SystemMemory (OS : Type) := {
  SystemAlloc : Z → Z → bool → ST OS (option (Z * Z));
  SystemRelease : Z → Z → ST OS unit;
  (* The addresses that were given out. *)
  given : OS → Z → Prop;
}.

(** ** The kernel *)

Inductive advice := MADV_REMOVE | MADV_DONTNEED.

(** What a system call returns: 0, or -1 with [EAGAIN] or with another error. *)
Inductive sys_result := SysOk | SysAgain | SysError.

Class Kernel (K : Type) := {
  getpagesize : Z;
  (* Private anonymous mappings; nothing is [MAP_FAILED]. *)
  mmap : Z → Z → K → option Z * K;
  munmap : Z → Z → K → bool * K;
  mprotect_rw : Z → Z → K → bool * K;
  madvise : advice → Z → Z → K → sys_result * K;
  munlock : Z → Z → K → sys_result * K;
  (* [LowLevelAlloc::AllocWithArena]. *)
  low_level_alloc : Z → K → option Z * K;
  (* How often in a row the kernel answers [EAGAIN] at most. *)
  patience : K → nat;
  mapped : K → Z → Prop;
}.

(** ** State *)

Record MmapRegion := mk_region { start_ : Z; free_size_ : Z }.

(** [Sampler::NextRandom]. *)
Definition NextRandom (rnd : Z) : Z :=
  let prng_mult := 0x5DEECE66D in
  let prng_add := 0xB in
  let prng_mod_power := 48 in
  let prng_mod_mask := wnot 64 (u64 (wnot 64 0 ≪ prng_mod_power)) in
  Z.land (u64 (u64 (prng_mult * rnd) + prng_add)) prng_mod_mask.

Section SystemAlloc.
Context (cfg : config) {K : Type} `{!Kernel K}.

(** The variables of system-alloc.cc.  [region_factory] tells whether the
    default factory was installed; [rnd] is nothing before its first use. *)
Record SysAlloc := mk_sys {
  kernel : K;
  pagesize : Z;
  preferred_alignment : Z;
  region_factory : bool;
  bytes_reserved_ : Z;
  internal_bytes_allocated : Z;
  untagged_region_ : option MmapRegion;
  tagged_region_ : option MmapRegion;
  next_untagged_addr : Z;
  next_tagged_addr : Z;
  rnd : option Z;
  system_release_errors : Z;
}.

Definition new_SysAlloc (k : K) : SysAlloc := mk_sys k 0 0 false 0 0 None None 0 0 None 0.

Local Abbreviation ST := (ST SysAlloc).

Definition set_kernel (k : K) (s : SysAlloc) : SysAlloc :=
  mk_sys k (pagesize s) (preferred_alignment s) (region_factory s) (bytes_reserved_ s)
    (internal_bytes_allocated s) (untagged_region_ s) (tagged_region_ s) (next_untagged_addr s)
    (next_tagged_addr s) (rnd s) (system_release_errors s).

Definition set_rnd (r : Z) (s : SysAlloc) : SysAlloc :=
  mk_sys (kernel s) (pagesize s) (preferred_alignment s) (region_factory s) (bytes_reserved_ s)
    (internal_bytes_allocated s) (untagged_region_ s) (tagged_region_ s) (next_untagged_addr s)
    (next_tagged_addr s) (Some r) (system_release_errors s).

(** The references [next_addr] and [region] of the code. *)
Definition next_addr (tagged : bool) (s : SysAlloc) : Z :=
  if tagged then next_tagged_addr s else next_untagged_addr s.

Definition set_next_addr (tagged : bool) (a : Z) (s : SysAlloc) : SysAlloc :=
  mk_sys (kernel s) (pagesize s) (preferred_alignment s) (region_factory s) (bytes_reserved_ s)
    (internal_bytes_allocated s) (untagged_region_ s) (tagged_region_ s)
    (if tagged then next_untagged_addr s else a) (if tagged then a else next_tagged_addr s)
    (rnd s) (system_release_errors s).

Definition region_of (tagged : bool) (s : SysAlloc) : option MmapRegion :=
  if tagged then tagged_region_ s else untagged_region_ s.

Definition set_region (tagged : bool) (r : option MmapRegion) (s : SysAlloc) : SysAlloc :=
  mk_sys (kernel s) (pagesize s) (preferred_alignment s) (region_factory s) (bytes_reserved_ s)
    (internal_bytes_allocated s) (if tagged then untagged_region_ s else r)
    (if tagged then r else tagged_region_ s) (next_untagged_addr s)
    (next_tagged_addr s) (rnd s) (system_release_errors s).

(** A system call. *)
Definition on_kernel {A} (f : K → A * K) : ST A := λ s,
  let '(a, k) := f (kernel s) in Done (a, set_kernel k s).

(** ** Rounding *)

Definition RoundDown (size alignment : Z) : ST Z :=
  require (negb (alignment =? 0) && (Z.land alignment (u64 (alignment - 1)) =? 0));;
  mret (Z.land size (wnot 64 (u64 (alignment - 1)))).

Definition RoundUp (size alignment : Z) : ST Z :=
  RoundDown (u64 (u64 (size + alignment) - 1)) alignment.

Fixpoint RoundUpPowerOf2_loop (n : nat) (i size : Z) : ST Z :=
  match n with
  | O => fault
  | S n =>
      let pow2 := u64 (1 ≪ i) in
      if size <=? pow2 then mret pow2 else RoundUpPowerOf2_loop n (i + 1) size
  end.

Definition RoundUpPowerOf2 (size : Z) : ST Z := RoundUpPowerOf2_loop 64 0 size.

(** ** Reserving address space *)

Definition kAddrMask : Z := (1 ≪ (kAddressBits - 2)) - 1.

(** The initialiser of the static variable [rnd]. *)
Definition seed_rnd : ST Z :=
  seed ← on_kernel (mmap 0 (kPageSize cfg));
  match seed with
  | None => fault
  | Some seed =>
      _ ← on_kernel (munmap seed (kPageSize cfg));
      modify (set_rnd seed);;
      mret seed
  end.

Definition RandomMmapHint (size alignment : Z) (tagged : bool) : ST Z :=
  known ← gets rnd;
  r ← (match known with Some r => mret r | None => seed_rnd end);
  alignment ← RoundUpPowerOf2 (Z.max alignment size);
  let r := NextRandom r in
  modify (set_rnd r);;
  let addr := Z.land (Z.land (Z.land r kAddrMask) (wnot 64 (u64 (alignment - 1)))) (wnot 64 kTagMask) in
  mret (if tagged then addr else Z.lor addr kTagMask).

Fixpoint MmapAligned_loop (n : nat) (size alignment : Z) (tagged : bool) : ST (option Z) :=
  match n with
  | O => mret None
  | S n =>
      hint ← gets (next_addr tagged);
      result ← on_kernel (mmap hint size);
      match result with
      | None => mret None
      | Some result =>
          if result =? hint then
            modify (set_next_addr tagged (u64 (hint + size)));;
            next ← gets (next_addr tagged);
            require (next <=? 1 ≪ kAddressBits);;
            mret (Some result)
          else
            ok ← on_kernel (munmap result size);
            require ok;;
            hint ← RandomMmapHint size alignment tagged;
            modify (set_next_addr tagged hint);;
            MmapAligned_loop n size alignment tagged
      end
  end.

Definition MmapAligned (size alignment : Z) (tagged : bool) : ST (option Z) :=
  require (size <=? kTagMask);;
  require (alignment <=? kTagMask);;
  next ← gets (next_addr tagged);
  (if (next =? 0) || negb (Z.land next (u64 (alignment - 1)) =? 0) ||
      negb (Bool.eqb (IsTaggedMemory next) tagged) ||
      negb (Bool.eqb (IsTaggedMemory (u64 (u64 (next + size) - 1))) tagged)
   then hint ← RandomMmapHint size alignment tagged; modify (set_next_addr tagged hint)
   else mret tt);;
  MmapAligned_loop 1000 size alignment tagged.

(** ** Regions *)

(** [MmapRegion::Alloc]: the pointer and the size, or nothing, and the region
    after the call. *)
Definition MmapRegion_Alloc (region : MmapRegion) (request_size alignment : Z) :
    ST (option (Z * Z) * MmapRegion) :=
  size ← RoundUp request_size (kMinSystemAlloc cfg);
  if size <? request_size then mret (None, region)
  else
    preferred ← gets preferred_alignment;
    let alignment := Z.max alignment preferred in
    let end_ := u64 (start_ region + free_size_ region) in
    let result := u64 (end_ - size) in
    if end_ <? result then mret (None, region)
    else
      let result := Z.land result (wnot 64 (u64 (alignment - 1))) in
      if result <? start_ region then mret (None, region)
      else
        let actual_size := u64 (end_ - result) in
        page ← gets pagesize;
        require (negb (page =? 0) && (result mod page =? 0));;
        ok ← on_kernel (mprotect_rw result actual_size);
        if ok : bool then
          mret (Some (result, actual_size), mk_region (start_ region) (u64 (free_size_ region - actual_size)))
        else mret (None, region).

(** [sizeof(MmapRegion)]: the pointer to the virtual functions and two words. *)
Definition sizeof_MmapRegion : Z := 24.

(** [MmapRegionFactory::Create], with [AddressRegionFactory::MallocInternal]. *)
Definition MmapRegionFactory_Create (start size : Z) : ST (option MmapRegion) :=
  region_space ← on_kernel (low_level_alloc sizeof_MmapRegion);
  match region_space with
  | None => mret None
  | Some _ =>
      modify (λ s, mk_sys (kernel s) (pagesize s) (preferred_alignment s) (region_factory s)
        (u64 (bytes_reserved_ s + size)) (u64 (internal_bytes_allocated s + sizeof_MmapRegion))
        (untagged_region_ s) (tagged_region_ s) (next_untagged_addr s) (next_tagged_addr s)
        (rnd s) (system_release_errors s));;
      mret (Some (mk_region start size))
  end.

(** A request to the region that is kept. *)
Definition region_Alloc (region : MmapRegion) (size alignment : Z) (tagged : bool) : ST (option (Z * Z)) :=
  '(result, region) ← MmapRegion_Alloc region size alignment;
  modify (set_region tagged (Some region));;
  mret result.

(** Reserving a new region and trying again. *)
Definition RegionManager_reserve (size alignment : Z) (tagged : bool) : ST (option (Z * Z)) :=
  ptr ← MmapAligned (kMinMmapAlloc cfg) (kMinMmapAlloc cfg) tagged;
  match ptr with
  | None => mret None
  | Some ptr =>
      region ← MmapRegionFactory_Create ptr (kMinMmapAlloc cfg);
      modify (set_region tagged region);;
      match region with
      | None => _ ← on_kernel (munmap ptr (kMinMmapAlloc cfg)); mret None
      | Some region => region_Alloc region size alignment tagged
      end
  end.

Definition RegionManager_Allocate (size alignment : Z) (tagged : bool) : ST (option (Z * Z)) :=
  region ← gets (region_of tagged);
  result ← (match region with
            | None => mret None
            | Some region => region_Alloc region size alignment tagged
            end);
  match result with
  | Some result => mret (Some result)
  | None => RegionManager_reserve size alignment tagged
  end.

(** The region of a large request, which is not kept. *)
Definition RegionManager_large (request_size alignment : Z) (tagged : bool) : ST (option (Z * Z)) :=
  size ← RoundUp request_size (kMinSystemAlloc cfg);
  if size <? request_size then mret None
  else
    preferred ← gets preferred_alignment;
    let alignment := Z.max alignment preferred in
    ptr ← MmapAligned size alignment tagged;
    match ptr with
    | None => mret None
    | Some ptr =>
        region ← MmapRegionFactory_Create ptr size;
        match region with
        | None => _ ← on_kernel (munmap ptr size); mret None
        | Some region =>
            '(result, _) ← MmapRegion_Alloc region size alignment;
            match result with
            | Some (first, second) =>
                require (first =? ptr);;
                require (second =? size);;
                mret (Some (first, second))
            | None => mret None
            end
        end
    end.

Definition RegionManager_Alloc (request_size alignment : Z) (tagged : bool) : ST (option (Z * Z)) :=
  if (kTagMask <? request_size) || (kTagMask <? alignment) then mret None
  else if (kMinMmapAlloc cfg <? request_size) || (kMinMmapAlloc cfg <? alignment) then
    RegionManager_large request_size alignment tagged
  else RegionManager_Allocate request_size alignment tagged.

Definition DiscardMappedRegions : ST unit :=
  modify (λ s, set_region true None (set_region false None s)).

Definition InitSystemAllocatorIfNecessary : ST unit :=
  modify (λ s,
    if region_factory s then s
    else mk_sys (kernel s) getpagesize (Z.max getpagesize (kMinSystemAlloc cfg)) true 0
      (internal_bytes_allocated s) None None (next_untagged_addr s)
      (next_tagged_addr s) (rnd s) (system_release_errors s)).

(** [CheckAddressBits<kAddressBits>]. *)
Definition CheckAddressBits (ptr : Z) : ST unit := require (ptr ≫ kAddressBits =? 0).

Definition sys_Alloc (bytes alignment : Z) (tagged : bool) : ST (option (Z * Z)) :=
  page ← gets pagesize;
  let alignment := Z.max alignment page in
  if u64 (bytes + alignment) <? bytes then mret None
  else
    InitSystemAllocatorIfNecessary;;
    result ← RegionManager_Alloc bytes alignment tagged;
    match result with
    | None => mret None
    | Some (result, actual_bytes) =>
        CheckAddressBits (u64 (u64 (result + actual_bytes) - 1));;
        require (Bool.eqb (IsTaggedMemory result) tagged);;
        mret (Some (result, actual_bytes))
    end.

(** ** Releasing memory *)

(** [do ... while (ret == -1 && errno == EAGAIN)], and whether [ret] is 0. *)
Fixpoint retry_loop (fuel : nat) (call : K → sys_result * K) : ST bool :=
  match fuel with
  | O => out_of_fuel
  | S fuel =>
      ret ← on_kernel call;
      match ret with
      | SysOk => mret true
      | SysAgain => retry_loop fuel call
      | SysError => mret false
      end
  end.

Definition retry (call : K → sys_result * K) : ST bool :=
  fuel ← gets (λ s, S (patience (kernel s)));
  retry_loop fuel call.

Definition ReleasePages (start length : Z) : ST bool :=
  removed ← retry (madvise MADV_REMOVE start length);
  if removed : bool then mret true else retry (madvise MADV_DONTNEED start length).

Definition sys_Release (start length : Z) : ST unit :=
  page ← gets pagesize;
  let pagemask := u64 (page - 1) in
  let end_ := u64 (start + length) in
  let new_start := Z.land (u64 (u64 (start + page) - 1)) (wnot 64 pagemask) in
  let new_end := Z.land end_ (wnot 64 pagemask) in
  require (Z.land new_start pagemask =? 0);;
  require (Z.land new_end pagemask =? 0);;
  require (start <=? new_start);;
  require (new_end <=? end_);;
  if new_start <? new_end then
    let new_length := u64 (new_end - new_start) in
    released ← ReleasePages new_start new_length;
    if released : bool then mret tt
    else
      unlocked ← retry (munlock new_start (u64 (new_end - new_start)));
      again ← (if unlocked : bool then ReleasePages new_start new_length else mret false);
      if again : bool then mret tt
      else modify (λ s, mk_sys (kernel s) (pagesize s) (preferred_alignment s) (region_factory s)
        (bytes_reserved_ s) (internal_bytes_allocated s) (untagged_region_ s) (tagged_region_ s)
        (next_untagged_addr s) (next_tagged_addr s) (rnd s) (i32 (system_release_errors s + 1)))
  else mret tt.

Definition SystemReleaseErrors : ST Z := gets system_release_errors.

(** [SystemBack] returns at once. *)
Definition SystemBack (start length : Z) : ST unit := mret tt.

(** An address is given out if it is mapped and not in what is left of a region. *)
Definition sys_given (s : SysAlloc) (a : Z) : Prop :=
  mapped (kernel s) a ∧
  ∀ tagged r, region_of tagged s = Some r → ¬ start_ r ≤ a < start_ r + free_size_ r.

#[export] Instance SysAlloc_memory : SystemMemory SysAlloc := {
  SystemAlloc := sys_Alloc;
  SystemRelease := sys_Release;
  given := sys_given;
}.
End SystemAlloc.
