(* ===== verification/TcSystemAllocCorrect.v ===== *)
(** * tcmalloc: correctness of the system allocator

    Ranges are reserved with a uniform tag below [2^46]; memory that
    [SystemAlloc] returns is aligned, has the tag asked for and was never given
    out before.  [SysAlloc_laws] discharges the interface [SystemMemoryLaws]
    that the arenas and the page heap are verified against. *)

From S2P Require Import Prelude.
From S2P Require Import TcCommon.
From S2P Require Import TcSystemAlloc.

(** ** The interface *)

(** What the comments of system-alloc.h promise; memory is given out once. *)
Class SystemMemoryLaws (OS : Type) `{!SystemMemory OS} := {
  system_ok : OS → Prop;
  (* The allocator was used. *)
  system_up : OS → Prop;
  system_alloc_law bytes j tagged o :
    system_ok o → 0 < bytes < 2 ^ 64 → 0 ≤ j < 64 →
    wp true (SystemAlloc bytes (2 ^ j) tagged) (λ r o',
      system_ok o' ∧ (system_up o → system_up o') ∧ (∀ a, given o a → given o' a) ∧
      ∀ p n, r = Some (p, n) →
        system_up o' ∧ 0 < p ∧ bytes ≤ n ∧ p + n ≤ 2 ^ (kAddressBits - 2) ∧ p mod 2 ^ j = 0 ∧
        ∀ a, p ≤ a < p + n → ¬ given o a ∧ given o' a ∧ IsTaggedMemory a = tagged) o;
  system_release_law p n o :
    system_ok o → system_up o → 0 ≤ p → 0 ≤ n → p + n ≤ 2 ^ kAddressBits →
    wp true (SystemRelease p n) (λ _ o', system_ok o' ∧ system_up o' ∧ ∀ a, given o' a ↔ given o a) o;
}.

(** ** The kernel *)

(** The documented behaviour of the system calls.  [room k]: the address space
    has room for one more page. *)
Class KernelLaws (K : Type) `{!Kernel K} := {
  getpagesize_law : ∃ j, 12 ≤ j ≤ 21 ∧ getpagesize = 2 ^ j;
  mmap_some hint n k p k' : 0 < n → mmap hint n k = (Some p, k') →
    0 < p ∧ p mod getpagesize = 0 ∧ (∀ a, p ≤ a < p + n → ¬ mapped k a) ∧
    ∀ a, mapped k' a ↔ mapped k a ∨ p ≤ a < p + n;
  mmap_none hint n k k' : mmap hint n k = (None, k') → ∀ a, mapped k' a ↔ mapped k a;
  munmap_law p n k ok k' : 0 < n → p mod getpagesize = 0 → (∀ a, p ≤ a < p + n → mapped k a) →
    munmap p n k = (ok, k') →
    ok = true ∧ ∀ a, mapped k' a ↔ mapped k a ∧ ¬ p ≤ a < p + n;
  mprotect_law p n k ok k' : mprotect_rw p n k = (ok, k') → ∀ a, mapped k' a ↔ mapped k a;
  low_level_alloc_law n k r k' : low_level_alloc n k = (r, k') → ∀ a, mapped k a → mapped k' a;
  room : K → Prop;
  mmap_room n k : room k → 0 < n ≤ 2 ^ 18 → ∃ p k', mmap 0 n k = (Some p, k');
  madvise_law adv p n k r k' : madvise adv p n k = (r, k') →
    (∀ a, mapped k' a ↔ mapped k a) ∧ (room k → room k') ∧ (r = SysAgain → (patience k' < patience k)%nat);
  munlock_law p n k r k' : munlock p n k = (r, k') →
    (∀ a, mapped k' a ↔ mapped k a) ∧ (room k → room k') ∧ (r = SysAgain → (patience k' < patience k)%nat);
}.

(** ** Tags *)

Lemma tagged_even a : 0 ≤ a → IsTaggedMemory a = Z.even (a / 2 ^ 42).
Proof.
  intros Ha. unfold IsTaggedMemory. change kTagMask with (2 ^ 42).
  rewrite <-Z.negb_odd, <-Z.bit0_odd, <-Z.shiftr_div_pow2, Z.shiftr_spec by lia.
  replace (0 + 42) with 42 by lia. apply Bool.eq_true_iff_eq.
  rewrite negb_true_iff, Z.eqb_eq. split.
  - intros E. assert (Z.testbit (Z.land a (2 ^ 42)) 42 = false) as H by (rewrite E; apply Z.bits_0).
    by rewrite Z.land_spec, Z.pow2_bits_true, andb_true_r in H by lia.
  - intros E. apply Z.bits_inj'. intros i Hi. rewrite Z.land_spec, Z.bits_0, Z.pow2_bits_eqb by lia.
    destruct (Z.eqb_spec 42 i) as [<-|]; [by rewrite E|by rewrite andb_false_r].
Qed.

(** A range with the same tag at both ends has it everywhere. *)
Lemma tag_between a n t :
  0 ≤ a → 0 < n ≤ 2 ^ 42 → IsTaggedMemory a = t → IsTaggedMemory (a + n - 1) = t →
  ∀ b, a ≤ b < a + n → b / 2 ^ 42 = a / 2 ^ 42.
Proof.
  intros Ha Hn H1 H2 b Hb. rewrite tagged_even in H1, H2 by lia.
  assert ((a + n - 1) / 2 ^ 42 = a / 2 ^ 42) as E.
  { assert (a / 2 ^ 42 ≤ (a + n - 1) / 2 ^ 42) by (apply Z.div_le_mono; lia).
    assert ((a + n - 1) / 2 ^ 42 < a / 2 ^ 42 + 2).
    { apply Z.div_lt_upper_bound; [lia|]. pose proof (Z.div_mod a (2 ^ 42)).
      pose proof (Z.mod_pos_bound a (2 ^ 42)). lia. }
    destruct (Z.eq_dec ((a + n - 1) / 2 ^ 42) (a / 2 ^ 42 + 1)) as [E|]; [|lia].
    rewrite E, Z.even_add in H2. rewrite H1 in H2. by destruct t. }
  assert (a / 2 ^ 42 ≤ b / 2 ^ 42) by (apply Z.div_le_mono; lia).
  assert (b / 2 ^ 42 ≤ (a + n - 1) / 2 ^ 42) by (apply Z.div_le_mono; lia). lia.
Qed.

(** A place for a range: it has the tag, and ends below [2^46]. *)
Definition good_place (p n : Z) (tagged : bool) : Prop :=
  0 ≤ p ∧ p + n ≤ 2 ^ 46 ∧ (tagged = true → p + n < 2 ^ 46) ∧
  ∀ a, p ≤ a < p + n → IsTaggedMemory a = tagged.

Lemma good_place_intro p n tagged :
  0 ≤ p < 2 ^ 46 → 0 < n ≤ 2 ^ 42 → IsTaggedMemory p = tagged → IsTaggedMemory (p + n - 1) = tagged →
  good_place p n tagged.
Proof.
  intros Hp Hn H1 H2. pose proof (tag_between p n tagged ltac:(lia) Hn H1 H2) as Hu.
  pose proof (Hu (p + n - 1) ltac:(lia)) as E.
  pose proof (Z.div_mod (p + n - 1) (2 ^ 42)). pose proof (Z.mod_pos_bound (p + n - 1) (2 ^ 42)).
  assert (p / 2 ^ 42 < 16) by (apply Z.div_lt_upper_bound; lia).
  split_and!; [lia|lia| |].
  - intros ->. rewrite tagged_even in H1 by lia.
    assert (p / 2 ^ 42 ≠ 15) by (intros E15; by rewrite E15 in H1). lia.
  - intros a Ha. rewrite <-H1, !tagged_even by lia. by rewrite (Hu a Ha).
Qed.

(** ** Rounding *)

Lemma land_wnot_pow2 x k : 0 ≤ k < 64 → is_word 64 x → Z.land x (wnot 64 (u64 (2 ^ k - 1))) = x - x mod 2 ^ k.
Proof.
  intros Hk Hx. assert (0 < 2 ^ k < 2 ^ 64) by (split; [lia|apply Z.pow_lt_mono_r; lia]).
  rewrite (wrap_small 64 (2 ^ k - 1)) by (unfold is_word; lia). apply land_wnot_mask; [lia|done].
Qed.

Section Correct.
Context (cfg : config) {K : Type} `{!Kernel K} {HKL : KernelLaws K}.
Local Abbreviation SysAlloc := (SysAlloc (K := K)).
Implicit Types s : SysAlloc.

Lemma RoundUp_spec size k s (Q : Z → SysAlloc → Prop) :
  0 < size → 0 ≤ k < 64 → size + 2 ^ k ≤ 2 ^ 64 - 1 →
  (∀ r, r mod 2 ^ k = 0 → size ≤ r < size + 2 ^ k → Q r s) → wp true (RoundUp size (2 ^ k)) Q s.
Proof.
  intros Hs Hk Hb HQ. unfold RoundUp, RoundDown.
  assert (0 < 2 ^ k) by lia. wp_step. wp_step.
  { rewrite (wrap_small 64 (2 ^ k - 1)) by (unfold is_word; lia).
    rewrite land_mask, Z.mod_same by lia. lia. }
  wp_step. rewrite (wrap_small 64 (size + 2 ^ k)) by (unfold is_word; lia).
  rewrite (wrap_small 64 (size + 2 ^ k - 1)) by (unfold is_word; lia).
  rewrite land_wnot_pow2 by (unfold is_word; lia).
  pose proof (Z.div_mod (size + 2 ^ k - 1) (2 ^ k)). pose proof (Z.mod_pos_bound (size + 2 ^ k - 1) (2 ^ k)).
  apply HQ; [|lia].
  replace (size + 2 ^ k - 1 - (size + 2 ^ k - 1) mod 2 ^ k) with ((size + 2 ^ k - 1) / 2 ^ k * 2 ^ k) by lia.
  apply Z.mod_mul. lia.
Qed.

Lemma RoundUpPowerOf2_spec size s (Q : Z → SysAlloc → Prop) :
  0 < size ≤ 2 ^ 42 → (∀ i, 0 ≤ i ≤ 42 → size ≤ 2 ^ i → Q (2 ^ i) s) → wp true (RoundUpPowerOf2 size) Q s.
Proof.
  intros Hs HQ. unfold RoundUpPowerOf2.
  assert (∀ n i, 0 ≤ i → 43 ≤ i + Z.of_nat n → i ≤ 42 →
    wp true (RoundUpPowerOf2_loop n i size) Q s) as H; [|apply H; lia].
  induction n as [|n IH]; intros i Hi Hn Hle; [lia|]. cbn [RoundUpPowerOf2_loop].
  rewrite Z.shiftl_1_l. assert (2 ^ i ≤ 2 ^ 42) by (apply Z.pow_le_mono_r; lia).
  rewrite wrap_small by (unfold is_word; lia). destruct (Z.leb_spec size (2 ^ i)).
  - wp_step. apply HQ; [lia|done].
  - assert (i ≠ 42) by (intros ->; lia). apply IH; lia.
Qed.

(** ** Hints *)

Definition next_ok (tagged : bool) (a : Z) : Prop := 0 ≤ a ≤ 2 ^ 46 ∧ (tagged = true → a < 2 ^ 46).

(** What reserving address space leaves alone. *)
Definition frame s s' : Prop :=
  pagesize s' = pagesize s ∧ preferred_alignment s' = preferred_alignment s ∧
  region_factory s' = region_factory s ∧ ∀ t, region_of t s' = region_of t s.

Lemma frame_refl s : frame s s.
Proof. done. Qed.

Lemma frame_trans s1 s2 s3 : frame s1 s2 → frame s2 s3 → frame s1 s3.
Proof.
  intros (H1 & H2 & H3 & H4) (H1' & H2' & H3' & H4'). split_and!; [congruence..|].
  intros t. by rewrite H4'.
Qed.

Definition same_mappings (k k' : K) : Prop := ∀ a, mapped k' a ↔ mapped k a.

(** The bits of a hint, from the random number [r]. *)
Lemma hint_bits r i (tagged : bool) :
  0 ≤ r → 0 ≤ i ≤ 42 →
  let addr := Z.land (Z.land (Z.land r kAddrMask) (wnot 64 (u64 (2 ^ i - 1)))) (wnot 64 kTagMask) in
  let h := if tagged then addr else Z.lor addr kTagMask in
  0 ≤ h ∧ ∀ j, 0 ≤ j →
    Z.testbit h j = if j =? 42 then negb tagged else Z.testbit r j && (i <=? j) && (j <? 46).
Proof.
  intros Hr Hi. change kTagMask with (2 ^ 42). change kAddrMask with (Z.ones 46).
  assert (2 ^ i - 1 = Z.ones i) as -> by (rewrite Z.ones_equiv; lia).
  assert (0 < 2 ^ i ≤ 2 ^ 42) by (split; [lia|apply Z.pow_le_mono_r; lia]).
  assert (u64 (Z.ones i) = Z.ones i) as ->.
  { apply wrap_small. unfold is_word. rewrite Z.ones_equiv. lia. }
  set (addr := Z.land _ _). assert (0 ≤ addr) as Ha.
  { apply Z.land_nonneg. right. apply (wnot_word 64). lia. }
  split.
  { destruct tagged; [done|]. apply Z.lor_nonneg. lia. }
  intros j Hj. assert (Z.testbit addr j = (if j =? 42 then false else Z.testbit r j && (i <=? j) && (j <? 46))) as E.
  { unfold addr. rewrite !Z.land_spec, !wnot_testbit, Z.pow2_bits_eqb by lia.
    rewrite !Z.testbit_ones_nonneg by lia. rewrite (Z.eqb_sym 42 j).
    destruct (Z.eqb_spec j 42) as [->|]; [by rewrite !andb_false_r|].
    destruct (Z.ltb_spec j 46), (Z.ltb_spec j i), (Z.leb_spec i j), (Z.ltb_spec j 64); try lia;
      by destruct (Z.testbit r j). }
  destruct tagged.
  - rewrite E. by destruct (j =? 42).
  - rewrite Z.lor_spec, E, Z.pow2_bits_eqb, (Z.eqb_sym 42 j) by lia.
    destruct (j =? 42); [done|]. by rewrite orb_false_r.
Qed.

Lemma hint_good r i size tagged h :
  0 ≤ h → 0 ≤ i ≤ 42 → 0 < size ≤ 2 ^ i →
  (∀ j, 0 ≤ j → Z.testbit h j = if j =? 42 then negb tagged else Z.testbit r j && (i <=? j) && (j <? 46)) →
  h mod 2 ^ i = 0 ∧ good_place h size tagged.
Proof.
  intros Hh Hi Hs Hbits.
  assert (h mod 2 ^ i = 0) as Hm.
  { rewrite <-Z.land_ones by lia. apply Z.bits_inj'. intros j Hj.
    rewrite Z.land_spec, Hbits, Z.testbit_ones_nonneg, Z.bits_0 by lia.
    destruct (Z.ltb_spec j i); [|by rewrite andb_false_r].
    replace (j =? 42) with false by lia. replace (i <=? j) with false by lia.
    by rewrite andb_false_r. }
  assert (is_word 46 h) as Hw.
  { apply word_of_testbit; [lia|done|]. intros j Hj. rewrite Hbits by lia.
    replace (j =? 42) with false by lia. replace (j <? 46) with false by lia. apply andb_false_r. }
  assert (2 ^ i ≤ 2 ^ 42) by (apply Z.pow_le_mono_r; lia).
  assert (IsTaggedMemory h = tagged) as Ht.
  { rewrite tagged_even, <-Z.negb_odd, <-Z.bit0_odd, <-Z.shiftr_div_pow2, Z.shiftr_spec by lia.
    replace (0 + 42) with 42 by lia. rewrite Hbits by lia. simpl. by destruct tagged. }
  split; [done|]. unfold is_word in Hw. apply good_place_intro; [lia|lia|done|].
  rewrite <-Ht, !tagged_even by lia. f_equal.
  assert (2 ^ 42 = 2 ^ i * 2 ^ (42 - i)) as -> by (rewrite <-Z.pow_add_r by lia; f_equal; lia).
  assert (0 < 2 ^ (42 - i)) by lia. rewrite <-!Z.div_div by lia. f_equal.
  apply Z.mod_divide in Hm as [q ->]; [|lia]. rewrite Z.div_mul by lia.
  symmetry. apply (Z.div_unique _ _ q (size - 1)); lia.
Qed.

Lemma on_kernel_spec {A} (f : K → A * K) (Q : A → SysAlloc → Prop) s :
  (∀ a k, f (kernel s) = (a, k) → Q a (set_kernel k s)) → wp true (on_kernel f) Q s.
Proof. intros H. unfold wp, on_kernel. destruct (f (kernel s)) as [a k] eqn:E. by apply H. Qed.

Lemma kPageSize_bounds : 0 < kPageSize cfg ≤ 2 ^ 18.
Proof. on_config cfg; by vm_compute. Qed.

Lemma NextRandom_nonneg r : 0 ≤ NextRandom r.
Proof. unfold NextRandom. apply Z.land_nonneg. left. apply (wrap_word 64). lia. Qed.

Lemma seed_rnd_spec s :
  room (kernel s) →
  wp true (seed_rnd cfg) (λ _ s', frame s s' ∧ (∀ t, next_addr t s' = next_addr t s) ∧ same_mappings (kernel s) (kernel s')) s.
Proof.
  intros Hr. pose proof kPageSize_bounds as Hp. unfold seed_rnd.
  destruct (mmap_room _ _ Hr Hp) as (p & k' & E). wp_step. apply on_kernel_spec. intros r k0 E0.
  rewrite E in E0. injection E0 as <- <-. wp_step. apply on_kernel_spec. intros ok k1 E1. simpl in E1.
  do 2 wp_step. wp_step. split; [done|]. split; [done|]. simpl.
  destruct (mmap_some _ _ _ _ _ (proj1 Hp) E) as (_ & Hal & Hfresh & Hmap).
  destruct (munmap_law _ _ _ _ _ (proj1 Hp) Hal ltac:(intros a Ha; apply Hmap; by right) E1) as (_ & Hmap').
  intros a. rewrite Hmap', Hmap. specialize (Hfresh a). tauto.
Qed.

Lemma RandomMmapHint_spec size k tagged s :
  0 < size ≤ 2 ^ 42 → 0 ≤ k ≤ 42 → (rnd s = None → room (kernel s)) →
  wp true (RandomMmapHint cfg size (2 ^ k) tagged) (λ h s',
    frame s s' ∧ (∀ t, next_addr t s' = next_addr t s) ∧ same_mappings (kernel s) (kernel s') ∧
    rnd s' ≠ None ∧ h mod 2 ^ k = 0 ∧ good_place h size tagged) s.
Proof.
  intros Hs Hk Hr. unfold RandomMmapHint. do 3 wp_step.
  apply (wp_mono _ _ (λ _ s', frame s s' ∧ (∀ t, next_addr t s' = next_addr t s) ∧
    same_mappings (kernel s) (kernel s'))).
  { destruct (rnd s) as [r|]; [by wp_step|]. by apply seed_rnd_spec, Hr. }
  intros r s1 (Hf & Hn & Hm). wp_step.
  assert (0 < 2 ^ k ≤ 2 ^ 42) by (split; [lia|apply Z.pow_le_mono_r; lia]).
  apply RoundUpPowerOf2_spec; [lia|]. intros i Hi Hle. do 2 wp_step. wp_step.
  destruct (hint_bits (NextRandom r) i tagged (NextRandom_nonneg r) Hi) as [Hh Hbits].
  destruct (hint_good _ i size tagged _ Hh Hi ltac:(lia) Hbits) as [Hmod Hg].
  split_and!; [exact Hf|exact Hn|exact Hm|done| |exact Hg].
  assert (k ≤ i) as Hki by (apply (Z.pow_le_mono_r_iff 2); lia).
  apply Z.mod_divide; [lia|]. apply Z.mod_divide in Hmod; [|lia].
  transitivity (2 ^ i); [|done]. exists (2 ^ (i - k)). rewrite <-Z.pow_add_r by lia. f_equal. lia.
Qed.

(** ** Reserving *)

(** A range of [n] bytes at [p] was added to the mappings. *)
Definition reserved (k : K) (p n : Z) (k' : K) : Prop :=
  0 < p ∧ p mod getpagesize = 0 ∧ (∀ a, p ≤ a < p + n → ¬ mapped k a) ∧
  ∀ a, mapped k' a ↔ mapped k a ∨ p ≤ a < p + n.

Lemma reserved_before k0 k p n k' : same_mappings k0 k → reserved k p n k' → reserved k0 p n k'.
Proof.
  intros Hm (H1 & H2 & H3 & H4). split_and!; [done|done| |].
  - intros a Ha. rewrite <-(Hm a). by apply H3.
  - intros a. by rewrite H4, (Hm a).
Qed.

Definition reserve_post (size k : Z) (tagged : bool) s (r : option Z) s' : Prop :=
  frame s s' ∧ next_addr (negb tagged) s' = next_addr (negb tagged) s ∧
  next_ok tagged (next_addr tagged s') ∧ rnd s' ≠ None ∧
  match r with
  | None => same_mappings (kernel s) (kernel s')
  | Some p => reserved (kernel s) p size (kernel s') ∧ p mod 2 ^ k = 0 ∧ good_place p size tagged
  end.

Lemma good_place_next p n t : 0 < n → good_place p n t → next_ok t p ∧ next_ok t (p + n).
Proof. intros Hn (H1 & H2 & H3 & _). split; (split; [lia|]); intros Ht; specialize (H3 Ht); lia. Qed.

Lemma next_addr_set t a s : next_addr t (set_next_addr t a s) = a.
Proof. by destruct t. Qed.

Lemma next_addr_set_other t a s : next_addr (negb t) (set_next_addr t a s) = next_addr (negb t) s.
Proof. by destruct t. Qed.

Lemma frame_set_next t a s : frame s (set_next_addr t a s).
Proof. split_and!; [done..|]. by intros []. Qed.

Lemma MmapAligned_loop_spec n size k tagged s :
  0 < size ≤ 2 ^ 42 → 0 ≤ k ≤ 42 → rnd s ≠ None →
  next_addr tagged s mod 2 ^ k = 0 → good_place (next_addr tagged s) size tagged →
  wp true (MmapAligned_loop cfg n size (2 ^ k) tagged) (reserve_post size k tagged s) s.
Proof.
  intros Hs Hk. revert s. induction n as [|n IH]; intros s Hr Hm Hg; cbn [MmapAligned_loop].
  { wp_step. split_and!; [apply frame_refl|done| |done|done]. apply (good_place_next _ size _ (proj1 Hs) Hg). }
  pose proof (good_place_next _ _ _ (proj1 Hs) Hg) as [Hn1 Hn2].
  do 3 wp_step. apply on_kernel_spec. intros [p|] k1 E1.
  2: { wp_step. split_and!; [done|by destruct tagged|by destruct tagged|done|]. exact (mmap_none _ _ _ _ E1). }
  pose proof (mmap_some _ _ _ _ _ (proj1 Hs) E1) as Hres. fold (reserved (kernel s) p size k1) in Hres.
  destruct (Z.eqb_spec p (next_addr tagged s)) as [->|Hne].
  - destruct Hg as (Hg1 & Hg2 & Hg3 & Hg4).
    do 4 wp_step. rewrite next_addr_set. rewrite wrap_small by (unfold is_word; lia).
    wp_step. wp_step; [change (1 ≪ kAddressBits) with (2 ^ 48); lia|]. wp_step.
    split_and!; [by apply (frame_set_next tagged (next_addr tagged s + size) (set_kernel k1 s))|by destruct tagged| |by destruct tagged|by destruct tagged|done|done].
    by rewrite next_addr_set.
  - wp_step. apply on_kernel_spec. intros ok k2 E2.
    replace (kernel (set_kernel k1 s)) with k1 in E2 by done.
    destruct Hres as (Hp & Hal & Hfresh & Hmap).
    destruct (munmap_law _ _ _ _ _ (proj1 Hs) Hal ltac:(intros a Ha; apply Hmap; by right) E2) as (-> & Hmap').
    wp_step. wp_step; [done|]. wp_step.
    eapply wp_mono; [by apply (RandomMmapHint_spec size k tagged)|].
    intros h s3 (Hf & Hn & Hm3 & Hr3 & Hmod & Hgood). do 2 wp_step.
    eapply wp_mono; [apply IH; [by destruct tagged|by rewrite next_addr_set|by rewrite next_addr_set]|].
    intros r s' (Hf' & Hn' & Hok' & Hr' & Hpost).
    assert (same_mappings (kernel s) (kernel s3)) as Hsame.
    { intros a. rewrite (Hm3 a). simpl. rewrite Hmap', Hmap. specialize (Hfresh a). tauto. }
    split_and!.
    + eapply frame_trans; [exact Hf|]. eapply frame_trans; [apply (frame_set_next tagged h)|exact Hf'].
    + rewrite Hn', next_addr_set_other, Hn. by destruct tagged.
    + done.
    + done.
    + replace (kernel (set_next_addr tagged h s3)) with (kernel s3) in Hpost by (by destruct tagged).
      destruct r as [q|].
      * destruct Hpost as (Hpost & ? & ?). split_and!; [|done|done]. by eapply reserved_before.
      * intros a. rewrite (Hpost a). apply Hsame.
Qed.

Lemma MmapAligned_spec size k tagged s :
  0 < size ≤ 2 ^ 42 → 0 ≤ k ≤ 42 → next_ok tagged (next_addr tagged s) →
  (rnd s = None → room (kernel s) ∧ next_addr tagged s = 0) →
  wp true (MmapAligned cfg size (2 ^ k) tagged) (reserve_post size k tagged s) s.
Proof.
  intros Hs Hk Hn Hr. unfold MmapAligned. change kTagMask with (2 ^ 42).
  assert (0 < 2 ^ k ≤ 2 ^ 42) by (split; [lia|apply Z.pow_le_mono_r; lia]).
  wp_step. wp_step; [lia|]. wp_step. wp_step; [lia|]. do 3 wp_step.
  apply (wp_mono _ _ (λ _ s1, frame s s1 ∧ next_addr (negb tagged) s1 = next_addr (negb tagged) s ∧
    same_mappings (kernel s) (kernel s1) ∧ rnd s1 ≠ None ∧ next_addr tagged s1 mod 2 ^ k = 0 ∧
    good_place (next_addr tagged s1) size tagged)).
  - destruct (_ || _) eqn:Eb.
    + wp_step. eapply wp_mono; [apply RandomMmapHint_spec; [done|done|]; intros H0; apply (Hr H0)|].
      intros h s1 (Hf & Hn1 & Hm1 & Hr1 & Hmod & Hgood). wp_step. rewrite next_addr_set, next_addr_set_other.
      split_and!; [|by rewrite Hn1|by destruct tagged|by destruct tagged|done|done].
      eapply frame_trans; [exact Hf|apply frame_set_next].
    + wp_step. apply orb_false_iff in Eb as [Eb E4]. apply orb_false_iff in Eb as [Eb E3].
      apply orb_false_iff in Eb as [E1 E2]. apply negb_false_iff in E2, E3, E4.
      apply Bool.eqb_prop in E3, E4. destruct Hn as [Hn1 Hn2].
      rewrite (wrap_small 64 (2 ^ k - 1)), land_mask in E2 by (unfold is_word; lia).
      rewrite (wrap_small 64 (next_addr tagged s + size)) in E4 by (unfold is_word; lia).
      rewrite wrap_small in E4 by (unfold is_word; lia).
      assert (next_addr tagged s ≠ 2 ^ 46) as Hne.
      { intros E. rewrite E in E3. change (IsTaggedMemory (2 ^ 46)) with true in E3. specialize (Hn2 (eq_sym E3)). lia. }
      split_and!; [done|done|done| |lia|by apply good_place_intro; [lia| | |]].
      intros E. destruct (Hr E) as [_ E0]. lia.
  - intros [] s1 (Hf & Hn1 & Hm1 & Hr1 & Hmod & Hgood).
    eapply wp_mono; [by apply MmapAligned_loop_spec|]. intros r s' (Hf' & Hn' & Hok' & Hr' & Hpost).
    split_and!; [by eapply frame_trans|congruence|done|done|].
    destruct r as [q|].
    + destruct Hpost as (Hpost & ? & ?). split_and!; [|done|done]. by eapply reserved_before.
    + intros a. by rewrite (Hpost a), (Hm1 a).
Qed.

(** ** Regions *)

Definition region_good (k : K) (tagged : bool) (r : MmapRegion) : Prop :=
  0 < start_ r ∧ 0 ≤ free_size_ r ∧ start_ r + free_size_ r ≤ 2 ^ 46 ∧
  ∀ a, start_ r ≤ a < start_ r + free_size_ r → mapped k a ∧ IsTaggedMemory a = tagged.

Record sys_ok s : Prop := {
  so_init : region_factory s = true → pagesize s = getpagesize ∧ preferred_alignment s = 2 ^ 21;
  so_uninit : region_factory s = false → pagesize s = 0 ∧ ∀ t, region_of t s = None;
  so_next t : next_ok t (next_addr t s);
  so_rnd : rnd s = None → room (kernel s) ∧ ∀ t, next_addr t s = 0 ∧ region_of t s = None;
  so_region t r : region_of t s = Some r → region_good (kernel s) t r;
}.

Lemma kMinSystemAlloc_pow : kMinSystemAlloc cfg = 2 ^ 21.
Proof. on_config cfg; by vm_compute. Qed.

Lemma kMinMmapAlloc_pow : ∃ k, kMinMmapAlloc cfg = 2 ^ k ∧ 21 ≤ k ≤ 30.
Proof. on_config cfg; first [exists 25; by vm_compute|exists 30; by vm_compute]. Qed.

(** The memory at the end of a region, from the greatest aligned address on. *)
Definition from_end (region : MmapRegion) (size k p n : Z) : Prop :=
  p mod 2 ^ Z.max k 21 = 0 ∧ start_ region ≤ p ∧ p + size ≤ start_ region + free_size_ region ∧
  start_ region + free_size_ region < p + size + 2 ^ Z.max k 21 ∧
  n = start_ region + free_size_ region - p.

Lemma max_pow k : 0 ≤ k → Z.max (2 ^ k) (2 ^ 21) = 2 ^ Z.max k 21.
Proof.
  intros Hk. destruct (Z.le_gt_cases k 21).
  - rewrite !Z.max_r; [done|done|]. by apply Z.pow_le_mono_r.
  - rewrite !Z.max_l; [done|lia|]. apply Z.pow_le_mono_r; lia.
Qed.

Lemma MmapRegion_Alloc_spec region request k s :
  pagesize s = getpagesize → preferred_alignment s = 2 ^ 21 →
  0 < start_ region → 0 ≤ free_size_ region → start_ region + free_size_ region ≤ 2 ^ 46 →
  0 < request ≤ 2 ^ 42 → 0 ≤ k ≤ 42 →
  wp true (MmapRegion_Alloc cfg region request (2 ^ k)) (λ '(r, region') s',
    same_mappings (kernel s) (kernel s') ∧ s' = set_kernel (kernel s') s ∧
    match r with
    | None => region' = region
    | Some (p, n) => region' = mk_region (start_ region) (p - start_ region) ∧
        ∃ size, size mod 2 ^ 21 = 0 ∧ request ≤ size < request + 2 ^ 21 ∧ from_end region size k p n
    end) s.
Proof.
  intros Hpg Hpref Hst Hfr Hend Hreq Hk. destruct region as [st fr]. simpl in *.
  unfold MmapRegion_Alloc. rewrite kMinSystemAlloc_pow. wp_step.
  apply RoundUp_spec; [lia|lia|lia|]. intros size Hsz Hsize.
  replace (size <? request) with false by lia. do 2 wp_step. rewrite Hpref, max_pow by lia.
  rewrite (wrap_small 64 (start_ _ + _)) by (simpl; unfold is_word; lia). simpl.
  assert (0 < 2 ^ Z.max k 21 ≤ 2 ^ 42) as HA by (split; [lia|apply Z.pow_le_mono_r; lia]).
  destruct (Z.le_gt_cases size (st + fr)) as [Hle|Hgt].
  2: { destruct (Z.ltb_spec (st + fr) (u64 (st + fr - size))) as [|Hbad]; [by wp_step; destruct s|exfalso].
    assert (u64 (st + fr - size) = st + fr - size + 2 ^ 64); [|lia].
    symmetry. unfold wrap. apply (Z.mod_unique _ _ (-1)); lia. }
  rewrite (wrap_small 64 (st + fr - size)) by (unfold is_word; lia).
  replace (st + fr <? st + fr - size) with false by lia.
  rewrite land_wnot_pow2 by (unfold is_word; lia).
  pose proof (Z.div_mod (st + fr - size) (2 ^ Z.max k 21)) as Hdm.
  pose proof (Z.mod_pos_bound (st + fr - size) (2 ^ Z.max k 21)) as Hmb.
  set (p := st + fr - size - (st + fr - size) mod 2 ^ Z.max k 21) in *.
  assert (p mod 2 ^ Z.max k 21 = 0) as Hp.
  { replace p with ((st + fr - size) / 2 ^ Z.max k 21 * 2 ^ Z.max k 21) by lia. apply Z.mod_mul. lia. }
  destruct (Z.ltb_spec p st); [by wp_step; destruct s|].
  do 3 wp_step. destruct getpagesize_law as (j & Hj & Ej). rewrite Hpg, Ej. wp_step.
  { apply andb_true_iff. split; [lia|]. apply Z.eqb_eq, Z.mod_divide; [lia|].
    apply Z.mod_divide in Hp; [|lia]. transitivity (2 ^ Z.max k 21); [|done].
    exists (2 ^ (Z.max k 21 - j)). rewrite <-Z.pow_add_r by lia. f_equal. lia. }
  wp_step. apply on_kernel_spec. intros ok k1 E1.
  assert (same_mappings (kernel s) k1) as Hm by exact (mprotect_law _ _ _ _ _ E1).
  rewrite (wrap_small 64 (st + fr - p)) by (unfold is_word; lia).
  destruct ok; [|wp_step; split; [exact Hm|done]]. wp_step. rewrite wrap_small by (unfold is_word; lia).
  split; [exact Hm|]. split; [done|]. split; [f_equal; lia|].
  exists size. split_and!; [done|lia|lia|]. unfold from_end. simpl. split_and!; [done|lia|lia|lia|lia].
Qed.

(** ** Allocations *)

Definition alloc_post (bytes k : Z) (tagged : bool) s (r : option (Z * Z)) s' : Prop :=
  sys_ok s' ∧ region_factory s' = true ∧ (∀ a, sys_given s a → sys_given s' a) ∧
  ∀ p n, r = Some (p, n) →
    0 < p ∧ bytes ≤ n ∧ p + n ≤ 2 ^ 46 ∧ p mod 2 ^ k = 0 ∧
    ∀ a, p ≤ a < p + n → ¬ sys_given s a ∧ sys_given s' a ∧ IsTaggedMemory a = tagged.

Lemma alloc_post_before bytes k tagged s s1 r s' :
  (∀ a, sys_given s a → sys_given s1 a) → alloc_post bytes k tagged s1 r s' → alloc_post bytes k tagged s r s'.
Proof.
  intros Hg (H1 & H2 & H3 & H4). split_and!; [done|done|eauto|].
  intros p n E. destruct (H4 p n E) as (Hp & Hb & He & Hm & Ha). split_and!; [done..|].
  intros a Hin. destruct (Ha a Hin) as (? & ? & ?). split_and!; eauto.
Qed.

Lemma region_of_set t t' r s : region_of t (set_region t' r s) = if Bool.eqb t t' then r else region_of t s.
Proof. by destruct t, t'. Qed.

Lemma region_good_mappings k k' t r :
  (∀ a, mapped k a → mapped k' a) → region_good k t r → region_good k' t r.
Proof. intros Hm (? & ? & ? & Hr). split_and!; [done..|]. intros a Ha. split; [apply Hm|]; by apply Hr. Qed.

(** Changing the kernel without removing mappings keeps the invariant. *)
Lemma sys_ok_frame s s' :
  sys_ok s → frame s s' → (∀ t, next_ok t (next_addr t s')) →
  (rnd s' = None → room (kernel s') ∧ ∀ t, next_addr t s' = 0 ∧ region_of t s' = None) →
  (∀ t r, region_of t s = Some r → region_good (kernel s') t r) → sys_ok s'.
Proof.
  intros [Hi Hu _ _ _] (H1 & H2 & H3 & H4) Hn Hr Hg. split.
  - by rewrite H1, H2, H3.
  - rewrite H1, H3. intros E. destruct (Hu E) as [? Hno]. split; [done|]. intros t. by rewrite H4.
  - done.
  - done.
  - intros t r. rewrite H4. apply Hg.
Qed.

(** What the clients get from the kept region is new to them. *)
Lemma region_step bytes k tagged region s :
  sys_ok s → region_factory s = true → region_of tagged s = Some region →
  0 < bytes ≤ 2 ^ 42 → 0 ≤ k ≤ 42 →
  wp true (region_Alloc cfg region bytes (2 ^ k) tagged) (alloc_post bytes k tagged s) s.
Proof.
  intros Hok Hf Hreg Hb Hk. destruct (so_init s Hok Hf) as [Hpg Hpref].
  assert (rnd s ≠ None) as Hrnd.
  { intros E. destruct (so_rnd s Hok E) as [_ H]. destruct (H tagged). congruence. }
  destruct (so_region s Hok tagged region Hreg) as (Hst & Hfr & Hend & Hin).
  unfold region_Alloc. wp_step. eapply wp_mono; [by apply MmapRegion_Alloc_spec|].
  intros [r region'] s1 (Hm & Es1 & Hr). do 3 wp_step.
  set (s2 := set_region tagged (Some region') s1).
  assert (kernel s2 = kernel s1) as Ek by done.
  assert (start_ region' = start_ region ∧ 0 ≤ free_size_ region' ≤ free_size_ region) as [Hst' Hfr'].
  { destruct r as [[p n]|]; [|subst region'; lia]. destruct Hr as (-> & size & _ & ? & Hfe). simpl.
    unfold from_end in Hfe. lia. }
  assert (∀ t r0, region_of t s2 = Some r0 → region_good (kernel s2) t r0) as Hregs.
  { intros t r0. unfold s2 at 1. rewrite region_of_set. destruct (Bool.eqb_spec t tagged) as [->|].
    - intros [= <-]. split_and!; [lia|lia|lia|]. intros a Ha. rewrite Ek, (Hm a). apply Hin. lia.
    - rewrite Es1. intros E. eapply region_good_mappings; [|by apply (so_region s Hok)].
      intros a. rewrite Ek. apply (Hm a). }
  assert (sys_ok s2) as Hok2.
  { split; [| | | |exact Hregs].
    - intros _. unfold s2. rewrite Es1. by destruct tagged.
    - unfold s2. rewrite Es1. simpl. by rewrite Hf.
    - intros t. pose proof (so_next s Hok t) as Hn. unfold s2. rewrite Es1. by destruct t.
    - unfold s2. rewrite Es1. simpl. done. }
  assert (∀ a, sys_given s a → sys_given s2 a) as Hmono.
  { intros a [Hma Hnot]. split; [rewrite Ek; by apply Hm|]. intros t r0. unfold s2. rewrite region_of_set.
    destruct (Bool.eqb_spec t tagged) as [->|].
    - intros [= <-]. specialize (Hnot tagged region Hreg). lia.
    - rewrite Es1. apply Hnot. }
  split_and!; [done|unfold s2; by rewrite Es1|done|].
  intros p n ->. destruct Hr as (-> & size & Hsz & Hsize & Hp & Hlo & Hfit & Hlast & ->). simpl in *.
  split_and!; [lia|lia|lia| |].
  - apply Z.mod_divide; [lia|]. apply Z.mod_divide in Hp; [|lia]. transitivity (2 ^ Z.max k 21); [|done].
    exists (2 ^ (Z.max k 21 - k)). rewrite <-Z.pow_add_r by lia. f_equal. lia.
  - intros a Ha. destruct (Hin a) as [Hma Hta]; [lia|]. split_and!; [|split|done].
    + intros [_ Hnot]. specialize (Hnot tagged region Hreg). lia.
    + by apply Hm.
    + intros t r0 E. destruct (Hregs t r0 E) as (_ & _ & _ & Hr0). unfold s2 in E.
      rewrite region_of_set in E. destruct (Bool.eqb_spec t tagged) as [->|Hne].
      * injection E as <-. simpl. lia.
      * intros Hc. destruct (Hr0 a Hc) as [_ Hta']. congruence.
Qed.

(** What was reserved is removed again, or stays: the clients lose nothing. *)
Lemma reserved_given s s' p n t :
  frame s s' → reserved (kernel s) p n (kernel s') → ∀ a, sys_given s a →
  mapped (kernel s') a ∧ ¬ p ≤ a < p + n ∧
  ∀ r, region_of t s = Some r → ¬ start_ r ≤ a < start_ r + free_size_ r.
Proof.
  intros Hf (_ & _ & Hfresh & Hm) a [Hma Hnot]. split_and!; [apply Hm; by left| |by apply Hnot].
  intros Ha. by apply (Hfresh a).
Qed.

Lemma Create_spec start size s :
  wp true (MmapRegionFactory_Create start size) (λ r s',
    frame s s' ∧ (∀ t, next_addr t s' = next_addr t s) ∧ rnd s' = rnd s ∧
    (∀ a, mapped (kernel s) a → mapped (kernel s') a) ∧
    (r = None ∨ r = Some (mk_region start size))) s.
Proof.
  unfold MmapRegionFactory_Create. wp_step. apply on_kernel_spec. intros [p|] k' E.
  - do 3 wp_step. split_and!; [done..| |by right]. exact (low_level_alloc_law _ _ _ _ E).
  - wp_step. split_and!; [done..| |by left]. exact (low_level_alloc_law _ _ _ _ E).
Qed.

(** The state after a reservation keeps the invariant. *)
Lemma reserve_ok size k tagged s r s' :
  sys_ok s → reserve_post size k tagged s r s' → sys_ok s' ∧ (∀ a, mapped (kernel s) a → mapped (kernel s') a).
Proof.
  intros Hok (Hf & Hn & Hnext & Hrnd & Hpost).
  assert (∀ a, mapped (kernel s) a → mapped (kernel s') a) as Hm.
  { intros a Ha. destruct r as [p|]; [|by apply Hpost]. destruct Hpost as ((_ & _ & _ & Hmap) & _).
    apply Hmap. by left. }
  split; [|done]. apply (sys_ok_frame s); [done|done| |done|].
  - intros t. destruct (Bool.bool_dec t tagged) as [->|Hne]; [done|].
    assert (t = negb tagged) as -> by (by destruct t, tagged). rewrite Hn. apply Hok.
  - intros t r0 E. eapply region_good_mappings; [done|by apply Hok].
Qed.

Lemma given_mono s s' :
  (∀ t, region_of t s' = region_of t s) → (∀ a, mapped (kernel s) a → mapped (kernel s') a) →
  ∀ a, sys_given s a → sys_given s' a.
Proof. intros Hr Hm a [Hma Hnot]. split; [by apply Hm|]. intros t r. rewrite Hr. apply Hnot. Qed.

(** The post condition of an allocation that failed. *)
Lemma alloc_none bytes k tagged s s' :
  sys_ok s' → region_factory s' = true → (∀ a, sys_given s a → sys_given s' a) →
  alloc_post bytes k tagged s None s'.
Proof. by intros H1 H2 H3. Qed.

(** Unmapping a range that was reserved after [s]. *)
Lemma unmap_ok s s1 s2 p n (k3 : K) :
  sys_ok s2 → rnd s2 ≠ None → reserved (kernel s) p n (kernel s1) →
  (∀ t r a, region_of t s2 = Some r → start_ r ≤ a < start_ r + free_size_ r → mapped (kernel s) a) →
  (∀ a, mapped k3 a ↔ mapped (kernel s2) a ∧ ¬ p ≤ a < p + n) →
  sys_ok (set_kernel k3 s2) ∧ (∀ a, mapped (kernel s) a → sys_given s2 a → sys_given (set_kernel k3 s2) a).
Proof.
  intros Hok Hrnd (_ & _ & Hfresh & _) Hregs Hm. split.
  - apply (sys_ok_frame s2); [done|done| |done|].
    + intros t. destruct t; apply Hok.
    + intros t r E. destruct (so_region s2 Hok t r E) as (? & ? & ? & Hin). split_and!; [done..|].
      intros a Ha. split; [|by apply Hin]. apply Hm. split; [by apply Hin|].
      intros Hp. apply (Hfresh a Hp). by eapply Hregs.
  - intros a Ha [Hma Hnot]. split; [|intros t r; exact (Hnot t r)]. apply Hm. split; [done|].
    intros Hp. by apply (Hfresh a Hp).
Qed.

Lemma sys_ok_set_region tagged r0 s :
  sys_ok s → region_factory s = true → rnd s ≠ None →
  (∀ r, r0 = Some r → region_good (kernel s) tagged r) → sys_ok (set_region tagged r0 s).
Proof.
  intros [Hi Hu Hn Hr Hg] Hf Hrnd Hr0. split.
  - done.
  - simpl. congruence.
  - intros t. by destruct t; [apply (Hn true)|apply (Hn false)].
  - done.
  - intros t r. rewrite region_of_set. destruct (Bool.eqb_spec t tagged) as [->|]; [apply Hr0|apply Hg].
Qed.

Lemma given_set_region tagged r0 s s2 a :
  (∀ t, region_of t s2 = region_of t s) → mapped (kernel s2) a → sys_given s a →
  (∀ r, r0 = Some r → ¬ start_ r ≤ a < start_ r + free_size_ r) → sys_given (set_region tagged r0 s2) a.
Proof.
  intros Hr Hm [_ Hnot] Hr0. split; [done|]. intros t r. rewrite region_of_set.
  destruct (Bool.eqb_spec t tagged); [apply Hr0|]. rewrite Hr. apply Hnot.
Qed.

Lemma reserve_spec bytes k tagged s :
  sys_ok s → region_factory s = true → 0 < bytes ≤ 2 ^ 42 → 0 ≤ k ≤ 42 →
  wp true (RegionManager_reserve cfg bytes (2 ^ k) tagged) (alloc_post bytes k tagged s) s.
Proof.
  intros Hok Hf Hb Hk. destruct kMinMmapAlloc_pow as (kb & Ekb & Hkb).
  assert (0 < 2 ^ kb ≤ 2 ^ 30) as Hpow by (split; [lia|apply Z.pow_le_mono_r; lia]).
  unfold RegionManager_reserve. rewrite !Ekb. wp_step.
  eapply wp_mono; [apply MmapAligned_spec; [lia|lia|apply Hok|]|].
  { intros E. destruct (so_rnd s Hok E) as [? H]. split; [done|]. apply H. }
  intros r s1 Hres. destruct (reserve_ok _ _ _ _ _ _ Hok Hres) as [Hok1 Hm1].
  destruct Hres as ((_ & _ & Hf1 & Hreg1) & _ & _ & Hrnd1 & Hpost).
  destruct r as [p|]; [|wp_step; apply alloc_none; [done|congruence|by apply given_mono]].
  destruct Hpost as (Hres & _ & Hgood). wp_step.
  eapply wp_mono; [apply Create_spec|].
  intros r s2 (Hfr & Hnext & Ernd & Hm2 & Hr). pose proof Hfr as (_ & _ & Hf2 & Hreg2). do 2 wp_step.
  assert (∀ t, t ≠ tagged → region_of t s2 = region_of t s) as Hother by (intros t _; congruence).
  assert (sys_ok s2) as Hok2.
  { apply (sys_ok_frame s1); [done|done| |by rewrite Ernd|].
    - intros t. rewrite Hnext. apply Hok1.
    - intros t r0 E. eapply region_good_mappings; [done|by apply Hok1]. }
  assert (∀ t, region_of t s2 = region_of t s) as Hregs by congruence.
  assert (region_factory s2 = true ∧ rnd s2 ≠ None) as [Hf2' Hrnd2] by (split; congruence).
  pose proof Hres as (Hp & Hal & Hfresh & Hmap).
  destruct Hr as [->| ->].
  - wp_step. apply on_kernel_spec. intros ok k3 E3. wp_step.
    destruct (munmap_law _ _ _ _ _ (proj1 Hpow) Hal ltac:(intros a Ha; apply Hm2, Hmap; by right) E3) as (_ & Hm3).
    destruct (unmap_ok s s1 (set_region tagged None s2) p (2 ^ kb) k3) as [Hok3 Hg3]; [|done|done| |done|].
    + by apply sys_ok_set_region.
    + intros t r0 a. rewrite region_of_set. destruct (Bool.eqb t tagged); [done|]. rewrite Hregs. intros E Ha.
      by apply (so_region s Hok t r0 E).
    + apply alloc_none; [done|done|]. intros a Ha. apply Hg3; [apply Ha|].
      eapply given_set_region; [done|by apply Hm2, Hm1, Ha|done|done].
  - eapply wp_mono; [apply region_step; [|done|by destruct tagged|done|done]|].
    + apply sys_ok_set_region; [done..|]. intros r0 [= <-]. destruct Hgood as (? & ? & ? & Ht).
      split_and!; simpl; [lia|lia|lia|]. intros a Ha. split; [|by apply Ht]. apply Hm2, Hmap. by right.
    + intros r s4. apply alloc_post_before. intros a Ha.
      eapply given_set_region; [done|by apply Hm2, Hm1, Ha|done|].
      intros r0 [= <-] Hin. apply (Hfresh a Hin), Ha.
Qed.

Lemma Allocate_spec bytes k tagged s :
  sys_ok s → region_factory s = true → 0 < bytes ≤ 2 ^ 42 → 0 ≤ k ≤ 42 →
  wp true (RegionManager_Allocate cfg bytes (2 ^ k) tagged) (alloc_post bytes k tagged s) s.
Proof.
  intros Hok Hf Hb Hk. unfold RegionManager_Allocate. do 3 wp_step.
  apply (wp_mono _ _ (alloc_post bytes k tagged s)).
  { destruct (region_of tagged s) as [region|] eqn:Er; [by apply region_step|].
    wp_step. by apply alloc_none. }
  intros [r|] s1 Hpost; [by wp_step|]. destruct Hpost as (Hok1 & Hf1 & Hg1 & _).
  eapply wp_mono; [by apply reserve_spec|]. intros r s'. by apply alloc_post_before.
Qed.

Lemma divide_pow_mod p j k : 0 ≤ j ≤ k → p mod 2 ^ k = 0 → p mod 2 ^ j = 0.
Proof.
  intros Hj Hp. apply Z.mod_divide; [lia|]. apply Z.mod_divide in Hp; [|lia]. transitivity (2 ^ k); [|done].
  exists (2 ^ (k - j)). rewrite <-Z.pow_add_r by lia. f_equal. lia.
Qed.

Lemma large_spec bytes k tagged s :
  sys_ok s → region_factory s = true → 0 < bytes ≤ 2 ^ 42 → 0 ≤ k ≤ 42 →
  wp true (RegionManager_large cfg bytes (2 ^ k) tagged) (alloc_post bytes k tagged s) s.
Proof.
  intros Hok Hf Hb Hk. unfold RegionManager_large. rewrite kMinSystemAlloc_pow. wp_step.
  apply RoundUp_spec; [lia|lia|lia|]. intros size Hsz Hsize.
  replace (size <? bytes) with false by lia.
  destruct (so_init s Hok Hf) as [Hpg Hpref]. do 3 wp_step. rewrite Hpref, max_pow by lia.
  set (ka := Z.max k 21) in *.
  assert (0 < size ≤ 2 ^ 42) as Hs42.
  { apply Z.mod_divide in Hsz as [q ->]; [|lia]. lia. }
  eapply wp_mono; [apply MmapAligned_spec; [done|lia|apply Hok|]|].
  { intros E. destruct (so_rnd s Hok E) as [? H]. split; [done|]. apply H. }
  intros r s1 Hres. destruct (reserve_ok _ _ _ _ _ _ Hok Hres) as [Hok1 Hm1].
  destruct Hres as ((Hpg1 & Hpref1 & Hf1 & Hreg1) & _ & _ & Hrnd1 & Hpost).
  destruct r as [p|]; [|wp_step; apply alloc_none; [done|congruence|by apply given_mono]].
  destruct Hpost as (Hres & Hpk & Hgood). wp_step. eapply wp_mono; [apply Create_spec|].
  intros r s2 (Hfr & Hnext & Ernd & Hm2 & Hr). pose proof Hfr as (Hpg2 & Hpref2 & Hf2 & Hreg2).
  assert (sys_ok s2) as Hok2.
  { apply (sys_ok_frame s1); [done|done| |by rewrite Ernd|].
    - intros t. rewrite Hnext. apply Hok1.
    - intros t r0 E. eapply region_good_mappings; [done|by apply Hok1]. }
  assert (∀ t, region_of t s2 = region_of t s) as Hregs by congruence.
  assert (region_factory s2 = true ∧ rnd s2 ≠ None) as [Hf2' Hrnd2] by (split; congruence).
  assert (∀ a, sys_given s a → sys_given s2 a) as Hg2 by (apply given_mono; auto).
  pose proof Hres as (Hp & Hal & Hfresh & Hmap). destruct Hgood as (Hg1 & Hgend & _ & Htag).
  destruct Hr as [->| ->].
  - wp_step. apply on_kernel_spec. intros ok k3 E3. wp_step.
    destruct (munmap_law _ _ _ _ _ (proj1 Hs42) Hal ltac:(intros a Ha; apply Hm2, Hmap; by right) E3) as (_ & Hm3).
    destruct (unmap_ok s s1 s2 p size k3) as [Hok3 Hg3]; [done|done|done| |done|].
    + intros t r0 a. rewrite Hregs. intros E Ha. by apply (so_region s Hok t r0 E).
    + apply alloc_none; [done|done|]. intros a Ha. apply Hg3; [apply Ha|auto].
  - wp_step. eapply wp_mono; [apply MmapRegion_Alloc_spec; simpl; [congruence|congruence|lia|lia|lia|done|lia]|].
    intros [r region'] s3 (Hm3 & Es3 & Hr).
    assert (sys_ok s3) as Hok3.
    { rewrite Es3. apply (sys_ok_frame s2); [done|done| |done|].
      - intros t. destruct t; apply Hok2.
      - intros t r0 E. eapply region_good_mappings; [|by apply Hok2]. intros a. apply (Hm3 a). }
    assert (∀ t, region_of t s3 = region_of t s2) as Hreg3 by (intros t; rewrite Es3; by destruct t).
    assert (∀ a, sys_given s a → sys_given s3 a) as Hg3.
    { intros a Ha. apply (given_mono s2); [done|intros b; apply (Hm3 b)|auto]. }
    assert (region_factory s3 = true) as Hf3 by (rewrite Es3; done).
    destruct r as [[q n]|]; [|wp_step; by apply alloc_none].
    destruct Hr as (_ & size' & Hsz' & Hsize' & Hq & Hlo & Hfit & Hlast & ->). simpl in *.
    replace (Z.max (Z.max k 21) 21) with (Z.max k 21) in * by lia. fold ka in Hq, Hlast.
    assert (size' = size) as ->.
    { apply Z.mod_divide in Hsz as [x ->]; [|lia]. apply Z.mod_divide in Hsz' as [y ->]; [|lia]. lia. }
    assert (q = p) as -> by lia. wp_step. wp_step; [lia|]. wp_step. wp_step; [lia|]. wp_step.
    replace (p + size - p) with size by lia. split_and!; [done|done|done|].
    intros p0 n0 [= <- <-]. split_and!; [lia|lia|lia|by apply (divide_pow_mod p k ka); [lia|]|].
    intros a Ha. split_and!; [|split|by apply Htag].
    + intros [Hma _]. by apply (Hfresh a).
    + apply (Hm3 a), Hm2, Hmap. by right.
    + intros t r0. rewrite Hreg3, Hregs. intros E Hin. apply (Hfresh a Ha). by apply (so_region s Hok t r0 E).
Qed.

Lemma sys_Alloc_spec bytes j tagged s :
  sys_ok s → 0 < bytes < 2 ^ 64 → 0 ≤ j < 64 →
  wp true (sys_Alloc cfg bytes (2 ^ j) tagged) (λ r s', sys_ok s' ∧
    (region_factory s = true → region_factory s' = true) ∧ (∀ a, sys_given s a → sys_given s' a) ∧
    ∀ p n, r = Some (p, n) → region_factory s' = true ∧ 0 < p ∧ bytes ≤ n ∧ p + n ≤ 2 ^ 46 ∧ p mod 2 ^ j = 0 ∧
      ∀ a, p ≤ a < p + n → ¬ sys_given s a ∧ sys_given s' a ∧ IsTaggedMemory a = tagged) s.
Proof.
  intros Hok Hb Hj. unfold sys_Alloc. do 2 wp_step. destruct getpagesize_law as (jp & Hjp & Ejp).
  assert (∃ k, Z.max (2 ^ j) (pagesize s) = 2 ^ k ∧ j ≤ k < 64) as (k & -> & Hk).
  { destruct (region_factory s) eqn:Ef.
    - destruct (so_init s Hok Ef) as [-> _]. rewrite Ejp. exists (Z.max j jp).
      split; [|lia]. destruct (Z.le_gt_cases j jp).
      + rewrite !Z.max_r; [done|done|]. apply Z.pow_le_mono_r; lia.
      + rewrite !Z.max_l; [done|lia|]. apply Z.pow_le_mono_r; lia.
    - destruct (so_uninit s Hok Ef) as [-> _]. exists j. split; [|lia]. apply Z.max_l. lia. }
  destruct (u64 (bytes + 2 ^ k) <? bytes); [by wp_step|].
  wp_step. unfold InitSystemAllocatorIfNecessary. do 2 wp_step.
  set (s0 := if region_factory s then s else _).
  assert (sys_ok s0 ∧ region_factory s0 = true ∧ ∀ a, sys_given s a → sys_given s0 a) as (Hok0 & Hf0 & Hg0).
  { unfold s0. destruct (region_factory s) eqn:Ef; [done|]. split_and!; [|done|].
    - destruct Hok as [_ Hu Hn Hr Hg]. destruct (Hu Ef) as [_ Hno]. split; simpl.
      + intros _. split; [done|]. rewrite kMinSystemAlloc_pow, Ejp. apply Z.max_r. apply Z.pow_le_mono_r; lia.
      + done.
      + intros t. by destruct t; [apply (Hn true)|apply (Hn false)].
      + intros E. destruct (Hr E) as [? Hz]. split; [done|].
        intros t. split; [by destruct t; [apply (Hz true)|apply (Hz false)]|by destruct t].
      + by intros [] r.
    - intros a [Hm _]. split; [done|]. by intros [] r. }
  apply (wp_mono _ _ (alloc_post bytes k tagged s0)).
  { unfold RegionManager_Alloc. change kTagMask with (2 ^ 42).
    destruct (_ || _) eqn:Eb; [wp_step; by apply alloc_none|].
    apply orb_false_iff in Eb as [E1 E2].
    assert (k ≤ 42) by (apply (Z.pow_le_mono_r_iff 2); lia).
    destruct (_ || _); [apply large_spec|apply Allocate_spec]; first [done|lia]. }
  intros [[p n]|] s' (Hok' & Hf' & Hg' & Hp).
  - destruct (Hp p n eq_refl) as (Hp0 & Hpn & Hpe & Hpm & Ha).
    assert (0 < n) by lia. wp_step. unfold CheckAddressBits. wp_step.
    { rewrite (wrap_small 64 (p + n)), wrap_small by (unfold is_word; lia). apply Z.eqb_eq.
      rewrite Z.shiftr_div_pow2 by (unfold kAddressBits; lia). apply Z.div_small.
      change (2 ^ kAddressBits) with (2 ^ 48). lia. }
    wp_step. wp_step. { destruct (Ha p) as (_ & _ & ->); [lia|]. by destruct tagged. }
    wp_step. split_and!; [done|done|eauto|]. intros p0 n0 [= <- <-].
    split_and!; [done..|by apply (divide_pow_mod p j k); [lia|]|].
    intros a Hin. destruct (Ha a Hin) as (? & ? & ?). split_and!; eauto.
  - wp_step. split_and!; [done|done|eauto|done].
Qed.

(** ** Releases *)

(** A call that may be retried changes no mapping. *)
Definition harmless (call : K → sys_result * K) : Prop := ∀ k r k', call k = (r, k') →
  same_mappings k k' ∧ (room k → room k') ∧ (r = SysAgain → (patience k' < patience k)%nat).

Definition only_kernel s s' : Prop :=
  s' = set_kernel (kernel s') s ∧ same_mappings (kernel s) (kernel s') ∧ (room (kernel s) → room (kernel s')).

Lemma only_kernel_trans s1 s2 s3 : only_kernel s1 s2 → only_kernel s2 s3 → only_kernel s1 s3.
Proof.
  intros (E & Hm & Hr) (E' & Hm' & Hr'). split_and!; [|intros a; by rewrite (Hm' a), (Hm a)|auto].
  rewrite E', E. done.
Qed.

Lemma retry_spec call s : harmless call → wp true (retry call) (λ _ s', only_kernel s s') s.
Proof.
  intros Hc. unfold retry. do 2 wp_step.
  assert (∀ fuel s, (patience (kernel s) < fuel)%nat → wp true (retry_loop fuel call) (λ _ s', only_kernel s s') s)
    as H; [|apply H; lia].
  clear s. induction fuel as [|fuel IH]; intros s Hfuel; [lia|]. cbn [retry_loop]. wp_step.
  apply on_kernel_spec. intros r k E. destruct (Hc _ _ _ E) as (Hm & Hr & Ha).
  assert (only_kernel s (set_kernel k s)) as Hk by done.
  destruct r; [by wp_step| |by wp_step].
  eapply wp_mono; [apply IH; simpl; specialize (Ha eq_refl); lia|].
  intros b s'. by apply only_kernel_trans.
Qed.

Lemma madvise_harmless adv p n : harmless (madvise adv p n).
Proof. intros k r k' E. exact (madvise_law _ _ _ _ _ _ E). Qed.

Lemma ReleasePages_spec p n s : wp true (ReleasePages p n) (λ _ s', only_kernel s s') s.
Proof.
  unfold ReleasePages. wp_step. eapply wp_mono; [apply retry_spec, madvise_harmless|].
  intros [] s1 H1; [by wp_step|]. eapply wp_mono; [apply retry_spec, madvise_harmless|].
  intros b s2. by apply only_kernel_trans.
Qed.

(** The bounds of the whole pages of a range. *)
Lemma page_bounds p n j :
  0 ≤ p → 0 ≤ n → p + n ≤ 2 ^ 48 → 12 ≤ j ≤ 21 →
  let new_start := Z.land (u64 (u64 (p + 2 ^ j) - 1)) (wnot 64 (u64 (2 ^ j - 1))) in
  let new_end := Z.land (u64 (p + n)) (wnot 64 (u64 (2 ^ j - 1))) in
  new_start mod 2 ^ j = 0 ∧ new_end mod 2 ^ j = 0 ∧ p ≤ new_start < p + 2 ^ j ∧
  p + n - 2 ^ j < new_end ≤ p + n.
Proof.
  intros Hp Hn He Hj. assert (0 < 2 ^ j ≤ 2 ^ 21) by (split; [lia|apply Z.pow_le_mono_r; lia]).
  rewrite (wrap_small 64 (p + 2 ^ j)), (wrap_small 64 (p + 2 ^ j - 1)), (wrap_small 64 (p + n)) by (unfold is_word; lia).
  rewrite !land_wnot_pow2 by (unfold is_word; lia). cbv zeta.
  assert (∀ x, (x - x mod 2 ^ j) mod 2 ^ j = 0) as Hz.
  { intros x. rewrite Zminus_mod_idemp_r, Z.sub_diag. apply Z.mod_0_l. lia. }
  pose proof (Z.mod_pos_bound (p + 2 ^ j - 1) (2 ^ j)). pose proof (Z.mod_pos_bound (p + n) (2 ^ j)).
  pose proof (Z.div_mod (p + 2 ^ j - 1) (2 ^ j)).
  split_and!; [apply Hz|apply Hz|lia|lia|lia|lia].
Qed.

Lemma sys_Release_spec p n s :
  sys_ok s → region_factory s = true → 0 ≤ p → 0 ≤ n → p + n ≤ 2 ^ 48 →
  wp true (sys_Release p n) (λ _ s', frame s s' ∧ same_mappings (kernel s) (kernel s') ∧ rnd s' = rnd s ∧
    (∀ t, next_addr t s' = next_addr t s) ∧ (room (kernel s) → room (kernel s'))) s.
Proof.
  intros Hok Hf Hp Hn He. unfold sys_Release. do 2 wp_step.
  destruct (so_init s Hok Hf) as [-> _]. destruct getpagesize_law as (j & Hj & ->).
  destruct (page_bounds p n j Hp Hn He Hj) as (Hs0 & He0 & Hs1 & He1).
  assert (0 < 2 ^ j ≤ 2 ^ 21) by (split; [lia|apply Z.pow_le_mono_r; lia]).
  assert (u64 (p + n) = p + n) as Eu by (apply wrap_small; unfold is_word; lia).
  set (new_start := Z.land (u64 (u64 (p + 2 ^ j) - 1)) _) in *. set (new_end := Z.land (u64 (p + n)) _) in *.
  rewrite (wrap_small 64 (2 ^ j - 1)) by (unfold is_word; lia).
  wp_step. wp_step; [rewrite land_mask by lia; lia|]. wp_step. wp_step; [rewrite land_mask by lia; lia|].
  wp_step. wp_step; [lia|]. wp_step. wp_step; [lia|].
  assert (∀ s', only_kernel s s' → frame s s' ∧ same_mappings (kernel s) (kernel s') ∧ rnd s' = rnd s ∧
    (∀ t, next_addr t s' = next_addr t s) ∧ (room (kernel s) → room (kernel s'))) as Hdone.
  { intros s' (E & Hm & Hr). rewrite E. split_and!; try done; by intros []. }
  destruct (new_start <? new_end); [|wp_step; split_and!; done].
  wp_step. eapply wp_mono; [apply ReleasePages_spec|]. intros [] s1 H1; [wp_step; by apply Hdone|].
  wp_step. eapply wp_mono; [apply retry_spec; intros k r k' E; exact (munlock_law _ _ _ _ _ E)|].
  intros unlocked s2 H2. wp_step.
  apply (wp_mono _ _ (λ _ s3, only_kernel s s3)).
  { destruct unlocked.
    - eapply wp_mono; [apply ReleasePages_spec|]. intros b s3 H3.
      eapply only_kernel_trans; [exact H1|]. eapply only_kernel_trans; [exact H2|exact H3].
    - wp_step. by eapply only_kernel_trans. }
  intros [] s3 H3; wp_step; [by apply Hdone|].
  destruct (Hdone s3 H3) as (? & ? & ? & ? & ?). split_and!; try done; by intros [].
Qed.

#[export] Instance SysAlloc_laws : SystemMemoryLaws SysAlloc (SystemMemory0 := SysAlloc_memory cfg).
Proof.
  refine {| system_ok := sys_ok; system_up s := region_factory s = true |}.
  - intros bytes j tagged o Hok Hb Hj. exact (sys_Alloc_spec bytes j tagged o Hok Hb Hj).
  - intros p n s Hok Hup Hp Hn He. eapply wp_mono; [by apply sys_Release_spec|].
    intros [] s' (Hf & Hm & Ernd & Hnext & Hroom). pose proof Hf as (_ & _ & Hf' & Hreg).
    split_and!; [|congruence|].
    + apply (sys_ok_frame s); [done|done| | |].
      * intros t. rewrite Hnext. apply Hok.
      * rewrite Ernd. intros E. destruct (so_rnd s Hok E) as [? Hz]. split; [auto|].
        intros t. rewrite Hnext, Hreg. apply Hz.
      * intros t r E. eapply region_good_mappings; [|by apply Hok]. intros a. apply (Hm a).
    + intros a. split; apply given_mono; try done; intros b; apply (Hm b).
Defined.

(** A process starts with a good state. *)
Lemma new_SysAlloc_ok k : room k → sys_ok (new_SysAlloc k).
Proof. intros Hr. split; simpl; [done|by split; [|intros []]|by intros []|by split; [|intros []]|by intros []]. Qed.
End Correct.
