(* ===== verification/TcSystemAllocTheorems.v ===== *)
(** * tcmalloc: theorems about the system allocator *)

From S2P Require Import Prelude.
From S2P Require Import TcCommon.
From S2P Require Import TcSystemAlloc.
From S2P Require Import TcSystemAllocCorrect.

Section Histories.
Context (cfg : config) {K : Type} `{!Kernel K} {HKL : KernelLaws K}.
Local Abbreviation SysAlloc := (SysAlloc (K := K)).

(** Memory that was returned: where it is, and what was asked for. *)
Record grant := mk_grant { g_start : Z; g_size : Z; g_bytes : Z; g_align : Z; g_tagged : bool }.

(** The histories of a process: the memory that [SystemAlloc] returned to it, of
    which it may release parts. *)
Inductive sys_history (k : K) : list grant → SysAlloc → Prop :=
  | sys_history_new : sys_history k [] (new_SysAlloc k)
  | sys_history_some G s bytes j tagged p n s' :
      sys_history k G s → 0 < bytes < 2 ^ 64 → 0 ≤ j < 64 →
      sys_Alloc cfg bytes (2 ^ j) tagged s = Done (Some (p, n), s') →
      sys_history k (mk_grant p n bytes (2 ^ j) tagged :: G) s'
  | sys_history_none G s bytes j tagged s' :
      sys_history k G s → 0 < bytes < 2 ^ 64 → 0 ≤ j < 64 →
      sys_Alloc cfg bytes (2 ^ j) tagged s = Done (None, s') → sys_history k G s'
  | sys_history_release G s g p n s' :
      sys_history k G s → g ∈ G → g_start g ≤ p → 0 ≤ n → p + n ≤ g_start g + g_size g →
      sys_Release p n s = Done (tt, s') → sys_history k G s'.

Definition grant_ok (s : SysAlloc) (g : grant) : Prop :=
  0 < g_start g ∧ g_bytes g ≤ g_size g ∧ 0 < g_size g ∧ g_start g + g_size g ≤ 2 ^ 46 ∧
  g_start g mod g_align g = 0 ∧
  ∀ a, g_start g ≤ a < g_start g + g_size g → sys_given s a ∧ IsTaggedMemory a = g_tagged g.

Definition apart (g h : grant) : Prop :=
  g_start g + g_size g ≤ g_start h ∨ g_start h + g_size h ≤ g_start g.

Lemma grant_ok_mono s s' g : (∀ a, sys_given s a → sys_given s' a) → grant_ok s g → grant_ok s' g.
Proof. intros Hm (? & ? & ? & ? & ? & Ha). split_and!; [done..|]. intros a Hin. destruct (Ha a Hin). auto. Qed.

Lemma sys_history_ok k G s :
  room k → sys_history k G s →
  sys_ok s ∧ (G ≠ [] → region_factory s = true) ∧ Forall (grant_ok s) G ∧ ForallOrdPairs apart G.
Proof.
  intros Hroom. induction 1 as [|G s bytes j tagged p n s' Hh IH Hb Hj E|G s bytes j tagged s' Hh IH Hb Hj E
    |G s g p n s' Hh IH Hg Hp Hn He E].
  - split_and!; [by apply new_SysAlloc_ok|done|constructor|constructor].
  - destruct IH as (Hok & _ & HG & Hap).
    destruct (wp_done _ _ _ _ _ _ E (sys_Alloc_spec cfg bytes j tagged s Hok Hb Hj)) as (Hok' & _ & Hm & Hr).
    destruct (Hr p n eq_refl) as (Hf & Hp & Hbn & He & Hmod & Ha). split_and!; [done|done| |].
    + constructor; [|eapply Forall_impl; [done|]; intros g; by apply grant_ok_mono].
      split_and!; simpl; [lia..|]. intros a Hin. destruct (Ha a Hin) as (_ & ? & ?). done.
    + constructor; [|done]. rewrite Forall_forall in HG |- *. intros g Hg.
      destruct (HG g Hg) as (_ & _ & Hn0 & _ & _ & Hgiven). unfold apart. simpl.
      destruct (Z.le_gt_cases (p + n) (g_start g)); [by left|].
      destruct (Z.le_gt_cases (g_start g + g_size g) p); [by right|exfalso].
      destruct (Ha (Z.max p (g_start g))) as (Hnot & _); [lia|].
      apply Hnot, Hgiven. lia.
  - destruct IH as (Hok & Hf & HG & Hap).
    destruct (wp_done _ _ _ _ _ _ E (sys_Alloc_spec cfg bytes j tagged s Hok Hb Hj)) as (Hok' & Hf' & Hm & _).
    split_and!; [done|auto| |done]. eapply Forall_impl; [done|]. intros g. by apply grant_ok_mono.
  - destruct IH as (Hok & Hf & HG & Hap). assert (G ≠ []) as Hne by (intros ->; by apply not_elem_of_nil in Hg).
    rewrite Forall_forall in HG. destruct (HG g Hg) as (? & ? & ? & ? & _).
    assert (p + n ≤ 2 ^ 48) as He' by lia.
    pose proof (@system_release_law _ _ (SysAlloc_laws cfg) p n s Hok (Hf Hne) ltac:(lia) Hn He') as Hw.
    destruct (wp_done _ _ _ _ _ _ E Hw) as (Hok' & Hf' & Hm).
    split_and!; [done|done| |done]. apply Forall_forall. intros h Hh'. eapply grant_ok_mono; [|by apply HG].
    intros a. apply (Hm a).
Qed.

(** C14: Memory is given out once: for any requests, and any parts released in
    between, the ranges that [SystemAlloc] returns are as large and as aligned as
    asked for, lie below [2^46], carry the tag asked for at every address and
    never overlap, whatever addresses the kernel chooses.  Every further request
    returns, with memory or with null, and every release of a part returns: no
    assertion fails and no retry loop runs on. *)
Theorem system_memory_given_once k G s :
  room k → sys_history k G s →
  Forall (λ g, 0 < g_start g ∧ g_bytes g ≤ g_size g ∧ g_start g + g_size g ≤ 2 ^ 46 ∧
    g_start g mod g_align g = 0 ∧
    ∀ a, g_start g ≤ a < g_start g + g_size g → IsTaggedMemory a = g_tagged g) G ∧
  ForallOrdPairs apart G ∧
  (∀ bytes j tagged, 0 < bytes < 2 ^ 64 → 0 ≤ j < 64 →
    ∃ r s', sys_Alloc cfg bytes (2 ^ j) tagged s = Done (r, s')) ∧
  (∀ g p n, g ∈ G → g_start g ≤ p → 0 ≤ n → p + n ≤ g_start g + g_size g →
    ∃ s', sys_Release p n s = Done (tt, s')).
Proof.
  intros Hroom Hh. destruct (sys_history_ok k G s Hroom Hh) as (Hok & Hf & HG & Hap). split_and!; [|done| |].
  - eapply Forall_impl; [done|]. intros g (? & ? & ? & ? & ? & Ha). split_and!; [done..|]. apply Ha.
  - intros bytes j tagged Hb Hj.
    destruct (wp_total_done _ _ _ (sys_Alloc_spec cfg bytes j tagged s Hok Hb Hj)) as (r & s' & E & _). eauto.
  - intros g p n Hg Hp Hn He. assert (G ≠ []) as Hne by (intros ->; by apply not_elem_of_nil in Hg).
    rewrite Forall_forall in HG. destruct (HG g Hg) as (? & ? & ? & ? & _).
    assert (p + n ≤ 2 ^ 48) as He' by lia.
    destruct (wp_total_done _ _ _ (sys_Release_spec p n s Hok (Hf Hne) ltac:(lia) Hn He')) as ([] & s' & E & _).
    eauto.
Qed.
End Histories.

(** ** A kernel *)

(** The calls of [mmap] and [munmap], the last one first. *)
Definition event : Type := bool * Z * Z.

Fixpoint event_mapped (k : list event) (a : Z) : Prop :=
  match k with
  | [] => False
  | (m, p, n) :: k => if decide (p ≤ a < p + n) then m = true else event_mapped k a
  end.

Definition range_clear (k : list event) (p n : Z) : bool :=
  forallb (λ '(_, q, m), (p + n <=? q) || (q + m <=? p)) k.

Definition kernel_top (k : list event) : Z := foldr (λ '(_, q, m) t, Z.max (q + m) t) (2 ^ 46) k.

(** The hint is followed if it is aligned and free; other mappings are placed
    above all earlier ones. *)
Definition example_mmap (hint n : Z) (k : list event) : option Z * list event :=
  let p := if (0 <? hint) && (hint mod 4096 =? 0) && range_clear k hint n then hint
           else (kernel_top k + 4095) / 4096 * 4096 in
  (Some p, (true, p, n) :: k).

#[export] Instance example_kernel : Kernel (list event) := {
  getpagesize := 4096;
  mmap := example_mmap;
  munmap p n k := (true, (false, p, n) :: k);
  mprotect_rw _ _ k := (true, k);
  madvise adv _ _ k := (match adv with MADV_REMOVE => SysError | MADV_DONTNEED => SysOk end, k);
  munlock _ _ k := (SysOk, k);
  low_level_alloc _ k := (Some 8, k);
  patience _ := 0%nat;
  mapped := event_mapped;
}.

Lemma event_mapped_clear k p n a : range_clear k p n = true → p ≤ a < p + n → ¬ event_mapped k a.
Proof.
  induction k as [|[[m q] r] k IH]; simpl; [by intros _ _ []|]. intros [H1 H2]%andb_true_iff Ha.
  rewrite decide_False by lia. by apply IH.
Qed.

Lemma kernel_top_spec k : 2 ^ 46 ≤ kernel_top k ∧ ∀ a, kernel_top k ≤ a → ¬ event_mapped k a.
Proof.
  induction k as [|[[m q] r] k [IH1 IH2]]; simpl; [split; [lia|by intros a _ []]|]. split; [lia|].
  intros a Ha. rewrite decide_False by lia. apply IH2. lia.
Qed.

#[export] Instance example_kernel_laws : KernelLaws (list event).
Proof.
  refine {| room _ := True |}.
  - by exists 12.
  - intros hint n k p k' Hn E. injection E as <- <-.
    match goal with |- 0 < ?q ∧ _ => set (p := q) end.
    assert (0 < p ∧ p mod 4096 = 0 ∧ ∀ a, p ≤ a < p + n → ¬ event_mapped k a) as (H1 & H2 & H3).
    { unfold p. destruct (_ && _) eqn:Eb.
      - apply andb_true_iff in Eb as [Eb E3]. apply andb_true_iff in Eb as [E1 E2].
        split_and!; [lia|lia|]. intros a. by apply event_mapped_clear.
      - destruct (kernel_top_spec k) as [Ht Hfree].
        pose proof (Z.div_mod (kernel_top k + 4095) 4096). pose proof (Z.mod_pos_bound (kernel_top k + 4095) 4096).
        split_and!; [lia|by apply Z.mod_mul|]. intros a Ha. apply Hfree. lia. }
    split_and!; [done..|]. intros a. simpl. specialize (H3 a). destruct (decide (p ≤ a < p + n)); tauto.
  - done.
  - intros p n k ok k' _ _ _ E. injection E as <- <-. split; [done|]. intros a. simpl.
    destruct (decide (p ≤ a < p + n)); [|tauto]. split; [done|tauto].
  - intros p n k ok k' E. injection E as <- <-. done.
  - intros n k r k' E. injection E as <- <-. done.
  - intros n k _ _. simpl. by eexists _, _.
  - intros adv p n k r k' E. injection E as <- <-. by destruct adv.
  - intros p n k r k' E. injection E as <- <-. done.
Defined.

Definition example_config : config := mk_config Shift13 true true.

Lemma system_memory_given_once_witness :
  ∃ g h s, sys_history example_config [] [h; g] s ∧ g_bytes g = 100 ∧ g_tagged h = true ∧ apart h g.
Proof.
  assert (∃ p n s1 q m s2,
    sys_Alloc example_config 100 (2 ^ 3) false (new_SysAlloc (K := list event) []) = Done (Some (p, n), s1) ∧
    sys_Alloc example_config (3 * 2 ^ 30) (2 ^ 33) true s1 = Done (Some (q, m), s2))
    as (p & n & s1 & q & m & s2 & E1 & E2).
  { eexists _, _, _, _, _, _. split; [vm_compute; reflexivity|vm_compute; reflexivity]. }
  assert (sys_history example_config []
    [mk_grant q m (3 * 2 ^ 30) (2 ^ 33) true; mk_grant p n 100 (2 ^ 3) false] s2) as Hh.
  { eapply sys_history_some; [|lia|lia|exact E2]. eapply sys_history_some; [constructor|lia|lia|exact E1]. }
  assert (room ([] : list event)) as Hr by exact I.
  destruct (system_memory_given_once example_config [] _ s2 Hr Hh) as (_ & Hap & _).
  eexists _, _, s2. split; [exact Hh|]. split; [done|]. split; [done|].
  inversion Hap as [|? ? Hall _]; subst. by apply Forall_cons in Hall as [? _].
Defined.
