(* ===== verification/TcArena.v ===== *)
(** * tcmalloc: the metadata allocators

    [Arena] (arena.h, arena.cc) carves blocks that are never freed from memory of
    the system; [PageHeapAllocator] (page_heap_allocator.h) allocates and frees
    objects of one size and takes new ones from an arena.  The system allocator is
    used through its interface, the class [SystemMemory].
    Running out of metadata memory, which ends the process, is [Crashed]; failed
    assertions are [Fault]. *)

From S2P Require Import Prelude.
From S2P Require Import TcCommon.
From S2P Require Import TcSystemAlloc.

Section Arena.
Context (cfg : config) {OS : Type} `{!SystemMemory OS}.

(** ** Arena *)

Record Arena := mk_arena {
  free_area_ : Z;
  free_avail_ : Z;
  bytes_allocated_ : Z;
  system : OS;
}.

Definition new_Arena (o : OS) : Arena := mk_arena 0 0 0 o.

Definition kAllocIncrement : Z := 128 ≪ 10.

(** A call of the system allocator. *)
Definition on_system {A} (m : ST OS A) : ST Arena A := λ s,
  match m (system s) with
  | Done (a, o) => Done (a, mk_arena (free_area_ s) (free_avail_ s) (bytes_allocated_ s) o)
  | Fault => Fault
  | OutOfFuel => OutOfFuel
  | Crashed => Crashed
  end.

(** The part of [Alloc] that asks the system for a new area. *)
Definition refill (bytes : Z) : ST Arena unit :=
  let ask := if kAllocIncrement <? bytes then bytes else kAllocIncrement in
  r ← on_system (SystemAlloc ask (kPageSize cfg) false);
  match r with
  | Some (p, actual_size) => modify (λ s, mk_arena p actual_size (bytes_allocated_ s) (system s))
  | None => crash
  end.

Definition Alloc (bytes : Z) : ST Arena Z :=
  let bytes := u64 (u64 (bytes + kAlignment - 1) / kAlignment * kAlignment) in
  avail ← gets free_avail_;
  (if avail <? bytes then refill bytes else mret tt);;
  result ← gets free_area_;
  require (result mod kAlignment =? 0);;
  modify (λ s, mk_arena (free_area_ s + bytes) (free_avail_ s - bytes)
    (u64 (bytes_allocated_ s + bytes)) (system s));;
  mret result.

Definition bytes_allocated : ST Arena Z := gets bytes_allocated_.

(** ** PageHeapAllocator *)

(** What the clients of an allocator of objects use. *)
Class ObjectPool (A : Type) := {
  pool_new : ST A Z;
  pool_delete : Z → ST A unit;
}.

Record AllocatorStats := mk_stats { in_use : Z; total : Z }.

(** The allocator with its arena, and the word at the start of every object. *)
Record PageHeapAllocator := mk_pha {
  arena_ : Arena;
  free_list_ : Z;
  stats_ : AllocatorStats;
  object_words : gmap Z Z;
}.

Definition on_arena {A} (m : ST Arena A) : ST PageHeapAllocator A := λ s,
  match m (arena_ s) with
  | Done (a, ar) => Done (a, mk_pha ar (free_list_ s) (stats_ s) (object_words s))
  | Fault => Fault
  | OutOfFuel => OutOfFuel
  | Crashed => Crashed
  end.

Section Objects.
Context (sizeof_T : Z).

Definition pha_New : ST PageHeapAllocator Z :=
  result ← gets free_list_;
  modify (λ s, mk_pha (arena_ s) (free_list_ s)
    (mk_stats (u64 (in_use (stats_ s) + 1)) (total (stats_ s))) (object_words s));;
  if result =? 0 then
    modify (λ s, mk_pha (arena_ s) (free_list_ s)
      (mk_stats (in_use (stats_ s)) (u64 (total (stats_ s) + 1))) (object_words s));;
    on_arena (Alloc sizeof_T)
  else
    modify (λ s, mk_pha (arena_ s) (default 0 (object_words s !! free_list_ s))
      (stats_ s) (object_words s));;
    mret result.

Definition pha_Delete (p : Z) : ST PageHeapAllocator unit :=
  modify (λ s, mk_pha (arena_ s) p
    (mk_stats (u64 (in_use (stats_ s) - 1)) (total (stats_ s)))
    (<[p := free_list_ s]> (object_words s))).

(** [Init(arena)]. *)
Definition pha_Init : ST PageHeapAllocator unit :=
  modify (λ s, mk_pha (arena_ s) 0 (mk_stats 0 0) (object_words s));;
  p ← pha_New;
  pha_Delete p.

Definition pha_stats : ST PageHeapAllocator AllocatorStats := gets stats_.
End Objects.
End Arena.

(** The system that an allocator of metadata takes its memory from is the one
    that its clients use. *)
Class MetaMemory (A OS : Type) := {
  meta_system : A → OS;
  meta_put : OS → A → A;
}.

#[export] Instance PageHeapAllocator_meta (OS : Type) : MetaMemory (PageHeapAllocator (OS := OS)) OS := {
  meta_system s := system (arena_ s);
  meta_put o s := mk_pha (mk_arena (free_area_ (arena_ s)) (free_avail_ (arena_ s)) (bytes_allocated_ (arena_ s)) o)
    (free_list_ s) (stats_ s) (object_words s);
}.
