(* ===== verification/TcArenaCorrect.v ===== *)
(** * tcmalloc: correctness of the metadata allocators

    The blocks of an arena are aligned and disjoint.  An object allocator never
    gives out an object twice, for any use that its clients make of the
    objects they hold. *)

From S2P Require Import Prelude.
From S2P Require Import TcCommon.
From S2P Require Import TcLinkedList.
From S2P Require Import TcLinkedListCorrect.
From S2P Require Import TcSystemAlloc.
From S2P Require Import TcSystemAllocCorrect.
From S2P Require Import TcArena.

(** ** Blocks *)

Definition block : Type := Z * Z.
Definition inside_block (b : block) (a : Z) : Prop := b.1 ≤ a < b.1 + b.2.
Definition disjoint_blocks (b c : block) : Prop := b.1 + b.2 ≤ c.1 ∨ c.1 + c.2 ≤ b.1.

Definition block_bytes (B : list block) : Z := foldr (λ b n, b.2 + n) 0 B.

Lemma disjoint_blocks_sym b c : disjoint_blocks b c → disjoint_blocks c b.
Proof. unfold disjoint_blocks. lia. Qed.

Section Arena.
Context (cfg : config) {OS : Type} `{!SystemMemory OS} {HSL : SystemMemoryLaws OS}.
Local Abbreviation Arena := (Arena (OS := OS)).

Definition good_block (o : OS) (b : block) : Prop :=
  0 < b.1 ∧ 0 < b.2 ∧ b.1 mod 8 = 0 ∧ b.1 + b.2 < 2 ^ 48 ∧ ∀ a, inside_block b a → given o a.

(** The blocks [B] were allocated, the last one first. *)
Record arena_ok (B : list block) (s : Arena) : Prop := {
  ar_system : system_ok (system s);
  ar_avail : 0 ≤ free_avail_ s;
  ar_align : free_area_ s mod 8 = 0;
  ar_area : 0 < free_avail_ s → 0 < free_area_ s ∧ free_area_ s + free_avail_ s < 2 ^ 48 ∧
    ∀ a, inside_block (free_area_ s, free_avail_ s) a → given (system s) a;
  ar_blocks : Forall (good_block (system s)) B;
  ar_apart : ForallOrdPairs disjoint_blocks B;
  ar_free : 0 < free_avail_ s → Forall (disjoint_blocks (free_area_ s, free_avail_ s)) B;
  ar_bytes : bytes_allocated_ s = u64 (block_bytes B);
}.

Definition round8 (n : Z) : Z := (n + 7) / 8 * 8.

Lemma round8_bounds n : n ≤ round8 n < n + 8 ∧ round8 n mod 8 = 0.
Proof.
  unfold round8. pose proof (Z.div_mod (n + 7) 8). pose proof (Z.mod_pos_bound (n + 7) 8).
  split; [lia|]. by apply Z.mod_mul.
Qed.

Lemma arena_new o : system_ok o → arena_ok [] (new_Arena o).
Proof. split; simpl; [done|lia|done|lia|by constructor|constructor|lia|done]. Qed.

Lemma kPageSize_pow : kPageSize cfg = 2 ^ kPageShift cfg ∧ 12 ≤ kPageShift cfg ≤ 18.
Proof. on_config cfg; by vm_compute. Qed.

(** The system has memory for a request. *)
Definition system_gives (bytes : Z) (s : Arena) : Prop := ∃ p n o,
  SystemAlloc (Z.max bytes kAllocIncrement) (kPageSize cfg) false (system s) = Done (Some (p, n), o).

(** What a refill needs in a mode: that the program does not end is only
    promised if the system has memory. *)
Definition gives (md : mode) (bytes : Z) (s : Arena) : Prop :=
  match md with Total => system_gives bytes s | Crashing => True | Partial => False end.

(** A later state of the system. *)
Definition later (o o' : OS) : Prop :=
  system_ok o' ∧ (system_up o → system_up o') ∧ ∀ a, given o a → given o' a.

Lemma later_refl o : system_ok o → later o o.
Proof using Type. clear cfg. by intros Ho. Qed.

Lemma later_trans o1 o2 o3 : later o1 o2 → later o2 o3 → later o1 o3.
Proof using Type. clear cfg. intros (_ & H1 & H2) (H3 & H4 & H5). split_and!; auto. Qed.

(** The system memory the blocks are in is not given out again. *)
Lemma refill_spec md bytes B s :
  arena_ok B s → 0 < bytes < 2 ^ 48 → gives md bytes s →
  wp md (refill cfg bytes) (λ _ s', arena_ok B s' ∧ bytes ≤ free_avail_ s' ∧ later (system s) (system s')) s.
Proof.
  intros [Hsys Ha Hal Har Hb Hap Hf Hby] Hbytes Hgives. unfold wp, refill, mbind, ST_bind, on_system.
  replace (if kAllocIncrement <? bytes then bytes else kAllocIncrement) with (Z.max bytes kAllocIncrement)
    by (destruct (Z.ltb_spec kAllocIncrement bytes); lia).
  destruct kPageSize_pow as [Ep Hsh].
  assert (0 < Z.max bytes kAllocIncrement < 2 ^ 64) as Hask by (unfold kAllocIncrement; change (128 ≪ 10) with 131072; lia).
  destruct (wp_total_done _ _ _ (system_alloc_law _ (kPageShift cfg) false _ Hsys Hask ltac:(lia)))
    as (r & o & E & Hsys' & Hup & Hgiven & Hr). rewrite <-Ep in E.
  destruct r as [[p n]|].
  2: { rewrite E. simpl. destruct md; [|done|done]. destruct Hgives as (p & n & o' & E'). congruence. }
  rewrite E. simpl.
  destruct (Hr p n eq_refl) as (_ & Hp & Hn & Hend & Hm & Hfresh). change (kAddressBits - 2) with 46 in Hend.
  split; [|split; [lia|done]]. split; simpl.
  - done.
  - lia.
  - apply (divide_pow_mod p 3 (kPageShift cfg)); [lia|done].
  - intros _. split_and!; [done|lia|]. intros a Hin. by apply Hfresh.
  - eapply Forall_impl; [done|]. intros b (? & ? & ? & ? & Hg). split_and!; [done..|].
    intros a Hin. by apply Hgiven, Hg.
  - done.
  - intros _. apply Forall_forall. intros b Hbin. rewrite Forall_forall in Hb.
    destruct (Hb b Hbin) as (Hb1 & Hb2 & _ & _ & Hg). unfold disjoint_blocks. simpl.
    destruct (Z.le_gt_cases (p + n) b.1); [lia|]. destruct (Z.le_gt_cases (b.1 + b.2) p); [lia|].
    exfalso. destruct (Hfresh (Z.max p b.1)) as [Hnot _]; [lia|]. apply Hnot, Hg.
    unfold inside_block. lia.
  - done.
Qed.

Lemma Alloc_spec md bytes B s :
  arena_ok B s → 0 < bytes < 2 ^ 47 →
  round8 bytes ≤ free_avail_ s ∨ gives md (round8 bytes) s →
  wp md (Alloc cfg bytes) (λ p s', arena_ok ((p, round8 bytes) :: B) s' ∧
    (round8 bytes ≤ free_avail_ s → free_avail_ s' = free_avail_ s - round8 bytes) ∧
    later (system s) (system s')) s.
Proof.
  intros Hok Hb Hmem. destruct (round8_bounds bytes) as [Hr Hr8]. unfold Alloc.
  assert (u64 (u64 (bytes + kAlignment - 1) / kAlignment * kAlignment) = round8 bytes) as ->.
  { unfold kAlignment. rewrite (wrap_small 64 (bytes + 8 - 1)) by (unfold is_word; lia).
    replace (bytes + 8 - 1) with (bytes + 7) by lia. apply wrap_small. fold (round8 bytes).
    unfold is_word. lia. }
  do 3 wp_step.
  apply (wp_mono _ _ (λ _ s1, arena_ok B s1 ∧ round8 bytes ≤ free_avail_ s1 ∧ later (system s) (system s1) ∧
    (round8 bytes ≤ free_avail_ s → s1 = s))).
  { destruct (Z.ltb_spec (free_avail_ s) (round8 bytes)) as [Hlt|Hge].
    - destruct Hmem as [?|Hg]; [lia|]. eapply wp_mono; [by apply (refill_spec md _ B); [|lia|]|].
      intros [] s1 (H1 & H2 & H3). split_and!; [done|done|done|lia].
    - wp_step. pose proof (later_refl _ (ar_system _ _ Hok)). done. }
  intros [] s1 ([Hsys Ha Hal Har Hbl Hap Hf Hby] & Hav & Hlat & Hsame). do 3 wp_step.
  wp_step; [unfold kAlignment; lia|]. do 2 wp_step. wp_step. simpl.
  destruct (Har ltac:(lia)) as (Ha0 & Haend & Hg). split; [|split; [intros H; by rewrite (Hsame H)|done]].
  split; simpl.
  - done.
  - lia.
  - rewrite Z.add_mod, Hal, Hr8 by lia. done.
  - intros Hpos. split_and!; [lia|lia|]. intros a Hin. apply Hg. unfold inside_block in *. simpl in *. lia.
  - constructor; [|done]. split_and!; simpl; [lia|lia|done|lia|].
    intros a Hin. apply Hg. unfold inside_block in *. simpl in *. lia.
  - constructor; [|done]. specialize (Hf ltac:(lia)). eapply Forall_impl; [done|].
    intros b. unfold disjoint_blocks. simpl. lia.
  - intros Hpos. constructor; [unfold disjoint_blocks; simpl; lia|]. specialize (Hf ltac:(lia)).
    eapply Forall_impl; [done|]. intros b. unfold disjoint_blocks. simpl. lia.
  - rewrite Hby. unfold wrap. rewrite Zplus_mod_idemp_l. f_equal. lia.
Qed.

(** ** Object allocators *)

Context (sizeof_T : Z) (HT : 0 < sizeof_T < 2 ^ 40).
Local Abbreviation PHA := (PageHeapAllocator (OS := OS)).

(** The objects [L] are in use, and at least [n] more can be had without new
    memory of the system. *)
Definition pha_ok (s : PHA) (L : gset Z) (n : nat) : Prop :=
  ∃ B F, arena_ok B (arena_ s) ∧ sll (object_words s) F (free_list_ s) ∧ NoDup F ∧
    (∀ p, p ∈ F → p ∉ L) ∧ (∀ p, p ∈ L ∨ p ∈ F → (p, round8 sizeof_T) ∈ B) ∧
    in_use (stats_ s) = u64 (Z.of_nat (size L)) ∧
    total (stats_ s) = u64 (Z.of_nat (size L + length F)) ∧
    Z.of_nat n ≤ Z.of_nat (length F) + free_avail_ (arena_ s) / round8 sizeof_T.

Lemma pha_weaken s L n m : (m ≤ n)%nat → pha_ok s L n → pha_ok s L m.
Proof.
  intros Hle (B & F & ? & ? & ? & ? & ? & ? & ? & ?). exists B, F. split_and!; [done..|lia].
Qed.

Lemma apart_elem B b c : ForallOrdPairs disjoint_blocks B → b ∈ B → c ∈ B → b = c ∨ disjoint_blocks b c.
Proof.
  induction 1 as [|b' B Hall Hap IH]; intros Hb Hc; [by apply not_elem_of_nil in Hb|].
  rewrite Forall_forall in Hall.
  apply elem_of_cons in Hb as [->|Hb]; apply elem_of_cons in Hc as [->|Hc]; [by left| | |by apply IH].
  - right. by apply Hall.
  - right. by apply disjoint_blocks_sym, Hall.
Qed.

(** Objects in use are good blocks, and disjoint. *)
Lemma pha_objects s L n : pha_ok s L n →
  (∀ p, p ∈ L → 0 < p ∧ p mod 8 = 0 ∧ p + sizeof_T < 2 ^ 48) ∧
  (∀ p q, p ∈ L → q ∈ L → p ≠ q → p + sizeof_T ≤ q ∨ q + sizeof_T ≤ p) ∧
  in_use (stats_ s) = u64 (Z.of_nat (size L)).
Proof.
  intros (B & F & [_ _ _ _ Hbl Hap _ _] & _ & _ & _ & Hin & Hu & _).
  rewrite Forall_forall in Hbl. pose proof (round8_bounds sizeof_T) as [Hr _]. split_and!; [| |done].
  - intros p Hp. destruct (Hbl (p, round8 sizeof_T) (Hin p (or_introl Hp))) as (? & ? & ? & ? & _).
    simpl in *. split_and!; [lia|done|lia].
  - intros p q Hp Hq Hne. destruct (apart_elem B _ _ Hap (Hin p (or_introl Hp)) (Hin q (or_introl Hq)))
      as [E|Hd]; [by injection E|]. unfold disjoint_blocks in Hd. simpl in Hd. lia.
Qed.

Lemma on_arena_spec {A} md (m : ST Arena A) (Q : A → Arena → Prop) (R : A → PHA → Prop) (s : PHA) :
  wp md m Q (arena_ s) →
  (∀ a ar, Q a ar → R a (mk_pha ar (free_list_ s) (stats_ s) (object_words s))) →
  wp md (on_arena m) R s.
Proof. unfold wp, on_arena. destruct (m (arena_ s)) as [[a ar]| | |]; eauto. Qed.

Lemma avail_div a : 0 ≤ a → 1 ≤ a / round8 sizeof_T →
  round8 sizeof_T ≤ a ∧ (a - round8 sizeof_T) / round8 sizeof_T = a / round8 sizeof_T - 1.
Proof.
  intros Ha Hd. pose proof (round8_bounds sizeof_T) as [Hr _]. set (r := round8 sizeof_T) in *.
  pose proof (Z.div_mod a r). pose proof (Z.mod_pos_bound a r). split; [nia|].
  replace (a - r) with (a + (-1) * r) by lia. rewrite Z.div_add by lia. lia.
Qed.

(** The system has memory for one more object. *)
Definition system_has (s : PHA) : Prop := system_gives (round8 sizeof_T) (arena_ s).

Lemma pha_New_spec md s L n :
  pha_ok s L n → (1 ≤ n)%nat ∨ gives md (round8 sizeof_T) (arena_ s) →
  wp md (pha_New cfg sizeof_T) (λ p s', p ≠ 0 ∧ p ∉ L ∧ pha_ok s' ({[p]} ∪ L) (pred n) ∧
    later (system (arena_ s)) (system (arena_ s'))) s.
Proof.
  intros (B & F & Hok & Hs & Hnd & Hdis & Hin & Hu & Ht & Hsp) Hcan.
  pose proof (round8_bounds sizeof_T) as [Hr _].
  unfold pha_New. do 4 wp_step. simpl.
  destruct (Z.eqb_spec (free_list_ s) 0) as [E0|E0].
  - apply (sll_null _ _ _ Hs) in E0 as ->. simpl in *.
    pose proof (ar_avail _ _ Hok) as Ha0.
    assert (round8 sizeof_T ≤ free_avail_ (arena_ s) ∨ gives md (round8 sizeof_T) (arena_ s)) as Hcan'.
    { destruct Hcan as [Hn|?]; [left|by right]. apply avail_div; lia. }
    do 2 wp_step. eapply on_arena_spec; [apply (Alloc_spec md _ B); [done|lia|done]|].
    simpl. intros p ar (Hok' & Hav' & Hlat).
    pose proof (ar_blocks _ _ Hok') as Hbl. apply Forall_cons in Hbl as [(Hp0 & _) _]. simpl in Hp0.
    assert (p ∉ L) as HpL.
    { intros HpL. pose proof (ar_apart _ _ Hok') as Hap. inversion Hap as [|? ? Hall _]; subst.
      rewrite Forall_forall in Hall. specialize (Hall _ (Hin p (or_introl HpL))).
      unfold disjoint_blocks in Hall. simpl in Hall. lia. }
    split_and!; [lia|done| |done]. exists ((p, round8 sizeof_T) :: B), []. simpl.
    rewrite size_union, size_singleton by set_solver.
    split_and!; [done|done|apply NoDup_nil_2|set_solver| | | |].
    + intros q [Hq|Hq]; [|by apply not_elem_of_nil in Hq].
      apply elem_of_union in Hq as [->%elem_of_singleton|Hq]; [left|right; apply Hin; by left].
    + rewrite Hu. unfold wrap. rewrite Zplus_mod_idemp_l. f_equal. lia.
    + rewrite Ht. unfold wrap. rewrite Zplus_mod_idemp_l. f_equal. lia.
    + pose proof (ar_avail _ _ Hok'). pose proof (Z.div_pos (free_avail_ ar) (round8 sizeof_T)).
      destruct n as [|n]; simpl; [lia|].
      destruct (avail_div (free_avail_ (arena_ s))) as [Hav Hdiv]; [lia|lia|].
      rewrite (Hav' Hav), Hdiv. lia.
  - destruct F as [|x F]; [done|]. destruct Hs as (Ex & Hx & Hs).
    apply NoDup_cons in Hnd as [HxF Hnd]. do 2 wp_step. wp_step. rewrite Ex in *.
    assert (x ∉ L) as HxL by (apply Hdis; left).
    pose proof (later_refl _ (ar_system _ _ Hok)) as Hlat.
    split_and!; [done|done| |done]. exists B, F. simpl in *. rewrite size_union, size_singleton by set_solver.
    split_and!; [done|done|done| | | | |].
    + intros p Hp. apply not_elem_of_union. split; [intros ->%elem_of_singleton; done|].
      apply Hdis. by right.
    + intros p [[->%elem_of_singleton|Hp]%elem_of_union|Hp]; apply Hin;
        [right; left|by left|right; by right].
    + rewrite Hu. unfold wrap. rewrite Zplus_mod_idemp_l. f_equal. lia.
    + rewrite Ht. f_equal. lia.
    + pose proof (ar_avail _ _ Hok). pose proof (Z.div_pos (free_avail_ (arena_ s)) (round8 sizeof_T)). lia.
Qed.

Lemma pha_Delete_spec s L n p :
  pha_ok s L n → p ∈ L → wp true (pha_Delete p) (λ _ s', pha_ok s' (L ∖ {[p]}) (S n)) s.
Proof.
  intros Hpok HpL. pose proof (pha_objects _ _ _ Hpok) as (Hgood & _).
  destruct Hpok as (B & F & Hok & Hs & Hnd & Hdis & Hin & Hu & Ht & Hsp).
  destruct (Hgood p HpL) as (Hp0 & _).
  assert (p ∉ F) as HpF by (intros HF; by apply (Hdis p)).
  unfold pha_Delete. wp_step. exists B, (p :: F). simpl.
  assert (size L = S (size (L ∖ {[p]}))) as Hsz.
  { rewrite size_difference, size_singleton by set_solver.
    assert (size L ≠ 0%nat); [|lia]. intros E0%size_empty_inv. set_solver. }
  split_and!; [done|done|lia| |by apply NoDup_cons| | | | |].
  - rewrite lookup_insert_eq. by apply sll_frame.
  - intros q [->|Hq]%elem_of_cons; [set_solver|]. apply Hdis in Hq. set_solver.
  - intros q [Hq|[->|Hq]%elem_of_cons]; apply Hin; [left; set_solver|by left|by right].
  - rewrite Hu, Hsz. unfold wrap. rewrite Zminus_mod_idemp_l. f_equal. lia.
  - rewrite Ht, Hsz. f_equal. lia.
  - lia.
Qed.

(** Replacing the system by a later one. *)
Lemma pha_put_system s L n o :
  pha_ok s L n → system_ok o → (∀ a, given (system (arena_ s)) a → given o a) → pha_ok (meta_put o s) L n.
Proof.
  intros (B & F & [Hsys Ha Hal Har Hbl Hap Hf Hby] & Hrest) Ho Hm. exists B, F. split; [|exact Hrest].
  split; simpl; [done|done|done| | |done|done|done].
  - intros Hpos. destruct (Har Hpos) as (? & ? & Hg). split_and!; [done|done|]. intros a Hin. by apply Hm, Hg.
  - eapply Forall_impl; [done|]. intros b (? & ? & ? & ? & Hg). split_and!; [done..|]. intros a Hin. by apply Hm, Hg.
Qed.

(** The clients may write to the objects that they hold. *)
Lemma pha_client_write s L n p v :
  pha_ok s L n → p ∈ L →
  pha_ok (mk_pha (arena_ s) (free_list_ s) (stats_ s) (<[p := v]> (object_words s))) L n.
Proof.
  intros (B & F & Hok & Hs & Hnd & Hdis & Hin & Hu & Ht & Hsp) HpL. exists B, F. simpl.
  split_and!; [done| |done..]. apply sll_frame; [|done]. intros HF. by apply (Hdis p).
Qed.

Lemma pha_Init_spec B s :
  arena_ok B (arena_ s) → wp Crashing (pha_Init cfg sizeof_T) (λ _ s', pha_ok s' ∅ 1) s.
Proof.
  intros Hok. unfold pha_Init. do 3 wp_step.
  pose proof (round8_bounds sizeof_T) as [Hr _]. pose proof (ar_avail _ _ Hok) as Ha0.
  eapply wp_mono; [apply (pha_New_spec Crashing _ ∅ 0)|].
  - exists B, []. simpl. split_and!; [done|done|apply NoDup_nil_2|set_solver|set_solver|done|done|].
    apply Z.div_pos; lia.
  - by right.
  - intros p s' (Hp & _ & Hpok & _). apply wp_total. eapply wp_mono; [apply (pha_Delete_spec _ ({[p]} ∪ ∅) 0); [|set_solver]|].
    { eapply pha_weaken; [|done]. lia. }
    intros [] s'' Hok'. by replace ((({[p]} ∪ ∅) ∖ {[p]} : gset Z)) with (∅ : gset Z) in Hok' by set_solver.
Qed.
End Arena.

(** ** What an allocator of objects promises *)

(** What is needed to make [k] objects when [n] can be had without a call to
    the system: that many, or a mode in which the program may end for want of
    memory. *)
Definition can_make (md : mode) (k n : nat) : Prop :=
  match md with Total => (k ≤ n)%nat | Crashing => True | Partial => False end.

Lemma can_make_split md j k n : can_make md (j + k) n → can_make md j n ∧ can_make md k (n - j).
Proof. destruct md; simpl; [lia|done|done]. Qed.

Lemma can_make_le md j k n : (j ≤ k)%nat → can_make md k n → can_make md j n.
Proof. destruct md; simpl; [lia|done|done]. Qed.

(** [pool_inv a L n]: the objects [L] are in use, and [n] more can be had
    without a call to the system. *)
Class ObjectPoolLaws (A : Type) `{!ObjectPool A} := {
  pool_inv : A → gset Z → nat → Prop;
  pool_new_law md a L n : pool_inv a L n → can_make md 1 n →
    wp md pool_new (λ p a', p ≠ 0 ∧ p ∉ L ∧ pool_inv a' ({[p]} ∪ L) (n - 1)) a;
  pool_delete_law a L n p : pool_inv a L n → p ∈ L →
    wp true (pool_delete p) (λ _ a', pool_inv a' (L ∖ {[p]}) (S n)) a;
  pool_weaken a L n m : (m ≤ n)%nat → pool_inv a L n → pool_inv a L m;
}.

#[export] Instance PageHeapAllocator_pool (cfg : config) (OS : Type) `{!SystemMemory OS} (sizeof_T : Z) :
  ObjectPool (PageHeapAllocator (OS := OS)) := {
  pool_new := pha_New cfg sizeof_T;
  pool_delete := pha_Delete;
}.

Definition PageHeapAllocator_laws (cfg : config) (OS : Type) `{!SystemMemory OS} {HSL : SystemMemoryLaws OS}
    (sizeof_T : Z) (HT : 0 < sizeof_T < 2 ^ 40) :
  ObjectPoolLaws (PageHeapAllocator (OS := OS)) (ObjectPool0 := PageHeapAllocator_pool cfg OS sizeof_T).
Proof.
  refine {| pool_inv := pha_ok sizeof_T |}.
  - intros md a L n Hok Hcan.
    eapply wp_mono; [apply (pha_New_spec cfg sizeof_T HT md a L n); [done|]|].
    { destruct md; [by left|by right|done]. }
    intros p a' (H1 & H2 & H3 & _). by rewrite Nat.sub_1_r.
  - intros a L n p Hok Hp. by apply pha_Delete_spec.
  - intros a L n m Hle Hok. by eapply pha_weaken.
Defined.

(** What an allocator of metadata promises about the system. *)
Class MetaMemoryLaws (A OS : Type) `{!SystemMemory OS} {HSL : SystemMemoryLaws OS}
    `{!ObjectPool A} {HPL : ObjectPoolLaws A} `{!MetaMemory A OS} := {
  meta_get_put o (a : A) : meta_system (meta_put o a) = o;
  meta_ok a L n : pool_inv a L n → system_ok (meta_system a);
  meta_new_law md a L n : pool_inv a L n → can_make md 1 n →
    wp md pool_new (λ _ a', later (meta_system a) (meta_system a')) a;
  meta_delete_law a L n p : pool_inv a L n → p ∈ L →
    wp true (pool_delete p) (λ _ a', meta_system a' = meta_system a) a;
  meta_put_law o a L n : pool_inv a L n → system_ok o → (∀ x, given (meta_system a) x → given o x) →
    pool_inv (meta_put o a) L n;
}.

Definition PageHeapAllocator_meta_laws (cfg : config) (OS : Type) `{!SystemMemory OS} {HSL : SystemMemoryLaws OS}
    (sizeof_T : Z) (HT : 0 < sizeof_T < 2 ^ 40) :
  MetaMemoryLaws (PageHeapAllocator (OS := OS)) OS
    (ObjectPool0 := PageHeapAllocator_pool cfg OS sizeof_T) (HPL := PageHeapAllocator_laws cfg OS sizeof_T HT).
Proof.
  split.
  - done.
  - intros a L n (B & F & Hok & _). apply Hok.
  - intros md a L n Hok Hcan.
    eapply wp_mono; [apply (pha_New_spec cfg sizeof_T HT md a L n); [done|]|].
    { destruct md; [by left|by right|done]. }
    intros p a' (_ & _ & _ & H). done.
  - done.
  - intros o a L n Hok Ho Hm. by apply pha_put_system.
Qed.
