(* ===== verification/TcArenaTheorems.v ===== *)
(** * tcmalloc: theorems about the metadata allocators *)

From S2P Require Import Prelude.
From S2P Require Import TcCommon.
From S2P Require Import TcLinkedList.
From S2P Require Import TcLinkedListCorrect.
From S2P Require Import TcSystemAlloc.
From S2P Require Import TcSystemAllocCorrect.
From S2P Require Import TcSystemAllocTheorems.
From S2P Require Import TcArena.
From S2P Require Import TcArenaCorrect.

Section Histories.
Context (cfg : config) {OS : Type} `{!SystemMemory OS} {HSL : SystemMemoryLaws OS}.

(** ** Arenas *)

(** The histories of an arena: the blocks that it returned, with the sizes that
    were asked for. *)
Inductive arena_history (o : OS) : list block → Arena (OS := OS) → Prop :=
  | arena_history_new : arena_history o [] (new_Arena o)
  | arena_history_alloc B s n p s' :
      arena_history o B s → 0 < n < 2 ^ 47 → Alloc cfg n s = Done (p, s') →
      arena_history o ((p, n) :: B) s'.

(** The system answers every request. *)
Lemma system_answers B n s :
  arena_ok B s → 0 < n < 2 ^ 48 → system_gives cfg n s ∨
  ∃ o', SystemAlloc (Z.max n kAllocIncrement) (kPageSize cfg) false (system s) = Done (None, o').
Proof.
  intros Hok Hn. destruct (kPageSize_pow cfg) as [Ep Hsh].
  assert (0 < Z.max n kAllocIncrement < 2 ^ 64) as Hask
    by (unfold kAllocIncrement; change (128 ≪ 10) with 131072; lia).
  pose proof (system_alloc_law _ (kPageShift cfg) false _ (ar_system _ _ Hok) Hask ltac:(lia)) as Hw.
  apply wp_total_done in Hw as (r & o' & E & _). rewrite <-Ep in E.
  destruct r as [[p m]|]; [left; by exists p, m, o'|right; by exists o'].
Qed.

Lemma Alloc_done n B s p s' :
  arena_ok B s → 0 < n < 2 ^ 47 → Alloc cfg n s = Done (p, s') → arena_ok ((p, round8 n) :: B) s'.
Proof.
  intros Hok Hn E. apply (wp_done _ _ _ _ _ _ E (Alloc_spec cfg Crashing n B s Hok Hn (or_intror I))).
Qed.

Lemma arena_history_ok o B s :
  system_ok o → arena_history o B s → arena_ok ((λ b, (b.1, round8 b.2)) <$> B) s ∧ Forall (λ b, 0 < b.2) B.
Proof.
  intros Ho. induction 1 as [|B s n p s' Hh [IH IHp] Hn E]; [split; [by apply arena_new|constructor]|].
  split; [simpl; by eapply Alloc_done|]. constructor; [simpl; lia|done].
Qed.

(** C22: The blocks an arena returns are aligned, lie in memory that the system
    gave to it, and never overlap, for any sequence of sizes and any system that
    keeps its promises.  A call fails only if the system has no memory for it. *)
Theorem arena_blocks_disjoint o B s :
  system_ok o → arena_history o B s →
  Forall (λ b, 0 < b.1 ∧ b.1 mod 8 = 0 ∧ b.1 + b.2 < 2 ^ 48 ∧ ∀ a, inside_block b a → given (system s) a) B ∧
  ForallOrdPairs disjoint_blocks B ∧
  ∀ n, 0 < n < 2 ^ 47 → (∃ p s', Alloc cfg n s = Done (p, s')) ∨
    (∃ o', SystemAlloc (Z.max (round8 n) kAllocIncrement) (kPageSize cfg) false (system s) = Done (None, o')).
Proof.
  intros Ho Hh. destruct (arena_history_ok o B s Ho Hh) as [Hok Hpos]. split_and!.
  - pose proof (ar_blocks _ _ Hok) as Hb. rewrite Forall_fmap in Hb. eapply Forall_impl; [done|].
    intros [p n] (H1 & H2 & H3 & H4 & H5). simpl in *. destruct (round8_bounds n) as [Hr _].
    split_and!; [done|done|lia|]. intros a Ha. apply H5. unfold inside_block in *. simpl in *. lia.
  - pose proof (ar_apart _ _ Hok) as Hap. clear Hok Hh. induction B as [|b B IH]; [constructor|].
    apply Forall_cons in Hpos as [Hb Hpos]. inversion Hap as [|? ? Hall Hap']; subst.
    constructor; [|by apply IH]. rewrite Forall_fmap in Hall. eapply Forall_impl; [done|].
    intros c. unfold disjoint_blocks. simpl.
    destruct (round8_bounds b.2) as [? _]. destruct (round8_bounds c.2) as [? _]. lia.
  - intros n Hn. destruct (round8_bounds n) as [Hr _].
    destruct (system_answers _ (round8 n) s Hok ltac:(lia)) as [Hg|Hno]; [left|by right].
    destruct (wp_total_done _ _ _ (Alloc_spec cfg Total n _ s Hok Hn (or_intror Hg))) as (p & s' & E & _). eauto.
Qed.

(** ** Object allocators *)

Context (sizeof_T : Z) (HT : 0 < sizeof_T < 2 ^ 40).
Local Abbreviation PHA := (PageHeapAllocator (OS := OS)).

(** The histories of an object allocator: the objects in use.  Clients write to
    their objects. *)
Inductive pool_history : gset Z → PHA → Prop :=
  | pool_history_init o B s s' :
      system_ok o → arena_history o B (arena_ s) → pha_Init cfg sizeof_T s = Done (tt, s') → pool_history ∅ s'
  | pool_history_new L s p s' :
      pool_history L s → pha_New cfg sizeof_T s = Done (p, s') → pool_history ({[p]} ∪ L) s'
  | pool_history_delete L s p s' :
      pool_history L s → p ∈ L → pha_Delete p s = Done (tt, s') → pool_history (L ∖ {[p]}) s'
  | pool_history_write L s p v :
      pool_history L s → p ∈ L →
      pool_history L (mk_pha (arena_ s) (free_list_ s) (stats_ s) (<[p := v]> (object_words s))).

Lemma pool_history_ok L s : pool_history L s → pha_ok sizeof_T s L 0.
Proof.
  induction 1 as [o B s s' Ho Hh E|L s p s' Hh IH E|L s p s' Hh IH Hp E|L s p v Hh IH Hp].
  - destruct (arena_history_ok o B _ Ho Hh) as [Hok _].
    eapply pha_weaken; [|exact (wp_done _ _ _ _ _ _ E (pha_Init_spec cfg sizeof_T HT _ s Hok))]. lia.
  - destruct (wp_done _ _ _ _ _ _ E (pha_New_spec cfg sizeof_T HT Crashing s L 0 IH (or_intror I))) as (_ & _ & H & _).
    eapply pha_weaken; [|exact H]. lia.
  - eapply pha_weaken; [|exact (wp_done _ _ _ _ _ _ E (pha_Delete_spec sizeof_T HT s L 0 p IH Hp))]. lia.
  - by apply pha_client_write.
Qed.

(** C21: An object allocator never gives out an object that is in use: whatever
    its clients allocate, free and write to their objects, the objects in use
    are different, aligned and do not overlap, and the count of objects in use
    is exact.  A new object is none of those in use, and there is one unless the
    system has no memory; freeing always succeeds. *)
Theorem object_pool_safe L s :
  pool_history L s →
  (∀ p, p ∈ L → 0 < p ∧ p mod 8 = 0 ∧ p + sizeof_T < 2 ^ 48) ∧
  (∀ p q, p ∈ L → q ∈ L → p ≠ q → p + sizeof_T ≤ q ∨ q + sizeof_T ≤ p) ∧
  in_use (stats_ s) = u64 (Z.of_nat (size L)) ∧
  ((∃ p s', pha_New cfg sizeof_T s = Done (p, s') ∧ p ≠ 0 ∧ p ∉ L) ∨
    (∃ o', SystemAlloc (Z.max (round8 sizeof_T) kAllocIncrement) (kPageSize cfg) false (system (arena_ s))
      = Done (None, o'))) ∧
  (∀ p, p ∈ L → ∃ s', pha_Delete p s = Done (tt, s')).
Proof.
  intros Hh. pose proof (pool_history_ok L s Hh) as Hok.
  destruct (pha_objects sizeof_T HT s L 0 Hok) as (H1 & H2 & H3). split_and!; [done|done|done| |].
  - pose proof Hok as (B & F & Har & _). destruct (round8_bounds sizeof_T) as [Hr _].
    destruct (system_answers _ (round8 sizeof_T) _ Har ltac:(lia)) as [Hg|Hno]; [left|by right].
    destruct (wp_total_done _ _ _ (pha_New_spec cfg sizeof_T HT Total s L 0 Hok (or_intror Hg)))
      as (p & s' & E & Hp & HpL & _). eauto.
  - intros p Hp. by eexists.
Qed.
End Histories.

(** ** An arena of the system allocator *)

Definition example_system : SysAlloc (K := list event) := new_SysAlloc [].
#[local] Instance example_memory : SystemMemory (SysAlloc (K := list event)) := SysAlloc_memory example_config.
#[local] Instance example_memory_laws : SystemMemoryLaws (SysAlloc (K := list event)) := SysAlloc_laws example_config.

Lemma example_system_ok : system_ok example_system.
Proof. apply new_SysAlloc_ok. exact I. Qed.

Lemma arena_blocks_disjoint_witness :
  ∃ p q s, arena_history example_config example_system [(q, 200000); (p, 20)] s ∧
    disjoint_blocks (q, 200000) (p, 20).
Proof.
  assert (∃ p s1 q s2, Alloc example_config 20 (new_Arena example_system) = Done (p, s1) ∧
    Alloc example_config 200000 s1 = Done (q, s2)) as (p & s1 & q & s2 & E1 & E2).
  { eexists _, _, _, _. split; [vm_compute; reflexivity|vm_compute; reflexivity]. }
  assert (arena_history example_config example_system [(q, 200000); (p, 20)] s2) as Hh.
  { apply (arena_history_alloc _ _ _ s1); [|lia|exact E2].
    apply (arena_history_alloc _ _ _ (new_Arena example_system)); [constructor|lia|exact E1]. }
  exists p, q, s2. split; [done|].
  destruct (arena_blocks_disjoint example_config example_system _ s2 example_system_ok Hh) as (_ & Hap & _).
  inversion Hap as [|? ? Hall _]; subst. by apply Forall_cons in Hall as [? _].
Defined.

Lemma object_pool_safe_witness :
  ∃ s0 p s1,
    pha_Init example_config 96 (mk_pha (new_Arena example_system) 99 (mk_stats 9 9) ∅) = Done (tt, s0) ∧
    pha_New example_config 96 s0 = Done (p, s1) ∧ in_use (stats_ s1) = 1 ∧ p mod 8 = 0.
Proof.
  assert (∃ s0 p s1,
    pha_Init example_config 96 (mk_pha (new_Arena example_system) 99 (mk_stats 9 9) ∅) = Done (tt, s0) ∧
    pha_New example_config 96 s0 = Done (p, s1)) as (s0 & p & s1 & E0 & E1).
  { eexists _, _, _. split; [vm_compute; reflexivity|vm_compute; reflexivity]. }
  assert (pool_history example_config 96 ({[p]} ∪ ∅) s1) as Hh.
  { eapply pool_history_new; [|exact E1].
    refine (pool_history_init example_config 96 example_system [] _ s0 example_system_ok _ E0). constructor. }
  exists s0, p, s1. split; [done|]. split; [done|].
  destruct (object_pool_safe example_config 96 ltac:(lia) _ _ Hh) as (H1 & _ & H3 & _).
  clear E0 E1 Hh. assert (({[p]} ∪ ∅ : gset Z) = {[p]}) as Hs by set_solver.
  rewrite Hs, size_singleton in H3. split; [exact H3|]. apply H1. set_solver.
Defined.
