(* ===== verification/TcPageHeap.v ===== *)
(** * tcmalloc: the page heap

    [PageHeap] (page_heap.h, page_heap.cc) manages runs of pages, the spans: free
    spans are kept on lists by their length, twice, for spans whose memory is
    backed and for spans that were returned to the system; neighbours of one
    kind are merged, and the spans at the two ends of every run are found through
    the page map.  The heap uses the page map, the allocator of the [Span]
    objects and the system allocator through their interfaces.  It models a
    heap with a page map of its own and no memory limit
    ([ShrinkToUsageLimit] then returns at once); locks and the statistics of
    [PageAllocInfo] are left out.  Failed assertions and accesses to a span that
    was deleted are [Fault]. *)

From S2P Require Import Prelude.
From S2P Require Import CString.
From S2P Require Import TcCommon.
From S2P Require Import TcSpan.
From S2P Require Import TcPageMap.
From S2P Require Import TcLinkedList.
From S2P Require Import TcSystemAlloc.
From S2P Require Import TcArena.
From S2P Require Import Doubles.

(** ** Span objects and list heads *)

(** The elements of the lists: the heads [free_[s].normal], [free_[s].returned],
    with [s = kMaxPages] for [large_], and the spans. *)
Inductive node := Head (returned : bool) (s : Z) | Item (p : Z).

#[export] Instance node_eq : EqDecision node.
Proof. solve_decision. Defined.

#[export] Instance node_countable : Countable node.
Proof.
  refine (inj_countable' (λ x, match x with Head r s => inl (r, s) | Item p => inr p end)
    (λ y, match y with inl (r, s) => Head r s | inr p => Item p end) _). by intros [].
Defined.

(** [Span::AverageFreelistAddedTime].  The result of converting a double that is
    no [uint64_t] is not specified; here it is some 64-bit number. *)
Definition AverageFreelistAddedTime (time pages other_time other_pages : Z) : Z :=
  let d := d_div (d_add (d_mul (d_of_Z time) (d_of_Z pages)) (d_mul (d_of_Z other_time) (d_of_Z other_pages)))
    (d_of_Z (u64 (pages + other_pages))) in
  u64 (default 0 (d_trunc d)).

(** A signed 64-bit number. *)
Definition i64 (x : Z) : Z := u64 (x + 2 ^ 63) - 2 ^ 63.

Record BackingStats := mk_backing { system_bytes : Z; free_bytes : Z; unmapped_bytes : Z }.
Record LargeSpanStats := mk_large { large_spans : Z; normal_pages : Z; returned_pages : Z }.

(** ** The heap *)

Section PageHeap.
Context (cfg : config) {M A OS : Type}.
Context `{!PageMapImpl M, !SystemMemory OS, !ObjectPool A, !MetaMemory A OS}.
(* Whether the heap is for tagged memory, what a fresh [Span] object holds, and
   the readings of the cycle clock. *)
Context (tagged_ : bool) (stale : Span) (now : nat → Z).

Record PageHeap := mk_heap {
  lists : links node;
  spans : gmap Z Span;
  pagemap_ : M;
  span_allocator : A;
  backing : BackingStats;
  release_index_ : Z;
  ticks : nat;
}.

Local Abbreviation ST := (ST PageHeap).

Definition with_lists (l : links node) (h : PageHeap) : PageHeap :=
  mk_heap l (spans h) (pagemap_ h) (span_allocator h) (backing h) (release_index_ h) (ticks h).
Definition with_spans (m : gmap Z Span) (h : PageHeap) : PageHeap :=
  mk_heap (lists h) m (pagemap_ h) (span_allocator h) (backing h) (release_index_ h) (ticks h).
Definition with_map (m : M) (h : PageHeap) : PageHeap :=
  mk_heap (lists h) (spans h) m (span_allocator h) (backing h) (release_index_ h) (ticks h).
Definition with_pool (a : A) (h : PageHeap) : PageHeap :=
  mk_heap (lists h) (spans h) (pagemap_ h) a (backing h) (release_index_ h) (ticks h).
Definition with_backing (b : BackingStats) (h : PageHeap) : PageHeap :=
  mk_heap (lists h) (spans h) (pagemap_ h) (span_allocator h) b (release_index_ h) (ticks h).
Definition with_index (i : Z) (h : PageHeap) : PageHeap :=
  mk_heap (lists h) (spans h) (pagemap_ h) (span_allocator h) (backing h) i (ticks h).
Definition with_ticks (t : nat) (h : PageHeap) : PageHeap :=
  mk_heap (lists h) (spans h) (pagemap_ h) (span_allocator h) (backing h) (release_index_ h) t.

(** Running an operation of a part. *)
Definition on_part {S B} (get : PageHeap → S) (put : S → PageHeap → PageHeap) (m : Prelude.ST S B) : ST B :=
  λ h, match m (get h) with
       | Done (b, s) => Done (b, put s h)
       | Fault => Fault
       | OutOfFuel => OutOfFuel
       | Crashed => Crashed
       end.
Definition on_lists {B} (m : Prelude.ST (links node) B) : ST B := on_part lists with_lists m.
Definition on_map {B} (m : Prelude.ST M B) : ST B := on_part pagemap_ with_map m.
Definition on_pool {B} (m : Prelude.ST A B) : ST B := on_part span_allocator with_pool m.
Definition on_os {B} (m : Prelude.ST OS B) : ST B :=
  on_part (λ h, meta_system (span_allocator h)) (λ o h, with_pool (meta_put o (span_allocator h)) h) m.

Definition get_span (p : Z) : ST Span := sp ← gets (λ h, spans h !! p); from_opt sp.
Definition update_span (p : Z) (f : Span → Span) : ST unit :=
  sp ← get_span p; modify (λ h, with_spans (<[p := f sp]> (spans h)) h).

(** [CycleClock::Now()]. *)
Definition Now : ST Z := t ← gets ticks; modify (with_ticks (S t));; mret (u64 (now t)).

(** [Span::New(p, len)] and [Span::Delete(span)] of static_vars.h. *)
Definition Span_New (first len : Z) : ST Z :=
  p ← on_pool pool_new;
  modify (λ h, with_spans (<[p := Span_Init first len stale]> (spans h)) h);;
  on_lists (modify (λ l, <[Item p := mk_elem None None]> l));;
  mret p.

Definition Span_Delete (p : Z) : ST unit :=
  modify (λ h, with_spans (delete p (spans h)) h);;
  on_pool (pool_delete p).

(** The constructor, on the lists of a new heap. *)
Fixpoint init_loop (k : nat) (i : Z) : Prelude.ST (links node) unit :=
  match k with
  | O => mret tt
  | S k => tl_Init (Head false i);; tl_Init (Head true i);; init_loop k (i + 1)
  end.
Definition PageHeap_init (m : M) (a : A) : outcome PageHeap :=
  match (tl_Init (Head false (kMaxPages cfg));; tl_Init (Head true (kMaxPages cfg));;
         init_loop (Z.to_nat (kMaxPages cfg)) 0) ∅ with
  | Done (_, l) => Done (mk_heap l ∅ m a (mk_backing 0 0 0) (kMaxPages cfg) 0)
  | Fault => Fault
  | OutOfFuel => OutOfFuel
  | Crashed => Crashed
  end.

Definition Check : ST bool :=
  e ← on_lists (tl_empty (Head false 0)); require e;;
  e ← on_lists (tl_empty (Head true 0)); require e;;
  mret true.

Definition RecordSpan (p : Z) : ST unit :=
  sp ← get_span p;
  on_map (PageMap_Set (first_page sp) p);;
  if 1 <? num_pages sp then on_map (PageMap_Set (last_page sp) p) else mret tt.

(** The index of the list pair of a span. *)
Definition list_index (pages : Z) : Z := if pages <? kMaxPages cfg then pages else kMaxPages cfg.

Definition PrependToFreeList (p : Z) : ST unit :=
  sp ← get_span p;
  require (negb (bool_decide (location sp = IN_USE)));;
  let s := list_index (num_pages sp) in
  if bool_decide (location sp = ON_NORMAL_FREELIST) then
    modify (λ h, with_backing (mk_backing (system_bytes (backing h))
      (u64 (free_bytes (backing h) + bytes_in_span cfg sp)) (unmapped_bytes (backing h))) h);;
    on_lists (tl_prepend (Head false s) (Item p))
  else
    modify (λ h, with_backing (mk_backing (system_bytes (backing h)) (free_bytes (backing h))
      (u64 (unmapped_bytes (backing h) + bytes_in_span cfg sp))) h);;
    on_lists (tl_prepend (Head true s) (Item p)).

Definition RemoveFromFreeList (p : Z) : ST unit :=
  sp ← get_span p;
  require (negb (bool_decide (location sp = IN_USE)));;
  (if bool_decide (location sp = ON_NORMAL_FREELIST) then
     modify (λ h, with_backing (mk_backing (system_bytes (backing h))
       (u64 (free_bytes (backing h) - bytes_in_span cfg sp)) (unmapped_bytes (backing h))) h)
   else
     modify (λ h, with_backing (mk_backing (system_bytes (backing h)) (free_bytes (backing h))
       (u64 (unmapped_bytes (backing h) - bytes_in_span cfg sp))) h));;
  _ ← on_lists (tl_remove (Item p));
  mret tt.

(** Merging the span [other] into the span [p]: the part of
    [MergeIntoFreeList] that both sides share. *)
Definition absorb (p other : Z) : ST Z :=
  sp ← get_span p;
  ot ← get_span other;
  let len := num_pages ot in
  t ← from_opt (freelist_added_time sp);
  ot_t ← from_opt (freelist_added_time ot);
  update_span p (set_freelist_added_time (AverageFreelistAddedTime t (num_pages sp) ot_t (num_pages ot)));;
  RemoveFromFreeList other;;
  Span_Delete other;;
  mret len.

(** Whether the span at a page, if there is one, has the location of [p]. *)
Definition mergeable (p other : Z) : ST bool :=
  if other =? 0 then mret false
  else
    ot ← get_span other;
    sp ← get_span p;
    mret (bool_decide (location ot = location sp)).

Definition merge_prev (p first : Z) : ST unit :=
  prev ← on_map (GetDescriptor (u64 (first - 1)));
  same ← mergeable p prev;
  if same : bool then
    pr ← get_span prev;
    require (u64 (last_page pr + 1) =? first);;
    len ← absorb p prev;
    update_span p (λ sp, set_first_page (u64 (first_page sp - len)) sp);;
    update_span p (λ sp, set_num_pages (u64 (num_pages sp + len)) sp);;
    sp ← get_span p;
    on_map (PageMap_Set (first_page sp) p)
  else mret tt.

Definition merge_next (p first n : Z) : ST unit :=
  next ← on_map (GetDescriptor (u64 (first + n)));
  same ← mergeable p next;
  if same : bool then
    nx ← get_span next;
    require (first_page nx =? u64 (first + n));;
    len ← absorb p next;
    update_span p (λ sp, set_num_pages (u64 (num_pages sp + len)) sp);;
    sp ← get_span p;
    on_map (PageMap_Set (last_page sp) p)
  else mret tt.

Definition MergeIntoFreeList (p : Z) : ST unit :=
  sp ← get_span p;
  require (negb (bool_decide (location sp = IN_USE)));;
  t ← Now;
  update_span p (set_freelist_added_time t);;
  let first := first_page sp in
  let n := num_pages sp in
  merge_prev p first;;
  merge_next p first n;;
  PrependToFreeList p.

(** The leftover of [Carve]: the front of the span if only its right side has a
    neighbour, or the back. *)
Definition split_leftover (p n extra : Z) : ST Z :=
  sp ← get_span p;
  left_ ← on_map (GetDescriptor (u64 (first_page sp - 1)));
  only_right ← (if left_ =? 0 then
      right_ ← on_map (GetDescriptor (u64 (last_page sp + 1)));
      mret (negb (right_ =? 0))
    else mret false);
  if only_right : bool then
    leftover ← Span_New (first_page sp) extra;
    update_span p (set_first_page (u64 (first_page sp + extra)));;
    on_map (PageMap_Set (u64 (first_page sp + extra)) p);;
    mret leftover
  else Span_New (u64 (first_page sp + n)) extra.

Definition Carve (p n : Z) : ST Z :=
  require (0 <? n);;
  sp ← get_span p;
  require (negb (bool_decide (location sp = IN_USE)));;
  let old_location := location sp in
  RemoveFromFreeList p;;
  update_span p (set_location IN_USE);;
  let extra := i32 (u64 (num_pages sp - n)) in
  require (0 <=? extra);;
  (if 0 <? extra then
     leftover ← split_leftover p n extra;
     update_span leftover (set_location old_location);;
     RecordSpan leftover;;
     PrependToFreeList leftover;;
     t ← from_opt (freelist_added_time sp);
     update_span leftover (set_freelist_added_time t);;
     update_span p (set_num_pages n);;
     sp ← get_span p;
     on_map (PageMap_Set (last_page sp) p)
   else mret tt);;
  ok ← Check;
  require ok;;
  mret p.

Definition IsSpanBetter (span : Span) (best : option Span) (n : Z) : bool :=
  if num_pages span <? n then false
  else match best with
       | None => true
       | Some best =>
           if num_pages span <? num_pages best then true
           else if num_pages best <? num_pages span then false
           else first_page span <? first_page best
       end.

(** One of the loops of [AllocLarge]; [best] is a span and whether it came from
    the list of returned spans. *)
Fixpoint best_loop (returned : bool) (l : list node) (n : Z) (best : option (Z * bool)) :
    ST (option (Z * bool)) :=
  match l with
  | Item p :: l =>
      sp ← get_span p;
      require (bool_decide (location sp = if returned then ON_RETURNED_FREELIST else ON_NORMAL_FREELIST));;
      b ← (match best with None => mret None | Some (q, _) => bq ← get_span q; mret (Some bq) end);
      best_loop returned l n (if IsSpanBetter sp b n then Some (p, returned) else best)
  | _ :: _ => fault
  | [] => mret best
  end.

(** The elements of a list. *)
Definition elements_of (returned : bool) (s : Z) : ST (list node) :=
  fuel ← gets (λ h, S (size (spans h)));
  on_lists (tl_elements fuel (Head returned s)).

Definition AllocLarge (n : Z) : ST (option (Z * bool)) :=
  normal ← elements_of false (kMaxPages cfg);
  best ← best_loop false normal n None;
  returned ← elements_of true (kMaxPages cfg);
  best ← best_loop true returned n best;
  match best with
  | None => mret None
  | Some (p, from_returned) => p ← Carve p n; mret (Some (p, from_returned))
  end.

(** The first span of a list, which has to be one of that kind. *)
Definition first_of (returned : bool) (s : Z) : ST Z :=
  e ← on_lists (tl_first (Head returned s));
  match e with
  | Item p =>
      sp ← get_span p;
      require (bool_decide (location sp = if returned then ON_RETURNED_FREELIST else ON_NORMAL_FREELIST));;
      mret p
  | Head _ _ => fault
  end.

(** The loop of [SearchFreeAndLargeLists] over the lengths from [s] on. *)
Fixpoint search_loop (k : nat) (s n : Z) : ST (option (Z * bool)) :=
  match k with
  | O => mret None
  | S k =>
      e ← on_lists (tl_empty (Head false s));
      if negb e then p ← first_of false s; p ← Carve p n; mret (Some (p, false))
      else
        e ← on_lists (tl_empty (Head true s));
        if negb e then p ← first_of true s; p ← Carve p n; mret (Some (p, true))
        else search_loop k (s + 1) n
  end.

(** The span and [*from_returned], or nothing. *)
Definition SearchFreeAndLargeLists (n : Z) : ST (option (Z * bool)) :=
  ok ← Check; require ok;;
  require (0 <? n);;
  r ← search_loop (Z.to_nat (kMaxPages cfg - n)) n n;
  match r with
  | Some r => mret (Some r)
  | None => AllocLarge n
  end.

Definition GrowHeap (n : Z) : ST bool :=
  if kMaxValidPages cfg <? n then mret false
  else
    r ← on_os (SystemAlloc (u64 (n ≪ kPageShift cfg)) (kPageSize cfg) tagged_);
    match r with
    | None => mret false
    | Some (ptr, actual_size) =>
        let n := actual_size ≫ kPageShift cfg in
        modify (λ h, with_backing (mk_backing (u64 (system_bytes (backing h) + actual_size))
          (free_bytes (backing h)) (unmapped_bytes (backing h))) h);;
        let p := ptr ≫ kPageShift cfg in
        require (0 <? p);;
        ensured ← on_map (PageMap_Ensure (u64 (p - 1)) (u64 (n + 2)));
        if ensured : bool then
          span ← Span_New p n;
          RecordSpan span;;
          update_span span (set_location ON_RETURNED_FREELIST);;
          MergeIntoFreeList span;;
          ok ← Check; require ok;;
          mret true
        else
          on_os (SystemRelease ptr actual_size);;
          mret false
    end.

Definition AllocateSpan (n : Z) : ST (option (Z * bool)) :=
  ok ← Check; require ok;;
  result ← SearchFreeAndLargeLists n;
  match result with
  | Some r => mret (Some r)
  | None =>
      grown ← GrowHeap n;
      if grown : bool then
        result ← SearchFreeAndLargeLists n;
        require (match result with Some (_, from_returned) => from_returned | None => false end);;
        mret result
      else ok ← Check; require ok;; mret None
  end.

(** [ASSERT(!result || IsTaggedMemory(result->start_address()) == tagged_)]. *)
Definition check_tag (p : Z) : ST unit :=
  sp ← get_span p;
  require (Bool.eqb (IsTaggedMemory (start_address cfg sp)) tagged_).

(** [New(n)]; [SystemBack] has no effect. *)
Definition PageHeap_New (n : Z) : ST (option Z) :=
  require (0 <? n);;
  result ← AllocateSpan n;
  match result with
  | None => mret None
  | Some (p, _) => check_tag p;; mret (Some p)
  end.

(** An extra part of [NewAligned] goes back to the free lists. *)
Definition give_back (first len : Z) (loc : Location) : ST unit :=
  extra ← Span_New first len;
  update_span extra (set_location loc);;
  RecordSpan extra;;
  MergeIntoFreeList extra.

Definition PageHeap_NewAligned (n align : Z) : ST (option Z) :=
  require (0 <? n);;
  require (Z.land align (u64 (align - 1)) =? 0);;
  if align <=? 1 then PageHeap_New n
  else
    let extra := u64 (align - 1) in
    result ← AllocateSpan (u64 (n + extra));
    match result with
    | None => mret None
    | Some (span, from_returned) =>
        sp ← get_span span;
        let p := first_page sp in
        let mask := u64 (align - 1) in
        let aligned := Z.land (u64 (p + mask)) (wnot 64 mask) in
        require (aligned mod align =? 0);;
        require (p <=? aligned);;
        require (u64 (aligned + n) <=? u64 (p + num_pages sp));;
        let before := u64 (aligned - p) in
        let after := u64 (extra - before) in
        update_span span (set_first_page aligned);;
        update_span span (set_num_pages n);;
        RecordSpan span;;
        let loc := if from_returned : bool then ON_RETURNED_FREELIST else ON_NORMAL_FREELIST in
        (if 0 <? before then give_back p before loc else mret tt);;
        (if 0 <? after then give_back (u64 (aligned + n)) after loc else mret tt);;
        check_tag span;;
        mret (Some span)
    end.

Definition PageHeap_Delete (p : Z) : ST unit :=
  sp ← get_span p;
  require (Bool.eqb (IsTaggedMemory (start_address cfg sp)) tagged_);;
  ok ← Check; require ok;;
  require (bool_decide (location sp = IN_USE));;
  require (negb (sampled sp));;
  require (0 <? num_pages sp);;
  d ← on_map (GetDescriptor (first_page sp)); require (d =? p);;
  d ← on_map (GetDescriptor (last_page sp)); require (d =? p);;
  update_span p (set_location ON_NORMAL_FREELIST);;
  MergeIntoFreeList p;;
  ok ← Check; require ok;;
  mret tt.

(** ** Releasing memory *)

(** [ReleaseLastNormalSpan] up to where it drops the lock, and from where it
    takes it again; other threads may run in between. *)
Definition release_begin (s : Z) : ST Z :=
  e ← on_lists (tl_last (Head false s));
  match e with
  | Item p =>
      sp ← get_span p;
      require (bool_decide (location sp = ON_NORMAL_FREELIST));;
      RemoveFromFreeList p;;
      modify (λ h, with_backing (mk_backing (system_bytes (backing h))
        (u64 (free_bytes (backing h) + bytes_in_span cfg sp)) (unmapped_bytes (backing h))) h);;
      update_span p (set_location IN_USE);;
      mret p
  | Head _ _ => fault
  end.

Definition release_end (p : Z) : ST unit :=
  sp ← get_span p;
  modify (λ h, with_backing (mk_backing (system_bytes (backing h))
    (u64 (free_bytes (backing h) - bytes_in_span cfg sp)) (unmapped_bytes (backing h))) h);;
  update_span p (set_location ON_RETURNED_FREELIST);;
  MergeIntoFreeList p.

Definition ReleaseLastNormalSpan (s : Z) : ST Z :=
  p ← release_begin s;
  sp ← get_span p;
  on_os (SystemRelease (start_address cfg sp) (bytes_in_span cfg sp));;
  release_end p;;
  mret (num_pages sp).

(** The [for] loop of [ReleaseAtLeastNPages]: [k] lists are left. *)
Fixpoint release_round (k : nat) (num_pages released : Z) : ST Z :=
  match k with
  | O => mret released
  | S k =>
      if released <? num_pages then
        modify (λ h, if kMaxPages cfg <? release_index_ h then with_index 0 h else h);;
        i ← gets release_index_;
        e ← on_lists (tl_empty (Head false i));
        released ← (if negb e then len ← ReleaseLastNormalSpan i; mret (u64 (released + len)) else mret released);
        modify (λ h, with_index (release_index_ h + 1) h);;
        release_round k num_pages released
      else mret released
  end.

Fixpoint release_loop (fuel : nat) (num_pages released prev : Z) : ST Z :=
  match fuel with
  | O => out_of_fuel
  | S fuel =>
      if released <? num_pages then
        if released =? prev then mret released
        else
          r ← release_round (Z.to_nat (kMaxPages cfg + 1)) num_pages released;
          release_loop fuel num_pages r released
      else mret released
  end.

(** Every round but the last releases a span that was normal. *)
Definition ReleaseAtLeastNPages (num_pages : Z) : ST Z :=
  fuel ← gets (λ h, (size (spans h) + 2)%nat);
  release_loop fuel num_pages 0 (2 ^ 64 - 1).

(** ** Statistics *)

Definition heap_stats : ST BackingStats := gets backing.

Definition list_length (returned : bool) (s : Z) : ST Z :=
  fuel ← gets (λ h, S (size (spans h)));
  on_lists (tl_length fuel (Head returned s)).

(** [normal_length[s]] and [returned_length[s]], for [s] from 0 on. *)
Fixpoint small_stats_loop (k : nat) (s : Z) : ST (list (Z * Z)) :=
  match k with
  | O => mret []
  | S k =>
      a ← list_length false s;
      b ← list_length true s;
      rest ← small_stats_loop k (s + 1);
      mret ((a, b) :: rest)
  end.
Definition GetSmallSpanStats : ST (list (Z * Z)) := small_stats_loop (Z.to_nat (kMaxPages cfg)) 0.

Fixpoint large_stats_loop (l : list node) (spans pages : Z) : ST (Z * Z) :=
  match l with
  | Item p :: l =>
      sp ← get_span p;
      large_stats_loop l (i64 (spans + 1)) (i64 (pages + num_pages sp))
  | _ :: _ => fault
  | [] => mret (spans, pages)
  end.
Definition GetLargeSpanStats : ST LargeSpanStats :=
  normal ← elements_of false (kMaxPages cfg);
  r ← large_stats_loop normal 0 0;
  returned ← elements_of true (kMaxPages cfg);
  q ← large_stats_loop returned (fst r) 0;
  mret (mk_large (fst q) (snd r) (snd q)).
End PageHeap.
