(* ===== verification/TcPageHeapLists.v ===== *)
(** * tcmalloc: the free lists of the page heap

    The lists of the heap hold the free spans, each on the list of its kind and
    length, and the byte counts are their sums.  Operations on lists change one
    span. *)

From S2P Require Import Prelude.
From S2P Require Import TcCommon.
From S2P Require Import TcSpan.
From S2P Require Import TcLinkedList.
From S2P Require Import TcLinkedListCorrect.
From S2P Require Import TcPageMap.
From S2P Require Import TcSystemAlloc.
From S2P Require Import TcArena.
From S2P Require Import TcPageHeap.

Definition kind_location (returned : bool) : Location :=
  if returned then ON_RETURNED_FREELIST else ON_NORMAL_FREELIST.

Lemma location_kind loc : loc ≠ IN_USE → ∃ r, loc = kind_location r.
Proof. destruct loc; [done|by exists false|by exists true]. Qed.

Section Lists.
Context (cfg : config).
Implicit Types (F : gmap Z Span) (l : links node) (sp : Span).

Lemma kMaxPages_bounds : 4 ≤ kMaxPages cfg ≤ 256.
Proof. on_config cfg; by vm_compute. Qed.

(** The span [sp] belongs on the list of kind [r] and index [s]. *)
Definition belongs (r : bool) (s : Z) sp : Prop :=
  location sp = kind_location r ∧ list_index cfg (num_pages sp) = s.

Record lists_ok F l : Prop := {
  lo_pages p sp : F !! p = Some sp → 0 < num_pages sp;
  lo_rings : ∃ c, rings c l ∧
    (∀ x, is_Some (c !! x) ↔ ∃ r s, x = Head r s ∧ 0 ≤ s ≤ kMaxPages cfg) ∧
    ∀ r s L, c !! Head r s = Some L → ∀ x, x ∈ L ↔ ∃ p sp, x = Item p ∧ F !! p = Some sp ∧ belongs r s sp;
}.

Lemma list_index_bounds n : 0 < n → 1 ≤ list_index cfg n ≤ kMaxPages cfg.
Proof. intros Hn. pose proof kMaxPages_bounds. unfold list_index. destruct (Z.ltb_spec n (kMaxPages cfg)); lia. Qed.

(** The spans of a list. *)
Lemma list_spans F l r s :
  lists_ok F l → 0 ≤ s ≤ kMaxPages cfg →
  ∃ c L, rings c l ∧ c !! Head r s = Some L ∧ NoDup L ∧ (length L ≤ size F)%nat ∧
    ∀ x, x ∈ L ↔ ∃ p sp, x = Item p ∧ F !! p = Some sp ∧ belongs r s sp.
Proof.
  intros [_ (c & Hr & Hd & Hin)] Hs. destruct (proj2 (Hd (Head r s))) as [L HL]; [by exists r, s|].
  pose proof (r_nodup _ _ Hr _ _ HL) as Hnd. exists c, L. split_and!; [done|done|done| |by apply Hin].
  assert (length (Item <$> elements (dom F)) = size F) as E.
  { rewrite length_fmap. apply (size_dom F). }
  rewrite <-E. apply submseteq_length, NoDup_submseteq; [done|].
  intros x Hx. apply (Hin _ _ _ HL) in Hx as (p & sp & -> & Hp & _).
  apply list_elem_of_fmap. exists p. split; [done|]. apply elem_of_elements. by apply elem_of_dom_2 in Hp.
Qed.

Lemma heads_only F l : lists_ok F l → ∀ c p,
  (∀ x, is_Some (c !! x) ↔ ∃ r s, x = Head r s ∧ 0 ≤ s ≤ kMaxPages cfg) → (c : gmap node (list node)) !! Item p = None.
Proof.
  intros _ c p Hd. destruct (c !! Item p) as [L|] eqn:E; [|done].
  destruct (proj1 (Hd (Item p))) as (r & s & ? & _); [by rewrite E|done].
Qed.

Lemma prepend_spec F l p sp r :
  lists_ok F l → F !! p = None → location sp = kind_location r → 0 < num_pages sp → Item p ∈ dom l →
  wp true (tl_prepend (Head r (list_index cfg (num_pages sp))) (Item p))
    (λ _ l', lists_ok (<[p := sp]> F) l' ∧ dom l' = dom l) l.
Proof.
  intros Hok Hp Hloc Hn Hdom. pose proof (lo_rings _ _ Hok) as (c & Hr & Hd & Hin).
  pose proof (list_index_bounds _ Hn) as Hi.
  destruct (proj2 (Hd (Head r (list_index cfg (num_pages sp))))) as [L HL].
  { eexists _, _. split; [done|]. lia. }
  pose proof (heads_only F l Hok c p Hd) as Hnone.
  apply (tl_prepend_spec c l Hr _ L); [done| |done|].
  { split; [done|]. intros h L' HL' HpL'. destruct (proj1 (Hd h)) as (r' & s' & -> & _); [by rewrite HL'|].
    apply (Hin _ _ _ HL') in HpL' as (q & sq & [= <-] & Hq & _). congruence. }
  intros l' Hr' Hdom'. split; [|done]. split.
  - intros q sq [[<- <-]|[_ Hq]]%lookup_insert_Some; [done|by apply (lo_pages _ _ Hok q)].
  - eexists. split; [exact Hr'|]. split.
    + intros x. rewrite <-Hd. destruct (decide (x = Head r (list_index cfg (num_pages sp)))) as [->|Hne].
      * rewrite lookup_insert_eq, HL. split; by eexists.
      * by rewrite lookup_insert_ne.
    + intros r' s' L' [[[= <- <-] <-]|[Hne HL']]%lookup_insert_Some x.
      * rewrite elem_of_cons, (Hin _ _ _ HL). split.
        -- intros [->|(q & sq & -> & Hq & Hb)]; [exists p, sp; by rewrite lookup_insert_eq|].
           exists q, sq. rewrite lookup_insert_ne by congruence. done.
        -- intros (q & sq & -> & [[<- <-]|[Hqp Hq]]%lookup_insert_Some & Hb); [by left|right; eauto 10].
      * rewrite (Hin _ _ _ HL'). split.
        -- intros (q & sq & -> & Hq & Hb). exists q, sq. rewrite lookup_insert_ne by congruence. done.
        -- intros (q & sq & -> & [[<- <-]|[Hqp Hq]]%lookup_insert_Some & Hb); [|by eauto].
           destruct Hb as [Hb1 Hb2]. exfalso. apply Hne. rewrite <-Hb2. f_equal.
           rewrite Hloc in Hb1. by destruct r, r'.
Qed.

Lemma remove_spec F l p sp r :
  lists_ok F l → F !! p = Some sp → location sp = kind_location r →
  wp true (tl_remove (Item p)) (λ _ l', lists_ok (delete p F) l' ∧ dom l' = dom l) l.
Proof.
  intros Hok Hp Hloc. pose proof (lo_pages _ _ Hok p sp Hp) as Hn.
  pose proof (lo_rings _ _ Hok) as (c & Hr & Hd & Hin).
  pose proof (list_index_bounds _ Hn) as Hi. set (s := list_index cfg (num_pages sp)) in *.
  destruct (proj2 (Hd (Head r s))) as [L HL]; [eexists _, _; split; [done|]; lia|].
  pose proof (r_nodup _ _ Hr _ _ HL) as Hnd.
  assert (Item p ∈ L) as HpL by (apply (Hin _ _ _ HL); exists p, sp; done).
  apply list_elem_of_split in HpL as (l1 & l2 & ->).
  assert (Item p ∉ l1 ++ l2) as Hnot.
  { apply NoDup_app in Hnd as (_ & H1 & H2). apply NoDup_cons in H2 as [H2 _].
    rewrite elem_of_app. intros [H3|H3]; [|done]. apply (H1 _ H3). left. }
  apply (tl_remove_spec c l Hr (Head r s) l1 (Item p) l2); [done|].
  intros l' Hr' Hdom'. split; [|done]. split.
  - intros q sq [_ Hq]%lookup_delete_Some. by apply (lo_pages _ _ Hok q).
  - eexists. split; [exact Hr'|]. split.
    + intros x. rewrite <-Hd. destruct (decide (x = Head r s)) as [->|Hne].
      * rewrite lookup_insert_eq, HL. split; by eexists.
      * by rewrite lookup_insert_ne.
    + intros r' s' L' [[[= <- <-] <-]|[Hne HL']]%lookup_insert_Some x.
      * split.
        -- intros Hx. assert (x ∈ l1 ++ Item p :: l2) as Hx' by set_solver.
           apply (Hin _ _ _ HL) in Hx' as (q & sq & -> & Hq & Hb). exists q, sq.
           rewrite lookup_delete_ne by congruence. done.
        -- intros (q & sq & -> & [Hqp Hq]%lookup_delete_Some & Hb).
           assert (Item q ∈ l1 ++ Item p :: l2) as Hx by (apply (Hin _ _ _ HL); eauto).
           assert (Item q ≠ Item p) by congruence. set_solver.
      * rewrite (Hin _ _ _ HL'). split.
        -- intros (q & sq & -> & Hq & Hb). exists q, sq. split; [done|]. split; [|done].
           apply lookup_delete_Some. split; [|done]. intros <-. rewrite Hp in Hq. injection Hq as <-.
           destruct Hb as [Hb1 Hb2]. apply Hne. unfold s. rewrite Hb2. f_equal.
           rewrite Hloc in Hb1. by destruct r, r'.
        -- intros (q & sq & -> & [Hqp Hq]%lookup_delete_Some & Hb). eauto.
Qed.

Lemma ring_empty_spec F l r s (Q : bool → links node → Prop) :
  lists_ok F l → 0 ≤ s ≤ kMaxPages cfg →
  (∀ b, (if b : bool then ∀ p sp, F !! p = Some sp → ¬ belongs r s sp
         else ∃ p sp, F !! p = Some sp ∧ belongs r s sp) → Q b l) →
  wp true (tl_empty (Head r s)) Q l.
Proof.
  intros Hok Hs HQ. destruct (list_spans F l r s Hok Hs) as (c & L & Hr & HL & _ & _ & Hin).
  apply (tl_empty_spec c l Hr _ L); [done|]. apply HQ. destruct L as [|x L].
  - rewrite bool_decide_eq_true_2 by done. intros p sp Hp Hb.
    assert (Item p ∈ []) as Hx%not_elem_of_nil by (apply Hin; eauto). done.
  - rewrite bool_decide_eq_false_2 by done. destruct (proj1 (Hin x)) as (p & sp & _ & ?); [left|]. eauto.
Qed.

Lemma first_spec F l r s (Q : node → links node → Prop) :
  lists_ok F l → 0 ≤ s ≤ kMaxPages cfg → (∃ p sp, F !! p = Some sp ∧ belongs r s sp) →
  (∀ p sp, F !! p = Some sp → belongs r s sp → Q (Item p) l) → wp true (tl_first (Head r s)) Q l.
Proof.
  intros Hok Hs (p & sp & Hp & Hb) HQ. destruct (list_spans F l r s Hok Hs) as (c & L & Hr & HL & _ & _ & Hin).
  destruct L as [|x L]; [assert (Item p ∈ []) as Hx%not_elem_of_nil by (apply Hin; eauto); done|].
  apply (tl_first_spec c l Hr _ x L); [done|]. destruct (proj1 (Hin x)) as (q & sq & -> & ? & ?); [left|]. by eapply HQ.
Qed.

Lemma last_spec F l r s (Q : node → links node → Prop) :
  lists_ok F l → 0 ≤ s ≤ kMaxPages cfg → (∃ p sp, F !! p = Some sp ∧ belongs r s sp) →
  (∀ p sp, F !! p = Some sp → belongs r s sp → Q (Item p) l) → wp true (tl_last (Head r s)) Q l.
Proof.
  intros Hok Hs (p & sp & Hp & Hb) HQ. destruct (list_spans F l r s Hok Hs) as (c & L & Hr & HL & _ & _ & Hin).
  destruct L as [|x L _] using rev_ind; [assert (Item p ∈ []) as Hx%not_elem_of_nil by (apply Hin; eauto); done|].
  apply (tl_last_spec c l Hr _ x L); [done|].
  destruct (proj1 (Hin x)) as (q & sq & -> & ? & ?); [apply elem_of_app; right; left|]. by eapply HQ.
Qed.

Lemma elements_spec F l r s fuel (Q : list node → links node → Prop) :
  lists_ok F l → 0 ≤ s ≤ kMaxPages cfg → (size F < fuel)%nat →
  (∀ L, NoDup L → (∀ x, x ∈ L ↔ ∃ p sp, x = Item p ∧ F !! p = Some sp ∧ belongs r s sp) → Q L l) →
  wp true (tl_elements fuel (Head r s)) Q l.
Proof.
  intros Hok Hs Hf HQ. destruct (list_spans F l r s Hok Hs) as (c & L & Hr & HL & Hnd & Hlen & Hin).
  apply (tl_elements_spec c l Hr fuel _ L); [done|lia|]. by apply HQ.
Qed.

Lemma length_spec F l r s fuel (Q : Z → links node → Prop) :
  lists_ok F l → 0 ≤ s ≤ kMaxPages cfg → (size F < fuel)%nat → Z.of_nat (size F) < 2 ^ 64 →
  (∀ L, NoDup L → (∀ x, x ∈ L ↔ ∃ p sp, x = Item p ∧ F !! p = Some sp ∧ belongs r s sp) →
    Q (Z.of_nat (length L)) l) →
  wp true (tl_length fuel (Head r s)) Q l.
Proof.
  intros Hok Hs Hf Hw HQ. destruct (list_spans F l r s Hok Hs) as (c & L & Hr & HL & Hnd & Hlen & Hin).
  apply (tl_length_spec c l Hr fuel _ L); [done|lia|lia|]. by apply HQ.
Qed.

(** Storing the links of a new span. *)
Lemma new_item_ok F l p :
  lists_ok F l → F !! p = None → lists_ok F (<[Item p := mk_elem None None]> l).
Proof.
  intros [Hn (c & Hr & Hd & Hin)] Hp. split; [done|]. exists c. split_and!; [|done|done].
  assert (∀ h L, c !! h = Some L → h ≠ Item p ∧ Item p ∉ L) as Hno.
  { intros h L HL. destruct (proj1 (Hd h)) as (r & s & -> & _); [by rewrite HL|]. split; [done|].
    intros (q & sq & [= <-] & Hq & _)%(Hin _ _ _ HL). congruence. }
  destruct Hr as [Rp Rn Ri Ra]. split; [|done|done|done].
  intros h L HL. destruct (Hno h L HL) as [Hh HpL]. apply (path_ext l); [| |by apply Rp].
  - intros x Hx. unfold nxt. rewrite lookup_insert_ne; [done|]. set_solver.
  - intros x Hx. unfold prv. rewrite lookup_insert_ne; [done|]. set_solver.
Qed.

(** ** Sums of bytes *)

Definition span_bytes sp : Z := num_pages sp * kPageSize cfg.

Definition kind_bytes (r : bool) F : Z :=
  map_fold (λ _ sp acc, (if decide (location sp = kind_location r) then span_bytes sp else 0) + acc) 0 F.

Lemma kind_bytes_empty r : kind_bytes r ∅ = 0.
Proof. apply map_fold_empty. Qed.

Lemma kind_bytes_insert r F p sp :
  F !! p = None → kind_bytes r (<[p := sp]> F) =
    (if decide (location sp = kind_location r) then span_bytes sp else 0) + kind_bytes r F.
Proof.
  intros Hp. unfold kind_bytes.
  rewrite (map_fold_insert_L (λ (_ : Z) sp acc,
    (if decide (location sp = kind_location r) then span_bytes sp else 0) + acc)); [done| |done].
  intros. lia.
Qed.

Lemma kind_bytes_delete r F p sp :
  F !! p = Some sp → kind_bytes r F =
    (if decide (location sp = kind_location r) then span_bytes sp else 0) + kind_bytes r (delete p F).
Proof.
  intros Hp. rewrite <-(kind_bytes_insert r (delete p F) p sp) by apply lookup_delete_eq.
  by rewrite insert_delete_id.
Qed.

(** The byte counts; [rel] bytes are of spans that are being released. *)
Definition backing_ok F (rel : Z) (b : BackingStats) : Prop :=
  free_bytes b = u64 (kind_bytes false F + rel) ∧ unmapped_bytes b = u64 (kind_bytes true F).

Lemma u64_add a b : u64 (u64 a + b) = u64 (a + b).
Proof. unfold wrap. by rewrite Zplus_mod_idemp_l. Qed.

Lemma u64_sub a b : u64 (u64 a - b) = u64 (a - b).
Proof. unfold wrap. by rewrite Zminus_mod_idemp_l. Qed.

Lemma u64_add_r a b : u64 (a + u64 b) = u64 (a + b).
Proof. unfold wrap. by rewrite Zplus_mod_idemp_r. Qed.

Lemma u64_sub_r a b : u64 (a - u64 b) = u64 (a - b).
Proof. unfold wrap. by rewrite Zminus_mod_idemp_r. Qed.

Lemma bytes_in_span_eq sp : 0 ≤ num_pages sp → bytes_in_span cfg sp = u64 (span_bytes sp).
Proof.
  intros Hn. unfold bytes_in_span, span_bytes, num_pages, kPageSize. f_equal.
  assert (0 ≤ kPageShift cfg) by (on_config cfg; by vm_compute).
  by rewrite Z.shiftl_mul_pow2, Z.shiftl_1_l.
Qed.

Lemma backing_add F rel b p sp r :
  backing_ok F rel b → F !! p = None → location sp = kind_location r → 0 ≤ num_pages sp →
  backing_ok (<[p := sp]> F) rel
    (if r then mk_backing (system_bytes b) (free_bytes b) (u64 (unmapped_bytes b + bytes_in_span cfg sp))
     else mk_backing (system_bytes b) (u64 (free_bytes b + bytes_in_span cfg sp)) (unmapped_bytes b)).
Proof.
  intros [Hf Hu] Hp Hloc Hn. rewrite bytes_in_span_eq by done. unfold backing_ok.
  rewrite !kind_bytes_insert by done. rewrite Hloc.
  destruct r; simpl; rewrite Hf, Hu, ?u64_add, ?u64_add_r; split; f_equal; lia.
Qed.

Lemma backing_remove F rel b p sp r :
  backing_ok F rel b → F !! p = Some sp → location sp = kind_location r → 0 ≤ num_pages sp →
  backing_ok (delete p F) rel
    (if r then mk_backing (system_bytes b) (free_bytes b) (u64 (unmapped_bytes b - bytes_in_span cfg sp))
     else mk_backing (system_bytes b) (u64 (free_bytes b - bytes_in_span cfg sp)) (unmapped_bytes b)).
Proof.
  intros [Hf Hu] Hp Hloc Hn. rewrite bytes_in_span_eq by done. unfold backing_ok.
  rewrite (kind_bytes_delete false F p sp Hp) in Hf. rewrite (kind_bytes_delete true F p sp Hp) in Hu.
  rewrite Hloc in Hf, Hu.
  destruct r; simpl in *; rewrite Hf, Hu, ?u64_sub, ?u64_sub_r; split; f_equal; lia.
Qed.
End Lists.
