(* ===== verification/TcPageHeapInv.v ===== *)
(** * tcmalloc: the invariant of the page heap

    The spans partition the pages that the heap got from the system; the
    page map finds each of them at its first and its last page and nothing
    outside of the heap; the free spans are those on the lists, and no two
    neighbours of one kind are free. *)

From S2P Require Import Prelude.
From S2P Require Import TcCommon.
From S2P Require Import TcSpan.
From S2P Require Import TcPageMap.
From S2P Require Import TcPageMapCorrect.
From S2P Require Import TcLinkedList.
From S2P Require Import TcLinkedListCorrect.
From S2P Require Import TcSystemAlloc.
From S2P Require Import TcSystemAllocCorrect.
From S2P Require Import TcArena.
From S2P Require Import TcArenaCorrect.
From S2P Require Import TcPageHeap.
From S2P Require Import TcPageHeapLists.

Abbreviation range := (Z * Z)%type.

Definition in_range (r : range) (q : Z) : Prop := r.1 ≤ q < r.1 + r.2.

(** The pages of the spans [G], or of the hole: pages whose span is being made. *)
Definition owned (G : gmap Z range) (hole : Z → bool) (q : Z) : Prop :=
  (∃ p r, G !! p = Some r ∧ in_range r q) ∨ hole q = true.

Lemma owned_split G hole p r q :
  G !! p = Some r → owned G hole q ↔ in_range r q ∨ owned (delete p G) hole q.
Proof.
  intros Hp. unfold owned. split.
  - intros [(p' & r' & Hp' & Hin)|Hh]; [|right; by right].
    destruct (decide (p' = p)) as [->|Hne]; [left; congruence|].
    right. left. exists p', r'. by rewrite lookup_delete_ne.
  - intros [Hin|[(p' & r' & [Hne Hp']%lookup_delete_Some & Hin)|Hh]]; [left; eauto|left; eauto|by right].
Qed.

Lemma owned_insert G hole p r q :
  owned (<[p := r]> G) hole q ↔ in_range r q ∨ owned (delete p G) hole q.
Proof.
  rewrite (owned_split (<[p := r]> G) hole p r q) by apply lookup_insert_eq. by rewrite delete_insert_eq.
Qed.

Lemma owned_dec G hole q : owned G hole q ∨ ¬ owned G hole q.
Proof.
  destruct (decide (map_Exists (λ _ r, in_range r q) G)) as [(p & r & Hp & Hin)|Hno].
  - left. left. eauto.
  - destruct (hole q) eqn:Hh; [left; by right|right].
    intros [(p & r & Hp & Hin)|?]; [|congruence]. apply Hno. by exists p, r.
Qed.

Section Inv.
Context (cfg : config) {M A OS : Type}.
Context `{!PageMapImpl M, !SystemMemory OS, !ObjectPool A, !MetaMemory A OS}.
Context {bits hb : Z} {reliable : Prop}.
Context {HML : PageMapLaws M bits hb reliable} {HSL : SystemMemoryLaws OS}.
Context {HPL : ObjectPoolLaws A} {HMM : MetaMemoryLaws A OS}.
Context (tagged_ : bool).

Local Abbreviation PageHeap := (PageHeap (M := M) (A := A)).
Implicit Types (G : gmap Z range) (F : gmap Z Span) (h : PageHeap) (o : OS) (hole : Z → bool).
Implicit Types (cov : Z → Prop) (desc : Z → Z).

(** ** Pages *)

(** A page of the heap: it and its neighbours have entries in the page map, and
    its memory was given to the heap. *)
Definition page_ok cov o (q : Z) : Prop :=
  0 < q ∧ (q + 1) * kPageSize cfg ≤ 2 ^ 46 ∧ cov (q - 1) ∧ cov q ∧ cov (q + 1) ∧
  system_up o ∧
  ∀ a, q * kPageSize cfg ≤ a < (q + 1) * kPageSize cfg → given o a ∧ IsTaggedMemory a = tagged_.

Record pages_ok hole G cov desc o : Prop := {
  po_span p f k : G !! p = Some (f, k) → p ≠ 0 ∧ 0 < k ∧ desc f = p ∧ desc (f + k - 1) = p;
  po_unique p q r1 r2 x : G !! p = Some r1 → G !! q = Some r2 → in_range r1 x → in_range r2 x → p = q;
  po_hole p r x : G !! p = Some r → in_range r x → hole x = false;
  po_page x : owned G hole x → page_ok cov o x;
  po_out x : ¬ owned G hole x → desc x = 0;
}.

(** Later systems. *)
Lemma pages_system hole G cov desc o o' :
  pages_ok hole G cov desc o → (∀ a, given o a → given o' a) → (system_up o → system_up o') → pages_ok hole G cov desc o'.
Proof.
  intros [H1 H2 H3 H4 H5] Hg Hup. split; [done|done|done| |done].
  intros x Hx. destruct (H4 x Hx) as (? & ? & ? & ? & ? & ? & Ha). split_and!; [done..|auto|].
  intros a Hin. destruct (Ha a Hin). auto.
Qed.

Definition mine G (c x : Z) : Prop := ∃ r, G !! c = Some r ∧ in_range r x.

(** The span [c] gets the pages [r], out of the hole and of those it had; the
    rest becomes the hole. *)
Lemma pages_place hole hole' G cov cov' desc desc' o c f k :
  pages_ok hole G cov desc o → c ≠ 0 → 0 < k →
  (∀ x, f ≤ x < f + k → hole x = true ∨ mine G c x) →
  (∀ x, hole' x = true ↔ (hole x = true ∨ mine G c x) ∧ ¬ (f ≤ x < f + k)) →
  (∀ x, cov x → cov' x) → desc' f = c → desc' (f + k - 1) = c →
  (∀ x, ¬ (f ≤ x < f + k) → desc' x = desc x) → pages_ok hole' (<[c := (f, k)]> G) cov' desc' o.
Proof.
  intros Hok Hc Hk Hr Hh Hcov Hf Hl Hout.
  assert (∀ p r x, G !! p = Some r → p ≠ c → in_range r x → ¬ (f ≤ x < f + k)) as Hother.
  { intros p r x Hp Hne Hin Hx. destruct (Hr x Hx) as [Hhx|(r' & Hr' & Hin')].
    - rewrite (po_hole _ _ _ _ _ Hok p r x) in Hhx; done.
    - by apply Hne, (po_unique _ _ _ _ _ Hok p c r r' x). }
  assert (∀ x, owned (<[c := (f, k)]> G) hole' x ↔ owned G hole x) as Hown.
  { intros x. rewrite owned_insert. unfold owned. rewrite Hh. split.
    - intros [Hx|[(p & r & [Hne Hp]%lookup_delete_Some & Hin)|[[Hhx|(r & Hp & Hin)] _]]]; [|by eauto 6..].
      destruct (Hr x Hx) as [?|(r & Hp & Hin)]; eauto 6.
    - destruct (decide (f ≤ x < f + k)) as [?|Hno]; [by left|]. intros [(p & r & Hp & Hin)|Hhx]; right.
      + destruct (decide (p = c)) as [->|Hne]; [right; split; [right; by exists r|done]|].
        left. exists p, r. by rewrite lookup_delete_ne.
      + right. auto. }
  split.
  - intros p f' k' [[<- [= <- <-]]|[Hne Hp]]%lookup_insert_Some; [done|].
    destruct (po_span _ _ _ _ _ Hok p f' k' Hp) as (H1 & H2 & H3 & H4). split_and!; [done|done| |].
    + rewrite Hout; [done|]. apply (Hother p (f', k')); [done|done|]. unfold in_range. simpl. lia.
    + rewrite Hout; [done|]. apply (Hother p (f', k')); [done|done|]. unfold in_range. simpl. lia.
  - intros p q r1 r2 x [[<- <-]|[Hp Hp']]%lookup_insert_Some [[<- <-]|[Hq Hq']]%lookup_insert_Some H1 H2;
      [done|by destruct (Hother q r2 x)|by destruct (Hother p r1 x)|by apply (po_unique _ _ _ _ _ Hok p q r1 r2 x)].
  - intros p r x Hp Hin. destruct (hole' x) eqn:Ehx; [|done]. apply Hh in Ehx as [Ho Hno].
    apply lookup_insert_Some in Hp as [[<- <-]|[Hne Hp]]; [done|]. destruct Ho as [Hhx|(r' & Hr' & Hin')].
    + by rewrite (po_hole _ _ _ _ _ Hok p r x) in Hhx.
    + by destruct Hne; apply (po_unique _ _ _ _ _ Hok c p r' r x).
  - intros x Hx%Hown. destruct (po_page _ _ _ _ _ Hok x Hx) as (? & ? & ? & ? & ? & ? & ?).
    split_and!; [done|done|by apply Hcov|by apply Hcov|by apply Hcov|done|done].
  - intros x Hx. rewrite Hout, (po_out _ _ _ _ _ Hok); [done|by rewrite <-Hown|].
    intros Hx'. apply Hx. apply owned_insert. by left.
Qed.

(** The span [q] is given up: its pages join the hole. *)
Lemma pages_drop hole hole' G cov desc o q f k :
  pages_ok hole G cov desc o → G !! q = Some (f, k) → (∀ x, hole' x = true ↔ hole x = true ∨ f ≤ x < f + k) →
  pages_ok hole' (delete q G) cov desc o.
Proof.
  intros Hok Hq Hh.
  assert (∀ x, owned (delete q G) hole' x ↔ owned G hole x) as Hown.
  { intros x. rewrite (owned_split G hole q (f, k)) by done. unfold owned, in_range. rewrite Hh. simpl. tauto. }
  split.
  - intros p f' k' [_ Hp]%lookup_delete_Some. by apply (po_span _ _ _ _ _ Hok).
  - intros p p' r1 r2 x [_ Hp]%lookup_delete_Some [_ Hp']%lookup_delete_Some. by apply (po_unique _ _ _ _ _ Hok).
  - intros p r x [Hne Hp]%lookup_delete_Some Hin. destruct (hole' x) eqn:Ehx; [|done].
    apply Hh in Ehx as [Hhx|Hx]; [by rewrite (po_hole _ _ _ _ _ Hok p r x) in Hhx|].
    by destruct Hne; apply (po_unique _ _ _ _ _ Hok q p (f, k) r x).
  - intros x Hx%Hown. by apply (po_page _ _ _ _ _ Hok).
  - intros x Hx. apply (po_out _ _ _ _ _ Hok). by rewrite <-Hown.
Qed.

(** The span [p] is split: one part stays [p], the other is the new [c]. *)
Lemma pages_split hole G cov cov' desc desc' o p c f k fp kp fc kc :
  pages_ok hole G cov desc o → G !! p = Some (f, k) → c ≠ 0 → G !! c = None →
  (fp = f ∧ fc = f + kp ∨ fc = f ∧ fp = f + kc) → kp + kc = k → 0 < kp → 0 < kc →
  (∀ x, cov x → cov' x) → desc' fp = p → desc' (fp + kp - 1) = p → desc' fc = c → desc' (fc + kc - 1) = c →
  (∀ x, ¬ (f ≤ x < f + k) → desc' x = desc x) →
  pages_ok hole (<[c := (fc, kc)]> (<[p := (fp, kp)]> G)) cov' desc' o.
Proof.
  intros Hok Hp Hc0 Hc Hor Hk Hkp Hkc Hcov Hp1 Hp2 Hc1 Hc2 Hout.
  destruct (po_span _ _ _ _ _ Hok p f k Hp) as (H0 & _).
  assert (∀ x, f ≤ x < f + k → hole x = false) as Hph by (intros x Hx; by apply (po_hole _ _ _ _ _ Hok p (f, k))).
  assert (∀ x, mine G p x ↔ f ≤ x < f + k) as Hmine.
  { intros x. unfold mine. rewrite Hp. split; [by intros (r & [= <-] & Hx)|]. by exists (f, k). }
  assert (∀ x, ¬ mine (<[p := (fp, kp)]> G) c x) as Hminec.
  { intros x (r & Hr & _). rewrite lookup_insert_ne in Hr by congruence. congruence. }
  set (hole' := λ x, hole x || ((fc <=? x) && (x <? fc + kc))).
  assert (∀ x, hole' x = true ↔ hole x = true ∨ fc ≤ x < fc + kc) as Hh'.
  { intros x. unfold hole'. rewrite orb_true_iff, andb_true_iff, Z.leb_le, Z.ltb_lt. done. }
  set (desc1 := λ x, if (fc <=? x) && (x <? fc + kc) then desc x else desc' x).
  assert (∀ x, ¬ (fc ≤ x < fc + kc) → desc1 x = desc' x) as Hat1.
  { intros x Hx. unfold desc1. destruct (Z.leb_spec fc x), (Z.ltb_spec x (fc + kc)); try done; lia. }
  assert (pages_ok hole' (<[p := (fp, kp)]> G) cov' desc1 o) as Hok1.
  { eapply pages_place; [done|done|done| | |done| | |].
    - intros x Hx. right. apply Hmine. lia.
    - intros x. rewrite Hh', Hmine. split; [|intros [[?|?] ?]; [by left|right; lia]]. intros [Hx|Hx]; [|lia].
      split; [by left|]. intros ?. rewrite Hph in Hx; [done|lia].
    - rewrite Hat1; [done|lia].
    - rewrite Hat1; [done|lia].
    - intros x Hx. unfold desc1. destruct (Z.leb_spec fc x), (Z.ltb_spec x (fc + kc)); simpl; try done; apply Hout; lia. }
  eapply pages_place; [done|done|done| | |done|done|done|].
  - intros x Hx. left. apply Hh'. by right.
  - intros x. rewrite Hh'. split; [|intros [[[?|?]|?%Hminec] ?]; done].
    intros Hx. split; [by left; left|]. intros ?. rewrite Hph in Hx; [done|lia].
  - intros x Hx. by rewrite Hat1.
Qed.

Lemma pages_hole hole hole' G cov desc o : pages_ok hole G cov desc o → (∀ x, hole' x = hole x) → pages_ok hole' G cov desc o.
Proof.
  intros [H1 H2 H3 H4 H5] E. split; [done|done| | |].
  - intros p r x Hp Hin. rewrite E. by apply (H3 p r).
  - intros x Hx. apply H4. unfold owned in *. by rewrite E in Hx.
  - intros x Hx. apply H5. unfold owned in *. by rewrite E in Hx.
Qed.

Section Pages.
Context hole G cov desc o (Hok : pages_ok hole G cov desc o).

Lemma kPageSize_pos : 4096 ≤ kPageSize cfg.
Proof. on_config cfg; by vm_compute. Qed.

Lemma span_owned p f k x : G !! p = Some (f, k) → f ≤ x < f + k → owned G hole x.
Proof. intros Hp Hx. left. by exists p, (f, k). Qed.

Lemma span_bounds p f k : G !! p = Some (f, k) →
  p ≠ 0 ∧ 0 < f ∧ 0 < k ∧ (f + k) * kPageSize cfg ≤ 2 ^ 46 ∧ f + k < 2 ^ 35.
Proof.
  intros Hp. destruct (po_span _ _ _ _ _ Hok p f k Hp) as (H0 & Hk & _).
  destruct (po_page _ _ _ _ _ Hok f) as (Hf & _); [eapply span_owned; [done|lia]|].
  destruct (po_page _ _ _ _ _ Hok (f + k - 1)) as (_ & He & _); [eapply span_owned; [done|lia]|].
  pose proof kPageSize_pos. split_and!; [done|done|done|nia|nia].
Qed.

Lemma span_covered p f k x : G !! p = Some (f, k) → f - 1 ≤ x ≤ f + k → cov x.
Proof.
  intros Hp Hx. destruct (span_bounds p f k Hp) as (_ & _ & Hk & _).
  destruct (Z.eq_dec x (f - 1)) as [->|].
  { destruct (po_page _ _ _ _ _ Hok f) as (_ & _ & ? & _); [eapply span_owned; [done|lia]|done]. }
  destruct (Z.eq_dec x (f + k)) as [->|].
  { destruct (po_page _ _ _ _ _ Hok (f + k - 1)) as (_ & _ & _ & _ & Hc & _); [eapply span_owned; [done|lia]|].
    by replace (f + k) with (f + k - 1 + 1) by lia. }
  destruct (po_page _ _ _ _ _ Hok x) as (_ & _ & _ & ? & _); [eapply span_owned; [done|lia]|done].
Qed.

(** The page before a span and the page after it: no span, or the end of one. *)
Lemma prev_page p f k : G !! p = Some (f, k) → hole (f - 1) = false →
  (desc (f - 1) = 0 ∧ ¬ owned G hole (f - 1)) ∨
  ∃ f' k', G !! (desc (f - 1)) = Some (f', k') ∧ f' + k' = f ∧ desc (f - 1) ≠ p.
Proof.
  intros Hp Hh. destruct (span_bounds p f k Hp) as (_ & Hf & Hk & _).
  destruct (owned_dec G hole (f - 1)) as [[(q & [f' k'] & Hq & Hin)|?]|Hno]; [|congruence|left].
  - right. unfold in_range in Hin. simpl in Hin.
    assert (q ≠ p) as Hqp by (intros ->; rewrite Hp in Hq; injection Hq as <- <-; lia).
    assert (f' + k' = f) as E.
    { destruct (Z.eq_dec (f' + k') f) as [|Hne]; [done|]. exfalso. apply Hqp.
      apply (po_unique _ _ _ _ _ Hok q p (f', k') (f, k) f); [done|done| |]; unfold in_range; simpl; lia. }
    destruct (po_span _ _ _ _ _ Hok q f' k' Hq) as (_ & _ & _ & El).
    assert (f - 1 = f' + k' - 1) as -> by lia. rewrite El. eauto.
  - split; [|done]. by apply (po_out _ _ _ _ _ Hok).
Qed.

Lemma next_page p f k : G !! p = Some (f, k) → hole (f + k) = false →
  (desc (f + k) = 0 ∧ ¬ owned G hole (f + k)) ∨
  ∃ k', G !! (desc (f + k)) = Some (f + k, k') ∧ desc (f + k) ≠ p.
Proof.
  intros Hp Hh. destruct (span_bounds p f k Hp) as (_ & Hf & Hk & _).
  destruct (owned_dec G hole (f + k)) as [[(q & [f' k'] & Hq & Hin)|?]|Hno]; [|congruence|left].
  - right. unfold in_range in Hin. simpl in Hin.
    assert (q ≠ p) as Hqp by (intros ->; rewrite Hp in Hq; injection Hq as <- <-; lia).
    assert (f' = f + k) as ->.
    { destruct (Z.eq_dec f' (f + k)) as [|Hne]; [done|]. exfalso. apply Hqp.
      apply (po_unique _ _ _ _ _ Hok q p (f', k') (f, k) (f + k - 1)); [done|done| |]; unfold in_range; simpl; lia. }
    destruct (po_span _ _ _ _ _ Hok q (f + k) k' Hq) as (_ & _ & Ef & _). rewrite Ef. eauto.
  - split; [|done]. by apply (po_out _ _ _ _ _ Hok).
Qed.
End Pages.

(** ** Spans *)

(** [x] is a span on its way to or from the free lists; the objects and the
    nodes that have links are [S] and [D]. *)
Record spans_ok (x : option Z) G F (S : gmap Z Span) (D : gset node) : Prop := {
  sk_dom : dom S = dom G;
  sk_item p : p ∈ dom G → Item p ∈ D;
  sk_range p sp : S !! p = Some sp → G !! p = Some (first_page sp, num_pages sp);
  sk_free p sp : F !! p = Some sp → S !! p = Some sp ∧ location sp ≠ IN_USE ∧ is_Some (freelist_added_time sp);
  sk_used p sp : S !! p = Some sp → F !! p = None → x ≠ Some p → location sp = IN_USE;
  sk_pending p : x = Some p → F !! p = None;
  sk_sampled p sp : S !! p = Some sp → sampled sp = false;
}.

Section Spans.
Context (x : option Z) G F (S : gmap Z Span) (D : gset node) (Hok : spans_ok x G F S D).

Lemma span_of p f k : G !! p = Some (f, k) → ∃ sp, S !! p = Some sp ∧ first_page sp = f ∧ num_pages sp = k.
Proof.
  intros Hp. assert (p ∈ dom S) as [sp Hsp]%elem_of_dom.
  { rewrite (sk_dom _ _ _ _ _ Hok). by apply elem_of_dom_2 in Hp. }
  pose proof (sk_range _ _ _ _ _ Hok p sp Hsp) as E. rewrite Hp in E. injection E as -> ->. eauto.
Qed.

Lemma free_span p sp : F !! p = Some sp → S !! p = Some sp ∧ G !! p = Some (first_page sp, num_pages sp).
Proof. intros Hp. destruct (sk_free _ _ _ _ _ Hok p sp Hp) as (H & _). split; [done|by apply Hok]. Qed.

Lemma spans_drop q : x ≠ Some q → spans_ok x (delete q G) (delete q F) (delete q S) D.
Proof.
  intros Hx. destruct Hok as [H1 H2 H3 H4 H5 H6 H7]. split.
  - rewrite !dom_delete_L. congruence.
  - set_solver.
  - intros p sp [Hne Hp]%lookup_delete_Some. rewrite lookup_delete_ne by done. auto.
  - intros p sp [Hne Hp]%lookup_delete_Some. rewrite lookup_delete_ne by done. auto.
  - intros p sp [Hne Hp]%lookup_delete_Some Hf. rewrite lookup_delete_ne in Hf by done. eauto.
  - intros p Ep. apply lookup_delete_None. right. auto.
  - intros p sp [_ Hp]%lookup_delete_Some. eauto.
Qed.

(** A new object, or a change to one that is not on the lists. *)
Lemma spans_put D' p sp :
  F !! p = None → D ⊆ D' → Item p ∈ D' → sampled sp = false → (x = Some p ∨ location sp = IN_USE) →
  spans_ok x (<[p := (first_page sp, num_pages sp)]> G) F (<[p := sp]> S) D'.
Proof.
  intros Hf Hd Hi Hs Hl. destruct Hok as [H1 H2 H3 H4 H5 H6 H7]. split; [| | | | |done|].
  - rewrite !dom_insert_L. congruence.
  - set_solver.
  - intros q sq [[<- <-]|[Hne Hq]]%lookup_insert_Some; [by rewrite lookup_insert_eq|].
    rewrite lookup_insert_ne by done. auto.
  - intros q sq Hq. rewrite lookup_insert_ne by congruence. auto.
  - intros q sq [[<- <-]|[Hne Hq]]%lookup_insert_Some; [|by eauto]. by destruct Hl.
  - intros q sq [[<- <-]|[Hne Hq]]%lookup_insert_Some; [done|]. eauto.
Qed.

Lemma spans_unlist p : x = None → is_Some (F !! p) → spans_ok (Some p) G (delete p F) S D.
Proof.
  intros Ex Hp. destruct Hok as [H1 H2 H3 H4 H5 H6 H7]. split; [done|done|done| | | |done].
  - intros q sq [_ Hq]%lookup_delete_Some. auto.
  - intros q sq Hq Hn Hne. apply (H5 q sq Hq); [|congruence]. rewrite lookup_delete_ne in Hn by congruence. done.
  - intros q [= <-]. apply lookup_delete_eq.
Qed.

Lemma spans_list p sp : x = Some p → S !! p = Some sp → location sp ≠ IN_USE → is_Some (freelist_added_time sp) →
  spans_ok None G (<[p := sp]> F) S D.
Proof.
  intros Ex Hp Hl Ht. destruct Hok as [H1 H2 H3 H4 H5 H6 H7]. split; [done|done|done| | |done|done].
  - intros q sq [[<- <-]|[Hne Hq]]%lookup_insert_Some; auto.
  - intros q sq Hq [Hn Hne]%lookup_insert_None _. apply (H5 q sq Hq); congruence.
Qed.

Lemma spans_pend p : x = None → F !! p = None → spans_ok (Some p) G F S D.
Proof.
  intros Ex Hp. destruct Hok as [H1 H2 H3 H4 H5 H6 H7]. split; try done.
  - intros q sq Hq Hn _. apply (H5 q sq Hq Hn). by rewrite Ex.
  - by intros q [= <-].
Qed.

Lemma spans_use p sp : x = Some p → S !! p = Some sp → location sp = IN_USE → spans_ok None G F S D.
Proof.
  intros Ex Hp Hl. destruct Hok as [H1 H2 H3 H4 H5 H6 H7]. split; try done.
  intros q sq Hq Hn _. destruct (decide (p = q)) as [<-|Hne]; [by replace sq with sp by congruence|].
  apply (H5 q sq Hq Hn). congruence.
Qed.
End Spans.

Definition coalesced F : Prop := ∀ p q sp sq,
  F !! p = Some sp → F !! q = Some sq → location sp = location sq → first_page sp + num_pages sp ≠ first_page sq.

(** [n] more spans can be had; [rel] bytes are of spans being released. *)
Record heap_ok (x : option Z) hole (rel : Z) G F (n : nat) h : Prop := {
  hk_pool : pool_inv (span_allocator h) (dom G) n;
  hk_lists : lists_ok cfg F (lists h);
  hk_backing : backing_ok cfg F rel (backing h);
  hk_pages : pages_ok hole G (covered (pagemap_ h)) (span_at (pagemap_ h)) (meta_system (span_allocator h));
  hk_spans : spans_ok x G F (spans h) (dom (lists h));
  hk_coalesced : coalesced F;
  hk_index : 0 ≤ release_index_ h ≤ kMaxPages cfg + 1;
}.

(** The spans in use. *)
Definition live G F (p : Z) : option range := if F !! p then None else G !! p.

(** The free spans of other kinds than [loc] are the same. *)
Definition kept (loc : Location) F F' : Prop :=
  ∀ q sq, location sq ≠ loc → F !! q = Some sq ↔ F' !! q = Some sq.

Lemma kept_refl loc F : kept loc F F.
Proof. by intros q sq. Qed.

Lemma kept_trans loc F F' F'' : kept loc F F' → kept loc F' F'' → kept loc F F''.
Proof. intros H1 H2 q sq Hl. rewrite (H1 q sq Hl). by apply H2. Qed.

Lemma kept_delete F q sq : F !! q = Some sq → kept (location sq) F (delete q F).
Proof.
  intros Hq p sp Hl. rewrite lookup_delete_Some. split; [|tauto]. intros Hp. split; [congruence|done].
Qed.

Lemma kept_insert F q sq : F !! q = None → kept (location sq) F (<[q := sq]> F).
Proof.
  intros Hq p sp Hl. rewrite lookup_insert_Some. split; [|intros [[<- <-]|[_ ?]]; done].
  intros Hp. right. split; [congruence|done].
Qed.

Lemma heap_weaken x hole rel G F n n' h :
  (n' ≤ n)%nat → heap_ok x hole rel G F n h → heap_ok x hole rel G F n' h.
Proof. intros Hle [Hp ? ? ? ? ? ?]. split; [by eapply pool_weaken|done..]. Qed.

(** ** Single steps *)

Section Steps.
Context (stale : Span) {md : mode}.

Lemma on_part_spec {S B} (get : PageHeap → S) put (act : ST S B) (R : B → S → Prop) (Q : B → PageHeap → Prop) h :
  wp true act R (get h) → (∀ b s, R b s → Q b (put s h)) → wp md (on_part get put act) Q h.
Proof. intros H HQ. apply (wp_total md) in H. revert H. unfold wp, on_part. destruct (act (get h)) as [[b s]| | |]; auto. Qed.

Lemma get_span_spec p sp (Q : Span → PageHeap → Prop) h :
  spans h !! p = Some sp → Q sp h → wp md (get_span p) Q h.
Proof. intros Hp HQ. unfold get_span. do 2 wp_step. by wp_step. Qed.

Lemma update_span_spec p sp f (Q : unit → PageHeap → Prop) h :
  spans h !! p = Some sp → Q tt (with_spans (<[p := f sp]> (spans h)) h) → wp md (update_span p f) Q h.
Proof. intros Hp HQ. unfold update_span. wp_step. eapply get_span_spec; [done|]. by wp_step. Qed.

Lemma GetDescriptor_spec k (Q : Z → PageHeap → Prop) h :
  0 ≤ k < 2 ^ 64 → Q (span_at (pagemap_ h) k) h → wp md (on_map (GetDescriptor k)) Q h.
Proof.
  intros Hk HQ. unfold wp, on_map, on_part, GetDescriptor. rewrite get_law by done. by destruct h.
Qed.

Lemma Set_spec k v (Q : unit → PageHeap → Prop) h :
  covered (pagemap_ h) k →
  (∀ m', (∀ x, covered (pagemap_ h) x → covered m' x) →
    (∀ x, span_at m' x = set_at (span_at (pagemap_ h)) k v x) → Q tt (with_map m' h)) →
  wp md (on_map (PageMap_Set k v)) Q h.
Proof.
  intros Hc HQ. unfold on_map. eapply on_part_spec; [by apply set_law|]. intros [] m' (H1 & H2 & _).
  apply HQ; [|done]. intros x. apply H1.
Qed.

Lemma Prepend_spec F rel p sp (Q : unit → PageHeap → Prop) h :
  lists_ok cfg F (lists h) → backing_ok cfg F rel (backing h) → F !! p = None → spans h !! p = Some sp →
  location sp ≠ IN_USE → 0 < num_pages sp → Item p ∈ dom (lists h) →
  (∀ l' b', lists_ok cfg (<[p := sp]> F) l' → dom l' = dom (lists h) → backing_ok cfg (<[p := sp]> F) rel b' →
    Q tt (with_lists l' (with_backing b' h))) →
  wp md (PrependToFreeList cfg p) Q h.
Proof.
  intros Hl Hb Hp Hsp Hloc Hn Hd HQ. unfold PrependToFreeList. wp_step. eapply get_span_spec; [done|].
  wp_step. wp_step; [by rewrite bool_decide_eq_false_2|].
  destruct (location_kind _ Hloc) as [r Er]. rewrite Er.
  pose proof (backing_add cfg F rel (backing h) p sp r Hb Hp Er ltac:(lia)) as Hb'.
  destruct r; simpl; do 2 wp_step; (eapply on_part_spec; [eapply prepend_spec; [exact Hl|done|exact Er|done|done]|]);
    intros [] l' [Hl' Hd']; by apply HQ.
Qed.

Lemma Remove_spec F rel p sp (Q : unit → PageHeap → Prop) h :
  lists_ok cfg F (lists h) → backing_ok cfg F rel (backing h) → F !! p = Some sp → spans h !! p = Some sp →
  location sp ≠ IN_USE →
  (∀ l' b', lists_ok cfg (delete p F) l' → dom l' = dom (lists h) → backing_ok cfg (delete p F) rel b' →
    Q tt (with_lists l' (with_backing b' h))) →
  wp md (RemoveFromFreeList cfg p) Q h.
Proof.
  intros Hl Hb Hp Hsp Hloc HQ. pose proof (lo_pages _ _ _ Hl p sp Hp) as Hn.
  unfold RemoveFromFreeList. wp_step. eapply get_span_spec; [done|].
  wp_step. wp_step; [by rewrite bool_decide_eq_false_2|].
  destruct (location_kind _ Hloc) as [r Er]. rewrite Er.
  pose proof (backing_remove cfg F rel (backing h) p sp r Hb Hp Er ltac:(lia)) as Hb'.
  destruct r; simpl; do 3 wp_step; (eapply on_part_spec; [eapply remove_spec; [exact Hl|done|exact Er]|]);
    intros b l' [Hl' Hd']; wp_step; by apply HQ.
Qed.

Lemma wp_both {S B} m (act : ST S B) (Q R : B → S → Prop) s :
  wp m act Q s → wp m act R s → wp m act (λ b s', Q b s' ∧ R b s') s.
Proof. unfold wp. by destruct (act s) as [[]| | |]. Qed.

Lemma Span_New_spec L n first len (Q : Z → PageHeap → Prop) h :
  pool_inv (span_allocator h) L n → can_make md 1 n →
  (∀ p a', p ≠ 0 → p ∉ L → pool_inv a' ({[p]} ∪ L) (n - 1) → later (meta_system (span_allocator h)) (meta_system a') →
    Q p (with_lists (<[Item p := mk_elem None None]> (lists h))
      (with_spans (<[p := Span_Init first len stale]> (spans h)) (with_pool a' h)))) →
  wp md (Span_New stale first len) Q h.
Proof.
  intros Hp Hcan HQ. unfold Span_New.
  pose proof (wp_both _ _ _ _ _ (pool_new_law md _ L n Hp Hcan) (meta_new_law md _ L n Hp Hcan)) as H.
  revert H. unfold wp, mbind, ST_bind, on_pool, on_part.
  destruct (pool_new (span_allocator h)) as [[p a']| | |]; try done.
  intros [(H1 & H2 & H3) H4]. by apply HQ.
Qed.

Lemma Span_Delete_spec L n p (Q : unit → PageHeap → Prop) h :
  pool_inv (span_allocator h) L n → p ∈ L →
  (∀ a', pool_inv a' (L ∖ {[p]}) (S n) → meta_system a' = meta_system (span_allocator h) →
    Q tt (with_pool a' (with_spans (delete p (spans h)) h))) →
  wp md (Span_Delete p) Q h.
Proof.
  intros Hp HpL HQ. unfold Span_Delete. do 2 wp_step. eapply on_part_spec.
  { apply wp_both; [by apply pool_delete_law|by eapply meta_delete_law]. }
  intros [] a' [H1 H2]. by apply HQ.
Qed.

Lemma Check_spec F (Q : bool → PageHeap → Prop) h :
  lists_ok cfg F (lists h) → Q true h → wp md Check Q h.
Proof.
  intros Hl HQ. pose proof (kMaxPages_bounds cfg) as Hm.
  assert (∀ r p sp, F !! p = Some sp → ¬ belongs cfg r 0 sp) as Hno.
  { intros r p sp Hp [_ Hi]. pose proof (list_index_bounds cfg _ (lo_pages _ _ _ Hl p sp Hp)). lia. }
  assert (∀ r, wp true (tl_empty (Head r 0)) (λ b l, b = true ∧ l = lists h) (lists h)) as He.
  { intros r. apply (ring_empty_spec cfg F _ r 0); [done|lia|]. intros [] Hb; [done|].
    destruct Hb as (p & sp & Hp & Hbel). by apply (Hno r p sp) in Hbel. }
  assert (with_lists (lists h) h = h) as Eh by (by destruct h).
  unfold Check. wp_step. eapply on_part_spec; [apply He|]. intros b l [-> ->]. rewrite Eh.
  wp_step. wp_step; [done|]. wp_step. eapply on_part_spec; [apply He|]. intros b l [-> ->]. rewrite Eh.
  wp_step. wp_step; [done|]. by wp_step.
Qed.
End Steps.
End Inv.
