(* ===== verification/TcPageHeapMerge.v ===== *)
(** * tcmalloc: merging a span with its neighbours

    [MergeIntoFreeList] puts a span on the free lists together with the free
    spans of the same kind before and after it. *)

From S2P Require Import Prelude.
From S2P Require Import TcCommon.
From S2P Require Import TcSpan.
From S2P Require Import TcPageMap.
From S2P Require Import TcPageMapCorrect.
From S2P Require Import TcLinkedList.
From S2P Require Import TcSystemAlloc.
From S2P Require Import TcSystemAllocCorrect.
From S2P Require Import TcArena.
From S2P Require Import TcArenaCorrect.
From S2P Require Import TcPageHeap.
From S2P Require Import TcPageHeapLists.
From S2P Require Import TcPageHeapInv.

Lemma u64_id x : 0 ≤ x < 2 ^ 64 → u64 x = x.
Proof. intros. by apply wrap_small. Qed.

Lemma last_page_eq sp : 0 ≤ first_page sp → 0 < num_pages sp → first_page sp + num_pages sp < 2 ^ 64 →
  last_page sp = first_page sp + num_pages sp - 1.
Proof. unfold last_page, first_page, num_pages. intros. by rewrite (u64_id (_ + _)), u64_id by lia. Qed.

Section Merge.
Context (cfg : config) {M A OS : Type}.
Context `{!PageMapImpl M, !SystemMemory OS, !ObjectPool A, !MetaMemory A OS}.
Context {bits hb : Z} {reliable : Prop}.
Context {HML : PageMapLaws M bits hb reliable} {HSL : SystemMemoryLaws OS}.
Context {HPL : ObjectPoolLaws A} {HMM : MetaMemoryLaws A OS}.
Context (tagged_ : bool) (now : nat → Z).

Local Abbreviation PageHeap := (PageHeap (M := M) (A := A)).
Local Abbreviation heap_ok := (heap_ok cfg tagged_).
Implicit Types (G : gmap Z range) (F : gmap Z Span) (h : PageHeap) (hole : Z → bool).

Lemma absorb_spec L n F rel p q sp sq (Q : Z → PageHeap → Prop) h :
  pool_inv (span_allocator h) L n → q ∈ L → lists_ok cfg F (lists h) → backing_ok cfg F rel (backing h) →
  spans h !! p = Some sp → F !! q = Some sq → spans h !! q = Some sq → p ≠ q → location sq ≠ IN_USE →
  is_Some (freelist_added_time sp) → is_Some (freelist_added_time sq) →
  (∀ a' l' b' t, pool_inv a' (L ∖ {[q]}) (S n) → meta_system a' = meta_system (span_allocator h) →
    lists_ok cfg (delete q F) l' → dom l' = dom (lists h) → backing_ok cfg (delete q F) rel b' →
    Q (num_pages sq) (mk_heap l' (<[p := set_freelist_added_time t sp]> (delete q (spans h)))
      (pagemap_ h) a' b' (release_index_ h) (ticks h))) →
  wp true (absorb cfg p q) Q h.
Proof.
  intros Hpool HqL Hl Hb Hp HqF Hq Hne Hloc [t Ht] [t' Ht'] HQ. unfold absorb. wp_step.
  eapply get_span_spec; [done|]. wp_step. eapply get_span_spec; [done|]. cbv zeta.
  do 2 (wp_step; wp_step; [done|]). wp_step. eapply update_span_spec; [done|].
  wp_step. eapply Remove_spec; [done|done|exact HqF| |done|]. { simpl. by rewrite lookup_insert_ne. }
  intros l' b' Hl' Hd' Hb'. wp_step. eapply Span_Delete_spec; [done|done|].
  intros a' Ha' Hm'. wp_step. simpl. rewrite delete_insert_ne by done. by apply HQ.
Qed.

Lemma mergeable_spec p q sp (Q : bool → PageHeap → Prop) h :
  spans h !! p = Some sp →
  (q = 0 ∧ Q false h ∨ ∃ sq, q ≠ 0 ∧ spans h !! q = Some sq ∧ Q (bool_decide (location sq = location sp)) h) →
  wp true (mergeable p q) Q h.
Proof.
  intros Hp. unfold mergeable. intros [[-> HQ]|(sq & H0 & Hq & HQ)]; [by wp_step|].
  rewrite (proj2 (Z.eqb_neq q 0)) by done. wp_step. eapply get_span_spec; [done|]. wp_step.
  eapply get_span_spec; [done|]. by wp_step.
Qed.

(** The span [p] is being put on the lists. *)
Definition pending (p : Z) (loc : Location) (f k : Z) G h : Prop :=
  G !! p = Some (f, k) ∧
  ∃ sp, spans h !! p = Some sp ∧ location sp = loc ∧ is_Some (freelist_added_time sp).

(** The pages of a neighbour [q] become those of [p]. *)
Lemma pages_merge hole G m m' o p q f k f' k' nf :
  pages_ok cfg tagged_ hole G (covered m) (span_at m) o → G !! p = Some (f, k) → G !! q = Some (f', k') → p ≠ q →
  (f' + k' = f ∧ nf = f' ∨ f + k = f' ∧ nf = f) →
  (∀ x, covered m x → covered m' x) →
  (∀ x, span_at m' x = set_at (span_at m) (if nf =? f then f + k + k' - 1 else nf) p x) →
  pages_ok cfg tagged_ hole (<[p := (nf, k + k')]> (delete q G)) (covered m') (span_at m') o.
Proof.
  intros Hok Hp Hq Hne Hnf Hcov Hm. destruct (po_span _ _ _ _ _ _ _ Hok p f k Hp) as (H0 & Hk & Hf & Hl).
  destruct (po_span _ _ _ _ _ _ _ Hok q f' k' Hq) as (_ & Hk' & _).
  set (hole' := λ x, hole x || ((f' <=? x) && (x <? f' + k'))).
  assert (∀ x, hole' x = true ↔ hole x = true ∨ f' ≤ x < f' + k') as Hh'.
  { intros x. unfold hole'. rewrite orb_true_iff, andb_true_iff, Z.leb_le, Z.ltb_lt. done. }
  assert (∀ x, f ≤ x < f + k → hole x = false) as Hph by (intros x Hx; by apply (po_hole _ _ _ _ _ _ _ Hok p (f, k))).
  assert (∀ x, f' ≤ x < f' + k' → hole x = false) as Hqh by (intros x Hx; by apply (po_hole _ _ _ _ _ _ _ Hok q (f', k'))).
  assert (∀ x, mine (delete q G) p x ↔ f ≤ x < f + k) as Hmine.
  { intros x. unfold mine. rewrite lookup_delete_ne, Hp by done. split; [by intros (r & [= <-] & Hx)|]. by exists (f, k). }
  eapply (pages_place _ _ hole' hole); [by eapply pages_drop|done|lia| | |done| | |].
  - intros x Hx. rewrite Hh', Hmine. lia.
  - intros x. rewrite Hh', Hmine. split.
    + intros Hx. split; [by left; left|]. intros Hin.
      assert (f ≤ x < f + k ∨ f' ≤ x < f' + k') as [H|H] by lia; [rewrite Hph in Hx|rewrite Hqh in Hx]; done.
    + intros [[[?|?]|?] ?]; [done|lia|lia].
  - rewrite Hm. unfold set_at. destruct (Z.eqb_spec nf f) as [->|]; [by destruct (_ =? _)|by rewrite Z.eqb_refl].
  - rewrite Hm. unfold set_at. destruct (Z.eqb_spec nf f) as [->|].
    + by replace (f + (k + k') - 1) with (f + k + k' - 1) by lia; rewrite Z.eqb_refl.
    + replace (nf + (k + k') - 1) with (f + k - 1) by lia. by destruct (_ =? _).
  - intros x Hx. rewrite Hm. unfold set_at. destruct (Z.eqb_spec nf f) as [->|].
    + by rewrite (proj2 (Z.eqb_neq _ _)) by lia.
    + by rewrite (proj2 (Z.eqb_neq _ _)) by lia.
Qed.

Lemma used_merge G F p q f k (sq : Span) :
  F !! q = Some sq → ∀ x, x ≠ p → live (<[p := (f, k)]> (delete q G)) (delete q F) x = live G F x.
Proof.
  intros Hq x Hx. unfold live. destruct (decide (x = q)) as [->|Hne].
  - by rewrite lookup_delete_eq, lookup_insert_ne, lookup_delete_eq, Hq.
  - by rewrite lookup_insert_ne, !lookup_delete_ne.
Qed.

Lemma coalesced_delete F q : coalesced F → coalesced (delete q F).
Proof. intros H a b sa sb [_ Ha]%lookup_delete_Some [_ Hb]%lookup_delete_Some. eauto. Qed.

(** The state after [p], now the pages from [nf] on, absorbed [q]. *)
Lemma merged_ok hole rel G F n h p q sq sp' h' f k nf :
  heap_ok (Some p) hole rel G F n h → G !! p = Some (f, k) → F !! q = Some sq → p ≠ q →
  (first_page sq + num_pages sq = f ∧ nf = first_page sq ∨ f + k = first_page sq ∧ nf = f) →
  pool_inv (span_allocator h') (dom G ∖ {[q]}) (S n) →
  meta_system (span_allocator h') = meta_system (span_allocator h) →
  lists_ok cfg (delete q F) (lists h') → dom (lists h') = dom (lists h) → backing_ok cfg (delete q F) rel (backing h') →
  spans h' = <[p := sp']> (delete q (spans h)) → first_page sp' = nf → num_pages sp' = k + num_pages sq →
  sampled sp' = false → release_index_ h' = release_index_ h →
  (∀ x, covered (pagemap_ h) x → covered (pagemap_ h') x) →
  (∀ x, span_at (pagemap_ h') x =
    set_at (span_at (pagemap_ h)) (if nf =? f then f + k + num_pages sq - 1 else nf) p x) →
  heap_ok (Some p) hole rel (<[p := (nf, k + num_pages sq)]> (delete q G)) (delete q F) (S n) h'.
Proof.
  intros Hok Hp Hq Hne Hnf Hpool Hm Hl Hd Hb Hs Ef Ek Hsam Hi Hcov Hspan.
  destruct (free_span _ _ _ _ _ (hk_spans _ _ _ _ _ _ _ _ _ Hok) q sq Hq) as [HqS HqG]. split.
  - replace (dom _) with (dom G ∖ {[q]}); [done|]. rewrite dom_insert_L, dom_delete_L.
    apply elem_of_dom_2 in Hp. set_solver.
  - done.
  - done.
  - rewrite Hm. eapply pages_merge; [apply Hok|done|done|done|done|done|done].
  - rewrite Hs, Hd, <-Ef, <-Ek. eapply spans_put; [apply spans_drop; [apply Hok|congruence]| |done| |done|by left].
    + rewrite lookup_delete_ne by done. by apply (sk_pending _ _ _ _ _ (hk_spans _ _ _ _ _ _ _ _ _ Hok)).
    + apply (sk_item _ _ _ _ _ (hk_spans _ _ _ _ _ _ _ _ _ Hok)). by apply elem_of_dom_2 in Hp.
  - apply coalesced_delete, Hok.
  - rewrite Hi. apply Hok.
Qed.

Definition merge_post p loc hole rel G F (n : nat) (ends : Z → Z → Prop) (edge : Z → Z → Span → Prop) h' : Prop :=
  ∃ G' F' n' f' k', (n ≤ n')%nat ∧ heap_ok (Some p) hole rel G' F' n' h' ∧ pending p loc f' k' G' h' ∧
    ends f' k' ∧ (∀ q, q ≠ p → live G' F' q = live G F q) ∧ kept loc F F' ∧ F' ⊆ F ∧
    ∀ q sq, F' !! q = Some sq → location sq = loc → edge f' k' sq.

(** Nothing is merged. *)
Lemma merge_nothing p loc hole rel G F n f k (ends : Z → Z → Prop) edge h :
  heap_ok (Some p) hole rel G F n h → pending p loc f k G h → ends f k →
  (∀ q sq, F !! q = Some sq → location sq = loc → edge f k sq) → merge_post p loc hole rel G F n ends edge h.
Proof. intros. exists G, F, n, f, k. split_and!; [done|done|done|done|done|apply kept_refl|done|done]. Qed.

(** The neighbour [q] was merged. *)
Lemma merge_done p loc hole rel G F n q sq f k (ends : Z → Z → Prop) (edge : Z → Z → Span → Prop) sp' h' :
  heap_ok (Some p) hole rel (<[p := (f, k)]> (delete q G)) (delete q F) (S n) h' →
  F !! q = Some sq → location sq = loc → spans h' !! p = Some sp' → location sp' = loc →
  is_Some (freelist_added_time sp') → ends f k →
  (∀ x sx, F !! x = Some sx → location sx = loc → edge f k sx) → merge_post p loc hole rel G F n ends edge h'.
Proof.
  intros Hok Hq Hl Hp Hl' Ht He Hed. exists (<[p := (f, k)]> (delete q G)), (delete q F), (S n), f, k.
  split_and!; [lia|done| |done|by eapply used_merge| |apply delete_subseteq|].
  - split; [by rewrite lookup_insert_eq|]. eauto.
  - rewrite <-Hl. by apply kept_delete.
  - intros x sx [_ Hx]%lookup_delete_Some. eauto.
Qed.

Section One.
Context (p : Z) (loc : Location) (f k : Z) hole (rel : Z) G F (n : nat) h.
Context (Hloc : loc ≠ IN_USE) (Hok : heap_ok (Some p) hole rel G F n h) (Hpend : pending p loc f k G h).

Lemma pending_bounds : p ≠ 0 ∧ 0 < f ∧ 0 < k ∧ (f + k) * kPageSize cfg ≤ 2 ^ 46 ∧ f + k < 2 ^ 35.
Proof. destruct Hpend as [Hp _]. eapply span_bounds; [apply Hok|done]. Qed.

(** A neighbour of the same kind is a free span. *)
Lemma neighbour_free q sq :
  spans h !! q = Some sq → q ≠ p → location sq = loc → F !! q = Some sq ∧ is_Some (freelist_added_time sq).
Proof.
  intros Hq Hne Hl. pose proof (hk_spans _ _ _ _ _ _ _ _ _ Hok) as Hs. destruct (F !! q) as [sq'|] eqn:E.
  - destruct (sk_free _ _ _ _ _ Hs q sq' E) as (Hq' & _ & Ht). replace sq' with sq in * by congruence. done.
  - destruct Hloc. rewrite <-Hl. apply (sk_used _ _ _ _ _ Hs q sq Hq E). congruence.
Qed.

Lemma merge_prev_spec :
  hole (f - 1) = false →
  wp true (merge_prev cfg p f) (λ _, merge_post p loc hole rel G F n (λ f' k', f' ≤ f ∧ f' + k' = f + k)
    (λ f' _ sq, first_page sq + num_pages sq ≠ f')) h.
Proof.
  intros Hh. destruct pending_bounds as (_ & Hf & Hk & _ & Hb).
  destruct Hpend as (HpG & sp & Hsp & Hl & Ht).
  pose proof (hk_spans _ _ _ _ _ _ _ _ _ Hok) as Hs. pose proof (hk_pages _ _ _ _ _ _ _ _ _ Hok) as Hpg.
  destruct (span_of _ _ _ _ _ Hs p f k HpG) as (sp0 & Hsp0 & Efp & Ekp). assert (sp0 = sp) as -> by congruence.
  unfold merge_prev. wp_step. rewrite u64_id by lia. apply GetDescriptor_spec; [lia|].
  wp_step. destruct (prev_page _ _ _ _ _ _ _ Hpg p f k HpG Hh) as [[E Hno]|(f' & k' & HqG & Hend & Hqp)].
  { eapply mergeable_spec; [done|left; split; [done|]]. wp_step. eapply merge_nothing; [done|done|lia|].
    intros q sq Hq Hlq He. apply Hno. destruct (free_span _ _ _ _ _ Hs q sq Hq) as [_ HqG].
    pose proof (lo_pages _ _ _ (hk_lists _ _ _ _ _ _ _ _ _ Hok) q sq Hq). eapply span_owned; [done|lia]. }
  set (q := span_at (pagemap_ h) (f - 1)) in *. destruct (span_of _ _ _ _ _ Hs q f' k' HqG) as (sq & Hsq & <- & <-).
  destruct (span_bounds _ _ _ _ _ _ _ Hpg q _ _ HqG) as (Hq0 & Hfq & Hkq & _ & Hbq).
  eapply mergeable_spec; [done|right]. exists sq. split_and!; [done|done|]. case_bool_decide as El.
  - destruct (neighbour_free q sq Hsq Hqp ltac:(congruence)) as [HqF Htq].
    wp_step. eapply get_span_spec; [done|]. wp_step. wp_step.
    { rewrite last_page_eq, u64_id by lia. apply Z.eqb_eq. lia. }
    wp_step. eapply absorb_spec; [apply Hok|by apply elem_of_dom_2 in HqG|apply Hok|apply Hok|done|done|done|done|
      congruence|done|done|].
    intros a' l' b' t Ha' Hm' Hl' Hd' Hb'. wp_step. eapply update_span_spec; [simpl; by rewrite lookup_insert_eq|].
    wp_step. eapply update_span_spec; [simpl; by rewrite lookup_insert_eq|].
    wp_step. eapply get_span_spec; [simpl; by rewrite lookup_insert_eq|].
    simpl. rewrite !insert_insert_eq. rewrite (u64_id (first_page _ - _)), (u64_id (num_pages _ + _)) by (unfold first_page, num_pages in *; simpl; lia).
    eapply Set_spec.
    { simpl. eapply span_covered; [done|exact HqG|]. unfold first_page, num_pages in *. simpl. lia. }
    intros m' Hcov Hspan. eapply merge_done.
    + eapply (merged_ok hole rel G F n h p q sq _ _ f k (first_page sq));
        [done|done|done|done|by left|exact Ha'|exact Hm'|exact Hl'|exact Hd'|exact Hb'|reflexivity|
         unfold first_page, num_pages in *; simpl; lia|unfold first_page, num_pages in *; simpl; lia|
         apply (sk_sampled _ _ _ _ _ Hs p sp Hsp)|done|exact Hcov|].
      intros x. rewrite Hspan. rewrite (proj2 (Z.eqb_neq (first_page sq) f)) by lia.
      unfold first_page, num_pages in *. simpl. f_equal. lia.
    + done.
    + congruence.
    + simpl. by rewrite lookup_insert_eq.
    + done.
    + by eexists.
    + lia.
    + intros x sx Hx Hlx. apply (hk_coalesced _ _ _ _ _ _ _ _ _ Hok x q); [done|done|congruence].
  - wp_step. eapply merge_nothing; [done|done|lia|]. intros x sx Hx Hlx He.
    destruct (free_span _ _ _ _ _ Hs x sx Hx) as [HxS HxG].
    destruct (po_span _ _ _ _ _ _ _ Hpg x _ _ HxG) as (_ & _ & _ & Ex).
    assert (x = q) as -> by (rewrite <-Ex; unfold q; f_equal; lia). congruence.
Qed.

Lemma merge_next_spec e :
  e = f + k → hole e = false →
  (∀ q sq, F !! q = Some sq → location sq = loc → first_page sq + num_pages sq ≠ f) →
  ∀ first len, first + len = e →
  wp true (merge_next cfg p first len) (λ _, merge_post p loc hole rel G F n (λ f' k', f' = f ∧ k ≤ k')
    (λ f' k' sq, first_page sq + num_pages sq ≠ f' ∧ first_page sq ≠ f' + k')) h.
Proof.
  intros -> Hh Hleft first len Efl. destruct pending_bounds as (_ & Hf & Hk & _ & Hb).
  destruct Hpend as (HpG & sp & Hsp & Hl & Ht).
  pose proof (hk_spans _ _ _ _ _ _ _ _ _ Hok) as Hs. pose proof (hk_pages _ _ _ _ _ _ _ _ _ Hok) as Hpg.
  destruct (span_of _ _ _ _ _ Hs p f k HpG) as (sp0 & Hsp0 & Efp & Ekp). assert (sp0 = sp) as -> by congruence.
  unfold merge_next. rewrite Efl. wp_step. rewrite !u64_id by lia. apply GetDescriptor_spec; [lia|].
  wp_step. destruct (next_page _ _ _ _ _ _ _ Hpg p f k HpG Hh) as [[E Hno]|(k' & HqG & Hqp)].
  { eapply mergeable_spec; [done|left; split; [done|]]. wp_step. eapply merge_nothing; [done|done|lia|].
    intros q sq Hq Hlq. split; [eauto|]. intros He. apply Hno. destruct (free_span _ _ _ _ _ Hs q sq Hq) as [_ HqG].
    pose proof (lo_pages _ _ _ (hk_lists _ _ _ _ _ _ _ _ _ Hok) q sq Hq). eapply span_owned; [done|lia]. }
  set (q := span_at (pagemap_ h) (f + k)) in *. destruct (span_of _ _ _ _ _ Hs q _ k' HqG) as (sq & Hsq & Efq & <-).
  destruct (span_bounds _ _ _ _ _ _ _ Hpg q _ _ HqG) as (Hq0 & Hfq & Hkq & _ & Hbq).
  eapply mergeable_spec; [done|right]. exists sq. split_and!; [done|done|]. case_bool_decide as El.
  - destruct (neighbour_free q sq Hsq Hqp ltac:(congruence)) as [HqF Htq].
    wp_step. eapply get_span_spec; [done|]. wp_step. wp_step; [by apply Z.eqb_eq|].
    wp_step. eapply absorb_spec; [apply Hok|by apply elem_of_dom_2 in HqG|apply Hok|apply Hok|done|done|done|done|
      congruence|done|done|].
    intros a' l' b' t Ha' Hm' Hl' Hd' Hb'. wp_step. eapply update_span_spec; [simpl; by rewrite lookup_insert_eq|].
    wp_step. eapply get_span_spec; [simpl; by rewrite lookup_insert_eq|].
    simpl. rewrite !insert_insert_eq. rewrite (u64_id (num_pages _ + _)) by (unfold first_page, num_pages in *; simpl; lia).
    rewrite last_page_eq by (unfold first_page, num_pages in *; simpl; lia). eapply Set_spec.
    { simpl. eapply span_covered; [done|exact HqG|]. unfold first_page, num_pages in *. simpl. lia. }
    intros m' Hcov Hspan. eapply merge_done.
    + eapply (merged_ok hole rel G F n h p q sq _ _ f k f);
        [done|done|done|done|by right|exact Ha'|exact Hm'|exact Hl'|exact Hd'|exact Hb'|reflexivity|
         unfold first_page, num_pages in *; simpl; lia|unfold first_page, num_pages in *; simpl; lia|
         apply (sk_sampled _ _ _ _ _ Hs p sp Hsp)|done|exact Hcov|].
      intros x. rewrite Hspan. rewrite Z.eqb_refl. unfold first_page, num_pages in *. simpl. f_equal. lia.
    + done.
    + congruence.
    + simpl. by rewrite lookup_insert_eq.
    + done.
    + by eexists.
    + lia.
    + intros x sx Hx Hlx. split; [eauto|]. intros E.
      apply (hk_coalesced _ _ _ _ _ _ _ _ _ Hok q x sq sx); [done|done|congruence|lia].
  - wp_step. eapply merge_nothing; [done|done|lia|]. intros x sx Hx Hlx. split; [eauto|]. intros He.
    destruct (free_span _ _ _ _ _ Hs x sx Hx) as [HxS HxG].
    destruct (po_span _ _ _ _ _ _ _ Hpg x _ _ HxG) as (_ & _ & Ex & _).
    assert (x = q) as -> by (rewrite <-Ex; unfold q; f_equal; lia). congruence.
Qed.
End One.

Lemma used_list G F p (sp : Span) x : x ≠ p → live G (<[p := sp]> F) x = live G F x.
Proof. intros Hx. unfold live. by rewrite lookup_insert_ne. Qed.

(** The object of a span that is not on the lists changes, but not its pages. *)
Lemma heap_touch p sp sp' hole rel G F n h :
  heap_ok (Some p) hole rel G F n h → spans h !! p = Some sp → first_page sp' = first_page sp →
  num_pages sp' = num_pages sp → sampled sp' = sampled sp →
  heap_ok (Some p) hole rel G F n (with_spans (<[p := sp']> (spans h)) h).
Proof.
  intros [H1 H2 H3 H4 H5 H6 H7] Hp Ef Ek Es. split; try done. simpl.
  pose proof (sk_range _ _ _ _ _ H5 p sp Hp) as HG. replace G with (<[p := (first_page sp', num_pages sp')]> G).
  - eapply spans_put; [done|by apply (sk_pending _ _ _ _ _ H5)|done| | |by left].
    + apply (sk_item _ _ _ _ _ H5). by apply elem_of_dom_2 in HG.
    + rewrite Es. by apply (sk_sampled _ _ _ _ _ H5 p).
  - apply insert_id. congruence.
Qed.

Lemma MergeIntoFreeList_spec p sp hole rel G F n h :
  heap_ok (Some p) hole rel G F n h → spans h !! p = Some sp → location sp ≠ IN_USE →
  hole (first_page sp - 1) = false → hole (first_page sp + num_pages sp) = false →
  wp true (MergeIntoFreeList cfg now p) (λ _ h', ∃ G' F' n' sp', (n ≤ n')%nat ∧ heap_ok None hole rel G' F' n' h' ∧
    F' !! p = Some sp' ∧ location sp' = location sp ∧ first_page sp' ≤ first_page sp ∧
    first_page sp + num_pages sp ≤ first_page sp' + num_pages sp' ∧
    (∀ q, q ≠ p → live G' F' q = live G F q) ∧ kept (location sp) F F' ∧
    ∀ q, q ∈ dom F' → q = p ∨ q ∈ dom F) h.
Proof.
  intros Hok Hsp Hl Hh1 Hh2. set (f := first_page sp) in *. set (k := num_pages sp) in *.
  unfold MergeIntoFreeList. wp_step. eapply get_span_spec; [done|]. wp_step.
  wp_step; [by rewrite bool_decide_eq_false_2|]. wp_step. unfold Now. do 4 wp_step.
  wp_step. wp_step. eapply update_span_spec; [done|]. simpl.
  set (h1 := with_spans _ _). assert (heap_ok (Some p) hole rel G F n h1) as Hok1.
  { apply (heap_touch p sp _ hole rel G F n (with_ticks (S (ticks h)) h)); [by destruct Hok; split|done..]. }
  assert (pending p (location sp) f k G h1) as Hpend1.
  { split; [by apply (sk_range _ _ _ _ _ (hk_spans _ _ _ _ _ _ _ _ _ Hok))|].
    eexists. simpl. rewrite lookup_insert_eq. split_and!; [done|done|by eexists]. }
  clearbody h1. wp_step. eapply wp_mono; [apply (merge_prev_spec p (location sp) f k hole rel G F n); done|].
  intros [] h2 (G2 & F2 & n2 & f2 & k2 & Hn2 & Hok2 & Hpend2 & [Hf2 Hk2] & Hu2 & Hkept2 & Hsub2 & Hed2).
  wp_step. eapply wp_mono; [apply (merge_next_spec p (location sp) f2 k2 hole rel G2 F2 n2) with (e := f + k); [done|done|done|lia|done|done|done]|].
  intros [] h3 (G3 & F3 & n3 & f3 & k3 & Hn3 & Hok3 & Hpend3 & [-> Hk3] & Hu3 & Hkept3 & Hsub3 & Hed3).
  destruct Hpend3 as (HpG3 & sp3 & Hsp3 & El3 & Ht3).
  pose proof (hk_spans _ _ _ _ _ _ _ _ _ Hok3) as Hs3.
  destruct (span_of _ _ _ _ _ Hs3 p _ _ HpG3) as (sp0 & Hsp0 & Ef3 & Ek3). assert (sp0 = sp3) as -> by congruence.
  assert (F3 !! p = None) as Hpn by (by apply (sk_pending _ _ _ _ _ Hs3)).
  destruct (span_bounds _ _ _ _ _ _ _ (hk_pages _ _ _ _ _ _ _ _ _ Hok3) p _ _ HpG3) as (_ & _ & Hk0 & _).
  eapply Prepend_spec; [apply Hok3|apply Hok3|done|done|congruence|lia|
    apply (sk_item _ _ _ _ _ Hs3); by apply elem_of_dom_2 in HpG3|].
  intros l' b' Hl' Hd' Hb'. exists G3, (<[p := sp3]> F3), n3, sp3.
  split_and!; [lia| |by rewrite lookup_insert_eq|done|lia|lia| | |].
  - split; [apply Hok3|done|done|apply Hok3| | |apply Hok3].
    + simpl. rewrite Hd'. eapply spans_list; [done|done|done|congruence|done].
    + intros a b sa sb [[<- <-]|[Ha Ha']]%lookup_insert_Some [[<- <-]|[Hb1 Hb2]]%lookup_insert_Some Hlab; [lia| | |].
      * destruct (Hed3 b sb Hb2 ltac:(congruence)). lia.
      * destruct (Hed3 a sa Ha' ltac:(congruence)). lia.
      * by apply (hk_coalesced _ _ _ _ _ _ _ _ _ Hok3 a b).
  - intros q Hq. by rewrite used_list, Hu3, Hu2.
  - eapply kept_trans; [done|]. eapply kept_trans; [done|]. rewrite <-El3. by apply kept_insert.
  - intros q. rewrite dom_insert_L. apply subseteq_dom in Hsub2, Hsub3. set_solver.
Qed.
End Merge.
