(* ===== verification/TcPageHeapCarve.v ===== *)
(** * tcmalloc: taking a span off the free lists

    [Carve] takes a free span for use and puts what is not needed back. *)

From S2P Require Import Prelude.
From S2P Require Import CString.
From S2P Require Import TcCommon.
From S2P Require Import TcSpan.
From S2P Require Import TcPageMap.
From S2P Require Import TcPageMapCorrect.
From S2P Require Import TcLinkedList.
From S2P Require Import TcSystemAlloc.
From S2P Require Import TcSystemAllocCorrect.
From S2P Require Import TcArena.
From S2P Require Import TcArenaCorrect.
From S2P Require Import TcPageHeap.
From S2P Require Import TcPageHeapLists.
From S2P Require Import TcPageHeapInv.
From S2P Require Import TcPageHeapMerge.

(** Memory of one kind is at most as long as the distance of the kinds. *)
Lemma tag_width a n t : 0 ≤ a → (∀ b, a ≤ b < a + n → IsTaggedMemory b = t) → n ≤ 2 ^ 42.
Proof.
  intros Ha Ht. destruct (Z.le_gt_cases n (2 ^ 42)) as [|Hn]; [done|exfalso].
  pose proof (Ht a ltac:(lia)) as H1. pose proof (Ht (a + 2 ^ 42) ltac:(lia)) as H2.
  rewrite tagged_even in H1, H2 by lia. replace (a + 2 ^ 42) with (a + 1 * 2 ^ 42) in H2 by lia.
  rewrite Z.div_add, Z.even_add in H2 by lia. rewrite H1 in H2. by destruct t.
Qed.

Lemma i32_of_u64 x : 0 ≤ x < 2 ^ 31 → i32 (u64 x) = x.
Proof.
  intros Hx. unfold i32. rewrite u64_id by lia. rewrite (wrap_small 32) by (unfold is_word; lia).
  by rewrite (proj2 (Z.ltb_lt _ _)) by lia.
Qed.

Ltac eqb_cases :=
  repeat match goal with |- context [?a =? ?b] => destruct (Z.eqb_spec a b) end; try done; lia.

Section Lists.
Context (cfg : config).

(** A free span's other data change. *)
Lemma lists_touch F l c sp sp' :
  lists_ok cfg F l → F !! c = Some sp → location sp' = location sp → num_pages sp' = num_pages sp →
  lists_ok cfg (<[c := sp']> F) l.
Proof.
  intros [Hn (ch & Hr & Hd & Hin)] Hc Hl Hk. split.
  - intros p sx [[<- <-]|[_ Hp]]%lookup_insert_Some; [rewrite Hk; eauto|eauto].
  - exists ch. split; [done|]. split; [done|]. intros r s L HL x. rewrite (Hin r s L HL x). split.
    + intros (p & sx & -> & Hp & Hb). destruct (decide (p = c)) as [->|Hne].
      * exists c, sp'. rewrite lookup_insert_eq. split_and!; [done|done|].
        replace sx with sp in Hb by congruence. unfold belongs. by rewrite Hl, Hk.
      * exists p, sx. by rewrite lookup_insert_ne.
    + intros (p & sx & -> & [[<- <-]|[_ Hp]]%lookup_insert_Some & Hb); [|by eauto].
      exists c, sp. split_and!; [done|done|]. unfold belongs in *. by rewrite <-Hl, <-Hk.
Qed.

Lemma backing_touch F rel b c sp sp' :
  backing_ok cfg F rel b → F !! c = Some sp → location sp' = location sp → num_pages sp' = num_pages sp →
  backing_ok cfg (<[c := sp']> F) rel b.
Proof.
  intros [H1 H2] Hc Hl Hk.
  assert (∀ r, kind_bytes cfg r (<[c := sp']> F) = kind_bytes cfg r F) as E; [|by split; rewrite E].
  intros r. rewrite (kind_bytes_delete cfg r F c sp Hc). rewrite <-(insert_delete_eq F c sp').
  rewrite kind_bytes_insert by apply lookup_delete_eq. unfold span_bytes. by rewrite Hl, Hk.
Qed.
End Lists.

Section Carve.
Context (cfg : config) {M A OS : Type}.
Context `{!PageMapImpl M, !SystemMemory OS, !ObjectPool A, !MetaMemory A OS}.
Context {bits hb : Z} {reliable : Prop}.
Context {HML : PageMapLaws M bits hb reliable} {HSL : SystemMemoryLaws OS}.
Context {HPL : ObjectPoolLaws A} {HMM : MetaMemoryLaws A OS}.
Context (tagged_ : bool) (stale : Span) {md : mode}.

Local Abbreviation PageHeap := (PageHeap (M := M) (A := A)).
Local Abbreviation heap_ok := (heap_ok cfg tagged_).
Implicit Types (G : gmap Z range) (F : gmap Z Span) (h : PageHeap) (hole : Z → bool).

Lemma span_width hole G cov desc (o : OS) p f k :
  pages_ok cfg tagged_ hole G cov desc o → G !! p = Some (f, k) → k * kPageSize cfg ≤ 2 ^ 42 ∧ k < 2 ^ 31.
Proof.
  intros Hok Hp. destruct (span_bounds _ _ _ _ _ _ _ Hok p f k Hp) as (_ & Hf & Hk & _).
  pose proof (kPageSize_pos cfg) as HP. assert (k * kPageSize cfg ≤ 2 ^ 42); [|nia].
  apply (tag_width (f * kPageSize cfg) _ tagged_); [nia|]. intros b Hb.
  assert (f ≤ b / kPageSize cfg < f + k) as Hq.
  { split; [apply Z.div_le_lower_bound; lia|apply Z.div_lt_upper_bound; lia]. }
  destruct (po_page _ _ _ _ _ _ _ Hok (b / kPageSize cfg)) as (_ & _ & _ & _ & _ & _ & Ha); [by eapply span_owned|].
  apply Ha. pose proof (Z.div_mod b (kPageSize cfg)). pose proof (Z.mod_pos_bound b (kPageSize cfg)). lia.
Qed.

Lemma RecordSpan_spec p sp (Q : unit → PageHeap → Prop) h :
  spans h !! p = Some sp → 0 ≤ first_page sp → 0 < num_pages sp → first_page sp + num_pages sp < 2 ^ 64 →
  covered (pagemap_ h) (first_page sp) → covered (pagemap_ h) (first_page sp + num_pages sp - 1) →
  (∀ m', (∀ x, covered (pagemap_ h) x → covered m' x) → span_at m' (first_page sp) = p →
    span_at m' (first_page sp + num_pages sp - 1) = p →
    (∀ x, ¬ (first_page sp ≤ x < first_page sp + num_pages sp) → span_at m' x = span_at (pagemap_ h) x) →
    Q tt (with_map m' h)) →
  wp md (RecordSpan p) Q h.
Proof.
  intros Hp Hf Hk Hb Hc1 Hc2 HQ. unfold RecordSpan. wp_step. eapply get_span_spec; [done|]. wp_step.
  eapply Set_spec; [done|]. intros m1 Hcov1 Hm1. destruct (Z.ltb_spec 1 (num_pages sp)) as [H1|H1].
  - rewrite last_page_eq by done. eapply Set_spec; [by apply Hcov1|]. intros m2 Hcov2 Hm2. simpl in *.
    change (with_map m2 (with_map m1 h)) with (with_map m2 h).
    assert (∀ x, span_at m2 x = set_at (set_at (span_at (pagemap_ h)) (first_page sp) p)
      (first_page sp + num_pages sp - 1) p x) as E.
    { intros x. rewrite Hm2. unfold set_at at 1 2. by rewrite Hm1. }
    apply HQ; [auto|..]; intros; rewrite E; unfold set_at;
      eqb_cases.
  - wp_step. apply HQ; [done|..]; intros; rewrite Hm1; unfold set_at;
      eqb_cases.
Qed.

(** What is left after the part [n] is carved out of [f .. f+k). *)
Definition carved (f k n fp fc : Z) : Prop := fp = f ∧ fc = f + n ∨ fc = f ∧ fp = f + (k - n).

Lemma coalesced_carve hole G cov desc (o : OS) F p sp c sc n fp :
  pages_ok cfg tagged_ hole G cov desc o → coalesced F →
  (∀ q sq, F !! q = Some sq → G !! q = Some (first_page sq, num_pages sq)) → F !! p = Some sp →
  carved (first_page sp) (num_pages sp) n fp (first_page sc) → num_pages sc = num_pages sp - n →
  0 < n < num_pages sp → location sc = location sp → coalesced (<[c := sc]> (delete p F)).
Proof.
  intros Hok Hco HG Hp Hcv Hk Hn Hl. pose proof (HG p sp Hp) as HpG.
  assert (∀ q sq x, F !! q = Some sq → q ≠ p → first_page sq ≤ x < first_page sq + num_pages sq →
    ¬ (first_page sp ≤ x < first_page sp + num_pages sp)) as Hother.
  { intros q sq x Hq Hne Hx Hx'. apply Hne. by apply (po_unique _ _ _ _ _ _ _ Hok q p _ _ x (HG q sq Hq) HpG). }
  assert (∀ q sq, F !! q = Some sq → 0 < num_pages sq) as Hpos.
  { intros q sq Hq. by apply (po_span _ _ _ _ _ _ _ Hok q _ _ (HG q sq Hq)). }
  intros a b sa sb [[<- <-]|[Ha [Hap Ha']%lookup_delete_Some]]%lookup_insert_Some
    [[<- <-]|[Hb [Hbp Hb']%lookup_delete_Some]]%lookup_insert_Some Hlab E.
  - lia.
  - destruct Hcv as [[Ef Ec]|[Ec Ef]].
    + apply (Hco p b sp sb Hp Hb' ltac:(congruence)). lia.
    + pose proof (Hpos b sb Hb'). apply (Hother b sb (first_page sb) Hb' ltac:(done)); lia.
  - destruct Hcv as [[Ef Ec]|[Ec Ef]].
    + pose proof (Hpos a sa Ha'). apply (Hother a sa (first_page sc - 1) Ha' ltac:(done)); lia.
    + apply (Hco a p sa sp Ha' Hp ltac:(congruence)). lia.
  - by apply (Hco a b sa sb).
Qed.

Lemma split_leftover_spec hole G nsp p sp n extra (Q : Z → PageHeap → Prop) h :
  pool_inv (span_allocator h) (dom G) nsp → can_make md 1 nsp →
  pages_ok cfg tagged_ hole G (covered (pagemap_ h)) (span_at (pagemap_ h)) (meta_system (span_allocator h)) →
  spans h !! p = Some sp → G !! p = Some (first_page sp, num_pages sp) →
  0 < n → 0 < extra → num_pages sp = n + extra →
  (∀ c a' m' fp fc, c ≠ 0 → c ∉ dom G → pool_inv a' ({[c]} ∪ dom G) (nsp - 1) →
    later (meta_system (span_allocator h)) (meta_system a') → carved (first_page sp) (num_pages sp) n fp fc →
    (∀ x, covered (pagemap_ h) x → covered m' x) → span_at m' fp = p →
    (∀ x, x ≠ fp → span_at m' x = span_at (pagemap_ h) x) →
    Q c (mk_heap (<[Item c := mk_elem None None]> (lists h))
      (<[c := Span_Init fc extra stale]> (<[p := set_first_page fp sp]> (spans h))) m' a' (backing h)
      (release_index_ h) (ticks h))) →
  wp md (split_leftover stale p n extra) Q h.
Proof.
  intros Hpool Hcan Hpg Hp HpG Hn He Hk HQ. destruct (span_bounds _ _ _ _ _ _ _ Hpg p _ _ HpG) as (_ & Hf & Hk0 & _ & Hb).
  unfold split_leftover. wp_step. eapply get_span_spec; [done|]. rewrite last_page_eq by lia.
  wp_step. rewrite u64_id by lia. apply GetDescriptor_spec; [lia|].
  wp_step. apply wp_mono with (Q := λ _ h', h' = h).
  { destruct (_ =? 0); [|by wp_step]. wp_step. rewrite u64_id by lia. apply GetDescriptor_spec; [lia|]. by wp_step. }
  intros only h' ->. destruct only.
  - wp_step. eapply Span_New_spec; [done|done|]. intros c a' Hc0 Hc Ha' Hm'.
    assert (c ≠ p) as Hcp by (intros ->; apply Hc; by apply elem_of_dom_2 in HpG).
    wp_step. eapply update_span_spec. { simpl. by rewrite lookup_insert_ne. }
    wp_step. rewrite u64_id by lia. eapply Set_spec. { simpl. eapply span_covered; [done|done|lia]. }
    intros m' Hcov Hspan. wp_step. simpl in *. rewrite (insert_insert_ne _ p c) by done.
    apply (HQ c a' m' (first_page sp + extra) (first_page sp)); [done|done|done|done|right; lia|done| |].
    + rewrite Hspan. unfold set_at. by rewrite Z.eqb_refl.
    + intros x Hx. rewrite Hspan. unfold set_at. eqb_cases.
  - rewrite u64_id by lia. eapply Span_New_spec; [done|done|]. intros c a' Hc0 Hc Ha' Hm'.
    assert (<[p := set_first_page (first_page sp) sp]> (spans h) = spans h) as Es
      by (apply insert_id; rewrite Hp; by destruct sp).
    pose proof (HQ c a' (pagemap_ h) (first_page sp) (first_page sp + n)) as HQ'. rewrite Es in HQ'.
    apply HQ'; [done|done|done|done|by left|done| |done]. by apply (po_span _ _ _ _ _ _ _ Hpg p _ _ HpG).
Qed.

(** The state after [c] was split off [p]. *)
Lemma carved_ok hole rel G F nsp nsp' h h' p sp sp' c sc n fp :
  heap_ok None hole rel G F nsp h → F !! p = Some sp → c ≠ 0 → c ∉ dom G →
  carved (first_page sp) (num_pages sp) n fp (first_page sc) → num_pages sc = num_pages sp - n →
  0 < n < num_pages sp → location sc = location sp → sampled sc = false → is_Some (freelist_added_time sc) →
  first_page sp' = fp → num_pages sp' = n → sampled sp' = false → location sp' = IN_USE →
  pool_inv (span_allocator h') ({[c]} ∪ dom G) nsp' →
  later (meta_system (span_allocator h)) (meta_system (span_allocator h')) →
  lists_ok cfg (<[c := sc]> (delete p F)) (lists h') → dom (lists h') = {[Item c]} ∪ dom (lists h) →
  backing_ok cfg (<[c := sc]> (delete p F)) rel (backing h') →
  spans h' = <[c := sc]> (<[p := sp']> (spans h)) → release_index_ h' = release_index_ h →
  (∀ x, covered (pagemap_ h) x → covered (pagemap_ h') x) →
  span_at (pagemap_ h') fp = p → span_at (pagemap_ h') (fp + n - 1) = p →
  span_at (pagemap_ h') (first_page sc) = c → span_at (pagemap_ h') (first_page sc + num_pages sc - 1) = c →
  (∀ x, ¬ (first_page sp ≤ x < first_page sp + num_pages sp) →
    span_at (pagemap_ h') x = span_at (pagemap_ h) x) →
  heap_ok None hole rel (<[c := (first_page sc, num_pages sc)]> (<[p := (fp, n)]> G)) (<[c := sc]> (delete p F)) nsp' h'.
Proof.
  intros Hok Hp Hc0 Hc Hcv Hk Hn Hl Hsc Ht Ef' Ek' Hs' Hl' Hpool Hm Hls Hd Hb Hsp Hi Hcov H1 H2 H3 H4 H5.
  pose proof (hk_spans _ _ _ _ _ _ _ _ _ Hok) as Hs.
  destruct (free_span _ _ _ _ _ Hs p sp Hp) as [HpS HpG].
  destruct (sk_free _ _ _ _ _ Hs p sp Hp) as (_ & Hlp & _).
  assert (p ∈ dom G) as HpD by (by apply elem_of_dom_2 in HpG).
  assert (F !! c = None) as HcF.
  { destruct (F !! c) as [s|] eqn:E; [|done]. destruct (free_span _ _ _ _ _ Hs c s E) as [_ HG].
    destruct Hc. by apply elem_of_dom_2 in HG. }
  split.
  - replace (dom _) with ({[c]} ∪ dom G); [done|]. rewrite !dom_insert_L. set_solver.
  - done.
  - done.
  - destruct Hm as (_ & Hup & Hg). eapply pages_system; [|exact Hg|exact Hup]. eapply pages_split; [apply Hok|done|done|by apply not_elem_of_dom| | | | |done..].
    + unfold carved in Hcv. lia.
    + lia.
    + lia.
    + lia.
  - rewrite Hsp, Hd, <-Ef', <-Ek'.
    assert (spans_ok None (<[p := (first_page sp', num_pages sp')]> G) (delete p F) (<[p := sp']> (spans h))
      (dom (lists h))) as Hs1.
    { eapply (spans_use (Some p)); [|done|by rewrite lookup_insert_eq|done].
      eapply spans_put; [eapply spans_unlist; [done|done|by eexists]|by apply lookup_delete_eq|done| |done|by left].
      by apply (sk_item _ _ _ _ _ Hs). }
    eapply (spans_list (Some c)); [|done|by rewrite lookup_insert_eq|congruence|done].
    assert (delete p F !! c = None) as HcF' by (apply lookup_delete_None; by right).
    eapply spans_put; [eapply spans_pend; [done|done|done]|done|set_solver|set_solver|done|by left].
  - eapply coalesced_carve; [apply Hok|apply Hok| |done|done|done|done|done].
    intros q sq Hq. by apply (free_span _ _ _ _ _ Hs).
  - rewrite Hi. apply Hok.
Qed.

(** The span [p] came into use with [n] pages. *)
Definition taken (p n : Z) G F G' F' : Prop :=
  live G F p = None ∧ (∃ f, live G' F' p = Some (f, n)) ∧ ∀ q, q ≠ p → live G' F' q = live G F q.

(** A free span comes off the lists and into use. *)
Lemma heap_unlist hole rel rel' G F n h p sp l b :
  heap_ok None hole rel G F n h → F !! p = Some sp → lists_ok cfg (delete p F) l → dom l = dom (lists h) →
  backing_ok cfg (delete p F) rel' b →
  heap_ok None hole rel' G (delete p F) n
    (with_spans (<[p := set_location IN_USE sp]> (spans h)) (with_lists l (with_backing b h))).
Proof.
  intros Hok Hp Hl Hd Hb. pose proof (hk_spans _ _ _ _ _ _ _ _ _ Hok) as Hs.
  destruct (free_span _ _ _ _ _ Hs p sp Hp) as [HpS HpG]. split; [apply Hok|done|done|apply Hok| | |apply Hok].
  - simpl. rewrite Hd. eapply (spans_use (Some p)); [|done|by rewrite lookup_insert_eq|done].
    rewrite <-(insert_id G p _ HpG).
    eapply (spans_put (Some p) G (delete p F) (spans h) (dom (lists h))
      (spans_unlist _ _ _ _ _ Hs p eq_refl (mk_is_Some _ _ Hp)) _ p (set_location IN_USE sp));
      [by apply lookup_delete_eq|done| |apply (sk_sampled _ _ _ _ _ Hs p sp HpS)|by left].
    apply (sk_item _ _ _ _ _ Hs). by apply elem_of_dom_2 in HpG.
  - apply coalesced_delete, Hok.
Qed.

(** What is not needed goes back to the lists. *)
Lemma carve_leftover hole rel G F nsp p sp n t l1 b1 h :
  heap_ok None hole rel G F nsp h → can_make md 1 nsp → F !! p = Some sp → freelist_added_time sp = Some t → 0 < n < num_pages sp →
  lists_ok cfg (delete p F) l1 → dom l1 = dom (lists h) → backing_ok cfg (delete p F) rel b1 →
  wp md (
    leftover ← split_leftover stale p n (num_pages sp - n);
    update_span leftover (set_location (location sp));;
    RecordSpan leftover;;
    PrependToFreeList cfg leftover;;
    t ← from_opt (freelist_added_time sp);
    update_span leftover (set_freelist_added_time t);;
    update_span p (set_num_pages n);;
    sp ← get_span p;
    on_map (PageMap_Set (last_page sp) p))
    (λ _ h', ∃ G' F', heap_ok None hole rel G' F' (nsp - 1) h' ∧ taken p n G F G' F')
    (with_spans (<[p := set_location IN_USE sp]> (spans h)) (with_lists l1 (with_backing b1 h))).
Proof.
  intros Hok Hcan Hp Ht Hn Hl1 Hd1 Hb1. pose proof (hk_spans _ _ _ _ _ _ _ _ _ Hok) as Hs.
  destruct (free_span _ _ _ _ _ Hs p sp Hp) as [HpS HpG].
  destruct (sk_free _ _ _ _ _ Hs p sp Hp) as (_ & Hlp & _).
  destruct (span_bounds _ _ _ _ _ _ _ (hk_pages _ _ _ _ _ _ _ _ _ Hok) p _ _ HpG) as (_ & Hf & Hk & _ & Hb).
  assert (live G F p = None) as Hup by (unfold live; by rewrite Hp).
  wp_step. eapply (split_leftover_spec hole G nsp p (set_location IN_USE sp));
    [apply Hok|done|apply Hok|by apply lookup_insert_eq|done|lia|lia|unfold num_pages in *; simpl; lia|].
  intros c a' m1 fp fc Hc0 Hc Ha' Hm' Hcv Hcov1 Hm1p Hm1. simpl in Hcov1, Hm', Hm1 |- *.
  rewrite insert_insert_eq.
  assert (c ≠ p) as Hcp by (intros ->; apply Hc; by apply elem_of_dom_2 in HpG).
  assert (F !! c = None) as HcF.
  { destruct (F !! c) as [s|] eqn:E; [|done]. destruct (free_span _ _ _ _ _ Hs c s E) as [_ HG].
    destruct Hc. by apply elem_of_dom_2 in HG. }
  assert (first_page sp ≤ fc ∧ fc + (num_pages sp - n) ≤ first_page sp + num_pages sp ∧
    first_page sp ≤ fp ∧ fp + n ≤ first_page sp + num_pages sp ∧ ¬ (fc ≤ fp < fc + (num_pages sp - n)) ∧
    ¬ (fc ≤ fp + n - 1 < fc + (num_pages sp - n))) as Hfc.
  { unfold carved, first_page, num_pages in *. simpl in Hcv. lia. }
  assert (∀ x, first_page sp ≤ x < first_page sp + num_pages sp → covered m1 x) as Hcovx.
  { intros x Hx. apply Hcov1. eapply span_covered; [apply Hok|done|lia]. }
  wp_step. eapply update_span_spec; [by apply lookup_insert_eq|]. simpl. rewrite insert_insert_eq.
  set (sc := set_location (location sp) (Span_Init fc (num_pages sp - n) stale)).
  assert (first_page sc = fc ∧ num_pages sc = num_pages sp - n ∧ location sc = location sp) as (Efc & Ekc & Elc) by done.
  wp_step. eapply RecordSpan_spec; [by apply lookup_insert_eq|lia|lia|lia|apply Hcovx; lia|apply Hcovx; lia|].
  simpl. intros m2 Hcov2 Hm2f Hm2l Hm2. wp_step.
  eapply (Prepend_spec cfg (delete p F) rel c sc); [| | |by apply lookup_insert_eq|done|lia| |].
  { apply new_item_ok; [done|]. by rewrite lookup_delete_ne by done. }
  { done. }
  { by rewrite lookup_delete_ne by done. }
  { simpl. set_solver. }
  simpl. intros l2 b2 Hl2 Hd2 Hb2. do 2 (wp_step; try done).
  wp_step. eapply update_span_spec; [by apply lookup_insert_eq|]. simpl. rewrite insert_insert_eq.
  wp_step. eapply update_span_spec; [simpl; rewrite lookup_insert_ne by done; by apply lookup_insert_eq|].
  simpl. rewrite (insert_insert_ne _ p c), insert_insert_eq by done.
  wp_step. eapply get_span_spec; [simpl; rewrite lookup_insert_ne by done; by apply lookup_insert_eq|].
  set (sp' := set_num_pages n _). assert (first_page sp' = fp ∧ num_pages sp' = n) as [Efp Ekp] by done.
  rewrite last_page_eq, Efp, Ekp by lia. eapply Set_spec; [by apply Hcov2, Hcovx; lia|].
  simpl. intros m3 Hcov3 Hm3.
  set (sc' := set_freelist_added_time t sc) in *.
  eexists _, _. split.
  - eapply (carved_ok hole rel G F nsp _ h _ p sp sp' c sc' n fp);
      [exact Hok|done|done|done|exact Hcv|done|lia|done|done|by eexists|done|done|
       apply (sk_sampled _ _ _ _ _ Hs p sp HpS)|done|exact Ha'|exact Hm'| | | |simpl; reflexivity|done| | | | | |].
    + rewrite <-(insert_insert_eq (delete p F) c sc' sc). eapply lists_touch; [done|apply lookup_insert_eq|done|done].
    + simpl. rewrite Hd2, dom_insert_L. by rewrite Hd1.
    + rewrite <-(insert_insert_eq (delete p F) c sc' sc). eapply backing_touch; [done|apply lookup_insert_eq|done|done].
    + auto.
    + simpl. rewrite Hm3. unfold set_at. destruct (Z.eqb_spec fp (fp + n - 1)); [done|]. rewrite Hm2 by lia. done.
    + simpl. rewrite Hm3. unfold set_at. by rewrite Z.eqb_refl.
    + simpl. rewrite Hm3. unfold set_at. change (first_page sc') with fc. eqb_cases.
    + simpl. rewrite Hm3. unfold set_at. change (first_page sc') with fc. change (num_pages sc') with (num_pages sp - n).
      eqb_cases.
    + intros x Hx. simpl. rewrite Hm3. unfold set_at. destruct (Z.eqb_spec x (fp + n - 1)); [lia|].
      rewrite Hm2 by lia. apply Hm1. lia.
  - apply not_elem_of_dom in Hc. split_and!; [done| |].
    + exists fp. unfold live. rewrite lookup_insert_ne, lookup_delete_eq, lookup_insert_ne by done.
      apply lookup_insert_eq.
    + intros q Hq. unfold live. destruct (decide (q = c)) as [->|Hqc]; [by rewrite lookup_insert_eq, HcF, Hc|].
      by rewrite !lookup_insert_ne, lookup_delete_ne by done.
Qed.

Lemma Carve_spec hole rel G F nsp p sp n h :
  heap_ok None hole rel G F nsp h → can_make md 1 nsp → F !! p = Some sp → 0 < n ≤ num_pages sp →
  wp md (Carve cfg stale p n)
    (λ r h', r = p ∧ ∃ G' F', heap_ok None hole rel G' F' (nsp - 1) h' ∧ taken p n G F G' F') h.
Proof.
  intros Hok Hcan Hp Hn. pose proof (hk_spans _ _ _ _ _ _ _ _ _ Hok) as Hs.
  destruct (free_span _ _ _ _ _ Hs p sp Hp) as [HpS HpG].
  destruct (sk_free _ _ _ _ _ Hs p sp Hp) as (_ & Hlp & t & Ht).
  destruct (span_bounds _ _ _ _ _ _ _ (hk_pages _ _ _ _ _ _ _ _ _ Hok) p _ _ HpG) as (_ & Hf & Hk & _ & Hb).
  destruct (span_width _ _ _ _ _ p _ _ (hk_pages _ _ _ _ _ _ _ _ _ Hok) HpG) as [_ Hw].
  unfold Carve. wp_step. wp_step; [by apply Z.ltb_lt; lia|]. wp_step. eapply get_span_spec; [done|].
  wp_step. wp_step; [by rewrite bool_decide_eq_false_2|]. cbv zeta. rewrite i32_of_u64 by lia.
  wp_step. eapply Remove_spec; [apply Hok|apply Hok|done|done|done|]. intros l1 b1 Hl1 Hd1 Hb1.
  wp_step. eapply update_span_spec; [done|]. wp_step. wp_step; [apply Z.leb_le; lia|]. wp_step.
  assert (∀ h', (∃ G' F', heap_ok None hole rel G' F' (nsp - 1) h' ∧ taken p n G F G' F') →
    wp md (ok ← Check; require ok;; mret p)
      (λ r h', r = p ∧ ∃ G' F', heap_ok None hole rel G' F' (nsp - 1) h' ∧ taken p n G F G' F') h') as Hend.
  { intros h' (G' & F' & Hok' & Htk). wp_step. eapply Check_spec; [apply Hok'|]. wp_step. wp_step; [done|]. wp_step. eauto. }
  assert (live G F p = None) as Hup by (unfold live; by rewrite Hp).
  destruct (Z.ltb_spec 0 (num_pages sp - n)) as [Hex|Hex].
  - eapply wp_mono; [apply (carve_leftover hole rel G F nsp p sp n t l1 b1 h); [done|done|done|done|lia|done|done|done]|]. intros [] h' Hh'. by apply Hend.
  - wp_step. apply Hend. assert (n = num_pages sp) as -> by lia. exists G, (delete p F). split.
    + apply (heap_weaken _ _ _ _ _ _ _ nsp); [lia|]. by apply (heap_unlist hole rel rel G F nsp h p sp l1 b1).
    + split_and!; [done| |].
      * exists (first_page sp). unfold live. by rewrite lookup_delete_eq.
      * intros q Hq. unfold live. by rewrite lookup_delete_ne.
Qed.
End Carve.
