(* ===== verification/TcPageHeapAlloc.v ===== *)
(** * tcmalloc: allocating and deleting spans

    The search of the free lists finds the best fit, the heap grows when there is
    none, and [New], [NewAligned] and [Delete] keep the heap's invariant. *)

From S2P Require Import Prelude.
From S2P Require Import TcCommon.
From S2P Require Import TcSpan.
From S2P Require Import TcPageMap.
From S2P Require Import TcPageMapCorrect.
From S2P Require Import TcLinkedList.
From S2P Require Import TcSystemAlloc.
From S2P Require Import TcSystemAllocCorrect.
From S2P Require Import TcArena.
From S2P Require Import TcArenaCorrect.
From S2P Require Import TcPageHeap.
From S2P Require Import TcPageHeapLists.
From S2P Require Import TcPageHeapInv.
From S2P Require Import TcPageHeapMerge.
From S2P Require Import TcPageHeapCarve.

Definition no_hole (x : Z) : bool := false.

(** The span [sp] is long enough, and no free span that is has fewer pages. *)
Definition best_fit (F : gmap Z Span) (n : Z) (sp : Span) : Prop :=
  n ≤ num_pages sp ∧ ∀ q sq, F !! q = Some sq → n ≤ num_pages sq → num_pages sp ≤ num_pages sq.

Section Alloc.
Context (cfg : config) {M A OS : Type}.
Context `{!PageMapImpl M, !SystemMemory OS, !ObjectPool A, !MetaMemory A OS}.
Context {bits hb : Z} {reliable : Prop}.
Context {HML : PageMapLaws M bits hb reliable} {HSL : SystemMemoryLaws OS}.
Context {HPL : ObjectPoolLaws A} {HMM : MetaMemoryLaws A OS}.
Context (tagged_ : bool) (stale : Span) (now : nat → Z) {md : mode}.

Local Abbreviation PageHeap := (PageHeap (M := M) (A := A)).
Local Abbreviation heap_ok := (heap_ok cfg tagged_).
Implicit Types (G : gmap Z range) (F : gmap Z Span) (h : PageHeap) (hole : Z → bool).

(** Whether a list is empty. *)
Lemma list_empty_spec F h r s (Q : bool → PageHeap → Prop) :
  lists_ok cfg F (lists h) → 0 ≤ s ≤ kMaxPages cfg →
  (∀ b, (if b : bool then ∀ p sp, F !! p = Some sp → ¬ belongs cfg r s sp
         else ∃ p sp, F !! p = Some sp ∧ belongs cfg r s sp) → Q b h) →
  wp md (on_lists (tl_empty (Head r s))) Q h.
Proof.
  intros Hok Hs HQ. eapply on_part_spec; [eapply (ring_empty_spec cfg F _ r s (λ b l, l = lists h ∧
    if b : bool then ∀ p sp, F !! p = Some sp → ¬ belongs cfg r s sp
    else ∃ p sp, F !! p = Some sp ∧ belongs cfg r s sp)); [done|done|done]|].
  intros b l [-> Hb]. replace (with_lists (lists h) h) with h by (by destruct h). by apply HQ.
Qed.

(** ** The search *)

Section Search.
Context hole (rel : Z) G F (nsp : nat) h (n : Z).
Context (Hok : heap_ok None hole rel G F nsp h) (Hn : 0 < n).

Definition candidate (best : option (Z * bool)) (P : Span → Prop) : Prop :=
  match best with
  | None => ∀ sp, P sp → num_pages sp < n
  | Some (p, r) => ∃ sp, F !! p = Some sp ∧ location sp = kind_location r ∧ n ≤ num_pages sp ∧
      ∀ sq, P sq → n ≤ num_pages sq → num_pages sp ≤ num_pages sq
  end.

Lemma candidate_mono best (P P' : Span → Prop) : (∀ sp, P' sp → P sp) → candidate best P → candidate best P'.
Proof.
  intros HP. destruct best as [[p r]|]; simpl; [|eauto].
  intros (sp & H1 & H2 & H3 & H4). exists sp. eauto 10.
Qed.

Lemma best_loop_spec r (L : list node) best P :
  (∀ x, x ∈ L → ∃ p sp, x = Item p ∧ F !! p = Some sp ∧ location sp = kind_location r) → candidate best P →
  wp md (best_loop r L n best)
    (λ b h', h' = h ∧ candidate b (λ sp, P sp ∨ ∃ p, Item p ∈ L ∧ F !! p = Some sp)) h.
Proof.
  revert best P. induction L as [|x L IH]; intros best P HL Hb.
  - simpl. wp_step. split; [done|]. destruct best as [[p r']|]; simpl in *.
    + destruct Hb as (sp & H1 & H2 & H3 & H4). exists sp. split_and!; [done..|].
      intros sq [?|(q & []%not_elem_of_nil & _)]; auto.
    + intros sp [?|(q & []%not_elem_of_nil & _)]; auto.
  - destruct (HL x) as (p & sp & -> & Hp & Hl); [left|].
    destruct (free_span _ _ _ _ _ (hk_spans _ _ _ _ _ _ _ _ _ Hok) p sp Hp) as [HpS _].
    simpl. wp_step. eapply get_span_spec; [done|]. wp_step. wp_step; [by rewrite Hl, bool_decide_eq_true_2|].
    wp_step. apply wp_mono with (Q := λ b h', h' = h ∧ match best with
      | None => b = None
      | Some (q, _) => ∃ sq, F !! q = Some sq ∧ b = Some sq end).
    { destruct best as [[q r']|]; [|by wp_step]. destruct Hb as (sq & Hq & _).
      destruct (free_span _ _ _ _ _ (hk_spans _ _ _ _ _ _ _ _ _ Hok) q sq Hq) as [HqS _].
      wp_step. eapply get_span_spec; [done|]. wp_step. eauto. }
    intros b h' [-> Hbb].
    eapply wp_mono; [apply (IH _ (λ sq, P sq ∨ sq = sp))|].
    { intros y Hy. apply HL. by right. }
    { clear IH. unfold IsSpanBetter. destruct (Z.ltb_spec (num_pages sp) n) as [Hlt|Hge].
      { destruct best as [[q r']|]; simpl in *.
        - destruct Hb as (sq & H1 & H2 & H3 & H4). exists sq. split_and!; [done..|]. intros s [?| ->]; [auto|lia].
        - intros s [?| ->]; auto. }
      destruct best as [[q r']|]; simpl in *.
      - destruct Hbb as (sq & Hq & ->), Hb as (sq' & Hq' & H2 & H3 & H4). assert (sq' = sq) as -> by congruence.
        assert (num_pages sp ≤ num_pages sq → candidate (Some (p, r)) (λ s, P s ∨ s = sp)) as Hnew.
        { intros Hle. exists sp. split_and!; [done..|]. intros s [Hs| ->] ?; [|done]. pose proof (H4 s Hs). lia. }
        assert (num_pages sq ≤ num_pages sp → candidate (Some (q, r')) (λ s, P s ∨ s = sp)) as Hold.
        { intros Hle. exists sq. split_and!; [done..|]. intros s [Hs| ->] ?; [|done]. auto. }
        destruct (Z.ltb_spec (num_pages sp) (num_pages sq)); [apply Hnew; lia|].
        destruct (Z.ltb_spec (num_pages sq) (num_pages sp)); [apply Hold; lia|].
        destruct (_ <? _); [apply Hnew; lia|apply Hold; lia].
      - subst b. exists sp. split_and!; [done..|]. intros s [Hs| ->] ?; [|done]. pose proof (Hb s Hs). lia. }
    intros b' h' [-> Hb']. split; [done|]. revert Hb'. apply candidate_mono.
    intros s [?|(q & [[= ->]|Hq]%elem_of_cons & Hs)]; [by left; left| |].
    + left. right. congruence.
    + right. eauto.
Qed.

Lemma free_size : (size F ≤ size (spans h))%nat.
Proof.
  apply map_subseteq_size, map_subseteq_spec. intros p sp Hp.
  by apply (free_span _ _ _ _ _ (hk_spans _ _ _ _ _ _ _ _ _ Hok)).
Qed.

Lemma elements_of_spec r s (Q : list node → PageHeap → Prop) :
  0 ≤ s ≤ kMaxPages cfg →
  (∀ L, NoDup L → (∀ x, x ∈ L ↔ ∃ p sp, x = Item p ∧ F !! p = Some sp ∧ belongs cfg r s sp) → Q L h) →
  wp md (elements_of r s) Q h.
Proof.
  intros Hs HQ. unfold elements_of. wp_step. wp_step.
  eapply on_part_spec with (R := λ L l, l = lists h ∧ NoDup L ∧
    ∀ x, x ∈ L ↔ ∃ p sp, x = Item p ∧ F !! p = Some sp ∧ belongs cfg r s sp).
  - eapply elements_spec; [apply Hok|done|pose proof free_size; lia|done].
  - intros L l (-> & Hnd & HL). replace (with_lists (lists h) h) with h by (by destruct h). by apply HQ.
Qed.

(** The result of a search: nothing was found and nothing changed, or the best
    fit came into use. *)
Definition search_post (r : option (Z * bool)) h' : Prop :=
  match r with
  | None => h' = h ∧ ∀ q sq, F !! q = Some sq → num_pages sq < n
  | Some (p, fr) => ∃ sp G' F', F !! p = Some sp ∧ location sp = kind_location fr ∧ best_fit F n sp ∧
      heap_ok None hole rel G' F' (nsp - 1) h' ∧ taken p n G F G' F'
  end.

Context (Hcan : can_make md 1 nsp).

(** Carving the best fit. *)
Lemma carve_best p fr sp :
  F !! p = Some sp → location sp = kind_location fr → best_fit F n sp →
  wp md (p ← Carve cfg stale p n; mret (Some (p, fr))) search_post h.
Proof.
  intros Hp Hl Hb. wp_step. eapply wp_mono; [eapply (Carve_spec cfg tagged_); [exact Hok|done|exact Hp|destruct Hb; lia]|].
  intros p' h' (-> & G' & F' & Hok' & Ht). wp_step. exists sp, G', F'. done.
Qed.

Lemma AllocLarge_spec :
  (∀ q sq, F !! q = Some sq → n ≤ num_pages sq → kMaxPages cfg ≤ num_pages sq) →
  wp md (AllocLarge cfg stale n) search_post h.
Proof.
  intros Hlarge. pose proof (kMaxPages_bounds cfg) as Hm. unfold AllocLarge.
  wp_step. apply elements_of_spec; [lia|]. intros L1 _ HL1.
  wp_step. eapply wp_mono; [apply (best_loop_spec false L1 None (λ _, False)); [|by intros sp []]|].
  { intros x (p & sp & -> & Hp & Hb & _)%HL1. eauto. }
  intros b1 h1 [-> Hb1]. wp_step. apply elements_of_spec; [lia|]. intros L2 _ HL2.
  wp_step. eapply wp_mono; [eapply (best_loop_spec true L2 b1); [|exact Hb1]|].
  { intros x (p & sp & -> & Hp & Hb & _)%HL2. eauto. }
  intros b2 h2 [-> Hb2]. eapply (candidate_mono b2 _ (λ sq, n ≤ num_pages sq ∧ ∃ q, F !! q = Some sq)) in Hb2.
  - destruct b2 as [[p fr]|].
    + destruct Hb2 as (sp & Hp & Hl & Hge & Hmin). eapply carve_best; [done|done|]. split; [done|]. eauto.
    + wp_step. split; [done|]. intros q sq Hq. destruct (Z.lt_ge_cases (num_pages sq) n); [done|]. eauto.
  - intros sq (Hge & q & Hq). pose proof (Hlarge q sq Hq Hge) as Hlg.
    destruct (sk_free _ _ _ _ _ (hk_spans _ _ _ _ _ _ _ _ _ Hok) q sq Hq) as (_ & Hloc & _).
    apply location_kind in Hloc as [r Hr]. assert (list_index cfg (num_pages sq) = kMaxPages cfg) as Hi.
    { unfold list_index. by rewrite (proj2 (Z.ltb_ge _ _)) by lia. }
    destruct r; [right|left; right]; exists q; (split; [|done]); [apply HL2|apply HL1]; exists q, sq; done.
Qed.

Lemma first_of_spec r s (Q : Z → PageHeap → Prop) :
  0 ≤ s ≤ kMaxPages cfg → (∃ p sp, F !! p = Some sp ∧ belongs cfg r s sp) →
  (∀ p sp, F !! p = Some sp → belongs cfg r s sp → Q p h) → wp md (first_of r s) Q h.
Proof.
  intros Hs Hex HQ. unfold first_of. wp_step.
  eapply on_part_spec with (R := λ x l, l = lists h ∧ ∃ p sp, x = Item p ∧ F !! p = Some sp ∧ belongs cfg r s sp).
  { eapply first_spec; [apply Hok|done|done|]. eauto 10. }
  intros x l (-> & p & sp & -> & Hp & Hb). replace (with_lists (lists h) h) with h by (by destruct h).
  destruct (free_span _ _ _ _ _ (hk_spans _ _ _ _ _ _ _ _ _ Hok) p sp Hp) as [HpS _].
  wp_step. eapply get_span_spec; [done|]. wp_step. wp_step; [apply bool_decide_eq_true_2, Hb|]. wp_step. eauto.
Qed.

Lemma search_loop_spec k s :
  n ≤ s → (s + Z.of_nat k = kMaxPages cfg ∨ k = O ∧ kMaxPages cfg ≤ s) →
  (∀ q sq, F !! q = Some sq → n ≤ num_pages sq → s ≤ num_pages sq) →
  wp md (search_loop cfg stale k s n) (λ r h', match r with
    | None => h' = h ∧ ∀ q sq, F !! q = Some sq → n ≤ num_pages sq → kMaxPages cfg ≤ num_pages sq
    | Some _ => search_post r h' end) h.
Proof.
  revert s. induction k as [|k IH]; intros s Hs Hk Hmin; simpl.
  { wp_step. split; [done|]. intros q sq Hq Hge. pose proof (Hmin q sq Hq Hge). lia. }
  assert (∀ r, (∃ p sp, F !! p = Some sp ∧ belongs cfg r s sp) →
    wp md (p ← first_of r s; p ← Carve cfg stale p n; mret (Some (p, r))) search_post h) as Htake.
  { intros r Hex. wp_step. eapply first_of_spec; [lia|done|]. intros p sp Hp [Hl Hi].
    eapply carve_best; [done|done|]. unfold list_index in Hi. destruct (Z.ltb_spec (num_pages sp) (kMaxPages cfg)); [|lia].
    split; [lia|]. intros q sq Hq Hge. pose proof (Hmin q sq Hq Hge). lia. }
  wp_step. eapply list_empty_spec; [apply Hok|lia|]. intros b1 Hb1. destruct b1; simpl.
  2: { eapply wp_mono; [by apply Htake|]. intros [[p fr]|] h' Hp; [done|]. destruct Hp as [-> Hp].
       split; [done|]. intros q sq Hq ?. pose proof (Hp q sq Hq). lia. }
  wp_step. eapply list_empty_spec; [apply Hok|lia|]. intros b2 Hb2. destruct b2; simpl.
  2: { eapply wp_mono; [by apply Htake|]. intros [[p fr]|] h' Hp; [done|]. destruct Hp as [-> Hp].
       split; [done|]. intros q sq Hq ?. pose proof (Hp q sq Hq). lia. }
  apply IH; [lia|lia|]. intros q sq Hq Hge. pose proof (Hmin q sq Hq Hge).
  destruct (Z.eq_dec s (num_pages sq)) as [E|]; [exfalso|lia].
  destruct (sk_free _ _ _ _ _ (hk_spans _ _ _ _ _ _ _ _ _ Hok) q sq Hq) as (_ & Hloc & _).
  assert (list_index cfg (num_pages sq) = s) as Hi.
  { unfold list_index. rewrite (proj2 (Z.ltb_lt _ _)) by lia. done. }
  apply location_kind in Hloc as [[] Hr]; [by apply (Hb2 q sq Hq)|by apply (Hb1 q sq Hq)].
Qed.

Lemma Search_spec : wp md (SearchFreeAndLargeLists cfg stale n) search_post h.
Proof.
  unfold SearchFreeAndLargeLists. wp_step. eapply Check_spec; [apply Hok|]. wp_step. wp_step; [done|].
  wp_step. wp_step; [by apply Z.ltb_lt|]. wp_step. eapply wp_mono; [apply search_loop_spec; [done|lia|done]|].
  intros [r|] h' Hr; [by wp_step|]. destruct Hr as [-> Hr]. by apply AllocLarge_spec.
Qed.
End Search.
End Alloc.
