(* ===== verification/TcPageHeapNew.v ===== *)
(** * tcmalloc: growing the heap, [New], [NewAligned] and [Delete] *)

From S2P Require Import Prelude.
From S2P Require Import TcCommon.
From S2P Require Import TcSpan.
From S2P Require Import TcPageMap.
From S2P Require Import TcPageMapCorrect.
From S2P Require Import TcLinkedList.
From S2P Require Import TcSystemAlloc.
From S2P Require Import TcSystemAllocCorrect.
From S2P Require Import TcArena.
From S2P Require Import TcArenaCorrect.
From S2P Require Import TcPageHeap.
From S2P Require Import TcPageHeapLists.
From S2P Require Import TcPageHeapInv.
From S2P Require Import TcPageHeapMerge.
From S2P Require Import TcPageHeapCarve.
From S2P Require Import TcPageHeapAlloc.

Section New.
Context (cfg : config) {M A OS : Type}.
Context `{!PageMapImpl M, !SystemMemory OS, !ObjectPool A, !MetaMemory A OS}.
Context {bits hb : Z} {reliable : Prop}.
Context {HML : PageMapLaws M bits hb reliable} {HSL : SystemMemoryLaws OS}.
Context {HPL : ObjectPoolLaws A} {HMM : MetaMemoryLaws A OS}.
Context (tagged_ : bool) (stale : Span) (now : nat → Z) {md : mode}.

Local Abbreviation PageHeap := (PageHeap (M := M) (A := A)).
Local Abbreviation heap_ok := (heap_ok cfg tagged_).
Local Abbreviation pages_ok := (pages_ok cfg tagged_).
Implicit Types (G : gmap Z range) (F : gmap Z Span) (h : PageHeap) (hole : Z → bool).

(** ** New spans *)

Definition fill_hole (hole : Z → bool) (f k x : Z) : bool := hole x && negb ((f <=? x) && (x <? f + k)).

Lemma fill_hole_true hole f k x : fill_hole hole f k x = true ↔ hole x = true ∧ ¬ (f ≤ x < f + k).
Proof.
  unfold fill_hole. rewrite andb_true_iff, negb_true_iff, andb_false_iff, Z.leb_gt, Z.ltb_ge.
  split; intros []; (split; [done|lia]).
Qed.

Definition same_used G F G' F' : Prop := ∀ q, live G' F' q = live G F q.

Lemma unused_free x G F S D c : spans_ok x G F S D → c ∉ dom G → F !! c = None ∧ live G F c = None.
Proof.
  intros Hs Hc. destruct (F !! c) as [s|] eqn:E.
  - destruct (free_span _ _ _ _ _ Hs c s E) as [_ HG]. destruct Hc. by apply elem_of_dom_2 in HG.
  - split; [done|]. unfold live. rewrite E. by apply not_elem_of_dom.
Qed.

(** The new span [c] takes pages of the hole. *)
Lemma placed_ok hole rel G F nsp nsp' h h' c sc f k :
  heap_ok None hole rel G F nsp h → (∀ x, f ≤ x < f + k → hole x = true) → 0 < k → c ≠ 0 → c ∉ dom G →
  first_page sc = f → num_pages sc = k → sampled sc = false →
  pool_inv (span_allocator h') ({[c]} ∪ dom G) nsp' →
  later (meta_system (span_allocator h)) (meta_system (span_allocator h')) →
  lists h' = <[Item c := mk_elem None None]> (lists h) → backing h' = backing h →
  spans h' = <[c := sc]> (spans h) → release_index_ h' = release_index_ h →
  (∀ x, covered (pagemap_ h) x → covered (pagemap_ h') x) → span_at (pagemap_ h') f = c →
  span_at (pagemap_ h') (f + k - 1) = c →
  (∀ x, ¬ (f ≤ x < f + k) → span_at (pagemap_ h') x = span_at (pagemap_ h) x) →
  heap_ok (Some c) (fill_hole hole f k) rel (<[c := (f, k)]> G) F nsp' h'.
Proof.
  intros Hok Hh Hk Hc0 Hc Ef Ek Hsam Hpool Hm Hl Hb Hsp Hi Hcov H1 H2 H3.
  pose proof (hk_spans _ _ _ _ _ _ _ _ _ Hok) as Hs. destruct (unused_free _ _ _ _ _ _ Hs Hc) as [HcF _].
  assert (∀ x, ¬ mine G c x) as Hmine.
  { intros x (r & Hr & _). apply Hc. by apply elem_of_dom_2 in Hr. }
  split.
  - by rewrite dom_insert_L.
  - rewrite Hl. apply new_item_ok; [apply Hok|done].
  - rewrite Hb. apply Hok.
  - destruct Hm as (_ & Hup & Hg). eapply pages_system; [|exact Hg|exact Hup]. eapply pages_place; [apply Hok|done|done| | |done|done|done|done].
    + intros x Hx. left. by apply Hh.
    + intros x. rewrite fill_hole_true. pose proof (Hmine x). tauto.
  - rewrite Hsp, Hl, <-Ef, <-Ek. eapply spans_put; [eapply spans_pend; [exact Hs|done|done]|done| | |done|by left].
    + rewrite dom_insert_L. set_solver.
    + rewrite dom_insert_L. set_solver.
  - apply Hok.
  - rewrite Hi. apply Hok.
Qed.

(** ... and goes to the free lists. *)
Lemma merge_placed hole rel G F nsp h c sc f k loc :
  heap_ok (Some c) hole rel (<[c := (f, k)]> G) F nsp h → spans h !! c = Some sc → c ∉ dom G → F !! c = None →
  location sc = loc → loc ≠ IN_USE → hole (f - 1) = false → hole (f + k) = false →
  wp md (MergeIntoFreeList cfg now c) (λ _ h', ∃ G' F' sp, heap_ok None hole rel G' F' nsp h' ∧
    same_used G F G' F' ∧ kept loc F F' ∧ F' !! c = Some sp ∧ location sp = loc ∧ k ≤ num_pages sp) h.
Proof.
  intros Hok Hsc Hc HcF <- Hloc H1 H2.
  assert (first_page sc = f ∧ num_pages sc = k) as [Ef Ek].
  { pose proof (sk_range _ _ _ _ _ (hk_spans _ _ _ _ _ _ _ _ _ Hok) c sc Hsc) as E.
    rewrite lookup_insert_eq in E. by injection E as -> ->. }
  apply wp_total. eapply wp_mono; [apply (MergeIntoFreeList_spec cfg tagged_ now c sc hole rel _ F nsp h Hok Hsc); congruence|].
  intros [] h' (G' & F' & n' & sp' & Hn' & Hok' & Hp' & Hl' & Hf1 & Hf2 & Hu & Hk' & _).
  exists G', F', sp'. split_and!; [by eapply heap_weaken| |done|done|done|lia].
  intros q. destruct (decide (q = c)) as [->|Hq].
  - unfold live. rewrite Hp', HcF. symmetry. by apply not_elem_of_dom.
  - rewrite (Hu q Hq). unfold live. by rewrite lookup_insert_ne.
Qed.

Lemma give_back_spec hole rel G F nsp h f k loc :
  heap_ok None hole rel G F nsp h → can_make md 1 nsp → (∀ x, f ≤ x < f + k → hole x = true) → 0 < k → loc ≠ IN_USE →
  fill_hole hole f k (f - 1) = false → fill_hole hole f k (f + k) = false →
  wp md (give_back cfg stale now f k loc) (λ _ h', ∃ G' F', heap_ok None (fill_hole hole f k) rel G' F' (nsp - 1) h' ∧
    same_used G F G' F') h.
Proof.
  intros Hok Hcan Hh Hk Hloc H1 H2. pose proof (kPageSize_pos cfg) as HP.
  assert (∀ x, f ≤ x < f + k → covered (pagemap_ h) x ∧ 0 < x < 2 ^ 34) as Hpage.
  { intros x Hx. destruct (po_page _ _ _ _ _ _ _ (hk_pages _ _ _ _ _ _ _ _ _ Hok) x) as (? & ? & _ & ? & _);
      [right; by apply Hh|]. split; [done|nia]. }
  destruct (Hpage f ltac:(lia)) as [Hc1 Hf], (Hpage (f + k - 1) ltac:(lia)) as [Hc2 Hl].
  unfold give_back. wp_step. eapply Span_New_spec; [apply Hok|done|]. intros c a' Hc0 Hc Ha' Hm'.
  destruct (unused_free _ _ _ _ _ _ (hk_spans _ _ _ _ _ _ _ _ _ Hok) Hc) as [HcF _].
  wp_step. eapply update_span_spec; [by apply lookup_insert_eq|]. simpl. rewrite insert_insert_eq.
  wp_step. eapply RecordSpan_spec; [by apply lookup_insert_eq|..]; simpl; [lia|lia|lia|done|done|].
  intros m' Hcov H3 H4 H5. eapply wp_mono.
  - eapply (merge_placed _ rel G F (nsp - 1) _ c _ f k loc); [|by apply lookup_insert_eq|done|done|done|done|exact H1|exact H2].
    eapply placed_ok; [exact Hok|done|done|done|done| | | |exact Ha'|exact Hm'|done|done|done|done|exact Hcov|done|done|done]; done.
  - intros [] h' (G' & F' & sp & Hok' & Hu & _). eauto.
Qed.

(** ** Growing the heap *)

Lemma heap_system x hole rel G F n h o :
  heap_ok x hole rel G F n h → system_ok o → (∀ a, given (meta_system (span_allocator h)) a → given o a) →
  (system_up (meta_system (span_allocator h)) → system_up o) →
  heap_ok x hole rel G F n (with_pool (meta_put o (span_allocator h)) h).
Proof.
  intros [H1 H2 H3 H4 H5 H6 H7] Ho Hg Hup. split; try done.
  - simpl. by eapply meta_put_law.
  - simpl. rewrite meta_get_put. by eapply pages_system.
Qed.

Lemma pages_cover hole G cov cov' desc desc' (o : OS) :
  pages_ok hole G cov desc o → (∀ x, cov x → cov' x) → (∀ x, desc' x = desc x) → pages_ok hole G cov' desc' o.
Proof.
  intros [H1 H2 H3 H4 H5] Hc Hd. split; [|done|done| |].
  - intros p f k Hp. rewrite !Hd. by apply H1.
  - intros x Hx. destruct (H4 x Hx) as (? & ? & ? & ? & ? & ? & ?). split_and!; [done|done|auto|auto|auto|done|done].
  - intros x Hx. rewrite Hd. by apply H5.
Qed.

(** New pages. *)
Lemma pages_grow hole G cov desc (o : OS) f k :
  pages_ok hole G cov desc o → (∀ x, f ≤ x < f + k → page_ok cfg tagged_ cov o x ∧ ¬ owned G hole x) →
  pages_ok (λ x, hole x || ((f <=? x) && (x <? f + k))) G cov desc o.
Proof.
  intros [H1 H2 H3 H4 H5] Hnew.
  assert (∀ x, hole x || ((f <=? x) && (x <? f + k)) = true ↔ hole x = true ∨ f ≤ x < f + k) as Hh.
  { intros x. by rewrite orb_true_iff, andb_true_iff, Z.leb_le, Z.ltb_lt. }
  split; [done|done| | |].
  - intros p r x Hp Hin. destruct (_ || _) eqn:E; [|done]. apply Hh in E as [E|E].
    + by rewrite (H3 p r x) in E.
    + destruct (Hnew x E) as [_ []]. left. eauto.
  - intros x [Hx|[Hx|Hx]%Hh]; [by apply H4; left|by apply H4; right|by apply Hnew].
  - intros x Hx. apply H5. intros [?|?]; apply Hx; [by left|right]. apply Hh. by left.
Qed.

Lemma page_div a : 0 ≤ a → a ≫ kPageShift cfg = a / kPageSize cfg.
Proof.
  intros Ha. assert (0 ≤ kPageShift cfg) by (on_config cfg; by vm_compute).
  unfold kPageSize. by rewrite Z.shiftr_div_pow2, Z.shiftl_1_l.
Qed.

Lemma heap_hole x hole hole' rel G F n h :
  heap_ok x hole rel G F n h → (∀ y, hole' y = hole y) → heap_ok x hole' rel G F n h.
Proof. intros [H1 H2 H3 H4 H5 H6 H7] E. split; try done. by eapply pages_hole. Qed.

(** The new pages become a span that is free. *)
Lemma new_pages_spec rel G F nsp h f k n :
  heap_ok None no_hole rel G F nsp h → can_make md 1 nsp → 0 < n ≤ k →
  (∀ x, f ≤ x < f + k →
    page_ok cfg tagged_ (covered (pagemap_ h)) (meta_system (span_allocator h)) x ∧ ¬ owned G no_hole x) →
  wp md (span ← Span_New stale f k; RecordSpan span;; update_span span (set_location ON_RETURNED_FREELIST);;
    MergeIntoFreeList cfg now span;; ok ← Check; require ok;; mret true)
    (λ b h', b = true ∧ ∃ G' F', same_used G F G' F' ∧ heap_ok None no_hole rel G' F' (nsp - 1) h' ∧
      kept ON_RETURNED_FREELIST F F' ∧ ∃ p sp, F' !! p = Some sp ∧ n ≤ num_pages sp) h.
Proof.
  intros Hok Hcan Hn Hnew. pose proof (kPageSize_pos cfg) as HP.
  destruct (Hnew f ltac:(lia)) as [(Hf & _ & _ & Hc1 & _) _].
  destruct (Hnew (f + k - 1) ltac:(lia)) as [(_ & Hl & _ & Hc2 & _) _].
  set (hole := λ x, no_hole x || ((f <=? x) && (x <? f + k))).
  assert (heap_ok None hole rel G F nsp h) as Hok1.
  { destruct Hok as [H1 H2 H3 H4 H5 H6 H7]. split; try done. by apply pages_grow. }
  assert (∀ x, hole x = true ↔ f ≤ x < f + k) as Hh.
  { intros x. unfold hole, no_hole. by rewrite orb_false_l, andb_true_iff, Z.leb_le, Z.ltb_lt. }
  assert (∀ x, fill_hole hole f k x = false) as Hfill.
  { intros x. destruct (fill_hole hole f k x) eqn:E; [|done]. apply fill_hole_true in E as [?%Hh ?]. done. }
  wp_step. eapply Span_New_spec; [apply Hok|done|]. intros c a' Hc0 Hc Ha' Hm'.
  destruct (unused_free _ _ _ _ _ _ (hk_spans _ _ _ _ _ _ _ _ _ Hok) Hc) as [HcF _].
  wp_step. eapply RecordSpan_spec; [by apply lookup_insert_eq|..]; simpl; [lia|lia|nia|done|done|].
  intros m' Hcov H3 H4 H5.
  wp_step. eapply update_span_spec; [by apply lookup_insert_eq|]. simpl. rewrite insert_insert_eq.
  wp_step. eapply wp_mono.
  - eapply (merge_placed (fill_hole hole f k) rel G F (nsp - 1) _ c _ f k ON_RETURNED_FREELIST);
      [|by apply lookup_insert_eq|done|done|done|done|done|done].
    eapply placed_ok; [exact Hok1|apply Hh|lia|done|done| | | |exact Ha'|exact Hm'|done|done|done|done|exact Hcov|done|done|done];
      done.
  - intros [] h' (G' & F' & sp & Hok' & Hu & Hkept & Hp & _ & Hk'). wp_step. eapply Check_spec; [apply Hok'|].
    wp_step. wp_step; [done|]. wp_step. split; [done|]. exists G', F'.
    split_and!; [done|by eapply heap_hole|done|]. exists c, sp. split; [done|lia].
Qed.

Lemma valid_bytes n : n ≤ kMaxValidPages cfg → n * kPageSize cfg < 2 ^ 64.
Proof.
  intros Hn. assert (kMaxValidPages cfg * kPageSize cfg < 2 ^ 64) by (on_config cfg; by vm_compute).
  pose proof (kPageSize_pos cfg). nia.
Qed.

Lemma heap_env x hole rel G F n h m b :
  heap_ok x hole rel G F n h → (∀ y, covered (pagemap_ h) y → covered m y) →
  (∀ y, span_at m y = span_at (pagemap_ h) y) → free_bytes b = free_bytes (backing h) →
  unmapped_bytes b = unmapped_bytes (backing h) →
  heap_ok x hole rel G F n (with_map m (with_backing b h)).
Proof.
  intros [H1 H2 H3 H4 H5 H6 H7] Hc Hs Hf Hu. split; try done.
  - unfold backing_ok in *. simpl. by rewrite Hf, Hu.
  - by eapply pages_cover.
Qed.

Lemma GrowHeap_spec rel G F nsp h n :
  heap_ok None no_hole rel G F nsp h → can_make md 1 nsp → 0 < n →
  wp md (GrowHeap cfg tagged_ stale now n) (λ b h', ∃ G' F', same_used G F G' F' ∧
    if b : bool then heap_ok None no_hole rel G' F' (nsp - 1) h' ∧ kept ON_RETURNED_FREELIST F F' ∧
      ∃ p sp, F' !! p = Some sp ∧ n ≤ num_pages sp
    else heap_ok None no_hole rel G' F' nsp h') h.
Proof.
  intros Hok Hcan Hn. pose proof (kPageSize_pos cfg) as HP. destruct (kPageSize_pow cfg) as [Epow Hshift]. unfold GrowHeap.
  destruct (Z.ltb_spec (kMaxValidPages cfg) n) as [|Hmax]; [wp_step; by exists G, F|].
  pose proof (valid_bytes n Hmax) as Hbytes.
  assert (n ≪ kPageShift cfg = n * kPageSize cfg) as -> by (rewrite Epow; apply Z.shiftl_mul_pow2; lia).
  rewrite u64_id by nia. wp_step. set (o := meta_system (span_allocator h)).
  pose proof (system_alloc_law (n * kPageSize cfg) (kPageShift cfg) tagged_ o) as Hlaw. rewrite <-Epow in Hlaw.
  eapply on_part_spec; [apply Hlaw; [eapply meta_ok, Hok|nia|lia]|]. clear Hlaw.
  intros r o' (Ho' & Hup' & Hg' & Hr). pose proof (heap_system _ _ _ _ _ _ _ o' Hok Ho' Hg' Hup') as Hok1.
  destruct r as [[ptr act]|]; [|wp_step; by exists G, F].
  destruct (Hr ptr act eq_refl) as (Hup & Hptr & Hact & Hend & Hal & Hfresh). clear Hr.
  change (2 ^ (kAddressBits - 2)) with (2 ^ 46) in Hend.
  rewrite !page_div by lia. set (f := ptr / kPageSize cfg). set (k := act / kPageSize cfg).
  assert (ptr = f * kPageSize cfg) as Ef by (pose proof (Z.div_mod ptr (kPageSize cfg)); lia).
  assert (k * kPageSize cfg ≤ act < (k + 1) * kPageSize cfg) as Ek.
  { pose proof (Z.div_mod act (kPageSize cfg)). pose proof (Z.mod_pos_bound act (kPageSize cfg)). lia. }
  assert (0 < f ∧ n ≤ k ∧ (f + k) * kPageSize cfg ≤ 2 ^ 46) as (Hf & Hk & Hfk) by nia.
  cbv zeta. wp_step. wp_step. wp_step. wp_step; [by apply Z.ltb_lt|]. wp_step. rewrite !u64_id by nia.
  eapply on_part_spec; [apply ensure_law; nia|]. intros b m' (Hcov & Hspan & _ & _ & Htrue & _).
  set (h2 := with_map m' _). assert (heap_ok None no_hole rel G F nsp h2) as Hok2 by (by apply heap_env).
  assert (meta_system (span_allocator h2) = o') as Eo by apply meta_get_put.
  destruct b.
  - eapply wp_mono; [apply (new_pages_spec rel G F nsp h2 f k n); [done|done|lia|]|].
    + intros x Hx. rewrite Eo. split.
      * split_and!; [lia|nia|apply Htrue; [done|lia]|apply Htrue; [done|lia]|apply Htrue; [done|lia]|done|].
        intros a Ha. destruct (Hfresh a) as (_ & ? & ?); [nia|]. done.
      * intros Hown. destruct (po_page _ _ _ _ _ _ _ (hk_pages _ _ _ _ _ _ _ _ _ Hok) x Hown) as (_ & _ & _ & _ & _ & _ & Ha).
        destruct (Ha (x * kPageSize cfg)) as [Hgiven _]; [lia|]. destruct (Hfresh (x * kPageSize cfg)) as [Hno _]; [nia|]. done.
    + intros b h' (-> & G' & F' & Hu & H1 & H2 & H3). by exists G', F'.
  - wp_step. eapply on_part_spec.
    { cbv beta. rewrite Eo. apply (system_release_law ptr act o'); [done|done|lia|lia|].
      change (2 ^ kAddressBits) with (2 ^ 48). lia. }
    intros [] o2 (Ho2 & Hup2 & Hg2). wp_step. exists G, F. split; [done|].
    apply heap_system; [done|done| |done]. intros a. rewrite Eo. apply Hg2.
Qed.

(** ** [AllocateSpan] *)

Lemma taken_same p n G F G1 F1 G' F' : same_used G F G1 F1 → taken p n G1 F1 G' F' → taken p n G F G' F'.
Proof.
  intros Hs (H1 & H2 & H3). split_and!; [by rewrite <-Hs|done|]. intros q Hq. by rewrite <-Hs, <-H3.
Qed.

Definition alloc_post rel (nsp : nat) n G F (r : option Z) h' : Prop :=
  ∃ G' F', heap_ok None no_hole rel G' F' nsp h' ∧
    match r with None => same_used G F G' F' | Some p => taken p n G F G' F' end.

Lemma AllocateSpan_spec rel G F nsp h n :
  heap_ok None no_hole rel G F nsp h → can_make md 2 nsp → 0 < n →
  wp md (AllocateSpan cfg tagged_ stale now n) (λ r, alloc_post rel (nsp - 2) n G F (fst <$> r)) h.
Proof.
  intros Hok [Hcan1 Hcan2]%(can_make_split md 1 1) Hn.
  unfold AllocateSpan. wp_step. eapply Check_spec; [apply Hok|]. wp_step. wp_step; [done|].
  wp_step. eapply wp_mono; [by eapply (Search_spec cfg tagged_ stale no_hole rel G F nsp)|].
  intros [[p fr]|] h1 Hr; simpl in Hr.
  { destruct Hr as (sp & G' & F' & _ & _ & _ & Hok' & Ht). wp_step. exists G', F'.
    split; [by eapply heap_weaken; [|exact Hok']; lia|done]. }
  destruct Hr as [-> Hsmall]. wp_step. eapply wp_mono; [by apply (GrowHeap_spec rel G F nsp)|].
  intros [] h2 (G2 & F2 & Hu2 & H2).
  - destruct H2 as (Hok2 & Hkept & p2 & sp2 & Hp2 & Hn2). wp_step.
    eapply wp_mono; [by eapply (Search_spec cfg tagged_ stale no_hole rel G2 F2 (nsp - 1))|].
    intros [[p fr]|] h3 Hr; simpl in Hr.
    + destruct Hr as (sp & G' & F' & Hp & Hl & [Hge _] & Hok' & Ht). destruct fr; simpl in Hl.
      * wp_step. wp_step; [done|]. wp_step. exists G', F'.
        split; [by eapply heap_weaken; [|exact Hok']; lia|]. by eapply taken_same.
      * apply Hkept in Hp; [|by rewrite Hl]. pose proof (Hsmall p sp Hp). lia.
    + destruct Hr as [_ Hr]. pose proof (Hr p2 sp2 Hp2). lia.
  - wp_step. eapply Check_spec; [apply H2|]. wp_step. wp_step; [done|]. wp_step. exists G2, F2.
    split; [by eapply heap_weaken; [|exact H2]; lia|done].
Qed.
End New.
