(* ===== verification/TcPageHeapOps.v ===== *)
(** * tcmalloc: the operations of the page heap

    [New], [NewAligned], [Delete] and releasing memory, from the invariant of the
    heap to the invariant. *)

From S2P Require Import Prelude.
From S2P Require Import TcCommon.
From S2P Require Import TcSpan.
From S2P Require Import TcPageMap.
From S2P Require Import TcPageMapCorrect.
From S2P Require Import TcLinkedList.
From S2P Require Import TcSystemAlloc.
From S2P Require Import TcSystemAllocCorrect.
From S2P Require Import TcArena.
From S2P Require Import TcArenaCorrect.
From S2P Require Import TcPageHeap.
From S2P Require Import TcPageHeapLists.
From S2P Require Import TcPageHeapInv.
From S2P Require Import TcPageHeapMerge.
From S2P Require Import TcPageHeapCarve.
From S2P Require Import TcPageHeapAlloc.
From S2P Require Import TcPageHeapNew.

Section Ops.
Context (cfg : config) {M A OS : Type}.
Context `{!PageMapImpl M, !SystemMemory OS, !ObjectPool A, !MetaMemory A OS}.
Context {bits hb : Z} {reliable : Prop}.
Context {HML : PageMapLaws M bits hb reliable} {HSL : SystemMemoryLaws OS}.
Context {HPL : ObjectPoolLaws A} {HMM : MetaMemoryLaws A OS}.
Context (tagged_ : bool) (stale : Span) (now : nat → Z) {md : mode}.

Local Abbreviation PageHeap := (PageHeap (M := M) (A := A)).
Local Abbreviation heap_ok := (heap_ok cfg tagged_).
Implicit Types (G : gmap Z range) (F : gmap Z Span) (h : PageHeap) (hole : Z → bool).

(** A span in use: its object and its pages. *)
Lemma used_span hole rel G F n h p f k :
  heap_ok None hole rel G F n h → live G F p = Some (f, k) →
  ∃ sp, spans h !! p = Some sp ∧ first_page sp = f ∧ num_pages sp = k ∧ location sp = IN_USE ∧
    F !! p = None ∧ G !! p = Some (f, k) ∧ IsTaggedMemory (start_address cfg sp) = tagged_.
Proof.
  intros Hok Hu. unfold live in Hu. destruct (F !! p) eqn:HF; [done|].
  pose proof (hk_spans _ _ _ _ _ _ _ _ _ Hok) as Hs. pose proof (hk_pages _ _ _ _ _ _ _ _ _ Hok) as Hpg.
  destruct (span_of _ _ _ _ _ Hs p f k Hu) as (sp & Hsp & Ef & Ek). exists sp.
  split_and!; [done|done|done|by apply (sk_used _ _ _ _ _ Hs p)|done|done|].
  destruct (span_bounds _ _ _ _ _ _ _ Hpg p f k Hu) as (_ & Hf & Hk & Hb & _). pose proof (kPageSize_pos cfg) as HP.
  destruct (po_page _ _ _ _ _ _ _ Hpg f) as (_ & _ & _ & _ & _ & _ & Ha); [eapply span_owned; [done|lia]|].
  unfold start_address. change (first_page_ sp) with (first_page sp). rewrite Ef, u64_id by nia. apply Ha. lia.
Qed.

Lemma check_tag_spec rel G F n h p f k (Q : unit → PageHeap → Prop) :
  heap_ok None no_hole rel G F n h → live G F p = Some (f, k) → Q tt h → wp md (check_tag cfg tagged_ p) Q h.
Proof.
  intros Hok Hu HQ. destruct (used_span _ _ _ _ _ _ _ _ _ Hok Hu) as (sp & Hsp & _ & _ & _ & _ & _ & Ht).
  unfold check_tag. wp_step. eapply get_span_spec; [done|]. wp_step; [|done]. rewrite Ht. apply eqb_reflx.
Qed.

Lemma New_spec rel G F nsp h n :
  heap_ok None no_hole rel G F nsp h → can_make md 2 nsp → 0 < n →
  wp md (PageHeap_New cfg tagged_ stale now n) (alloc_post cfg tagged_ rel (nsp - 2) n G F) h.
Proof.
  intros Hok Hcan Hn. unfold PageHeap_New. wp_step. wp_step; [by apply Z.ltb_lt|]. wp_step.
  eapply wp_mono; [by apply (AllocateSpan_spec cfg tagged_ stale now rel G F nsp)|].
  intros [[p fr]|] h' (G' & F' & Hok' & Hr); simpl in Hr; [|wp_step; by exists G', F'].
  pose proof Hr as (_ & [f Hf] & _). wp_step. eapply check_tag_spec; [done|done|]. wp_step. by exists G', F'.
Qed.

(** The span [p] went back to the heap. *)
Definition given_back (p : Z) G F G' F' : Prop := live G' F' p = None ∧ ∀ q, q ≠ p → live G' F' q = live G F q.

Lemma Delete_spec rel G F n h p f k :
  heap_ok None no_hole rel G F n h → live G F p = Some (f, k) →
  wp md (PageHeap_Delete cfg tagged_ now p) (λ _ h', ∃ G' F', heap_ok None no_hole rel G' F' n h' ∧
    given_back p G F G' F') h.
Proof.
  intros Hok Hu. destruct (used_span _ _ _ _ _ _ _ _ _ Hok Hu) as (sp & Hsp & Ef & Ek & Hl & HF & HG & Ht).
  pose proof (hk_spans _ _ _ _ _ _ _ _ _ Hok) as Hs. pose proof (hk_pages _ _ _ _ _ _ _ _ _ Hok) as Hpg.
  destruct (span_bounds _ _ _ _ _ _ _ Hpg p f k HG) as (_ & Hf & Hk & _ & Hb).
  destruct (po_span _ _ _ _ _ _ _ Hpg p f k HG) as (_ & _ & H1 & H2).
  unfold PageHeap_Delete. wp_step. eapply get_span_spec; [done|]. rewrite Ht, eqb_reflx.
  wp_step. wp_step; [done|]. wp_step. eapply Check_spec; [apply Hok|]. wp_step. wp_step; [done|].
  wp_step. wp_step; [by apply bool_decide_eq_true_2|].
  wp_step. wp_step; [by rewrite (sk_sampled _ _ _ _ _ Hs p sp Hsp)|]. wp_step. wp_step; [apply Z.ltb_lt; lia|].
  wp_step. apply GetDescriptor_spec; [lia|]. rewrite Ef, H1, Z.eqb_refl. wp_step. wp_step; [done|].
  wp_step. rewrite last_page_eq, Ef, Ek by lia. apply GetDescriptor_spec; [lia|]. rewrite H2, Z.eqb_refl.
  wp_step. wp_step; [done|]. wp_step. eapply update_span_spec; [done|]. wp_step.
  set (h1 := with_spans _ h). set (sp1 := set_location ON_NORMAL_FREELIST sp) in *.
  assert (heap_ok (Some p) no_hole rel G F n h1) as Hok1.
  { apply (heap_touch cfg tagged_ p sp sp1); [|done..]. destruct Hok as [? ? ? ? ? ? ?]. split; try done.
    by eapply spans_pend. }
  apply wp_total. eapply wp_mono; [apply (MergeIntoFreeList_spec cfg tagged_ now p sp1 no_hole rel G F n h1);
    [done|by apply lookup_insert_eq|done|done|done]|].
  intros [] h' (G' & F' & n' & sp' & Hn' & Hok' & Hp' & _ & _ & _ & Hu' & _).
  wp_step. eapply Check_spec; [apply Hok'|]. wp_step. wp_step; [done|]. wp_step. exists G', F'.
  split; [by eapply heap_weaken|]. split; [|done]. unfold live. by rewrite Hp'.
Qed.

(** ** [NewAligned] *)

Definition aligned_post rel (nsp : nat) n j G F (r : option Z) h' : Prop :=
  ∃ G' F', heap_ok None no_hole rel G' F' nsp h' ∧
    match r with
    | None => same_used G F G' F'
    | Some p => live G F p = None ∧ (∃ f, live G' F' p = Some (f, n) ∧ f mod 2 ^ j = 0) ∧
        ∀ q, q ≠ p → live G' F' q = live G F q
    end.

(** A part of the hole is given back, if there is one. *)
Lemma give_back_opt hole rel G F nsp h f k loc :
  heap_ok None hole rel G F nsp h → can_make md 1 nsp → (∀ x, f ≤ x < f + k → hole x = true) → loc ≠ IN_USE →
  fill_hole hole f k (f - 1) = false → fill_hole hole f k (f + k) = false →
  wp md (if 0 <? k then give_back cfg stale now f k loc else mret tt)
    (λ _ h', ∃ G' F', heap_ok None (fill_hole hole f k) rel G' F' (nsp - 1) h' ∧ same_used G F G' F') h.
Proof.
  intros Hok Hcan Hh Hloc H1 H2. destruct (Z.ltb_spec 0 k) as [Hk|Hk]; [by apply give_back_spec|].
  wp_step. exists G, F. split; [|done]. eapply heap_hole; [by eapply heap_weaken; [|exact Hok]; lia|].
  intros y. unfold fill_hole. destruct (Z.leb_spec f y), (Z.ltb_spec y (f + k)); simpl; try lia; by rewrite andb_true_r.
Qed.

(** The span [p] keeps the pages [f' .. f'+n) of its own; the rest is the hole. *)
Lemma shrink_ok rel G F nsp h p sp f k f' n m' :
  heap_ok None no_hole rel G F nsp h → live G F p = Some (f, k) → spans h !! p = Some sp →
  f ≤ f' → 0 < n → f' + n ≤ f + k → (∀ x, covered (pagemap_ h) x → covered m' x) → span_at m' f' = p →
  span_at m' (f' + n - 1) = p → (∀ x, ¬ (f' ≤ x < f' + n) → span_at m' x = span_at (pagemap_ h) x) →
  heap_ok None (λ x, (f <=? x) && (x <? f + k) && negb ((f' <=? x) && (x <? f' + n))) rel (<[p := (f', n)]> G) F nsp
    (with_map m' (with_spans (<[p := set_num_pages n (set_first_page f' sp)]> (spans h)) h)).
Proof.
  intros Hok Hu Hsp Hf Hn Hb Hcov H1 H2 H3.
  destruct (used_span _ _ _ _ _ _ _ _ _ Hok Hu) as (sp0 & Hsp0 & _ & _ & Hl & HF & HG & _).
  assert (sp0 = sp) as -> by congruence. destruct Hok as [K1 K2 K3 K4 K5 K6 K7].
  assert (p ∈ dom G) as HpG by (by apply elem_of_dom_2 in HG). split; [|done|done| | |done|done].
  - simpl. rewrite dom_insert_L. by replace ({[p]} ∪ dom G) with (dom G) by set_solver.
  - eapply pages_place; [exact K4| |done| | |done|done|done|done].
    + by apply (po_span _ _ _ _ _ _ _ K4 p f k HG).
    + intros x Hx. right. exists (f, k). split; [done|]. unfold in_range. simpl. lia.
    + intros x. rewrite !andb_true_iff, negb_true_iff, andb_false_iff, Z.leb_le, Z.ltb_lt, Z.leb_gt, Z.ltb_ge.
      unfold mine, no_hole. rewrite HG. split.
      * intros [Hx Hx']. split; [|lia]. right. by exists (f, k).
      * intros [[?|(r & [= <-] & Hx)] Hx']; [done|]. unfold in_range in Hx. simpl in Hx. lia.
  - simpl. eapply (spans_put None G F (spans h) (dom (lists h)) K5 _ p (set_num_pages n (set_first_page f' sp)));
      [done|done|by apply (sk_item _ _ _ _ _ K5)|by apply (sk_sampled _ _ _ _ _ K5 p sp)|by right].
Qed.

(** What is before and after the aligned part goes back to the heap. *)
Lemma trim_spec hole rel G F nsp h p f al n after loc :
  heap_ok None hole rel G F nsp h → can_make md 2 nsp → loc ≠ IN_USE → 0 < n → f ≤ al → 0 ≤ after →
  (∀ x, hole x = true ↔ f ≤ x < al ∨ al + n ≤ x < al + n + after) → live G F p = Some (al, n) →
  wp md (
    (if 0 <? al - f then give_back cfg stale now f (al - f) loc else mret tt);;
    (if 0 <? after then give_back cfg stale now (al + n) after loc else mret tt);;
    check_tag cfg tagged_ p;; mret (Some p))
    (λ r h', r = Some p ∧ ∃ G' F', heap_ok None no_hole rel G' F' (nsp - 2) h' ∧ same_used G F G' F') h.
Proof.
  intros Hok [Hcan1 Hcan2]%(can_make_split md 1 1) Hloc Hn Hal Hafter Hh Hu.
  wp_step. eapply wp_mono; [apply (give_back_opt hole rel _ F nsp h f (al - f) loc Hok Hcan1)|].
  { intros x Hx. apply Hh. lia. }
  { done. }
  { apply not_true_iff_false. rewrite fill_hole_true, Hh. lia. }
  { apply not_true_iff_false. rewrite fill_hole_true, Hh. lia. }
  intros [] h3 (G3 & F3 & Hok3 & Hs3).
  wp_step. eapply wp_mono; [apply (give_back_opt _ rel G3 F3 (nsp - 1) h3 (al + n) after loc Hok3 Hcan2)|].
  { intros x Hx. rewrite fill_hole_true, Hh. lia. }
  { done. }
  { apply not_true_iff_false. rewrite !fill_hole_true, Hh. lia. }
  { apply not_true_iff_false. rewrite !fill_hole_true, Hh. lia. }
  intros [] h4 (G4 & F4 & Hok4 & Hs4).
  assert (heap_ok None no_hole rel G4 F4 (nsp - 2) h4) as Hok5.
  { replace (nsp - 2)%nat with (nsp - 1 - 1)%nat by lia. eapply heap_hole; [exact Hok4|]. intros x. symmetry. apply not_true_iff_false. rewrite !fill_hole_true, Hh. lia. }
  assert (live G4 F4 p = Some (al, n)) as Hu4 by (by rewrite Hs4, Hs3).
  wp_step. eapply check_tag_spec; [done|done|]. wp_step. split; [done|]. exists G4, F4. split; [done|].
  intros q. by rewrite Hs4, Hs3.
Qed.

Lemma NewAligned_spec rel G F nsp h n j :
  heap_ok None no_hole rel G F nsp h → can_make md 4 nsp → 0 < n → 0 ≤ j < 64 → n + 2 ^ j ≤ 2 ^ 64 →
  wp md (PageHeap_NewAligned cfg tagged_ stale now n (2 ^ j)) (aligned_post rel (nsp - 4) n j G F) h.
Proof.
  intros Hok [Hcan1 Hcan2]%(can_make_split md 2 2) Hn Hj Hnj. assert (0 < 2 ^ j) as Hpj by lia. unfold PageHeap_NewAligned.
  wp_step. wp_step; [by apply Z.ltb_lt|]. rewrite (u64_id (2 ^ j - 1)) by lia. wp_step. wp_step.
  { rewrite land_mask, Z.mod_same by lia. done. }
  destruct (Z.leb_spec (2 ^ j) 1) as [H1|H1].
  { eapply wp_mono; [by apply (New_spec rel G F nsp)|]. intros r h' (G' & F' & Hok' & Hr). exists G', F'.
    split; [by eapply heap_weaken; [|exact Hok']; lia|]. destruct r as [p|]; [|done].
    destruct Hr as (Ha & [f Hf] & Hc). split_and!; [done| |done]. exists f. split; [done|].
    assert (2 ^ j = 1) as -> by lia. apply Z.mod_1_r. }
  cbv zeta. wp_step. rewrite u64_id by lia.
  eapply wp_mono; [apply (AllocateSpan_spec cfg tagged_ stale now rel G F nsp); [done|done|lia]|].
  intros [[p fr]|] h1 (G1 & F1 & Hok1 & Hr); simpl in Hr.
  2: { wp_step. exists G1, F1. split; [by eapply heap_weaken; [|exact Hok1]; lia|done]. }
  destruct Hr as (Hu0 & [f Hu] & Hrest).
  destruct (used_span _ _ _ _ _ _ _ _ _ Hok1 Hu) as (sp & Hsp & Ef & Ek & _ & _ & HG & _).
  destruct (span_bounds _ _ _ _ _ _ _ (hk_pages _ _ _ _ _ _ _ _ _ Hok1) p _ _ HG) as (_ & Hf & Hk & _ & Hb).
  wp_step. eapply get_span_spec; [done|]. rewrite Ef, Ek.
  rewrite (u64_id (f + (2 ^ j - 1))) by lia.
  rewrite land_wnot_mask by (unfold is_word; lia). set (al := f + (2 ^ j - 1) - (f + (2 ^ j - 1)) mod 2 ^ j).
  assert (f ≤ al ≤ f + (2 ^ j - 1)) as Hal by (pose proof (Z.mod_pos_bound (f + (2 ^ j - 1)) (2 ^ j)); lia).
  assert (al mod 2 ^ j = 0) as Hmod.
  { unfold al. by rewrite Zminus_mod_idemp_r, Z.sub_diag. }
  rewrite (u64_id (al + n)), (u64_id (f + (n + (2 ^ j - 1)))), (u64_id (al - f)) by lia.
  rewrite (u64_id (2 ^ j - 1 - (al - f))) by lia. set (after := 2 ^ j - 1 - (al - f)).
  wp_step. wp_step; [by apply Z.eqb_eq|]. wp_step. wp_step; [apply Z.leb_le; lia|].
  wp_step. wp_step; [apply Z.leb_le; lia|].
  wp_step. eapply update_span_spec; [done|]. wp_step. eapply update_span_spec; [by apply lookup_insert_eq|].
  simpl. rewrite insert_insert_eq. wp_step.
  eapply RecordSpan_spec; [by apply lookup_insert_eq|..]; simpl; [lia|lia|lia| | |].
  { eapply span_covered; [apply Hok1|done|]. simpl. lia. }
  { eapply span_covered; [apply Hok1|done|]. simpl. lia. }
  intros m' Hcov Hm1 Hm2 Hm3.
  pose proof (shrink_ok rel G1 F1 (nsp - 2) h1 p sp _ _ al n m' Hok1 Hu Hsp ltac:(lia) Hn ltac:(lia) Hcov Hm1 Hm2 Hm3) as Hok2.
  set (hole := λ x, _ && negb _) in Hok2. set (h2 := with_map m' _) in Hok2 |- *.
  assert (∀ x, hole x = true ↔ f ≤ x < al ∨ al + n ≤ x < al + n + after) as Hh.
  { intros x. unfold hole. rewrite !andb_true_iff, negb_true_iff, andb_false_iff, Z.leb_le, Z.ltb_lt, Z.leb_gt, Z.ltb_ge. lia. }
  assert (live (<[p := (al, n)]> G1) F1 p = Some (al, n)) as Hu2.
  { unfold live in *. destruct (F1 !! p); [done|]. apply lookup_insert_eq. }
  change (with_map m' (with_spans _ (with_spans _ h1))) with h2. clearbody h2 hole.
  set (loc := if fr then _ else _). assert (loc ≠ IN_USE) as Hloc by (by destruct fr).
  eapply wp_mono; [eapply (trim_spec hole rel _ F1 (nsp - 2) h2 p f al n after loc); [done|done|done|done|lia|lia|done|done]|].
  intros r h4 (-> & G4 & F4 & Hok4 & Hs4). exists G4, F4. split; [by eapply heap_weaken; [|exact Hok4]; lia|].
  split_and!; [done| |].
  - exists al. by rewrite Hs4.
  - intros q Hq. rewrite Hs4, <-(Hrest q Hq). unfold live. by rewrite lookup_insert_ne.
Qed.
End Ops.
