(* ===== verification/TcPageHeapRelease.v ===== *)
(** * tcmalloc: releasing memory of the page heap

    [ReleaseAtLeastNPages] returns free spans to the system until enough pages are
    returned or no backed free span is left. *)

From S2P Require Import Prelude.
From S2P Require Import TcCommon.
From S2P Require Import TcSpan.
From S2P Require Import TcPageMap.
From S2P Require Import TcPageMapCorrect.
From S2P Require Import TcLinkedList.
From S2P Require Import TcSystemAlloc.
From S2P Require Import TcSystemAllocCorrect.
From S2P Require Import TcArena.
From S2P Require Import TcArenaCorrect.
From S2P Require Import TcPageHeap.
From S2P Require Import TcPageHeapLists.
From S2P Require Import TcPageHeapInv.
From S2P Require Import TcPageHeapMerge.
From S2P Require Import TcPageHeapCarve.
From S2P Require Import TcPageHeapAlloc.
From S2P Require Import TcPageHeapNew.
From S2P Require Import TcPageHeapOps.

(** ** Backed free spans *)

Definition is_normal (x : Z * Span) : Prop := location x.2 = ON_NORMAL_FREELIST.
#[export] Instance is_normal_dec x : Decision (is_normal x).
Proof. unfold is_normal. apply _. Defined.
Definition normal (F : gmap Z Span) : gmap Z Span := filter is_normal F.

Lemma normal_lookup F p sp : normal F !! p = Some sp ↔ F !! p = Some sp ∧ location sp = ON_NORMAL_FREELIST.
Proof. apply map_lookup_filter_Some. Qed.

Lemma kept_normal F F' : kept ON_RETURNED_FREELIST F F' → normal F' = normal F.
Proof.
  intros Hk. apply map_eq. intros p. apply option_eq. intros sp. rewrite !normal_lookup.
  split; intros [Hp Hl]; (split; [|done]); apply (Hk p sp); by rewrite ?Hl.
Qed.

Lemma normal_delete F p : normal (delete p F) = delete p (normal F).
Proof. apply map_filter_delete. Qed.

Section Bytes.
Context (cfg : config).

Lemma kind_bytes_normal F : kind_bytes cfg false (normal F) = kind_bytes cfg false F.
Proof.
  induction F as [|p sp F Hp IH] using map_ind; [done|]. rewrite kind_bytes_insert by done. unfold normal.
  destruct (decide (location sp = kind_location false)) as [Hl|Hl].
  - rewrite map_filter_insert_True by done. rewrite kind_bytes_insert; [by rewrite decide_True, <-IH by done|].
    apply map_lookup_filter_None. by left.
  - rewrite map_filter_insert_False by done. rewrite <-IH. rewrite delete_id by done. done.
Qed.

(** Spans that are apart have no more pages than the address space. *)
Lemma pages_bound r F N :
  (∀ p sp, F !! p = Some sp → 0 ≤ first_page sp ∧ 0 < num_pages sp ∧ first_page sp + num_pages sp ≤ N) →
  (∀ p q sp sq x, F !! p = Some sp → F !! q = Some sq → first_page sp ≤ x < first_page sp + num_pages sp →
    first_page sq ≤ x < first_page sq + num_pages sq → p = q) → 0 ≤ N →
  0 ≤ kind_bytes cfg r F ≤ N * kPageSize cfg.
Proof.
  intros Hb Hu HN. pose proof (kPageSize_pos cfg) as HP.
  assert (∃ X : gset Z, kind_bytes cfg r F = Z.of_nat (size X) * kPageSize cfg ∧
    ∀ x, x ∈ X → ∃ p sp, F !! p = Some sp ∧ first_page sp ≤ x < first_page sp + num_pages sp) as (X & E & HX).
  { clear HN. induction F as [|p sp F Hp IH] using map_ind.
    - exists ∅. rewrite kind_bytes_empty, size_empty. split; [lia|set_solver].
    - destruct IH as (X & E & HX).
      { intros q sq Hq. apply (Hb q). rewrite lookup_insert_ne; [done|congruence]. }
      { intros q1 q2 s1 s2 x H1 H2. apply Hu; rewrite lookup_insert_ne; congruence. }
      destruct (Hb p sp) as (Hf & Hk & _); [apply lookup_insert_eq|].
      assert (∀ x, x ∈ X → ¬ (first_page sp ≤ x < first_page sp + num_pages sp)) as Hdis.
      { intros x Hx Hin. destruct (HX x Hx) as (q & sq & Hq & Hin'). assert (p = q) as <-; [|congruence].
        apply (Hu p q sp sq x); [apply lookup_insert_eq|rewrite lookup_insert_ne; congruence|done|done]. }
      rewrite kind_bytes_insert by done. case_decide as Hl.
      + exists (X ∪ list_to_set (seqZ (first_page sp) (num_pages sp))). split.
        * rewrite size_union, size_list_to_set, length_seqZ by (try apply NoDup_seqZ; intros x Hx
            %Hdis [??]%elem_of_list_to_set%elem_of_seqZ; lia). unfold span_bytes. lia.
        * intros x [Hx|Hx%elem_of_list_to_set%elem_of_seqZ]%elem_of_union.
          -- destruct (HX x Hx) as (q & sq & Hq & Hin). exists q, sq. rewrite lookup_insert_ne; [done|congruence].
          -- exists p, sp. rewrite lookup_insert_eq. done.
      + exists X. split; [lia|]. intros x Hx. destruct (HX x Hx) as (q & sq & Hq & Hin).
        exists q, sq. rewrite lookup_insert_ne; [done|congruence]. }
  assert (size X ≤ Z.to_nat N)%nat; [|nia].
  rewrite <-(length_seqZ 0 N), <-(size_list_to_set (C := gset Z) (seqZ 0 N)) by apply NoDup_seqZ.
  apply subseteq_size. intros x (p & sp & Hp & Hin)%HX. destruct (Hb p sp Hp) as (? & ? & ?).
  apply elem_of_list_to_set, elem_of_seqZ. lia.
Qed.
End Bytes.

Section Release.
Context (cfg : config) {M A OS : Type}.
Context `{!PageMapImpl M, !SystemMemory OS, !ObjectPool A, !MetaMemory A OS}.
Context {bits hb : Z} {reliable : Prop}.
Context {HML : PageMapLaws M bits hb reliable} {HSL : SystemMemoryLaws OS}.
Context {HPL : ObjectPoolLaws A} {HMM : MetaMemoryLaws A OS}.
Context (tagged_ : bool) (now : nat → Z).

Local Abbreviation PageHeap := (PageHeap (M := M) (A := A)).
Local Abbreviation heap_ok := (heap_ok cfg tagged_).
Implicit Types (G : gmap Z range) (F : gmap Z Span) (h : PageHeap).

Lemma free_bytes_bound r hole rel G F n h :
  heap_ok None hole rel G F n h → 0 ≤ kind_bytes cfg r F ≤ 2 ^ 46.
Proof.
  intros Hok. pose proof (kPageSize_pos cfg) as HP. pose proof (kPageSize_pow cfg) as [Epow Hsh].
  assert (2 ^ 46 = 2 ^ (46 - kPageShift cfg) * kPageSize cfg) as ->.
  { rewrite Epow, <-Z.pow_add_r by lia. f_equal. lia. }
  pose proof (hk_spans _ _ _ _ _ _ _ _ _ Hok) as Hs. pose proof (hk_pages _ _ _ _ _ _ _ _ _ Hok) as Hpg.
  apply pages_bound; [| |lia].
  - intros p sp Hp. destruct (free_span _ _ _ _ _ Hs p sp Hp) as [_ HG].
    destruct (span_bounds _ _ _ _ _ _ _ Hpg p _ _ HG) as (_ & Hf & Hk & Hb & _). split_and!; [lia|lia|].
    assert (2 ^ 46 = 2 ^ (46 - kPageShift cfg) * kPageSize cfg) as E.
    { rewrite Epow, <-Z.pow_add_r by lia. f_equal. lia. }
    rewrite E in Hb. nia.
  - intros p q sp sq x Hp Hq. destruct (free_span _ _ _ _ _ Hs p sp Hp) as [_ HpG], (free_span _ _ _ _ _ Hs q sq Hq) as [_ HqG].
    by apply (po_unique _ _ _ _ _ _ _ Hpg p q _ _ x HpG HqG).
Qed.

(** ** One span *)

Lemma release_begin_spec rel G F n h s :
  heap_ok None no_hole rel G F n h → 0 ≤ s ≤ kMaxPages cfg → (∃ p sp, F !! p = Some sp ∧ belongs cfg false s sp) →
  wp true (release_begin cfg s) (λ p h', ∃ sp, F !! p = Some sp ∧ belongs cfg false s sp ∧
    heap_ok None no_hole (rel + span_bytes cfg sp) G (delete p F) n h') h.
Proof.
  intros Hok Hs Hex. unfold release_begin. wp_step.
  eapply on_part_spec with (R := λ x l, l = lists h ∧ ∃ p sp, x = Item p ∧ F !! p = Some sp ∧ belongs cfg false s sp).
  { eapply last_spec; [apply Hok|done|done|]. eauto 10. }
  intros x l (-> & p & sp & -> & Hp & Hb). replace (with_lists (lists h) h) with h by (by destruct h).
  pose proof (hk_spans _ _ _ _ _ _ _ _ _ Hok) as Hsp. destruct (free_span _ _ _ _ _ Hsp p sp Hp) as [HpS HpG].
  destruct (sk_free _ _ _ _ _ Hsp p sp Hp) as (_ & Hl & _).
  destruct (span_bounds _ _ _ _ _ _ _ (hk_pages _ _ _ _ _ _ _ _ _ Hok) p _ _ HpG) as (_ & _ & Hk & _).
  wp_step. eapply get_span_spec; [done|]. wp_step. wp_step; [apply bool_decide_eq_true_2, Hb|].
  wp_step. eapply Remove_spec; [apply Hok|apply Hok|done|done|done|]. intros l' b' Hl' Hd' [Hb1 Hb2].
  wp_step. wp_step. wp_step. eapply update_span_spec; [done|]. wp_step. exists sp. split_and!; [done|done..|].
  eapply (heap_unlist cfg tagged_ _ _ _ _ _ _ h p sp l' (mk_backing _ _ _)); [exact Hok|done|done|done|].
  split; [|done]. simpl. rewrite bytes_in_span_eq, Hb1, u64_add, u64_add_r by lia. f_equal. lia.
Qed.

(** The system call of [ReleaseLastNormalSpan]. *)
Lemma system_release_spec rel G F n h p sp f k :
  heap_ok None no_hole rel G F n h → live G F p = Some (f, k) → spans h !! p = Some sp →
  wp true (on_os (SystemRelease (start_address cfg sp) (bytes_in_span cfg sp)))
    (λ _ h', heap_ok None no_hole rel G F n h' ∧ spans h' = spans h) h.
Proof.
  intros Hok Hu Hsp. destruct (used_span _ _ _ _ _ _ _ _ _ _ _ Hok Hu) as (sp0 & Hsp0 & Ef & Ek & _ & _ & HG & _).
  assert (sp0 = sp) as -> by congruence. pose proof (hk_pages _ _ _ _ _ _ _ _ _ Hok) as Hpg.
  destruct (span_bounds _ _ _ _ _ _ _ Hpg p _ _ HG) as (_ & Hf & Hk & Hb & _). pose proof (kPageSize_pos cfg) as HP.
  destruct (po_page _ _ _ _ _ _ _ Hpg f) as (_ & _ & _ & _ & _ & Hup & _); [eapply span_owned; [done|lia]|].
  assert (start_address cfg sp = f * kPageSize cfg) as Es.
  { unfold start_address. change (first_page_ sp) with (first_page sp). rewrite Ef, u64_id by nia. done. }
  rewrite bytes_in_span_eq by lia. unfold span_bytes. rewrite Es, Ek, u64_id by nia.
  eapply on_part_spec; [apply system_release_law; [eapply meta_ok, Hok|done|nia|nia|]|].
  { change (2 ^ kAddressBits) with (2 ^ 48). nia. }
  intros [] o (Ho & Hup' & Hg). split; [|done]. apply (heap_system cfg tagged_); [done|done|intros a; apply Hg|done].
Qed.

Lemma release_end_spec rel G F n h p f k :
  heap_ok None no_hole rel G F n h → live G F p = Some (f, k) →
  wp true (release_end cfg now p) (λ _ h', ∃ G' F', heap_ok None no_hole (rel - k * kPageSize cfg) G' F' n h' ∧
    given_back p G F G' F' ∧ kept ON_RETURNED_FREELIST F F') h.
Proof.
  intros Hok Hu. destruct (used_span _ _ _ _ _ _ _ _ _ _ _ Hok Hu) as (sp & Hsp & Ef & Ek & Hl & HF & HG & _).
  destruct (span_bounds _ _ _ _ _ _ _ (hk_pages _ _ _ _ _ _ _ _ _ Hok) p _ _ HG) as (_ & Hf & Hk & _).
  unfold release_end. wp_step. eapply get_span_spec; [done|]. wp_step. wp_step. wp_step.
  eapply update_span_spec; [done|].
  set (h1 := with_spans _ _). set (sp1 := set_location ON_RETURNED_FREELIST sp) in *.
  assert (heap_ok (Some p) no_hole (rel - k * kPageSize cfg) G F n h1) as Hok1.
  { apply (heap_touch cfg tagged_ p sp sp1 no_hole _ G F n (with_backing _ h)); [|done..].
    destruct Hok as [? ? [Hb1 Hb2] ? ? ? ?]. split; try done.
    - split; [|done]. simpl. rewrite bytes_in_span_eq, Hb1, u64_sub, u64_sub_r by lia. f_equal.
      unfold span_bytes. rewrite Ek. lia.
    - by eapply spans_pend. }
  eapply wp_mono; [apply (MergeIntoFreeList_spec cfg tagged_ now p sp1 no_hole (rel - k * kPageSize cfg) G F n h1);
    [done|by apply lookup_insert_eq|done|done|done]|].
  intros [] h' (G' & F' & n' & sp' & Hn' & Hok' & Hp' & _ & _ & _ & Hu' & Hkept & _).
  exists G', F'. split; [by eapply heap_weaken|]. split; [|done]. split; [|done]. unfold live. by rewrite Hp'.
Qed.

Lemma used_delete G F p x : x ≠ p → live G (delete p F) x = live G F x.
Proof. intros Hx. unfold live. by rewrite lookup_delete_ne. Qed.

(** One free span is released; the others of its kind stay. *)
Definition one_released rel G F n s (r : Z) h' : Prop := ∃ p sp G' F',
  F !! p = Some sp ∧ belongs cfg false s sp ∧ r = num_pages sp ∧ heap_ok None no_hole rel G' F' n h' ∧
  same_used G F G' F' ∧ normal F' = delete p (normal F).

Lemma ReleaseLastNormalSpan_spec rel G F n h s :
  heap_ok None no_hole rel G F n h → 0 ≤ s ≤ kMaxPages cfg → (∃ p sp, F !! p = Some sp ∧ belongs cfg false s sp) →
  wp true (ReleaseLastNormalSpan cfg now s) (one_released rel G F n s) h.
Proof.
  intros Hok Hs Hex. unfold ReleaseLastNormalSpan. wp_step. eapply wp_mono; [by eapply release_begin_spec|].
  intros p h1 (sp & Hp & Hb & Hok1).
  destruct (free_span _ _ _ _ _ (hk_spans _ _ _ _ _ _ _ _ _ Hok) p sp Hp) as [_ HG].
  assert (live G (delete p F) p = Some (first_page sp, num_pages sp)) as Hu.
  { unfold live. by rewrite lookup_delete_eq. }
  destruct (used_span _ _ _ _ _ _ _ _ _ _ _ Hok1 Hu) as (sp1 & Hsp1 & _ & Ek & _).
  wp_step. eapply get_span_spec; [done|]. wp_step. eapply wp_mono; [by eapply system_release_spec|].
  intros [] h2 [Hok2 _]. wp_step. eapply wp_mono; [by eapply release_end_spec|].
  intros [] h3 (G' & F' & Hok3 & [Hgp Hgo] & Hkept). wp_step. exists p, sp, G', F'. split_and!; [done|done..| | |].
  - unfold span_bytes in Hok3. by replace (rel + num_pages sp * kPageSize cfg - num_pages sp * kPageSize cfg) with rel in Hok3 by lia.
  - intros q. destruct (decide (q = p)) as [->|Hq]; [|by rewrite Hgo, used_delete].
    rewrite Hgp. unfold live. by rewrite Hp.
  - by rewrite (kept_normal _ _ Hkept), normal_delete.
Qed.

(** ** The release index *)

(** Computations that do not touch [release_index_]. *)
Definition keeps_index {B} (act : ST PageHeap B) : Prop :=
  ∀ h b h', act h = Done (b, h') → release_index_ h' = release_index_ h.

Lemma keeps_index_bind {B C} (act : ST PageHeap B) (f : B → ST PageHeap C) :
  keeps_index act → (∀ b, keeps_index (f b)) → keeps_index (act ≫= f).
Proof.
  intros H1 H2 h c h'. unfold mbind, ST_bind. destruct (act h) as [[b h1]| | |] eqn:E; [|done..].
  intros E2. rewrite (H2 _ _ _ _ E2). by apply (H1 h b).
Qed.

Lemma keeps_index_part {S B} (get : PageHeap → S) put (act : ST S B) :
  (∀ s h, release_index_ (put s h) = release_index_ h) → keeps_index (on_part get put act).
Proof.
  intros Hput h b h'. unfold on_part. destruct (act (get h)) as [[b' s]| | |]; [|done..]. by intros [= <- <-].
Qed.

Lemma keeps_index_from {B} (o : option B) : keeps_index (from_opt o).
Proof. intros h b h'. unfold from_opt. destruct o; [by intros [= <- <-]|done]. Qed.

Lemma keeps_index_require b : keeps_index (require b).
Proof. intros h u h'. unfold require. destruct b; [by intros [= <- <-]|done]. Qed.

Ltac keeps_step := first
  [ apply keeps_index_bind; [|intros ?] | apply keeps_index_from | apply keeps_index_require | by apply keeps_index_part
  | match goal with |- keeps_index (if ?b then _ else _) => destruct b
      | |- keeps_index (match ?x with _ => _ end) => destruct x end
  | by intros ??? [= <- <-] | by intros ??? ].

Lemma keeps_merge p : keeps_index (MergeIntoFreeList cfg now p).
Proof.
  unfold MergeIntoFreeList, merge_prev, merge_next, mergeable, absorb, PrependToFreeList, RemoveFromFreeList,
    Span_Delete, Now, update_span, get_span, on_map, on_lists, on_pool. repeat keeps_step.
Qed.

Lemma keeps_release s : keeps_index (ReleaseLastNormalSpan cfg now s).
Proof.
  unfold ReleaseLastNormalSpan, release_begin, release_end, RemoveFromFreeList, update_span, get_span, on_lists, on_os.
  repeat first [apply keeps_merge | keeps_step].
Qed.

Lemma wp_keeps {B} (act : ST PageHeap B) (Q : B → PageHeap → Prop) h :
  keeps_index act → wp true act Q h → wp true act (λ b h', Q b h' ∧ release_index_ h' = release_index_ h) h.
Proof. intros Hk. unfold wp. destruct (act h) as [[b h']| | |] eqn:E; [|done..]. split; [done|]. by eapply Hk. Qed.

Lemma heap_index rel G F n h i :
  heap_ok None no_hole rel G F n h → 0 ≤ i ≤ kMaxPages cfg + 1 → heap_ok None no_hole rel G F n (with_index i h).
Proof. intros [H1 H2 H3 H4 H5 H6 H7] Hi. by split. Qed.

(** ** The loops *)

(** The pages [r - a] were released. *)
Definition released_post rel G F n (a r : Z) h' : Prop := ∃ G' F',
  heap_ok None no_hole rel G' F' n h' ∧ same_used G F G' F' ∧ a ≤ r ∧
  kind_bytes cfg false F = kind_bytes cfg false F' + (r - a) * kPageSize cfg ∧
  (if decide (a = r) then normal F' = normal F else (size (normal F') < size (normal F))%nat).

Lemma released_nothing rel G F n a h : heap_ok None no_hole rel G F n h → released_post rel G F n a a h.
Proof. intros Hok. exists G, F. rewrite decide_True by done. split_and!; [done|done|lia|lia|done]. Qed.

Lemma released_trans rel G F n G1 F1 a b r h' :
  same_used G F G1 F1 → a ≤ b → kind_bytes cfg false F = kind_bytes cfg false F1 + (b - a) * kPageSize cfg →
  (if decide (a = b) then normal F1 = normal F else (size (normal F1) < size (normal F))%nat) →
  released_post rel G1 F1 n b r h' → released_post rel G F n a r h'.
Proof.
  intros Hs Hab Hb Hn (G' & F' & Hok & Hs' & Hbr & Hb' & Hn'). exists G', F'.
  split_and!; [done|intros q; by rewrite Hs', Hs|lia|lia|].
  repeat case_decide; subst; try congruence; lia.
Qed.

(** The accounting of one released span. *)
Lemma one_released_post l rel G F n s r a h' :
  lists_ok cfg F l → one_released rel G F n s r h' → 0 < r ∧ ∃ G1 F1, heap_ok None no_hole rel G1 F1 n h' ∧ same_used G F G1 F1 ∧
    kind_bytes cfg false F = kind_bytes cfg false F1 + (a + r - a) * kPageSize cfg ∧
    (size (normal F1) < size (normal F))%nat.
Proof.
  intros Hls (p & sp & G1 & F1 & Hp & [Hl Hi] & -> & Hok & Hs & Hn).
  assert (normal F !! p = Some sp) as HpN by (by apply normal_lookup).
  split; [by apply (lo_pages _ _ _ Hls p)|]. exists G1, F1. split_and!; [done|done| |].
  - rewrite <-(kind_bytes_normal cfg F), <-(kind_bytes_normal cfg F1), Hn.
    rewrite (kind_bytes_delete cfg false (normal F) p sp HpN), decide_True by done. unfold span_bytes. lia.
  - rewrite Hn, map_size_delete_Some by (by eexists). assert (size (normal F) ≠ 0%nat); [|lia].
    intros E%map_size_empty_inv. by rewrite E in HpN.
Qed.

Lemma mod_pred x m : 0 < m → x mod m ≠ 0 → (x - 1) mod m = x mod m - 1.
Proof.
  intros Hm Hx. symmetry. apply (Z.mod_unique_pos _ _ (x / m)).
  - pose proof (Z.mod_pos_bound x m Hm). lia.
  - pose proof (Z.div_mod x m). lia.
Qed.

Lemma release_round_spec num k rel G F n h a :
  heap_ok None no_hole rel G F n h → 0 ≤ a → a * kPageSize cfg + kind_bytes cfg false F ≤ 2 ^ 46 →
  wp true (release_round cfg now k num a) (λ r h', released_post rel G F n a r h' ∧
    ∀ s, (∃ p sp, F !! p = Some sp ∧ belongs cfg false s sp) →
      (s - release_index_ h) mod (kMaxPages cfg + 1) < Z.of_nat k → a < r ∨ num ≤ r) h.
Proof.
  pose proof (kMaxPages_bounds cfg) as HK. pose proof (kPageSize_pos cfg) as HP.
  revert G F h a. induction k as [|k IH]; intros G F h a Hok Ha Hb; simpl.
  { wp_step. split; [by apply released_nothing|]. intros s _ Hs. pose proof (Z.mod_pos_bound (s - release_index_ h) (kMaxPages cfg + 1)). lia. }
  destruct (Z.ltb_spec a num) as [Hlt|Hge].
  2: { wp_step. split; [by apply released_nothing|]. intros; by right. }
  pose proof (hk_index _ _ _ _ _ _ _ _ _ Hok) as Hi. wp_step. wp_step.
  set (h1 := if _ <? _ then _ else _).
  assert (heap_ok None no_hole rel G F n h1 ∧ 0 ≤ release_index_ h1 ≤ kMaxPages cfg ∧
    ∀ s, (s - release_index_ h) mod (kMaxPages cfg + 1) = (s - release_index_ h1) mod (kMaxPages cfg + 1)) as (Hok1 & Hi1 & Hs1).
  { unfold h1. destruct (Z.ltb_spec (kMaxPages cfg) (release_index_ h)); [|split_and!; [done|lia|lia|done]].
    split_and!; [apply heap_index; [done|lia]|simpl; lia|simpl; lia|]. intros s. simpl.
    replace (release_index_ h) with (kMaxPages cfg + 1) by lia. rewrite Z.sub_0_r.
    replace (s - (kMaxPages cfg + 1)) with (s + -1 * (kMaxPages cfg + 1)) by lia. apply Z_mod_plus_full. }
  clearbody h1. wp_step. wp_step. wp_step. eapply list_empty_spec; [apply Hok1|done|]. intros [] He; simpl.
  - wp_step. wp_step. wp_step. wp_step. eapply wp_mono; [apply (IH G F); [apply heap_index; [done|lia]|done|done]|].
    intros r h' [Hr Hp]. split; [done|]. intros s Hex. rewrite Hs1. simpl in Hp. intros Hd. apply (Hp s Hex).
    destruct Hex as (p & sp & Hpf & Hbel). assert ((s - release_index_ h1) mod (kMaxPages cfg + 1) ≠ 0) as Hne.
    { intros E0. apply (He p sp Hpf). destruct Hbel as [Hl Hi']. split; [done|].
      pose proof (list_index_bounds cfg _ (lo_pages _ _ _ (hk_lists _ _ _ _ _ _ _ _ _ Hok1) p sp Hpf)).
      apply Z.mod_divide in E0 as [c Hc]; [|lia]. destruct (Z.lt_trichotomy c 0) as [?|[->|?]]; nia. }
    replace (s - (release_index_ h1 + 1)) with (s - release_index_ h1 - 1) by lia. rewrite mod_pred by lia. lia.
  - wp_step. wp_step. eapply wp_mono; [apply wp_keeps; [apply keeps_release|by eapply ReleaseLastNormalSpan_spec]|].
    intros len h2 [H2 Ei2]. destruct (one_released_post _ _ _ _ _ _ _ a _ (hk_lists _ _ _ _ _ _ _ _ _ Hok1) H2)
      as (Hlen & G1 & F1 & Hok2 & Hu2 & Hb2 & Hn2).
    pose proof (free_bytes_bound false _ _ _ _ _ _ Hok2) as Hb1.
    wp_step. rewrite u64_id by nia. wp_step. wp_step.
    eapply wp_mono; [apply (IH G1 F1); [apply heap_index; [done|lia]|lia|nia]|].
    intros r h' [Hr _]. pose proof Hr as (_ & _ & _ & _ & Hge & _). split; [|intros; left; lia].
    eapply released_trans; [done| |exact Hb2| |exact Hr]; [lia|]. rewrite decide_False by lia. done.
Qed.

Lemma normal_size G F n rel h : heap_ok None no_hole rel G F n h → (size (normal F) ≤ size (spans h))%nat.
Proof.
  intros Hok. apply map_subseteq_size, map_subseteq_spec. intros p sp [Hp _]%normal_lookup.
  by apply (free_span _ _ _ _ _ (hk_spans _ _ _ _ _ _ _ _ _ Hok)).
Qed.

Lemma release_loop_spec num fuel rel G F n h a prev :
  heap_ok None no_hole rel G F n h → 0 ≤ a → a * kPageSize cfg + kind_bytes cfg false F ≤ 2 ^ 46 →
  (if decide (a = prev) then normal F = ∅ ∧ 0 < fuel else size (normal F) + 2 ≤ fuel)%nat →
  wp true (release_loop cfg now fuel num a prev) (λ r h', released_post rel G F n a r h' ∧
    (r < num → r - a = kind_bytes cfg false F / kPageSize cfg)) h.
Proof.
  pose proof (kMaxPages_bounds cfg) as HK. pose proof (kPageSize_pos cfg) as HP.
  revert G F h a prev. induction fuel as [|fuel IH]; intros G F h a prev Hok Ha Hb Hf; [case_decide; lia|]. simpl.
  destruct (Z.ltb_spec a num) as [Hlt|Hge]; [|wp_step; split; [by apply released_nothing|lia]].
  destruct (Z.eqb_spec a prev) as [->|Hne].
  { rewrite decide_True in Hf by done. destruct Hf as [Hn _]. wp_step. split; [by apply released_nothing|]. intros _.
    rewrite <-kind_bytes_normal, Hn, kind_bytes_empty. rewrite Z.div_0_l by lia. lia. }
  rewrite decide_False in Hf by done. wp_step.
  eapply wp_mono; [by apply (release_round_spec num _ rel G F n h a)|].
  intros r h1 [(G1 & F1 & Hok1 & Hu1 & Har & Hb1 & Hn1) Hp].
  eapply wp_mono; [apply (IH G1 F1); [done|lia|nia|]|].
  - destruct (decide (r = a)) as [->|Hra]; [|rewrite decide_False in Hn1 by congruence; lia].
    rewrite decide_True in Hn1 by done. split; [|lia]. rewrite Hn1. apply map_empty. intros p.
    destruct (normal F !! p) as [sp|] eqn:E; [exfalso|done]. apply normal_lookup in E as [Hp1 Hl].
    destruct (Hp (list_index cfg (num_pages sp))); [by exists p, sp| |lia|lia].
    pose proof (Z.mod_pos_bound (list_index cfg (num_pages sp) - release_index_ h) (kMaxPages cfg + 1)). lia.
  - intros r' h2 [Hr' Hd]. split; [by eapply released_trans|]. intros Hlt'. pose proof (Hd Hlt').
    rewrite Hb1, Z.div_add by lia. lia.
Qed.

(** [ReleaseAtLeastNPages] returns; it released [num] pages, or all that were free
    and backed. *)
Lemma ReleaseAtLeastNPages_spec num rel G F n h :
  heap_ok None no_hole rel G F n h →
  wp true (ReleaseAtLeastNPages cfg now num) (λ r h', released_post rel G F n 0 r h' ∧
    (r < num → r = kind_bytes cfg false F / kPageSize cfg)) h.
Proof.
  intros Hok. unfold ReleaseAtLeastNPages. wp_step. wp_step. pose proof (normal_size _ _ _ _ _ Hok) as Hsz.
  pose proof (free_bytes_bound false _ _ _ _ _ _ Hok) as Hb.
  eapply wp_mono; [apply (release_loop_spec num _ rel G F n h 0); [done|lia|lia|rewrite decide_False by done; lia]|].
  intros r h' [Hr Hall]. split; [done|]. intros Hlt. rewrite <-(Hall Hlt). lia.
Qed.
End Release.
