(* ===== verification/TcPageHeapStats.v ===== *)
(** * tcmalloc: the new page heap and its statistics *)

From S2P Require Import Prelude.
From S2P Require Import TcCommon.
From S2P Require Import TcSpan.
From S2P Require Import TcPageMap.
From S2P Require Import TcPageMapCorrect.
From S2P Require Import TcLinkedList.
From S2P Require Import TcLinkedListCorrect.
From S2P Require Import TcSystemAlloc.
From S2P Require Import TcSystemAllocCorrect.
From S2P Require Import TcArena.
From S2P Require Import TcArenaCorrect.
From S2P Require Import TcPageHeap.
From S2P Require Import TcPageHeapLists.
From S2P Require Import TcPageHeapInv.
From S2P Require Import TcPageHeapMerge.
From S2P Require Import TcPageHeapAlloc.
From S2P Require Import TcPageHeapRelease.

Lemma i64_add a b : i64 (i64 a + b) = i64 (a + b).
Proof.
  unfold i64. replace (u64 (a + 2 ^ 63) - 2 ^ 63 + b + 2 ^ 63) with (u64 (a + 2 ^ 63) + b) by lia.
  rewrite u64_add. do 2 f_equal. lia.
Qed.

Lemma i64_small x : 0 ≤ x < 2 ^ 63 → i64 x = x.
Proof. intros Hx. unfold i64. rewrite u64_id by lia. lia. Qed.

(** ** The lists of a new heap *)

(** The heads of empty lists. *)
Definition heads (P : Z → Prop) (l : links node) : Prop := ∃ c : gmap node (list node), rings c l ∧
  (∀ x L, c !! x = Some L → L = []) ∧ ∀ x, is_Some (c !! x) ↔ ∃ r s, x = Head r s ∧ P s.

Lemma heads_init P l i :
  heads P l → ¬ P i →
  wp true (tl_Init (Head false i);; tl_Init (Head true i)) (λ _, heads (λ s, P s ∨ s = i)) l.
Proof.
  intros (c & Hr & He & Hd) Hi.
  assert (∀ r, c !! Head r i = None) as Hno.
  { intros r. destruct (c !! Head r i) eqn:E; [|done]. destruct (proj1 (Hd (Head r i))) as (r' & s & [= <- <-] & HP); [by eexists|]. done. }
  wp_step. eapply tl_Init_spec; [exact Hr|split; [done|]|].
  { intros h L HL. rewrite (He h L HL). apply not_elem_of_nil. }
  intros l1 Hr1 _. eapply tl_Init_spec; [exact Hr1|split|].
  { by rewrite lookup_insert_ne. }
  { intros h L [[_ <-]|[_ HL]]%lookup_insert_Some; [apply not_elem_of_nil|]. rewrite (He h L HL). apply not_elem_of_nil. }
  intros l2 Hr2 _. eexists. split; [exact Hr2|]. split.
  - intros x L [[_ <-]|[_ [[_ <-]|[_ HL]]%lookup_insert_Some]]%lookup_insert_Some; [done|done|by apply (He x)].
  - intros x. rewrite !lookup_insert_is_Some, Hd. split.
    + intros [<-|[_ [<-|[_ (r & s & -> & HP)]]]]; eauto 6.
    + intros (r & s & -> & [HP|[= ->]]).
      * right. split; [intros [= <- ->]; done|]. right. split; [intros [= <- ->]; done|]. eauto.
      * destruct r; [by left|right]. split; [done|]. by left.
Qed.

Lemma init_loop_heads k i P l :
  heads P l → (∀ s, i ≤ s < i + Z.of_nat k → ¬ P s) →
  wp true (init_loop k i) (λ _, heads (λ s, P s ∨ i ≤ s < i + Z.of_nat k)) l.
Proof.
  revert i P l. induction k as [|k IH]; intros i P l Hh Hno; simpl init_loop.
  - wp_step. destruct Hh as (c & H1 & H2 & H3). exists c. split_and!; [done|done|]. intros x. rewrite H3.
    split; intros (r & s & -> & Hs); exists r, s; (split; [done|]); [by left|destruct Hs; [done|lia]].
  - assert (wp true ((tl_Init (Head false i);; tl_Init (Head true i));; init_loop k (i + 1))
      (λ _, heads (λ s, P s ∨ i ≤ s < i + Z.of_nat (S k))) l) as Hw; [|done].
    wp_step. eapply wp_mono; [apply heads_init; [done|apply Hno; lia]|]. intros [] l1 Hh1.
    eapply wp_mono; [apply (IH _ _ _ Hh1); intros s Hs [?| ->]; [by apply (Hno s); [lia|]|lia]|].
    intros [] l2 (c & H1 & H2 & H3). exists c. split_and!; [done|done|]. intros x. rewrite H3.
    split; intros (r & s & -> & Hs); exists r, s; (split; [done|]).
    + destruct Hs as [[?| ->]|?]; [by left|right; lia|right; lia].
    + destruct Hs as [?|?]; [by left; left|]. destruct (Z.eq_dec s i); [by left; right|right; lia].
Qed.

Section Init.
Context (cfg : config) {M A OS : Type}.
Context `{!PageMapImpl M, !SystemMemory OS, !ObjectPool A, !MetaMemory A OS}.
Context {bits hb : Z} {reliable : Prop}.
Context {HML : PageMapLaws M bits hb reliable} {HSL : SystemMemoryLaws OS}.
Context {HPL : ObjectPoolLaws A} {HMM : MetaMemoryLaws A OS}.
Context (tagged_ : bool).

Local Abbreviation PageHeap := (PageHeap (M := M) (A := A)).
Implicit Types (G : gmap Z range) (F : gmap Z Span) (h : PageHeap).

Lemma PageHeap_init_spec (m : M) (a : A) n :
  empty_map m → pool_inv a ∅ n → ∃ h, PageHeap_init cfg m a = Done h ∧ heap_ok cfg tagged_ None no_hole 0 ∅ ∅ n h.
Proof.
  intros Hm Ha. pose proof (kMaxPages_bounds cfg) as HK.
  assert (wp true ((tl_Init (Head false (kMaxPages cfg));; tl_Init (Head true (kMaxPages cfg)));;
    init_loop (Z.to_nat (kMaxPages cfg)) 0) (λ _, heads (λ s, 0 ≤ s ≤ kMaxPages cfg)) ∅) as Hw.
  { wp_step. eapply wp_mono; [apply (heads_init (λ _, False)); [|by intros []]|].
    - exists ∅. split; [by split|]. split; [done|]. intros x. split; [by intros [??]|by intros (?&?&_&[])].
    - intros [] l Hl. eapply wp_mono; [apply (init_loop_heads _ _ _ _ Hl); intros s Hs [[]| ->]; lia|].
      intros [] l' (c & H1 & H2 & H3). exists c. split_and!; [done|done|]. intros x. rewrite H3.
      split; intros (r & s & -> & Hs); exists r, s; (split; [done|]).
      + destruct Hs as [[[]| ->]|?]; lia.
      + destruct (Z.eq_dec s (kMaxPages cfg)); [by left; right|right; lia]. }
  apply wp_total_done in Hw as ([] & l & E & c & Hr & He & Hd). unfold PageHeap_init.
  match goal with |- context [match ?x with _ => _ end] => replace x with (Done (tt, l)) by (by rewrite <-E) end.
  eexists. split; [done|].
  split; try done.
  - split; [done|]. exists c. split; [done|]. split; [done|]. intros r s L HL x. rewrite (He _ _ HL).
    split; [by intros ?%not_elem_of_nil|]. by intros (p & sp & _ & ? & _).
  - split; try done.
    + intros x [(p & r & Hp & _)|Hx]; [done|done].
    + intros x _. by apply uncovered_zero, empty_zero.
  - simpl. lia.
Qed.

(** ** Statistics *)

(** The free spans of a list. *)
Definition listed (r : bool) (s : Z) F : list (Z * Span) :=
  map_to_list (filter (λ x, location x.2 = kind_location r ∧ list_index cfg (num_pages x.2) = s) F).

Lemma listed_elements r s F (L : list node) :
  NoDup L → (∀ x, x ∈ L ↔ ∃ p sp, x = Item p ∧ F !! p = Some sp ∧ belongs cfg r s sp) →
  L ≡ₚ (Item ∘ fst) <$> listed r s F.
Proof.
  intros Hnd HL. apply NoDup_Permutation; [done| |].
  - rewrite list_fmap_compose. apply NoDup_fmap_2; [by intros ?? [= ->]|apply NoDup_fst_map_to_list].
  - intros x. rewrite HL, list_elem_of_fmap. split.
    + intros (p & sp & -> & Hp & Hb). exists (p, sp). split; [done|].
      apply elem_of_map_to_list, map_lookup_filter_Some. done.
    + intros ([p sp] & -> & [Hp Hb]%elem_of_map_to_list%map_lookup_filter_Some). exists p, sp. done.
Qed.

Section Stats.
Context hole (rel : Z) G F (n : nat) h (Hok : heap_ok cfg tagged_ None hole rel G F n h).

Lemma free_count : Z.of_nat (size F) < 2 ^ 47.
Proof.
  pose proof (kPageSize_pos cfg) as HP. pose proof (free_bytes_bound cfg tagged_ false _ _ _ _ _ _ Hok).
  pose proof (free_bytes_bound cfg tagged_ true _ _ _ _ _ _ Hok).
  assert (Z.of_nat (size F) * kPageSize cfg ≤ kind_bytes cfg false F + kind_bytes cfg true F); [|nia].
  assert (∀ p sp, F !! p = Some sp → 0 < num_pages sp ∧ location sp ≠ IN_USE) as Hpos.
  { intros p sp Hp. split; [apply (lo_pages _ _ _ (hk_lists _ _ _ _ _ _ _ _ _ Hok) p sp Hp)|].
    by apply (sk_free _ _ _ _ _ (hk_spans _ _ _ _ _ _ _ _ _ Hok) p sp Hp). }
  clear -HP Hpos. induction F as [|p sp F' Hp IH] using map_ind.
  - rewrite map_size_empty, !kind_bytes_empty. lia.
  - rewrite map_size_insert_None, !kind_bytes_insert by done.
    destruct (Hpos p sp) as [Hk Hl]; [apply lookup_insert_eq|]. apply location_kind in Hl as [r Hr].
    assert (Z.of_nat (size F') * kPageSize cfg ≤ kind_bytes cfg false F' + kind_bytes cfg true F').
    { apply IH. intros q sq Hq. apply (Hpos q). rewrite lookup_insert_ne; [done|congruence]. }
    rewrite Hr. unfold span_bytes. destruct r; simpl; repeat case_decide; try done; nia.
Qed.

Lemma list_length_spec r s (Q : Z → PageHeap → Prop) :
  0 ≤ s ≤ kMaxPages cfg → Q (Z.of_nat (length (listed r s F))) h → wp true (list_length r s) Q h.
Proof.
  intros Hs HQ. unfold list_length. wp_step. wp_step.
  eapply on_part_spec with (R := λ v l, l = lists h ∧ v = Z.of_nat (length (listed r s F))).
  - eapply length_spec; [apply Hok|done| |pose proof free_count; lia|].
    + pose proof (free_size _ _ _ _ _ _ _ _ Hok). lia.
    + intros L Hnd HL. split; [done|]. by rewrite (listed_elements r s F L Hnd HL), length_fmap.
  - intros v l [-> ->]. by replace (with_lists (lists h) h) with h by (by destruct h).
Qed.

Lemma small_stats_spec k s :
  0 ≤ s → s + Z.of_nat k ≤ kMaxPages cfg →
  wp true (small_stats_loop k s) (λ v h', h' = h ∧ v = (λ s, (Z.of_nat (length (listed false s F)),
    Z.of_nat (length (listed true s F)))) <$> seqZ s (Z.of_nat k)) h.
Proof.
  revert s. induction k as [|k IH]; intros s Hs Hk; simpl small_stats_loop; [by wp_step|].
  wp_step. apply list_length_spec; [lia|]. wp_step. apply list_length_spec; [lia|].
  wp_step. eapply wp_mono; [apply IH; lia|]. intros v h' [-> ->]. wp_step. split; [done|].
  rewrite (seqZ_cons s) by lia. by replace (Z.pred (Z.of_nat (S k))) with (Z.of_nat k) by lia.
Qed.

Definition pages_of (l : list (Z * Span)) : Z := foldr (λ x acc, num_pages x.2 + acc) 0 l.

Lemma pages_of_perm l l' : l ≡ₚ l' → pages_of l = pages_of l'.
Proof. induction 1; simpl; lia. Qed.

Lemma large_stats_spec (l : list (Z * Span)) c p :
  (∀ x, x ∈ l → F !! x.1 = Some x.2) →
  wp true (large_stats_loop ((Item ∘ fst) <$> l) (i64 c) (i64 p)) (λ v h', h' = h ∧
    v = (i64 (c + Z.of_nat (length l)), i64 (p + pages_of l))) h.
Proof.
  revert c p. induction l as [|[q sq] l IH]; intros c p Hl; simpl.
  - wp_step. split; [done|]. by rewrite !Z.add_0_r.
  - pose proof (Hl (q, sq) ltac:(left)) as Hq. simpl in Hq.
    destruct (free_span _ _ _ _ _ (hk_spans _ _ _ _ _ _ _ _ _ Hok) q sq Hq) as [HqS _].
    wp_step. eapply get_span_spec; [done|]. rewrite !i64_add. eapply wp_mono; [apply IH; intros x Hx; apply Hl; by right|].
    intros v h' [-> ->]. split; [done|]. f_equal; f_equal; lia.
Qed.

(** The numbers of listed spans and pages are far from overflowing. *)
Lemma listed_bounds r s :
  0 ≤ Z.of_nat (length (listed r s F)) < 2 ^ 47 ∧ 0 ≤ pages_of (listed r s F) ≤ 2 ^ 46.
Proof.
  split.
  - assert (length (listed r s F) ≤ size F)%nat; [|pose proof free_count; lia].
    unfold listed. rewrite length_map_to_list. apply map_subseteq_size, map_filter_subseteq.
  - pose proof (kPageSize_pos cfg) as HP. pose proof (free_bytes_bound cfg tagged_ r _ _ _ _ _ _ Hok) as Hb.
    pose proof (lo_pages _ _ _ (hk_lists _ _ _ _ _ _ _ _ _ Hok)) as Hpos.
    assert (0 ≤ pages_of (listed r s F) ∧ pages_of (listed r s F) * kPageSize cfg ≤ kind_bytes cfg r F); [|nia].
    clear -HP Hpos. unfold listed. induction F as [|p sp F' Hp IH] using map_ind; [done|].
    pose proof (Hpos p sp (lookup_insert_eq _ _ _)) as Hk.
    destruct IH as [IH1 IH2]. { intros q sq Hq. apply (Hpos q). rewrite lookup_insert_ne; [done|congruence]. }
    rewrite kind_bytes_insert by done. unfold span_bytes.
    destruct (decide (location sp = kind_location r ∧ list_index cfg (num_pages sp) = s)) as [Hc|Hc].
    + rewrite map_filter_insert_True by done.
      erewrite pages_of_perm; [|apply map_to_list_insert, map_lookup_filter_None; by left].
      simpl. destruct Hc as [Hl _]. rewrite decide_True by done. nia.
    + rewrite map_filter_insert_False, delete_id by done. case_decide; nia.
Qed.

Lemma listed_spec (L : list node) r s c p :
  NoDup L → (∀ x, x ∈ L ↔ ∃ q sq, x = Item q ∧ F !! q = Some sq ∧ belongs cfg r s sq) →
  wp true (large_stats_loop L (i64 c) (i64 p)) (λ v h', h' = h ∧
    v = (i64 (c + Z.of_nat (length (listed r s F))), i64 (p + pages_of (listed r s F)))) h.
Proof.
  intros Hnd HL. pose proof (listed_elements r s F L Hnd HL) as HP.
  apply Permutation_map_inv in HP as (l & -> & HP). rewrite (Permutation_length HP), (pages_of_perm _ _ HP).
  apply large_stats_spec. intros [q sq] Hx. rewrite <-HP in Hx.
  by apply elem_of_map_to_list, map_lookup_filter_Some in Hx as [? _].
Qed.

Lemma GetSmallSpanStats_spec :
  wp true (GetSmallSpanStats cfg) (λ v h', h' = h ∧ v = (λ s, (Z.of_nat (length (listed false s F)),
    Z.of_nat (length (listed true s F)))) <$> seqZ 0 (kMaxPages cfg)) h.
Proof.
  pose proof (kMaxPages_bounds cfg). unfold GetSmallSpanStats.
  eapply wp_mono; [apply small_stats_spec; lia|]. intros v h' [-> ->]. by rewrite Z2Nat.id by lia.
Qed.

Lemma GetLargeSpanStats_spec :
  wp true (GetLargeSpanStats cfg) (λ v h', h' = h ∧ v = mk_large
    (Z.of_nat (length (listed false (kMaxPages cfg) F)) + Z.of_nat (length (listed true (kMaxPages cfg) F)))
    (pages_of (listed false (kMaxPages cfg) F)) (pages_of (listed true (kMaxPages cfg) F))) h.
Proof.
  pose proof (kMaxPages_bounds cfg). unfold GetLargeSpanStats.
  wp_step. eapply (elements_of_spec cfg tagged_); [exact Hok|lia|]. intros L1 Hnd1 HL1.
  wp_step. eapply wp_mono; [apply (listed_spec L1 false (kMaxPages cfg) 0 0 Hnd1 HL1)|]. intros v1 h1 [-> ->].
  wp_step. eapply (elements_of_spec cfg tagged_); [exact Hok|lia|]. intros L2 Hnd2 HL2.
  wp_step. simpl. eapply wp_mono; [apply (listed_spec L2 true (kMaxPages cfg) _ 0 Hnd2 HL2)|]. intros v2 h2 [-> ->].
  wp_step. split; [done|]. destruct (listed_bounds false (kMaxPages cfg)), (listed_bounds true (kMaxPages cfg)).
  simpl. rewrite !i64_small by lia. done.
Qed.
End Stats.
End Init.
