(* ===== verification/TcPageHeapTheorems.v ===== *)
(** * tcmalloc: theorems about the page heap *)

From S2P Require Import Prelude.
From S2P Require Import TcCommon.
From S2P Require Import TcSpan.
From S2P Require Import TcPageMap.
From S2P Require Import TcPageMapCorrect.
From S2P Require Import TcLinkedList.
From S2P Require Import TcSystemAlloc.
From S2P Require Import TcSystemAllocCorrect.
From S2P Require Import TcSystemAllocTheorems.
From S2P Require Import TcArena.
From S2P Require Import TcArenaCorrect.
From S2P Require Import TcArenaTheorems.
From S2P Require Import TcPageHeap.
From S2P Require Import TcPageHeapLists.
From S2P Require Import TcPageHeapInv.
From S2P Require Import TcPageHeapMerge.
From S2P Require Import TcPageHeapCarve.
From S2P Require Import TcPageHeapAlloc.
From S2P Require Import TcPageHeapNew.
From S2P Require Import TcPageHeapOps.
From S2P Require Import TcPageHeapRelease.
From S2P Require Import TcPageHeapStats.

Section History.
Context (cfg : config) {M A OS : Type}.
Context `{!PageMapImpl M, !SystemMemory OS, !ObjectPool A, !MetaMemory A OS}.
Context {bits hb : Z} {reliable : Prop}.
Context {HML : PageMapLaws M bits hb reliable} {HSL : SystemMemoryLaws OS}.
Context {HPL : ObjectPoolLaws A} {HMM : MetaMemoryLaws A OS}.
Context (tagged_ : bool) (stale : Span) (now : nat → Z).

Local Abbreviation PageHeap := (PageHeap (M := M) (A := A)).
Local Abbreviation heap_ok := (heap_ok cfg tagged_).
Local Abbreviation New := (PageHeap_New cfg tagged_ stale now).
Local Abbreviation NewAligned := (PageHeap_NewAligned cfg tagged_ stale now).
Local Abbreviation Delete := (PageHeap_Delete cfg tagged_ now).
Implicit Types (G U R : gmap Z range) (F : gmap Z Span) (h : PageHeap).

Definition pages_of_span (sp : Span) : range := (first_page sp, num_pages sp).

(** ** Histories *)

(** The histories of a heap: [U] are the spans its clients hold, [R] those that
    are being released, and [k] is a number of [Span] objects that can be had
    without a call to the system.  An operation that needs more than that has the
    arena ask the system for memory.  A release drops the lock around its system
    call, so that other operations run in between. *)
Inductive heap_history : nat → gmap Z range → gmap Z range → PageHeap → Prop :=
  | hh_start m a k h :
      empty_map m → pool_inv a ∅ k → PageHeap_init cfg m a = Done h → heap_history k ∅ ∅ h
  | hh_count k k' U R h :
      heap_history k U R h → pool_inv (span_allocator h) (dom (spans h)) k' → heap_history k' U R h
  | hh_new k U R h n p sp h' :
      heap_history k U R h → 0 < n → New n h = Done (Some p, h') → spans h' !! p = Some sp →
      heap_history (k - 2) (<[p := pages_of_span sp]> U) R h'
  | hh_new_none k U R h n h' :
      heap_history k U R h → 0 < n → New n h = Done (None, h') → heap_history (k - 2) U R h'
  | hh_aligned k U R h n j p sp h' :
      heap_history k U R h → 0 < n → 0 ≤ j < 64 → n + 2 ^ j ≤ 2 ^ 64 →
      NewAligned n (2 ^ j) h = Done (Some p, h') → spans h' !! p = Some sp →
      heap_history (k - 4) (<[p := pages_of_span sp]> U) R h'
  | hh_aligned_none k U R h n j h' :
      heap_history k U R h → 0 < n → 0 ≤ j < 64 → n + 2 ^ j ≤ 2 ^ 64 →
      NewAligned n (2 ^ j) h = Done (None, h') → heap_history (k - 4) U R h'
  | hh_delete k U R h p h' :
      heap_history k U R h → is_Some (U !! p) → Delete p h = Done (tt, h') → heap_history k (delete p U) R h'
  | hh_write k U R h p sp sp' :
      heap_history k U R h → is_Some (U !! p) → spans h !! p = Some sp → pages_of_span sp' = pages_of_span sp →
      location sp' = location sp → sampled sp' = sampled sp →
      heap_history k U R (with_spans (<[p := sp']> (spans h)) h)
  | hh_release_begin k U R h s p sp h' :
      heap_history k U R h → 0 ≤ s ≤ kMaxPages cfg → on_lists (tl_empty (Head false s)) h = Done (false, h) →
      release_begin cfg s h = Done (p, h') → spans h' !! p = Some sp →
      heap_history k U (<[p := pages_of_span sp]> R) h'
  | hh_release_call k U R h p sp h' :
      heap_history k U R h → is_Some (R !! p) → spans h !! p = Some sp →
      on_os (SystemRelease (start_address cfg sp) (bytes_in_span cfg sp)) h = Done (tt, h') →
      heap_history k U R h'
  | hh_release_end k U R h p h' :
      heap_history k U R h → is_Some (R !! p) → release_end cfg now p h = Done (tt, h') →
      heap_history k U (delete p R) h'
  | hh_release k U R h num r h' :
      heap_history k U R h → ReleaseAtLeastNPages cfg now num h = Done (r, h') → heap_history k U R h'.

Definition range_bytes R : Z := map_fold (λ _ r acc, r.2 * kPageSize cfg + acc) 0 R.

Lemma range_bytes_insert R p r : R !! p = None → range_bytes (<[p := r]> R) = r.2 * kPageSize cfg + range_bytes R.
Proof.
  intros Hp. unfold range_bytes. apply (map_fold_insert_L (λ _ (r : range) acc, r.2 * kPageSize cfg + acc));
    [|done]. intros; lia.
Qed.

Lemma range_bytes_delete R p r : R !! p = Some r → range_bytes (delete p R) = range_bytes R - r.2 * kPageSize cfg.
Proof.
  intros Hp. rewrite <-(insert_delete_id R p r Hp) at 2. rewrite range_bytes_insert by apply lookup_delete_eq. lia.
Qed.

Definition heap_inv (k : nat) U R h : Prop := ∃ G F,
  heap_ok None no_hole (range_bytes R) G F k h ∧ U ##ₘ R ∧ ∀ p, live G F p = (U ∪ R) !! p.

(** What the operations do to the spans in use. *)
Lemma inv_taken k U R h h' p f n G F G' F' :
  U ##ₘ R → (∀ q, live G F q = (U ∪ R) !! q) → live G F p = None → heap_ok None no_hole (range_bytes R) G' F' k h' →
  live G' F' p = Some (f, n) → (∀ q, q ≠ p → live G' F' q = live G F q) → heap_inv k (<[p := (f, n)]> U) R h'.
Proof.
  intros Hd Hu Hp Hok Hp' Hq. rewrite Hu in Hp. apply lookup_union_None in Hp as [HpU HpR].
  exists G', F'. split_and!; [done|by apply map_disjoint_insert_l|].
  intros q. rewrite <-insert_union_l. destruct (decide (q = p)) as [->|Hne]; [by rewrite lookup_insert_eq|].
  by rewrite lookup_insert_ne, Hq, Hu.
Qed.

Lemma held_in_use U R G F p r :
  U ##ₘ R → (∀ q, live G F q = (U ∪ R) !! q) → U !! p = Some r ∨ R !! p = Some r → live G F p = Some r.
Proof.
  intros Hd Hu. rewrite Hu. intros [Hp|Hp]; [by apply lookup_union_Some_l|]. by rewrite lookup_union_r by (by eapply map_disjoint_Some_r).
Qed.

Lemma held_unique U R G F p q r1 r2 x k h :
  heap_ok None no_hole (range_bytes R) G F k h → U ##ₘ R → (∀ q, live G F q = (U ∪ R) !! q) →
  (U ∪ R) !! p = Some r1 → (U ∪ R) !! q = Some r2 → in_range r1 x → in_range r2 x → p = q.
Proof.
  intros Hok Hd Hu. rewrite <-!Hu. unfold live. destruct (F !! p); [done|]. destruct (F !! q); [done|].
  apply (po_unique _ _ _ _ _ _ _ (hk_pages _ _ _ _ _ _ _ _ _ Hok)).
Qed.

Lemma heap_write k G F h p sp sp' rel :
  heap_ok None no_hole rel G F k h → F !! p = None → spans h !! p = Some sp → pages_of_span sp' = pages_of_span sp →
  location sp' = location sp → sampled sp' = sampled sp →
  heap_ok None no_hole rel G F k (with_spans (<[p := sp']> (spans h)) h).
Proof.
  intros Hok HF Hp [= Ef Ek] El Es. pose proof Hok as [H1 H2 H3 H4 H5 H6 H7].
  assert (location sp = IN_USE) as Hl by (by apply (sk_used _ _ _ _ _ H5 p)).
  assert (heap_ok (Some p) no_hole rel G F k h) as Hok1 by (split; try done; by eapply spans_pend).
  destruct (heap_touch cfg tagged_ p sp sp' _ _ _ _ _ _ Hok1 Hp Ef Ek Es) as [K1 K2 K3 K4 K5 K6 K7].
  split; try done. eapply (spans_use (Some p)); [exact K5|done|by apply lookup_insert_eq|congruence].
Qed.

(** A span of [U] or of [R] goes back to the heap. *)
Lemma used_back U R U' R' G F G' F' p r :
  U ##ₘ R → (∀ q, live G F q = (U ∪ R) !! q) → given_back p G F G' F' →
  (U !! p = Some r ∧ U' = delete p U ∧ R' = R ∨ R !! p = Some r ∧ U' = U ∧ R' = delete p R) →
  U' ##ₘ R' ∧ ∀ q, live G' F' q = (U' ∪ R') !! q.
Proof.
  intros Hd Hu [H1 H2] Hor.
  assert (U' ∪ R' = delete p (U ∪ R) ∧ U' ##ₘ R') as [E Hd'].
  { rewrite delete_union. destruct Hor as [(Hp & -> & ->)|(Hp & -> & ->)].
    - rewrite (delete_id R) by (by eapply map_disjoint_Some_l). split; [done|by apply map_disjoint_delete_l].
    - rewrite (delete_id U) by (by eapply map_disjoint_Some_r). split; [done|by apply map_disjoint_delete_r]. }
  split; [done|]. intros q. rewrite E. destruct (decide (q = p)) as [->|Hq].
  - by rewrite lookup_delete_eq.
  - by rewrite lookup_delete_ne, H2, Hu by done.
Qed.

(** The list of a span to release is not empty. *)
Lemma nonempty_list F s h :
  lists_ok cfg F (lists h) → 0 ≤ s ≤ kMaxPages cfg → on_lists (tl_empty (Head false s)) h = Done (false, h) →
  ∃ p sp, F !! p = Some sp ∧ belongs cfg false s sp.
Proof.
  intros Hl Hs E. apply (wp_done true _ (λ b h', b = false → ∃ p sp, F !! p = Some sp ∧ belongs cfg false s sp) _ _ _ E);
    [|done]. eapply list_empty_spec; [done|done|]. by intros [] Hb.
Qed.

(** The invariant holds in every history. *)
Lemma heap_history_inv k U R h : heap_history k U R h → heap_inv k U R h.
Proof.
  induction 1 as [m a k h Hm Ha E|k k' U R h _ (G & F & Hok & Hd & Hu) Hc|k U R h n p sp h' _ (G & F & Hok & Hd & Hu) Hn E Hsp
    |k U R h n h' _ (G & F & Hok & Hd & Hu) Hn E|k U R h n j p sp h' _ (G & F & Hok & Hd & Hu) Hn Hj Hnj E Hsp
    |k U R h n j h' _ (G & F & Hok & Hd & Hu) Hn Hj Hnj E|k U R h p h' _ (G & F & Hok & Hd & Hu) [r Hp] E
    |k U R h p sp sp' _ (G & F & Hok & Hd & Hu) [r Hp] Hsp Hpg Hl Hs
    |k U R h s p sp h' _ (G & F & Hok & Hd & Hu) Hs Hne E Hsp|k U R h p sp h' _ (G & F & Hok & Hd & Hu) [r Hp] Hsp E
    |k U R h p h' _ (G & F & Hok & Hd & Hu) [r Hp] E|k U R h num r h' _ (G & F & Hok & Hd & Hu) E].
  - destruct (PageHeap_init_spec cfg tagged_ m a k Hm Ha) as (h0 & E0 & Hok). rewrite E in E0. injection E0 as <-.
    exists ∅, ∅. split_and!; [done|apply map_disjoint_empty_l|done].
  - exists G, F. split_and!; [|done|done]. pose proof Hok as [_ H2 H3 H4 H5 H6 H7]. split; try done.
    by rewrite (sk_dom _ _ _ _ _ H5) in Hc.
  - destruct (wp_done _ _ _ _ _ _ E (New_spec cfg tagged_ stale now (md := Crashing) _ _ _ _ _ _ Hok I Hn)) as (G' & F' & Hok' & H1 & [f H2] & H3).
    destruct (used_span cfg tagged_ _ _ _ _ _ _ _ _ _ Hok' H2) as (sp' & Hsp' & Ef & Ek & _).
    assert (sp' = sp) as -> by congruence. unfold pages_of_span. rewrite Ef, Ek. by eapply inv_taken.
  - destruct (wp_done _ _ _ _ _ _ E (New_spec cfg tagged_ stale now (md := Crashing) _ _ _ _ _ _ Hok I Hn)) as (G' & F' & Hok' & H1).
    exists G', F'. split_and!; [done|done|]. intros q. by rewrite H1.
  - destruct (wp_done _ _ _ _ _ _ E (NewAligned_spec cfg tagged_ stale now (md := Crashing) _ _ _ _ _ _ _ Hok I Hn Hj Hnj))
      as (G' & F' & Hok' & H1 & (f & H2 & _) & H3).
    destruct (used_span cfg tagged_ _ _ _ _ _ _ _ _ _ Hok' H2) as (sp' & Hsp' & Ef & Ek & _).
    assert (sp' = sp) as -> by congruence. unfold pages_of_span. rewrite Ef, Ek. by eapply inv_taken.
  - destruct (wp_done _ _ _ _ _ _ E (NewAligned_spec cfg tagged_ stale now (md := Crashing) _ _ _ _ _ _ _ Hok I Hn Hj Hnj)) as (G' & F' & Hok' & H1).
    exists G', F'. split_and!; [done|done|]. intros q. by rewrite H1.
  - destruct r as [f n]. pose proof (held_in_use U R G F p _ Hd Hu (or_introl Hp)) as Hup.
    destruct (wp_done _ _ _ _ _ _ E (Delete_spec cfg tagged_ now (md := Total) _ _ _ _ _ p f n Hok Hup)) as (G' & F' & Hok' & Hb).
    destruct (used_back U R (delete p U) R G F G' F' p (f, n) Hd Hu Hb) as [Hd' Hu']; [by left|]. by exists G', F'.
  - exists G, F. split_and!; [|done|done]. eapply heap_write; [done| |done..].
    pose proof (held_in_use U R G F p r Hd Hu (or_introl Hp)) as Hup. unfold live in Hup. by destruct (F !! p).
  - pose proof (nonempty_list F s h (hk_lists _ _ _ _ _ _ _ _ _ Hok) Hs Hne) as Hex.
    destruct (wp_done _ _ _ _ _ _ E (release_begin_spec cfg tagged_ _ _ _ _ _ s Hok Hs Hex)) as (sp' & Hp & _ & Hok').
    destruct (free_span _ _ _ _ _ (hk_spans _ _ _ _ _ _ _ _ _ Hok) p sp' Hp) as [_ HG].
    assert (live G (delete p F) p = Some (pages_of_span sp')) as Hup by (unfold live; by rewrite lookup_delete_eq).
    destruct (used_span cfg tagged_ _ _ _ _ _ _ _ _ _ Hok' Hup) as (sp0 & Hsp0 & Ef & Ek & _).
    assert (sp0 = sp) as -> by congruence. unfold pages_of_span. rewrite Ef, Ek.
    assert ((U ∪ R) !! p = None) as HpN by (rewrite <-Hu; unfold live; by rewrite Hp).
    apply lookup_union_None in HpN as [HpU HpR]. exists G, (delete p F). split_and!.
    + rewrite range_bytes_insert by done. simpl. unfold span_bytes in Hok'.
      by rewrite Z.add_comm.
    + by apply map_disjoint_insert_r.
    + intros q. rewrite <-insert_union_r by done. destruct (decide (q = p)) as [->|Hq].
      * by rewrite lookup_insert_eq.
      * rewrite lookup_insert_ne, <-Hu by done. by apply used_delete.
  - destruct r as [f n]. exists G, F. split_and!; [|done|done].
    by apply (wp_done _ _ _ _ _ _ E (system_release_spec cfg tagged_ _ _ _ _ _ p sp f n Hok
      (held_in_use U R G F p _ Hd Hu (or_intror Hp)) Hsp)).
  - destruct r as [f n]. pose proof (held_in_use U R G F p _ Hd Hu (or_intror Hp)) as Hup.
    destruct (wp_done _ _ _ _ _ _ E (release_end_spec cfg tagged_ now _ _ _ _ _ p f n Hok Hup)) as (G' & F' & Hok' & Hb & _).
    destruct (used_back U R U (delete p R) G F G' F' p (f, n) Hd Hu Hb) as [Hd' Hu']; [by right|]. exists G', F'.
    split_and!; [|done|done]. by rewrite (range_bytes_delete R p _ Hp).
  - destruct (wp_done _ _ _ _ _ _ E (ReleaseAtLeastNPages_spec cfg tagged_ now num _ _ _ _ _ Hok)) as [(G' & F' & Hok' & H1 & _) _].
    exists G', F'. split_and!; [done|done|]. intros q. by rewrite H1.
Qed.

(** ** Free spans *)

Lemma free_spans_filter rel G F k h :
  heap_ok None no_hole rel G F k h → F = filter (λ x, location x.2 ≠ IN_USE) (spans h).
Proof.
  intros Hok. pose proof (hk_spans _ _ _ _ _ _ _ _ _ Hok) as Hs. apply map_eq. intros p. apply option_eq. intros sp.
  rewrite map_lookup_filter_Some. simpl. split.
  - intros Hp. destruct (sk_free _ _ _ _ _ Hs p sp Hp) as (? & ? & _). done.
  - intros [Hp Hl]. destruct (F !! p) as [sp'|] eqn:E.
    + destruct (sk_free _ _ _ _ _ Hs p sp' E) as (? & _). congruence.
    + destruct Hl. by apply (sk_used _ _ _ _ _ Hs p).
Qed.

Lemma kind_bytes_spans r S : kind_bytes cfg r (filter (λ x, location x.2 ≠ IN_USE) S) = kind_bytes cfg r S.
Proof.
  induction S as [|p sp S Hp IH] using map_ind; [done|]. rewrite kind_bytes_insert by done.
  destruct (decide (location sp = IN_USE)) as [Hl|Hl].
  - rewrite map_filter_insert_False, delete_id, IH by (simpl; tauto || done). rewrite Hl. by destruct r.
  - rewrite map_filter_insert_True by done. rewrite kind_bytes_insert; [by rewrite IH|].
    apply map_lookup_filter_None. by left.
Qed.

Lemma listed_spans r s S : listed cfg r s (filter (λ x, location x.2 ≠ IN_USE) S) = listed cfg r s S.
Proof.
  unfold listed. f_equal. rewrite map_filter_filter. apply map_filter_ext. intros p sp _. simpl.
  split; [tauto|]. intros [Hl Hi]. assert (location sp ≠ IN_USE) by (rewrite Hl; by destruct r). tauto.
Qed.

(** ** Safety *)

(** C9: The page heap never gives out pages twice: after any operations, also
    while other threads release memory, the spans in use share no page; the page
    map finds each of them at its first and last page; their memory was given by
    the system and carries the heap's tag.  No two neighbouring free spans are
    of the same kind, so that all that can be merged is. *)
Theorem page_heap_safe k U R h :
  heap_history k U R h →
  (∀ p q r1 r2 x, (U ∪ R) !! p = Some r1 → (U ∪ R) !! q = Some r2 → in_range r1 x → in_range r2 x → p = q) ∧
  (∀ p f n, (U ∪ R) !! p = Some (f, n) ↔ ∃ sp, spans h !! p = Some sp ∧ location sp = IN_USE ∧ pages_of_span sp = (f, n)) ∧
  (∀ p f n, (U ∪ R) !! p = Some (f, n) →
    0 < n ∧ span_at (pagemap_ h) f = p ∧ span_at (pagemap_ h) (f + n - 1) = p ∧
    ∀ a, f * kPageSize cfg ≤ a < (f + n) * kPageSize cfg →
      given (meta_system (span_allocator h)) a ∧ IsTaggedMemory a = tagged_) ∧
  (∀ p q sp sq, spans h !! p = Some sp → spans h !! q = Some sq → location sp = location sq → location sp ≠ IN_USE →
    first_page sp + num_pages sp ≠ first_page sq).
Proof.
  intros (G & F & Hok & Hd & Hu)%heap_history_inv. pose proof (hk_spans _ _ _ _ _ _ _ _ _ Hok) as Hs.
  pose proof (hk_pages _ _ _ _ _ _ _ _ _ Hok) as Hpg. pose proof (kPageSize_pos cfg) as HP. split_and!.
  - intros p q r1 r2 x. by eapply held_unique.
  - intros p f n. rewrite <-Hu. split.
    + intros Hp. destruct (used_span cfg tagged_ _ _ _ _ _ _ _ _ _ Hok Hp) as (sp & ? & Ef & Ek & ? & _).
      exists sp. unfold pages_of_span. by rewrite Ef, Ek.
    + intros (sp & Hsp & Hl & <-). unfold live. destruct (F !! p) as [s|] eqn:E.
      * destruct (sk_free _ _ _ _ _ Hs p s E) as (Hs' & Hl' & _). congruence.
      * by apply (sk_range _ _ _ _ _ Hs).
  - intros p f n Hp. rewrite <-Hu in Hp.
    destruct (used_span cfg tagged_ _ _ _ _ _ _ _ _ _ Hok Hp) as (_ & _ & _ & _ & _ & _ & HG & _).
    destruct (po_span _ _ _ _ _ _ _ Hpg p f n HG) as (_ & Hn & H1 & H2). split_and!; [done|done|done|].
    intros a Ha. assert (f ≤ a / kPageSize cfg < f + n) as Hq.
    { split; [apply Z.div_le_lower_bound; lia|apply Z.div_lt_upper_bound; lia]. }
    destruct (po_page _ _ _ _ _ _ _ Hpg (a / kPageSize cfg)) as (_ & _ & _ & _ & _ & _ & Hg); [by eapply span_owned|].
    apply Hg. pose proof (Z.div_mod a (kPageSize cfg)). pose proof (Z.mod_pos_bound a (kPageSize cfg)). lia.
  - intros p q sp sq Hp Hq Hl Hne. pose proof (free_spans_filter _ _ _ _ _ Hok) as EF.
    apply (hk_coalesced _ _ _ _ _ _ _ _ _ Hok p q); [| |done]; rewrite EF; apply map_lookup_filter_Some; simpl;
      by rewrite <-?Hl.
Qed.



(** C12: The search of the free lists takes the best fit: the span it returns is one
    of those with the fewest pages among all free spans that are long enough, and
    it returns none only if there is none.  A [Span] object for what is left of
    the span can be had without asking the system. *)
Theorem page_heap_best_fit k U R h n :
  heap_history (S k) U R h → 0 < n →
  ∃ r h', SearchFreeAndLargeLists cfg stale n h = Done (r, h') ∧
    let free q sq := spans h !! q = Some sq ∧ location sq ≠ IN_USE in
    match r with
    | None => h' = h ∧ ∀ q sq, free q sq → num_pages sq < n
    | Some (p, from_returned) => ∃ sp sp', free p sp ∧ location sp = kind_location from_returned ∧ n ≤ num_pages sp ∧
        (∀ q sq, free q sq → n ≤ num_pages sq → num_pages sp ≤ num_pages sq) ∧
        spans h' !! p = Some sp' ∧ location sp' = IN_USE ∧ num_pages sp' = n
    end.
Proof.
  intros (G & F & Hok & Hd & Hu)%heap_history_inv Hn. pose proof (free_spans_filter _ _ _ _ _ Hok) as EF.
  assert (∀ q sq, F !! q = Some sq ↔ spans h !! q = Some sq ∧ location sq ≠ IN_USE) as HF.
  { intros q sq. rewrite EF at 1. by rewrite map_lookup_filter_Some. }
  destruct (wp_total_done _ _ _ (Search_spec cfg tagged_ stale (md := Total) no_hole _ G F (S k) h n Hok Hn ltac:(simpl; lia))) as (r & h' & E & Hr).
  exists r, h'. split; [done|]. cbv zeta. destruct r as [[p fr]|]; simpl in Hr.
  - destruct Hr as (sp & G' & F' & Hp & Hl & [Hge Hmin] & Hok' & _ & [f Hf] & _).
    destruct (used_span cfg tagged_ _ _ _ _ _ _ _ _ _ Hok' Hf) as (sp' & Hsp' & _ & Ek & Hl' & _).
    exists sp, sp'. split_and!; [by apply HF in Hp as []..|done|done| |done|done|done].
    intros q sq Hq. apply Hmin with (q := q). by apply HF.
  - destruct Hr as [-> Hr]. split; [done|]. intros q sq Hq. apply (Hr q). by apply HF.
Qed.

(** C11: Releasing memory comes to an end: [ReleaseAtLeastNPages] returns after
    releasing at least as many pages as asked for, or all pages of the free spans
    that are backed, and reports exactly what it released; the spans in use stay.
    A release that other threads interrupted can always be finished. *)
Theorem page_heap_releases k U R h :
  heap_history k U R h →
  (∀ num, ∃ r h', ReleaseAtLeastNPages cfg now num h = Done (r, h') ∧ heap_history k U R h' ∧
    (num ≤ r ∨ r = kind_bytes cfg false (spans h) / kPageSize cfg) ∧
    kind_bytes cfg false (spans h) = kind_bytes cfg false (spans h') + r * kPageSize cfg) ∧
  (∀ p, is_Some (R !! p) → ∃ sp h1 h2, spans h !! p = Some sp ∧
    on_os (SystemRelease (start_address cfg sp) (bytes_in_span cfg sp)) h = Done (tt, h1) ∧
    release_end cfg now p h1 = Done (tt, h2)).
Proof.
  intros Hh. destruct (heap_history_inv _ _ _ _ Hh) as (G & F & Hok & Hd & Hu). split.
  - intros num.
    destruct (wp_total_done _ _ _ (ReleaseAtLeastNPages_spec cfg tagged_ now num _ _ _ _ _ Hok)) as
      (r & h' & E & (G' & F' & Hok' & _ & _ & Hb & _) & Hall).
    exists r, h'. pose proof (free_spans_filter _ _ _ _ _ Hok) as EF. pose proof (free_spans_filter _ _ _ _ _ Hok') as EF'.
    rewrite EF, EF', !kind_bytes_spans, Z.sub_0_r in Hb. rewrite EF, kind_bytes_spans in Hall.
    split_and!; [done|by eapply hh_release| |done]. destruct (Z.lt_ge_cases r num); [right|left]; auto.
  - intros p [[f n] Hp]. pose proof (held_in_use U R G F p _ Hd Hu (or_intror Hp)) as Hup.
    destruct (used_span cfg tagged_ _ _ _ _ _ _ _ _ _ Hok Hup) as (sp & Hsp & _).
    destruct (wp_total_done _ _ _ (system_release_spec cfg tagged_ _ _ _ _ _ p sp f n Hok Hup Hsp)) as ([] & h1 & E1 & Hok1 & _).
    destruct (wp_total_done _ _ _ (release_end_spec cfg tagged_ now _ _ _ _ _ p f n Hok1 Hup)) as ([] & h2 & E2 & _).
    by exists sp, h1, h2.
Qed.

(** C23: The statistics are those of the spans: the byte counts are the sums over
    the free spans of each kind, with the spans being released counted as free;
    [GetSmallSpanStats] reports the numbers of free spans by length and kind, and
    [GetLargeSpanStats] the numbers and the pages of the long ones. *)
Theorem page_heap_stats k U R h :
  heap_history k U R h →
  free_bytes (backing h) = u64 (kind_bytes cfg false (spans h) + range_bytes R) ∧
  unmapped_bytes (backing h) = kind_bytes cfg true (spans h) ∧
  GetSmallSpanStats cfg h = Done ((λ s, (Z.of_nat (length (listed cfg false s (spans h))),
    Z.of_nat (length (listed cfg true s (spans h))))) <$> seqZ 0 (kMaxPages cfg), h) ∧
  GetLargeSpanStats cfg h = Done (
    let large r := listed cfg r (kMaxPages cfg) (spans h) in
    mk_large (Z.of_nat (length (large false)) + Z.of_nat (length (large true)))
      (pages_of (large false)) (pages_of (large true)), h).
Proof.
  intros (G & F & Hok & _ & _)%heap_history_inv. pose proof (free_spans_filter _ _ _ _ _ Hok) as EF.
  pose proof (free_bytes_bound cfg tagged_ true _ _ _ _ _ _ Hok) as Hb.
  destruct (hk_backing _ _ _ _ _ _ _ _ _ Hok) as [H1 H2]. rewrite u64_id in H2 by lia.
  assert (∀ r, kind_bytes cfg r F = kind_bytes cfg r (spans h)) as Ek by (intros r; rewrite EF; apply kind_bytes_spans).
  assert (∀ r s, listed cfg r s F = listed cfg r s (spans h)) as El by (intros r s; rewrite EF; apply listed_spans).
  rewrite !Ek in H1, H2. split_and!; [done|done| |].
  - destruct (wp_total_done _ _ _ (GetSmallSpanStats_spec cfg tagged_ _ _ _ _ _ _ Hok)) as (v & h' & -> & -> & ->).
    do 2 f_equal. apply list_fmap_ext. intros i s _. by rewrite !El.
  - destruct (wp_total_done _ _ _ (GetLargeSpanStats_spec cfg tagged_ _ _ _ _ _ _ Hok)) as (v & h' & -> & -> & ->).
    cbv zeta. by rewrite !El.
Qed.
End History.

(** ** A heap over the page map, the object allocator and the system allocator *)

Local Abbreviation System := (SysAlloc (K := list event)).
Local Abbreviation Pool := (PageHeapAllocator (OS := System)).
Definition sizeof_Span : Z := 96.
(* The metadata allocator of the page map always has memory. *)
Definition example_metadata (bytes used : Z) : bool * Z := (true, used + bytes).
Lemma sizeof_Span_ok : 0 < sizeof_Span < 2 ^ 40.
Proof. done. Qed.
Lemma page_bits_ok : 15 ≤ 35 ≤ 45.
Proof. done. Qed.

#[local] Instance heap_system_memory : SystemMemory System := SysAlloc_memory example_config.
#[local] Instance heap_system_laws : SystemMemoryLaws System := SysAlloc_laws example_config.
#[local] Instance heap_pool : ObjectPool Pool := PageHeapAllocator_pool example_config System sizeof_Span.
#[local] Instance heap_pool_laws : ObjectPoolLaws Pool := PageHeapAllocator_laws example_config System sizeof_Span sizeof_Span_ok.
#[local] Instance heap_meta_laws : MetaMemoryLaws Pool System :=
  PageHeapAllocator_meta_laws example_config System sizeof_Span sizeof_Span_ok.
#[local] Instance heap_map : PageMapImpl (PageMap2 (A := Z)) := PageMap2_impl example_config 35 example_metadata.
#[local] Instance heap_map_laws : PageMapLaws (PageMap2 (A := Z)) 35 8 _ :=
  PageMap2_laws example_config 35 example_metadata page_bits_ok.

Definition example_stale : Span := mk_span 7 7 7 7 ON_NORMAL_FREELIST true (UStack 7) 7 7.
Definition example_clock (t : nat) : Z := 1000 + Z.of_nat t.
Definition example_pool : Pool := mk_pha (new_Arena (new_SysAlloc [])) 99 (mk_stats 9 9) ∅.

Local Abbreviation example_New := (PageHeap_New example_config false example_stale example_clock).
Local Abbreviation example_history := (heap_history example_config false example_stale example_clock).

(** Room for two hundred spans. *)
Lemma example_pool_ok : ∃ a : Pool, pha_Init example_config sizeof_Span example_pool = Done (tt, a) ∧ pool_inv a ∅ 200.
Proof.
  assert (∃ a, pha_Init example_config sizeof_Span example_pool = Done (tt, a) ∧ free_avail_ (arena_ a) = 2097056)
    as (a & E & Hav).
  { eexists. split; [vm_compute; reflexivity|vm_compute; reflexivity]. }
  exists a. split; [exact E|]. assert (pool_history example_config sizeof_Span ∅ a) as Hh.
  { refine (pool_history_init example_config sizeof_Span example_system [] _ a example_system_ok _ E). constructor. }
  destruct (pool_history_ok example_config sizeof_Span sizeof_Span_ok ∅ a Hh)
    as (B & L & H1 & H2 & H3 & H4 & H5 & H6 & H7 & _).
  exists B, L. clear E Hh. split_and!; [exact H1|exact H2|exact H3|exact H4|exact H5|exact H6|exact H7|].
  rewrite Hav. change (2097056 / round8 sizeof_Span) with 21844. lia.
Qed.

(** A heap from which a span of three pages was taken. *)
Local Abbreviation Heap := (PageHeap (M := PageMap2 (A := Z)) (A := Pool)).

Definition check_span (r : outcome (option Z * Heap)) : bool :=
  match r with
  | Done (Some p, h) =>
      match spans h !! p with
      | Some sp => (first_page sp =? 537001472) && (num_pages sp =? 3) && (unmapped_bytes (backing h) =? 253 * 8192)
      | None => false
      end
  | _ => false
  end.
Definition check_heap (r : outcome Heap) : bool :=
  match r with Done h => check_span (example_New 3 h) | _ => false end.
Definition check_pool (r : outcome (unit * Pool)) : bool :=
  match r with Done (_, a) => check_heap (PageHeap_init example_config (new_PageMap2 0) a) | _ => false end.

Lemma example_checked : check_pool (pha_Init example_config sizeof_Span example_pool) = true.
Proof. vm_compute. reflexivity. Qed.

Lemma example_heap : ∃ p h, example_history 198 (<[p := (537001472, 3)]> ∅) ∅ h ∧ unmapped_bytes (backing h) = 253 * 8192.
Proof.
  destruct example_pool_ok as (a & Ea & Hpool). pose proof example_checked as Hc. rewrite Ea in Hc.
  unfold check_pool in Hc. destruct (PageHeap_init _ _ a) as [h0| | |] eqn:E0; [|done..].
  unfold check_heap in Hc. destruct (example_New 3 h0) as [[[p|] h]| | |] eqn:E; [|done..].
  unfold check_span in Hc. destruct (spans h !! p) as [sp|] eqn:Hsp; [|done].
  apply andb_true_iff in Hc as [[Hf%Z.eqb_eq Hk%Z.eqb_eq]%andb_true_iff Hb%Z.eqb_eq]. exists p, h. split; [|exact Hb].
  assert (pages_of_span sp = (537001472, 3)) as <- by (unfold pages_of_span; by rewrite Hf, Hk).
  apply (hh_new example_config false example_stale example_clock 200 ∅ ∅ h0 3 p sp h); [|lia|exact E|exact Hsp].
  eapply hh_start; [|exact Hpool|exact E0]. done.
Qed.

Lemma page_heap_safe_witness : ∃ p h, example_history 198 (<[p := (537001472, 3)]> ∅) ∅ h ∧
  span_at (pagemap_ h) 537001474 = p.
Proof.
  destruct example_heap as (p & h & Hh & _). exists p, h. split; [exact Hh|].
  destruct (page_heap_safe example_config false example_stale example_clock _ _ _ _ Hh) as (_ & _ & H & _).
  destruct (H p 537001472 3) as (_ & _ & Hl & _); [|exact Hl].
  rewrite map_union_empty. apply lookup_insert_eq.
Defined.


Lemma page_heap_best_fit_witness : ∃ p h, example_history 198 (<[p := (537001472, 3)]> ∅) ∅ h ∧
  ∃ r h', SearchFreeAndLargeLists example_config example_stale 5 h = Done (r, h').
Proof.
  destruct example_heap as (p & h & Hh & _). exists p, h. split; [exact Hh|].
  assert (0 < 5) as H5 by lia.
  destruct (page_heap_best_fit example_config false example_stale example_clock 197 _ _ _ 5 Hh H5) as (r & h' & E & _).
  by exists r, h'.
Defined.

Lemma page_heap_releases_witness : ∃ p h, example_history 198 (<[p := (537001472, 3)]> ∅) ∅ h ∧
  ∃ r h', ReleaseAtLeastNPages example_config example_clock 4 h = Done (r, h').
Proof.
  destruct example_heap as (p & h & Hh & _). exists p, h. split; [exact Hh|].
  destruct (page_heap_releases example_config false example_stale example_clock _ _ _ _ Hh) as [H _].
  destruct (H 4) as (r & h' & E & _). by exists r, h'.
Defined.

Lemma page_heap_stats_witness : ∃ p h, example_history 198 (<[p := (537001472, 3)]> ∅) ∅ h ∧
  kind_bytes example_config true (spans h) = 253 * 8192.
Proof.
  destruct example_heap as (p & h & Hh & Eb). exists p, h. split; [exact Hh|].
  destruct (page_heap_stats example_config false example_stale example_clock 198 _ _ _ Hh) as (_ & H & _).
  by rewrite <-H.
Defined.
